(* ===== verification/_CoqProject ===== *)
-Q . S2P
Prelude.v
JsDate.v
JsString.v
JsNumber.v
JsValue.v
WasmReader.v
WasmWalker.v
CronParser.v
CronNextRun.v
Quotas.v
ScheduleStore.v
CapacityLedger.v
Idempotency.v
CreateCampaign.v
CronTick.v
RetryBackoff.v
DeliveryLedger.v
WebhookDlq.v
WebhookRetry.v
WebhookStore.v
WebhookWorker.v
AuditLog.v
AuditQuery.v
Triage.v
Tenancy.v
QueryLexer.v
QueryParser.v
QueryPrint.v
QueryCompiler.v
RateLimit.v
ReplayJob.v
RouteCatalog.v
RoleStore.v
ApiTokens.v
Sessions.v
Oidc.v
AccessControl.v
Alerts.v
Migrations.v
RequestDedup.v
SignatureNorm.v
FailureClustering.v
CampaignTimeline.v
CampaignRegistry.v
CampaignTimelineRoute.v
FailureClusters.v
UnionFind.v
ClusterMerge.v
TimelineSync.v
RunComparison.v
ReplayDiff.v
RunStream.v
Crc32.v
ZipArchive.v
ReplayBundle.v
ReplayRoute.v
SecretRedaction.v
BodyLimit.v
UploadGate.v
HttpCall.v
KeysetPagination.v
