(* ===== verification/Prelude.v ===== *)
(** * Soroban CrashLab: the web backend, verified

    This library verifies the core logic of the TypeScript application under
    [src/apps/web/src] (paths below are relative to that directory).  The
    application runs fuzzing campaigns against Soroban contracts: a contract's
    WASM is parsed into an interface, campaigns are admitted against capacity
    quotas and launched by hand or on a cron schedule, crashes are replayed as
    jobs, and events leave the system as webhook deliveries that are retried,
    dead-lettered and drained.  The definitions are a shallow embedding:
    TypeScript functions are Rocq functions, mutable stores are passed and
    returned, [throw] is the error monad [result] of this file, and code that
    gives way at an [await] is cut into segments whose interleavings are a step
    relation.  They keep the names of the source where Rocq allows it.

    ** The language

    - [Prelude] (this file): the error monad, 32-bit operators ([to_int32],
      [js_or], [js_shl], ...), stable sorting,
      insertion-ordered maps ([assoc_set], [assoc_get]), reachability ([reachable_inv],
      [simulation_rtc]), list lemmas and tactics.
    - [JsDate]: time values in milliseconds, UTC accessors and setters, ISO
      strings.  [JsString]: strings of code units below 256 and the methods used
      on them.  [JsNumber]: the correctly rounded double where the source
      divides.  [JsValue]: JSON values.

    ** Components

    - [WasmReader], [WasmWalker]: [lib/wasm-parse/].  LEB128 and little-endian
      readers against the encodings they invert (with the exact range where the
      32-bit arithmetic of the source is right and the wrong value beyond it);
      the section walker, and the contract interface of an encoded module.
    - [CronParser], [CronNextRun]: [lib/cron/parser.ts], [next-run.ts].
      Accepted expressions are well formed and the grammar is accepted; the
      search returns the least matching minute and always ends.
    - [ScheduleStore]: [lib/cron/schedule-store.ts] and the schedule routes;
      every handler keeps the store well formed.  [CronTick]:
      [lib/cron/tick-evaluator.ts], [ledger.ts], [lock.ts] and
      [app/api/schedules/tick/route.ts]: which runs a tick creates, that a
      second tick at the same instant creates none, what the locks exclude.
    - [Quotas]: [lib/capacity/quotas.ts], [windows.ts].  [CapacityLedger]:
      [lib/capacity/usage-ledger.ts], [campaign-admission.ts]: the admission
      check, the priority headroom, and the worker limit over all histories.
    - [Idempotency], [CreateCampaign]: [lib/idempotency-key.ts],
      [lib/storage/idempotency-store.ts], [app/api/campaigns/route.ts]: one
      campaign per idempotency key in every interleaving of requests.
    - [RetryBackoff]: [lib/retry-backoff.ts].  [DeliveryLedger]: the abstract
      specification of a durable delivery queue.  [WebhookRetry]:
      [lib/webhook-retry-queue.ts], which refines it under overlapping and
      crashing ticks.  [WebhookDlq]: [lib/webhook-dlq.ts], replay under the
      in-flight lock and the drain.  [WebhookStore]: [lib/webhook-store.ts].
      [WebhookWorker]: [lib/webhook-delivery-worker.ts] and
      [lib/webhook-recovery.ts], which compose the previous ones.
    - [RateLimit]: [lib/fixed-window-limiter.ts], [lib/rate-limit.ts],
      [rate-limit.ts]: the counters, the per-principal policies, the proxy.
    - [ReplayJob]: [lib/replay/job-state.ts], [job-store.ts], [failure.ts]: the
      progress record of a replay and the bounded registry.
    - [AuditLog]: [lib/audit/audit-log.ts], [audit-checkpoint.ts],
      [audit-sink.ts], [redaction.ts]: the hash chain over all histories, what a
      signed checkpoint detects, what redaction lets through.  [AuditQuery]:
      [audit-query.ts], [audit-view-utils.ts] and the cursor fingerprint of
      [app/pagination-utils.ts]: pages that follow one another lose nothing, and
      the CSV export reads back.
    - [Triage]: [lib/triage/] and [app/api/triage/queue/route.ts]: the workflow
      of an item, batches, the stored queue, and the audit trail they leave.
    - [Tenancy]: [lib/tenancy/]: storage keys, scopes, generated ids, the scoped
      repository (no tenant can tell what the others do) and the backfill, which
      loses nothing and can be run again.
    - [QueryLexer], [QueryParser], [QueryCompiler]: [app/search/grammar/]: the
      tokens with their spans, the recursive-descent parser against the grammar
      it documents, and the predicate a query compiles to.  [QueryPrint] is a
      printer of this library, the converse of the parser.
    - [RouteCatalog]: [lib/route-catalog.ts] and the policies that read it
      ([lib/api-scope-enforcer.ts], [lib/permissions.ts]): one entry at most per
      request, and the client's controls agree with the server.  [RoleStore]:
      [lib/storage/role-store.ts] and the entry lists of
      [lib/storage/record-driver.ts].  [ApiTokens]:
      [lib/storage/api-token-store.ts], [token-principal-store.ts],
      [lib/api-key-auth.ts] and [app/api/settings/tokens/]: the status of a token
      after any history.  [Sessions]: [lib/auth/server-session.ts] over records
      that expire: when a cookie is accepted.  [Oidc]: [lib/auth/oidc.ts] and the
      files beside it: what a sign-in has proved, and that a state is used once.
      [AccessControl]: [lib/rbac.ts], [lib/route-guard.ts],
      [app/api/settings/roles/]: who can change roles and tokens through the whole
      request path.
    - [Alerts]: [lib/notifications/alert-policy.ts], [alert-dispatcher.ts]: the
      route of an alert, the life of an incident and its escalation; what was sent
      about an incident is what its record says, in every interleaving.
    - [Migrations]: [lib/database/migration-runner.ts], [migrations/]: the store
      records a prefix of the registered migrations after any ups and downs.
    - [RequestDedup]: [lib/request-dedup.ts]: one request per URL in flight, shared
      for a bounded time, in every interleaving of calls, attempts and timers.
    - [SignatureNorm], [FailureClustering]: [lib/failure-clustering.ts]: the masks
      of a crash signature, word by word, and the clusters, which partition the
      crashes.
    - [FailureClusters]: [app/failureClusters.ts]: exact clusters, built run by run
      as the legacy grouping builds them at once.  [UnionFind], [ClusterMerge]:
      [app/failure-fingerprint.ts], [app/failureClusterMerge.ts]: clusters merged
      by the similarity of their fingerprints are the connected components of the
      pairs above the threshold, and the overlay of manual merges replays.
    - [CampaignTimeline], [CampaignRegistry], [CampaignTimelineRoute]:
      [lib/campaigns/] and [app/api/campaigns/[id]/timeline/route.ts]: the bins
      lose no run, the registry is bounded, a campaign just created is visible to
      its tenant on the route.
    - [TimelineSync]: [lib/timeline-sync/index.ts]: the links between the steps of
      a trace and the log lines nearest to them.  [RunComparison]:
      [lib/comparison/]: what the comparison of two runs counts.  [ReplayDiff]:
      [lib/replay-diff/index.ts]: the tree walk and when it throws.
    - [RunStream]: [lib/sse-stream.ts], [app/api/runs/[id]/stream/route.ts]: the event
      log of a run, shared by its streams, what a client that reconnects is sent, and
      the bounded queues, in every interleaving of polls, reads and disconnections.
    - [Crc32], [ZipArchive]: [app/utils/zip-writer.ts] byte by byte: what is written is
      read back, and a changed content is refused by its checksum.
    - [ReplayBundle], [ReplayRoute]: [lib/replay/environment.ts], [runners.ts],
      [result.ts] and [app/api/runs/[id]/replay/route.ts]: when a replay is held back,
      the seed bundle with its digests, and the request up to and past each of its
      suspension points, over the registry of [ReplayJob].
    - [SecretRedaction]: [lib/redaction.ts], pattern by pattern.  [BodyLimit]:
      [lib/request-size-limits.ts]: the declared length, and the stream that is cut at a
      size or a deadline.  [UploadGate]: [lib/upload-validation.ts],
      [lib/artifact-ingestion.ts], [app/api/uploadthing/core.ts]: only what passes both
      stages of the gate becomes an artifact.
    - [HttpCall]: [lib/http-call.ts]: calls of third parties end within their budget.
    - [KeysetPagination]: [app/pagination-utils.ts], [app/runs-sort-utils.ts]: pages cut
      by a cursor from a list that changes between the fetches.

    How they interact: [CreateCampaign] calls [CapacityLedger] (which asks
    [Quotas]) and [Idempotency]; [CronTick] reads [ScheduleStore], searches with
    [CronNextRun] and asks [Quotas] for the windows; [WebhookWorker] hands what
    failed to [WebhookRetry], which hands what is exhausted to [WebhookDlq]; the
    recovery tick runs the last two.  [Triage] writes its trail into [AuditLog],
    whose redaction every recorded event passes.  [AccessControl] resolves a
    caller through [ApiTokens] and [Sessions], asks [RoleStore] and [RouteCatalog],
    and answers the proxy of [RateLimit]; [Oidc] writes the roles it grants into
    [RoleStore].  [ReplayRoute] asks [ReplayBundle] and drives [ReplayJob].
    [UploadGate] runs the parser of [WasmWalker] and the tests of [SecretRedaction]
    on what was stored, and records refusals in [AuditLog]; [HttpCall] waits as
    [RetryBackoff] says.

    ** Parameters

    Code outside the repository is an argument of what uses it: the SHA-256
    digest and the HMAC, signature verification and key import, [TextDecoder], URL
    parsing, base64 cursors and token segments, [localeCompare], and the dates
    [Date.parse] reads outside the ISO format, [JSON.parse].  So are the clock, the draws
    of [Math.random], generated ids, the answers of receivers and upstream services, the
    file system, the replay process and the object store.  A hypothesis on them (two values do not collide under the
    digest, say) is stated where it is used and has a witness.

    ** Bounds and fuel

    - The loops of [WasmReader] and [WasmWalker] answer [OutOfFuel] when theirs
      is spent.  A LEB128 loop ends by the tenth byte ([uleb_loop_fuel]); the
      section loop consumes a byte or more per iteration, so the length of the
      buffer is enough; the loop of the name section does not always end, which
      is a theorem ([hanging_module_diverges]).
    - [search] runs the [MAX_ITERATIONS] = 10,000 of the source; [nextRun_total]
      proves them enough for every satisfiable expression.
    - The [maxTicks] and [maxScan] of [CronTick] are the source's caps, kept as
      arguments so that concrete inputs evaluate; the theorems hold for all.
    - The lexer of queries has the length of its input as fuel and the parser six
      turns per token; [tokenize_spans] and [parseQuery_grammar] prove both enough.
    - [call_loop] of [HttpCall] has the number of attempts left; the CRC table and the
      byte loops of [ZipArchive] count.
    - The counted loops of the remaining files are recursions on their count or
      on the list they traverse.

    Counters, ids and instants that stay far below 2^53 are integers.  Where the
    width is observable (bitwise operators, [readU64], rounded quotients,
    percentages) it is written out.

    ** Findings

    Some theorems state what the code does where that is not what it means to
    do: wrong LEB128 ranges and the hanging name section, the admission race at
    [await], the [skip] schedules that never fire, the boundary of the lock's
    TTL, deliveries a crash loses, the lost update of the triage queue, expired
    tokens that keep their role, the route guard nothing calls, the closing event
    of a stream that is lost, archives the reader refuses, replays that stay
    running for ever, a module that hangs the upload gate and a secret it lets
    through.  They are named for the behaviour they show.

    ** Not modelled

    - The decoded state model, search ranking, colour contrast and trend
      statistics: floating-point scores, or view models of XDR values.
    - Sanitising and redirects: they are the sanitiser and the URL parser of the
      platform, applied.
    - React components and their view models, HTTP clients of third parties, the
      file, object storage and Redis drivers, WebCrypto, logging,
      declarative schemas, scripts.  The Rust contracts are another program. *)

From stdpp Require Import base list gmap strings numbers sorting.
From Stdlib Require Import ZArith Lia.

#[local] Open Scope Z_scope.

(** [lia] also decides goals with division and remainder by constants. *)
Ltac Zify.zify_post_hook ::= Z.to_euclidean_division_equations.

Create HintDb js.

(** Case analysis on the scrutinee of the first [match] or [if] of the goal
    or of the hypothesis [H], keeping the equation. *)
Ltac case_goal :=
  match goal with
  | |- context [match ?x with _ => _ end] => destruct x eqn:?
  end.
Ltac case_in H :=
  match type of H with
  | context [match ?x with _ => _ end] => destruct x eqn:?
  end.
(** Turns boolean tests in the context into propositions [lia] understands. *)
Ltac bools :=
  repeat match goal with
  | H : (_ && _)%bool = true |- _ => apply andb_true_iff in H; destruct H
  | H : (_ || _)%bool = false |- _ => apply orb_false_iff in H; destruct H
  | H : negb _ = true |- _ => apply negb_true_iff in H
  | H : negb _ = false |- _ => apply negb_false_iff in H
  | H : (_ <? _) = true |- _ => apply Z.ltb_lt in H
  | H : (_ <? _) = false |- _ => apply Z.ltb_ge in H
  | H : (_ <=? _) = true |- _ => apply Z.leb_le in H
  | H : (_ <=? _) = false |- _ => apply Z.leb_gt in H
  | H : (_ =? _) = true |- _ => apply Z.eqb_eq in H
  | H : (_ =? _) = false |- _ => apply Z.eqb_neq in H
  | H : bool_decide _ = true |- _ => apply bool_decide_eq_true in H
  | H : bool_decide _ = false |- _ => apply bool_decide_eq_false in H
  end.

(** ** Results: a value, or the error a [throw] raises *)

Inductive result (E A : Type) : Type :=
  | Ok (a : A)
  | Err (e : E).
Arguments Ok {E A} a.
Arguments Err {E A} e.

#[export] Instance result_ret {E} : MRet (result E) := fun A a => Ok a.
#[export] Instance result_bind {E} : MBind (result E) :=
  fun A B f m => match m with Ok a => f a | Err e => Err e end.
#[export] Instance result_fmap {E} : FMap (result E) :=
  fun A B f m => match m with Ok a => Ok (f a) | Err e => Err e end.

Definition is_Ok {E A} (r : result E A) : Prop := exists a, r = Ok a.
Definition ok_of {E A} (r : result E A) : option A :=
  match r with Ok a => Some a | Err _ => None end.

Lemma bind_Ok {E A B} (m : result E A) (f : A -> result E B) (b : B) :
  m ≫= f = Ok b <-> exists a, m = Ok a /\ f a = Ok b.
Proof.
  destruct m as [a|e]; simpl; split.
  - intros H. exists a. auto.
  - intros (a' & [= <-] & H). exact H.
  - discriminate.
  - intros (a' & [=] & _).
Qed.

(** ** JavaScript numbers under the 32-bit bitwise operators

    [ToInt32] of the language; [|] and [<<] convert their operands with it,
    and a shift count is taken modulo 32. *)

Definition to_int32 (z : Z) : Z :=
  let u := z mod 4294967296 in
  if u <? 2147483648 then u else u - 4294967296.
Definition js_or (a b : Z) : Z := Z.lor (to_int32 a) (to_int32 b).
Definition js_and (a b : Z) : Z := Z.land (to_int32 a) (to_int32 b).
Definition js_shl (a s : Z) : Z := to_int32 (Z.shiftl (to_int32 a) (s mod 32)).
Definition js_xor (a b : Z) : Z := Z.lxor (to_int32 a) (to_int32 b).
(** [>>>]. *)
Definition js_ushr (a s : Z) : Z := Z.shiftr (a mod 4294967296) (s mod 32).

Definition int32 (z : Z) : Prop := -2147483648 <= z < 2147483648.

Lemma to_int32_range z : int32 (to_int32 z).
Proof. unfold int32, to_int32. destruct (Z.ltb_spec (z mod 4294967296) 2147483648); lia. Qed.
Lemma to_int32_id z : int32 z -> to_int32 z = z.
Proof.
  unfold int32, to_int32. intros H.
  destruct (Z.ltb_spec (z mod 4294967296) 2147483648); lia.
Qed.
Lemma to_int32_congr a b : a mod 4294967296 = b mod 4294967296 -> to_int32 a = to_int32 b.
Proof. unfold to_int32. by intros ->. Qed.
#[export] Hint Resolve to_int32_range : js.

(** Rounding of an integer to the nearest double, ties to even: the result of
    one arithmetic operation whose exact result is [z]. *)
Definition to_double (z : Z) : Z :=
  let a := Z.abs z in
  if a <=? 9007199254740992 then z
  else
    let u := 2 ^ (Z.log2 a - 52) in
    let m := a / u in
    let r := a mod u in
    let up := (u <? 2 * r) || ((2 * r =? u) && Z.odd m) in
    Z.sgn z * ((if up then m + 1 else m) * u).

Lemma to_double_exact z : Z.abs z <= 9007199254740992 -> to_double z = z.
Proof. intros H. unfold to_double. by rewrite (proj2 (Z.leb_le _ _)). Qed.

(** Bits of the 32-bit operators. *)
Lemma to_int32_testbit z i :
  0 <= i -> Z.testbit (to_int32 z) i = Z.testbit z (Z.min i 31).
Proof.
  intros Hi. assert (Hu : forall j, 0 <= j < 32 -> Z.testbit (z mod 2 ^ 32) j = Z.testbit z j).
  { intros j Hj. by rewrite Z.mod_pow2_bits_low by lia. }
  assert (H31 : Z.testbit z 31 = (2147483648 <=? z mod 4294967296)).
  { rewrite <- (Hu 31) by lia. rewrite Z.testbit_odd, Z.shiftr_div_pow2 by lia.
    change (2 ^ 32) with 4294967296. change (2 ^ 31) with 2147483648.
    destruct (Z.leb_spec 2147483648 (z mod 4294967296)).
    - replace (z mod 4294967296 / 2147483648) with 1 by lia. done.
    - replace (z mod 4294967296 / 2147483648) with 0 by lia. done. }
  unfold to_int32. change (z mod 4294967296) with (z mod 2 ^ 32) in *.
  destruct (Z.ltb_spec (z mod 2 ^ 32) 2147483648) as [Hlt|Hge].
  - destruct (Z.lt_ge_cases i 32).
    + rewrite Hu by lia. by replace (Z.min i 31) with i by lia.
    + rewrite Z.min_r by lia. rewrite H31, (proj2 (Z.leb_gt _ _)) by done.
      apply Z.bits_above_log2; [lia|].
      destruct (Z.eq_dec (z mod 2 ^ 32) 0) as [->|]; [simpl; lia|].
      apply Z.log2_lt_pow2; [lia|]. eapply Z.lt_le_trans; [exact Hlt|].
      change 2147483648 with (2 ^ 31). apply Z.pow_le_mono_r; lia.
  - destruct (Z.lt_ge_cases i 32).
    + replace (Z.min i 31) with i by lia. rewrite <- (Hu i) by lia.
      rewrite <- (Z.mod_pow2_bits_low (_ - _) 32 i) by lia. f_equal.
      change (2 ^ 32) with 4294967296 in *. lia.
    + rewrite Z.min_r by lia. rewrite H31, (proj2 (Z.leb_le _ _)) by done.
      apply Z.bits_above_log2_neg; [change (2 ^ 32) with 4294967296 in *; lia|].
      replace (Z.pred (- (z mod 2 ^ 32 - 4294967296))) with (4294967295 - z mod 2 ^ 32) by lia.
      destruct (Z.eq_dec (4294967295 - z mod 2 ^ 32) 0) as [->|]; [simpl; lia|].
      apply Z.log2_lt_pow2; [change (2 ^ 32) with 4294967296 in *; lia|].
      eapply Z.lt_le_trans with (2 ^ 31); [change (2 ^ 31) with 2147483648;
        change (2 ^ 32) with 4294967296 in *; lia|]. apply Z.pow_le_mono_r; lia.
Qed.
Lemma to_int32_lor a b : to_int32 (Z.lor a b) = js_or a b.
Proof.
  unfold js_or. apply Z.bits_inj'. intros i Hi.
  rewrite Z.lor_spec, !to_int32_testbit, Z.lor_spec by done. done.
Qed.
Lemma to_int32_idem z : to_int32 (to_int32 z) = to_int32 z.
Proof. apply to_int32_id, to_int32_range. Qed.
Lemma js_or_shl (a c s : Z) :
  0 <= s < 32 -> js_or (to_int32 a) (js_shl c s) = to_int32 (Z.lor a (Z.shiftl c s)).
Proof.
  intros Hs. rewrite to_int32_lor. unfold js_or, js_shl. rewrite !to_int32_idem.
  f_equal. rewrite Z.mod_small by lia. apply Z.bits_inj'. intros i Hi.
  rewrite !to_int32_testbit, !Z.shiftl_spec by lia.
  destruct (Z.le_gt_cases 0 (Z.min i 31 - s)).
  - rewrite to_int32_testbit by lia. f_equal. lia.
  - by rewrite !Z.testbit_neg_r.
Qed.
(** Combining disjoint bits is addition. *)
Lemma lor_shiftl_add a c s :
  0 <= s -> 0 <= a < 2 ^ s -> Z.lor a (Z.shiftl c s) = a + c * 2 ^ s.
Proof.
  intros Hs Ha. rewrite <- Z.shiftl_mul_pow2 by done. symmetry.
  apply Z.add_nocarry_lor.
  apply Z.bits_inj'; intros i Hi; rewrite Z.land_spec, Z.shiftl_spec, Z.bits_0 by done;
    destruct (Z.lt_ge_cases i s);
    [ rewrite (Z.testbit_neg_r c) by lia; apply andb_false_r
    | ].
  destruct (Z.eq_dec a 0) as [->|]; [by rewrite Z.bits_0|].
  rewrite (Z.bits_above_log2 a); [done|lia|]. apply Z.log2_lt_pow2; [lia|].
  eapply Z.lt_le_trans; [apply Ha|]. apply Z.pow_le_mono_r; lia.
Qed.

(** ** Stable sorting by a comparator

    [sort_by le l] is the stable sort of [l] when [le] is a total preorder;
    [le a b] stands for "the comparator does not return a positive number". *)

Section StableSort.
Context {A : Type} (le : A -> A -> bool).

Fixpoint insert_by (x : A) (l : list A) : list A :=
  match l with
  | [] => [x]
  | y :: l' => if le x y then x :: l else y :: insert_by x l'
  end.
Fixpoint sort_by (l : list A) : list A :=
  match l with
  | [] => []
  | x :: l' => insert_by x (sort_by l')
  end.

Lemma insert_by_perm x l : insert_by x l ≡ₚ x :: l.
Proof.
  induction l as [|y l IH]; simpl; [done|].
  destruct (le x y); [done|]. rewrite IH. apply perm_swap.
Qed.
Lemma sort_by_perm l : sort_by l ≡ₚ l.
Proof. induction l as [|x l IH]; simpl; [done|]. by rewrite insert_by_perm, IH. Qed.
Lemma sort_by_length l : length (sort_by l) = length l.
Proof. apply Permutation_length, sort_by_perm. Qed.
Lemma elem_of_sort_by x l : x ∈ sort_by l <-> x ∈ l.
Proof. by rewrite sort_by_perm. Qed.

Context (le_total : forall a b, le a b = true \/ le b a = true).
Context (le_trans : forall a b c, le a b = true -> le b c = true -> le a c = true).

Lemma insert_by_sorted x l :
  StronglySorted (fun a b => le a b = true) l ->
  StronglySorted (fun a b => le a b = true) (insert_by x l).
Proof.
  induction 1 as [|y l Hl IH Hy]; simpl.
  - repeat constructor.
  - destruct (le x y) eqn:E.
    + constructor; [by constructor|]. constructor; [done|].
      eapply Forall_impl; [exact Hy|]. intros z Hz. eapply le_trans; eauto.
    + constructor; [done|]. rewrite insert_by_perm. constructor; [|done].
      destruct (le_total x y); congruence.
Qed.
Lemma sort_by_sorted l : StronglySorted (fun a b => le a b = true) (sort_by l).
Proof. induction l; simpl; [constructor|]. by apply insert_by_sorted. Qed.
End StableSort.

(** The comparator [(a, b) => key(a) - key(b)]. *)
Definition le_key {A} (key : A -> Z) (a b : A) : bool := key a <=? key b.
Definition sort_on {A} (key : A -> Z) (l : list A) : list A := sort_by (le_key key) l.

Lemma sort_on_sorted {A} (key : A -> Z) (l : list A) :
  StronglySorted (fun a b => key a <= key b) (sort_on key l).
Proof.
  assert (H : StronglySorted (fun a b => le_key key a b = true) (sort_on key l)).
  { apply sort_by_sorted; unfold le_key; intros; rewrite ?Z.leb_le in *; lia. }
  induction H as [|x l' _ IH Hx]; constructor; [done|].
  eapply Forall_impl; [exact Hx|]. intros y. apply Z.leb_le.
Qed.
Lemma sort_on_perm {A} (key : A -> Z) (l : list A) : sort_on key l ≡ₚ l.
Proof. apply sort_by_perm. Qed.
#[export] Hint Resolve sort_on_sorted sort_on_perm : js.

(** ** JavaScript arrays *)

(** [arr.slice(-n)] for [0 < n]: the last [n] elements. *)
Definition slice_last {A} (n : nat) (l : list A) : list A := drop (length l - n) l.

(** ** Lists without duplicates *)

Lemma NoDup_fmap_filter {A B} (f : A -> B) (P : A -> Prop) `{!forall x, Decision (P x)} l :
  NoDup (f <$> l) -> NoDup (f <$> filter P l).
Proof.
  induction l as [|x l IH]; intros Hn; [done|]. cbn [fmap list_fmap] in Hn.
  apply NoDup_cons in Hn as [Hx Hn]. rewrite filter_cons. case_decide; [|by apply IH].
  cbn [fmap list_fmap]. apply NoDup_cons. split; [|by apply IH]. intros Hin. apply Hx.
  apply list_elem_of_fmap in Hin as (y & -> & Hy). apply list_elem_of_filter in Hy as [_ Hy].
  by apply list_elem_of_fmap_2.
Qed.

(** Filters that keep everything, or nothing. *)
Lemma filter_all {A} (P : A -> Prop) (HP : forall x, Decision (P x)) (l : list A) :
  (forall x, x ∈ l -> P x) -> filter P l = l.
Proof.
  induction l as [|x l IH]; intros H; [done|]. rewrite filter_cons, decide_True by (apply H, list_elem_of_here).
  f_equal. apply IH. intros y Hy. apply H. by apply list_elem_of_further.
Qed.
Lemma filter_none {A} (P : A -> Prop) (HP : forall x, Decision (P x)) (l : list A) :
  (forall x, x ∈ l -> ~ P x) -> filter P l = [].
Proof.
  induction l as [|x l IH]; intros H; [done|]. rewrite filter_cons, decide_False by (apply H, list_elem_of_here).
  apply IH. intros y Hy. apply H. by apply list_elem_of_further.
Qed.

(** The same for the boolean filter of the Standard Library. *)
Lemma keep_all {A} (p : A -> bool) (l : list A) : (forall x, x ∈ l -> p x = true) -> List.filter p l = l.
Proof.
  induction l as [|x l IH]; intros H; [done|]. cbn. rewrite (H x) by apply list_elem_of_here. f_equal.
  apply IH. intros y Hy. apply H. by apply list_elem_of_further.
Qed.
Lemma keep_none {A} (p : A -> bool) (l : list A) : (forall x, x ∈ l -> p x = false) -> List.filter p l = [].
Proof.
  induction l as [|x l IH]; intros H; [done|]. cbn. rewrite (H x) by apply list_elem_of_here.
  apply IH. intros y Hy. apply H. by apply list_elem_of_further.
Qed.

(** [omap], one element at a time. *)
Lemma omap_step {A B} (f : A -> option B) (x : A) (l : list A) :
  omap f (x :: l) = option_list (f x) ++ omap f l.
Proof. cbn. by destruct (f x). Qed.

(** ** A [Map] in insertion order *)

Section AssocMap.
Context {V : Type}.

(** [m.set(k, v)]: a new key comes last, a known one keeps its place. *)
Fixpoint assoc_set (k : string) (v : V) (m : list (string * V)) : list (string * V) :=
  match m with
  | [] => [(k, v)]
  | (k', v') :: m' => if decide (k' = k) then (k', v) :: m' else (k', v') :: assoc_set k v m'
  end.
Fixpoint assoc_get (k : string) (m : list (string * V)) : option V :=
  match m with [] => None | (k', v) :: m' => if decide (k' = k) then Some v else assoc_get k m' end.

Lemma assoc_get_set (k x : string) (v : V) (m : list (string * V)) :
  assoc_get x (assoc_set k v m) = if bool_decide (x = k) then Some v else assoc_get x m.
Proof.
  induction m as [|[k' v'] m IH]; cbn [assoc_set assoc_get].
  - destruct (decide (k = x)) as [->|]; [by rewrite bool_decide_eq_true_2|by rewrite bool_decide_eq_false_2].
  - destruct (decide (k' = k)) as [->|Hne]; cbn [assoc_get].
    + destruct (decide (k = x)) as [->|]; [by rewrite bool_decide_eq_true_2|by rewrite bool_decide_eq_false_2].
    + destruct (decide (k' = x)) as [->|]; [by rewrite bool_decide_eq_false_2|exact IH].
Qed.
Lemma assoc_set_keys (k : string) (v : V) (m : list (string * V)) :
  NoDup m.*1 -> NoDup (assoc_set k v m).*1 /\ forall x, x ∈ (assoc_set k v m).*1 <-> x = k \/ x ∈ m.*1.
Proof.
  induction m as [|[k' v'] m IH]; cbn [assoc_set fmap list_fmap fst].
  - intros _. split; [apply NoDup_singleton|]. intros x. rewrite list_elem_of_singleton. pose proof (not_elem_of_nil x). tauto.
  - intros [Hk Hn]%NoDup_cons. destruct (IH Hn) as [IH1 IH2].
    destruct (decide (k' = k)) as [->|Hne]; cbn [fmap list_fmap fst].
    + split; [by apply NoDup_cons|]. intros x. rewrite elem_of_cons. tauto.
    + split; [apply NoDup_cons; split; [|done]; rewrite IH2; by intros [?|?]|]. intros x. rewrite !elem_of_cons, IH2. tauto.
Qed.
Lemma assoc_get_key (k : string) (m : list (string * V)) : is_Some (assoc_get k m) <-> k ∈ m.*1.
Proof.
  induction m as [|[k' v] m IH]; cbn [assoc_get fmap list_fmap fst].
  - split; [by intros [? ?]|by intros ?%elem_of_nil].
  - rewrite elem_of_cons, <- IH. destruct (decide (k' = k)) as [->|Hne].
    + split; [by left|]. intros _. by eexists.
    + split; [by right|]. by intros [->|?].
Qed.
End AssocMap.

(** ** Simulation

    A concrete system whose every step, from a state satisfying [inv], is a step
    of an abstract one on the abstracted states: whatever it reaches, the
    specification reaches too. *)

Section Simulation.
Context {C S : Type} (cstep : C -> C -> Prop) (sstep : S -> S -> Prop).
Context (inv : C -> Prop) (abs : C -> S).
Hypothesis inv_step : forall c c', inv c -> cstep c c' -> inv c'.
Hypothesis sim_step : forall c c', inv c -> cstep c c' -> sstep (abs c) (abs c').

Lemma simulation_rtc c c' : inv c -> rtc cstep c c' -> inv c' /\ rtc sstep (abs c) (abs c').
Proof.
  intros Hi Hs. induction Hs as [c|c1 c2 c3 H _ IH]; [by split; [|apply rtc_refl]|].
  destruct IH as [H1 H2]; [by eapply inv_step|]. split; [done|].
  eapply rtc_l; [by apply sim_step|done].
Qed.
End Simulation.
(** An invariant of every step holds in every reachable state. *)
Lemma reachable_inv {C} (cstep : C -> C -> Prop) (inv : C -> Prop) :
  (forall c c', cstep c c' -> inv c -> inv c') -> forall c c', rtc cstep c c' -> inv c -> inv c'.
Proof. intros H c c' Hs. induction Hs as [|c1 c2 c3 H1 _ IH]; [done|]. intros Hi. by eapply IH, H. Qed.
