(* ===== verification/JsDate.v ===== *)
(** JavaScript [Date]: the proleptic Gregorian calendar on time values
    (milliseconds since the epoch), the UTC accessors and setters, and the
    ISO strings [toISOString] prints and [Date.parse] reads.

    The definitions follow the abstract operations of the language
    specification (Day, YearFromTime, MonthFromTime, MakeDay, MakeDate,
    TimeClip).  A [Date] whose time value is NaN is [None]. *)

From S2P Require Import Prelude.
From stdpp Require Import base list strings numbers.
From Stdlib Require Import ZArith Lia.
From Stdlib Require Import Ascii String.
#[local] Open Scope Z_scope.

Definition ms_per_day : Z := 86400000.
Definition ms_per_minute : Z := 60000.

(** ** Days and years *)

Definition day (t : Z) : Z := t / ms_per_day.
Definition time_within_day (t : Z) : Z := t mod ms_per_day.

Definition day_from_year (y : Z) : Z :=
  365 * (y - 1970) + (y - 1969) / 4 - (y - 1901) / 100 + (y - 1601) / 400.

(** The year [y] with [day_from_year y <= d < day_from_year (y + 1)]: an
    estimate from the mean year length, corrected by at most one. *)
Definition year_from_day (d : Z) : Z :=
  let y := d * 400 / 146097 + 1970 in
  if d <? day_from_year y then y - 1
  else if day_from_year (y + 1) <=? d then y + 1 else y.

Definition in_leap_year (y : Z) : Z :=
  if day_from_year (y + 1) - day_from_year y =? 366 then 1 else 0.

Definition day_within_year (d : Z) : Z := d - day_from_year (year_from_day d).

(** Day of the year on which month [m] (0-11) starts; 365 or 366 for 12. *)
Definition month_start (leap m : Z) : Z :=
  if m <=? 0 then 0 else if m =? 1 then 31
  else leap +
    (if m =? 2 then 59 else if m =? 3 then 90 else if m =? 4 then 120
     else if m =? 5 then 151 else if m =? 6 then 181 else if m =? 7 then 212
     else if m =? 8 then 243 else if m =? 9 then 273 else if m =? 10 then 304
     else if m =? 11 then 334 else 365).

Definition month_from_day (d : Z) : Z :=
  let l := in_leap_year (year_from_day d) in
  let n := day_within_year d in
  if n <? 31 then 0 else if n <? 59 + l then 1 else if n <? 90 + l then 2
  else if n <? 120 + l then 3 else if n <? 151 + l then 4 else if n <? 181 + l then 5
  else if n <? 212 + l then 6 else if n <? 243 + l then 7 else if n <? 273 + l then 8
  else if n <? 304 + l then 9 else if n <? 334 + l then 10 else 11.

Definition date_from_day (d : Z) : Z :=
  day_within_year d - month_start (in_leap_year (year_from_day d)) (month_from_day d) + 1.

(** ** The UTC accessors *)

Definition get_utc_full_year (t : Z) : Z := year_from_day (day t).
Definition get_utc_month (t : Z) : Z := month_from_day (day t).
Definition get_utc_date (t : Z) : Z := date_from_day (day t).
Definition get_utc_day (t : Z) : Z := (day t + 4) mod 7.
Definition get_utc_hours (t : Z) : Z := t / 3600000 mod 24.
Definition get_utc_minutes (t : Z) : Z := t / 60000 mod 60.
Definition get_utc_seconds (t : Z) : Z := t / 1000 mod 60.
Definition get_utc_ms (t : Z) : Z := t mod 1000.

(** ** Making dates *)

Definition make_time (h mi s ms : Z) : Z := h * 3600000 + mi * 60000 + s * 1000 + ms.
Definition make_day (y m dt : Z) : Z :=
  let ym := y + m / 12 in
  day_from_year ym + month_start (in_leap_year ym) (m mod 12) + dt - 1.
Definition make_date (d tm : Z) : Z := d * ms_per_day + tm.

Definition max_time : Z := 8640000000000000.
Definition time_clip (t : Z) : option Z :=
  if Z.abs t <=? max_time then Some t else None.

(** [Date.UTC]; a year of 0-99 stands for 1900-1999. *)
Definition date_utc (y m dt h mi s ms : Z) : option Z :=
  let yr := if (0 <=? y) && (y <=? 99) then 1900 + y else y in
  time_clip (make_date (make_day yr m dt) (make_time h mi s ms)).

Definition set_utc_month (t m dt : Z) : option Z :=
  time_clip (make_date (make_day (get_utc_full_year t) m dt) (time_within_day t)).
Definition set_utc_date (t dt : Z) : option Z :=
  time_clip (make_date (make_day (get_utc_full_year t) (get_utc_month t) dt) (time_within_day t)).
Definition set_utc_hours (t h mi s ms : Z) : option Z :=
  time_clip (make_date (day t) (make_time h mi s ms)).
Definition set_utc_minutes (t mi s ms : Z) : option Z :=
  time_clip (make_date (day t) (make_time (get_utc_hours t) mi s ms)).

(** ** Facts about the calendar *)

(** Evaluates [month_start l m] at a literal month. *)
Ltac eval_month_start :=
  repeat match goal with
  | |- context [month_start ?l ?m] =>
      let m' := eval vm_compute in m in
      let r := eval cbv [month_start Z.leb Z.eqb Z.compare Pos.compare
                         Pos.compare_cont Pos.eqb] in (month_start l m') in
      change (month_start l m) with r
  end.

Lemma day_from_year_step y :
  day_from_year (y + 1) = day_from_year y + 365 + in_leap_year y.
Proof.
  unfold in_leap_year.
  destruct (Z.eqb_spec (day_from_year (y + 1) - day_from_year y) 366);
    unfold day_from_year in *; lia.
Qed.
Lemma in_leap_year_range y : 0 <= in_leap_year y <= 1.
Proof. unfold in_leap_year. destruct (_ =? _); lia. Qed.
Lemma day_from_year_mono y y' : y <= y' -> day_from_year y <= day_from_year y'.
Proof. unfold day_from_year. lia. Qed.

Lemma year_from_day_spec d :
  day_from_year (year_from_day d) <= d < day_from_year (year_from_day d + 1).
Proof.
  unfold year_from_day.
  destruct (Z.ltb_spec d (day_from_year (d * 400 / 146097 + 1970))).
  - unfold day_from_year in *. lia.
  - destruct (Z.leb_spec (day_from_year (d * 400 / 146097 + 1970 + 1)) d);
      unfold day_from_year in *; lia.
Qed.
Lemma year_from_day_unique d y :
  day_from_year y <= d < day_from_year (y + 1) -> year_from_day d = y.
Proof.
  intros H. pose proof (year_from_day_spec d) as H'.
  destruct (Z.lt_trichotomy (year_from_day d) y) as [Hlt|[?|Hlt]]; [|done|].
  - pose proof (day_from_year_mono (year_from_day d + 1) y). lia.
  - pose proof (day_from_year_mono (y + 1) (year_from_day d)). lia.
Qed.

Lemma day_within_year_range d :
  0 <= day_within_year d < 365 + in_leap_year (year_from_day d).
Proof.
  unfold day_within_year. pose proof (year_from_day_spec d) as H.
  rewrite day_from_year_step in H. lia.
Qed.

(** The month of a day is the one whose interval of the year holds it. *)
Lemma month_from_day_spec d :
  0 <= month_from_day d <= 11 /\
  month_start (in_leap_year (year_from_day d)) (month_from_day d) <= day_within_year d
    < month_start (in_leap_year (year_from_day d)) (month_from_day d + 1).
Proof.
  unfold month_from_day. pose proof (day_within_year_range d) as Hn.
  pose proof (in_leap_year_range (year_from_day d)) as Hl.
  remember (in_leap_year (year_from_day d)) as l. remember (day_within_year d) as n.
  repeat match goal with |- context [?a <? ?b] => destruct (Z.ltb_spec a b) end;
    eval_month_start; lia.
Qed.
Lemma month_start_step l m :
  0 <= l <= 1 -> 0 <= m <= 11 -> month_start l m < month_start l (m + 1).
Proof.
  intros Hl Hm.
  assert (m = 0 \/ m = 1 \/ m = 2 \/ m = 3 \/ m = 4 \/ m = 5 \/ m = 6 \/ m = 7 \/ m = 8
          \/ m = 9 \/ m = 10 \/ m = 11) as Hc by lia.
  repeat (destruct Hc as [->|Hc]; [eval_month_start; lia|]).
  subst m. eval_month_start. lia.
Qed.
Lemma month_start_mono l m m' :
  0 <= l <= 1 -> 0 <= m <= m' -> m' <= 12 -> month_start l m <= month_start l m'.
Proof.
  intros Hl [H0 H] H12. replace m' with (m + Z.of_nat (Z.to_nat (m' - m))) in * by lia.
  clear H. induction (Z.to_nat (m' - m)) as [|k IH]; [rewrite Z.add_0_r; lia|].
  pose proof (month_start_step l (m + Z.of_nat k)).
  replace (m + Z.of_nat (S k)) with (m + Z.of_nat k + 1) in * by lia. lia.
Qed.
Lemma month_from_day_unique d m :
  0 <= m <= 11 ->
  month_start (in_leap_year (year_from_day d)) m <= day_within_year d
    < month_start (in_leap_year (year_from_day d)) (m + 1) ->
  month_from_day d = m.
Proof.
  intros Hm H. pose proof (month_from_day_spec d) as [Hr H'].
  pose proof (in_leap_year_range (year_from_day d)) as Hl.
  remember (in_leap_year (year_from_day d)) as l.
  destruct (Z.lt_trichotomy (month_from_day d) m) as [Hlt|[?|Hlt]]; [|done|].
  - pose proof (month_start_mono l (month_from_day d + 1) m). lia.
  - pose proof (month_start_mono l (m + 1) (month_from_day d)). lia.
Qed.

(** Reading the fields of a day and making a day of them is the identity. *)
Lemma make_day_fields d :
  make_day (year_from_day d) (month_from_day d) (date_from_day d) = d.
Proof.
  unfold make_day, date_from_day, day_within_year.
  pose proof (month_from_day_spec d) as [Hr _].
  rewrite (Z.div_small (month_from_day d)), (Z.mod_small (month_from_day d)) by lia.
  rewrite Z.add_0_r. lia.
Qed.

(** Conversely the fields of [make_day y m dt] are [y], [m] and [dt] when
    [dt] is a day of that month. *)
Lemma make_day_spec y m dt :
  0 <= m <= 11 ->
  1 <= dt <= month_start (in_leap_year y) (m + 1) - month_start (in_leap_year y) m ->
  let d := make_day y m dt in
  year_from_day d = y /\ month_from_day d = m /\ date_from_day d = dt.
Proof.
  intros Hm Hdt d.
  assert (Ed : d = day_from_year y + month_start (in_leap_year y) m + dt - 1).
  { unfold d, make_day. rewrite (Z.div_small m), (Z.mod_small m), Z.add_0_r by lia. lia. }
  clearbody d.
  pose proof (in_leap_year_range y) as Hl.
  assert (Hy : year_from_day d = y).
  { apply year_from_day_unique. rewrite day_from_year_step.
    pose proof (month_start_mono (in_leap_year y) 0 m).
    pose proof (month_start_mono (in_leap_year y) (m + 1) 12).
    change (month_start (in_leap_year y) 0) with 0 in *.
    assert (month_start (in_leap_year y) 12 = in_leap_year y + 365) by reflexivity.
    lia. }
  assert (Hmo : month_from_day d = m).
  { apply month_from_day_unique; [done|]. unfold day_within_year. rewrite Hy. lia. }
  split; [done|]. split; [done|].
  unfold date_from_day, day_within_year. rewrite Hmo, Hy. lia.
Qed.

(** The first day of the month after that of [d], and every day before it,
    from [d] on, is in the month of [d]. *)
Lemma next_month_start d :
  d < make_day (year_from_day d) (month_from_day d + 1) 1.
Proof.
  pose proof (month_from_day_spec d) as [Hr H]. unfold make_day, day_within_year in *.
  destruct (Z.eq_dec (month_from_day d) 11) as [E|E].
  - rewrite E. change ((11 + 1) / 12) with 1. change ((11 + 1) mod 12) with 0.
    change (month_start _ 0) with 0.
    pose proof (year_from_day_spec d). lia.
  - rewrite (Z.div_small (_ + 1)), (Z.mod_small (_ + 1)), Z.add_0_r by lia. lia.
Qed.
Lemma same_month_until_next d d' :
  d <= d' < make_day (year_from_day d) (month_from_day d + 1) 1 ->
  year_from_day d' = year_from_day d /\ month_from_day d' = month_from_day d.
Proof.
  intros [Hle Hlt]. pose proof (month_from_day_spec d) as [Hr H].
  pose proof (year_from_day_spec d) as Hy. pose proof (in_leap_year_range (year_from_day d)).
  unfold make_day in Hlt.
  assert (Hlt' : d' < day_from_year (year_from_day d)
                 + month_start (in_leap_year (year_from_day d)) (month_from_day d + 1)).
  { destruct (Z.eq_dec (month_from_day d) 11) as [E|E].
    - rewrite E in Hlt. change ((11 + 1) / 12) with 1 in Hlt.
      change ((11 + 1) mod 12) with 0 in Hlt. change (month_start _ 0) with 0 in Hlt.
      rewrite day_from_year_step in Hlt. rewrite E.
      change (month_start (in_leap_year (year_from_day d)) (11 + 1))
        with (in_leap_year (year_from_day d) + 365). lia.
    - rewrite (Z.div_small (_ + 1)), (Z.mod_small (_ + 1)), Z.add_0_r in Hlt by lia. lia. }
  assert (Hyear : year_from_day d' = year_from_day d).
  { apply year_from_day_unique. rewrite day_from_year_step.
    pose proof (month_start_mono (in_leap_year (year_from_day d)) (month_from_day d + 1) 12).
    change (month_start (in_leap_year (year_from_day d)) 12)
      with (in_leap_year (year_from_day d) + 365) in *. lia. }
  split; [done|]. apply month_from_day_unique; [done|].
  unfold day_within_year in *. rewrite Hyear. lia.
Qed.

Lemma make_day_next_date d :
  make_day (year_from_day d) (month_from_day d) (date_from_day d + 1) = d + 1.
Proof.
  pose proof (make_day_fields d) as H. unfold make_day in *. lia.
Qed.

(** ** ISO strings

    [toISOString], and [Date.parse] on the Date Time String Format of the
    language with a UTC designator or offset.  A date-time without an offset
    is local time, which depends on the host and which the modelled code never
    writes; like a string outside the format, it reads as NaN ([None]). *)

Definition digit_char (d : Z) : ascii := ascii_of_N (Z.to_N (48 + d)).
Definition digit_val (c : ascii) : option Z :=
  let n := Z.of_N (N_of_ascii c) in
  if (48 <=? n) && (n <=? 57) then Some (n - 48) else None.

(** [n] decimal digits of [z], most significant first. *)
Fixpoint pad_digits (n : nat) (z : Z) (rest : string) : string :=
  match n with
  | O => rest
  | S n' => pad_digits n' (z / 10) (String (digit_char (z mod 10)) rest)
  end.

Definition iso_year (y : Z) (rest : string) : string :=
  if (0 <=? y) && (y <=? 9999) then pad_digits 4 y rest
  else String (if y <? 0 then "-"%char else "+"%char) (pad_digits 6 (Z.abs y) rest).

Definition to_iso_string (t : Z) : string :=
  iso_year (get_utc_full_year t) (String "-" (
  pad_digits 2 (get_utc_month t + 1) (String "-" (
  pad_digits 2 (get_utc_date t) (String "T" (
  pad_digits 2 (get_utc_hours t) (String ":" (
  pad_digits 2 (get_utc_minutes t) (String ":" (
  pad_digits 2 (get_utc_seconds t) (String "." (
  pad_digits 3 (get_utc_ms t) (String "Z" ""))))))))))))).

Fixpoint read_digits (n : nat) (acc : Z) (s : string) : option (Z * string) :=
  match n, s with
  | O, _ => Some (acc, s)
  | S n', String c s' => d ← digit_val c; read_digits n' (acc * 10 + d) s'
  | S _, EmptyString => None
  end.
Definition expect (c : ascii) (s : string) : option string :=
  match s with
  | String c' s' => if decide (c = c') then Some s' else None
  | EmptyString => None
  end.
Definition in_range (lo hi z : Z) : option unit :=
  if (lo <=? z) && (z <=? hi) then Some tt else None.

Definition read_year (s : string) : option (Z * string) :=
  match s with
  | String "+" s' => read_digits 6 0 s'
  | String "-" s' =>
      '(y, s'') ← read_digits 6 0 s'; if y =? 0 then None else Some (- y, s'')
  | _ => read_digits 4 0 s
  end.
(** The offset in milliseconds, which ends the string. *)
Definition read_offset (s : string) : option Z :=
  match s with
  | String "Z" "" => Some 0
  | String c s' =>
      if decide (c = "+"%char \/ c = "-"%char) then
        '(h, s1) ← read_digits 2 0 s'; _ ← in_range 0 23 h;
        s2 ← expect ":" s1;
        '(mi, s3) ← read_digits 2 0 s2; _ ← in_range 0 59 mi;
        if decide (s3 = ""%string)
        then Some ((if decide (c = "+"%char) then 1 else -1) * make_time h mi 0 0)
        else None
      else None
  | EmptyString => None
  end.
(** Time of day, then the offset: milliseconds to add to the day. *)
Definition read_time (s : string) : option Z :=
  '(h, s1) ← read_digits 2 0 s; s2 ← expect ":" s1;
  '(mi, s3) ← read_digits 2 0 s2; _ ← in_range 0 59 mi;
  '(sec, s5) ← match s3 with
               | String ":" s4 => read_digits 2 0 s4
               | _ => Some (0, s3)
               end;
  _ ← in_range 0 59 sec;
  '(ms, s7) ← match s5 with
              | String "." s6 => read_digits 3 0 s6
              | _ => Some (0, s5)
              end;
  _ ← in_range 0 24 h;
  _ ← (if (h =? 24) && negb (mi + sec + ms =? 0) then None else Some tt);
  off ← read_offset s7;
  Some (make_time h mi sec ms - off).

Definition date_parse (s : string) : option Z :=
  '(y, s1) ← read_year s;
  match s1 with
  | EmptyString => time_clip (make_date (make_day y 0 1) 0)
  | _ =>
    s2 ← expect "-" s1; '(m, s3) ← read_digits 2 0 s2; _ ← in_range 1 12 m;
    match s3 with
    | EmptyString => time_clip (make_date (make_day y (m - 1) 1) 0)
    | _ =>
      s4 ← expect "-" s3; '(d, s5) ← read_digits 2 0 s4; _ ← in_range 1 31 d;
      match s5 with
      | EmptyString => time_clip (make_date (make_day y (m - 1) d) 0)
      | String "T" s6 =>
          tm ← read_time s6; time_clip (make_date (make_day y (m - 1) d) tm)
      | _ => None
      end
    end
  end.

(** Time values of the years 0 to 9999, which print with a 4-digit year. *)
Definition iso_range (t : Z) : Prop := -62167219200000 <= t < 253402300800000.

Lemma digit_val_char d : 0 <= d < 10 -> digit_val (digit_char d) = Some d.
Proof.
  intros H. assert (d = 0 \/ d = 1 \/ d = 2 \/ d = 3 \/ d = 4 \/ d = 5 \/ d = 6 \/ d = 7
    \/ d = 8 \/ d = 9) as Hc by lia.
  repeat (destruct Hc as [->|Hc]; [reflexivity|]). subst d. reflexivity.
Qed.
Lemma pad_digits_read n z rest : forall k acc,
  0 <= z < 10 ^ Z.of_nat n ->
  read_digits (n + k) acc (pad_digits n z rest)
  = read_digits k (acc * 10 ^ Z.of_nat n + z) rest.
Proof.
  revert z rest. induction n as [|n IH]; intros z rest k acc Hz.
  - simpl. f_equal. simpl in Hz. lia.
  - cbn [pad_digits]. replace (S n + k)%nat with (n + S k)%nat by lia.
    rewrite Nat2Z.inj_succ, Z.pow_succ_r in * by lia.
    rewrite IH by lia. cbn [read_digits]. rewrite digit_val_char by lia.
    cbn. f_equal. lia.
Qed.
Lemma read_pad n z rest :
  0 <= z < 10 ^ Z.of_nat n -> read_digits n 0 (pad_digits n z rest) = Some (z, rest).
Proof.
  intros H. pose proof (pad_digits_read n z rest 0 0 H) as E.
  rewrite Nat.add_0_r in E. rewrite E. reflexivity.
Qed.
Lemma expect_same c s : expect c (String c s) = Some s.
Proof. unfold expect. by rewrite decide_True. Qed.
Lemma in_range_ok lo hi z : lo <= z <= hi -> in_range lo hi z = Some tt.
Proof.
  intros H. unfold in_range.
  by rewrite (proj2 (Z.leb_le _ _)), (proj2 (Z.leb_le _ _)) by lia.
Qed.

Lemma iso_range_year t : iso_range t -> 0 <= get_utc_full_year t <= 9999.
Proof.
  intros H. unfold get_utc_full_year.
  pose proof (year_from_day_spec (day t)) as Hy. unfold iso_range in H.
  assert (-719528 <= day t < 2932897) as Hd by (unfold day, ms_per_day; lia).
  split.
  - destruct (Z.le_gt_cases 0 (year_from_day (day t))) as [|Hn]; [done|].
    pose proof (day_from_year_mono (year_from_day (day t) + 1) 0).
    change (day_from_year 0) with (-719528) in *. lia.
  - destruct (Z.le_gt_cases (year_from_day (day t)) 9999) as [|Hn]; [done|].
    pose proof (day_from_year_mono 10000 (year_from_day (day t))).
    change (day_from_year 10000) with 2932897 in *. lia.
Qed.
Lemma date_from_day_range d : 1 <= date_from_day d <= 31.
Proof.
  unfold date_from_day. pose proof (month_from_day_spec d) as [Hr H].
  pose proof (in_leap_year_range (year_from_day d)) as Hl.
  remember (in_leap_year (year_from_day d)) as l. remember (month_from_day d) as m.
  assert (m = 0 \/ m = 1 \/ m = 2 \/ m = 3 \/ m = 4 \/ m = 5 \/ m = 6 \/ m = 7 \/ m = 8
          \/ m = 9 \/ m = 10 \/ m = 11) as Hc by lia.
  clear Heqm. repeat (destruct Hc as [->|Hc]; [revert H; eval_month_start; lia|]).
  subst m. revert H. eval_month_start. lia.
Qed.
Lemma make_date_fields t :
  make_date (make_day (get_utc_full_year t) (get_utc_month t) (get_utc_date t))
    (make_time (get_utc_hours t) (get_utc_minutes t) (get_utc_seconds t) (get_utc_ms t)) = t.
Proof.
  unfold get_utc_full_year, get_utc_month, get_utc_date. rewrite make_day_fields.
  unfold make_date, make_time, day, ms_per_day, get_utc_hours, get_utc_minutes,
    get_utc_seconds, get_utc_ms. lia.
Qed.

Lemma read_year_iso y rest :
  0 <= y <= 9999 -> read_year (iso_year y rest) = Some (y, rest).
Proof.
  intros H. unfold iso_year.
  rewrite (proj2 (Z.leb_le 0 y)), (proj2 (Z.leb_le y 9999)) by lia.
  assert (E : read_digits 4 0 (pad_digits 4 y rest) = Some (y, rest)) by (apply read_pad; lia).
  cbn [andb]. revert E. cbn [pad_digits].
  assert (Hd : 0 <= y / 10 / 10 / 10 mod 10 < 10) by lia.
  remember (y / 10 / 10 / 10 mod 10) as d eqn:Ed. clear Ed.
  assert (d = 0 \/ d = 1 \/ d = 2 \/ d = 3 \/ d = 4 \/ d = 5 \/ d = 6 \/ d = 7
    \/ d = 8 \/ d = 9) as Hc by lia.
  repeat (destruct Hc as [->|Hc]; [intros E; exact E|]). subst d. intros E; exact E.
Qed.

(** Reads one field of a printed date. *)
Ltac step_field :=
  rewrite ?read_pad, ?expect_same, ?in_range_ok by (cbn; lia); cbn beta iota delta [mbind option_bind].
(** Every timestamp the code writes reads back as the instant it was written for. *)
Lemma date_parse_iso t : iso_range t -> date_parse (to_iso_string t) = Some t.
Proof.
  intros H. pose proof (iso_range_year t H) as Hy.
  pose proof (month_from_day_spec (day t)) as [Hm _].
  pose proof (date_from_day_range (day t)) as Hd.
  fold (get_utc_month t) in Hm. fold (get_utc_date t) in Hd.
  assert (0 <= get_utc_hours t < 24) as Hh by (unfold get_utc_hours; lia).
  assert (0 <= get_utc_minutes t < 60) as Hmi by (unfold get_utc_minutes; lia).
  assert (0 <= get_utc_seconds t < 60) as Hs by (unfold get_utc_seconds; lia).
  assert (0 <= get_utc_ms t < 1000) as Hms by (unfold get_utc_ms; lia).
  unfold to_iso_string, date_parse, read_time.
  rewrite read_year_iso by lia. cbn beta iota delta [mbind option_bind].
  repeat progress step_field.
  rewrite (proj2 (Z.eqb_neq _ 24)) by lia. cbn [andb].
  unfold read_offset. cbn beta iota delta [mbind option_bind].
  rewrite Z.sub_0_r. replace (get_utc_month t + 1 - 1) with (get_utc_month t) by lia.
  rewrite make_date_fields. unfold time_clip.
  rewrite (proj2 (Z.leb_le _ _)) by (unfold iso_range, max_time in *; lia). done.
Qed.
#[export] Hint Resolve date_parse_iso : js.
Lemma to_iso_nonempty t : to_iso_string t <> ""%string.
Proof.
  unfold to_iso_string, iso_year. destruct (_ && _); [|done].
  unfold pad_digits. done.
Qed.

Example iso_example : to_iso_string 1718000000123 = "2024-06-10T06:13:20.123Z"%string.
Proof. reflexivity. Qed.
Example iso_parse_example : date_parse "2024-02-29T23:59+01:30" = Some 1709245740000.
Proof. reflexivity. Qed.
