(* ===== verification/JsString.v ===== *)
(** JavaScript strings: [trim], [split], [includes], [toLowerCase], the
    [/^\d+$/] test with [Number], and the decimal rendering of integers in
    template literals.

    A string is a list of code units; the model keeps the code units below
    256 (Latin-1), on which white space is TAB..CR, SPACE and NBSP. *)

From S2P Require Import Prelude.
From stdpp Require Import base list strings numbers.
From Stdlib Require Import ZArith Lia Ascii String DecimalString DecimalN Decimal.
#[local] Open Scope Z_scope.

Definition code (c : ascii) : Z := Z.of_N (N_of_ascii c).
Definition is_ws (c : ascii) : bool :=
  ((9 <=? code c) && (code c <=? 13)) || (code c =? 32) || (code c =? 160).
Definition is_digit (c : ascii) : bool := (48 <=? code c) && (code c <=? 57).

(** ** Trimming *)

Fixpoint trim_start (s : string) : string :=
  match s with
  | EmptyString => EmptyString
  | String c s' => if is_ws c then trim_start s' else s
  end.
Fixpoint trim_end (s : string) : string :=
  match s with
  | EmptyString => EmptyString
  | String c s' =>
      match trim_end s' with
      | EmptyString => if is_ws c then EmptyString else String c EmptyString
      | t => String c t
      end
  end.
Definition trim (s : string) : string := trim_start (trim_end s).

(** ** Splitting *)

(** [s.split(c)]: one more piece than there are separators. *)
Fixpoint split_on (c : ascii) (s : string) : list string :=
  match s with
  | EmptyString => [EmptyString]
  | String a s' =>
      if decide (a = c) then EmptyString :: split_on c s'
      else match split_on c s' with
           | w :: ws => String a w :: ws
           | [] => [String a EmptyString]
           end
  end.
(** [s.split(/\s+/)]: a maximal run of white space is one separator. *)
Fixpoint split_ws (s : string) : list string :=
  match s with
  | EmptyString => [EmptyString]
  | String a s' =>
      if is_ws a then
        match s' with
        | String b _ => if is_ws b then split_ws s' else EmptyString :: split_ws s'
        | EmptyString => [EmptyString; EmptyString]
        end
      else match split_ws s' with
           | w :: ws => String a w :: ws
           | [] => [String a EmptyString]
           end
  end.
Fixpoint join_with (sep : string) (l : list string) : string :=
  match l with
  | [] => EmptyString
  | [x] => x
  | x :: l' => (x ++ sep ++ join_with sep l')%string
  end.

(** [s.includes(sub)]. *)
Fixpoint includes (s sub : string) : bool :=
  String.prefix sub s ||
  match s with EmptyString => false | String _ s' => includes s' sub end.

(** [toLowerCase]: A-Z, and the capital letters of the upper Latin-1 half. *)
Definition lower_char (c : ascii) : ascii :=
  if ((65 <=? code c) && (code c <=? 90)) ||
     ((192 <=? code c) && (code c <=? 222) && negb (code c =? 215))
  then ascii_of_N (Z.to_N (code c + 32)) else c.
Fixpoint to_lower (s : string) : string :=
  match s with
  | EmptyString => EmptyString
  | String c s' => String (lower_char c) (to_lower s')
  end.
(** [toUpperCase], likewise. *)
Definition upper_char (c : ascii) : ascii :=
  if ((97 <=? code c) && (code c <=? 122)) ||
     ((224 <=? code c) && (code c <=? 254) && negb (code c =? 247))
  then ascii_of_N (Z.to_N (code c - 32)) else c.
Fixpoint to_upper (s : string) : string :=
  match s with EmptyString => EmptyString | String c s' => String (upper_char c) (to_upper s') end.
Definition js_length (s : string) : Z := Z.of_nat (String.length s).
Fixpoint all_chars (p : ascii -> bool) (s : string) : bool :=
  match s with EmptyString => true | String c s' => p c && all_chars p s' end.

(** ** Decimal integers *)

(** [String(z)] for an integer, as in a template literal. *)
Definition num_to_string (z : Z) : string := NilZero.string_of_int (Z.to_int z).
(** [Some (Number(s))] when [/^\d+$/.test(s)], [None] otherwise. *)
Definition parse_digits (s : string) : option Z :=
  match s with
  | EmptyString => None
  | _ => Z.of_N ∘ N.of_uint <$> NilEmpty.uint_of_string s
  end.

(** ** UTF-8: [new TextEncoder().encode(s)], one or two bytes per code unit below 256 *)

Definition utf8_char (c : ascii) : list Z :=
  if code c <? 128 then [code c] else [192 + code c / 64; 128 + code c mod 64].
Fixpoint utf8_encode (s : string) : list Z :=
  match s with EmptyString => [] | String c s' => utf8_char c ++ utf8_encode s' end.

(** ** Facts *)

Lemma parse_digits_nonneg s n : parse_digits s = Some n -> 0 <= n.
Proof.
  destruct s; [discriminate|]. unfold parse_digits. rewrite fmap_Some.
  intros (u & _ & ->). simpl. lia.
Qed.

Lemma parse_digits_num n : 0 <= n -> parse_digits (num_to_string n) = Some n.
Proof.
  intros Hn. destruct n as [|p|p]; [reflexivity| |lia].
  unfold num_to_string. cbn [Z.to_int NilZero.string_of_int].
  assert (Hne : Pos.to_uint p <> Nil) by apply DecimalPos.Unsigned.to_uint_nonnil.
  unfold NilZero.string_of_uint.
  destruct (Pos.to_uint p) eqn:E; [done|..];
    unfold parse_digits; cbn [NilEmpty.string_of_uint];
    match goal with |- context [String ?c (NilEmpty.string_of_uint ?u)] =>
      match type of E with _ = ?d =>
      change (String c (NilEmpty.string_of_uint u)) with (NilEmpty.string_of_uint d) end end;
    rewrite NilEmpty.usu, <- E; cbn;
    change (Pos.to_uint p) with (N.to_uint (N.pos p));
    by rewrite DecimalN.Unsigned.of_to.
Qed.

Lemma all_chars_app p s s' : all_chars p (s ++ s') = all_chars p s && all_chars p s'.
Proof. induction s as [|c s IH]; simpl; [done|]. by rewrite IH, andb_assoc. Qed.

Lemma digits_of_uint u : all_chars is_digit (NilEmpty.string_of_uint u) = true.
Proof. induction u; simpl; try rewrite IHu; done. Qed.
Lemma num_to_string_digits n : 0 <= n -> all_chars is_digit (num_to_string n) = true.
Proof.
  intros Hn. destruct n as [|p|p]; [reflexivity| |lia].
  unfold num_to_string. cbn [Z.to_int NilZero.string_of_int].
  unfold NilZero.string_of_uint. destruct (Pos.to_uint p) eqn:E; try reflexivity;
  rewrite <- E; apply digits_of_uint.
Qed.
Lemma num_to_string_ne n : 0 <= n -> num_to_string n <> EmptyString.
Proof. intros Hn E. pose proof (parse_digits_num n Hn) as H. by rewrite E in H. Qed.

(** A string without white space, in particular one of digits, is not changed
    by [trim], and one without the separator is not split. *)
Definition no_ws (s : string) : Prop := all_chars (fun c => negb (is_ws c)) s = true.

Lemma trim_end_no_ws s : no_ws s -> trim_end s = s.
Proof.
  unfold no_ws. induction s as [|c s IH]; simpl; [done|]. intros [Hc Hs]%andb_true_iff.
  rewrite IH by done. apply negb_true_iff in Hc. rewrite Hc. by destruct s.
Qed.
Lemma trim_no_ws s : no_ws s -> trim s = s.
Proof.
  intros H. unfold trim. rewrite trim_end_no_ws by done. unfold no_ws in H.
  destruct s as [|c s]; [done|]. simpl in *. apply andb_true_iff in H as [Hc _].
  apply negb_true_iff in Hc. by rewrite Hc.
Qed.
Lemma split_on_free c s : all_chars (fun a => negb (bool_decide (a = c))) s = true ->
  split_on c s = [s].
Proof.
  induction s as [|a s IH]; simpl; [done|]. intros [Ha Hs]%andb_true_iff.
  apply negb_true_iff, bool_decide_eq_false in Ha. rewrite decide_False by done.
  by rewrite IH.
Qed.
Lemma split_on_app c s s' : all_chars (fun a => negb (bool_decide (a = c))) s = true ->
  split_on c (s ++ String c s') = s :: split_on c s'.
Proof.
  induction s as [|a s IH]; simpl.
  - intros _. by rewrite decide_True.
  - intros [Ha Hs]%andb_true_iff. apply negb_true_iff, bool_decide_eq_false in Ha.
    rewrite decide_False by done. by rewrite IH.
Qed.
Lemma split_join c l :
  l <> [] -> Forall (fun s => all_chars (fun a => negb (bool_decide (a = c))) s = true) l ->
  split_on c (join_with (String c EmptyString) l) = l.
Proof.
  induction l as [|x l IH]; intros Hne Hl; [done|]. inversion Hl as [|? ? Hx Hl']; subst.
  destruct l as [|y l]; [by apply split_on_free|].
  change (join_with (String c EmptyString) (x :: y :: l))
    with (x ++ String c (join_with (String c EmptyString) (y :: l)))%string.
  rewrite split_on_app by done. f_equal. by apply IH.
Qed.
Lemma split_ws_free s : no_ws s -> split_ws s = [s].
Proof.
  unfold no_ws. induction s as [|a s IH]; simpl; [done|]. intros [Ha Hs]%andb_true_iff.
  apply negb_true_iff in Ha. by rewrite Ha, IH.
Qed.
Lemma split_ws_app s s' :
  no_ws s -> s <> EmptyString -> no_ws s' -> s' <> EmptyString -> forall r,
  split_ws (s ++ String " " (s' ++ r)) = s :: split_ws (s' ++ r).
Proof.
  intros Hs Hne Hs' Hne' r.
  assert (E : split_ws (String " " (s' ++ r)) = EmptyString :: split_ws (s' ++ r)).
  { destruct s' as [|b s'']; [done|]. unfold no_ws in Hs'. simpl in Hs'.
    apply andb_true_iff in Hs' as [Hb _]. apply negb_true_iff in Hb. simpl. by rewrite Hb. }
  clear Hne. unfold no_ws in Hs. induction s as [|a s IH]; [exact E|].
  simpl in Hs. apply andb_true_iff in Hs as [Ha Hs]. apply negb_true_iff in Ha.
  change (String a s ++ String " " (s' ++ r))%string
    with (String a (s ++ String " " (s' ++ r))).
  simpl. rewrite Ha. by rewrite IH.
Qed.

Lemma all_chars_impl (p q : ascii -> bool) s :
  (forall c, p c = true -> q c = true) -> all_chars p s = true -> all_chars q s = true.
Proof.
  intros H. induction s as [|c s IH]; simpl; [done|]. intros [Hc Hs]%andb_true_iff.
  rewrite H by done. by apply IH.
Qed.
Lemma digit_not_ws c : is_digit c = true -> is_ws c = false.
Proof.
  unfold is_digit, is_ws. intros H. bools.
  rewrite (proj2 (Z.leb_gt (code c) 13)), (proj2 (Z.eqb_neq (code c) 32)),
    (proj2 (Z.eqb_neq (code c) 160)) by lia. by rewrite andb_false_r.
Qed.
Lemma digits_no_ws s : all_chars is_digit s = true -> no_ws s.
Proof. apply all_chars_impl. intros c Hc. by rewrite digit_not_ws. Qed.
Lemma digits_free c s :
  is_digit c = false -> all_chars is_digit s = true ->
  all_chars (fun a => negb (bool_decide (a = c))) s = true.
Proof.
  intros Hc. apply all_chars_impl. intros a Ha. apply negb_true_iff, bool_decide_eq_false.
  congruence.
Qed.

Example split_example : split_ws (trim "  */5  0	* ") = ["*/5"; "0"; "*"]%string.
Proof. reflexivity. Qed.
Example includes_example : includes "hello.example" "o.e" = true.
Proof. reflexivity. Qed.

(** [includes] with a one-character pattern, and the strings between white
    space. *)
Lemma includes_char s c :
  includes s (String c EmptyString) = negb (all_chars (fun a => negb (bool_decide (a = c))) s).
Proof.
  induction s as [|a s IH]; [done|].
  cbn [includes String.prefix all_chars]. rewrite IH.
  destruct (ascii_dec c a) as [->|Hne].
  - rewrite bool_decide_eq_true_2 by done. by destruct s.
  - rewrite bool_decide_eq_false_2 by congruence. done.
Qed.
Lemma trim_end_app s s' : trim_end s' <> EmptyString -> trim_end (s ++ s') = (s ++ trim_end s')%string.
Proof.
  intros Hne. induction s as [|c s IH]; [done|].
  change (String c s ++ s')%string with (String c (s ++ s')).
  cbn [trim_end]. rewrite IH. destruct s as [|d s]; simpl; [|done].
  by destruct (trim_end s').
Qed.
Lemma append_empty s : (s ++ "")%string = s.
Proof. induction s as [|a s IH]; [done|]. change (String a s ++ "")%string with (String a (s ++ "")). by rewrite IH. Qed.
Lemma append_inj_l (a b c : string) : (a ++ b)%string = (a ++ c)%string -> b = c.
Proof. induction a as [|x a IH]; [done|]. intros H. injection H as H. by apply IH. Qed.
Lemma append_assoc_r (s t u : string) : ((s ++ t) ++ u)%string = (s ++ t ++ u)%string.
Proof.
  induction s as [|a s IH]; [done|].
  change (String a ((s ++ t) ++ u) = String a (s ++ t ++ u))%string. by rewrite IH.
Qed.
Definition word (s : string) : Prop := no_ws s /\ s <> EmptyString.
Lemma trim_end_words l : Forall word l -> trim_end (join_with " " l) = join_with " " l.
Proof.
  induction 1 as [|x l [Hx Hne] Hl IH]; [done|]. destruct l as [|y l]; [by apply trim_end_no_ws|].
  change (join_with " " (x :: y :: l)) with (x ++ (" " ++ join_with " " (y :: l)))%string.
  assert (E : trim_end (" " ++ join_with " " (y :: l)) = (" " ++ join_with " " (y :: l))%string).
  { rewrite trim_end_app; [by rewrite IH|]. rewrite IH. inversion Hl as [|? ? [_ Hy] _]; subst.
    destruct l; simpl; [done|]. by destruct y. }
  rewrite trim_end_app by (by rewrite E). by rewrite E.
Qed.
Lemma trim_start_app s s' : word s -> trim_start (s ++ s') = (s ++ s')%string.
Proof.
  intros [Hs Hne]. destruct s as [|c s]; [done|]. unfold no_ws in Hs. simpl in Hs |- *.
  apply andb_true_iff in Hs as [Hc _]. apply negb_true_iff in Hc. by rewrite Hc.
Qed.
Lemma trim_words l : Forall word l -> trim (join_with " " l) = join_with " " l.
Proof.
  intros Hl. unfold trim. rewrite trim_end_words by done.
  destruct Hl as [|x l Hx Hl]; [done|]. destruct l as [|y l].
  - pose proof (trim_start_app x "" Hx) as E. by rewrite append_empty in E.
  - by apply trim_start_app.
Qed.
Lemma split_words l : l <> [] -> Forall word l -> split_ws (join_with " " l) = l.
Proof.
  intros Hne Hl. induction Hl as [|x l [Hx Hxn] Hl IH]; [done|]. clear Hne.
  destruct l as [|y l]; [by apply split_ws_free|].
  change (join_with " " (x :: y :: l)) with (x ++ String " " (join_with " " (y :: l)))%string.
  assert (exists r, join_with " " (y :: l) = (y ++ r)%string) as [r Hr].
  { destruct l; [exists ""; by rewrite append_empty|].
    by exists (" " ++ join_with " " (s :: l))%string. }
  inversion Hl as [|? ? [Hy Hyn] _]; subst.
  rewrite Hr, split_ws_app by done. f_equal. rewrite <- Hr. by apply IH.
Qed.

(** ** Optional strings and prefixes *)

(** [value ? value : undefined]: the empty string is falsy. *)
Definition truthy (value : option string) : option string :=
  match value with Some s => if decide (s = EmptyString) then None else Some s | None => None end.
(** What follows [p] in [s], when [s.startsWith(p)]. *)
Fixpoint strip_str (p s : string) : option string :=
  match p, s with
  | EmptyString, _ => Some s
  | String a p', String b s' => if decide (a = b) then strip_str p' s' else None
  | String _ _, EmptyString => None
  end.
Definition startsWith (s p : string) : bool := match strip_str p s with Some _ => true | None => false end.

Lemma strip_str_Some p s r : strip_str p s = Some r <-> s = (p ++ r)%string.
Proof.
  revert s. induction p as [|a p IH]; intros s; cbn [strip_str].
  { split; [by intros [= ->]|by intros ->]. }
  change (String a p ++ r)%string with (String a (p ++ r)%string).
  destruct s as [|b s]; [by split|]. destruct (decide (a = b)) as [->|E].
  - rewrite IH. split; [by intros ->|]. by intros [= ->].
  - split; [done|]. by intros [= -> _].
Qed.
Lemma startsWith_spec s p : startsWith s p = true <-> exists r, s = (p ++ r)%string.
Proof.
  unfold startsWith. destruct (strip_str p s) as [r|] eqn:E.
  - apply strip_str_Some in E. split; [eauto|done].
  - split; [done|]. intros [r H]. apply strip_str_Some in H. congruence.
Qed.

(** ** Comparison by code units ([<], [Array.prototype.sort] on strings) *)

Lemma str_compare_refl s : String.compare s s = Eq.
Proof. induction s as [|c s IH]; [done|]. simpl. unfold Ascii.compare. by rewrite N.compare_refl. Qed.
Lemma str_lt_trans a b c :
  String.compare a b = Lt -> String.compare b c = Lt -> String.compare a c = Lt.
Proof.
  revert b c. induction a as [|x a IH]; intros [|y b] [|z c]; simpl; try done.
  unfold Ascii.compare.
  destruct (N.compare_spec (N_of_ascii x) (N_of_ascii y)) as [E1|H1|H1]; [| |done];
  destruct (N.compare_spec (N_of_ascii y) (N_of_ascii z)) as [E2|H2|H2]; try done; intros Ha Hb.
  - rewrite E1, E2, N.compare_refl. eauto.
  - rewrite E1, (proj2 (N.compare_lt_iff _ _) H2). done.
  - rewrite <- E2, (proj2 (N.compare_lt_iff _ _) H1). done.
  - rewrite (proj2 (N.compare_lt_iff _ _) (N.lt_trans _ _ _ H1 H2)). done.
Qed.
(** [a <= b]. *)
Definition str_le (a b : string) : bool :=
  match String.compare a b with Gt => false | _ => true end.
Lemma str_le_cases a b : str_le a b = true <-> a = b \/ String.compare a b = Lt.
Proof.
  unfold str_le. destruct (String.compare a b) eqn:E; split; try done; auto.
  - intros _. left. by apply String.compare_eq_iff.
  - intros [->|?]; [by rewrite str_compare_refl in E|done].
Qed.
Lemma str_le_total a b : str_le a b = true \/ str_le b a = true.
Proof.
  unfold str_le. rewrite (String.compare_antisym b a). destruct (String.compare a b); simpl; auto.
Qed.
Lemma str_le_trans a b c : str_le a b = true -> str_le b c = true -> str_le a c = true.
Proof.
  rewrite !str_le_cases. intros [->|H1] [->|H2]; auto. right. by eapply str_lt_trans.
Qed.
Lemma str_le_antisym a b : str_le a b = true -> str_le b a = true -> a = b.
Proof.
  rewrite !str_le_cases. intros [->|H1] [H2|H2]; auto.
  rewrite String.compare_antisym, H2 in H1. done.
Qed.

(** Trimming twice is trimming once. *)
Lemma trim_end_idem s : trim_end (trim_end s) = trim_end s.
Proof.
  induction s as [|c s IH]; [done|]. cbn [trim_end]. destruct (trim_end s) as [|d t] eqn:E.
  - destruct (is_ws c) eqn:Ec; [done|]. cbn [trim_end]. by rewrite Ec.
  - cbn [trim_end] in *. rewrite IH. done.
Qed.
Lemma trim_start_idem s : trim_start (trim_start s) = trim_start s.
Proof.
  induction s as [|c s IH]; [done|]. cbn [trim_start]. destruct (is_ws c) eqn:E; [done|].
  cbn [trim_start]. by rewrite E.
Qed.
Lemma trim_comm s : trim_end (trim_start s) = trim_start (trim_end s).
Proof.
  induction s as [|c s IH]; [done|]. cbn [trim_start trim_end]. destruct (is_ws c) eqn:E.
  - rewrite IH. destruct (trim_end s) as [|d t]; [done|]. cbn [trim_start]. by rewrite E.
  - cbn [trim_end]. rewrite E. destruct (trim_end s) as [|d t]; cbn [trim_start]; by rewrite E.
Qed.
Lemma trim_idem s : trim (trim s) = trim s.
Proof. unfold trim. by rewrite trim_comm, trim_end_idem, trim_start_idem. Qed.
