(* ===== verification/JsNumber.v ===== *)
(** JavaScript numbers beyond the integers: the correctly rounded double of a
    ratio of integers ([Number("1.5")], [a / b]), [Math.floor] and [Math.ceil]
    of it, and when that floor is the exact integer quotient. *)

From S2P Require Import Prelude.
From stdpp Require Import base list numbers.
From Stdlib Require Import ZArith Lia.
#[local] Open Scope Z_scope.

(** Nearest integer to [n / d], ties to even, for [0 <= n] and [0 < d]. *)
Definition round_half_even (n d : Z) : Z :=
  let q := n / d in
  let r := n mod d in
  if (d <? 2 * r) || ((2 * r =? d) && Z.odd q) then q + 1 else q.

(** [floor (log2 (n / d))]. *)
Definition log2_ratio (n d : Z) : Z :=
  let l := Z.log2 n - Z.log2 d in
  if d * 2 ^ Z.max 0 l <=? n * 2 ^ Z.max 0 (- l) then l else l - 1.

(** The double nearest to [n / d] is [m * 2 ^ e] for the pair [(m, e)]
    returned; subnormals have exponent -1074. *)
Definition double_ratio (n d : Z) : Z * Z :=
  if n =? 0 then (0, 0)
  else
    let e := Z.max (-1074) (log2_ratio n d - 52) in
    (round_half_even (n * 2 ^ Z.max 0 (- e)) (d * 2 ^ Z.max 0 e), e).

Definition floor_double (x : Z * Z) : Z :=
  let '(m, e) := x in if 0 <=? e then m * 2 ^ e else m / 2 ^ (- e).
Definition ceil_double (x : Z * Z) : Z :=
  let '(m, e) := x in if 0 <=? e then m * 2 ^ e else - ((- m) / 2 ^ (- e)).
(** Not rounded to infinity. *)
Definition finite_double (x : Z * Z) : bool :=
  let '(m, e) := x in (e <? 0) || (m * 2 ^ e <? 2 ^ 1024).
(** Multiplication by [2 ^ k] is exact away from the ends of the range. *)
Definition scale_double (k : Z) (x : Z * Z) : Z * Z := (x.1, x.2 + k).

Example double_examples :
  floor_double (double_ratio 15 10) = 1 /\ double_ratio 1 3 = (6004799503160661, -54) /\
  floor_double (double_ratio 9007199254740993 1) = 9007199254740992.
Proof. vm_compute. done. Qed.

Lemma round_half_even_bounds n d :
  0 <= n -> 0 < d -> n / d <= round_half_even n d /\ 2 * d * round_half_even n d <= 2 * n + d.
Proof.
  intros Hn Hd. unfold round_half_even. pose proof (Z.div_mod n d ltac:(lia)) as E.
  pose proof (Z.mod_pos_bound n d Hd).
  destruct ((d <? 2 * (n mod d)) || ((2 * (n mod d) =? d) && Z.odd (n / d))) eqn:Eb.
  - assert (d <= 2 * (n mod d)).
    { apply orb_true_iff in Eb as [Eb|Eb]; bools; lia. } split; [lia|nia].
  - split; [lia|nia].
Qed.
Lemma log2_ratio_upper n d k :
  0 < n -> 0 < d -> 0 <= k -> n < d * 2 ^ k -> log2_ratio n d < k.
Proof.
  intros Hn Hd Hk Hlt. unfold log2_ratio.
  pose proof (Z.log2_spec n Hn) as [Hn1 Hn2]. pose proof (Z.log2_spec d Hd) as [Hd1 Hd2].
  pose proof (Z.log2_nonneg n). pose proof (Z.log2_nonneg d).
  assert (Z.log2 n - Z.log2 d <= k).
  { destruct (Z.le_gt_cases (Z.log2 n - Z.log2 d) k) as [|Hgt]; [done|]. exfalso.
    assert (2 ^ (Z.log2 d + 1 + k) <= 2 ^ Z.log2 n) as Hle by (apply Z.pow_le_mono_r; lia).
    rewrite Z.pow_add_r in Hle by lia. unfold Z.succ in *. nia. }
  destruct (Z.leb_spec (d * 2 ^ Z.max 0 (Z.log2 n - Z.log2 d))
              (n * 2 ^ Z.max 0 (- (Z.log2 n - Z.log2 d)))) as [Hle|]; [|lia].
  destruct (Z.eq_dec (Z.log2 n - Z.log2 d) k) as [E|]; [|lia]. exfalso.
  rewrite E, Z.max_r, Z.max_l, Z.pow_0_r in Hle by lia. lia.
Qed.

Lemma round_half_even_lower n d : 0 <= n -> 0 < d -> 2 * n <= 2 * d * round_half_even n d + d.
Proof.
  intros Hn Hd. unfold round_half_even. pose proof (Z.div_mod n d ltac:(lia)) as E.
  pose proof (Z.mod_pos_bound n d Hd).
  destruct ((d <? 2 * (n mod d)) || ((2 * (n mod d) =? d) && Z.odd (n / d))) eqn:Eb; [nia|].
  apply orb_false_iff in Eb as [Eb _]. apply Z.ltb_ge in Eb. nia.
Qed.
Lemma log2_ratio_lower n d :
  0 < n -> 0 < d -> d * 2 ^ Z.max 0 (log2_ratio n d) <= n * 2 ^ Z.max 0 (- log2_ratio n d).
Proof.
  intros Hn Hd. unfold log2_ratio.
  destruct (Z.leb_spec (d * 2 ^ Z.max 0 (Z.log2 n - Z.log2 d)) (n * 2 ^ Z.max 0 (- (Z.log2 n - Z.log2 d)))); [done|].
  pose proof (Z.log2_spec n Hn) as [Hn1 Hn2]. pose proof (Z.log2_spec d Hd) as [Hd1 Hd2].
  pose proof (Z.log2_nonneg n). pose proof (Z.log2_nonneg d).
  set (a := Z.log2 n) in *. set (b := Z.log2 d) in *.
  destruct (Z.le_gt_cases b (a - 1)).
  - rewrite !Z.max_r, !Z.max_l by lia. rewrite Z.mul_1_r.
    assert (d * 2 ^ (a - b - 1) <= 2 ^ a); [|lia].
    replace (2 ^ a) with (2 ^ (b + 1) * 2 ^ (a - b - 1)) by (rewrite <- Z.pow_add_r by lia; f_equal; lia).
    replace (Z.succ b) with (b + 1) in Hd2 by lia. pose proof (Z.pow_pos_nonneg 2 (a - b - 1) ltac:(lia) ltac:(lia)). nia.
  - rewrite (Z.max_l 0 (a - b - 1)), Z.max_r, Z.mul_1_r by lia.
    assert (2 ^ (b + 1) <= n * 2 ^ (- (a - b - 1))); [|replace (Z.succ b) with (b + 1) in Hd2 by lia; lia].
    replace (2 ^ (b + 1)) with (2 ^ a * 2 ^ (- (a - b - 1))) by (rewrite <- Z.pow_add_r by lia; f_equal; lia).
    pose proof (Z.pow_pos_nonneg 2 (- (a - b - 1)) ltac:(lia) ltac:(lia)). nia.
Qed.
(** The scale of a quotient: [d < 2 ^ (k + 1)] for the [k] bits kept after the point. *)
Lemma double_ratio_scale n d :
  0 < n < 2 ^ 53 -> 0 < d <= 2 ^ 53 ->
  exists k, 0 <= k /\ d < 2 ^ (k + 1) /\ double_ratio n d = (round_half_even (n * 2 ^ k) d, - k).
Proof.
  intros Hn Hd. unfold double_ratio. destruct (Z.eqb_spec n 0); [lia|].
  pose proof (log2_ratio_upper n d 53 ltac:(lia) ltac:(lia) ltac:(lia) ltac:(nia)) as Hup.
  pose proof (log2_ratio_lower n d ltac:(lia) ltac:(lia)) as Hlow.
  set (l := log2_ratio n d) in *.
  assert (Hl : -54 <= l).
  { subst l. unfold log2_ratio.
    assert (Z.log2 d <= 53) by (rewrite <- (Z.log2_pow2 53) by lia; apply Z.log2_le_mono; lia). pose proof (Z.log2_nonneg n).
    destruct (_ <=? _); lia. }
  exists (52 - l). rewrite (Z.max_r (-1074)) by lia. split; [lia|]. split.
  - destruct (Z.le_gt_cases 0 l).
    + rewrite Z.max_r, Z.max_l, Z.mul_1_r in Hlow by lia.
      pose proof (Z.pow_pos_nonneg 2 l ltac:(lia) ltac:(lia)).
      assert (E : 2 ^ 53 = 2 ^ (52 - l + 1) * 2 ^ l) by (rewrite <- Z.pow_add_r by lia; f_equal; lia). nia.
    + rewrite (Z.max_l 0 l), Z.max_r, Z.mul_1_r in Hlow by lia.
      replace (2 ^ (52 - l + 1)) with (2 ^ 53 * 2 ^ (- l)) by (rewrite <- Z.pow_add_r by lia; f_equal; lia).
      pose proof (Z.pow_pos_nonneg 2 (- l) ltac:(lia) ltac:(lia)). nia.
  - f_equal; [|lia]. f_equal; [f_equal; f_equal; lia|]. rewrite Z.max_l by lia. lia.
Qed.
(** [Math.floor(n / d)] and [Math.ceil(n / d)] are exact on safe integers. *)
Lemma floor_quotient n d : 0 <= n < 2 ^ 53 -> 0 < d <= 2 ^ 53 -> floor_double (double_ratio n d) = n / d.
Proof.
  intros Hn Hd. destruct (Z.eq_dec n 0) as [->|]; [by rewrite Z.div_0_l by lia|].
  destruct (double_ratio_scale n d ltac:(lia) Hd) as (k & Hk & Hdk & ->). cbn.
  assert (Hfl : (if 0 <=? - k then round_half_even (n * 2 ^ k) d * 2 ^ (- k) else round_half_even (n * 2 ^ k) d / 2 ^ (- - k))
    = round_half_even (n * 2 ^ k) d / 2 ^ k).
  { rewrite Z.opp_involutive. destruct (Z.leb_spec 0 (- k)); [|done]. assert (k = 0) as -> by lia. by rewrite Z.mul_1_r, Z.div_1_r. }
  rewrite Hfl. pose proof (Z.pow_pos_nonneg 2 k ltac:(lia) Hk) as Hp.
  pose proof (round_half_even_bounds (n * 2 ^ k) d ltac:(nia) ltac:(lia)) as [_ Hhi].
  pose proof (round_half_even_lower (n * 2 ^ k) d ltac:(nia) ltac:(lia)) as Hlo.
  rewrite Z.pow_add_r in Hdk by lia. change (2 ^ 1) with 2 in Hdk.
  pose proof (Z.div_mod n d ltac:(lia)) as E. pose proof (Z.mod_pos_bound n d ltac:(lia)).
  set (m := round_half_even (n * 2 ^ k) d) in *. set (p := 2 ^ k) in *. set (q := n / d) in *.
  symmetry. apply Z.div_unique_pos with (r := m - p * q); [|lia].
  split; nia.
Qed.
Lemma ceil_quotient n d : 0 <= n < 2 ^ 53 -> 0 < d <= 2 ^ 53 -> ceil_double (double_ratio n d) = - ((- n) / d).
Proof.
  intros Hn Hd. destruct (Z.eq_dec n 0) as [->|]; [by rewrite Z.div_0_l by lia|].
  destruct (double_ratio_scale n d ltac:(lia) Hd) as (k & Hk & Hdk & ->). cbn.
  assert (Hfl : (if 0 <=? - k then round_half_even (n * 2 ^ k) d * 2 ^ (- k) else - ((- round_half_even (n * 2 ^ k) d) / 2 ^ (- - k)))
    = - ((- round_half_even (n * 2 ^ k) d) / 2 ^ k)).
  { rewrite Z.opp_involutive. destruct (Z.leb_spec 0 (- k)); [|done]. assert (k = 0) as -> by lia. rewrite Z.mul_1_r, Z.div_1_r. lia. }
  rewrite Hfl. f_equal. pose proof (Z.pow_pos_nonneg 2 k ltac:(lia) Hk) as Hp.
  pose proof (round_half_even_bounds (n * 2 ^ k) d ltac:(nia) ltac:(lia)) as [_ Hhi].
  pose proof (round_half_even_lower (n * 2 ^ k) d ltac:(nia) ltac:(lia)) as Hlo.
  rewrite Z.pow_add_r in Hdk by lia. change (2 ^ 1) with 2 in Hdk.
  pose proof (Z.div_mod (- n) d ltac:(lia)) as E. pose proof (Z.mod_pos_bound (- n) d ltac:(lia)).
  set (m := round_half_even (n * 2 ^ k) d) in *. set (p := 2 ^ k) in *. set (q := (- n) / d) in *.
  symmetry. apply Z.div_unique_pos with (r := - m - p * q); [|lia].
  split; nia.
Qed.
Lemma floor_double_ratio n d :
  0 <= n < 2 ^ 53 -> 8192 <= d < 16384 -> floor_double (double_ratio n d) = n / d.
Proof. intros Hn Hd. apply floor_quotient; lia. Qed.
