(* ===== verification/JsValue.v ===== *)
(** JSON values as the routes and stores see them: the result of parsing a
    request body, with the property reads and the object spread the code uses.
    Numbers are kept as integers where they are integers and as reduced
    fractions otherwise. *)

From S2P Require Import Prelude.
From stdpp Require Import base list strings numbers.
From Stdlib Require Import ZArith Lia.
#[local] Open Scope Z_scope.

Inductive json : Type :=
  | JNull
  | JBool (b : bool)
  | JNum (n : Z)
  | JFrac (n : Z) (d : positive)
  | JStr (s : string)
  | JArr (l : list json)
  | JObj (fields : list (string * json)).

#[export] Instance json_eq_dec : EqDecision json.
Proof.
  refine (fix go (x y : json) : Decision (x = y) :=
    let _ : EqDecision json := @go in
    match x, y with
    | JNull, JNull => left _
    | JBool a, JBool b => cast_if (decide (a = b))
    | JNum a, JNum b => cast_if (decide (a = b))
    | JFrac a c, JFrac b d => cast_if_and (decide (a = b)) (decide (c = d))
    | JStr a, JStr b => cast_if (decide (a = b))
    | JArr a, JArr b => cast_if (decide (a = b))
    | JObj a, JObj b => cast_if (decide (a = b))
    | _, _ => right _
    end); abstract congruence.
Defined.

(** An object is the list of its own properties, in insertion order; [None]
    is [undefined]. *)
Definition fields : Type := list (string * json).
Fixpoint prop (name : string) (o : fields) : option json :=
  match o with
  | [] => None
  | (k, v) :: o' => if decide (k = name) then Some v else prop name o'
  end.
(** [o[name] = v]: an existing property keeps its place. *)
Fixpoint set_prop (name : string) (v : json) (o : fields) : fields :=
  match o with
  | [] => [(name, v)]
  | (k, w) :: o' => if decide (k = name) then (k, v) :: o' else (k, w) :: set_prop name v o'
  end.
(** [{ ...o, ...p }]. *)
Definition spread (o p : fields) : fields := foldl (fun acc kv => set_prop kv.1 kv.2 acc) o p.

Lemma prop_set_eq name v o : prop name (set_prop name v o) = Some v.
Proof.
  induction o as [|[k w] o IH]; simpl; [by rewrite decide_True|].
  destruct (decide (k = name)) as [E|E]; simpl; [by rewrite decide_True|by rewrite decide_False].
Qed.
Lemma prop_set_ne name name' v o :
  name <> name' -> prop name (set_prop name' v o) = prop name o.
Proof.
  intros Hne. induction o as [|[k w] o IH]; simpl; [by rewrite decide_False|].
  destruct (decide (k = name')) as [->|E]; simpl.
  - by rewrite !decide_False.
  - by rewrite IH.
Qed.
(** A spread property wins over the one it follows. *)
Lemma prop_spread name o p :
  NoDup p.*1 ->
  prop name (spread o p) = match prop name p with Some v => Some v | None => prop name o end.
Proof.
  unfold spread. revert o. induction p as [|[k v] p IH]; intros o Hp; [done|].
  cbn in Hp. inversion Hp as [|? ? Hk Hp']; subst; clear Hp; rename Hp' into Hp. cbn [foldl prop fst snd]. rewrite IH by done.
  destruct (decide (k = name)) as [->|E].
  - rewrite prop_set_eq. destruct (prop name p) eqn:E; [|done]. exfalso. apply Hk. clear -E.
    induction p as [|[k w] p IH]; [done|]. cbn in *.
    destruct (decide (k = name)) as [->|]; [by left|]. right. by apply IH.
  - by rewrite prop_set_ne by congruence.
Qed.
