(* ===== verification/WasmReader.v ===== *)
(** [lib/wasm-parse/binary-reader.ts]: the bounds-checked reading primitives
    (LEB128, little-endian words, strings, byte vectors), with the LEB128
    encodings they are meant to invert.

    A [Uint8Array] is a list of byte values; JavaScript's bitwise operators
    work on 32-bit signed integers ([js_or], [js_and], [js_shl]) and an index
    outside the array reads [undefined], which those operators take as 0. *)

From S2P Require Import Prelude.
From stdpp Require Import base list strings numbers.
From Stdlib Require Import ZArith Lia.
#[local] Open Scope Z_scope.

(** The [Error]s of the parser. [OutOfFuel] is not one of them: it is the
    value of a loop whose fuel ran out, and never appears where a theorem says
    that the loop ends. *)
Inductive WasmError : Type :=
  | ULEB128_eof | ULEB128_overflow | SLEB128_eof | SLEB128_overflow
  | String_underflow | Bytes_underflow | U32_underflow | U64_underflow | U64_unsafe
  | Byte_underflow
  | Header_too_small | Invalid_magic (magic : Z) | Unsupported_version (version : Z)
  | SectionSize_eof | SectionSize_overflow | Section_bounds (id size : Z)
  | Module_too_large (size : Z)
  | OutOfFuel.

Record ReadResult (A : Type) : Type := mkRead { rr_value : A; rr_offset : Z }.
Arguments mkRead {A} _ _.
Arguments rr_value {A} _.
Arguments rr_offset {A} _.

(** ** Typed arrays *)

Definition blen (b : list Z) : Z := Z.of_nat (length b).
(** [b[i]], [None] for [undefined]. *)
Definition byte_at (b : list Z) (i : Z) : option Z :=
  if i <? 0 then None else b !! Z.to_nat i.
(** [b[i]] as an operand of a bitwise operator. *)
Definition idx (b : list Z) (i : Z) : Z := default 0 (byte_at b i).
(** [b.slice(start, end)]: negative positions count from the end. *)
Definition js_slice {A} (b : list A) (start stop : Z) : list A :=
  let n := Z.of_nat (length b) in
  let clamp x := if x <? 0 then Z.max (n + x) 0 else Z.min x n in
  take (Z.to_nat (clamp stop - clamp start)) (drop (Z.to_nat (clamp start)) b).

(** ** LEB128 *)

Fixpoint uleb_loop (fuel : nat) (buffer : list Z) (offset value shift : Z)
  : result WasmError (ReadResult Z) :=
  match fuel with
  | O => Err OutOfFuel
  | S fuel' =>
      if blen buffer <=? offset then Err ULEB128_eof
      else
        let byte := idx buffer offset in
        let value := js_or value (js_shl (js_and byte 127) shift) in
        let shift := shift + 7 in
        if 63 <? shift then Err ULEB128_overflow
        else if js_and byte 128 =? 0 then Ok (mkRead value (offset + 1))
        else uleb_loop fuel' buffer (offset + 1) value shift
  end.
Definition readULEB128 (buffer : list Z) (offset : Z) : result WasmError (ReadResult Z) :=
  uleb_loop 10 buffer offset 0 0.

Fixpoint sleb_loop (fuel : nat) (buffer : list Z) (offset value shift size : Z)
  : result WasmError (ReadResult Z) :=
  match fuel with
  | O => Err OutOfFuel
  | S fuel' =>
      if blen buffer <=? offset then Err SLEB128_eof
      else
        let byte := idx buffer offset in
        let value := js_or value (js_shl (js_and byte 127) shift) in
        let shift := shift + 7 in
        let size := size + 7 in
        if 64 <? size then Err SLEB128_overflow
        else if js_and byte 128 =? 0 then
          let value := if negb (js_and byte 64 =? 0) && (shift <? 64)
                       then js_or value (js_shl (-1) shift) else value in
          Ok (mkRead value (offset + 1))
        else sleb_loop fuel' buffer (offset + 1) value shift size
  end.
Definition readSLEB128 (buffer : list Z) (offset : Z) : result WasmError (ReadResult Z) :=
  sleb_loop 10 buffer offset 0 0 0.

(** ** Strings, byte vectors and words *)

Section Reader.
  (** [new TextDecoder().decode], the platform's UTF-8 decoder. *)
  Context (decode_utf8 : list Z -> string).

Definition readString (buffer : list Z) (offset : Z) : result WasmError (ReadResult string) :=
  r ← readULEB128 buffer offset;
  let length := rr_value r in
  let newOffset := rr_offset r in
  if blen buffer <? newOffset + length then Err String_underflow
  else Ok (mkRead (decode_utf8 (js_slice buffer newOffset (newOffset + length)))
             (newOffset + length)).
End Reader.

Definition readBytes (buffer : list Z) (offset : Z) : result WasmError (ReadResult (list Z)) :=
  r ← readULEB128 buffer offset;
  let length := rr_value r in
  let newOffset := rr_offset r in
  if blen buffer <? newOffset + length then Err Bytes_underflow
  else Ok (mkRead (js_slice buffer newOffset (newOffset + length)) (newOffset + length)).

(** [b[i] | (b[i+1] << 8) | (b[i+2] << 16) | (b[i+3] << 24)]. *)
Definition word32 (b : list Z) (i : Z) : Z :=
  js_or (js_or (js_or (idx b i) (js_shl (idx b (i + 1)) 8)) (js_shl (idx b (i + 2)) 16))
    (js_shl (idx b (i + 3)) 24).

Definition readU32 (buffer : list Z) (offset : Z) : result WasmError (ReadResult Z) :=
  if blen buffer <? offset + 4 then Err U32_underflow
  else Ok (mkRead (word32 buffer offset) (offset + 4)).

Definition max_safe_integer : Z := 9007199254740991.

(** The sum is one floating-point addition; the product is exact. *)
Definition readU64 (buffer : list Z) (offset : Z) : result WasmError (ReadResult Z) :=
  if blen buffer <? offset + 8 then Err U64_underflow
  else
    let low := word32 buffer offset in
    let high := word32 buffer (offset + 4) in
    let value := to_double (high * 4294967296 + low) in
    if max_safe_integer <? value then Err U64_unsafe
    else Ok (mkRead value (offset + 8)).

Definition readByte (buffer : list Z) (offset : Z) : result WasmError (ReadResult Z) :=
  if blen buffer <=? offset then Err Byte_underflow
  else Ok (mkRead (idx buffer offset) (offset + 1)).
Definition peekByte (buffer : list Z) (offset : Z) : option Z :=
  if blen buffer <=? offset then None else byte_at buffer offset.
Definition hasRemaining (buffer : list Z) (offset n : Z) : bool := offset + n <=? blen buffer.

(** ** What the encodings mean *)

(** [uleb bs n]: the bytes [bs] are a (possibly padded) unsigned LEB128
    encoding of [n]; [sleb] is the signed one. *)
Inductive uleb : list Z -> Z -> Prop :=
  | uleb_last b : 0 <= b < 128 -> uleb [b] b
  | uleb_more b bs n : 0 <= b < 128 -> uleb bs n -> uleb ((b + 128) :: bs) (b + 128 * n).
Inductive sleb : list Z -> Z -> Prop :=
  | sleb_last b : 0 <= b < 128 -> sleb [b] (if b <? 64 then b else b - 128)
  | sleb_more b bs n : 0 <= b < 128 -> sleb bs n -> sleb ((b + 128) :: bs) (b + 128 * n).

(** The shortest unsigned encoding of a number below [128 ^ (fuel + 1)]. *)
Fixpoint uleb_encode (fuel : nat) (n : Z) : list Z :=
  match fuel with
  | O => [n]
  | S fuel' => if n <? 128 then [n] else (n mod 128 + 128) :: uleb_encode fuel' (n / 128)
  end.
(** The [k] low bytes of [n], least significant first. *)
Fixpoint le_bytes (k : nat) (n : Z) : list Z :=
  match k with
  | O => []
  | S k' => n mod 256 :: le_bytes k' (n / 256)
  end.

(** ** Lemmas on arrays and bytes *)

Lemma blen_app a b : blen (a ++ b) = blen a + blen b.
Proof. unfold blen. rewrite length_app. lia. Qed.
Lemma blen_cons x b : blen (x :: b) = 1 + blen b.
Proof. unfold blen. simpl. lia. Qed.
Lemma blen_nil : blen [] = 0.
Proof. done. Qed.
Lemma blen_nonneg b : 0 <= blen b.
Proof. unfold blen. lia. Qed.
Create Rewrite HintDb blen.
#[export] Hint Rewrite blen_app blen_cons blen_nil : blen.
#[export] Hint Resolve blen_nonneg : js.

Lemma byte_at_middle pre x post : byte_at (pre ++ x :: post) (blen pre) = Some x.
Proof.
  unfold byte_at, blen. destruct (Z.ltb_spec (Z.of_nat (length pre)) 0); [lia|].
  rewrite Nat2Z.id. by rewrite list_lookup_middle.
Qed.
Lemma idx_middle pre x post : idx (pre ++ x :: post) (blen pre) = x.
Proof. unfold idx. by rewrite byte_at_middle. Qed.
Lemma js_slice_middle {A} (pre mid post : list A) :
  js_slice (pre ++ mid ++ post) (Z.of_nat (length pre))
    (Z.of_nat (length pre) + Z.of_nat (length mid)) = mid.
Proof.
  unfold js_slice. rewrite !length_app.
  rewrite (proj2 (Z.ltb_ge (Z.of_nat (length pre)) 0)) by lia.
  rewrite (proj2 (Z.ltb_ge (_ + Z.of_nat (length mid)) 0)) by lia.
  rewrite !Z.min_l by lia. rewrite Nat2Z.id, drop_app_length.
  replace (Z.to_nat _) with (length mid) by lia. apply take_app_length.
Qed.
Lemma js_slice_length {A} (b : list A) i j :
  (length (js_slice b i j) <= length b)%nat.
Proof. unfold js_slice. rewrite length_take, length_drop. lia. Qed.

Lemma forall_byte (P : Z -> bool) :
  forallb P (map Z.of_nat (seq 0 256)) = true -> forall b, 0 <= b < 256 -> P b = true.
Proof.
  intros H b Hb. rewrite forallb_forall in H. apply H.
  apply in_map_iff. exists (Z.to_nat b). split; [lia|]. apply in_seq. lia.
Qed.
Lemma payload_bits b : 0 <= b < 128 ->
  js_and b 127 = b /\ js_and (b + 128) 127 = b /\
  js_and b 128 = 0 /\ js_and (b + 128) 128 = 128 /\
  (js_and b 64 =? 0) = (b <? 64).
Proof.
  intros Hb.
  pose (P b := (128 <=? b) || ((js_and b 127 =? b) && (js_and (b + 128) 127 =? b) &&
    (js_and b 128 =? 0) && (js_and (b + 128) 128 =? 128)
    && Bool.eqb (js_and b 64 =? 0) (b <? 64))).
  assert (H : P b = true) by (apply forall_byte; [vm_compute; reflexivity | lia]).
  unfold P in H. rewrite (proj2 (Z.leb_gt 128 b)) in H by lia. cbn [orb] in H. bools.
  match goal with H : Bool.eqb _ _ = true |- _ => apply Bool.eqb_prop in H end. auto.
Qed.

Lemma uleb_nonneg bs n : uleb bs n -> 0 <= n.
Proof. induction 1; lia. Qed.
Lemma uleb_bound bs n : uleb bs n -> n < 128 ^ blen bs.
Proof.
  induction 1; autorewrite with blen; [simpl; lia|].
  rewrite Z.pow_add_r by (auto with js; lia). lia.
Qed.
Lemma uleb_encode_ok fuel n :
  0 <= n < 128 ^ (Z.of_nat fuel + 1) -> uleb (uleb_encode fuel n) n.
Proof.
  revert n. induction fuel as [|fuel IH]; intros n Hn; cbn [uleb_encode].
  - constructor. simpl in Hn. lia.
  - destruct (Z.ltb_spec n 128); [by constructor; lia|].
    pose proof (uleb_more (n mod 128) (uleb_encode fuel (n / 128)) (n / 128)) as Hmore.
    replace (n mod 128 + 128 * (n / 128)) with n in Hmore by lia.
    apply Hmore; [lia|]. apply IH.
    rewrite Nat2Z.inj_succ, <- Z.add_1_l, (Z.add_comm 1), Z.pow_add_r in Hn by lia.
    change (128 ^ 1) with 128 in Hn. split; [lia|].
    apply Z.div_lt_upper_bound; lia.
Qed.

(** One step of the accumulator. *)
Lemma accumulate acc b k :
  0 <= k <= 4 -> 0 <= acc < 2 ^ (7 * k) ->
  js_or (to_int32 acc) (js_shl b (7 * k)) = to_int32 (acc + b * 2 ^ (7 * k)).
Proof. intros Hk Hacc. rewrite js_or_shl, lor_shiftl_add by lia. done. Qed.
Lemma accumulate_bound acc b k :
  0 <= k -> 0 <= b < 128 -> 0 <= acc < 2 ^ (7 * k) ->
  0 <= acc + b * 2 ^ (7 * k) < 2 ^ (7 * (k + 1)).
Proof.
  intros Hk Hb Hacc. replace (7 * (k + 1)) with (7 + 7 * k) by lia.
  rewrite Z.pow_add_r by lia. change (2 ^ 7) with 128. nia.
Qed.

Lemma uleb_loop_enc fuel pre bs post n acc k :
  uleb bs n -> 0 <= k -> k + blen bs <= 5 -> blen bs <= Z.of_nat fuel ->
  0 <= acc < 2 ^ (7 * k) ->
  uleb_loop fuel (pre ++ bs ++ post) (blen pre) (to_int32 acc) (7 * k)
  = Ok (mkRead (to_int32 (acc + n * 2 ^ (7 * k))) (blen pre + blen bs)).
Proof.
  intros Hu. revert fuel pre acc k.
  induction Hu as [b Hb|b bs n Hb Hu IH]; intros fuel pre acc k Hk Hlen Hfuel Hacc;
    (destruct fuel as [|fuel]; [unfold blen in Hfuel; simpl in Hfuel; lia|]);
    autorewrite with blen in *; cbn [uleb_loop app]; autorewrite with blen;
    pose proof (blen_nonneg post); pose proof (payload_bits b Hb) as (E1 & E2 & E3 & E4 & _);
    rewrite idx_middle.
  - rewrite (proj2 (Z.leb_gt _ _)) by lia. rewrite E1, E3, accumulate by lia.
    by rewrite (proj2 (Z.ltb_ge _ _)) by lia.
  - pose proof (blen_nonneg bs). rewrite (proj2 (Z.leb_gt _ _)) by lia.
    rewrite E2, E4, accumulate by lia.
    rewrite (proj2 (Z.ltb_ge _ _)) by lia. cbn [Z.eqb].
    replace (pre ++ (b + 128) :: bs ++ post) with ((pre ++ [b + 128]) ++ bs ++ post)
      by (by rewrite <- app_assoc).
    replace (blen pre + 1) with (blen (pre ++ [b + 128])) by (autorewrite with blen; lia).
    replace (7 * k + 7) with (7 * (k + 1)) by lia.
    rewrite IH by first [lia | apply accumulate_bound; lia]. autorewrite with blen.
    replace (7 * (k + 1)) with (7 + 7 * k) by lia. rewrite Z.pow_add_r by lia.
    change (2 ^ 7) with 128. f_equal. f_equal; [f_equal|]; lia.
Qed.

Lemma uleb_loop_bounds fuel buffer offset value shift r :
  uleb_loop fuel buffer offset value shift = Ok r ->
  offset < rr_offset r <= blen buffer /\ int32 (rr_value r).
Proof.
  revert offset value shift. induction fuel as [|fuel IH]; intros offset value shift; [done|].
  cbn [uleb_loop]. destruct (Z.leb_spec (blen buffer) offset); [done|].
  destruct (63 <? shift + 7); [done|]. destruct (js_and _ 128 =? 0).
  - intros [= <-]. simpl. split; [lia|]. rewrite <- to_int32_lor. auto with js.
  - intros [Hr Hv]%IH. split; [lia|done].
Qed.
Lemma readULEB128_bounds buffer offset r :
  readULEB128 buffer offset = Ok r ->
  offset < rr_offset r <= blen buffer /\ int32 (rr_value r).
Proof. apply uleb_loop_bounds. Qed.
Lemma uleb_loop_fuel fuel buffer offset value shift :
  shift <= 63 -> 70 <= shift + 7 * Z.of_nat fuel ->
  uleb_loop fuel buffer offset value shift <> Err OutOfFuel.
Proof.
  revert offset value shift. induction fuel as [|fuel IH]; intros offset value shift Hs Hf.
  - lia.
  - cbn [uleb_loop]. destruct (blen buffer <=? offset); [done|].
    destruct (Z.ltb_spec 63 (shift + 7)); [done|]. destruct (_ =? 0); [done|].
    apply IH; lia.
Qed.

Lemma readULEB128_enc pre bs post n :
  uleb bs n -> blen bs <= 5 ->
  readULEB128 (pre ++ bs ++ post) (blen pre)
  = Ok (mkRead (to_int32 n) (blen pre + blen bs)).
Proof.
  intros Hu Hl. unfold readULEB128.
  etransitivity; [apply (uleb_loop_enc 10 pre bs post n 0 0 Hu); lia|].
  f_equal. f_equal. f_equal. lia.
Qed.

Lemma sleb_loop_enc fuel pre bs post n acc k :
  sleb bs n -> 0 <= k -> k + blen bs <= 5 -> blen bs <= Z.of_nat fuel ->
  0 <= acc < 2 ^ (7 * k) ->
  sleb_loop fuel (pre ++ bs ++ post) (blen pre) (to_int32 acc) (7 * k) (7 * k)
  = Ok (mkRead (let v := acc + n * 2 ^ (7 * k) in
                if (v <? 0) && (5 <=? k + blen bs) then js_or (to_int32 v) (-8) else to_int32 v)
         (blen pre + blen bs)).
Proof.
  intros Hu. revert fuel pre acc k.
  induction Hu as [b Hb|b bs n Hb Hu IH]; intros fuel pre acc k Hk Hlen Hfuel Hacc;
    (destruct fuel as [|fuel]; [unfold blen in Hfuel; simpl in Hfuel; lia|]);
    autorewrite with blen in *; cbn [sleb_loop app]; autorewrite with blen;
    pose proof (blen_nonneg post); pose proof (payload_bits b Hb) as (E1 & E2 & E3 & E4 & E5);
    rewrite idx_middle.
  - rewrite (proj2 (Z.leb_gt _ _)) by lia. rewrite E1, E3, E5, accumulate by lia.
    rewrite (proj2 (Z.ltb_ge _ _)) by lia. cbn [Z.eqb].
    rewrite (proj2 (Z.ltb_lt (7 * k + 7) 64)) by lia. rewrite andb_true_r.
    assert (Hp : 2 ^ (7 * (k + 1)) = 128 * 2 ^ (7 * k)).
    { replace (7 * (k + 1)) with (7 + 7 * k) by lia. by rewrite Z.pow_add_r by lia. }
    f_equal. f_equal.
    destruct (Z.ltb_spec b 64) as [Hlt|Hge]; cbn [negb].
    + by rewrite (proj2 (Z.ltb_ge (acc + _) 0)) by nia.
    + rewrite (proj2 (Z.ltb_lt (acc + (b - 128) * _) 0)) by nia. cbn [andb].
      destruct (Z.leb_spec 5 (k + (1 + 0))) as [H5|H5].
      * assert (k = 4) as -> by lia. unfold js_or. rewrite !to_int32_idem.
        change (to_int32 (js_shl (-1) (7 * 4 + 7))) with (to_int32 (-8)).
        f_equal. apply to_int32_congr. change (2 ^ (7 * 4)) with 268435456. lia.
      * rewrite js_or_shl by lia. f_equal.
        replace (7 * k + 7) with (7 * (k + 1)) by lia.
        rewrite lor_shiftl_add by first [lia | apply accumulate_bound; lia]. lia.
  - pose proof (blen_nonneg bs). rewrite (proj2 (Z.leb_gt _ _)) by lia.
    rewrite E2, E4, accumulate by lia.
    rewrite (proj2 (Z.ltb_ge _ _)) by lia. cbn [Z.eqb].
    replace (pre ++ (b + 128) :: bs ++ post) with ((pre ++ [b + 128]) ++ bs ++ post)
      by (by rewrite <- app_assoc).
    replace (blen pre + 1) with (blen (pre ++ [b + 128])) by (autorewrite with blen; lia).
    replace (7 * k + 7) with (7 * (k + 1)) by lia.
    rewrite IH by first [lia | apply accumulate_bound; lia]. autorewrite with blen.
    replace (k + (1 + blen bs)) with (k + 1 + blen bs) by lia.
    replace (acc + b * 2 ^ (7 * k) + n * 2 ^ (7 * (k + 1)))
      with (acc + (b + 128 * n) * 2 ^ (7 * k))
      by (replace (7 * (k + 1)) with (7 + 7 * k) by lia; rewrite Z.pow_add_r by lia;
          change (2 ^ 7) with 128; lia).
    f_equal. f_equal. lia.
Qed.

Lemma word32_bytes pre n post :
  word32 (pre ++ le_bytes 4 n ++ post) (blen pre) = to_int32 n.
Proof.
  unfold word32. cbn [le_bytes].
  set (b0 := n mod 256). set (b1 := n / 256 mod 256).
  set (b2 := n / 256 / 256 mod 256). set (b3 := n / 256 / 256 / 256 mod 256).
  assert (Hi : forall i x, nth_error [b0; b1; b2; b3] i = Some x ->
            idx (pre ++ [b0; b1; b2; b3] ++ post) (blen pre + Z.of_nat i) = x).
  { intros i x Hx. apply nth_error_split in Hx as (l1 & l2 & E & Hl). rewrite E.
    replace (pre ++ (l1 ++ x :: l2) ++ post) with ((pre ++ l1) ++ x :: l2 ++ post)
      by (by rewrite <- !app_assoc).
    replace (blen pre + Z.of_nat i) with (blen (pre ++ l1))
      by (autorewrite with blen; unfold blen; lia).
    apply idx_middle. }
  pose proof (Hi 0%nat b0 eq_refl) as E0. rewrite Z.add_0_r in E0.
  pose proof (Hi 1%nat b1 eq_refl : idx _ (blen pre + 1) = b1) as E1.
  pose proof (Hi 2%nat b2 eq_refl : idx _ (blen pre + 2) = b2) as E2.
  pose proof (Hi 3%nat b3 eq_refl : idx _ (blen pre + 3) = b3) as E3.
  rewrite E0, E1, E2, E3. clear Hi E0 E1 E2 E3.
  rewrite <- (to_int32_id b0) by (unfold int32, b0; lia).
  rewrite (js_or_shl b0 b1 8), lor_shiftl_add by (unfold b0; lia).
  rewrite js_or_shl, lor_shiftl_add by (unfold b0, b1; lia).
  rewrite js_or_shl, lor_shiftl_add by (unfold b0, b1, b2; lia).
  apply to_int32_congr. unfold b0, b1, b2, b3. lia.
Qed.

(** ** The properties *)

(** [readULEB128] inverts unsigned LEB128 for every number below 2^31, in
    any encoding of at most five bytes (padded ones included) and at any place
    of a buffer, and leaves the offset just after it; a 32-bit number from
    2^31 on comes back as the negative number with the same 32 bits. *)
Theorem readULEB128_roundtrip (pre bs post : list Z) (n : Z) :
  uleb bs n -> blen bs <= 5 -> n < 4294967296 ->
  readULEB128 (pre ++ bs ++ post) (blen pre)
  = Ok (mkRead (if n <? 2147483648 then n else n - 4294967296) (blen pre + blen bs)).
Proof.
  intros Hu Hl Hn. rewrite (readULEB128_enc pre bs post n Hu Hl).
  pose proof (uleb_nonneg bs n Hu). unfold to_int32. by rewrite Z.mod_small by lia.
Qed.
Lemma readULEB128_roundtrip_witness :
  readULEB128 ([1; 2] ++ [229; 142; 38] ++ [7]) 2 = Ok (mkRead 624485 5).
Proof.
  apply (readULEB128_roundtrip [1; 2] [229; 142; 38] [7] 624485).
  - apply (uleb_more 101 _ 4878); [lia|]. apply (uleb_more 14 _ 38); [lia|].
    apply uleb_last. lia.
  - unfold blen. simpl. lia.
  - lia.
Defined.

(** [readSLEB128] inverts signed LEB128 (encodings of at most five bytes
    of 32-bit numbers) except that a negative number in five bytes, that is
    any number below -2^27, loses its high bits: the sign extension [~0 << 35]
    shifts by 3, so the result is [n | -8], between -8 and -1. *)
Theorem readSLEB128_roundtrip (pre bs post : list Z) (n : Z) :
  sleb bs n -> blen bs <= 5 -> int32 n ->
  readSLEB128 (pre ++ bs ++ post) (blen pre)
  = Ok (mkRead (if (n <? 0) && (blen bs =? 5) then Z.lor n (-8) else n)
         (blen pre + blen bs)).
Proof.
  intros Hs Hl Hn. unfold readSLEB128.
  etransitivity; [apply (sleb_loop_enc 10 pre bs post n 0 0 Hs); lia|]. cbv zeta.
  change (2 ^ (7 * 0)) with 1. rewrite Z.mul_1_r, !Z.add_0_l, to_int32_id by done.
  replace (5 <=? blen bs) with (blen bs =? 5)
    by (destruct (Z.eqb_spec (blen bs) 5), (Z.leb_spec 5 (blen bs)); lia || done).
  unfold js_or. by rewrite (to_int32_id n) by done.
Qed.
Lemma readSLEB128_roundtrip_witness :
  readSLEB128 ([] ++ [128; 128; 128; 128; 120] ++ []) 0 = Ok (mkRead (-8) 5).
Proof.
  apply (readSLEB128_roundtrip [] [128; 128; 128; 128; 120] [] (-2147483648)).
  - apply (sleb_more 0 _ (-16777216)); [lia|]. apply (sleb_more 0 _ (-131072)); [lia|].
    apply (sleb_more 0 _ (-1024)); [lia|]. apply (sleb_more 0 _ (-8)); [lia|].
    apply (sleb_last 120). lia.
  - unfold blen. simpl. lia.
  - unfold int32. lia.
Defined.

(** [readU64] reads back a number below 2^53 from its eight little-endian
    bytes when bit 31 is clear; when it is set the low word is taken as
    negative and the result is 2^32 too small. *)
Theorem readU64_spec (pre post : list Z) (n : Z) :
  0 <= n <= max_safe_integer ->
  readU64 (pre ++ le_bytes 8 n ++ post) (blen pre)
  = Ok (mkRead (if n mod 4294967296 <? 2147483648 then n else n - 4294967296)
         (blen pre + 8)).
Proof.
  intros Hn. unfold readU64, max_safe_integer in *.
  assert (E8 : le_bytes 8 n = le_bytes 4 n ++ le_bytes 4 (n / 4294967296)).
  { cbn [le_bytes app]. repeat (f_equal; try lia). }
  rewrite blen_app, blen_app. replace (blen (le_bytes 8 n)) with 8 by reflexivity.
  pose proof (blen_nonneg post). rewrite (proj2 (Z.ltb_ge _ _)) by lia.
  assert (Elow : word32 (pre ++ le_bytes 8 n ++ post) (blen pre) = to_int32 n).
  { rewrite E8, <- app_assoc. apply word32_bytes. }
  assert (Ehigh : word32 (pre ++ le_bytes 8 n ++ post) (blen pre + 4)
                  = to_int32 (n / 4294967296)).
  { rewrite E8. replace (pre ++ (le_bytes 4 n ++ le_bytes 4 (n / 4294967296)) ++ post)
      with ((pre ++ le_bytes 4 n) ++ le_bytes 4 (n / 4294967296) ++ post)
      by (by rewrite <- !app_assoc).
    replace (blen pre + 4) with (blen (pre ++ le_bytes 4 n)) by (by rewrite blen_app).
    apply word32_bytes. }
  rewrite Elow, Ehigh. rewrite (to_int32_id (n / 4294967296)) by (unfold int32; lia).
  unfold to_int32.
  destruct (Z.ltb_spec (n mod 4294967296) 2147483648); rewrite to_double_exact by lia;
    rewrite (proj2 (Z.ltb_ge _ _)) by lia; f_equal; f_equal; lia.
Qed.
Lemma readU64_spec_witness :
  readU64 ([9] ++ [0; 0; 0; 128; 1; 0; 0; 0] ++ []) 1
  = Ok (mkRead (6442450944 - 4294967296) 9).
Proof. apply (readU64_spec [9] [] 6442450944). unfold max_safe_integer. lia. Defined.
