(* ===== verification/WasmWalker.v ===== *)
(** [lib/wasm-parse/section-walker.ts] and [lib/wasm-parse/index.ts]: the
    module header, the section walker, the type, export and name section
    parsers, and the contract interface built from them.

    Every [do .. while] that reads a length in these files is the same loop;
    [read_len] is it.  The loops over a vector are recursions on the number of
    iterations left; the two [while] loops take fuel and answer [OutOfFuel]
    when it is spent. *)

From S2P Require Import Prelude JsString WasmReader.
From stdpp Require Import base list gmap strings numbers.
From Stdlib Require Import ZArith Lia Ascii.
#[local] Open Scope Z_scope.

Record WasmSection : Type := mkSection
  { sec_id : Z; sec_name : string; sec_start : Z; sec_size : Z; sec_data : list Z }.
Record WasmModule : Type := mkModule
  { mod_magic : Z; mod_version : Z; mod_sections : list WasmSection }.
Record ExportEntry : Type := mkExport
  { exp_name : string; exp_kind : option Z; exp_index : Z }.
Record FuncType : Type := mkFuncType { ft_params : list Z; ft_results : list Z }.
Record NameMap : Type := mkNameMap
  { nm_moduleName : option string; nm_functionNames : gmap Z string }.

Definition SectionId_Custom : Z := 0.

(** ** Header *)

Definition parseModuleHeader (buffer : list Z) (offset : Z) : result WasmError (WasmModule * Z) :=
  if blen buffer <? offset + 8 then Err Header_too_small
  else
    let magic := word32 buffer offset in
    if negb (magic =? 1836278016 (* 0x6d736100 *)) then Err (Invalid_magic magic)
    else
      let version := word32 buffer (offset + 4) in
      if negb (version =? 1) then Err (Unsupported_version version)
      else Ok (mkModule magic version [], offset + 8).

(** ** Reading a length *)

(** [do { if (offset >= data.length) break; byte = data[offset++]; ... }
    while (byte & 0x80)]: the value so far and the offset when the loop ends.
    There is no limit on [shift].  Each turn but the last consumes a byte below
    [data.length], so [length data + 1] turns are enough. *)
Fixpoint len_loop (fuel : nat) (data : list Z) (offset value shift : Z) : Z * Z :=
  match fuel with
  | O => (value, offset)
  | S fuel' =>
      if blen data <=? offset then (value, offset)
      else
        let byte := idx data offset in
        let value := js_or value (js_shl (js_and byte 127) shift) in
        if js_and byte 128 =? 0 then (value, offset + 1)
        else len_loop fuel' data (offset + 1) value (shift + 7)
  end.
Definition read_len (data : list Z) (offset : Z) : Z * Z :=
  len_loop (S (length data)) data offset 0 0.

(** The section size, read with a limit: [shift > 32] throws. *)
Fixpoint section_size_loop (fuel : nat) (buffer : list Z) (offset size shift : Z)
  : result WasmError (Z * Z) :=
  match fuel with
  | O => Err OutOfFuel
  | S fuel' =>
      if blen buffer <=? offset then Err SectionSize_eof
      else
        let byte := idx buffer offset in
        let size := js_or size (js_shl (js_and byte 127) shift) in
        if 32 <? shift + 7 then Err SectionSize_overflow
        else if js_and byte 128 =? 0 then Ok (size, offset + 1)
        else section_size_loop fuel' buffer (offset + 1) size (shift + 7)
  end.

Section Walker.
  (** [new TextDecoder().decode], the platform's UTF-8 decoder. *)
  Context (decode_utf8 : list Z -> string).

(** The name a custom section's payload starts with. *)
Definition custom_name (data : list Z) : string :=
  let '(nameLength, nameOffset) := read_len data 0 in
  if nameOffset + nameLength <=? blen data
  then decode_utf8 (js_slice data nameOffset (nameOffset + nameLength))
  else ""%string.

Fixpoint walk_loop (fuel : nat) (buffer : list Z) (offset : Z) (sections : list WasmSection)
  : result WasmError (list WasmSection) :=
  if blen buffer <=? offset then Ok sections
  else
    match fuel with
    | O => Err OutOfFuel
    | S fuel' =>
        let sectionId := idx buffer offset in
        '(size, start) ← section_size_loop 5 buffer (offset + 1) 0 0;
        if blen buffer <? start + size then Err (Section_bounds sectionId size)
        else
          let data := js_slice buffer start (start + size) in
          let name := if sectionId =? SectionId_Custom then custom_name data else ""%string in
          walk_loop fuel' buffer (start + size)
            (sections ++ [mkSection sectionId name start size data])
    end.
Definition walkSections (buffer : list Z) (offset : Z) : result WasmError (list WasmSection) :=
  walk_loop (length buffer) buffer offset [].

(** ** Export section *)

(** The [for] loop with [n] iterations left. *)
Fixpoint export_loop (n : nat) (data : list Z) (offset : Z) (exports : list ExportEntry)
  : list ExportEntry :=
  match n with
  | O => exports
  | S n' =>
      let '(nameLen, offset) := read_len data offset in
      if blen data <? offset + nameLen then exports
      else
        let name := decode_utf8 (js_slice data offset (offset + nameLen)) in
        let offset := offset + nameLen in
        if blen data <=? offset then exports
        else
          let kind := byte_at data offset in
          let '(index, offset) := read_len data (offset + 1) in
          export_loop n' data offset (exports ++ [mkExport name kind index])
  end.
Definition parseExportSection (data : list Z) : list ExportEntry :=
  let '(count, offset) := read_len data 0 in
  export_loop (Z.to_nat count) data offset [].

(** ** Type section *)

(** [for (j < n) { if (offset >= data.length) break; out.push(data[offset++]) }]. *)
Fixpoint take_types (n : nat) (data : list Z) (offset : Z) (out : list Z) : list Z * Z :=
  match n with
  | O => (out, offset)
  | S n' => if blen data <=? offset then (out, offset)
            else take_types n' data (offset + 1) (out ++ [idx data offset])
  end.
Fixpoint type_loop (n : nat) (data : list Z) (offset : Z) (types : list FuncType)
  : list FuncType :=
  match n with
  | O => types
  | S n' =>
      if blen data <=? offset then types
      else
        let offset := offset + 1 in
        let '(paramCount, offset) := read_len data offset in
        let '(params, offset) := take_types (Z.to_nat paramCount) data offset [] in
        let '(resultCount, offset) := read_len data offset in
        let '(results, offset) := take_types (Z.to_nat resultCount) data offset [] in
        type_loop n' data offset (types ++ [mkFuncType params results])
  end.
Definition parseTypeSection (data : list Z) : list FuncType :=
  let '(count, offset) := read_len data 0 in
  type_loop (Z.to_nat count) data offset [].

(** ** Name section *)

Fixpoint func_names_loop (n : nat) (subData : list Z) (subOffset : Z) (names : gmap Z string)
  : gmap Z string :=
  match n with
  | O => names
  | S n' =>
      let '(funcIdx, subOffset) := read_len subData subOffset in
      let '(nameLen, subOffset) := read_len subData subOffset in
      if subOffset + nameLen <=? blen subData
      then func_names_loop n' subData (subOffset + nameLen)
             (<[funcIdx := decode_utf8 (js_slice subData subOffset (subOffset + nameLen))]> names)
      else func_names_loop n' subData subOffset names
  end.
(** One subsection's effect on the result. *)
Definition name_subsection (kind : option Z) (subData : list Z) (r : NameMap) : NameMap :=
  if decide (kind = Some 1) then
    let '(count, subOffset) := read_len subData 0 in
    mkNameMap (nm_moduleName r)
      (func_names_loop (Z.to_nat count) subData subOffset (nm_functionNames r))
  else if decide (kind = Some 0) then
    let '(nameLen, subOffset) := read_len subData 0 in
    if subOffset + nameLen <=? blen subData
    then mkNameMap (Some (decode_utf8 (js_slice subData subOffset (subOffset + nameLen))))
           (nm_functionNames r)
    else r
  else r.
Fixpoint name_loop (fuel : nat) (data : list Z) (offset : Z) (r : NameMap)
  : result WasmError NameMap :=
  if blen data <=? offset then Ok r
  else
    match fuel with
    | O => Err OutOfFuel
    | S fuel' =>
        let subsectionType := byte_at data offset in
        let '(size, offset) := read_len data (offset + 1) in
        let subData := js_slice data offset (offset + size) in
        name_loop fuel' data (offset + size) (name_subsection subsectionType subData r)
    end.
Definition parseNameSection (fuel : nat) (data : list Z) : result WasmError NameMap :=
  name_loop fuel data 0 (mkNameMap None ∅).

(** ** The contract interface ([index.ts]) *)

Definition MAX_MODULE_SIZE : Z := 16 * 1024 * 1024.

Record ExportedFunction : Type := mkFunction
  { ef_name : string; ef_exportIndex : Z; ef_funcIndex : Z;
    ef_paramTypes : list Z; ef_resultTypes : list Z; ef_paramNames : list string }.
Record ParsedContract : Type := mkContract
  { pc_module : WasmModule; pc_exports : list ExportEntry; pc_types : list FuncType;
    pc_nameMap : NameMap; pc_exportedFunctions : list ExportedFunction }.

Definition heuristicParamName (valtype index : Z) : string :=
  String.append
    (if valtype =? 127 then "i32_" else if valtype =? 126 then "i64_"
     else if valtype =? 125 then "f32_" else if valtype =? 124 then "f64_"
     else if valtype =? 123 then "v128_" else if valtype =? 112 then "funcref_"
     else if valtype =? 111 then "externref_" else "param_")
    (num_to_string index).

(** What the loop over the sections has found; a later section of the same
    kind replaces an earlier one. *)
Fixpoint collect_sections (fuel : nat) (sections : list WasmSection)
  (exports : list ExportEntry) (types : list FuncType) (names : NameMap)
  : result WasmError (list ExportEntry * list FuncType * NameMap) :=
  match sections with
  | [] => Ok (exports, types, names)
  | s :: rest =>
      if sec_id s =? 7 then
        collect_sections fuel rest (parseExportSection (sec_data s)) types names
      else if sec_id s =? 1 then
        collect_sections fuel rest exports (parseTypeSection (sec_data s)) names
      else if (sec_id s =? 0) && bool_decide (sec_name s = "name"%string) then
        names' ← parseNameSection fuel (sec_data s);
        collect_sections fuel rest exports types names'
      else collect_sections fuel rest exports types names
  end.

(** [types[exp.index] || { params: [], results: [] }]. *)
Definition type_at (types : list FuncType) (i : Z) : FuncType :=
  default (mkFuncType [] []) (if i <? 0 then None else types !! Z.to_nat i).
Definition param_name (names : gmap Z string) (index : Z) (i : nat) (t : Z) : string :=
  match names !! (index + Z.of_nat i) with
  | Some s => if decide (s = ""%string) then ("param" ++ num_to_string (Z.of_nat i))%string else s
  | None => heuristicParamName t (Z.of_nat i)
  end.
Definition exported_function (types : list FuncType) (names : gmap Z string)
    (i : nat) (exp : ExportEntry) : ExportedFunction :=
  let ft := type_at types (exp_index exp) in
  mkFunction (exp_name exp) (Z.of_nat i) (exp_index exp) (ft_params ft) (ft_results ft)
    (imap (param_name names (exp_index exp)) (ft_params ft)).
(** [exports.filter(kind === 0).map(...)]; [exports.indexOf(exp)] is the
    position of the entry, which is a distinct object. *)
Definition exported_functions (exports : list ExportEntry) (types : list FuncType)
    (names : gmap Z string) : list ExportedFunction :=
  (fun p => exported_function types names p.1 p.2) <$>
    filter (fun p => exp_kind p.2 = Some 0) (imap pair exports).

Definition parseContractWasm (fuel : nat) (buffer : list Z) : result WasmError ParsedContract :=
  if MAX_MODULE_SIZE <? blen buffer then Err (Module_too_large (blen buffer))
  else
    '(m, offset) ← parseModuleHeader buffer 0;
    sections ← walkSections buffer offset;
    '(exports, types, names) ← collect_sections fuel sections [] [] (mkNameMap None ∅);
    Ok (mkContract (mkModule (mod_magic m) (mod_version m) sections) exports types names
          (exported_functions exports types (nm_functionNames names))).
End Walker.

Definition hex_digit (d : Z) : ascii :=
  ascii_of_N (Z.to_N (if d <? 10 then 48 + d else 87 + d)).
(** [n.toString(16)] for a byte. *)
Definition byte_to_hex (n : Z) : string :=
  if n <? 16 then String (hex_digit n) ""
  else String (hex_digit (n / 16)) (String (hex_digit (n mod 16)) "").
Definition valtypeName (valtype : Z) : string :=
  if valtype =? 127 then "i32" else if valtype =? 126 then "i64"
  else if valtype =? 125 then "f32" else if valtype =? 124 then "f64"
  else if valtype =? 123 then "v128" else if valtype =? 112 then "funcref"
  else if valtype =? 111 then "externref"
  else String.append "unknown(0x" (String.append (byte_to_hex valtype) ")").
Definition heuristicTemplate (valtype : Z) : string :=
  if valtype =? 127 then "0" else if valtype =? 126 then "0"
  else if valtype =? 125 then "0.0" else if valtype =? 124 then "0.0"
  else if valtype =? 123 then "0x0" else if valtype =? 112 then "null"
  else if valtype =? 111 then "null" else "0".

Record ArgTemplate : Type := mkArg
  { arg_name : string; arg_type : string; arg_template : string; arg_isGuess : bool }.
Record FuzzTargetDescriptor : Type := mkTarget
  { ftd_method : string; ftd_argTemplates : list ArgTemplate; ftd_source : string }.
Definition arg_template_of (names : list string) (i : nat) (valtype : Z) : ArgTemplate :=
  let n := default ""%string (names !! i) in
  mkArg (if decide (n = ""%string) then ("arg" ++ num_to_string (Z.of_nat i))%string else n)
    (valtypeName valtype) (heuristicTemplate valtype) true.
Definition proposeFuzzTargets (c : ParsedContract) : list FuzzTargetDescriptor :=
  (fun fn => mkTarget (ef_name fn) (imap (arg_template_of (ef_paramNames fn)) (ef_paramTypes fn))
               "heuristic"%string) <$> pc_exportedFunctions c.

(** ** Reading positions

    [suffix_at data off suf]: from [off] on, [data] is [suf]. *)

Definition suffix_at (data : list Z) (off : Z) (suf : list Z) : Prop :=
  exists pre, data = pre ++ suf /\ off = blen pre.

Lemma suffix_at_0 data : suffix_at data 0 data.
Proof. by exists []. Qed.
Lemma suffix_at_bounds data off suf :
  suffix_at data off suf -> 0 <= off /\ off + blen suf = blen data.
Proof. intros (pre & -> & ->). autorewrite with blen. pose proof (blen_nonneg pre). lia. Qed.
Lemma suffix_at_app data off a b :
  suffix_at data off (a ++ b) -> suffix_at data (off + blen a) b.
Proof.
  intros (pre & -> & ->). exists (pre ++ a). rewrite <- app_assoc. by autorewrite with blen.
Qed.
Lemma suffix_at_cons data off x suf :
  suffix_at data off (x :: suf) ->
  byte_at data off = Some x /\ idx data off = x /\ suffix_at data (off + 1) suf.
Proof.
  intros H. pose proof (suffix_at_app data off [x] suf H) as H1.
  destruct H as (pre & -> & ->). split; [apply byte_at_middle|]. split; [apply idx_middle|].
  autorewrite with blen in H1. by replace (blen pre + 1) with (blen pre + (1 + 0)) by lia.
Qed.
Lemma suffix_at_slice data off mid post :
  suffix_at data off (mid ++ post) -> js_slice data off (off + blen mid) = mid.
Proof. intros (pre & -> & ->). apply js_slice_middle. Qed.
Lemma suffix_at_lt data off x suf : suffix_at data off (x :: suf) -> off < blen data.
Proof.
  intros H. apply suffix_at_bounds in H as [_ <-]. autorewrite with blen.
  pose proof (blen_nonneg suf). lia.
Qed.

(** A canonical or padded length reads back; at the end of the data the length
    is 0. *)
Lemma len_loop_enc fuel data off bs post n acc k :
  uleb bs n -> suffix_at data off (bs ++ post) -> 0 <= k -> k + blen bs <= 5 ->
  blen bs <= Z.of_nat fuel -> 0 <= acc < 2 ^ (7 * k) ->
  len_loop fuel data off (to_int32 acc) (7 * k)
  = (to_int32 (acc + n * 2 ^ (7 * k)), off + blen bs).
Proof.
  intros Hu. revert fuel off acc k.
  induction Hu as [b Hb|b bs n Hb Hu IH]; intros fuel off acc k Hs Hk Hlen Hfuel Hacc;
    (destruct fuel as [|fuel]; [unfold blen in Hfuel; simpl in Hfuel; lia|]);
    autorewrite with blen in *; cbn [app] in Hs; cbn [len_loop];
    pose proof (payload_bits b Hb) as (E1 & E2 & E3 & E4 & _);
    pose proof (suffix_at_lt _ _ _ _ Hs); apply suffix_at_cons in Hs as (_ & Eb & Hs);
    rewrite (proj2 (Z.leb_gt _ _)), Eb by lia.
  - by rewrite E1, E3, accumulate by lia.
  - pose proof (blen_nonneg bs). rewrite E2, E4, accumulate by lia. cbn [Z.eqb].
    replace (7 * k + 7) with (7 * (k + 1)) by lia.
    rewrite (IH fuel _ _ (k + 1) Hs) by first [lia | apply accumulate_bound; lia].
    replace (7 * (k + 1)) with (7 + 7 * k) by lia. rewrite Z.pow_add_r by lia.
    change (2 ^ 7) with 128. f_equal; [f_equal|]; lia.
Qed.
Lemma read_len_enc data off bs post n :
  uleb bs n -> blen bs <= 5 -> suffix_at data off (bs ++ post) ->
  read_len data off = (to_int32 n, off + blen bs).
Proof.
  intros Hu Hl Hs. pose proof (suffix_at_bounds _ _ _ Hs) as [H0 Hb].
  autorewrite with blen in Hb. pose proof (blen_nonneg post).
  unfold read_len. etransitivity.
  - apply (len_loop_enc _ _ _ bs post n 0 0); try done; try lia. unfold blen in *. lia.
  - f_equal. f_equal. lia.
Qed.
Lemma read_len_end data off : blen data <= off -> read_len data off = (0, off).
Proof. intros H. unfold read_len. cbn [len_loop]. by rewrite (proj2 (Z.leb_le _ _)). Qed.

(** The encoding the round trips are stated with. *)
Definition enc (n : Z) : list Z := uleb_encode 4 n.
Lemma enc_uleb n : 0 <= n < 2147483648 -> uleb (enc n) n.
Proof. intros H. apply uleb_encode_ok. simpl. lia. Qed.
Lemma uleb_encode_length fuel n : (length (uleb_encode fuel n) <= S fuel)%nat.
Proof.
  revert n. induction fuel as [|fuel IH]; intros n; cbn [uleb_encode]; [simpl; lia|].
  destruct (n <? 128); simpl; [lia|]. specialize (IH (n / 128)). lia.
Qed.
Lemma enc_length n : blen (enc n) <= 5.
Proof. unfold blen, enc. pose proof (uleb_encode_length 4 n). lia. Qed.
Lemma read_len_canonical data off post n :
  0 <= n < 2147483648 -> suffix_at data off (enc n ++ post) ->
  read_len data off = (n, off + blen (enc n)) /\ suffix_at data (off + blen (enc n)) post.
Proof.
  intros Hn Hs. split; [|by apply suffix_at_app].
  rewrite (read_len_enc data off (enc n) post n); auto using enc_uleb, enc_length.
  by rewrite to_int32_id by (unfold int32; lia).
Qed.

(** ** The section walker *)

(** A section as it lies in a module: id, size bytes, payload. *)
Record RawSection : Type := mkRaw { raw_id : Z; raw_size : list Z; raw_payload : list Z }.
Definition is_byte (b : Z) : Prop := 0 <= b < 256.
Lemma bytes_ok l : forallb (fun b => (0 <=? b) && (b <? 256)) l = true -> Forall is_byte l.
Proof.
  induction l as [|b l IH]; simpl; [done|]. intros [Hb Hl]%andb_true_iff. bools.
  constructor; [unfold is_byte; lia | by apply IH].
Qed.
Definition wf_raw (r : RawSection) : Prop :=
  is_byte (raw_id r) /\ uleb (raw_size r) (blen (raw_payload r)) /\ blen (raw_size r) <= 4 /\
  Forall is_byte (raw_payload r).
Definition encode_raw (r : RawSection) : list Z := raw_id r :: raw_size r ++ raw_payload r.
Definition section_of (decode : list Z -> string) (pos : Z) (r : RawSection) : WasmSection :=
  mkSection (raw_id r)
    (if raw_id r =? 0 then custom_name decode (raw_payload r) else "")
    (pos + 1 + blen (raw_size r)) (blen (raw_payload r)) (raw_payload r).
Fixpoint layout (decode : list Z -> string) (pos : Z) (rs : list RawSection) : list WasmSection :=
  match rs with
  | [] => []
  | r :: rs' => section_of decode pos r :: layout decode (pos + blen (encode_raw r)) rs'
  end.

Lemma size_step acc b k : 0 <= k <= 3 -> 0 <= b < 128 -> 0 <= acc < 2 ^ (7 * k) ->
  js_or acc (js_shl b (7 * k)) = acc + b * 2 ^ (7 * k).
Proof.
  intros Hk Hb Hacc.
  assert (Hp : 2 ^ (7 * (k + 1)) <= 2 ^ 28) by (apply Z.pow_le_mono_r; lia).
  assert (Hq : 2 ^ (7 * k) <= 2 ^ 28) by (apply Z.pow_le_mono_r; lia).
  pose proof (accumulate_bound acc b k). change (2 ^ 28) with 268435456 in *.
  rewrite <- (to_int32_id acc) at 1 by (unfold int32; lia).
  rewrite accumulate by lia. apply to_int32_id. unfold int32. lia.
Qed.
Lemma section_size_enc fuel data off bs post n acc k :
  uleb bs n -> suffix_at data off (bs ++ post) -> 0 <= k -> k + blen bs <= 4 ->
  blen bs <= Z.of_nat fuel -> 0 <= acc < 2 ^ (7 * k) ->
  section_size_loop fuel data off acc (7 * k) = Ok (acc + n * 2 ^ (7 * k), off + blen bs).
Proof.
  intros Hu. revert fuel off acc k.
  induction Hu as [b Hb|b bs n Hb Hu IH]; intros fuel off acc k Hs Hk Hlen Hfuel Hacc;
    (destruct fuel as [|fuel]; [unfold blen in Hfuel; simpl in Hfuel; lia|]);
    autorewrite with blen in *; cbn [app] in Hs; cbn [section_size_loop];
    pose proof (payload_bits b Hb) as (E1 & E2 & E3 & E4 & _);
    pose proof (suffix_at_lt _ _ _ _ Hs); apply suffix_at_cons in Hs as (_ & Eb & Hs);
    rewrite (proj2 (Z.leb_gt _ _)), Eb by lia.
  - rewrite E1, E3, size_step by lia. by rewrite (proj2 (Z.ltb_ge _ _)) by lia.
  - pose proof (blen_nonneg bs). rewrite E2, E4, size_step by lia. cbn [Z.eqb].
    rewrite (proj2 (Z.ltb_ge _ _)) by lia.
    replace (7 * k + 7) with (7 * (k + 1)) by lia.
    rewrite (IH fuel _ _ (k + 1) Hs) by first [lia | apply accumulate_bound; lia].
    replace (7 * (k + 1)) with (7 + 7 * k) by lia. rewrite Z.pow_add_r by lia.
    change (2 ^ 7) with 128. f_equal. f_equal; lia.
Qed.
Lemma section_size_inv fuel data off suf acc k size off' :
  Forall is_byte suf -> suffix_at data off suf -> 0 <= k <= 4 -> 0 <= acc < 2 ^ (7 * k) ->
  section_size_loop fuel data off acc (7 * k) = Ok (size, off') ->
  exists bs n post, suf = bs ++ post /\ uleb bs n /\ k + blen bs <= 4 /\
    size = acc + n * 2 ^ (7 * k) /\ off' = off + blen bs.
Proof.
  revert off suf acc k. induction fuel as [|fuel IH]; intros off suf acc k Hb Hs Hk Hacc; [done|].
  cbn [section_size_loop]. destruct (Z.leb_spec (blen data) off); [done|].
  destruct suf as [|x suf].
  { apply suffix_at_bounds in Hs as [_ Hs]. autorewrite with blen in Hs. lia. }
  apply Forall_cons_1 in Hb as [Hx Hb]. unfold is_byte in Hx.
  apply suffix_at_cons in Hs as (_ & Eb & Hs). rewrite Eb.
  destruct (Z.ltb_spec 32 (7 * k + 7)); [done|].
  destruct (Z.lt_ge_cases x 128) as [Hlt|Hge].
  - destruct (payload_bits x) as (E1 & _ & E3 & _); [lia|].
    rewrite E1, E3, size_step by lia. intros [= <- <-]. exists [x], x, suf.
    split; [done|]. split; [by constructor; lia|]. autorewrite with blen. lia.
  - destruct (payload_bits (x - 128)) as (_ & E2 & _ & E4 & _); [lia|].
    replace (x - 128 + 128) with x in * by lia. rewrite E2, E4, size_step by lia. cbn [Z.eqb].
    replace (7 * k + 7) with (7 * (k + 1)) by lia. intros Hr.
    apply IH with (suf := suf) in Hr as (bs & n & post & -> & Hu & Hl & -> & ->);
      try done; try lia; [|apply accumulate_bound; lia].
    exists (x :: bs), (x - 128 + 128 * n), post. split; [done|]. split.
    { replace x with (x - 128 + 128) at 1 by lia. constructor; [lia|done]. }
    autorewrite with blen. replace (7 * (k + 1)) with (7 + 7 * k) by lia.
    rewrite Z.pow_add_r by lia. change (2 ^ 7) with 128. lia.
Qed.
Lemma section_size_fuel fuel data off acc shift :
  shift <= 32 -> 35 <= shift + 7 * Z.of_nat fuel ->
  section_size_loop fuel data off acc shift <> Err OutOfFuel.
Proof.
  revert off acc shift. induction fuel as [|fuel IH]; intros off acc shift Hs Hf; [lia|].
  cbn [section_size_loop]. destruct (blen data <=? off); [done|].
  destruct (Z.ltb_spec 32 (shift + 7)); [done|]. destruct (_ =? 0); [done|]. apply IH; lia.
Qed.

Section WalkerFacts.
  Context (decode : list Z -> string).

Lemma walk_loop_enc fuel buffer off rs acc :
  Forall wf_raw rs -> suffix_at buffer off (flat_map encode_raw rs) ->
  (length rs <= fuel)%nat ->
  walk_loop decode fuel buffer off acc = Ok (acc ++ layout decode off rs).
Proof.
  intros Hwf. revert fuel off acc. induction Hwf as [|r rs Hr Hwf IH]; intros fuel off acc Hs Hf.
  - cbn [flat_map layout] in *. apply suffix_at_bounds in Hs. autorewrite with blen in Hs.
    rewrite app_nil_r. destruct fuel; cbn [walk_loop]; by rewrite (proj2 (Z.leb_le _ _)) by lia.
  - destruct fuel as [|fuel]; [simpl in Hf; lia|]. cbn [flat_map] in Hs.
    destruct Hr as (Hid & Hsize & Hlen & Hbytes).
    pose proof (suffix_at_app _ _ _ _ Hs) as Hnext.
    unfold encode_raw in Hs at 1. cbn [app] in Hs. rewrite <- app_assoc in Hs.
    pose proof (suffix_at_lt _ _ _ _ Hs) as Hlt. apply suffix_at_cons in Hs as (_ & Eid & Hs).
    cbn [walk_loop]. rewrite (proj2 (Z.leb_gt _ _)) by lia. rewrite Eid.
    change (section_size_loop 5 buffer (off + 1) 0 0)
      with (section_size_loop 5 buffer (off + 1) 0 (7 * 0)).
    rewrite (section_size_enc 5 buffer (off + 1) (raw_size r) _ _ 0 0 Hsize Hs) by lia.
    cbn [mbind result_bind]. apply suffix_at_app in Hs.
    change (2 ^ (7 * 0)) with 1. rewrite Z.mul_1_r, Z.add_0_l.
    pose proof (suffix_at_bounds _ _ _ Hs) as [_ Hb]. autorewrite with blen in Hb.
    pose proof (blen_nonneg (flat_map encode_raw rs)).
    rewrite (proj2 (Z.ltb_ge _ _)) by lia. rewrite (suffix_at_slice _ _ _ _ Hs).
    unfold encode_raw in Hnext at 1. autorewrite with blen in Hnext.
    replace (off + 1 + blen (raw_size r) + blen (raw_payload r))
      with (off + (1 + (blen (raw_size r) + blen (raw_payload r)))) by lia.
    rewrite (IH fuel _ _ Hnext) by (simpl in Hf; lia).
    rewrite <- app_assoc. cbn [app layout].
    unfold section_of, SectionId_Custom, encode_raw. autorewrite with blen. done.
Qed.

Lemma walk_loop_inv fuel buffer off suf acc ss :
  Forall is_byte suf -> suffix_at buffer off suf ->
  walk_loop decode fuel buffer off acc = Ok ss ->
  exists rs, Forall wf_raw rs /\ suf = flat_map encode_raw rs /\ ss = acc ++ layout decode off rs.
Proof.
  revert off suf acc. induction fuel as [|fuel IH]; intros off suf acc Hb Hs; cbn [walk_loop];
    pose proof (suffix_at_bounds _ _ _ Hs) as [H0 Hend];
    (destruct (Z.leb_spec (blen buffer) off);
      [intros [= <-]; exists []; split; [done|]; split; [|by rewrite app_nil_r];
       destruct suf; [done|]; autorewrite with blen in Hend; pose proof (blen_nonneg suf); lia|]);
    [done|].
  destruct suf as [|x suf]; [autorewrite with blen in Hend; lia|].
  apply Forall_cons_1 in Hb as [Hx Hb]. apply suffix_at_cons in Hs as (_ & Eb & Hs). rewrite Eb.
  destruct (section_size_loop 5 buffer (off + 1) 0 0) as [[size start]|e] eqn:Esz; [|done].
  cbn [mbind result_bind]. change 0 with (7 * 0) in Esz at 2.
  apply section_size_inv with (suf := suf) in Esz as (bs & n & post & -> & Hu & Hl & -> & ->);
    try done; try (simpl; lia).
  change (2 ^ (7 * 0)) with 1. rewrite Z.mul_1_r, Z.add_0_l.
  apply suffix_at_app in Hs. pose proof (suffix_at_bounds _ _ _ Hs) as [_ Hpost].
  destruct (Z.ltb_spec (blen buffer) (off + 1 + blen bs + n)); [done|].
  pose proof (uleb_nonneg _ _ Hu). apply Forall_app in Hb as [_ Hb].
  set (payload := take (Z.to_nat n) post).
  assert (Hn : blen payload = n).
  { unfold blen, payload in *. rewrite length_take. unfold blen in *. lia. }
  rewrite <- (take_drop (Z.to_nat n) post) in Hs, Hb. fold payload in Hs, Hb.
  apply Forall_app in Hb as [Hb1 Hb2].
  pose proof (suffix_at_slice _ _ _ _ Hs) as Esl. rewrite Hn in Esl. rewrite Esl.
  apply suffix_at_app in Hs. rewrite Hn in Hs. intros Hr.
  apply IH with (suf := drop (Z.to_nat n) post) in Hr as (rs & Hwf & Erest & ->); try done.
  exists (mkRaw x bs payload :: rs). split; [|split].
  - constructor; [|done]. unfold wf_raw. cbn. rewrite Hn. split; [done|]. split; [done|].
    split; [lia|done].
  - cbn [flat_map]. unfold encode_raw at 1. cbn. rewrite <- Erest, <- app_assoc. f_equal.
    f_equal. unfold payload. by rewrite take_drop.
  - cbn [layout]. unfold section_of, encode_raw. cbn. autorewrite with blen.
    rewrite Hn, <- app_assoc. cbn [app]. do 2 f_equal. f_equal. lia.
Qed.
Lemma walk_loop_fuel fuel buffer off suf acc :
  Forall is_byte suf -> suffix_at buffer off suf -> (length suf <= fuel)%nat ->
  walk_loop decode fuel buffer off acc <> Err OutOfFuel.
Proof.
  revert off suf acc. induction fuel as [|fuel IH]; intros off suf acc Hb Hs Hf; cbn [walk_loop];
    pose proof (suffix_at_bounds _ _ _ Hs) as [_ Hend];
    destruct (Z.leb_spec (blen buffer) off); try done.
  { destruct suf; [|simpl in Hf; lia]. autorewrite with blen in Hend. lia. }
  destruct suf as [|x suf]; [autorewrite with blen in Hend; lia|].
  apply Forall_cons_1 in Hb as [Hx Hb]. apply suffix_at_cons in Hs as (_ & Eb & Hs). rewrite Eb.
  pose proof (section_size_fuel 5 buffer (off + 1) 0 0) as Hfuel.
  destruct (section_size_loop 5 buffer (off + 1) 0 0) as [[size start]|e] eqn:Esz;
    [|cbn; intros [= ->]; apply Hfuel; [lia|lia|done]].
  cbn [mbind result_bind]. change 0 with (7 * 0) in Esz at 2.
  apply section_size_inv with (suf := suf) in Esz as (bs & n & post & -> & Hu & Hl & -> & ->);
    try done; try (simpl; lia).
  change (2 ^ (7 * 0)) with 1. rewrite Z.mul_1_r, Z.add_0_l.
  apply suffix_at_app in Hs. pose proof (suffix_at_bounds _ _ _ Hs) as [_ Hpost].
  destruct (Z.ltb_spec (blen buffer) (off + 1 + blen bs + n)); [done|].
  pose proof (uleb_nonneg _ _ Hu). apply Forall_app in Hb as [_ Hb].
  rewrite <- (take_drop (Z.to_nat n) post) in Hs. apply suffix_at_app in Hs.
  assert (Hn : blen (take (Z.to_nat n) post) = n).
  { unfold blen in *. rewrite length_take. lia. }
  rewrite Hn in Hs. apply IH with (drop (Z.to_nat n) post); try done.
  - by apply Forall_drop.
  - rewrite length_drop. simpl in Hf. rewrite length_app in Hf. lia.
Qed.
End WalkerFacts.

(** ** Vectors of types, exports and names *)

Record ExportSpec : Type := mkXs { xs_name : list Z; xs_kind : Z; xs_index : Z }.
Definition wf_export (e : ExportSpec) : Prop :=
  blen (xs_name e) < 2147483648 /\ is_byte (xs_kind e) /\ 0 <= xs_index e < 2147483648.
Definition enc_export (e : ExportSpec) : list Z :=
  enc (blen (xs_name e)) ++ xs_name e ++ [xs_kind e] ++ enc (xs_index e).
Definition enc_exports (es : list ExportSpec) : list Z :=
  enc (blen (xs_kind <$> es)) ++ flat_map enc_export es.
Definition entry_of (decode : list Z -> string) (e : ExportSpec) : ExportEntry :=
  mkExport (decode (xs_name e)) (Some (xs_kind e)) (xs_index e).

Definition wf_type (t : FuncType) : Prop :=
  blen (ft_params t) < 2147483648 /\ blen (ft_results t) < 2147483648.
Definition enc_type (t : FuncType) : list Z :=
  96 :: enc (blen (ft_params t)) ++ ft_params t ++ enc (blen (ft_results t)) ++ ft_results t.
Definition enc_types (ts : list FuncType) : list Z :=
  enc (Z.of_nat (length ts)) ++ flat_map enc_type ts.

(** A function-name subsection: id 1, its size, and (index, name) pairs. *)
Definition enc_name (p : Z * list Z) : list Z := enc p.1 ++ enc (blen p.2) ++ p.2.
Definition enc_names (l : list (Z * list Z)) : list Z :=
  enc (Z.of_nat (length l)) ++ flat_map enc_name l.
Definition enc_name_section (l : list (Z * list Z)) : list Z :=
  1 :: enc (blen (enc_names l)) ++ enc_names l.
Definition wf_name (p : Z * list Z) : Prop :=
  0 <= p.1 < 2147483648 /\ blen p.2 < 2147483648.
Definition add_name (decode : list Z -> string) (m : gmap Z string) (p : Z * list Z)
  : gmap Z string := <[p.1 := decode p.2]> m.

Lemma suffix_at_slice_all data off suf post :
  suffix_at data off (suf ++ post) ->
  js_slice data off (off + blen suf) = suf /\ suffix_at data (off + blen suf) post /\
  off + blen suf <= blen data.
Proof.
  intros H. pose proof (suffix_at_bounds _ _ _ H) as [_ Hb]. autorewrite with blen in Hb.
  pose proof (blen_nonneg post). split; [by eapply suffix_at_slice|].
  split; [by apply suffix_at_app|lia].
Qed.

Lemma take_types_enc data off xs post acc :
  suffix_at data off (xs ++ post) ->
  take_types (length xs) data off acc = (acc ++ xs, off + blen xs).
Proof.
  revert off acc. induction xs as [|x xs IH]; intros off acc Hs; cbn [length take_types].
  { rewrite app_nil_r. autorewrite with blen. by rewrite Z.add_0_r. }
  cbn [app] in Hs. pose proof (suffix_at_lt _ _ _ _ Hs). rewrite (proj2 (Z.leb_gt _ _)) by lia.
  apply suffix_at_cons in Hs as (_ & -> & Hs). rewrite (IH _ _ Hs), <- app_assoc.
  autorewrite with blen. cbn [app]. f_equal. lia.
Qed.
Lemma type_loop_enc data off ts post acc :
  Forall wf_type ts -> suffix_at data off (flat_map enc_type ts ++ post) ->
  type_loop (length ts) data off acc = acc ++ ts.
Proof.
  intros Hwf. revert off acc. induction Hwf as [|t ts [Hp Hr] Hwf IH]; intros off acc Hs.
  { simpl. by rewrite app_nil_r. }
  cbn [flat_map length type_loop] in *. unfold enc_type in Hs at 1. cbn [app] in Hs.
  rewrite <- !app_assoc in Hs. pose proof (suffix_at_lt _ _ _ _ Hs).
  rewrite (proj2 (Z.leb_gt _ _)) by lia. apply suffix_at_cons in Hs as (_ & _ & Hs).
  pose proof (blen_nonneg (ft_params t)) as Hp0. pose proof (blen_nonneg (ft_results t)) as Hr0.
  destruct (read_len_canonical _ _ _ _ (conj Hp0 Hp) Hs) as [-> Hs1].
  assert (El : forall l : list Z, Z.to_nat (blen l) = length l) by (intros; unfold blen; lia).
  rewrite El, (take_types_enc _ _ _ _ [] Hs1). apply suffix_at_app in Hs1.
  destruct (read_len_canonical _ _ _ _ (conj Hr0 Hr) Hs1) as [-> Hs2].
  rewrite El, (take_types_enc _ _ _ _ [] Hs2). apply suffix_at_app in Hs2.
  rewrite (IH _ _ Hs2), <- app_assoc. cbn [app]. by destruct t.
Qed.
Lemma parseTypeSection_enc ts post :
  Forall wf_type ts -> Z.of_nat (length ts) < 2147483648 ->
  parseTypeSection (enc_types ts ++ post) = ts.
Proof.
  intros Hwf Hlen. unfold parseTypeSection, enc_types. rewrite <- app_assoc.
  destruct (read_len_canonical _ 0 _ (Z.of_nat (length ts)) ltac:(lia)
    (suffix_at_0 (enc (Z.of_nat (length ts)) ++ flat_map enc_type ts ++ post))) as [-> Hs].
  rewrite Nat2Z.id. by apply type_loop_enc with (post := post).
Qed.

Section VectorFacts.
  Context (decode : list Z -> string).

Lemma export_loop_enc data off es post acc :
  Forall wf_export es -> suffix_at data off (flat_map enc_export es ++ post) ->
  export_loop decode (length es) data off acc = acc ++ (entry_of decode <$> es).
Proof.
  intros Hwf. revert off acc. induction Hwf as [|e es He Hwf IH]; intros off acc Hs.
  { simpl. by rewrite app_nil_r. }
  destruct He as (Hname & Hkind & Hidx). cbn [flat_map length export_loop] in *.
  unfold enc_export in Hs at 1. rewrite <- !app_assoc in Hs.
  pose proof (blen_nonneg (xs_name e)).
  destruct (read_len_canonical _ _ _ _ (conj H Hname) Hs) as [-> Hs1].
  destruct (suffix_at_slice_all _ _ _ _ Hs1) as (-> & Hs2 & Hle).
  rewrite (proj2 (Z.ltb_ge _ _)) by lia.
  cbn [app] in Hs2. pose proof (suffix_at_lt _ _ _ _ Hs2).
  rewrite (proj2 (Z.leb_gt _ _)) by lia.
  apply suffix_at_cons in Hs2 as (-> & _ & Hs3).
  destruct (read_len_canonical _ _ _ _ Hidx Hs3) as [-> Hs4].
  rewrite (IH _ _ Hs4). rewrite <- app_assoc. done.
Qed.
Lemma parseExportSection_enc es post :
  Forall wf_export es -> Z.of_nat (length es) < 2147483648 ->
  parseExportSection decode (enc_exports es ++ post) = entry_of decode <$> es.
Proof.
  intros Hwf Hlen. unfold parseExportSection, enc_exports.
  assert (Hb : blen (xs_kind <$> es) = Z.of_nat (length es)).
  { unfold blen. by rewrite length_fmap. }
  rewrite Hb, <- app_assoc.
  destruct (read_len_canonical _ 0 _ (Z.of_nat (length es)) ltac:(lia)
    (suffix_at_0 (enc (Z.of_nat (length es)) ++ flat_map enc_export es ++ post))) as [-> Hs].
  rewrite Nat2Z.id. by apply export_loop_enc with (post := post).
Qed.

Lemma func_names_enc data off l post m :
  Forall wf_name l -> suffix_at data off (flat_map enc_name l ++ post) ->
  func_names_loop decode (length l) data off m = foldl (add_name decode) m l.
Proof.
  intros Hwf. revert off m. induction Hwf as [|p l [Hi Hn] Hwf IH]; intros off m Hs; [done|].
  cbn [flat_map length func_names_loop foldl] in *. unfold enc_name in Hs at 1.
  rewrite <- !app_assoc in Hs.
  destruct (read_len_canonical _ _ _ _ Hi Hs) as [-> Hs1].
  pose proof (blen_nonneg p.2) as Hn0.
  destruct (read_len_canonical _ _ _ _ (conj Hn0 Hn) Hs1) as [-> Hs2].
  destruct (suffix_at_slice_all _ _ _ _ Hs2) as (-> & Hs3 & Hle).
  rewrite (proj2 (Z.leb_le _ _)) by lia. by rewrite (IH _ _ Hs3).
Qed.
Lemma parseNameSection_enc fuel l :
  Forall wf_name l -> Z.of_nat (length l) < 2147483648 -> blen (enc_names l) < 2147483648 ->
  parseNameSection decode (S fuel) (enc_name_section l)
  = Ok (mkNameMap None (foldl (add_name decode) ∅ l)).
Proof.
  intros Hwf Hlen Hsize. unfold parseNameSection. cbn [name_loop].
  assert (Hs : suffix_at (enc_name_section l) 0 (1 :: enc (blen (enc_names l)) ++ enc_names l ++ []))
    by (rewrite app_nil_r; apply suffix_at_0).
  pose proof (suffix_at_lt _ _ _ _ Hs). rewrite (proj2 (Z.leb_gt _ _)) by lia.
  apply suffix_at_cons in Hs as (-> & _ & Hs).
  pose proof (blen_nonneg (enc_names l)) as H0.
  destruct (read_len_canonical _ _ _ _ (conj H0 Hsize) Hs) as [-> Hs1].
  destruct (suffix_at_slice_all _ _ _ _ Hs1) as (-> & Hs2 & _).
  apply suffix_at_bounds in Hs2 as [_ Hend]. autorewrite with blen in Hend.
  unfold name_subsection. cbn [decide]. rewrite decide_True by done.
  destruct (read_len_canonical (enc_names l) 0 (flat_map enc_name l) (Z.of_nat (length l))
    ltac:(lia) (suffix_at_0 _)) as [-> Hs3].
  rewrite <- (app_nil_r (flat_map enc_name l)) in Hs3.
  rewrite Nat2Z.id, (func_names_enc _ _ _ _ _ Hwf Hs3).
  destruct fuel; cbn [name_loop]; by rewrite (proj2 (Z.leb_le _ _)) by lia.
Qed.
End VectorFacts.

(** ** Modules *)

Definition module_bytes (rs : list RawSection) : list Z :=
  [0; 97; 115; 109; 1; 0; 0; 0] ++ flat_map encode_raw rs.

Lemma parseModuleHeader_ok rs :
  parseModuleHeader (module_bytes rs) 0 = Ok (mkModule 1836278016 1 [], 8).
Proof.
  unfold parseModuleHeader.
  assert (H : 8 <= blen (module_bytes rs)).
  { unfold module_bytes. autorewrite with blen. pose proof (blen_nonneg (flat_map encode_raw rs)). lia. }
  rewrite (proj2 (Z.ltb_ge _ _)) by lia. reflexivity.
Qed.
Lemma walkSections_module decode rs :
  Forall wf_raw rs ->
  walkSections decode (module_bytes rs) 8 = Ok (layout decode 8 rs).
Proof.
  intros Hwf. apply (walk_loop_enc decode _ _ _ rs []); [done| |].
  - by exists [0; 97; 115; 109; 1; 0; 0; 0].
  - unfold module_bytes. rewrite length_app. simpl.
    clear Hwf. induction rs as [|r rs IH]; [simpl; lia|].
    cbn [flat_map length]. rewrite length_app. unfold encode_raw at 1. simpl. lia.
Qed.
Lemma parseContractWasm_module decode fuel rs :
  Forall wf_raw rs -> blen (module_bytes rs) <= MAX_MODULE_SIZE ->
  parseContractWasm decode fuel (module_bytes rs)
  = ('(exports, types, names) ←
       collect_sections decode fuel (layout decode 8 rs) [] [] (mkNameMap None ∅);
     Ok (mkContract (mkModule 1836278016 1 (layout decode 8 rs)) exports types names
           (exported_functions exports types (nm_functionNames names)))).
Proof.
  intros Hwf Hsize. unfold parseContractWasm. rewrite (proj2 (Z.ltb_ge _ _)) by lia.
  rewrite parseModuleHeader_ok. cbn [mbind result_bind].
  rewrite walkSections_module by done. done.
Qed.

(** ** The properties *)

(** [walkSections] accepts exactly the byte strings that are a sequence of
    sections - id, size in at most four LEB128 bytes, payload of that size - and
    then returns each section with its payload, size and position; on any byte
    buffer it ends. *)
Theorem walkSections_spec decode (pre suf : list Z) (ss : list WasmSection) :
  Forall is_byte suf ->
  (walkSections decode (pre ++ suf) (blen pre) = Ok ss <->
   exists rs, Forall wf_raw rs /\ suf = flat_map encode_raw rs /\
              ss = layout decode (blen pre) rs) /\
  walkSections decode (pre ++ suf) (blen pre) <> Err OutOfFuel.
Proof.
  intros Hb. assert (Hs : suffix_at (pre ++ suf) (blen pre) suf) by (by exists pre).
  unfold walkSections. split; [split|].
  - intros H. by apply walk_loop_inv with (suf := suf) in H.
  - intros (rs & Hwf & E & ->). rewrite <- (app_nil_l (layout _ _ _)).
    apply walk_loop_enc; [done|by rewrite <- E|].
    rewrite E, length_app. enough (length rs <= length (flat_map encode_raw rs))%nat by lia.
    clear. induction rs as [|r rs IH]; [simpl; lia|].
    cbn [flat_map length]. rewrite length_app. unfold encode_raw at 1. simpl. lia.
  - apply walk_loop_fuel with suf; try done. rewrite length_app. lia.
Qed.
Lemma walkSections_spec_witness :
  walkSections (fun _ => "") ([7; 7] ++ [1; 129; 128; 0; 96]) 2
  = Ok [mkSection 1 "" 6 1 [96]].
Proof.
  apply (walkSections_spec (fun _ => "") [7; 7] [1; 129; 128; 0; 96]).
  - repeat constructor; unfold is_byte; lia.
  - exists [mkRaw 1 [129; 128; 0] [96]]. split; [|done].
    repeat constructor; try (unfold is_byte; simpl; lia).
    + simpl. apply (uleb_more 1 _ 0); [lia|]. apply (uleb_more 0 _ 0); [lia|].
      apply uleb_last. lia.
    + unfold blen. simpl. lia.
Defined.


(** The names of a standard name section are lost: [parseContractWasm]
    hands [parseNameSection] the whole payload, which starts with the length
    byte 4 and the bytes of "name", and they are read as a subsection of type 4
    and size 110.  A payload of at most 112 bytes therefore yields no name at
    all, whatever function names [l] its subsections hold, although
    [parseNameSection] reads those same subsections correctly. *)
Theorem name_section_lost decode (fuel : nat) (l : list (Z * list Z)) :
  Forall wf_name l -> Z.of_nat (length l) < 2147483648 ->
  blen (enc_name_section l) <= 107 ->
  parseNameSection decode (S fuel) ([4; 110; 97; 109; 101] ++ enc_name_section l)
    = Ok (mkNameMap None ∅) /\
  parseNameSection decode (S fuel) (enc_name_section l)
    = Ok (mkNameMap None (foldl (add_name decode) ∅ l)).
Proof.
  intros Hwf Hlen Hsize. split.
  - unfold parseNameSection. set (data := _ ++ _).
    assert (Hb : blen data = 5 + blen (enc_name_section l)) by (unfold data; by autorewrite with blen).
    pose proof (blen_nonneg (enc_name_section l)).
    assert (Hs : suffix_at data 1 ([110] ++ 97 :: 109 :: 101 :: enc_name_section l))
      by (by exists [4]).
    cbn [name_loop]. rewrite (proj2 (Z.leb_gt _ _)) by lia.
    change (byte_at data 0) with (Some 4). change (0 + 1) with 1.
    rewrite (read_len_enc data 1 [110] _ 110 (uleb_last 110 ltac:(lia)) ltac:(done) Hs).
    change (to_int32 110) with 110. change (1 + blen [110] + 110) with 112.
    unfold name_subsection. rewrite !decide_False by done.
    destruct fuel; cbn [name_loop]; by rewrite (proj2 (Z.leb_le _ _)) by lia.
  - apply parseNameSection_enc; try done.
    unfold enc_name_section in Hsize. autorewrite with blen in Hsize.
    pose proof (blen_nonneg (enc (blen (enc_names l)))). lia.
Qed.
Lemma name_section_lost_witness :
  parseNameSection (fun _ => "transfer") 1 ([4; 110; 97; 109; 101] ++ enc_name_section [(3, [116])])
    = Ok (mkNameMap None ∅) /\
  parseNameSection (fun _ => "transfer") 1 (enc_name_section [(3, [116])])
    = Ok (mkNameMap None (<[3 := "transfer"]> ∅)).
Proof.
  apply (name_section_lost (fun _ => "transfer") 0 [(3, [116])]).
  - repeat constructor; simpl; lia.
  - simpl. lia.
  - unfold blen. simpl. lia.
Defined.

(** A subsection whose size, read as a signed number, is minus its own length. *)
Definition looping_subsection : list Z := [2; 250; 255; 255; 255; 15].
Definition hanging_module : list Z :=
  module_bytes [mkRaw 0 [118] ([4; 110; 97; 109; 101] ++ repeat 0 107 ++ looping_subsection)].

Lemma uleb_four_ff last : 0 <= last < 16 -> forall b, 0 <= b < 128 ->
  uleb [b + 128; 255; 255; 255; last] (b + 268435328 + last * 268435456).
Proof.
  intros Hl b Hb. pose proof (uleb_more b _ _ Hb (uleb_more 127 _ _ ltac:(lia)
    (uleb_more 127 _ _ ltac:(lia) (uleb_more 127 _ _ ltac:(lia) (uleb_last last ltac:(lia)))))) as H.
  replace (b + 268435328 + last * 268435456)
    with (b + 128 * (127 + 128 * (127 + 128 * (127 + 128 * last)))) by lia. exact H.
Qed.
Lemma name_loop_hangs decode data off fuel r :
  suffix_at data off looping_subsection -> name_loop decode fuel data off r = Err OutOfFuel.
Proof.
  intros Hs. pose proof (suffix_at_lt _ _ _ _ Hs).
  induction fuel as [|fuel IH]; cbn [name_loop]; rewrite (proj2 (Z.leb_gt _ _)) by lia; [done|].
  apply suffix_at_cons in Hs as (-> & _ & Hs).
  rewrite (read_len_enc data (off + 1) [250; 255; 255; 255; 15] []
    (122 + 268435328 + 15 * 268435456)
    (uleb_four_ff 15 ltac:(lia) 122 ltac:(lia)) ltac:(done) Hs).
  change (to_int32 _) with (-6). unfold name_subsection. rewrite !decide_False by done.
  replace (off + 1 + blen [250; 255; 255; 255; 15] + -6) with off by (unfold blen; simpl; lia).
  exact IH.
Qed.

(** A 128-byte module hangs the parser: [parseContractWasm] never returns
    on it, because a subsection size of 0xFFFFFFFA is read as -6 and the [while]
    loop of [parseNameSection] goes back to the subsection it just read. *)
Theorem hanging_module_diverges decode (fuel : nat) :
  decode [110; 97; 109; 101] = "name"%string ->
  blen hanging_module = 128 /\
  parseContractWasm decode fuel hanging_module = Err OutOfFuel.
Proof.
  intros Hname. split; [reflexivity|]. unfold hanging_module.
  rewrite parseContractWasm_module.
  - cbn [layout collect_sections section_of sec_id sec_name sec_data raw_id raw_size raw_payload].
    change (custom_name decode _) with (decode [110; 97; 109; 101]).
    cbn [Z.eqb]. rewrite Hname, bool_decide_true by done. cbn [andb].
    enough (parseNameSection decode fuel
      ([4; 110; 97; 109; 101] ++ repeat 0 107 ++ looping_subsection) = Err OutOfFuel) as -> by done.
    unfold parseNameSection. destruct fuel as [|fuel]; [done|].
    change (name_loop decode (S fuel) ?d 0 ?r) with (name_loop decode fuel d 112 r).
    apply name_loop_hangs. by exists ([4; 110; 97; 109; 101] ++ repeat 0 107).
  - constructor; [|constructor]. unfold wf_raw. cbn [raw_id raw_size raw_payload].
    split; [unfold is_byte; lia|]. split; [apply (uleb_last 118); lia|].
    split; [unfold blen; simpl; lia|]. apply bytes_ok. reflexivity.
  - vm_compute. discriminate.
Qed.
Lemma hanging_module_diverges_witness :
  parseContractWasm (fun _ => "name") 1000 hanging_module = Err OutOfFuel.
Proof. apply (hanging_module_diverges (fun _ => "name") 1000). reflexivity. Defined.

(** An export section that names its own count as the next entry. *)
Definition export_bomb (n : Z) : list Z :=
  [n mod 128 + 128; n / 128 mod 128 + 128; n / 16384 mod 128 + 128;
   n / 2097152 mod 128 + 128; n / 268435456] ++ [245; 255; 255; 255; 15].

(** Ten bytes of export section make [parseExportSection] push any number
    [n] of entries up to 2^31 - 1: a name length read as -11 takes the offset
    back before the section, so the loop re-reads the count as an index and
    never reaches the end of the data. *)
Theorem export_section_amplification decode (n : Z) :
  0 <= n < 2147483648 ->
  blen (export_bomb n) = 10 /\
  parseExportSection decode (export_bomb n)
  = repeat (mkExport (decode []) None n) (Z.to_nat n).
Proof.
  intros Hn. split; [reflexivity|]. set (data := export_bomb n).
  assert (Hcount : read_len data 0 = (n, 5)).
  { assert (Hu : uleb [n mod 128 + 128; n / 128 mod 128 + 128; n / 16384 mod 128 + 128;
                       n / 2097152 mod 128 + 128; n / 268435456] n).
    { pose proof (uleb_more (n mod 128) _ _ ltac:(lia) (uleb_more (n / 128 mod 128) _ _ ltac:(lia)
        (uleb_more (n / 16384 mod 128) _ _ ltac:(lia) (uleb_more (n / 2097152 mod 128) _ _ ltac:(lia)
        (uleb_last (n / 268435456) ltac:(lia)))))) as H.
      match type of H with uleb _ ?m => replace m with n in H by lia end. exact H. }
    rewrite (read_len_enc data 0 _ [245; 255; 255; 255; 15] n Hu ltac:(done) (suffix_at_0 _)).
    by rewrite to_int32_id by (unfold int32; lia). }
  assert (Hlen : read_len data 5 = (-11, 10)).
  { rewrite (read_len_enc data 5 [245; 255; 255; 255; 15] [] _
      (uleb_four_ff 15 ltac:(lia) 117 ltac:(lia)) ltac:(done)); [reflexivity|].
    by eexists. }
  unfold parseExportSection. rewrite Hcount.
  assert (H : forall k acc, export_loop decode k data 5 acc
                            = acc ++ repeat (mkExport (decode []) None n) k).
  { induction k as [|k IH]; intros acc; cbn [export_loop]; [by rewrite app_nil_r|].
    rewrite Hlen. change (blen data) with 10. cbn [Z.ltb Z.leb Z.add Z.compare Z.pos_sub].
    change (js_slice data 10 (10 + -11)) with (@nil Z). change (10 + -11 + 1) with 0.
    rewrite Hcount. change (byte_at data (10 + -11)) with (@None Z).
    rewrite IH, <- app_assoc. done. }
  apply H.
Qed.
Lemma export_section_amplification_witness :
  length (parseExportSection (fun _ => "") (export_bomb 300)) = 300%nat.
Proof.
  rewrite (proj2 (export_section_amplification (fun _ => "") 300 ltac:(lia))). reflexivity.
Defined.
