(* ===== verification/CronParser.v ===== *)
(** [lib/cron/parser.ts]: the five-field cron expression parser.  A thrown
    [CronParseError] is an [Err] that carries the data of its message, and
    [cron_error_message] renders the text.  (Numbers in the text are printed in
    full; JavaScript rounds those from 2^53 on.) *)

From S2P Require Import Prelude JsString.
From stdpp Require Import base list sets fin_sets strings numbers sorting.
From Stdlib Require Import ZArith Lia Ascii.
#[local] Open Scope Z_scope.

Record CronFieldSpec : Type := mkField { fs_name : string; fs_min : Z; fs_max : Z }.

Definition field_minute : CronFieldSpec := mkField "minute" 0 59.
Definition field_hour : CronFieldSpec := mkField "hour" 0 23.
Definition field_dayOfMonth : CronFieldSpec := mkField "day-of-month" 1 31.
Definition field_month : CronFieldSpec := mkField "month" 1 12.
Definition field_dayOfWeek7 : CronFieldSpec := mkField "day-of-week" 0 7.

Record CronExpression : Type := mkCron
  { source : string; minute : list Z; hour : list Z; dayOfMonth : list Z;
    month : list Z; dayOfWeek : list Z;
    dayOfMonthRestricted : bool; dayOfWeekRestricted : bool }.

Inductive CronError : Type :=
  | NotInteger (field token term : string)
  | OutOfRange (field : string) (n : Z) (term : string) (lo hi : Z)
  | TooManySteps (field term : string)
  | BadStep (field step term : string)
  | ZeroStep (field term : string)
  | MissingValue (field term : string)
  | MalformedRange (field range : string)
  | InvertedRange (field range : string) (lo hi : Z)
  | EmptyField (field : string)
  | EmptyItem (field raw : string)
  | EmptyExpression
  | WrongFieldCount (n : Z).

(** A [Set] filled by [add], as the list of its elements in insertion order. *)
Definition set_add (v : Z) (s : list Z) : list Z := if decide (v ∈ s) then s else s ++ [v].
Definition set_of (l : list Z) : list Z := foldl (fun s v => set_add v s) [] l.
Definition sort_numbers (l : list Z) : list Z := sort_on (fun v => v) l.

Definition parseNumber (token : string) (spec : CronFieldSpec) (term : string)
  : result CronError Z :=
  match parse_digits token with
  | None => Err (NotInteger (fs_name spec) token term)
  | Some n =>
      if (n <? fs_min spec) || (fs_max spec <? n)
      then Err (OutOfRange (fs_name spec) n term (fs_min spec) (fs_max spec))
      else Ok n
  end.

(** [for (v = lo; v <= hi; v += step) out.add(v)]. *)
Fixpoint add_range (fuel : nat) (lo hi step : Z) (out : list Z) : list Z :=
  match fuel with
  | O => out
  | S fuel' => if lo <=? hi then add_range fuel' (lo + step) hi step (set_add lo out) else out
  end.

Definition parse_step (term : string) (spec : CronFieldSpec) (slashParts : list string)
  : result CronError Z :=
  match slashParts with
  | [_; stepPart] =>
      match parse_digits stepPart with
      | None => Err (BadStep (fs_name spec) stepPart term)
      | Some 0 => Err (ZeroStep (fs_name spec) term)
      | Some step => Ok step
      end
  | _ => Ok 1
  end.
(** The bounds [lo] and [hi] of the part before the slash. *)
Definition parse_bounds (term rangePart : string) (spec : CronFieldSpec) (hasStep : bool)
  : result CronError (Z * Z) :=
  if decide (rangePart = "*") then Ok (fs_min spec, fs_max spec)
  else if includes rangePart "-" then
    match split_on "-" rangePart with
    | [b0; b1] =>
        if decide (b0 = "" \/ b1 = "") then Err (MalformedRange (fs_name spec) rangePart)
        else
          lo ← parseNumber b0 spec term;
          hi ← parseNumber b1 spec term;
          if hi <? lo then Err (InvertedRange (fs_name spec) rangePart lo hi) else Ok (lo, hi)
    | _ => Err (MalformedRange (fs_name spec) rangePart)
    end
  else
    value ← parseNumber rangePart spec term;
    Ok (value, if hasStep then fs_max spec else value).

Definition parseTerm (term : string) (spec : CronFieldSpec) (out : list Z)
  : result CronError (list Z) :=
  let slashParts := split_on "/" term in
  if (2 <? Z.of_nat (length slashParts)) then Err (TooManySteps (fs_name spec) term)
  else
    let rangePart := default "" (head slashParts) in
    step ← parse_step term spec slashParts;
    if decide (rangePart = "") then Err (MissingValue (fs_name spec) term)
    else
      '(lo, hi) ← parse_bounds term rangePart spec (Nat.eqb (length slashParts) 2);
      Ok (add_range (Z.to_nat (hi - lo + 1)) lo hi step out).

Fixpoint parse_terms (raw : string) (terms : list string) (spec : CronFieldSpec) (out : list Z)
  : result CronError (list Z) :=
  match terms with
  | [] => Ok out
  | rawTerm :: rest =>
      let term := trim rawTerm in
      if decide (term = "") then Err (EmptyItem (fs_name spec) raw)
      else out' ← parseTerm term spec out; parse_terms raw rest spec out'
  end.
Definition parseField (raw : string) (spec : CronFieldSpec) : result CronError (list Z * bool) :=
  let trimmed := trim raw in
  if decide (trimmed = "") then Err (EmptyField (fs_name spec))
  else
    set ← parse_terms raw (split_on "," trimmed) spec [];
    Ok (sort_numbers set, negb (bool_decide (trimmed = "*"))).

(** 7 is folded back to Sunday. *)
Definition fold_sunday (values : list Z) : list Z :=
  sort_numbers (set_of ((fun v => if v =? 7 then 0 else v) <$> values)).

Definition parseCron (src : string) : result CronError CronExpression :=
  let trimmed := trim src in
  if decide (trimmed = "") then Err EmptyExpression
  else
    match split_ws trimmed with
    | [f0; f1; f2; f3; f4] =>
        minute ← parseField f0 field_minute;
        hour ← parseField f1 field_hour;
        dayOfMonth ← parseField f2 field_dayOfMonth;
        month ← parseField f3 field_month;
        dayOfWeekRaw ← parseField f4 field_dayOfWeek7;
        Ok (mkCron trimmed minute.1 hour.1 dayOfMonth.1 month.1 (fold_sunday dayOfWeekRaw.1)
              dayOfMonth.2 dayOfWeekRaw.2)
    | fields => Err (WrongFieldCount (Z.of_nat (length fields)))
    end.

(** ** Messages *)

Definition field_order : string := "minute hour day-of-month month day-of-week".
Definition cat (l : list string) : string := foldr String.append "" l.
(** A double quote. *)
Definition dq : string := String (ascii_of_nat 34) "".
Definition cron_error_message (e : CronError) : string :=
  match e with
  | NotInteger f token term =>
      cat ["The "; f; " value "; dq; token; dq; " in "; dq; term; dq;
           " is not a non-negative integer."]
  | OutOfRange f n term lo hi =>
      cat ["The "; f; " value "; num_to_string n; " in "; dq; term; dq; " is out of range (";
           num_to_string lo; "-"; num_to_string hi; ")."]
  | TooManySteps f term =>
      cat ["The "; f; " term "; dq; term; dq; " has more than one step ('/')."]
  | BadStep f step term =>
      cat ["The "; f; " step "; dq; step; dq; " in "; dq; term; dq; " is not a positive integer."]
  | ZeroStep f term => cat ["The "; f; " step in "; dq; term; dq; " must be 1 or greater."]
  | MissingValue f term =>
      cat ["The "; f; " term "; dq; term; dq; " is missing a value before '/'."]
  | MalformedRange f range => cat ["The "; f; " range "; dq; range; dq; " is malformed."]
  | InvertedRange f range lo hi =>
      cat ["The "; f; " range "; dq; range; dq; " is inverted ("; num_to_string lo; " > ";
           num_to_string hi; ")."]
  | EmptyField f => cat ["The "; f; " field is empty."]
  | EmptyItem f raw => cat ["The "; f; " field "; dq; raw; dq; " has an empty list item."]
  | EmptyExpression => "A cron expression must not be empty."
  | WrongFieldCount n =>
      cat ["A cron expression must have exactly 5 fields ("; field_order; "); got ";
           num_to_string n; "."]
  end.
Definition cronErrorMessage (src : string) : option string :=
  match parseCron src with Ok _ => None | Err e => Some (cron_error_message e) end.

Example parse_every_5 :
  parseCron " */20 9-17/4 1,15 * 7 "
  = Ok (mkCron "*/20 9-17/4 1,15 * 7" [0; 20; 40] [9; 13; 17] [1; 15]
          [1; 2; 3; 4; 5; 6; 7; 8; 9; 10; 11; 12] [0] true true).
Proof. vm_compute. reflexivity. Qed.
Example error_text :
  cronErrorMessage "61 * * * *"
  = Some (cat ["The minute value 61 in "; dq; "61"; dq; " is out of range (0-59)."]).
Proof. vm_compute. reflexivity. Qed.

(** ** What an expression denotes

    The terms of the grammar, and the values a term stands for. *)

Inductive CronTerm : Type :=
  | TStar | TStarStep (n : Z) | TVal (a : Z) | TValStep (a n : Z)
  | TRange (a b : Z) | TRangeStep (a b n : Z).
Definition print_term (t : CronTerm) : string :=
  match t with
  | TStar => "*"
  | TStarStep n => cat ["*"; "/"; num_to_string n]
  | TVal a => num_to_string a
  | TValStep a n => cat [num_to_string a; "/"; num_to_string n]
  | TRange a b => cat [num_to_string a; "-"; num_to_string b]
  | TRangeStep a b n => cat [num_to_string a; "-"; num_to_string b; "/"; num_to_string n]
  end.
(** First value, last value allowed, step. *)
Definition term_range (spec : CronFieldSpec) (t : CronTerm) : Z * Z * Z :=
  match t with
  | TStar => (fs_min spec, fs_max spec, 1)
  | TStarStep n => (fs_min spec, fs_max spec, n)
  | TVal a => (a, a, 1)
  | TValStep a n => (a, fs_max spec, n)
  | TRange a b => (a, b, 1)
  | TRangeStep a b n => (a, b, n)
  end.
Definition denotes (spec : CronFieldSpec) (t : CronTerm) (v : Z) : Prop :=
  let '(lo, hi, step) := term_range spec t in
  exists k, 0 <= k /\ v = lo + k * step /\ v <= hi.
Definition wf_term (spec : CronFieldSpec) (t : CronTerm) : Prop :=
  let '(lo, hi, step) := term_range spec t in
  fs_min spec <= lo <= hi /\ hi <= fs_max spec /\ 1 <= step.
Definition wf_spec (spec : CronFieldSpec) : Prop := 0 <= fs_min spec <= fs_max spec.

Definition print_field (ts : list CronTerm) : string := join_with "," (print_term <$> ts).
Definition is_star (ts : list CronTerm) : bool :=
  match ts with [TStar] => true | _ => false end.

(** Sorted without duplicates, not empty, within bounds: what every parsed
    field is. *)
Definition wf_values (lo hi : Z) (l : list Z) : Prop :=
  StronglySorted Z.lt l /\ l <> [] /\ Forall (fun v => lo <= v <= hi) l.
Record wf_cron (e : CronExpression) : Prop := {
  wf_minute : wf_values 0 59 (minute e);
  wf_hour : wf_values 0 23 (hour e);
  wf_dayOfMonth : wf_values 1 31 (dayOfMonth e);
  wf_month : wf_values 1 12 (month e);
  wf_dayOfWeek : wf_values 0 6 (dayOfWeek e) }.

(** ** Lemmas *)

Lemma elem_of_set_add x v s : x ∈ set_add v s <-> x ∈ s \/ x = v.
Proof. unfold set_add. case_decide; set_solver. Qed.
Lemma set_add_nodup v s : NoDup s -> NoDup (set_add v s).
Proof.
  unfold set_add. case_decide; [done|]. intros Hs. apply NoDup_app.
  split; [done|]. split; [set_solver|apply NoDup_singleton].
Qed.
Lemma elem_of_foldl_add x l s : x ∈ foldl (fun s v => set_add v s) s l <-> x ∈ s \/ x ∈ l.
Proof.
  revert s. induction l as [|v l IH]; intros s; simpl; [set_solver|].
  rewrite IH, elem_of_set_add. set_solver.
Qed.
Lemma elem_of_set_of x l : x ∈ set_of l <-> x ∈ l.
Proof. unfold set_of. rewrite elem_of_foldl_add. set_solver. Qed.
Lemma set_of_nodup l : NoDup (set_of l).
Proof.
  unfold set_of. assert (H : NoDup (@nil Z)) by constructor. revert H.
  generalize (@nil Z). induction l as [|v l IH]; intros s Hs; simpl; [done|].
  by apply IH, set_add_nodup.
Qed.

Lemma add_range_nodup fuel lo hi step out : NoDup out -> NoDup (add_range fuel lo hi step out).
Proof.
  revert lo out. induction fuel as [|fuel IH]; intros lo out Hout; cbn [add_range]; [done|].
  destruct (lo <=? hi); [by apply IH, set_add_nodup|done].
Qed.
Lemma elem_of_add_range fuel lo hi step out x :
  1 <= step -> hi - lo < Z.of_nat fuel ->
  x ∈ add_range fuel lo hi step out <->
  x ∈ out \/ exists k, 0 <= k /\ x = lo + k * step /\ x <= hi.
Proof.
  intros Hstep. revert lo out. induction fuel as [|fuel IH]; intros lo out Hf; cbn [add_range].
  - split; [auto|]. intros [H|(k & Hk & -> & H)]; [done|]. nia.
  - destruct (Z.leb_spec lo hi).
    + rewrite IH by lia. rewrite elem_of_set_add. split.
      * intros [[H'| ->]|(k & Hk & -> & H')]; [by left| |].
        -- right. exists 0. lia.
        -- right. exists (k + 1). lia.
      * intros [H'|(k & Hk & -> & H')]; [auto|].
        destruct (Z.eq_dec k 0) as [->|]; [left; right; lia|].
        right. exists (k - 1). lia.
    + split; [auto|]. intros [H'|(k & Hk & -> & H')]; [done|]. nia.
Qed.

Lemma sort_numbers_spec l :
  NoDup l -> StronglySorted Z.lt (sort_numbers l) /\ forall x, x ∈ sort_numbers l <-> x ∈ l.
Proof.
  intros Hl. assert (Hp : sort_numbers l ≡ₚ l) by apply sort_on_perm.
  split; [|intros x; by rewrite Hp].
  assert (Hn : NoDup (sort_numbers l)) by (by rewrite Hp).
  pose proof (sort_on_sorted (fun v : Z => v) l) as Hs. fold (sort_numbers l) in Hs.
  clear Hp. induction Hs as [|v s Hs IH Hv]; [constructor|].
  apply NoDup_cons in Hn as [Hnin Hn]. constructor; [by apply IH|].
  rewrite Forall_forall in *. intros y Hy. specialize (Hv y Hy).
  destruct (Z.eq_dec v y) as [->|]; [done|lia].
Qed.
Lemma wf_values_intro lo hi l :
  NoDup l -> l <> [] -> (forall v, v ∈ l -> lo <= v <= hi) -> wf_values lo hi (sort_numbers l).
Proof.
  intros Hn Hne Hr. destruct (sort_numbers_spec l Hn) as [Hs He]. split; [done|]. split.
  - destruct l as [|v l]; [done|]. intros E.
    assert (v ∈ sort_numbers (v :: l)) by (apply He; set_solver). rewrite E in *. set_solver.
  - apply Forall_forall. intros v Hv. by apply Hr, He.
Qed.

Lemma parseNumber_range token spec term n :
  parseNumber token spec term = Ok n -> fs_min spec <= n <= fs_max spec.
Proof.
  unfold parseNumber. destruct (parse_digits token) as [m|]; [|done].
  destruct ((m <? fs_min spec) || (fs_max spec <? m)) eqn:E; [done|]. intros [= <-]. bools. lia.
Qed.
Lemma parse_bounds_range term rangePart spec b lo hi :
  wf_spec spec -> parse_bounds term rangePart spec b = Ok (lo, hi) ->
  fs_min spec <= lo <= hi /\ hi <= fs_max spec.
Proof.
  unfold wf_spec, parse_bounds. intros Hspec.
  case_decide; [intros [= <- <-]; lia|]. destruct (includes rangePart "-").
  - destruct (split_on "-" rangePart) as [|b0 [|b1 [|]]]; try done.
    case_decide; [done|]. intros H1. apply bind_Ok in H1 as (l & Hl & H1).
    apply bind_Ok in H1 as (h & Hh & H1). destruct (Z.ltb_spec h l); [done|].
    injection H1 as <- <-. apply parseNumber_range in Hl, Hh. lia.
  - intros H1. apply bind_Ok in H1 as (v & Hv & [= <- <-]). apply parseNumber_range in Hv.
    destruct b; lia.
Qed.
Lemma parse_step_pos term spec parts step : parse_step term spec parts = Ok step -> 1 <= step.
Proof.
  unfold parse_step. destruct parts as [|p0 [|p1 [|]]]; try (intros [= <-]; lia).
  destruct (parse_digits p1) as [n|] eqn:E; [|done]. apply parse_digits_nonneg in E.
  destruct n; intros [= <-]; lia.
Qed.

(** A parsed term adds at least one value, all of them within the field. *)
Lemma parseTerm_wf term spec out out' :
  wf_spec spec -> NoDup out -> (forall v, v ∈ out -> fs_min spec <= v <= fs_max spec) ->
  parseTerm term spec out = Ok out' ->
  NoDup out' /\ out' <> [] /\ (forall v, v ∈ out' -> fs_min spec <= v <= fs_max spec).
Proof.
  intros Hspec Hn Hr. unfold parseTerm. destruct (_ <? _); [done|]. intros H.
  apply bind_Ok in H as (step & Hstep & H). apply parse_step_pos in Hstep.
  case_decide; [done|]. apply bind_Ok in H as ([lo hi] & Hb & [= <-]).
  apply parse_bounds_range in Hb; [|done]. split; [by apply add_range_nodup|].
  assert (He : forall v, v ∈ add_range (Z.to_nat (hi - lo + 1)) lo hi step out <->
    v ∈ out \/ exists k, 0 <= k /\ v = lo + k * step /\ v <= hi)
    by (intros v; apply elem_of_add_range; lia).
  split.
  - intros E. assert (lo ∈ add_range (Z.to_nat (hi - lo + 1)) lo hi step out) as Hlo
      by (apply He; right; exists 0; lia). rewrite E in Hlo. set_solver.
  - intros v [Hv|(k & Hk & -> & Hv)]%He; [by apply Hr|]. nia.
Qed.
Lemma parse_terms_wf raw terms spec out out' :
  wf_spec spec -> NoDup out -> (forall v, v ∈ out -> fs_min spec <= v <= fs_max spec) ->
  terms <> [] -> parse_terms raw terms spec out = Ok out' ->
  NoDup out' /\ out' <> [] /\ (forall v, v ∈ out' -> fs_min spec <= v <= fs_max spec).
Proof.
  intros Hspec. revert out. induction terms as [|t terms IH]; intros out Hn Hr Hne H; [done|].
  cbn [parse_terms] in H. case_decide; [done|].
  apply bind_Ok in H as (out1 & H1 & H2).
  destruct (parseTerm_wf _ _ _ _ Hspec Hn Hr H1) as (Hn1 & Hne1 & Hr1).
  destruct terms as [|t' terms]; [cbn in H2; injection H2 as <-; auto|].
  by apply (IH out1).
Qed.
Lemma split_on_ne c s : split_on c s <> [].
Proof. destruct s as [|a s]; simpl; [done|]. case_decide; [done|]. by destruct (split_on c s). Qed.
Lemma parseField_wf raw spec r :
  wf_spec spec -> parseField raw spec = Ok r -> wf_values (fs_min spec) (fs_max spec) r.1.
Proof.
  intros Hspec. unfold parseField. case_decide; [done|]. intros H1.
  apply bind_Ok in H1 as (s & Hs & [= <-]).
  apply parse_terms_wf in Hs as (Hn & Hne & Hr); try done.
  - by apply wf_values_intro.
  - constructor.
  - set_solver.
  - apply split_on_ne.
Qed.
Lemma fold_sunday_wf l : wf_values 0 7 l -> wf_values 0 6 (fold_sunday l).
Proof.
  intros (Hs & Hne & Hr). unfold fold_sunday. apply wf_values_intro.
  - apply set_of_nodup.
  - destruct l as [|v l]; [done|]. intros E.
    assert ((if v =? 7 then 0 else v) ∈ set_of ((fun v => if v =? 7 then 0 else v) <$> v :: l))
      as H by (apply elem_of_set_of; set_solver).
    rewrite E in H. set_solver.
  - intros v Hv. rewrite elem_of_set_of, list_elem_of_fmap in Hv. destruct Hv as (w & -> & Hw).
    rewrite Forall_forall in Hr. specialize (Hr w Hw). destruct (Z.eqb_spec w 7); lia.
Qed.

(** ** Parsing what the grammar prints *)

Definition base_part (t : CronTerm) : string :=
  match t with
  | TStar | TStarStep _ => "*"
  | TVal a | TValStep a _ => num_to_string a
  | TRange a b | TRangeStep a b _ => cat [num_to_string a; "-"; num_to_string b]
  end.
Definition step_of (t : CronTerm) : option Z :=
  match t with TStarStep n | TValStep _ n | TRangeStep _ _ n => Some n | _ => None end.
Definition free (c : ascii) (s : string) : Prop :=
  all_chars (fun a => negb (bool_decide (a = c))) s = true.
Definition term_char (c : ascii) : bool :=
  is_digit c || bool_decide (c = "*"%char) || bool_decide (c = "/"%char) ||
  bool_decide (c = "-"%char).

Lemma print_term_parts t :
  print_term t = match step_of t with
                 | None => base_part t
                 | Some n => (base_part t ++ String "/" (num_to_string n))%string
                 end.
Proof.
  destruct t; cbn [print_term step_of base_part cat foldr]; rewrite ?append_empty; try done.
  by rewrite !append_assoc_r.
Qed.
Lemma term_range_pos spec t :
  wf_spec spec -> wf_term spec t ->
  let '(lo, hi, step) := term_range spec t in 0 <= lo /\ lo <= hi /\ 1 <= step.
Proof. unfold wf_spec, wf_term. destruct (term_range spec t) as [[lo hi] step]. lia. Qed.
Lemma digits_term_char s : all_chars is_digit s = true -> all_chars term_char s = true.
Proof. apply all_chars_impl. intros c Hc. unfold term_char. by rewrite Hc. Qed.
Lemma term_chars_free (P : ascii -> bool) s :
  (forall c, term_char c = true -> P c = true) -> all_chars term_char s = true ->
  all_chars P s = true.
Proof. intros H. by apply all_chars_impl. Qed.
Lemma term_char_cases c :
  term_char c = true -> is_digit c = true \/ c = "*"%char \/ c = "/"%char \/ c = "-"%char.
Proof.
  unfold term_char. rewrite !orb_true_iff, !bool_decide_eq_true. tauto.
Qed.
Lemma num_term_chars n : 0 <= n -> all_chars term_char (num_to_string n) = true.
Proof. intros Hn. by apply digits_term_char, num_to_string_digits. Qed.
#[local] Hint Resolve num_term_chars : js.

Section Grammar.
Context (spec : CronFieldSpec) (Hspec : wf_spec spec).

(** What the printed form of a well-formed term looks like. *)
Lemma base_part_spec t :
  wf_term spec t ->
  free "/" (base_part t) /\ base_part t <> "" /\ all_chars term_char (base_part t) = true.
Proof.
  intros Ht. pose proof (term_range_pos spec t Hspec Ht) as Hp. unfold wf_term in Ht.
  unfold free. destruct t; cbn [term_range base_part] in *; try (repeat split; done);
    unfold cat; cbn [foldr]; rewrite ?append_empty, ?all_chars_app; cbn [all_chars].
  1,2: repeat split; [apply digits_free; [done|]|apply num_to_string_ne|]; auto with js lia.
  all: rewrite ?andb_true_iff.
  all: repeat split; try done; try (apply digits_free; [done|]); auto with js lia.
  all: try (apply num_to_string_digits; lia); try (apply num_term_chars; lia).
  all: assert (Hne : num_to_string a <> "") by (apply num_to_string_ne; lia).
  all: by destruct (num_to_string a).
Qed.

Lemma parseNumber_print term n :
  fs_min spec <= n <= fs_max spec -> parseNumber (num_to_string n) spec term = Ok n.
Proof.
  intros Hn. unfold parseNumber. rewrite parse_digits_num by (unfold wf_spec in Hspec; lia).
  destruct (Z.ltb_spec n (fs_min spec)); [lia|]. destruct (Z.ltb_spec (fs_max spec) n); [lia|].
  done.
Qed.
Lemma num_not_dash n : 0 <= n -> includes (num_to_string n) "-" = false.
Proof.
  intros Hn. rewrite includes_char, digits_free; [done|done|by apply num_to_string_digits].
Qed.
Lemma num_not_star n s : 0 <= n -> (num_to_string n ++ s)%string <> "*".
Proof.
  intros Hn E. pose proof (num_to_string_digits n Hn) as Hd.
  pose proof (num_to_string_ne n Hn). destruct (num_to_string n) as [|c r]; [done|].
  injection E as -> _. done.
Qed.
Lemma parse_bounds_print term t :
  wf_term spec t ->
  let '(lo, hi, _) := term_range spec t in
  parse_bounds term (base_part t) spec (bool_decide (is_Some (step_of t))) = Ok (lo, hi).
Proof.
  intros Ht. pose proof (term_range_pos spec t Hspec Ht) as Hp. unfold wf_term in Ht.
  assert (Hr : forall a b, fs_min spec <= a <= b -> b <= fs_max spec -> 0 <= a -> forall sb,
    parse_bounds term (cat [num_to_string a; "-"; num_to_string b]) spec sb = Ok (a, b)).
  { intros a b Ha Hb Ha0 sb. unfold cat. cbn [foldr]. rewrite append_empty.
    unfold parse_bounds. rewrite decide_False by (by apply num_not_star).
    rewrite includes_char, !all_chars_app. cbn [all_chars].
    rewrite bool_decide_eq_true_2 by done. rewrite !andb_false_r. cbn [negb].
    change ("-" ++ num_to_string b)%string with (String "-" (num_to_string b)).
    assert (forall n, 0 <= n -> all_chars (fun x => negb (bool_decide (x = "-"%char)))
                                  (num_to_string n) = true) as Hd
      by (intros n Hn; apply digits_free; [done|by apply num_to_string_digits]).
    rewrite split_on_app, split_on_free by (apply Hd; lia).
    rewrite decide_False by (intros [?|?]; (eapply num_to_string_ne; [|eassumption]); lia).
    rewrite !parseNumber_print by lia. cbn. destruct (Z.ltb_spec b a); [lia|done]. }
  assert (Hv : forall a sb, fs_min spec <= a <= fs_max spec ->
    parse_bounds term (num_to_string a) spec sb = Ok (a, if sb then fs_max spec else a)).
  { intros a sb Ha. unfold wf_spec in Hspec. unfold parse_bounds.
    rewrite decide_False by (rewrite <- (append_empty (num_to_string a)); apply num_not_star; lia).
    rewrite num_not_dash by lia. by rewrite parseNumber_print. }
  destruct t; cbn [term_range base_part step_of] in *; try done;
    first [apply Hr; lia | by rewrite Hv by lia].
Qed.

(** Parsing a printed term adds its range. *)
Lemma parseTerm_print t out :
  wf_term spec t ->
  let '(lo, hi, step) := term_range spec t in
  parseTerm (print_term t) spec out
  = Ok (add_range (Z.to_nat (hi - lo + 1)) lo hi step out).
Proof.
  intros Ht. pose proof (term_range_pos spec t Hspec Ht) as Hp.
  destruct (base_part_spec t Ht) as (Hf & Hne & _).
  pose proof (parse_bounds_print (print_term t) t Ht) as Hb.
  destruct (term_range spec t) as [[lo hi] step] eqn:Er. destruct Hp as (Hlo & Hhi & Hs).
  assert (Hstep : match step_of t with Some n => n = step | None => step = 1 end)
    by (destruct t; cbn in *; congruence).
  rewrite print_term_parts in Hb |- *. unfold parseTerm. destruct (step_of t) as [n|]; subst.
  - rewrite bool_decide_eq_true_2 in Hb by done. rewrite split_on_app by done.
    rewrite split_on_free by (apply digits_free, num_to_string_digits; [done|lia]).
    cbn [length Z.of_nat Pos.of_succ_nat Pos.succ head default Nat.eqb parse_step].
    rewrite parse_digits_num by lia. destruct step; try lia.
    cbn -[num_to_string parse_bounds decide add_range]. rewrite decide_False by done. by rewrite Hb.
  - rewrite bool_decide_eq_false_2 in Hb by (by intros []). rewrite split_on_free by done.
    cbn. rewrite decide_False by done. by rewrite Hb.
Qed.
Lemma denotes_add_range t out v :
  wf_term spec t ->
  let '(lo, hi, step) := term_range spec t in
  v ∈ add_range (Z.to_nat (hi - lo + 1)) lo hi step out <-> v ∈ out \/ denotes spec t v.
Proof.
  intros Ht. pose proof (term_range_pos spec t Hspec Ht) as Hp. unfold denotes.
  destruct (term_range spec t) as [[lo hi] step]. apply elem_of_add_range; lia.
Qed.
Lemma print_term_word t : wf_term spec t -> word (print_term t) /\ free "," (print_term t).
Proof.
  intros Ht. destruct (base_part_spec t Ht) as (_ & Hne & Hc).
  assert (Hall : all_chars term_char (print_term t) = true /\ print_term t <> "").
  { rewrite print_term_parts. pose proof (term_range_pos spec t Hspec Ht) as Hp.
    assert (forall n, step_of t = Some n -> 0 <= n) as Hn
      by (destruct t; cbn in *; intros ? [= <-]; lia).
    destruct (step_of t) as [n|]; [|done]. split; [|by destruct (base_part t)].
    rewrite all_chars_app, Hc. cbn. by apply num_term_chars, Hn. }
  destruct Hall as [Hall Hpne]. split; [split; [|done]|].
  - eapply term_chars_free; [|exact Hall].
    intros c [Hd|[->|[->|Heq]]]%term_char_cases; [by rewrite digit_not_ws|done|done|by subst].
  - eapply term_chars_free; [|exact Hall].
    intros c [Hd|[->|[->|Heq]]]%term_char_cases; [|done|done|by subst].
    apply negb_true_iff, bool_decide_eq_false. by intros ->.
Qed.
Lemma parse_terms_print raw ts out :
  Forall (wf_term spec) ts -> NoDup out ->
  exists out', parse_terms raw (print_term <$> ts) spec out = Ok out' /\ NoDup out' /\
    forall v, v ∈ out' <-> v ∈ out \/ Exists (fun t => denotes spec t v) ts.
Proof.
  intros Hts. revert out. induction Hts as [|t ts Ht Hts IH]; intros out Hn.
  { exists out. repeat split; [done| |]; [auto|]. intros [?|He]; [done|]. inversion He. }
  cbn [fmap list_fmap parse_terms]. destruct (print_term_word t Ht) as [[Hw Hne] _].
  rewrite (trim_no_ws _ Hw), decide_False by done.
  pose proof (parseTerm_print t out Ht) as Hp.
  pose proof (fun v => denotes_add_range t out v Ht) as Hd.
  destruct (term_range spec t) as [[lo hi] step]. rewrite Hp. cbn.
  destruct (IH (add_range (Z.to_nat (hi - lo + 1)) lo hi step out)) as (out' & E & Hn' & Hv);
    [by apply add_range_nodup|].
  exists out'. split; [exact E|]. split; [done|]. intros v. rewrite Hv, Hd, Exists_cons. tauto.
Qed.
End Grammar.

Definition wf_field (spec : CronFieldSpec) (ts : list CronTerm) : Prop :=
  ts <> [] /\ Forall (wf_term spec) ts.
(** The printed form of five fields. *)
Definition print_cron (fields : list (list CronTerm)) : string :=
  join_with " " (print_field <$> fields).

Lemma join_comma_word l :
  l <> [] -> Forall word l -> word (join_with "," l).
Proof.
  intros Hne Hl. induction Hl as [|x l Hx Hl IH]; [done|]. clear Hne.
  destruct l as [|y l]; [done|]. destruct IH as [IHw _]; [done|].
  change (join_with "," (x :: y :: l)) with (x ++ String "," (join_with "," (y :: l)))%string.
  destruct Hx as [Hx Hxne]. split; [|by destruct x].
  unfold no_ws in *. rewrite all_chars_app, Hx. cbn [all_chars]. by rewrite IHw.
Qed.
Lemma print_field_word spec ts : wf_spec spec -> wf_field spec ts -> word (print_field ts).
Proof.
  intros Hspec [Hne Hts]. apply join_comma_word; [by destruct ts|].
  apply Forall_fmap. eapply Forall_impl; [exact Hts|]. intros t Ht.
  by apply (print_term_word spec Hspec t).
Qed.
Lemma base_part_star spec t :
  wf_spec spec -> wf_term spec t -> print_term t = "*" -> t = TStar.
Proof.
  intros Hspec Ht. pose proof (term_range_pos spec t Hspec Ht) as Hp. revert Hp.
  assert (Hs : forall n s, 0 <= n -> (num_to_string n ++ s)%string <> "*") by apply num_not_star.
  destruct t; cbn [print_term term_range cat foldr]; intros Hp E; try done; exfalso;
    first [ by apply Hs in E; lia | rewrite <- (append_empty (num_to_string a)) in E;
            apply Hs in E; lia ].
Qed.
Lemma print_field_star spec ts :
  wf_spec spec -> wf_field spec ts -> bool_decide (print_field ts = "*") = is_star ts.
Proof.
  intros Hspec [Hne Hts]. destruct ts as [|t [|t' ts]]; [done| |].
  - unfold print_field. cbn [fmap list_fmap join_with].
    apply Forall_cons_1 in Hts as [Ht _]. case_bool_decide as E.
    + by rewrite (base_part_star spec t Hspec Ht E).
    + by destruct t.
  - replace (is_star (t :: t' :: ts)) with false by (by destruct t).
    apply bool_decide_eq_false. intros E.
    assert (H : split_on "," (print_field (t :: t' :: ts)) = print_term <$> (t :: t' :: ts)).
    { apply split_join; [done|]. apply Forall_fmap. eapply Forall_impl; [exact Hts|].
      intros u Hu. by apply (print_term_word spec Hspec u). }
    rewrite E in H. done.
Qed.
Lemma parseField_print spec ts :
  wf_spec spec -> wf_field spec ts ->
  exists values, parseField (print_field ts) spec = Ok (values, negb (is_star ts)) /\
    forall v, v ∈ values <-> Exists (fun t => denotes spec t v) ts.
Proof.
  intros Hspec Hts. destruct (print_field_word spec ts Hspec Hts) as [Hw Hne].
  unfold parseField. rewrite (trim_no_ws _ Hw), decide_False, (print_field_star spec ts) by done.
  destruct Hts as [Htsne Hts]. replace (split_on "," (print_field ts)) with (print_term <$> ts).
  - destruct (parse_terms_print spec Hspec (print_field ts) ts []) as (out & E & Hn & Hv);
      [done|constructor|]. rewrite E. exists (sort_numbers out). split; [done|]. intros v.
    rewrite (proj2 (sort_numbers_spec out Hn)), Hv. set_solver.
  - symmetry. apply split_join; [by destruct ts|]. apply Forall_fmap.
    eapply Forall_impl; [exact Hts|]. intros t Ht. by apply (print_term_word spec Hspec t).
Qed.
Lemma elem_of_fold_sunday l v :
  v ∈ fold_sunday l <-> exists w, w ∈ l /\ v = if w =? 7 then 0 else w.
Proof.
  unfold fold_sunday. rewrite (proj2 (sort_numbers_spec _ (set_of_nodup _))), elem_of_set_of,
    list_elem_of_fmap. naive_solver.
Qed.

(** ** Properties *)

Lemma parseCron_fields (src : string) (e : CronExpression) :
  parseCron src = Ok e -> wf_cron e /\ source e = trim src.
Proof.
  unfold parseCron. case_decide; [done|].
  destruct (split_ws (trim src)) as [|f0 [|f1 [|f2 [|f3 [|f4 [|]]]]]]; try done. intros H1.
  apply bind_Ok in H1 as (mi & Hmi & H1). apply bind_Ok in H1 as (ho & Hho & H1).
  apply bind_Ok in H1 as (dm & Hdm & H1). apply bind_Ok in H1 as (mo & Hmo & H1).
  apply bind_Ok in H1 as (dw & Hdw & [= <-]).
  apply parseField_wf in Hmi, Hho, Hdm, Hmo, Hdw; try (unfold wf_spec; cbn; lia).
  split; [|done]. constructor; cbn; try done. by apply fold_sunday_wf.
Qed.
(** Whatever string it is given, [parseCron] either rejects it or returns
    five fields that are sorted, free of duplicates, non-empty and within the
    bounds of minute, hour, day of month, month and day of week (0-6: the alias
    7 for Sunday never survives), and keeps the trimmed source. *)
Theorem parseCron_wf (src : string) (e : CronExpression) :
  parseCron src = Ok e -> wf_cron e /\ source e = trim src.
Proof. apply parseCron_fields. Qed.
Theorem parseCron_wf_witness :
  wf_cron (mkCron "*/20 9-17/4 1,15 * 7" [0; 20; 40] [9; 13; 17] [1; 15]
          [1; 2; 3; 4; 5; 6; 7; 8; 9; 10; 11; 12] [0] true true)
  /\ "*/20 9-17/4 1,15 * 7" = trim " */20 9-17/4 1,15 * 7 ".
Proof. apply (parseCron_wf " */20 9-17/4 1,15 * 7 "). vm_compute. reflexivity. Defined.

(** C39. The parser accepts the grammar and gives it its meaning: for five
    non-empty fields of well-formed terms ([*], [a], [a-b], each with an
    optional step), [parseCron] accepts the printed expression, each field
    holds exactly the values some term of it denotes ([a/n] runs to the field
    maximum; 7 stands for Sunday), and a day field counts as restricted unless
    it is the single term [*]. *)
Theorem parseCron_grammar (mi ho dm mo dw : list CronTerm) :
  wf_field field_minute mi -> wf_field field_hour ho -> wf_field field_dayOfMonth dm ->
  wf_field field_month mo -> wf_field field_dayOfWeek7 dw ->
  exists e, parseCron (print_cron [mi; ho; dm; mo; dw]) = Ok e /\
    source e = print_cron [mi; ho; dm; mo; dw] /\
    (forall v, v ∈ minute e <-> Exists (fun t => denotes field_minute t v) mi) /\
    (forall v, v ∈ hour e <-> Exists (fun t => denotes field_hour t v) ho) /\
    (forall v, v ∈ dayOfMonth e <-> Exists (fun t => denotes field_dayOfMonth t v) dm) /\
    (forall v, v ∈ month e <-> Exists (fun t => denotes field_month t v) mo) /\
    (forall v, v ∈ dayOfWeek e <->
      exists w, Exists (fun t => denotes field_dayOfWeek7 t w) dw /\ v = if w =? 7 then 0 else w) /\
    dayOfMonthRestricted e = negb (is_star dm) /\ dayOfWeekRestricted e = negb (is_star dw).
Proof.
  assert (wf_spec field_minute /\ wf_spec field_hour /\ wf_spec field_dayOfMonth /\
    wf_spec field_month /\ wf_spec field_dayOfWeek7) as (? & ? & ? & ? & ?)
    by (unfold wf_spec; cbn; lia).
  intros Hmi Hho Hdm Hmo Hdw. unfold parseCron.
  assert (Hw : Forall word (print_field <$> [mi; ho; dm; mo; dw]))
    by (repeat apply Forall_cons_2;
        [eapply print_field_word; [|eassumption]; assumption..|apply Forall_nil_2]).
  unfold print_cron in *. rewrite (trim_words _ Hw), split_words by (done || exact Hw).
  rewrite decide_False; cycle 1.
  { destruct (print_field_word field_minute mi ltac:(done) Hmi) as [_ Hne]. cbn.
    by destruct (print_field mi). }
  destruct (parseField_print field_minute mi ltac:(done) Hmi) as (v1 & E1 & ?).
  destruct (parseField_print field_hour ho ltac:(done) Hho) as (v2 & E2 & ?).
  destruct (parseField_print field_dayOfMonth dm ltac:(done) Hdm) as (v3 & E3 & ?).
  destruct (parseField_print field_month mo ltac:(done) Hmo) as (v4 & E4 & ?).
  destruct (parseField_print field_dayOfWeek7 dw ltac:(done) Hdw) as (v5 & E5 & Hv5).
  cbn [fmap list_fmap]. rewrite E1, E2, E3, E4, E5. eexists. split; [reflexivity|].
  split_and!; [reflexivity|assumption..| |reflexivity|reflexivity].
  intros v. etransitivity; [apply elem_of_fold_sunday|]. cbn [fst]. by setoid_rewrite Hv5.
Qed.
Theorem parseCron_grammar_witness :
  exists e, parseCron "*/20 9-17/4 1,15 * 7" = Ok e /\ source e = "*/20 9-17/4 1,15 * 7".
Proof.
  destruct (parseCron_grammar [TStarStep 20] [TRangeStep 9 17 4] [TVal 1; TVal 15] [TStar] [TVal 7])
    as (e & E & Es & _);
    [ split; [done|repeat constructor; cbn; lia].. | ].
  exists e. split; [exact E|exact Es].
Defined.
