(* ===== verification/CronNextRun.v ===== *)
(** [lib/cron/next-run.ts]: the search for the next instant a cron expression
    matches, over the UTC calendar of [JsDate].

    A [Date] is its time value; the cursor of the search is [None] once a
    setter left the range of [Date] (an invalid date, which matches nothing),
    and the [RangeError] of the source is [None]. *)

From S2P Require Import Prelude JsDate JsString CronParser.
From stdpp Require Import base list sets fin_sets strings numbers sorting.
From Stdlib Require Import ZArith Lia Ascii.
#[local] Open Scope Z_scope.

Definition MAX_ITERATIONS : nat := Z.to_nat 10000.

(** [Array.prototype.includes] on an array of numbers. *)
Definition has (l : list Z) (x : Z) : bool := existsb (Z.eqb x) l.

Definition dayMatches (expr : CronExpression) (date : Z) : bool :=
  let dom := get_utc_date date in
  let dow := get_utc_day date in
  if dayOfMonthRestricted expr && dayOfWeekRestricted expr
  then has (dayOfMonth expr) dom || has (dayOfWeek expr) dow
  else if dayOfMonthRestricted expr then has (dayOfMonth expr) dom
  else if dayOfWeekRestricted expr then has (dayOfWeek expr) dow
  else true.

(** One iteration of the search: the match, or the next cursor. *)
Definition search_step (expr : CronExpression) (cursor : Z) : Z + option Z :=
  if negb (has (month expr) (get_utc_month cursor + 1)) then
    inr (c ← set_utc_month cursor (get_utc_month cursor + 1) 1; set_utc_hours c 0 0 0 0)
  else if negb (dayMatches expr cursor) then
    inr (c ← set_utc_date cursor (get_utc_date cursor + 1); set_utc_hours c 0 0 0 0)
  else if negb (has (hour expr) (get_utc_hours cursor)) then
    inr (set_utc_hours cursor (get_utc_hours cursor + 1) 0 0 0)
  else if negb (has (minute expr) (get_utc_minutes cursor)) then
    inr (set_utc_minutes cursor (get_utc_minutes cursor + 1) 0 0)
  else inl cursor.
Fixpoint search (fuel : nat) (expr : CronExpression) (cursor : option Z) : option Z :=
  match fuel with
  | O => None
  | S fuel' =>
      match cursor with
      | None => search fuel' expr None
      | Some c =>
          match search_step expr c with
          | inl r => Some r
          | inr c' => search fuel' expr c'
          end
      end
  end.

Definition first_cursor (after : Z) : option Z :=
  date_utc (get_utc_full_year after) (get_utc_month after) (get_utc_date after)
    (get_utc_hours after) (get_utc_minutes after + 1) 0 0.
Definition nextRun_within (iterations : nat) (expr : CronExpression) (after : Z) : option Z :=
  search iterations expr (first_cursor after).
Definition nextRun (expr : CronExpression) (after : Z) : option Z :=
  nextRun_within MAX_ITERATIONS expr after.
#[global] Strategy expand [nextRun].

(** The loop of [nextRuns], over the function it calls. *)
Fixpoint runs_loop (next : Z -> option Z) (after : Z) (limit : nat) : list Z :=
  match limit with
  | O => []
  | S limit' =>
      match next after with
      | Some cursor => cursor :: runs_loop next cursor limit'
      | None => []
      end
  end.
Definition nextRuns (expr : CronExpression) (after : Z) (limit : nat) : list Z :=
  runs_loop (nextRun expr) after limit.

(** ** What the search is to find *)

(** [t] is the start of a minute that satisfies every field. *)
Definition day_ok (expr : CronExpression) (t : Z) : bool :=
  has (month expr) (get_utc_month t + 1) && dayMatches expr t.
Definition matches (expr : CronExpression) (t : Z) : Prop :=
  t mod 60000 = 0 /\ day_ok expr t = true /\
  has (hour expr) (get_utc_hours t) = true /\ has (minute expr) (get_utc_minutes t) = true.

(** Length of month [m] (1-12), in a leap year. *)
Definition month_length (m : Z) : Z := month_start 1 m - month_start 1 (m - 1).
(** Some day of some year satisfies the three day fields. *)
Definition satisfiable (expr : CronExpression) : Prop :=
  exists m, m ∈ month expr /\
    (dayOfMonthRestricted expr = true -> dayOfWeekRestricted expr = false ->
     exists d, d ∈ dayOfMonth expr /\ d <= month_length m).

(** Dates for which [Date.UTC] does not reinterpret the year (it maps 0-99 to
    1900-1999). *)
Definition plain_year (t : Z) : Prop := ~ 0 <= get_utc_full_year t <= 99.

Example next_leap_day :
  to_iso_string <$> nextRun (mkCron "" [0; 30] [9] [29] [2] [0; 1; 2; 3; 4; 5; 6] true false)
    1709078400000 = Some "2024-02-29T09:00:00.000Z".
Proof. vm_compute. reflexivity. Qed.

(** ** The jumps of the search *)

Lemma has_elem l x : has l x = true <-> x ∈ l.
Proof.
  unfold has. rewrite existsb_exists. setoid_rewrite Z.eqb_eq. setoid_rewrite <- list_elem_of_In.
  naive_solver.
Qed.
Lemma day_ok_day e u t : day u = day t -> day_ok e u = day_ok e t.
Proof. intros E. unfold day_ok, dayMatches, get_utc_month, get_utc_date, get_utc_day. by rewrite E. Qed.
Lemma month_bad_day_bad e t :
  has (month e) (get_utc_month t + 1) = false -> day_ok e t = false.
Proof. intros E. unfold day_ok. by rewrite E. Qed.

(** Where the cursor goes when [t] does not match. *)
Definition jump (e : CronExpression) (t : Z) : Z :=
  if negb (has (month e) (get_utc_month t + 1))
  then make_day (get_utc_full_year t) (get_utc_month t + 1) 1 * ms_per_day
  else if negb (dayMatches e t) then (day t + 1) * ms_per_day
  else if negb (has (hour e) (get_utc_hours t)) then (t / 3600000 + 1) * 3600000
  else (t / 60000 + 1) * 60000.

Lemma time_clip_Some t r : time_clip t = Some r <-> r = t /\ Z.abs t <= max_time.
Proof.
  unfold time_clip. destruct (Z.leb_spec (Z.abs t) max_time); split;
    [by intros [= <-] | by intros [-> _] | done | lia].
Qed.
Lemma day_make_date d tm : 0 <= tm < ms_per_day -> day (make_date d tm) = d.
Proof. unfold day, make_date, ms_per_day. lia. Qed.
Lemma time_within_day_range t : 0 <= time_within_day t < ms_per_day.
Proof. unfold time_within_day, ms_per_day. lia. Qed.
#[local] Hint Resolve time_within_day_range : js.

Lemma search_step_inl e t r : search_step e t = inl r -> r = t /\
  day_ok e t = true /\ has (hour e) (get_utc_hours t) = true /\
  has (minute e) (get_utc_minutes t) = true.
Proof.
  unfold search_step, day_ok.
  destruct (has (month e) _); [|done]. destruct (dayMatches e t); [|done].
  destruct (has (hour e) _); [|done]. destruct (has (minute e) _); [|done]. by intros [= <-].
Qed.
Lemma set_then_midnight d tm r :
  0 <= tm < ms_per_day ->
  (c ← time_clip (make_date d tm); set_utc_hours c 0 0 0 0) = Some r -> r = d * ms_per_day.
Proof.
  intros Htm. rewrite bind_Some. intros (x & [-> _]%time_clip_Some & H).
  unfold set_utc_hours in H. rewrite day_make_date in H by done.
  apply time_clip_Some in H as [-> _]. unfold make_date, make_time. lia.
Qed.
Lemma set_then_midnight_ok d tm :
  0 <= tm < ms_per_day -> - max_time <= d * ms_per_day <= max_time - ms_per_day ->
  (c ← time_clip (make_date d tm); set_utc_hours c 0 0 0 0) = Some (d * ms_per_day).
Proof.
  intros Htm Hd. apply bind_Some. exists (make_date d tm). split.
  - apply time_clip_Some. unfold make_date in *. lia.
  - unfold set_utc_hours. rewrite day_make_date by done. apply time_clip_Some.
    unfold make_date, make_time. unfold ms_per_day, max_time in *. lia.
Qed.
Lemma next_date_day t :
  make_day (get_utc_full_year t) (get_utc_month t) (get_utc_date t + 1) = day t + 1.
Proof. apply make_day_next_date. Qed.

(** The four setters, when they stay in range. *)
Lemma next_month_jump t r :
  (c ← set_utc_month t (get_utc_month t + 1) 1; set_utc_hours c 0 0 0 0) = Some r ->
  r = make_day (get_utc_full_year t) (get_utc_month t + 1) 1 * ms_per_day.
Proof. apply set_then_midnight, time_within_day_range. Qed.
Lemma next_day_jump t r :
  (c ← set_utc_date t (get_utc_date t + 1); set_utc_hours c 0 0 0 0) = Some r ->
  r = (day t + 1) * ms_per_day.
Proof. unfold set_utc_date. rewrite next_date_day. apply set_then_midnight, time_within_day_range. Qed.
Lemma next_hour_jump t r :
  set_utc_hours t (get_utc_hours t + 1) 0 0 0 = Some r -> r = (t / 3600000 + 1) * 3600000.
Proof.
  unfold set_utc_hours. intros [-> _]%time_clip_Some.
  unfold make_date, make_time, get_utc_hours, day, ms_per_day. lia.
Qed.
Lemma next_minute_jump t r :
  set_utc_minutes t (get_utc_minutes t + 1) 0 0 = Some r -> r = (t / 60000 + 1) * 60000.
Proof.
  unfold set_utc_minutes. intros [-> _]%time_clip_Some.
  unfold make_date, make_time, get_utc_hours, get_utc_minutes, day, ms_per_day. lia.
Qed.
(** Clipping apart, one step is the jump. *)
Lemma search_step_jump e t t' : search_step e t = inr (Some t') -> t' = jump e t.
Proof.
  unfold search_step, jump.
  destruct (has (month e) _); cbn [negb]; [|intros H; apply (inj inr) in H; by apply next_month_jump].
  destruct (dayMatches e t); cbn [negb]; [|intros H; apply (inj inr) in H; by apply next_day_jump].
  destruct (has (hour e) _); cbn [negb]; [|intros H; apply (inj inr) in H; by apply next_hour_jump].
  destruct (has (minute e) _); cbn [negb]; [done|].
  intros H. apply (inj inr) in H. by apply next_minute_jump.
Qed.
Lemma search_step_ok e t :
  - max_time <= t -> jump e t <= max_time - ms_per_day -> t < jump e t ->
  search_step e t = inl t \/ search_step e t = inr (Some (jump e t)).
Proof.
  unfold search_step, jump. intros Hlo.
  destruct (has (month e) _); cbn [negb].
  2: { intros Hhi Hlt. right. f_equal. apply set_then_midnight_ok; [auto with js|].
       fold (get_utc_full_year t). lia. }
  destruct (dayMatches e t); cbn [negb].
  2: { intros Hhi Hlt. right. f_equal. unfold set_utc_date. rewrite next_date_day.
       apply set_then_midnight_ok; [auto with js|lia]. }
  destruct (has (hour e) _); cbn [negb].
  2: { intros Hhi Hlt. right. f_equal. unfold set_utc_hours. apply time_clip_Some.
       unfold make_date, make_time, get_utc_hours, day, ms_per_day, max_time in *. lia. }
  destruct (has (minute e) _); cbn [negb]; [by left|].
  intros Hhi Hlt. right. f_equal. unfold set_utc_minutes. apply time_clip_Some.
  unfold make_date, make_time, get_utc_hours, get_utc_minutes, day, ms_per_day, max_time in *. lia.
Qed.

(** The jump skips no match: it stays in the bad month, day, hour or minute. *)
Lemma jump_lt e t : t < jump e t.
Proof.
  unfold jump. destruct (negb _).
  - pose proof (next_month_start (day t)) as H.
    fold (get_utc_full_year t) (get_utc_month t) in H. unfold day, ms_per_day in *. lia.
  - destruct (negb _); [unfold day, ms_per_day; lia|]. destruct (negb _); lia.
Qed.
Lemma jump_aligned e t : jump e t mod 60000 = 0.
Proof.
  unfold jump, ms_per_day. destruct (negb _); [lia|]. destruct (negb _); [lia|].
  destruct (negb _); lia.
Qed.
Lemma jump_skips e t u :
  search_step e t <> inl t -> t <= u < jump e t -> ~ matches e u.
Proof.
  intros Hs Hu (_ & Hd & Hh & Hm). revert Hs Hu. unfold search_step, jump.
  destruct (has (month e) (get_utc_month t + 1)) eqn:Emo; cbn [negb].
  2: { intros _ Hu. pose proof (same_month_until_next (day t) (day u)) as [_ E].
       - fold (get_utc_full_year t) (get_utc_month t).
         unfold day, ms_per_day in *. lia.
       - unfold day_ok, get_utc_month in Hd. rewrite E in Hd. fold (get_utc_month t) in Hd.
         by rewrite Emo in Hd. }
  destruct (dayMatches e t) eqn:Edm; cbn [negb].
  2: { intros _ Hu. rewrite (day_ok_day e u t) in Hd by (unfold day, ms_per_day in *; lia).
       unfold day_ok in Hd. by rewrite Edm, andb_false_r in Hd. }
  destruct (has (hour e) (get_utc_hours t)) eqn:Eho; cbn [negb].
  2: { intros _ Hu. replace (get_utc_hours u) with (get_utc_hours t) in Hh; [congruence|].
       unfold get_utc_hours. lia. }
  destruct (has (minute e) (get_utc_minutes t)) eqn:Emi; cbn [negb]; [done|].
  intros _ Hu. replace (get_utc_minutes u) with (get_utc_minutes t) in Hm; [congruence|].
  unfold get_utc_minutes. lia.
Qed.

(** ** Soundness *)

Lemma search_None e fuel : search fuel e None = None.
Proof. by induction fuel. Qed.
Lemma search_least e fuel t r :
  t mod 60000 = 0 -> search fuel e (Some t) = Some r ->
  t <= r /\ matches e r /\ forall u, t <= u < r -> ~ matches e u.
Proof.
  revert t. induction fuel as [|fuel IH]; intros t Ht; cbn [search]; [done|].
  destruct (search_step e t) as [x|c] eqn:E.
  - intros [= <-]. apply search_step_inl in E as (-> & H). split; [lia|]. split; [done|]. lia.
  - destruct c as [t'|]; [|by rewrite search_None]. intros H.
    apply search_step_jump in E as Ej. subst t'.
    destruct (IH _ (jump_aligned e t) H) as (Hle & Hm & Hno). pose proof (jump_lt e t).
    split; [lia|]. split; [done|]. intros u Hu.
    destruct (Z.lt_ge_cases u (jump e t)); [|apply Hno; lia].
    apply (jump_skips e t); [congruence|lia].
Qed.
Lemma first_cursor_spec after t :
  plain_year after -> first_cursor after = Some t ->
  t = (after / 60000 + 1) * 60000.
Proof.
  unfold plain_year, first_cursor, date_utc. intros Hy.
  replace ((0 <=? get_utc_full_year after) && (get_utc_full_year after <=? 99)) with false
    by (symmetry; apply andb_false_iff; rewrite !Z.leb_gt; lia).
  intros [-> _]%time_clip_Some. unfold get_utc_full_year, get_utc_month, get_utc_date.
  rewrite make_day_fields. unfold make_date, make_time, get_utc_hours, get_utc_minutes, day,
    ms_per_day. lia.
Qed.
Lemma first_cursor_ok after :
  plain_year after -> - max_time <= after <= max_time - 60000 ->
  first_cursor after = Some ((after / 60000 + 1) * 60000).
Proof.
  intros Hy Ha. unfold first_cursor, date_utc, plain_year in *.
  destruct ((0 <=? _) && _) eqn:Eb; [bools; lia|].
  unfold get_utc_full_year, get_utc_month, get_utc_date. rewrite make_day_fields.
  apply time_clip_Some.
  unfold make_date, make_time, get_utc_hours, get_utc_minutes, day, ms_per_day, max_time in *.
  lia.
Qed.
Lemma plain_year_after t u : 0 <= t -> t <= u -> plain_year u.
Proof.
  intros H0 Hu. unfold plain_year, get_utc_full_year. pose proof (year_from_day_spec (day u)) as Hy.
  intros [_ H]. pose proof (day_from_year_mono (year_from_day (day u) + 1) 100 ltac:(lia)) as Hm.
  change (day_from_year 100) with (-683003) in Hm. unfold day, ms_per_day in *. lia.
Qed.

Lemma nextRun_within_least n e after r :
  plain_year after -> nextRun_within n e after = Some r ->
  after < r /\ matches e r /\ forall u, after < u < r -> ~ matches e u.
Proof.
  intros Hy. unfold nextRun_within. destruct (first_cursor after) as [t|] eqn:E;
    [|by rewrite search_None].
  apply first_cursor_spec in E; [|done]. intros H.
  apply search_least in H as (Hle & Hm & Hno); [|lia].
  split; [lia|]. split; [done|]. intros u Hu. destruct (Z.lt_ge_cases u t); [|apply Hno; lia].
  intros [Hu' _]. lia.
Qed.

(** C17. [nextRun] is right whenever it returns: the result is strictly later
    than [after], is the start of a minute that satisfies every field (with the
    day-of-month / day-of-week rule), and no earlier minute after [after]
    does.  The year must not be 0-99, which [Date.UTC] reinterprets. *)
Theorem nextRun_least (expr : CronExpression) (after r : Z) :
  plain_year after -> nextRun expr after = Some r ->
  after < r /\ matches expr r /\ forall u, after < u < r -> ~ matches expr u.
Proof. apply nextRun_within_least. Qed.
Theorem nextRun_least_witness :
  1709078400000 < 1709197200000 /\
  matches (mkCron "" [0; 30] [9] [29] [2] [0; 1; 2; 3; 4; 5; 6] true false) 1709197200000.
Proof.
  destruct (nextRun_least (mkCron "" [0; 30] [9] [29] [2] [0; 1; 2; 3; 4; 5; 6] true false)
    1709078400000 1709197200000) as (H1 & H2 & _).
  - vm_compute. intros [_ H]. by apply H.
  - vm_compute. reflexivity.
  - exact (conj H1 H2).
Defined.

(** ** Completeness: enough iterations for every satisfiable expression *)

Lemma jump_cases e t :
  search_step e t <> inl t ->
  (day_ok e t = false /\ jump e t mod ms_per_day = 0) \/
  (day_ok e t = true /\ has (hour e) (get_utc_hours t) = false /\
   jump e t = (t / 3600000 + 1) * 3600000) \/
  (day_ok e t = true /\ has (hour e) (get_utc_hours t) = true /\
   has (minute e) (get_utc_minutes t) = false /\ jump e t = (t / 60000 + 1) * 60000).
Proof.
  unfold search_step, jump, day_ok. intros H.
  destruct (has (month e) _); cbn [negb andb]; [|left; split; [done|unfold ms_per_day; lia]].
  destruct (dayMatches e t); cbn [negb]; [|left; split; [done|unfold ms_per_day; lia]].
  destruct (has (hour e) _); cbn [negb]; [|auto].
  destruct (has (minute e) _); cbn [negb] in *; [done|]. right. right. auto.
Qed.
Lemma wf_values_has lo hi l : wf_values lo hi l -> exists x, x ∈ l /\ lo <= x <= hi.
Proof.
  intros (_ & Hne & Hr). destruct l as [|x l]; [done|]. exists x. split; [set_solver|].
  by apply Forall_cons_1 in Hr as [? _].
Qed.

Lemma MAX_ITERATIONS_val : Z.of_nat MAX_ITERATIONS = 10000.
Proof. apply Z2Nat.id. lia. Qed.

Section Search.
Context (e : CronExpression) (Hwf : wf_cron e).
Context (T : Z) (HT : matches e T) (Hmax : T <= max_time - ms_per_day).

(** From [t], [n] iterations are enough. *)
Definition finds (n : nat) (t : Z) : Prop :=
  forall k, (n <= k)%nat -> is_Some (search k e (Some t)).
Definition ahead (t : Z) : Prop := t mod 60000 = 0 /\ - max_time <= t <= T.

Lemma finds_mono n m t : (n <= m)%nat -> finds n t -> finds m t.
Proof. unfold finds. intros Hle H k Hk. apply H. lia. Qed.
Lemma finds_step n t :
  ahead t -> (search_step e t <> inl t -> ahead (jump e t) -> finds n (jump e t)) ->
  finds (S n) t.
Proof.
  intros [Ha Ht] H k Hk. destruct k as [|k]; [lia|]. cbn [search].
  destruct (search_step e t) as [x|c] eqn:E; [done|].
  assert (Hne : search_step e t <> inl t) by congruence.
  pose proof (jump_lt e t). assert (jump e t <= T).
  { destruct (Z.le_gt_cases (jump e t) T) as [|Hgt]; [done|].
    exfalso. apply (jump_skips e t T Hne); [lia|done]. }
  destruct (search_step_ok e t) as [E'|E']; [lia..|congruence|].
  rewrite E in E'. injection E' as ->. apply H; [congruence| |lia].
  split; [apply jump_aligned|lia].
Qed.

Lemma finds_minute n t :
  ahead t -> day_ok e t = true -> has (hour e) (get_utc_hours t) = true ->
  (exists m, m ∈ minute e /\ get_utc_minutes t <= m <= 59) ->
  Z.of_nat n = 60 - get_utc_minutes t -> finds n t.
Proof.
  revert t. induction n as [|n IH]; intros t Ha Hd Hh (m & Hm & Hr) Hn; [lia|].
  apply finds_step; [done|]. intros Hne Ha'.
  destruct (jump_cases e t Hne) as [[? _]|[(_ & ? & _)|(_ & _ & Hb & Ej)]]; [congruence..|].
  assert (get_utc_minutes t <> m) by (intros <-; apply has_elem in Hm; congruence).
  assert (Em : get_utc_minutes (jump e t) = get_utc_minutes t + 1)
    by (rewrite Ej; unfold get_utc_minutes in *; lia).
  apply IH; [done| | |exists m; split; [done|lia]|lia].
  - rewrite (day_ok_day e _ t); [done|]. rewrite Ej.
    unfold day, get_utc_minutes, ms_per_day in *. lia.
  - replace (get_utc_hours (jump e t)) with (get_utc_hours t); [done|].
    rewrite Ej. unfold get_utc_hours, get_utc_minutes in *. lia.
Qed.
Lemma finds_hour_start t :
  ahead t -> t mod 3600000 = 0 -> day_ok e t = true ->
  has (hour e) (get_utc_hours t) = true -> finds 60 t.
Proof.
  intros Ha Hs Hd Hh. destruct (wf_values_has _ _ _ (wf_minute e Hwf)) as (m & Hm & Hr).
  apply finds_minute; try done.
  - exists m. split; [done|]. unfold get_utc_minutes. lia.
  - unfold get_utc_minutes. lia.
Qed.
Lemma finds_hour n t :
  ahead t -> t mod 3600000 = 0 -> day_ok e t = true ->
  (exists h, h ∈ hour e /\ get_utc_hours t <= h <= 23) ->
  Z.of_nat n = 24 - get_utc_hours t -> finds (n + 60) t.
Proof.
  revert t. induction n as [|n IH]; intros t Ha Hs Hd (h & Hh & Hr) Hn; [lia|].
  destruct (has (hour e) (get_utc_hours t)) eqn:Eh.
  { eapply finds_mono; [|by apply finds_hour_start]. lia. }
  apply finds_step; [done|]. intros Hne Ha'.
  destruct (jump_cases e t Hne) as [[? _]|[(_ & _ & Ej)|(_ & ? & _)]]; [congruence| |congruence].
  assert (get_utc_hours t <> h) by (intros <-; apply has_elem in Hh; congruence).
  assert (E : get_utc_hours (jump e t) = get_utc_hours t + 1)
    by (rewrite Ej; unfold get_utc_hours in *; lia).
  apply IH; [done|lia| |exists h; split; [done|lia]|lia].
  rewrite (day_ok_day e _ t); [done|]. rewrite Ej.
  unfold day, get_utc_hours, ms_per_day in *. lia.
Qed.
Lemma finds_day n t :
  ahead t -> t mod ms_per_day = 0 -> day T - day t <= Z.of_nat n -> finds (n + 84) t.
Proof.
  revert t. induction n as [n IH] using lt_wf_ind. intros t Ha Hs Hn.
  destruct (day_ok e t) eqn:Ed.
  { destruct (wf_values_has _ _ _ (wf_hour e Hwf)) as (h & Hh & Hr).
    eapply finds_mono; [|apply (finds_hour 24); try done].
    - lia.
    - unfold ms_per_day in *. lia.
    - exists h. split; [done|]. unfold get_utc_hours, ms_per_day in *. lia.
    - unfold get_utc_hours, ms_per_day in *. lia. }
  assert (day t <> day T).
  { intros E. destruct HT as (_ & HTd & _). rewrite (day_ok_day e T t) in HTd by done. congruence. }
  destruct n as [|n]; [unfold day, ahead, ms_per_day in *; lia|].
  apply finds_step; [done|]. intros Hne Ha'.
  destruct (jump_cases e t Hne) as [[_ Hm]|[(? & _)|(? & _)]]; [|congruence..].
  apply IH; [lia|done|done|]. pose proof (jump_lt e t). unfold day, ms_per_day in *. lia.
Qed.
Lemma finds_aligned_hour n d t :
  ahead t -> t mod 3600000 = 0 -> Z.of_nat n = 24 - get_utc_hours t ->
  day T - day t <= Z.of_nat d -> finds (n + d + 84) t.
Proof.
  revert t. induction n as [|n IH]; intros t Ha Hs Hn Hd;
    [unfold get_utc_hours in *; lia|]. cbn [Nat.add].
  destruct (day_ok e t && has (hour e) (get_utc_hours t)) eqn:Eok.
  { apply andb_true_iff in Eok as []. eapply finds_mono; [|by apply finds_hour_start]. lia. }
  apply finds_step; [done|]. intros Hne Ha'.
  pose proof (jump_lt e t). assert (day T - day (jump e t) <= Z.of_nat d)
    by (unfold day, ms_per_day in *; lia).
  destruct (jump_cases e t Hne) as [[_ Hm]|[(_ & _ & Ej)|(Hdo & Hh & _)]].
  - eapply finds_mono; [|by apply (finds_day d)]. lia.
  - destruct (Z.eq_dec (get_utc_hours t) 23) as [E|E].
    + eapply finds_mono; [|apply (finds_day d); try done]; [lia|].
      rewrite Ej. unfold get_utc_hours, ms_per_day in *. lia.
    + apply IH; [done|lia| |done]. rewrite Ej. unfold get_utc_hours in *. lia.
  - by rewrite Hdo, Hh in Eok.
Qed.
Lemma finds_aligned_minute n d t :
  ahead t -> Z.of_nat n = 60 - get_utc_minutes t -> day T - day t <= Z.of_nat d ->
  finds (n + d + 108) t.
Proof.
  revert t. induction n as [|n IH]; intros t Ha Hn Hd; [unfold get_utc_minutes in *; lia|].
  cbn [Nat.add]. apply finds_step; [done|]. intros Hne Ha'.
  pose proof (jump_lt e t). assert (day T - day (jump e t) <= Z.of_nat d)
    by (unfold day, ms_per_day in *; lia).
  assert (Hhour : jump e t mod 3600000 = 0 -> finds (n + d + 108) (jump e t)).
  { intros Hz. eapply finds_mono; [|apply (finds_aligned_hour
      (Z.to_nat (24 - get_utc_hours (jump e t))) d); try done]; unfold get_utc_hours; lia. }
  destruct (jump_cases e t Hne) as [[_ Hm]|[(_ & _ & Ej)|(_ & _ & _ & Ej)]].
  - apply Hhour. unfold ms_per_day in *. lia.
  - apply Hhour. lia.
  - destruct (Z.eq_dec (get_utc_minutes t) 59) as [E|E].
    + apply Hhour. unfold get_utc_minutes in *. lia.
    + apply IH; [done| |done]. rewrite Ej. unfold get_utc_minutes in *. lia.
Qed.

(** 10,000 iterations cover every match within 9,800 days. *)
Lemma nextRun_finds n after :
  plain_year after -> - max_time <= after < T -> T - after <= 9800 * ms_per_day ->
  Z.of_nat n = 10000 -> is_Some (nextRun_within n e after).
Proof.
  intros Hy Ha Hh Hn. unfold nextRun_within.
  rewrite first_cursor_ok by (unfold max_time, ms_per_day in *; lia || done).
  destruct HT as (HTa & _).
  assert (Hah : ahead ((after / 60000 + 1) * 60000)) by (unfold ahead; lia).
  pose proof (finds_aligned_minute (Z.to_nat (60 - get_utc_minutes ((after / 60000 + 1) * 60000)))
    (Z.to_nat 9800) _ Hah) as Hf. apply Hf.
  - unfold get_utc_minutes. lia.
  - unfold day, ms_per_day in *. lia.
  - unfold get_utc_minutes. lia.
Qed.
End Search.

(** A satisfiable expression matches within nine years of any instant: the
    eight following years include a leap year. *)
Lemma leap_year_soon y : exists y', y + 1 <= y' <= y + 8 /\ in_leap_year y' = 1.
Proof.
  assert (H : forall z, z mod 4 = 0 -> z mod 100 <> 0 -> in_leap_year z = 1).
  { intros z H4 H100. unfold in_leap_year.
    destruct (Z.eqb_spec (day_from_year (z + 1) - day_from_year z) 366) as [|Hn]; [done|].
    exfalso. apply Hn. unfold day_from_year. lia. }
  pose proof (Z.mod_pos_bound y 4).
  destruct (Z.eq_dec ((y + 4 - y mod 4) mod 100) 0) as [E|E].
  - exists (y + 8 - y mod 4). split; [lia|]. apply H; lia.
  - exists (y + 4 - y mod 4). split; [lia|]. apply H; lia.
Qed.
Lemma month_cases m : 1 <= m <= 12 ->
  m = 1 \/ m = 2 \/ m = 3 \/ m = 4 \/ m = 5 \/ m = 6 \/ m = 7 \/ m = 8 \/ m = 9 \/ m = 10 \/
  m = 11 \/ m = 12.
Proof. lia. Qed.
Lemma month_length_min m : 1 <= m <= 12 -> 29 <= month_length m.
Proof.
  intros Hm. apply month_cases in Hm.
  repeat (destruct Hm as [->|Hm]; [vm_compute; congruence|]). subst. vm_compute. congruence.
Qed.
Lemma month_length_max l m :
  0 <= l <= 1 -> 1 <= m <= 12 -> month_start l m - month_start l (m - 1) <= month_length m.
Proof.
  intros Hl Hm. apply month_cases in Hm. assert (l = 0 \/ l = 1) as [->| ->] by lia;
  repeat (destruct Hm as [->|Hm]; [vm_compute; congruence|]); subst; vm_compute; congruence.
Qed.

Lemma satisfiable_day e y :
  wf_cron e -> satisfiable e -> in_leap_year y = 1 ->
  exists d, year_from_day d = y /\ forall t, day t = d -> day_ok e t = true.
Proof.
  intros Hwf (m & Hm & Hd) Hy.
  assert (Hmr : 1 <= m <= 12).
  { destruct (wf_month e Hwf) as (_ & _ & Hr). rewrite Forall_forall in Hr. by apply Hr. }
  pose proof (month_length_min m Hmr) as Hlen.
  assert (Hmk : forall dt, 1 <= dt <= month_length m -> exists d,
    d = make_day y (m - 1) dt /\ year_from_day d = y /\ month_from_day d = m - 1 /\
    date_from_day d = dt).
  { intros dt Hdt. eexists. split; [done|]. apply make_day_spec; [lia|]. rewrite Hy.
    replace (m - 1 + 1) with m by lia. done. }
  assert (Hok : forall dt, 1 <= dt <= month_length m ->
    (forall t, day t = make_day y (m - 1) dt -> get_utc_date t = dt -> dayMatches e t = true) ->
    exists d, year_from_day d = y /\ forall t, day t = d -> day_ok e t = true).
  { intros dt Hdt Hdm. destruct (Hmk dt Hdt) as (d & Ed & E1 & E2 & E3). exists d.
    split; [done|]. intros t Ht. unfold day_ok, get_utc_month. rewrite Ht, E2.
    replace (m - 1 + 1) with m by lia. rewrite (proj2 (has_elem _ _) Hm). apply Hdm; [congruence|].
    unfold get_utc_date. congruence. }
  destruct (dayOfWeekRestricted e) eqn:Ew.
  - destruct (wf_values_has _ _ _ (wf_dayOfWeek e Hwf)) as (w & Hw & Hwr).
    apply (Hok (1 + (w - (make_day y (m - 1) 1 + 4)) mod 7)); [lia|]. intros t Ht _.
    assert (Hh : has (dayOfWeek e) (get_utc_day t) = true).
    { apply has_elem. replace (get_utc_day t) with w; [done|].
      unfold get_utc_day. rewrite Ht. unfold make_day. lia. }
    unfold dayMatches. rewrite Ew, Hh, andb_true_r, orb_true_r. by destruct (dayOfMonthRestricted e).
  - destruct (dayOfMonthRestricted e) eqn:Em.
    + destruct Hd as (dt & Hdt & Hle); [done..|].
      destruct (wf_dayOfMonth e Hwf) as (_ & _ & Hr). rewrite Forall_forall in Hr.
      apply (Hok dt); [specialize (Hr dt Hdt); lia|]. intros t _ E.
      unfold dayMatches. rewrite Em, Ew, E. cbn [andb]. by apply has_elem.
    + apply (Hok 1); [lia|]. intros t _ _. unfold dayMatches. by rewrite Em, Ew.
Qed.
Lemma satisfiable_match e after :
  wf_cron e -> satisfiable e ->
  exists T, matches e T /\ after < T <= after + 3294 * ms_per_day.
Proof.
  intros Hwf Hs. destruct (leap_year_soon (get_utc_full_year after)) as (y & Hy & Hl).
  destruct (satisfiable_day e y Hwf Hs Hl) as (d & Hd & Hok).
  destruct (wf_values_has _ _ _ (wf_hour e Hwf)) as (h & Hh & Hhr).
  destruct (wf_values_has _ _ _ (wf_minute e Hwf)) as (mi & Hmi & Hmr).
  exists (d * ms_per_day + h * 3600000 + mi * 60000). split.
  - split; [unfold ms_per_day; lia|]. split.
    { apply Hok. unfold day, ms_per_day. lia. }
    split; apply has_elem.
    + replace (get_utc_hours _) with h; [done|]. unfold get_utc_hours, ms_per_day. lia.
    + replace (get_utc_minutes _) with mi; [done|]. unfold get_utc_minutes, ms_per_day. lia.
  - pose proof (year_from_day_spec d) as H1. rewrite Hd in H1.
    pose proof (year_from_day_spec (day after)) as H2.
    fold (get_utc_full_year after) in H2.
    pose proof (day_from_year_mono (get_utc_full_year after + 1) y ltac:(lia)).
    pose proof (day_from_year_mono (y + 1) (get_utc_full_year after + 9) ltac:(lia)).
    assert (day_from_year (get_utc_full_year after + 9)
            <= day_from_year (get_utc_full_year after) + 3292) by (unfold day_from_year; lia).
    unfold day, ms_per_day in *. lia.
Qed.
Lemma match_satisfiable e t : matches e t -> satisfiable e.
Proof.
  intros (_ & [Hm Hd]%andb_true_iff & _). exists (get_utc_month t + 1).
  split; [by apply has_elem|]. intros Em Ew. unfold dayMatches in Hd. rewrite Em, Ew in Hd.
  cbn [andb] in Hd. exists (get_utc_date t). split; [by apply has_elem|].
  unfold get_utc_date, date_from_day, get_utc_month.
  pose proof (month_from_day_spec (day t)) as [Hr H].
  pose proof (month_length_max _ (month_from_day (day t) + 1)
    (in_leap_year_range (year_from_day (day t))) ltac:(lia)) as Hl.
  replace (month_from_day (day t) + 1 - 1) with (month_from_day (day t)) in Hl by lia. lia.
Qed.

(** What the callers of [nextRun] rely on. *)
Lemma nextRun_next e after r :
  0 <= after -> nextRun e after = Some r ->
  after < r /\ matches e r /\ forall u, after < u < r -> ~ matches e u.
Proof. intros Ha. apply nextRun_within_least. by apply (plain_year_after 0). Qed.
Lemma nextRun_None e after :
  wf_cron e -> 0 <= after <= max_time - 3300 * ms_per_day -> nextRun e after = None ->
  forall u, ~ matches e u.
Proof.
  intros Hwf Ha HN u Hu. apply match_satisfiable in Hu as Hs.
  destruct (satisfiable_match e after Hwf Hs) as (T & HT & Hr).
  assert (is_Some (nextRun e after)) as [c Hc]; [|congruence].
  apply (nextRun_finds e Hwf T HT); unfold max_time, ms_per_day in *;
    first [exact MAX_ITERATIONS_val | lia | apply (plain_year_after 0); lia].
Qed.

(** C18. [nextRun] returns a run exactly for the satisfiable expressions: the
    10,000 iterations are enough for every expression some calendar day
    satisfies (the next match is at most nine years away), and an expression no
    day satisfies, such as [0 0 30 2 *], ends in the [RangeError]. *)
Theorem nextRun_total (expr : CronExpression) (after : Z) :
  wf_cron expr -> plain_year after -> Z.abs after <= max_time - 3300 * ms_per_day ->
  is_Some (nextRun expr after) <-> satisfiable expr.
Proof.
  intros Hwf Hy Ha. split.
  - intros [r Hr]. apply nextRun_within_least in Hr as (_ & Hm & _); [|done].
    by eapply match_satisfiable.
  - intros Hs. destruct (satisfiable_match expr after Hwf Hs) as (T & HT & Hr).
    apply (nextRun_finds expr Hwf T HT); unfold max_time, ms_per_day in *;
      first [exact MAX_ITERATIONS_val | lia | done].
Qed.
Theorem nextRun_total_witness :
  is_Some (nextRun (mkCron "" [0] [0] [29] [2] [0; 1; 2; 3; 4; 5; 6] true false) 4102444800000) /\
  ~ is_Some (nextRun (mkCron "" [0] [0] [30] [2] [0; 1; 2; 3; 4; 5; 6] true false) 4102444800000).
Proof.
  assert (Hy : plain_year 4102444800000) by (vm_compute; intros [_ H]; by apply H).
  assert (Hwf : forall d, 1 <= d <= 31 ->
    wf_cron (mkCron "" [0] [0] [d] [2] [0; 1; 2; 3; 4; 5; 6] true false)).
  { intros d Hd. constructor; cbn; (split; [repeat constructor|split; [done|]]);
      repeat constructor; lia. }
  split.
  - apply (nextRun_total _ 4102444800000 (Hwf 29 ltac:(lia)) Hy); [vm_compute; congruence|].
    exists 2. split; [set_solver|]. intros _ _. exists 29. split; [set_solver|].
    vm_compute. congruence.
  - rewrite (nextRun_total _ 4102444800000 (Hwf 30 ltac:(lia)) Hy); [|vm_compute; congruence].
    intros (m & Hm & Hd). destruct Hd as (d & Hd & Hle); [done..|].
    cbn in Hm, Hd. apply list_elem_of_singleton in Hm as ->.
    apply list_elem_of_singleton in Hd as ->. vm_compute in Hle. by apply Hle.
Defined.

Lemma runs_loop_spec e n after :
  0 <= after ->
  let l := runs_loop (nextRun e) after n in
  StronglySorted Z.lt l /\ Forall (fun r => after < r /\ matches e r) l /\
  forall u r, r ∈ l -> after < u <= r -> matches e u -> u ∈ l.
Proof.
  revert after. induction n as [|n IH]; intros after Ha; cbn [runs_loop].
  { split; [constructor|]. split; [constructor|]. set_solver. }
  destruct (nextRun e after) as [c|] eqn:E.
  2: { split; [constructor|]. split; [constructor|]. set_solver. }
  apply nextRun_next in E as (Hlt & Hm & Hno); [|done].
  destruct (IH c ltac:(lia)) as (Hs & Hf & Hc). split; [|split].
  - constructor; [done|]. eapply Forall_impl; [exact Hf|]. cbn. lia.
  - constructor; [done|]. eapply Forall_impl; [exact Hf|]. cbn. intros r [??]. split; [lia|done].
  - intros u r Hr Hu Hmu. destruct (Z.lt_trichotomy u c) as [H|[->|H]];
      [by destruct (Hno u ltac:(lia))|set_solver|].
    apply elem_of_cons in Hr as [->|Hr]; [lia|]. apply elem_of_cons. right.
    apply (Hc u r); [done|lia|done].
Qed.
Lemma runs_loop_length e n after :
  wf_cron e -> satisfiable e -> 0 <= after ->
  after + Z.of_nat n * (3294 * ms_per_day) <= max_time - 3300 * ms_per_day ->
  length (runs_loop (nextRun e) after n) = n.
Proof.
  intros Hwf Hs. revert after. induction n as [|n IH]; intros after Ha Hb; cbn [runs_loop]; [done|].
  pose proof (plain_year_after 0 after (Z.le_refl 0) Ha) as Hy.
  destruct (satisfiable_match e after Hwf Hs) as (T & HT & Hr).
  assert (is_Some (nextRun e after)) as [c E].
  { apply (nextRun_finds e Hwf T HT); try exact Hy; unfold max_time, ms_per_day in *;
      first [exact MAX_ITERATIONS_val | lia]. }
  rewrite E. cbn [length]. f_equal. apply nextRun_next in E as (Hlt & _ & Hno); [|done].
  assert (c <= T) by (destruct (Z.le_gt_cases c T); [done|]; destruct (Hno T); [lia|done]).
  apply IH; unfold ms_per_day in *; lia.
Qed.

(** [nextRuns] enumerates the schedule: the list is strictly increasing,
    every element is a matching minute after [after], no matching minute up to
    any listed one is left out, and for a satisfiable expression there are
    exactly [limit] of them. *)
Theorem nextRuns_enumerates (expr : CronExpression) (after : Z) (limit : nat) :
  0 <= after ->
  let l := nextRuns expr after limit in
  StronglySorted Z.lt l /\ Forall (fun r => after < r /\ matches expr r) l /\
  (forall u r, r ∈ l -> after < u <= r -> matches expr u -> u ∈ l) /\
  (wf_cron expr -> satisfiable expr ->
   after + Z.of_nat limit * (3294 * ms_per_day) <= max_time - 3300 * ms_per_day ->
   length l = limit).
Proof.
  intros Ha l. destruct (runs_loop_spec expr limit after Ha) as (H1 & H2 & H3).
  split; [exact H1|]. split; [exact H2|]. split; [exact H3|]. intros Hwf Hs Hb.
  by apply runs_loop_length.
Qed.
Theorem nextRuns_enumerates_witness :
  nextRuns (mkCron "" [0; 30] [9] [29] [2] [0; 1; 2; 3; 4; 5; 6] true false) 1709078400000 2
    = [1709197200000; 1709199000000] /\
  StronglySorted Z.lt
    (nextRuns (mkCron "" [0; 30] [9] [29] [2] [0; 1; 2; 3; 4; 5; 6] true false) 1709078400000 2).
Proof.
  split; [vm_compute; reflexivity|].
  apply (nextRuns_enumerates _ 1709078400000 2). lia.
Defined.
