(* ===== verification/Quotas.v ===== *)
(** [lib/capacity/quotas.ts] and [lib/capacity/windows.ts]: quota limits with
    priority headroom, the admission check, and the scheduling windows of the
    campaign classes.

    Counters are integers (their sums stay far below 2^53); [None] as a number
    of seconds is [NaN]. *)

From S2P Require Import Prelude JsDate JsString JsNumber JsValue CronParser CronNextRun.
From stdpp Require Import base list sets fin_sets strings numbers.
From Stdlib Require Import ZArith Lia Ascii.
#[local] Open Scope Z_scope.

(** ** Classes *)

Inductive CampaignClass : Type := interactive | nightly | deep.
#[export] Instance CampaignClass_eq_dec : EqDecision CampaignClass.
Proof. solve_decision. Defined.

Definition CAMPAIGN_CLASSES : list CampaignClass := [interactive; nightly; deep].
Definition CAMPAIGN_CLASS_PRIORITY (c : CampaignClass) : Z :=
  match c with interactive => 0 | nightly => 1 | deep => 2 end.
Definition RESERVED_HEADROOM_BPS (c : CampaignClass) : Z :=
  match c with interactive => 0 | nightly => 1000 | deep => 2500 end.
Definition DEFAULT_SEEDS_BY_CLASS (c : CampaignClass) : Z :=
  match c with interactive => 1000 | nightly => 100000 | deep => 10000000 end.
Definition RESOURCE_UNITS_PER_SEED (c : CampaignClass) : Z :=
  match c with interactive => 1 | nightly => 2 | deep => 4 end.
Definition DEFAULT_QUOTA_SCOPE : string := "global".

Definition class_of_string (s : string) : option CampaignClass :=
  if decide (s = "interactive") then Some interactive
  else if decide (s = "nightly") then Some nightly
  else if decide (s = "deep") then Some deep else None.
(** [isCampaignClass], with the class it narrows to. *)
Definition isCampaignClass (value : json) : option CampaignClass :=
  match value with JStr s => class_of_string s | _ => None end.
Definition campaignClassForPreset (preset : option json) : option CampaignClass :=
  match preset with
  | Some (JStr s) =>
      if decide (s = "smoke") then Some interactive
      else if decide (s = "nightly") then Some nightly
      else if decide (s = "deep") then Some deep else None
  | _ => None
  end.

(** ** Limits *)

Inductive QuotaResource : Type := concurrent_workers | seeds_per_day | rpc_calls_per_day | storage_bytes.
Record QuotaLimits : Type := mkLimits
  { lim_concurrentWorkers : option Z; lim_seedsPerDay : option Z;
    lim_rpcCallsPerDay : option Z; lim_storageBytes : option Z }.
Record QuotaUsage : Type := mkUsage
  { activeWorkers : Z; seedsToday : Z; rpcCallsToday : Z; storageBytes : Z }.
Record ResourceRequest : Type := mkRequest
  { req_class : CampaignClass; req_workers : Z; req_seeds : Z; req_rpcCalls : Z }.
Record QuotaViolation : Type := mkViolation
  { v_resource : QuotaResource; v_limit : Z; v_used : Z; v_requested : Z }.
(** [retryAfterSeconds] of a rejection: [None] is [null], [Some None] is [NaN]. *)
Inductive AdmissionDecision : Type :=
  | Allowed
  | Rejected (violation : QuotaViolation) (retryAfterSeconds : option (option Z)).

(** [limit - Math.floor((limit * bps) / 10000)] in double arithmetic. *)
Definition effectiveLimit (limit : Z) (campaignClass : CampaignClass) : Z :=
  limit - floor_double
    (double_ratio (to_double (limit * RESERVED_HEADROOM_BPS campaignClass)) 10000).

(** *** Reading limits from the environment *)

(** [/^\s*\d+(\.\d+)?\s*$/]: the decimal as [digits / 10 ^ decimals]. *)
Definition parse_decimal (raw : string) : option (Z * Z) :=
  match split_on "." (trim raw) with
  | [w] => n ← parse_digits w; Some (n, 1)
  | [w; f] =>
      n ← parse_digits w; m ← parse_digits f;
      Some (n * 10 ^ js_length f + m, 10 ^ js_length f)
  | _ => None
  end.
(** [scale] is a power of two, given by its exponent. *)
Definition readLimit (raw : option string) (log_scale : Z) : option Z :=
  match raw with
  | None => None
  | Some s =>
      match parse_decimal s with
      | None => None
      | Some (n, d) =>
          let number := double_ratio n d in
          let value := scale_double log_scale number in
          if finite_double value && (0 <? value.1) then Some (floor_double value) else None
      end
  end.
Definition LOG_BYTES_PER_GB : Z := 30.
Record QuotaEnv : Type := mkEnv
  { env_concurrentWorkers : option string; env_seedsPerDay : option string;
    env_rpcCallsPerDay : option string; env_storageGb : option string }.
Definition parseQuotaLimits (raw : QuotaEnv) : QuotaLimits :=
  {| lim_concurrentWorkers := readLimit (env_concurrentWorkers raw) 0;
     lim_seedsPerDay := readLimit (env_seedsPerDay raw) 0;
     lim_rpcCallsPerDay := readLimit (env_rpcCallsPerDay raw) 0;
     lim_storageBytes := readLimit (env_storageGb raw) LOG_BYTES_PER_GB |}.

Example read_limits :
  parseQuotaLimits (mkEnv (Some " 8 ") (Some "abc") (Some "0") (Some "1.5"))
  = mkLimits (Some 8) None None (Some 1610612736) /\
  readLimit (Some "0.5") 0 = Some 0.
Proof. vm_compute. done. Qed.

(** ** The admission check *)

(** [Math.ceil(n / 1000)], exact for the differences of two dates. *)
Definition ceil_seconds (ms : Z) : Z := - (- ms / 1000).
Definition secondsUntilNextUtcDay (now : Z) : option Z :=
  next ← date_utc (get_utc_full_year now) (get_utc_month now) (get_utc_date now + 1) 0 0 0 0;
  Some (Z.max (ceil_seconds (next - now)) 1).
Definition WORKER_RETRY_SECONDS : Z := 60.

Fixpoint run_checks (campaignClass : CampaignClass)
    (checks : list (QuotaResource * option Z * Z * Z * option (option Z)))
  : option AdmissionDecision :=
  match checks with
  | [] => None
  | (resource, rawLimit, used, requested, retryAfterSeconds) :: checks' =>
      match rawLimit with
      | None => run_checks campaignClass checks'
      | Some raw =>
          let limit := effectiveLimit raw campaignClass in
          if limit <? used + requested
          then Some (Rejected (mkViolation resource limit used requested) retryAfterSeconds)
          else run_checks campaignClass checks'
      end
  end.
Definition checkAdmission (limits : QuotaLimits) (usage : QuotaUsage) (request : ResourceRequest)
    (now : Z) : AdmissionDecision :=
  let checks :=
    [ (concurrent_workers, lim_concurrentWorkers limits, activeWorkers usage,
        req_workers request, Some (Some WORKER_RETRY_SECONDS));
      (seeds_per_day, lim_seedsPerDay limits, seedsToday usage, req_seeds request,
        Some (secondsUntilNextUtcDay now));
      (rpc_calls_per_day, lim_rpcCallsPerDay limits, rpcCallsToday usage, req_rpcCalls request,
        Some (secondsUntilNextUtcDay now)) ] in
  match run_checks (req_class request) checks with
  | Some d => d
  | None =>
      match lim_storageBytes limits with
      | None => Allowed
      | Some raw =>
          let limit := effectiveLimit raw (req_class request) in
          if limit <=? storageBytes usage
          then Rejected (mkViolation storage_bytes limit (storageBytes usage) 0) None
          else Allowed
      end
  end.

(** ** Scheduling windows *)

Record SchedulingWindow : Type := mkWindow { startMinute : Z; endMinute : Z }.
Record SchedulingWindows : Type := mkWindows
  { win_nightly : option SchedulingWindow; win_deep : option SchedulingWindow }.
Definition MINUTES_PER_DAY : Z := 1440.

Definition digit2 (a b : ascii) : option Z :=
  if is_digit a && is_digit b then Some ((code a - 48) * 10 + (code b - 48)) else None.
(** [/^\d\d:\d\d$/], split into the two numbers. *)
Definition clock_parts (value : string) : option (Z * Z) :=
  match value with
  | String a (String b (String x (String c (String d EmptyString)))) =>
      if decide (x = ":"%char) then h ← digit2 a b; m ← digit2 c d; Some (h, m) else None
  | _ => None
  end.
Definition parseClock (value : string) : option Z :=
  '(h, m) ← clock_parts value;
  if (h <=? 23) && (m <=? 59) then Some (h * 60 + m) else None.

(** [/^([a-z]+)=(\d\d:\d\d)-(\d\d:\d\d)$/]: the three groups. *)
Definition is_lower (c : ascii) : bool := (97 <=? code c) && (code c <=? 122).
Definition match_entry (entry : string) : option (string * string * string) :=
  match split_on "=" entry with
  | [cls; range] =>
      match split_on "-" range with
      | [from; to] =>
          if bool_decide (cls <> "") && all_chars is_lower cls &&
             bool_decide (is_Some (clock_parts from)) && bool_decide (is_Some (clock_parts to))
          then Some (cls, from, to) else None
      | _ => None
      end
  | _ => None
  end.
Definition quoted (s : string) : string := cat [dq; s; dq].
Definition parse_window_entry (acc : SchedulingWindows * list string) (entry : string)
  : SchedulingWindows * list string :=
  let '(windows, errors) := acc in
  match match_entry entry with
  | None => (windows, errors ++ [cat [quoted entry; ": expected <class>=HH:MM-HH:MM"]])
  | Some (cls, from, to) =>
      if negb (bool_decide (cls = "nightly")) && negb (bool_decide (cls = "deep")) then
        (windows, errors ++ [cat [quoted entry; ": only nightly and deep campaigns can be windowed"]])
      else
        match parseClock from, parseClock to with
        | Some s, Some e =>
            if s =? e then (windows, errors ++ [cat [quoted entry; ": invalid or empty time range"]])
            else if decide (cls = "nightly")
            then (mkWindows (Some (mkWindow s e)) (win_deep windows), errors)
            else (mkWindows (win_nightly windows) (Some (mkWindow s e)), errors)
        | _, _ => (windows, errors ++ [cat [quoted entry; ": invalid or empty time range"]])
        end
  end.
Definition no_windows : SchedulingWindows := mkWindows None None.
Definition parseSchedulingWindows (raw : option string) : SchedulingWindows * list string :=
  match raw with
  | None => (no_windows, [])
  | Some s =>
      if decide (trim s = "") then (no_windows, [])
      else foldl parse_window_entry (no_windows, [])
             (filter (fun e => e <> "") (trim <$> split_on "," s))
  end.

Definition windowFor (windows : SchedulingWindows) (campaignClass : CampaignClass)
  : option SchedulingWindow :=
  match campaignClass with
  | interactive => None
  | nightly => win_nightly windows
  | deep => win_deep windows
  end.
Definition minuteOfDay (now : Z) : Z := get_utc_hours now * 60 + get_utc_minutes now.
Definition contains (window : SchedulingWindow) (minute : Z) : bool :=
  if startMinute window <? endMinute window
  then (startMinute window <=? minute) && (minute <? endMinute window)
  else (startMinute window <=? minute) || (minute <? endMinute window).
Definition isWindowOpen (windows : SchedulingWindows) (campaignClass : CampaignClass) (now : Z)
  : bool :=
  match windowFor windows campaignClass with
  | None => true
  | Some window => contains window (minuteOfDay now)
  end.
Definition secondsUntilWindowOpens (windows : SchedulingWindows) (campaignClass : CampaignClass)
    (now : Z) : Z :=
  match windowFor windows campaignClass with
  | None => 0
  | Some window =>
      let minute := minuteOfDay now in
      if contains window minute then 0
      else
        let minutesAhead := (startMinute window - minute + MINUTES_PER_DAY) mod MINUTES_PER_DAY in
        Z.max (minutesAhead * 60 - get_utc_seconds now) 1
  end.
(** [String(n).padStart(2, '0')]. *)
Definition pad2 (n : Z) : string :=
  let s := num_to_string n in if js_length s <? 2 then String "0" s else s.
Definition clock (m : Z) : string := cat [pad2 (m / 60); ":"; pad2 (m mod 60)].
Definition formatWindow (window : SchedulingWindow) : string :=
  cat [clock (startMinute window); "-"; clock (endMinute window); " UTC"].

Example windows_example :
  parseSchedulingWindows (Some "deep=00:00-06:00, nightly=20:00-08:00,interactive=01:00-02:00")
  = (mkWindows (Some (mkWindow 1200 480)) (Some (mkWindow 0 360)),
     [cat [quoted "interactive=01:00-02:00";
           ": only nightly and deep campaigns can be windowed"]]).
Proof. vm_compute. reflexivity. Qed.

(** ** Specification *)

(** Limits on which the double arithmetic of [effectiveLimit] is exact (up to
    3.6e12: the counts the routes accept are at most 1e12). *)
Definition exact_limit (l : Z) : Prop := 0 <= l <= 3600000000000.
Definition exact_limits (limits : QuotaLimits) : Prop :=
  forall l, (lim_concurrentWorkers limits = Some l \/ lim_seedsPerDay limits = Some l \/
             lim_rpcCallsPerDay limits = Some l \/ lim_storageBytes limits = Some l) ->
            exact_limit l.
(** The share of a limit a class may use: everything but its headroom. *)
Definition class_share (limit : Z) (c : CampaignClass) : Z :=
  limit - limit * RESERVED_HEADROOM_BPS c / 10000.
Definition within (limit : option Z) (c : CampaignClass) (amount : Z) : Prop :=
  match limit with None => True | Some l => amount <= class_share l c end.
(** The request fits: used and requested together stay within the class's
    share of every limit, and storage is below its share. *)
Record fits (limits : QuotaLimits) (usage : QuotaUsage) (r : ResourceRequest) : Prop := mkFits {
  fits_workers : within (lim_concurrentWorkers limits) (req_class r) (activeWorkers usage + req_workers r);
  fits_seeds : within (lim_seedsPerDay limits) (req_class r) (seedsToday usage + req_seeds r);
  fits_rpc : within (lim_rpcCallsPerDay limits) (req_class r) (rpcCallsToday usage + req_rpcCalls r);
  fits_storage : within (lim_storageBytes limits) (req_class r) (storageBytes usage + 1) }.

Lemma effectiveLimit_share l c : exact_limit l -> effectiveLimit l c = class_share l c.
Proof.
  unfold exact_limit, effectiveLimit, class_share. intros Hl.
  assert (0 <= l * RESERVED_HEADROOM_BPS c <= 9000000000000000)
    by (destruct c; cbn [RESERVED_HEADROOM_BPS]; lia).
  rewrite to_double_exact by lia. f_equal. apply floor_double_ratio; [|lia].
  change (2 ^ 53) with 9007199254740992. lia.
Qed.
Lemma class_share_range l c : 0 <= l -> 0 <= class_share l c <= l.
Proof. unfold class_share. destruct c; cbn [RESERVED_HEADROOM_BPS]; lia. Qed.
Lemma class_share_priority l c c' :
  0 <= l -> CAMPAIGN_CLASS_PRIORITY c' <= CAMPAIGN_CLASS_PRIORITY c ->
  class_share l c <= class_share l c'.
Proof. unfold class_share. destruct c, c'; cbn; lia. Qed.

Lemma secondsUntilNextUtcDay_spec now :
  0 <= now <= max_time - ms_per_day ->
  exists s, secondsUntilNextUtcDay now = Some s /\ 1 <= s <= 86400 /\
    day (now + 1000 * s) = day now + 1 /\
    forall t, now <= t <= now + 1000 * (s - 1) -> day t = day now.
Proof.
  intros Hn. unfold secondsUntilNextUtcDay, date_utc.
  pose proof (plain_year_after 0 now (Z.le_refl 0) (proj1 Hn)) as Hy. unfold plain_year in Hy.
  destruct ((0 <=? _) && _) eqn:Eb; [bools; lia|]. clear Eb Hy.
  rewrite next_date_day.
  assert (E : time_clip (make_date (day now + 1) (make_time 0 0 0 0))
              = Some (make_date (day now + 1) 0)).
  { apply time_clip_Some. unfold make_date, make_time, max_time, day, ms_per_day in *. lia. }
  rewrite E. eexists. split; [reflexivity|].
  unfold ceil_seconds, make_date, day, ms_per_day in *. split; [lia|]. split; [lia|].
  intros t Ht. lia.
Qed.

Lemma run_checks_None c checks :
  Forall (fun k => let '(_, raw, _, _, _) := k in forall l, raw = Some l -> exact_limit l) checks ->
  run_checks c checks = None <->
  Forall (fun k => let '(_, raw, used, req, _) := k in within raw c (used + req)) checks.
Proof.
  induction checks as [|[[[[res raw] used] req] retry] checks IH]; intros Hex; [done|].
  apply Forall_cons_1 in Hex as [Hl Hex]. rewrite Forall_cons_iff. cbn [run_checks within].
  destruct raw as [l|]; [|rewrite IH by done; cbn; tauto].
  rewrite effectiveLimit_share by auto. cbn.
  destruct (Z.ltb_spec (class_share l c) (used + req)); [split; [done|lia]|].
  rewrite IH by done. intuition.
Qed.
Lemma run_checks_Some c checks d :
  Forall (fun k => let '(_, raw, _, _, _) := k in forall l, raw = Some l -> exact_limit l) checks ->
  run_checks c checks = Some d ->
  exists res l used req retry, (res, Some l, used, req, retry) ∈ checks /\
    d = Rejected (mkViolation res (class_share l c) used req) retry /\
    class_share l c < used + req.
Proof.
  induction checks as [|[[[[res raw] used] req] retry] checks IH]; intros Hex H; [done|].
  apply Forall_cons_1 in Hex as [Hl Hex]. cbn [run_checks] in H.
  assert (Hrec : run_checks c checks = Some d ->
    exists res' l used' req' retry',
      (res', Some l, used', req', retry') ∈ (res, raw, used, req, retry) :: checks /\
      d = Rejected (mkViolation res' (class_share l c) used' req') retry' /\
      class_share l c < used' + req').
  { intros H'. destruct (IH Hex H') as (? & ? & ? & ? & ? & Hin & ?).
    do 5 eexists. split; [right; exact Hin|done]. }
  destruct raw as [l|]; [|by apply Hrec]. rewrite effectiveLimit_share in H by auto.
  destruct (Z.ltb_spec (class_share l c) (used + req)); [|by apply Hrec].
  injection H as <-. do 5 eexists. split; [left|]. split; [reflexivity|lia].
Qed.

Lemma checkAdmission_cases (limits : QuotaLimits) (usage : QuotaUsage) (r : ResourceRequest)
    (now : Z) :
  exact_limits limits -> 0 <= now <= max_time - ms_per_day ->
  (checkAdmission limits usage r now = Allowed <-> fits limits usage r) /\
  forall v retry, checkAdmission limits usage r now = Rejected v retry ->
    match v_resource v with
    | storage_bytes => v_limit v <= v_used v /\ v_requested v = 0 /\ retry = None
    | concurrent_workers => v_limit v < v_used v + v_requested v /\ retry = Some (Some 60)
    | _ => v_limit v < v_used v + v_requested v /\
           exists s, retry = Some (Some s) /\ day (now + 1000 * s) = day now + 1 /\
             forall t, now <= t <= now + 1000 * (s - 1) -> day t = day now
    end.
Proof.
  intros Hex Hn. destruct (secondsUntilNextUtcDay_spec now Hn) as (s & Es & Hs1 & Hs2 & Hs3).
  unfold checkAdmission. rewrite Es.
  set (checks := [_; _; _]). set (c := req_class r).
  assert (Hch : Forall (fun k => let '(_, raw, _, _, _) := k in
                  forall l, raw = Some l -> exact_limit l) checks).
  { repeat (apply Forall_cons_2; [intros l Hl; apply Hex; auto|]). apply Forall_nil_2. }
  assert (Hst : forall raw, lim_storageBytes limits = Some raw -> exact_limit raw)
    by (intros raw Hraw; apply Hex; auto).
  destruct (run_checks c checks) as [d|] eqn:Er.
  - split.
    + apply run_checks_Some in Er as (res & l & used & req & retry & Hin & -> & Hlt); [|done].
      split; [done|]. intros [Hw Hse Hr _]. exfalso. unfold checks in Hin.
      repeat (apply elem_of_cons in Hin as [Heq|Hin];
        [injection Heq as -> El -> -> _; rewrite <- El in *; unfold within in *; fold c in Hw, Hse, Hr; lia|]).
      by apply elem_of_nil in Hin.
    + intros v retry ->. apply run_checks_Some in Er as (res & l & used & req & ret & Hin & E & Hlt);
        [|done]. injection E as -> ->. cbn. unfold checks in Hin.
      apply elem_of_cons in Hin as [[= -> _ _ _ ->]|Hin]; [done|].
      apply elem_of_cons in Hin as [[= -> _ _ _ ->]|Hin]; [split; [done|exists s; done]|].
      apply elem_of_cons in Hin as [[= -> _ _ _ ->]|Hin]; [split; [done|exists s; done]|].
      by apply elem_of_nil in Hin.
  - apply run_checks_None in Er; [|done].
    unfold checks in Er. rewrite !Forall_cons_iff in Er. destruct Er as (H1 & H2 & H3 & _).
    destruct (lim_storageBytes limits) as [raw|] eqn:Eraw.
    + rewrite effectiveLimit_share by auto.
      destruct (Z.leb_spec (class_share raw c) (storageBytes usage)).
      * split; [|by intros v retry [= <- <-]]. split; [done|]. intros [_ _ _ Hf].
        rewrite Eraw in Hf. cbn in Hf. fold c in Hf. lia.
      * split; [|done]. split; [|done]. intros _. constructor; try done.
        rewrite Eraw. cbn. fold c. lia.
    + split; [|done]. split; [|done]. intros _. constructor; try done. by rewrite Eraw.
Qed.
(** Admission is exactly "fits in the class's share": a request is
    admitted iff workers, seeds and RPC calls used plus requested stay within
    each limit less the class's headroom and storage is below its share.  A
    rejection reports a limit that really is exceeded, and its retry hint is
    60 seconds for workers, none for storage, and for the daily limits the
    number of seconds after which (and not a second before) the next UTC day
    has begun. *)
Theorem checkAdmission_spec (limits : QuotaLimits) (usage : QuotaUsage) (r : ResourceRequest)
    (now : Z) :
  exact_limits limits -> 0 <= now <= max_time - ms_per_day ->
  (checkAdmission limits usage r now = Allowed <-> fits limits usage r) /\
  forall v retry, checkAdmission limits usage r now = Rejected v retry ->
    match v_resource v with
    | storage_bytes => v_limit v <= v_used v /\ v_requested v = 0 /\ retry = None
    | concurrent_workers => v_limit v < v_used v + v_requested v /\ retry = Some (Some 60)
    | _ => v_limit v < v_used v + v_requested v /\
           exists s, retry = Some (Some s) /\ day (now + 1000 * s) = day now + 1 /\
             forall t, now <= t <= now + 1000 * (s - 1) -> day t = day now
    end.
Proof. apply checkAdmission_cases. Qed.
Theorem checkAdmission_spec_witness :
  checkAdmission (mkLimits (Some 10) (Some 1000) None None) (mkUsage 4 900 0 0)
    (mkRequest deep 3 100 0) 1609459200000
  = Rejected (mkViolation seeds_per_day 750 900 100) (Some (Some 86400)) /\
  exists s, Some (Some 86400) = Some (Some s) /\
    day (1609459200000 + 1000 * s) = day 1609459200000 + 1.
Proof.
  assert (E : checkAdmission (mkLimits (Some 10) (Some 1000) None None) (mkUsage 4 900 0 0)
    (mkRequest deep 3 100 0) 1609459200000
    = Rejected (mkViolation seeds_per_day 750 900 100) (Some (Some 86400)))
    by (vm_compute; reflexivity).
  split; [exact E|].
  edestruct (checkAdmission_spec (mkLimits (Some 10) (Some 1000) None None) (mkUsage 4 900 0 0)
    (mkRequest deep 3 100 0) 1609459200000) as [_ H].
  - intros l Hl. clear E. unfold exact_limit. naive_solver lia.
  - unfold max_time, ms_per_day. lia.
  - destruct (H _ _ E) as (_ & s & E1 & E2 & _). exists s. split; [exact E1|exact E2].
Defined.

(** Priority: whatever a class is admitted for, every higher-priority
    class is admitted for too; and the headroom is real: while the lower
    classes stay within their share of the workers, an interactive campaign that
    asks for no more than the headroom (a quarter of the limit below deep, a
    tenth below nightly) finds free workers. *)
Theorem checkAdmission_priority (limits : QuotaLimits) (usage : QuotaUsage)
    (c c' : CampaignClass) (workers seeds rpcCalls now : Z) :
  exact_limits limits -> 0 <= now <= max_time - ms_per_day ->
  CAMPAIGN_CLASS_PRIORITY c' <= CAMPAIGN_CLASS_PRIORITY c ->
  (checkAdmission limits usage (mkRequest c workers seeds rpcCalls) now = Allowed ->
   checkAdmission limits usage (mkRequest c' workers seeds rpcCalls) now = Allowed) /\
  (forall l, lim_concurrentWorkers limits = Some l -> activeWorkers usage <= class_share l c ->
   workers <= l * RESERVED_HEADROOM_BPS c / 10000 ->
   within (lim_concurrentWorkers limits) interactive (activeWorkers usage + workers)).
Proof.
  intros Hex Hn Hp. split.
  - intros H. apply checkAdmission_cases; [done|done|].
    apply checkAdmission_cases in H as [H1 H2 H3 H4]; [|done|done].
    assert (Hmono : forall lim x, (forall l, lim = Some l -> exact_limit l) ->
      within lim c x -> within lim c' x).
    { intros [l|] x Hl; cbn; [|done]. specialize (Hl l eq_refl). unfold exact_limit in Hl.
      pose proof (class_share_priority l c c' ltac:(lia) Hp). lia. }
    constructor; cbn in *; (apply Hmono; [intros l Hl; apply Hex; auto|done]).
  - intros l -> Hu Hw. cbn. unfold class_share in *. cbn [RESERVED_HEADROOM_BPS] in *. lia.
Qed.
Theorem checkAdmission_priority_witness :
  checkAdmission (mkLimits (Some 100) None None None) (mkUsage 70 0 0 0) (mkRequest deep 5 0 0)
    1609459200000 = Allowed /\
  checkAdmission (mkLimits (Some 100) None None None) (mkUsage 70 0 0 0) (mkRequest nightly 5 0 0)
    1609459200000 = Allowed.
Proof.
  assert (E : checkAdmission (mkLimits (Some 100) None None None) (mkUsage 70 0 0 0)
    (mkRequest deep 5 0 0) 1609459200000 = Allowed) by (vm_compute; reflexivity).
  split; [exact E|]. revert E.
  apply (checkAdmission_priority (mkLimits (Some 100) None None None) (mkUsage 70 0 0 0)).
  - intros l Hl. unfold exact_limit. naive_solver lia.
  - unfold max_time, ms_per_day. lia.
  - cbn. lia.
Defined.

(** ** Windows *)

Definition wf_window (w : SchedulingWindow) : Prop :=
  0 <= startMinute w < MINUTES_PER_DAY /\ 0 <= endMinute w < MINUTES_PER_DAY /\
  startMinute w <> endMinute w.
Definition wf_windows (ws : SchedulingWindows) : Prop :=
  (forall w, win_nightly ws = Some w -> wf_window w) /\
  (forall w, win_deep ws = Some w -> wf_window w).

Lemma windowFor_wf ws c w : wf_windows ws -> windowFor ws c = Some w -> wf_window w.
Proof. intros [Hn Hd]. destruct c; cbn; [done|apply Hn|apply Hd]. Qed.
Lemma minuteOfDay_div t : minuteOfDay t = t / 60000 mod 1440.
Proof. unfold minuteOfDay, get_utc_hours, get_utc_minutes. lia. Qed.
Lemma contains_true w m :
  contains w m = true <->
  (startMinute w < endMinute w /\ startMinute w <= m < endMinute w) \/
  (endMinute w <= startMinute w /\ (startMinute w <= m \/ m < endMinute w)).
Proof.
  unfold contains. destruct (Z.ltb_spec (startMinute w) (endMinute w));
    rewrite ?andb_true_iff, ?orb_true_iff, ?Z.leb_le, ?Z.ltb_lt; lia.
Qed.

(** The retry hint of a closed window is exact: after
    [secondsUntilWindowOpens] seconds the window is open, at every instant up
    to one second before that it is still closed, and the hint is 0 exactly
    when the window is open now.  Interactive campaigns are never held back. *)
Theorem secondsUntilWindowOpens_exact (ws : SchedulingWindows) (c : CampaignClass) (now : Z) :
  wf_windows ws ->
  let s := secondsUntilWindowOpens ws c now in
  0 <= s <= 86400 /\
  isWindowOpen ws c (now + 1000 * s) = true /\
  (forall t, now <= t <= now + 1000 * (s - 1) -> isWindowOpen ws c t = false) /\
  (s = 0 <-> isWindowOpen ws c now = true) /\
  isWindowOpen ws interactive now = true.
Proof.
  intros Hwf s. subst s. unfold secondsUntilWindowOpens, isWindowOpen.
  destruct (windowFor ws c) as [w|] eqn:Ew.
  2: { repeat split; try lia. }
  apply windowFor_wf in Ew as (Hs & He & Hne); [|done]. unfold MINUTES_PER_DAY in *.
  destruct (contains w (minuteOfDay now)) eqn:Ec.
  { repeat split; try lia. by replace (now + 1000 * 0) with now by lia. }
  assert (Hc : ~ contains w (minuteOfDay now) = true) by congruence.
  rewrite contains_true, minuteOfDay_div in Hc.
  set (a := (startMinute w - minuteOfDay now + 1440) mod 1440).
  assert (Ha : 1 <= a < 1440 /\ (now / 60000 + a) mod 1440 = startMinute w)
    by (unfold a; rewrite minuteOfDay_div; lia).
  assert (Hsec : 0 <= get_utc_seconds now < 60) by (unfold get_utc_seconds; lia).
  rewrite (Z.max_l (a * 60 - get_utc_seconds now) 1) by lia.
  split; [lia|]. split.
  { apply contains_true. rewrite minuteOfDay_div.
    replace ((now + 1000 * (a * 60 - get_utc_seconds now)) / 60000) with (now / 60000 + a)
      by (unfold get_utc_seconds; lia). lia. }
  split; [|split; [split; [lia|done]|done]].
  intros t Ht. apply not_true_iff_false. rewrite contains_true, minuteOfDay_div.
  assert (exists b, t / 60000 = now / 60000 + b /\ 0 <= b < a) as (b & -> & Hb)
    by (exists (t / 60000 - now / 60000); unfold get_utc_seconds in *; lia).
  revert Hc Ha Hb. clear. generalize (now / 60000). intros n. lia.
Qed.
Theorem secondsUntilWindowOpens_exact_witness :
  secondsUntilWindowOpens (mkWindows None (Some (mkWindow 1380 60))) deep 1609502430500 = 39570 /\
  isWindowOpen (mkWindows None (Some (mkWindow 1380 60))) deep (1609502430500 + 1000 * 39570) = true.
Proof.
  split; [vm_compute; reflexivity|].
  change 39570 with (secondsUntilWindowOpens (mkWindows None (Some (mkWindow 1380 60))) deep
    1609502430500).
  apply (secondsUntilWindowOpens_exact (mkWindows None (Some (mkWindow 1380 60))) deep 1609502430500).
  split; intros w [= <-]. unfold wf_window, MINUTES_PER_DAY. cbn. lia.
Defined.

Lemma digit2_range a b n : digit2 a b = Some n -> 0 <= n <= 99.
Proof.
  unfold digit2, is_digit. destruct (_ && _) eqn:E; [|done]. intros [= <-]. bools. lia.
Qed.
Lemma clock_parts_range s h m : clock_parts s = Some (h, m) -> 0 <= h <= 99 /\ 0 <= m <= 99.
Proof.
  destruct s as [|? [|? [|? [|? [|? []]]]]]; try done. cbn. case_decide; [|done]. intros H1.
  apply bind_Some in H1 as (h' & Hh & H1). apply bind_Some in H1 as (m' & Hm & [= <- <-]).
  split; by eapply digit2_range.
Qed.
Lemma parseClock_range s n : parseClock s = Some n -> 0 <= n < MINUTES_PER_DAY.
Proof.
  unfold parseClock. intros H. apply bind_Some in H as ([h m] & Hp & H).
  apply clock_parts_range in Hp. destruct (_ && _) eqn:E; [|done]. injection H as <-. bools.
  unfold MINUTES_PER_DAY. lia.
Qed.
Lemma parse_window_entry_wf acc entry :
  wf_windows acc.1 -> wf_windows (parse_window_entry acc entry).1.
Proof.
  destruct acc as [ws errs]. cbn [fst]. intros Hwf. unfold parse_window_entry.
  destruct (match_entry entry) as [[[cls from] to]|]; [|done].
  destruct (_ && _); [done|]. destruct (parseClock from) as [s|] eqn:Es; [|done].
  destruct (parseClock to) as [e|] eqn:Ee; [|done]. destruct (Z.eqb_spec s e); [done|].
  apply parseClock_range in Es, Ee. destruct Hwf as [Hn Hd].
  case_decide; cbn; (split; cbn; [|]); try done; intros w [= <-]; by repeat split; cbn; try lia.
Qed.

(** A clock reading and its text, for the 1440 minutes of a day. *)
Definition clock_char (c : ascii) : bool := is_digit c || bool_decide (c = ":"%char).
Definition clock_ok (m : Z) : bool :=
  bool_decide (clock_parts (clock m) = Some (m / 60, m mod 60)) && all_chars clock_char (clock m).
Lemma clock_table : forallb clock_ok (Z.of_nat <$> seq 0 1440) = true.
Proof. vm_compute. reflexivity. Qed.
Lemma clock_spec m :
  0 <= m < MINUTES_PER_DAY ->
  clock_parts (clock m) = Some (m / 60, m mod 60) /\ all_chars clock_char (clock m) = true.
Proof.
  intros Hm. pose proof clock_table as Ht. rewrite forallb_forall in Ht.
  specialize (Ht m). unfold clock_ok in Ht. rewrite andb_true_iff, bool_decide_eq_true in Ht.
  apply Ht. apply list_elem_of_In, list_elem_of_fmap. exists (Z.to_nat m).
  unfold MINUTES_PER_DAY in Hm. rewrite elem_of_seq. lia.
Qed.
Lemma parseClock_clock m : 0 <= m < MINUTES_PER_DAY -> parseClock (clock m) = Some m.
Proof.
  intros Hm. unfold parseClock. rewrite (proj1 (clock_spec m Hm)). unfold MINUTES_PER_DAY in Hm.
  cbn. rewrite (proj2 (Z.leb_le _ _)), (proj2 (Z.leb_le _ _)) by lia. cbn. f_equal. lia.
Qed.
Lemma clock_char_cases c : clock_char c = true -> is_digit c = true \/ c = ":"%char.
Proof. unfold clock_char. by rewrite orb_true_iff, bool_decide_eq_true. Qed.
Lemma clock_free c s :
  is_digit c = false -> c <> ":"%char -> all_chars clock_char s = true -> free c s.
Proof.
  intros Hc Hne. apply all_chars_impl. intros a Ha.
  apply negb_true_iff, bool_decide_eq_false. intros ->. apply clock_char_cases in Ha as [?|?]; congruence.
Qed.
Lemma clock_no_ws s : all_chars clock_char s = true -> no_ws s.
Proof.
  apply all_chars_impl. intros c [Hd| ->]%clock_char_cases; [by rewrite digit_not_ws|done].
Qed.

(** The configuration text of one class. *)
Definition window_entry (cls : string) (w : SchedulingWindow) : string :=
  cat [cls; "="; clock (startMinute w); "-"; clock (endMinute w)].
Lemma window_entry_shape cls w :
  window_entry cls w
  = (cls ++ String "=" (clock (startMinute w) ++ String "-" (clock (endMinute w))))%string.
Proof. unfold window_entry, cat. cbn [foldr]. by rewrite append_empty. Qed.
Lemma window_entry_chars P cls w :
  wf_window w -> all_chars P cls = true -> P "="%char = true -> P "-"%char = true ->
  (forall c, clock_char c = true -> P c = true) -> all_chars P (window_entry cls w) = true.
Proof.
  intros (Hs & He & _) Hc Heq Hd Hcl. rewrite window_entry_shape, all_chars_app. cbn [all_chars].
  rewrite all_chars_app. cbn [all_chars]. rewrite Hc, Heq, Hd.
  rewrite !(all_chars_impl clock_char P _ Hcl); [done|apply clock_spec; done..].
Qed.
Lemma match_entry_print cls w :
  wf_window w -> cls = "nightly" \/ cls = "deep" ->
  match_entry (window_entry cls w) = Some (cls, clock (startMinute w), clock (endMinute w)).
Proof.
  intros (Hs & He & Hne) Hcls. rewrite window_entry_shape. unfold match_entry.
  destruct (clock_spec _ Hs) as [Hps Hcs]. destruct (clock_spec _ He) as [Hpe Hce].
  assert (Hf : forall c s, is_digit c = false -> c <> ":"%char -> all_chars clock_char s = true ->
    all_chars (fun a => negb (bool_decide (a = c))) s = true) by (intros; by apply clock_free).
  rewrite split_on_app by (by destruct Hcls as [-> | ->]).
  rewrite split_on_free.
  2: { rewrite all_chars_app. cbn [all_chars]. rewrite !Hf by done. done. }
  rewrite split_on_app, split_on_free by (by apply Hf).
  rewrite Hps, Hpe. by destruct Hcls as [-> | ->].
Qed.

(** Whatever the configuration string, every window it yields is
    non-empty and within the day; and the form [formatWindow] prints is read
    back: [nightly=HH:MM-HH:MM,deep=HH:MM-HH:MM] yields exactly the two windows
    and no error. *)
Theorem parseSchedulingWindows_roundtrip (n d : SchedulingWindow) :
  wf_window n -> wf_window d ->
  parseSchedulingWindows
    (Some (join_with "," [window_entry "nightly" n; window_entry "deep" d]))
  = (mkWindows (Some n) (Some d), []) /\
  (forall cls, cat [window_entry cls n; " UTC"] = cat [cls; "="; formatWindow n]) /\
  forall raw, wf_windows (parseSchedulingWindows raw).1.
Proof.
  intros Hn Hd. split; [|split].
  2: { intros cls. unfold window_entry, formatWindow, cat. cbn [foldr].
       by rewrite !append_empty, !append_assoc_r. }
  - assert (Hw : forall cls w, wf_window w -> cls = "nightly" \/ cls = "deep" ->
      no_ws (window_entry cls w) /\ free "," (window_entry cls w)).
    { intros cls w Hww Hcls. split; apply window_entry_chars; try done.
      - by destruct Hcls as [-> | ->].
      - intros c Hc%clock_char_cases. destruct Hc as [Hc| ->]; [by rewrite digit_not_ws|done].
      - by destruct Hcls as [-> | ->].
      - intros c Hc%clock_char_cases. apply negb_true_iff, bool_decide_eq_false.
        intros ->. by destruct Hc. }
    assert (Hnw : no_ws (join_with "," [window_entry "nightly" n; window_entry "deep" d])).
    { change (join_with "," [window_entry "nightly" n; window_entry "deep" d])
        with (window_entry "nightly" n ++ String "," (window_entry "deep" d))%string.
      unfold no_ws. rewrite all_chars_app. cbn [all_chars].
      destruct (Hw "nightly" n) as [H1 _]; auto. destruct (Hw "deep" d) as [H2 _]; auto.
      unfold no_ws in *. by rewrite H1, H2. }
    unfold parseSchedulingWindows. rewrite (trim_no_ws _ Hnw), decide_False by done.
    rewrite split_join.
    2: done.
    2: { repeat apply Forall_cons_2; [apply Hw; auto|apply Hw; auto|apply Forall_nil_2]. }
    cbn [fmap list_fmap]. rewrite !trim_no_ws by (apply Hw; auto).
    rewrite !filter_cons_True by done. rewrite filter_nil. cbn [foldl].
    unfold parse_window_entry. rewrite !match_entry_print by auto.
    destruct Hn as (? & ? & ?), Hd as (? & ? & ?). rewrite !parseClock_clock by done.
    rewrite !(proj2 (Z.eqb_neq _ _)) by done. destruct n, d. reflexivity.
  - intros [s|]; cbn; [|done]. case_decide; [done|].
    assert (H0 : wf_windows ((no_windows, [] : list string).1)) by done.
    revert H0. generalize (no_windows, [] : list string).
    generalize (filter (fun e => e <> "") (trim <$> split_on "," s)).
    intros l. induction l as [|x l IH]; intros acc Hacc; cbn; [done|].
    apply IH. by apply parse_window_entry_wf.
Qed.
Theorem parseSchedulingWindows_roundtrip_witness :
  parseSchedulingWindows (Some "nightly=20:00-08:00,deep=00:00-06:00")
  = (mkWindows (Some (mkWindow 1200 480)) (Some (mkWindow 0 360)), []).
Proof.
  apply (parseSchedulingWindows_roundtrip (mkWindow 1200 480) (mkWindow 0 360));
    unfold wf_window, MINUTES_PER_DAY; cbn; lia.
Defined.
