(* ===== verification/ScheduleStore.v ===== *)
(** [lib/cron/schedule-store.ts] with the state of [app/api/schedules/_store.ts]
    and the handlers of [app/api/schedules/route.ts] and [.../[id]/route.ts]:
    creating, changing and deleting scheduled campaigns.

    A handler takes the scheduler state and returns the new state or the text
    of the 400 or 404 answer; times are the ISO strings the routes write.  The
    [leases] and [sequence] of the state are never read or written by the code
    and are left out. *)

From S2P Require Import Prelude JsDate JsString JsNumber JsValue CronParser CronNextRun Quotas.
From stdpp Require Import base list sets fin_sets gmap strings numbers sorting.
From Stdlib Require Import ZArith Lia Ascii.
#[local] Open Scope Z_scope.

(** ** Data *)

Definition DEFAULT_SCHEDULE_CLASS : CampaignClass := nightly.
Inductive MisfirePolicy : Type := misfire_skip | run_immediately.
Inductive OverlapPolicy : Type := overlap_skip | overlap_allow | overlap_queue.
Record CronPolicy : Type := mkPolicy
  { pol_misfire : MisfirePolicy; pol_catchUpCap : Z; pol_overlap : OverlapPolicy }.
Definition DEFAULT_MISFIRE_POLICY : MisfirePolicy := run_immediately.
Definition DEFAULT_OVERLAP_POLICY : OverlapPolicy := overlap_skip.
Definition DEFAULT_CATCH_UP_CAP : Z := 3.

Record Schedule : Type := mkSchedule
  { sch_id : string; sch_name : string; sch_cron : string; sch_enabled : bool;
    sch_createdAt : string; sch_updatedAt : string; sch_lastRunAt : option string;
    sch_class : option CampaignClass; sch_policy : option CronPolicy }.
Definition SCHEDULED_RUN_TAG : string := "scheduled".
Record ScheduledRun : Type := mkRun
  { run_id : string; run_scheduleId : string; run_scheduleName : string; run_cron : string;
    run_scheduledFor : string; run_executedAt : string; run_tickCount : Z; run_caughtUp : bool;
    run_tags : list string; run_idempotencyKey : string; run_class : CampaignClass }.
Inductive ExecutionOutcome : Type := success | failed | skipped_overlap | misfired.
Record ExecutionLedgerEntry : Type := mkEntry
  { ent_scheduleId : string; ent_scheduleName : string; ent_plannedAt : string;
    ent_runId : string; ent_outcome : ExecutionOutcome; ent_startedAt : string;
    ent_finishedAt : string }.
Definition ExecutionLedger : Type := gmap string (list ExecutionLedgerEntry).
Record SchedulerState : Type := mkState
  { st_schedules : list Schedule; st_history : list ScheduledRun; st_ledger : ExecutionLedger }.

(** ** Pure helpers *)

Definition MAX_SCHEDULE_NAME_LENGTH : Z := 80.
Definition validateScheduleName (name : string) (existing : list Schedule) (selfId : option string)
  : option string :=
  let trimmed := trim name in
  if decide (trimmed = "") then Some "Schedule name cannot be empty."
  else if MAX_SCHEDULE_NAME_LENGTH <? js_length trimmed
  then Some "Schedule name cannot exceed 80 characters."
  else if existsb (fun s => negb (bool_decide (Some (sch_id s) = selfId)) &&
                            bool_decide (to_lower (sch_name s) = to_lower trimmed)) existing
  then Some "A schedule with that name already exists."
  else None.
Definition validateCron (expression : string) : option string := cronErrorMessage expression.

Record ScheduleInput : Type := mkScheduleInput
  { in_name : string; in_cron : string; in_enabled : option bool;
    in_class : option CampaignClass; in_misfire : option MisfirePolicy;
    in_catchUpCap : option Z; in_overlap : option OverlapPolicy }.
(** The error of [CronParseError] is its message. *)
Definition createSchedule (input : ScheduleInput) (now id : string) : result string Schedule :=
  match validateCron (in_cron input) with
  | Some e => Err e
  | None =>
      Ok (mkSchedule id (trim (in_name input)) (trim (in_cron input))
            (default true (in_enabled input)) now now None (in_class input)
            (Some (mkPolicy (default DEFAULT_MISFIRE_POLICY (in_misfire input))
                     (default DEFAULT_CATCH_UP_CAP (in_catchUpCap input))
                     (default DEFAULT_OVERLAP_POLICY (in_overlap input)))))
  end.
Definition addSchedule (l : list Schedule) (s : Schedule) : list Schedule := l ++ [s].

Record SchedulePatch : Type := mkPatch
  { pt_name : option string; pt_cron : option string; pt_enabled : option bool;
    pt_class : option CampaignClass; pt_misfire : option MisfirePolicy;
    pt_overlap : option OverlapPolicy; pt_catchUpCap : option Z }.
Definition no_patch : SchedulePatch := mkPatch None None None None None None None.
(** [a ?? b]. *)
Definition or_else {A} (a b : option A) : option A := match a with Some _ => a | None => b end.
Definition patch_policy (patch : SchedulePatch) (p : option CronPolicy) : option CronPolicy :=
  match pt_misfire patch, pt_overlap patch, pt_catchUpCap patch with
  | None, None, None => p
  | _, _, _ =>
      Some (mkPolicy
        (default DEFAULT_MISFIRE_POLICY (or_else (pt_misfire patch) (pol_misfire <$> p)))
        (default DEFAULT_CATCH_UP_CAP (or_else (pt_catchUpCap patch) (pol_catchUpCap <$> p)))
        (default DEFAULT_OVERLAP_POLICY (or_else (pt_overlap patch) (pol_overlap <$> p))))
  end.
Definition patch_schedule (patch : SchedulePatch) (now : string) (s : Schedule)
  : result string Schedule :=
  let finish cron lastRunAt :=
    Ok (mkSchedule (sch_id s) (match pt_name patch with Some n => trim n | None => sch_name s end)
          cron (default (sch_enabled s) (pt_enabled patch)) (sch_createdAt s) now lastRunAt
          (or_else (pt_class patch) (sch_class s)) (patch_policy patch (sch_policy s))) in
  match pt_cron patch with
  | None => finish (sch_cron s) (sch_lastRunAt s)
  | Some cron =>
      match validateCron cron with
      | Some e => Err e
      | None =>
          finish (trim cron) (if decide (trim cron = sch_cron s) then sch_lastRunAt s else None)
      end
  end.
Fixpoint updateSchedule (l : list Schedule) (id : string) (patch : SchedulePatch) (now : string)
  : result string (list Schedule) :=
  match l with
  | [] => Ok []
  | s :: l' =>
      s' ← (if decide (sch_id s = id) then patch_schedule patch now s else Ok s);
      rest ← updateSchedule l' id patch now;
      Ok (s' :: rest)
  end.
Definition deleteSchedule (l : list Schedule) (id : string) : list Schedule :=
  filter (fun s => sch_id s <> id) l.
Definition setScheduleEnabled (l : list Schedule) (id : string) (enabled : bool) (now : string)
  : result string (list Schedule) :=
  updateSchedule l id (mkPatch None None (Some enabled) None None None None) now.
Definition nextRunForSchedule (s : Schedule) (after : Z) : option Z :=
  match parseCron (sch_cron s) with Ok e => nextRun e after | Err _ => None end.

(** ** Request values *)

Definition nullish (v w : option json) : option json :=
  match v with None | Some JNull => w | _ => v end.
Definition misfire_of_string (s : string) : option MisfirePolicy :=
  if decide (s = "skip") then Some misfire_skip
  else if decide (s = "run-immediately") then Some run_immediately else None.
Definition overlap_of_string (s : string) : option OverlapPolicy :=
  if decide (s = "skip") then Some overlap_skip
  else if decide (s = "allow") then Some overlap_allow
  else if decide (s = "queue") then Some overlap_queue else None.
Definition normalizeMisfirePolicy (raw : option json) : result string (MisfirePolicy * Z) :=
  let '(policy, catchUpCap) :=
    match raw with
    | Some (JObj o) =>
        (nullish (prop "policy" o) (prop "misfire" o),
         nullish (prop "catchUpCap" o) (Some (JNum DEFAULT_CATCH_UP_CAP)))
    | _ => (raw, Some (JNum DEFAULT_CATCH_UP_CAP))
    end in
  let bad := "misfirePolicy must be skip or run-immediately." in
  p ← match policy with
      | None | Some JNull => Ok DEFAULT_MISFIRE_POLICY
      | Some (JStr s) => match misfire_of_string s with Some p => Ok p | None => Err bad end
      | Some _ => Err bad
      end;
  let bad_cap := "misfireCatchUpCap must be an integer between 0 and 100." in
  match catchUpCap with
  | Some (JNum n) => if (n <? 0) || (100 <? n) then Err bad_cap else Ok (p, n)
  | _ => Err bad_cap
  end.
Definition normalizeOverlapPolicy (raw : option json) : result string OverlapPolicy :=
  let policy :=
    match raw with
    | Some (JObj o) => nullish (prop "policy" o) (prop "overlap" o)
    | _ => raw
    end in
  let bad := "overlapPolicy must be skip, allow or queue." in
  match policy with
  | None | Some JNull => Ok DEFAULT_OVERLAP_POLICY
  | Some (JStr s) => match overlap_of_string s with Some p => Ok p | None => Err bad end
  | Some _ => Err bad
  end.

Definition read_string (v : option json) : option string :=
  match v with Some (JStr s) => Some s | _ => None end.
Definition read_bool (v : option json) : option bool :=
  match v with Some (JBool b) => Some b | _ => None end.
(** An optional field that must be valid when present. *)
Definition read_opt {A} (v : option json) (parse : json -> option A) (error : string)
  : result string (option A) :=
  match v with
  | None => Ok None
  | Some j => match parse j with Some a => Ok (Some a) | None => Err error end
  end.
Definition class_error : string := "campaignClass must be interactive, nightly or deep.".

(** ** Handlers *)

(** [POST /api/schedules] with the id the route generates. *)
Definition post_schedule (st : SchedulerState) (body : fields) (now id : string)
  : result string (SchedulerState * Schedule) :=
  let name := default "" (read_string (prop "name" body)) in
  let cron := default "" (read_string (prop "cron" body)) in
  let enabled := read_bool (prop "enabled" body) in
  cls ← read_opt (prop "campaignClass" body) isCampaignClass class_error;
  '(misfire, cap) ← normalizeMisfirePolicy (prop "misfirePolicy" body);
  overlap ← normalizeOverlapPolicy (prop "overlapPolicy" body);
  match validateScheduleName name (st_schedules st) None with
  | Some e => Err e
  | None =>
      s ← createSchedule (mkScheduleInput name cron enabled cls (Some misfire) (Some cap)
                            (Some overlap)) now id;
      Ok (mkState (addSchedule (st_schedules st) s) (st_history st) (st_ledger st), s)
  end.

Definition misfire_of_json (j : json) : option MisfirePolicy :=
  match j with JStr s => misfire_of_string s | _ => None end.
Definition overlap_of_json (j : json) : option OverlapPolicy :=
  match j with JStr s => overlap_of_string s | _ => None end.
Definition cap_of_json (j : json) : option Z :=
  match j with JNum n => if (n <? 0) || (100 <? n) then None else Some n | _ => None end.
Definition parse_patch (body : fields) : result string SchedulePatch :=
  let name := read_string (prop "name" body) in
  let cron := read_string (prop "cron" body) in
  let enabled := read_bool (prop "enabled" body) in
  cls ← read_opt (prop "campaignClass" body) isCampaignClass class_error;
  misfire ← read_opt (prop "misfire" body) misfire_of_json "misfire must be skip or run-immediately.";
  overlap ← read_opt (prop "overlap" body) overlap_of_json "overlap must be skip, allow or queue.";
  cap ← read_opt (prop "catchUpCap" body) cap_of_json
          "catchUpCap must be an integer between 0 and 100.";
  Ok (mkPatch name cron enabled cls misfire overlap cap).
(** [PUT /api/schedules/[id]]. *)
Definition put_schedule (st : SchedulerState) (id : string) (body : fields) (now : string)
  : result string SchedulerState :=
  if negb (existsb (fun s => bool_decide (sch_id s = id)) (st_schedules st))
  then Err "Schedule not found."
  else
    patch ← parse_patch body;
    match pt_name patch ≫= (fun n => validateScheduleName n (st_schedules st) (Some id)) with
    | Some e => Err e
    | None =>
        l ← updateSchedule (st_schedules st) id patch now;
        Ok (mkState l (st_history st) (st_ledger st))
    end.
(** [DELETE /api/schedules/[id]]: history and ledger go with the schedule. *)
Definition delete_schedule (st : SchedulerState) (id : string) : result string SchedulerState :=
  if negb (existsb (fun s => bool_decide (sch_id s = id)) (st_schedules st))
  then Err "Schedule not found."
  else Ok (mkState (deleteSchedule (st_schedules st) id)
             (filter (fun r => run_scheduleId r <> id) (st_history st))
             (delete id (st_ledger st))).

Example post_example :
  post_schedule (mkState [] [] ∅)
    [("name", JStr " Nightly "); ("cron", JStr "0 3 * * *"); ("misfirePolicy", JStr "skip")]
    "2026-03-01T00:00:00.000Z" "sched-1"
  = let s := mkSchedule "sched-1" "Nightly" "0 3 * * *" true "2026-03-01T00:00:00.000Z"
               "2026-03-01T00:00:00.000Z" None None (Some (mkPolicy misfire_skip 3 overlap_skip)) in
    Ok (mkState [s] [] ∅, s).
Proof. vm_compute. reflexivity. Qed.

(** ** The store invariant *)

Record sched_ok (s : Schedule) : Prop := mkSchedOk {
  sok_name : trim (sch_name s) = sch_name s /\ sch_name s <> "" /\
             js_length (sch_name s) <= MAX_SCHEDULE_NAME_LENGTH;
  sok_cron : is_Ok (parseCron (sch_cron s)) /\ trim (sch_cron s) = sch_cron s }.
Definition lower_name (s : Schedule) : string := to_lower (sch_name s).
Record store_ok (l : list Schedule) : Prop := mkStoreOk {
  ok_ids : NoDup (sch_id <$> l);
  ok_names : NoDup (lower_name <$> l);
  ok_each : Forall sched_ok l }.

Lemma validateScheduleName_None name l self :
  validateScheduleName name l self = None ->
  trim name <> "" /\ js_length (trim name) <= MAX_SCHEDULE_NAME_LENGTH /\
  forall s, s ∈ l -> Some (sch_id s) <> self -> lower_name s <> to_lower (trim name).
Proof.
  unfold validateScheduleName. case_decide; [done|].
  destruct (Z.ltb_spec MAX_SCHEDULE_NAME_LENGTH (js_length (trim name))); [done|].
  destruct (existsb _ l) eqn:E; [done|]. intros _. split; [done|]. split; [done|].
  intros s Hs Hid Hn. apply not_true_iff_false in E. apply E. apply existsb_exists. exists s.
  split; [by apply list_elem_of_In|]. rewrite andb_true_iff, negb_true_iff.
  split; [by apply bool_decide_eq_false|by apply bool_decide_eq_true].
Qed.
Lemma validateCron_None c : validateCron c = None -> is_Ok (parseCron c).
Proof. unfold validateCron, cronErrorMessage. destruct (parseCron c) eqn:E; [by eexists|done]. Qed.
Lemma parseCron_trim c : parseCron (trim c) = parseCron c.
Proof. unfold parseCron. by rewrite trim_idem. Qed.

Lemma createSchedule_ok input now id s :
  trim (in_name input) <> "" -> js_length (trim (in_name input)) <= MAX_SCHEDULE_NAME_LENGTH ->
  createSchedule input now id = Ok s ->
  sched_ok s /\ sch_id s = id /\ sch_name s = trim (in_name input) /\ sch_lastRunAt s = None.
Proof.
  intros Hne Hlen. unfold createSchedule. destruct (validateCron _) eqn:E; [done|].
  apply validateCron_None in E. intros [= <-]. split; [|done]. constructor; cbn [sch_name sch_cron].
  - by rewrite trim_idem.
  - by rewrite parseCron_trim, trim_idem.
Qed.
Lemma patch_schedule_ok patch now s s' :
  sched_ok s ->
  (forall n, pt_name patch = Some n ->
     trim n <> "" /\ js_length (trim n) <= MAX_SCHEDULE_NAME_LENGTH) ->
  patch_schedule patch now s = Ok s' ->
  sched_ok s' /\ sch_id s' = sch_id s /\
  sch_name s' = match pt_name patch with Some n => trim n | None => sch_name s end /\
  sch_createdAt s' = sch_createdAt s /\
  sch_lastRunAt s' = if decide (sch_cron s' = sch_cron s) then sch_lastRunAt s else None.
Proof.
  intros [Hn Hc] Hp H.
  assert (Hname : trim match pt_name patch with Some n => trim n | None => sch_name s end
    = match pt_name patch with Some n => trim n | None => sch_name s end /\
    match pt_name patch with Some n => trim n | None => sch_name s end <> "" /\
    js_length match pt_name patch with Some n => trim n | None => sch_name s end
      <= MAX_SCHEDULE_NAME_LENGTH).
  { destruct (pt_name patch) as [n|] eqn:En; [|done]. destruct (Hp n eq_refl). by rewrite trim_idem. }
  unfold patch_schedule in H. destruct (pt_cron patch) as [cron|].
  - destruct (validateCron cron) eqn:E; [done|]. apply validateCron_None in E. injection H as <-.
    split; [|done]. constructor; cbn [sch_name sch_cron]; [done|].
    by rewrite parseCron_trim, trim_idem.
  - injection H as <-. split; [by constructor|]. cbn. by rewrite decide_True.
Qed.
Lemma updateSchedule_spec l id patch now l' :
  updateSchedule l id patch now = Ok l' ->
  Forall2 (fun s s' => (sch_id s <> id /\ s' = s) \/
                       (sch_id s = id /\ patch_schedule patch now s = Ok s')) l l'.
Proof.
  revert l'. induction l as [|s l IH]; intros l' H; cbn [updateSchedule] in H.
  - injection H as <-. constructor.
  - apply bind_Ok in H as (s' & Hs & H). apply bind_Ok in H as (rest & Hr & H).
    injection H as <-. constructor; [|by apply IH].
    destruct (decide (sch_id s = id)); [by right|]. left. by injection Hs as <-.
Qed.
Lemma updateSchedule_absent l id patch now :
  id ∉ sch_id <$> l -> updateSchedule l id patch now = Ok l.
Proof.
  induction l as [|s l IH]; intros Hid; [done|]. cbn [fmap list_fmap] in Hid.
  apply not_elem_of_cons in Hid as [Hne Hid]. cbn [updateSchedule].
  rewrite decide_False by congruence. cbn [mbind result_bind]. by rewrite IH.
Qed.
Lemma updateSchedule_ok l id patch now l' :
  store_ok l ->
  (forall n, pt_name patch = Some n ->
     trim n <> "" /\ js_length (trim n) <= MAX_SCHEDULE_NAME_LENGTH /\
     forall s, s ∈ l -> sch_id s <> id -> lower_name s <> to_lower (trim n)) ->
  updateSchedule l id patch now = Ok l' -> store_ok l' /\ sch_id <$> l' = sch_id <$> l.
Proof.
  intros [Hi Hn He] Hp. revert l' Hi Hn He Hp.
  induction l as [|s l IH]; intros l' Hi Hn He Hp H; cbn [updateSchedule] in H.
  { injection H as <-. split; [|done]. constructor; constructor. }
  cbn [fmap list_fmap] in Hi, Hn. pose proof Hi as Hi0. apply NoDup_cons in Hi as [Hid Hi].
  apply NoDup_cons in Hn as [Hnm Hn]. apply Forall_cons_1 in He as [Hs He].
  apply bind_Ok in H as (s' & Hs' & H). apply bind_Ok in H as (rest & Hr & H). injection H as <-.
  destruct (decide (sch_id s = id)) as [<-|Hne].
  - rewrite updateSchedule_absent in Hr by done. injection Hr as <-.
    apply patch_schedule_ok in Hs' as (Hok & E1 & E2 & _ & _); [|done|].
    2: { intros n En. destruct (Hp n En) as (? & ? & _). done. }
    split; [|cbn; by rewrite E1]. constructor; cbn [fmap list_fmap].
    + by rewrite E1.
    + apply NoDup_cons. split; [|done]. unfold lower_name at 1. rewrite E2.
      destruct (pt_name patch) as [n|] eqn:En; [|done].
      destruct (Hp n eq_refl) as (_ & _ & Hcl). intros Hin.
      apply list_elem_of_fmap in Hin as (x & Hx & Hxl). apply (Hcl x); [by right| |done].
      intros E. apply Hid. rewrite <- E. by apply list_elem_of_fmap_2.
    + by constructor.
  - injection Hs' as <-. destruct (IH rest Hi Hn He) as [[Hi' Hn' He'] Eids]; [|done|].
    { intros n En. destruct (Hp n En) as (? & ? & Hcl). split; [done|]. split; [done|].
      intros x Hx. apply Hcl. by right. }
    split; [|cbn; by rewrite Eids]. constructor; cbn [fmap list_fmap].
    + by rewrite Eids.
    + apply NoDup_cons. split; [|done]. intros Hin.
      apply list_elem_of_fmap in Hin as (x & Hx & Hxl).
      apply updateSchedule_spec in Hr. apply list_elem_of_lookup in Hxl as [i Hxi].
      destruct (Forall2_lookup_r _ _ _ _ _ Hr Hxi) as (y & Hy & [[Hyid ->]|[Hyid Hpy]]).
      * apply Hnm. rewrite Hx. apply list_elem_of_fmap_2. by eapply list_elem_of_lookup_2.
      * pose proof (list_elem_of_lookup_2 _ _ _ Hy) as Hyl.
        apply patch_schedule_ok in Hpy as (_ & _ & E2 & _).
        -- unfold lower_name in Hx. rewrite E2 in Hx. destruct (pt_name patch) as [n|] eqn:En.
           ++ destruct (Hp n eq_refl) as (_ & _ & Hcl). by apply (Hcl s); [left|..].
           ++ apply Hnm. unfold lower_name at 1. rewrite Hx.
              change (to_lower (sch_name y)) with (lower_name y). by apply list_elem_of_fmap_2.
        -- rewrite Forall_forall in He. by apply He.
        -- intros n En. destruct (Hp n En) as (? & ? & _). done.
    + by constructor.
Qed.

(** The handlers keep the schedule store well formed: ids and
    case-insensitive names stay unique, names stay trimmed, non-empty and at
    most 80 characters long, and every stored expression parses.  A created
    schedule is appended and has never fired; an update keeps every id; a
    deletion leaves no schedule, run or ledger entry of the id. *)
Theorem schedule_handlers_ok (st : SchedulerState) :
  store_ok (st_schedules st) ->
  (forall body now id st' s, id ∉ sch_id <$> st_schedules st ->
     post_schedule st body now id = Ok (st', s) ->
     store_ok (st_schedules st') /\ st_schedules st' = st_schedules st ++ [s] /\
     sch_id s = id /\ sch_lastRunAt s = None) /\
  (forall id body now st', put_schedule st id body now = Ok st' ->
     store_ok (st_schedules st') /\ sch_id <$> st_schedules st' = sch_id <$> st_schedules st) /\
  (forall id st', delete_schedule st id = Ok st' ->
     store_ok (st_schedules st') /\ id ∉ sch_id <$> st_schedules st' /\
     id ∉ run_scheduleId <$> st_history st' /\ st_ledger st' !! id = None).
Proof.
  intros Hok. split; [|split].
  - intros body now id st' s Hid H. unfold post_schedule in H.
    apply bind_Ok in H as (cls & _ & H). apply bind_Ok in H as ([m cap] & _ & H).
    apply bind_Ok in H as (ov & _ & H).
    destruct (validateScheduleName _ _ _) eqn:Ev; [done|].
    apply validateScheduleName_None in Ev as (Hne & Hlen & Hcl).
    apply bind_Ok in H as (s0 & Hs & H). injection H as <- <-.
    apply createSchedule_ok in Hs as (Hs & Es & En & El); [|done|done]. cbn [st_schedules].
    split; [|done]. destruct Hok as [Hi Hn He]. unfold addSchedule. constructor.
    + rewrite fmap_app. apply NoDup_app. split; [done|]. split; [|apply NoDup_singleton].
      cbn. intros x Hx Hx'. apply list_elem_of_singleton in Hx' as ->. by rewrite Es in Hx.
    + rewrite fmap_app. apply NoDup_app. split; [done|]. split; [|apply NoDup_singleton].
      cbn. intros x Hx Hx'. apply list_elem_of_singleton in Hx' as ->.
      apply list_elem_of_fmap in Hx as (y & Hy & Hyl). apply (Hcl y Hyl); [done|].
      rewrite <- Hy. unfold lower_name. by rewrite En.
    + apply Forall_app. split; [done|]. by constructor.
  - intros id body now st' H. unfold put_schedule in H. destruct (negb _); [done|].
    apply bind_Ok in H as (patch & _ & H).
    destruct (pt_name patch ≫= _) eqn:Ev; [done|]. apply bind_Ok in H as (l & Hl & [= <-]).
    cbn [st_schedules]. eapply updateSchedule_ok; [done| |exact Hl].
    intros n En. rewrite En in Ev. cbn in Ev.
    apply validateScheduleName_None in Ev as (? & ? & Hcl). split; [done|]. split; [done|].
    intros s Hs Hne. apply Hcl; [done|congruence].
  - intros id st' H. unfold delete_schedule in H. destruct (negb _); [done|]. injection H as <-.
    cbn. destruct Hok as [Hi Hn He]. unfold deleteSchedule.
    split; [constructor|split; [|split]].
    + by apply NoDup_fmap_filter.
    + by apply NoDup_fmap_filter.
    + apply Forall_forall. intros s Hs. apply list_elem_of_filter in Hs as [_ Hs].
      rewrite Forall_forall in He. by apply He.
    + intros Hin. apply list_elem_of_fmap in Hin as (s & -> & Hs).
      by apply list_elem_of_filter in Hs as [? _].
    + intros Hin. apply list_elem_of_fmap in Hin as (r & -> & Hr).
      by apply list_elem_of_filter in Hr as [? _].
    + apply lookup_delete_eq.
Qed.
Theorem schedule_handlers_ok_witness :
  exists st' s, post_schedule (mkState [] [] ∅)
    [("name", JStr " Nightly "); ("cron", JStr "0 3 * * *")] "2026-03-01T00:00:00.000Z" "sched-1"
    = Ok (st', s) /\ store_ok (st_schedules st').
Proof.
  eexists _, _. split; [vm_compute; reflexivity|].
  destruct (schedule_handlers_ok (mkState [] [] ∅)) as [H _].
  - constructor; constructor.
  - eapply (H [("name", JStr " Nightly "); ("cron", JStr "0 3 * * *")] "2026-03-01T00:00:00.000Z"
      "sched-1"); [apply not_elem_of_nil|vm_compute; reflexivity].
Defined.
