(* ===== verification/CapacityLedger.v ===== *)
(** [lib/capacity/usage-ledger.ts] and [lib/capacity/campaign-admission.ts]:
    the leases of admitted campaigns, the usage derived from them, the reading
    of a campaign payload, admission and the mid-run throttle.

    The two [Map]s of [CapacityLedger] are finite maps (every traversal sums or
    sorts, so insertion order is not observable); the clock the class reads is
    an argument [now] of each operation.  The rounding to three decimals of
    [utilization] is left out: [busyMs] is the integer it starts from. *)

From S2P Require Import Prelude JsDate JsString JsNumber JsValue CronParser CronNextRun Quotas.
From stdpp Require Import base list sets fin_sets gmap strings numbers sorting.
From Stdlib Require Import ZArith Lia Ascii.
#[local] Open Scope Z_scope.

(** ** The ledger *)

Definition LEASE_TTL_MS (c : CampaignClass) : Z :=
  match c with interactive => 3600000 | nightly => 28800000 | deep => 86400000 end.
Definition LEASE_HISTORY_MS : Z := 3024000000.

Record CampaignLease : Type := mkLease
  { campaignId : string; scope : string; project : string; campaignClass : CampaignClass;
    workers : Z; seedsReserved : Z; rpcCallsReserved : Z; seedsUsed : Z; rpcCallsUsed : Z;
    lease_day : string; startedAt : Z; expiresAt : Z; finishedAt : option Z }.
Inductive ReportStatus : Type := running | finished.
Record UsageReport : Type := mkReport
  { seedsProcessed : Z; rep_rpcCalls : option Z; rep_storageBytes : option Z; status : ReportStatus }.
Record CostRow : Type := mkRow
  { row_project : string; row_class : CampaignClass; row_seeds : Z; row_resourceUnits : Z }.
Record Ledger : Type := mkLedger { leases : gmap string CampaignLease; storage : gmap string Z }.

(** [new Date(at).toISOString().slice(0, 10)]. *)
Definition utcDay (at_ : Z) : string := String.substring 0 10 (to_iso_string at_).

Definition isActive (lease : CampaignLease) (at_ : Z) : bool :=
  bool_decide (finishedAt lease = None) && (at_ <? expiresAt lease).

Definition lease_end (lease : CampaignLease) : Z := default (expiresAt lease) (finishedAt lease).
Definition prune (l : Ledger) (at_ : Z) : Ledger :=
  mkLedger (filter (fun kv => at_ - LEASE_HISTORY_MS <= lease_end kv.2) (leases l)) (storage l).

(** What the routes ask for ([CampaignResourceRequest]). *)
Record CampaignResourceRequest : Type := mkCampaignRequest
  { cr_scope : string; cr_project : string; cr_resources : ResourceRequest }.

Definition new_lease (id : string) (input : CampaignResourceRequest) (at_ : Z) : CampaignLease :=
  let r := cr_resources input in
  mkLease id (cr_scope input) (cr_project input) (req_class r) (req_workers r) (req_seeds r)
    (req_rpcCalls r) 0 0 (utcDay at_) at_ (at_ + LEASE_TTL_MS (req_class r)) None.
Definition ledger_admit (l : Ledger) (id : string) (input : CampaignResourceRequest) (now : Z)
  : Ledger * CampaignLease :=
  let l' := prune l now in
  let lease := new_lease id input now in
  (mkLedger (<[id := lease]> (leases l')) (storage l'), lease).

Definition get (l : Ledger) (id : string) : option CampaignLease := leases l !! id.

(** The lease after a report at [now]. *)
Definition updated_lease (lease : CampaignLease) (report : UsageReport) (now : Z)
  : CampaignLease :=
  mkLease (campaignId lease) (scope lease) (project lease) (campaignClass lease) (workers lease)
    (seedsReserved lease) (rpcCallsReserved lease)
    (Z.max (seedsUsed lease) (seedsProcessed report))
    (Z.max (rpcCallsUsed lease) (default 0 (rep_rpcCalls report)))
    (lease_day lease) (startedAt lease)
    (match finishedAt lease, status report with
     | None, running => now + LEASE_TTL_MS (campaignClass lease)
     | _, _ => expiresAt lease
     end)
    (match finishedAt lease, status report with
     | None, finished => Some now
     | f, _ => f
     end).
Definition report (l : Ledger) (id : string) (rep : UsageReport) (now : Z)
  : Ledger * option CampaignLease :=
  match leases l !! id with
  | None => (l, None)
  | Some lease =>
      let lease' := updated_lease lease rep now in
      (mkLedger (<[id := lease']> (leases l))
         (match rep_storageBytes rep with
          | Some b => <[scope lease := b]> (storage l)
          | None => storage l
          end),
       Some lease')
  end.

Definition chargedSeeds (lease : CampaignLease) (at_ : Z) : Z :=
  if isActive lease at_ then Z.max (seedsReserved lease) (seedsUsed lease) else seedsUsed lease.
Definition chargedRpcCalls (lease : CampaignLease) (at_ : Z) : Z :=
  if isActive lease at_ then Z.max (rpcCallsReserved lease) (rpcCallsUsed lease)
  else rpcCallsUsed lease.

(** Sum of a quantity over the leases. *)
Definition lease_sum (f : CampaignLease -> Z) (m : gmap string CampaignLease) : Z :=
  foldr (fun kv acc => f kv.2 + acc) 0 (map_to_list m).
Definition in_scope (s : string) (lease : CampaignLease) : bool := bool_decide (scope lease = s).
Definition usage (l : Ledger) (s : string) (now : Z) : QuotaUsage :=
  let today := utcDay now in
  {| activeWorkers := lease_sum (fun lease =>
       if in_scope s lease && isActive lease now then workers lease else 0) (leases l);
     seedsToday := lease_sum (fun lease =>
       if in_scope s lease && bool_decide (lease_day lease = today)
       then chargedSeeds lease now else 0) (leases l);
     rpcCallsToday := lease_sum (fun lease =>
       if in_scope s lease && bool_decide (lease_day lease = today)
       then chargedRpcCalls lease now else 0) (leases l);
     storageBytes := default 0 (storage l !! s) |}.

(** Busy worker-milliseconds over [[from, to)]. *)
Definition lease_overlap (lease : CampaignLease) (from to now : Z) : Z :=
  let e := match finishedAt lease with Some f => f | None => Z.min (expiresAt lease) now end in
  Z.min e to - Z.max (startedAt lease) from.
Definition busyMs (l : Ledger) (s : string) (from to now : Z) : Z :=
  lease_sum (fun lease =>
    if in_scope s lease && (0 <? lease_overlap lease from to now)
    then lease_overlap lease from to now * workers lease else 0) (leases l).

(** Rows of the rollup, keyed by project and class. *)
Definition row_key (lease : CampaignLease) : string * CampaignClass :=
  (project lease, campaignClass lease).
Definition add_row (rows : list CostRow) (lease : CampaignLease) : list CostRow :=
  let units := seedsUsed lease * RESOURCE_UNITS_PER_SEED (campaignClass lease) in
  let fix go (rows : list CostRow) : list CostRow :=
    match rows with
    | [] => [mkRow (project lease) (campaignClass lease) (seedsUsed lease) units]
    | r :: rows' =>
        if decide ((row_project r, row_class r) = row_key lease)
        then mkRow (row_project r) (row_class r) (row_seeds r + seedsUsed lease)
               (row_resourceUnits r + units) :: rows'
        else r :: go rows'
    end in
  go rows.
(** The comparator: project by code units, then class priority. *)
Definition row_le (a b : CostRow) : bool :=
  match String.compare (row_project a) (row_project b) with
  | Lt => true
  | Gt => false
  | Eq => CAMPAIGN_CLASS_PRIORITY (row_class a) <=? CAMPAIGN_CLASS_PRIORITY (row_class b)
  end.
Definition in_rollup (s : string) (from to : Z) (lease : CampaignLease) : bool :=
  in_scope s lease && (from <=? startedAt lease) && (startedAt lease <? to).
Definition costRollup (l : Ledger) (s : string) (from to : Z) : list CostRow :=
  sort_by row_le
    (foldl add_row [] (filter (fun lease => in_rollup s from to lease = true)
                         ((map_to_list (leases l)).*2))).

Definition empty_ledger : Ledger := mkLedger ∅ ∅.

(** ** Reading a campaign payload *)

Definition MAX_WORKERS : Z := 1024.
Definition MAX_COUNT : Z := 1000000000000.
Definition readCount (payload : fields) (field : string) (max : Z)
  : result string (option Z) :=
  match prop field payload with
  | None => Ok None
  | Some (JNum n) =>
      if (n <? 0) || (max <? n)
      then Err (cat [quoted field; " must be an integer from 0 to "; num_to_string max; "."])
      else Ok (Some n)
  | Some _ => Err (cat [quoted field; " must be an integer from 0 to "; num_to_string max; "."])
  end.
(** [[A-Za-z0-9._-]]. *)
Definition project_char (c : ascii) : bool :=
  is_digit c || ((65 <=? code c) && (code c <=? 90)) || ((97 <=? code c) && (code c <=? 122)) ||
  bool_decide (c = "."%char) || bool_decide (c = "_"%char) || bool_decide (c = "-"%char).
Definition read_class (payload : fields) : result string CampaignClass :=
  match prop "campaignClass" payload with
  | Some v =>
      match isCampaignClass v with
      | Some c => Ok c
      | None => Err (cat [quoted "campaignClass"; " must be interactive, nightly or deep."])
      end
  | None => Ok (default interactive (campaignClassForPreset (prop "preset" payload)))
  end.
Definition read_project (payload : fields) : result string string :=
  match prop "project" payload with
  | None => Ok "default"
  | Some (JStr p) =>
      if (1 <=? js_length p) && (js_length p <=? 64) && all_chars project_char p then Ok p
      else Err (cat [quoted "project"; " must be 1-64 of [A-Za-z0-9._-]."])
  | Some _ => Err (cat [quoted "project"; " must be 1-64 of [A-Za-z0-9._-]."])
  end.
Definition deriveCampaignRequest (payload : fields) : result string CampaignResourceRequest :=
  cls ← read_class payload;
  workers ← readCount payload "workers" MAX_WORKERS;
  parallelism ← readCount payload "parallelism" MAX_WORKERS;
  seeds ← readCount payload "seeds" MAX_COUNT;
  rpcCalls ← readCount payload "rpcCalls" MAX_COUNT;
  project ← read_project payload;
  Ok (mkCampaignRequest DEFAULT_QUOTA_SCOPE project
        (mkRequest cls
           (Z.max (default (default 1 parallelism) workers) 1)
           (default (DEFAULT_SEEDS_BY_CLASS cls) seeds)
           (default 0 rpcCalls))).

(** ** Admission and throttling *)

Inductive CampaignAdmission : Type :=
  | AdmissionOk
  | WindowClosed (retryAfterSeconds : Z)
  | QuotaExceeded (violation : QuotaViolation) (retryAfterSeconds : option (option Z)).
Definition evaluateCampaignAdmission (request : CampaignResourceRequest) (limits : QuotaLimits)
    (u : QuotaUsage) (windows : SchedulingWindows) (now : Z) : CampaignAdmission :=
  let cls := req_class (cr_resources request) in
  if negb (isWindowOpen windows cls now)
  then WindowClosed (secondsUntilWindowOpens windows cls now)
  else
    match checkAdmission limits u (cr_resources request) now with
    | Rejected violation retry => QuotaExceeded violation retry
    | Allowed => AdmissionOk
    end.

Definition MAX_OVERRIDE_REASON_LENGTH : Z := 200.
(** [Ok None]: no override asked for. *)
Definition parseOverrideReason (raw : option string) : result string (option string) :=
  match raw with
  | None => Ok None
  | Some raw =>
      let reason := trim raw in
      if (js_length reason =? 0) || (MAX_OVERRIDE_REASON_LENGTH <? js_length reason)
      then Err "X-CrashLab-Quota-Override must carry a reason of 1-200 characters."
      else Ok (Some reason)
  end.

Inductive MidRunThrottle : Type :=
  | NoThrottle
  | ThrottleWindow (retryAfterSeconds : Z)
  | ThrottleQuota (resource : QuotaResource) (retryAfterSeconds : option Z).
Fixpoint daily_throttle (c : CampaignClass) (now : Z)
    (daily : list (QuotaResource * option Z * Z)) : MidRunThrottle :=
  match daily with
  | [] => NoThrottle
  | (resource, limit, used) :: daily' =>
      match limit with
      | Some l =>
          if effectiveLimit l c <? used
          then ThrottleQuota resource (secondsUntilNextUtcDay now)
          else daily_throttle c now daily'
      | None => daily_throttle c now daily'
      end
  end.
Definition evaluateMidRunThrottle (cls : CampaignClass) (is_finished : bool)
    (limits : QuotaLimits) (u : QuotaUsage) (windows : SchedulingWindows) (now : Z)
  : MidRunThrottle :=
  if is_finished then NoThrottle
  else if negb (isWindowOpen windows cls now)
  then ThrottleWindow (secondsUntilWindowOpens windows cls now)
  else daily_throttle cls now
    [ (seeds_per_day, lim_seedsPerDay limits, seedsToday u);
      (rpc_calls_per_day, lim_rpcCallsPerDay limits, rpcCallsToday u) ].

(** [POST /api/capacity/usage] once the body is parsed: [None] is the 404. *)
Definition usage_route (l : Ledger) (id : string) (rep : UsageReport) (limits : QuotaLimits)
    (windows : SchedulingWindows) (now : Z) : Ledger * option (CampaignLease * MidRunThrottle) :=
  match report l id rep now with
  | (l', None) => (l', None)
  | (l', Some lease) =>
      (l', Some (lease,
        evaluateMidRunThrottle (campaignClass lease) (bool_decide (finishedAt lease <> None))
          limits (usage l' (scope lease) now) windows now))
  end.

Example derive_example :
  deriveCampaignRequest [("preset", JStr "deep"); ("parallelism", JNum 8)]
  = Ok (mkCampaignRequest "global" "default" (mkRequest deep 8 10000000 0)) /\
  utcDay 1609502430500 = "2021-01-01".
Proof. vm_compute. done. Qed.

(** ** Sums over leases *)

Lemma lease_sum_perm f (l1 l2 : list (string * CampaignLease)) :
  l1 ≡ₚ l2 -> foldr (fun kv acc => f kv.2 + acc) 0 l1 = foldr (fun kv acc => f kv.2 + acc) 0 l2.
Proof. induction 1; simpl; lia. Qed.
Lemma lease_sum_insert_new f m id x :
  m !! id = None -> lease_sum f (<[id := x]> m) = f x + lease_sum f m.
Proof. intros H. unfold lease_sum. by rewrite (lease_sum_perm f _ _ (map_to_list_insert m id x H)). Qed.
Lemma lease_sum_insert f m id x :
  lease_sum f (<[id := x]> m) = f x + lease_sum f (delete id m).
Proof.
  rewrite <- insert_delete_eq. apply lease_sum_insert_new. apply lookup_delete_eq.
Qed.
Lemma lease_sum_delete f m id x :
  m !! id = Some x -> lease_sum f m = f x + lease_sum f (delete id m).
Proof. intros H. rewrite <- (insert_id m id x H) at 1. apply lease_sum_insert. Qed.
Lemma lease_sum_le f g m :
  (forall id x, m !! id = Some x -> f x <= g x) -> lease_sum f m <= lease_sum g m.
Proof.
  induction m as [|id x m Hid IH] using map_ind; intros H; [unfold lease_sum; by rewrite map_to_list_empty|].
  rewrite !lease_sum_insert_new by done.
  pose proof (H id x ltac:(apply lookup_insert_eq)).
  assert (lease_sum f m <= lease_sum g m).
  { apply IH. intros i y Hy. apply (H i). rewrite lookup_insert_ne; [done|]. congruence. }
  lia.
Qed.
Lemma lease_sum_ext f g m :
  (forall id x, m !! id = Some x -> f x = g x) -> lease_sum f m = lease_sum g m.
Proof.
  intros H. apply Z.le_antisymm; apply lease_sum_le; intros id x Hx; rewrite (H id x Hx); lia.
Qed.
Lemma lease_sum_filter f (P : string * CampaignLease -> Prop) `{!forall kv, Decision (P kv)} m :
  (forall id x, m !! id = Some x -> ~ P (id, x) -> f x = 0) ->
  lease_sum f (filter P m) = lease_sum f m.
Proof.
  induction m as [|id x m Hid IH] using map_ind; intros Hz; [by rewrite map_filter_empty|].
  assert (IH' : lease_sum f (filter P m) = lease_sum f m).
  { apply IH. intros i y Hy. apply Hz. rewrite lookup_insert_ne; [done|]. congruence. }
  rewrite lease_sum_insert_new by done. destruct (decide (P (id, x))) as [HP|HP].
  - rewrite map_filter_insert_True by done. rewrite lease_sum_insert_new; [lia|].
    apply map_lookup_filter_None. by left.
  - rewrite map_filter_insert_False by done. rewrite delete_id by done.
    rewrite (Hz id x (lookup_insert_eq _ _ _) HP). lia.
Qed.

(** ** The worker limit *)

Definition active_in (s : string) (now : Z) (lease : CampaignLease) : Z :=
  if in_scope s lease && isActive lease now then workers lease else 0.
Definition active (l : Ledger) (s : string) (now : Z) : Z := lease_sum (active_in s now) (leases l).
Lemma usage_active l s now : activeWorkers (usage l s now) = active l s now.
Proof. done. Qed.

(** Expired and finished leases never come back by the passing of time, and
    pruning drops only such leases. *)
Lemma isActive_antitone lease t t' : t <= t' -> isActive lease t' = true -> isActive lease t = true.
Proof. unfold isActive. intros Ht H. bools. rewrite bool_decide_eq_true_2 by done. apply Z.ltb_lt. lia. Qed.
Lemma active_prune l s now : 0 <= now -> active (prune l now) s now = active l s now.
Proof.
  intros Hn. apply lease_sum_filter. intros id x _ Hp. unfold active_in, isActive.
  destruct (finishedAt x) eqn:Ef; [by rewrite andb_false_r|].
  cbn in Hp. unfold lease_end in Hp. rewrite Ef in Hp. cbn in Hp.
  destruct (Z.ltb_spec now (expiresAt x)); [|by rewrite !andb_false_r].
  unfold LEASE_HISTORY_MS in Hp. lia.
Qed.

(** One operation of the routes on the ledger while the clock moves on.
    Reports are those of leases that have not lapsed. *)
Inductive ledger_step (limits : QuotaLimits) (windows : SchedulingWindows)
  : Ledger * Z -> Ledger * Z -> Prop :=
  | step_clock l now now' :
      now <= now' -> ledger_step limits windows (l, now) (l, now')
  | step_admit l now id req :
      leases l !! id = None -> 0 <= req_workers (cr_resources req) ->
      evaluateCampaignAdmission req limits (usage l (cr_scope req) now) windows now = AdmissionOk ->
      ledger_step limits windows (l, now) ((ledger_admit l id req now).1, now)
  | step_report l now id rep lease :
      leases l !! id = Some lease -> (isActive lease now = true \/ finishedAt lease <> None) ->
      ledger_step limits windows (l, now) ((report l id rep now).1, now).

Definition ledger_ok (L : Z) (st : Ledger * Z) : Prop :=
  0 <= st.2 /\ (forall id x, leases st.1 !! id = Some x -> 0 <= workers x) /\
  forall s, active st.1 s st.2 <= L.

Lemma active_admit l now id req s :
  0 <= now -> leases l !! id = None ->
  active (ledger_admit l id req now).1 s now
  = active l s now + (if decide (cr_scope req = s) then req_workers (cr_resources req) else 0).
Proof.
  intros Hn Hid. unfold active, ledger_admit. cbn [fst leases].
  assert (Hp : leases (prune l now) !! id = None).
  { cbn. apply map_lookup_filter_None. by left. }
  rewrite lease_sum_insert_new by done.
  fold (active (prune l now) s now). rewrite active_prune by done.
  assert (E : active_in s now (new_lease id req now)
              = if decide (cr_scope req = s) then req_workers (cr_resources req) else 0).
  { unfold active_in, in_scope, isActive, new_lease. cbn.
    assert ((now <? now + LEASE_TTL_MS (req_class (cr_resources req))) = true) as ->
      by (apply Z.ltb_lt; destruct (req_class _); cbn; lia).
    case_decide; [by rewrite bool_decide_eq_true_2 | by rewrite bool_decide_eq_false_2]. }
  unfold active in *. lia.
Qed.
Lemma active_report l now id rep lease s :
  leases l !! id = Some lease ->
  active (report l id rep now).1 s now
  = active l s now - active_in s now lease + active_in s now (updated_lease lease rep now).
Proof.
  intros Hl. unfold active, report. rewrite Hl. cbn [fst leases].
  rewrite lease_sum_insert, (lease_sum_delete _ _ _ _ Hl). lia.
Qed.
Lemma updated_active s now lease rep :
  0 <= workers lease -> isActive lease now = true \/ finishedAt lease <> None ->
  active_in s now (updated_lease lease rep now) <= active_in s now lease.
Proof.
  intros Hw Hc. unfold active_in, in_scope, updated_lease. cbn [scope workers].
  destruct (bool_decide (scope lease = s)); cbn [andb]; [|lia].
  unfold isActive in *. cbn [finishedAt expiresAt].
  destruct (finishedAt lease) as [f|] eqn:Ef.
  - rewrite bool_decide_eq_false_2 by done. cbn. lia.
  - destruct Hc as [Hc|Hc]; [|done]. rewrite Hc.
    clear Hc. case_goal; [apply Z.le_refl|exact Hw].
Qed.
Lemma ledger_step_ok limits windows L st st' :
  exact_limits limits -> lim_concurrentWorkers limits = Some L ->
  ledger_step limits windows st st' -> st'.2 <= max_time - ms_per_day ->
  ledger_ok L st -> ledger_ok L st'.
Proof.
  intros Hex HL Hstep Hmax (Hn & Hw & Ha). destruct Hstep; cbn [fst snd] in *.
  - split; [cbn; lia|]. split; [exact Hw|]. intros s. etransitivity; [|apply (Ha s)].
    apply lease_sum_le. intros id x Hx. unfold active_in. cbn [fst snd] in *.
    destruct (in_scope s x); cbn [andb]; [|lia]. specialize (Hw id x Hx).
    destruct (isActive x now') eqn:E; [|destruct (isActive x now); lia].
    rewrite (isActive_antitone x now now') by done. lia.
  - split; [done|]. split.
    + intros i x. cbn. rewrite lookup_insert_Some. intros [[<- <-]|[_ Hx]]; [done|].
      apply map_lookup_filter_Some in Hx as [Hx _]. by eapply Hw.
    + intros s. cbn [fst snd]. rewrite active_admit by done. cbn [fst snd] in Ha.
      case_decide; [|specialize (Ha s); lia]. subst s.
      unfold evaluateCampaignAdmission in *. destruct (negb _); [done|].
      destruct (checkAdmission _ _ _ _) eqn:Ec; [|done].
      apply checkAdmission_cases in Ec as [Hf _ _ _]; [|done|lia].
      rewrite HL in Hf. cbn [within] in Hf. rewrite usage_active in Hf.
      pose proof (class_share_range L (req_class (cr_resources req))) as Hr.
      assert (exact_limit L) as HLe by (apply Hex; auto). unfold exact_limit in HLe. lia.
  - split; [done|]. split.
    + intros i x. unfold report. destruct (leases l !! id) as [le|] eqn:E; [|apply Hw]. cbn.
      rewrite lookup_insert_Some. intros [[<- <-]|[_ Hx]]; cbn; [by eapply Hw|by eapply Hw].
    + intros s. cbn [fst snd] in *. erewrite active_report by eassumption.
      pose proof (updated_active s now lease rep (Hw _ _ H) H0). specialize (Ha s). lia.
Qed.

Lemma ledger_step_clock limits windows st st' :
  ledger_step limits windows st st' -> st.2 <= st'.2.
Proof. destruct 1; cbn; lia. Qed.
Lemma ledger_run_ok limits windows L st st' :
  exact_limits limits -> lim_concurrentWorkers limits = Some L ->
  rtc (ledger_step limits windows) st st' -> st'.2 <= max_time - ms_per_day ->
  ledger_ok L st -> ledger_ok L st'.
Proof.
  intros Hex HL Hrun. assert (Hclock : st.2 <= st'.2).
  { induction Hrun as [|x y z Hxy Hyz IH]; [lia|]. apply ledger_step_clock in Hxy. lia. }
  clear Hclock. induction Hrun as [|x y z Hxy Hyz IH]; intros Hmax Hok; [done|].
  apply IH; [done|]. eapply ledger_step_ok; try eassumption.
  assert (y.2 <= z.2); [|lia]. clear -Hyz.
  induction Hyz as [|x y z Hxy Hyz IH]; [lia|]. apply ledger_step_clock in Hxy. lia.
Qed.

Definition sample_request (n : Z) : CampaignResourceRequest :=
  mkCampaignRequest "global" "default" (mkRequest interactive n 1000 0).

(** A late report defeats the limit: a [running] report renews a lease
    that has already lapsed, without any admission check, and its workers
    count as active again on top of whatever was admitted in the meantime. *)
Theorem late_report_reactivates (l : Ledger) (id : string) (lease : CampaignLease)
    (rep : UsageReport) (now : Z) :
  leases l !! id = Some lease -> finishedAt lease = None -> expiresAt lease <= now ->
  status rep = running ->
  activeWorkers (usage (report l id rep now).1 (scope lease) now)
  = activeWorkers (usage l (scope lease) now) + workers lease.
Proof.
  intros Hl Hf He Hr. rewrite !usage_active, (active_report _ _ _ _ _ _ Hl).
  assert (E1 : active_in (scope lease) now lease = 0).
  { unfold active_in, isActive. rewrite (proj2 (Z.ltb_ge _ _)) by done. by rewrite !andb_false_r. }
  assert (E2 : active_in (scope lease) now (updated_lease lease rep now) = workers lease).
  { unfold active_in, in_scope, isActive, updated_lease. cbn. rewrite Hf, Hr.
    rewrite !bool_decide_eq_true_2 by done. rewrite (proj2 (Z.ltb_lt _ _)); [done|].
    destruct (campaignClass lease); cbn; lia. }
  lia.
Qed.
(** With a limit of 8: [a] takes 8 workers and goes silent, [b] is admitted for
    8 an hour later, and then [a] reports: 16 workers are active. *)
Definition overcommitted : Ledger :=
  let l1 := (ledger_admit empty_ledger "a" (sample_request 8) 1609459200000).1 in
  (ledger_admit l1 "b" (sample_request 8) 1609462800000).1.
Theorem late_report_reactivates_witness :
  evaluateCampaignAdmission (sample_request 8) (mkLimits (Some 8) None None None)
    (usage (ledger_admit empty_ledger "a" (sample_request 8) 1609459200000).1 "global" 1609462800000)
    no_windows 1609462800000 = AdmissionOk /\
  activeWorkers (usage (report overcommitted "a" (mkReport 10 None None running) 1609462801000).1
    "global" 1609462801000) = 16.
Proof.
  split; [vm_compute; reflexivity|].
  assert (E : exists lease, leases overcommitted !! "a" = Some lease /\ finishedAt lease = None /\
    expiresAt lease <= 1609462801000 /\ scope lease = "global" /\ workers lease = 8).
  { eexists. split; [vm_compute; reflexivity|]. cbn. repeat split; lia. }
  destruct E as (lease & Hl & Hf & He & Hs & Hw).
  rewrite <- Hs.
  rewrite (late_report_reactivates overcommitted "a" lease (mkReport 10 None None running)
    1609462801000 Hl Hf He eq_refl), Hw, Hs.
  vm_compute. reflexivity.
Defined.

(** ** Cost attribution *)

Definition key_of (r : CostRow) : string * CampaignClass := (row_project r, row_class r).
(** Seeds of the rows with key [k]. *)
Definition seeds_at (k : string * CampaignClass) (rows : list CostRow) : Z :=
  foldr (fun r acc => (if decide (key_of r = k) then row_seeds r else 0) + acc) 0 rows.
Definition priced (r : CostRow) : Prop :=
  row_resourceUnits r = row_seeds r * RESOURCE_UNITS_PER_SEED (row_class r).

Lemma row_le_total a b : row_le a b = true \/ row_le b a = true.
Proof.
  unfold row_le. rewrite (String.compare_antisym (row_project b) (row_project a)).
  destruct (String.compare (row_project a) (row_project b)); simpl; auto.
  rewrite !Z.leb_le. lia.
Qed.
Lemma row_le_trans a b c : row_le a b = true -> row_le b c = true -> row_le a c = true.
Proof.
  unfold row_le.
  destruct (String.compare (row_project a) (row_project b)) eqn:E1; [| |done];
  destruct (String.compare (row_project b) (row_project c)) eqn:E2; try done; intros H1 H2.
  - apply String.compare_eq_iff in E1, E2. rewrite E1, E2, str_compare_refl.
    rewrite !Z.leb_le in *. lia.
  - apply String.compare_eq_iff in E1. by rewrite E1, E2.
  - apply String.compare_eq_iff in E2. by rewrite <- E2, E1.
  - by rewrite (str_lt_trans _ _ _ E1 E2).
Qed.
Lemma seeds_at_perm k rows rows' : rows ≡ₚ rows' -> seeds_at k rows = seeds_at k rows'.
Proof. induction 1; cbn [seeds_at foldr] in *; unfold seeds_at in *; lia. Qed.
Lemma add_row_seeds k rows lease :
  seeds_at k (add_row rows lease)
  = seeds_at k rows + (if decide (row_key lease = k) then seedsUsed lease else 0).
Proof.
  induction rows as [|r rows IH].
  - cbn. unfold key_of, row_key. cbn. lia.
  - unfold add_row in *. cbn. destruct (decide ((row_project r, row_class r) = row_key lease)) as [E|E].
    + unfold seeds_at. cbn [foldr row_seeds].
      repeat case_decide; unfold key_of in *; cbn [row_project row_class] in *; try lia; congruence.
    + unfold seeds_at in *. cbn [foldr]. lia.
Qed.
Lemma add_row_keys rows lease k :
  k ∈ key_of <$> add_row rows lease <-> k = row_key lease \/ k ∈ key_of <$> rows.
Proof.
  unfold add_row. induction rows as [|r rows IH]; cbn; [set_solver|].
  destruct (decide ((row_project r, row_class r) = row_key lease)) as [E|E]; cbn.
  - unfold key_of at 1. cbn. rewrite E. unfold key_of at 2. rewrite E. set_solver.
  - rewrite !elem_of_cons, IH. tauto.
Qed.
Lemma add_row_nodup rows lease :
  NoDup (key_of <$> rows) -> NoDup (key_of <$> add_row rows lease).
Proof.
  induction rows as [|r rows IH]; intros Hn; [apply NoDup_singleton|].
  cbn in Hn. apply NoDup_cons in Hn as [Hr Hn]. unfold add_row. cbn.
  destruct (decide ((row_project r, row_class r) = row_key lease)) as [E|E]; cbn.
  - apply NoDup_cons. done.
  - apply NoDup_cons. split; [|by apply IH]. intros H. apply add_row_keys in H as [H|H]; [|done].
    by apply E.
Qed.
Lemma add_row_priced rows lease : Forall priced rows -> Forall priced (add_row rows lease).
Proof.
  unfold add_row. induction 1 as [|r rows Hr Hrows IH]; cbn.
  - repeat constructor.
  - destruct (decide ((row_project r, row_class r) = row_key lease)) as [E|E]; [|by constructor].
    constructor; [|done]. unfold priced in *. cbn. unfold row_key in E. injection E as _ E.
    rewrite <- E, Hr. ring.
Qed.
Lemma add_rows_spec ls rows :
  NoDup (key_of <$> rows) -> Forall priced rows ->
  let out := foldl add_row rows ls in
  NoDup (key_of <$> out) /\ Forall priced out /\
  forall k, seeds_at k out
    = seeds_at k rows + foldr (fun x acc => (if decide (row_key x = k) then seedsUsed x else 0) + acc) 0 ls.
Proof.
  revert rows. induction ls as [|x ls IH]; intros rows Hn Hp; cbn [foldl foldr].
  - split; [done|]. split; [done|]. intros k. lia.
  - destruct (IH (add_row rows x)) as (H1 & H2 & H3);
      [by apply add_row_nodup|by apply add_row_priced|].
    split; [done|]. split; [done|]. intros k. rewrite H3, add_row_seeds. lia.
Qed.
Lemma sum_filter_list k s from to (l : list (string * CampaignLease)) :
  foldr (fun x acc => (if decide (row_key x = k) then seedsUsed x else 0) + acc) 0
    (filter (fun lease => in_rollup s from to lease = true) l.*2)
  = foldr (fun kv acc =>
      (if in_rollup s from to kv.2 && bool_decide (row_key kv.2 = k) then seedsUsed kv.2 else 0) + acc)
      0 l.
Proof.
  induction l as [|[id x] l IH]; [done|]. cbn [fmap list_fmap snd foldr].
  rewrite filter_cons. case_decide as E.
  - cbn [foldr]. rewrite IH, E. cbn [andb].
    case_decide; [by rewrite bool_decide_eq_true_2|by rewrite bool_decide_eq_false_2].
  - apply not_true_iff_false in E. rewrite E. cbn [andb]. rewrite IH. lia.
Qed.

(** Cost attribution loses and duplicates nothing: the rollup has one row
    per (project, class), ordered by project and class priority; the seeds of
    a row are the sum of the seeds used by the leases of that project and class
    started in [[from, to)], and its resource units are those seeds at the
    class's price. *)
Theorem costRollup_conserves (l : Ledger) (s : string) (from to : Z) :
  let rows := costRollup l s from to in
  NoDup (key_of <$> rows) /\ StronglySorted (fun a b => row_le a b = true) rows /\
  Forall priced rows /\
  forall k, seeds_at k rows
    = lease_sum (fun x => if in_rollup s from to x && bool_decide (row_key x = k)
                          then seedsUsed x else 0) (leases l).
Proof.
  unfold costRollup.
  set (ls := filter _ _).
  destruct (add_rows_spec ls []) as (Hn & Hp & Hs); [constructor|constructor|].
  assert (HP : sort_by row_le (foldl add_row [] ls) ≡ₚ foldl add_row [] ls) by apply sort_by_perm.
  split; [by rewrite HP|]. split; [apply sort_by_sorted; [apply row_le_total|apply row_le_trans]|].
  split; [by rewrite HP|]. intros k. rewrite (seeds_at_perm k _ _ HP), Hs.
  unfold ls, lease_sum. rewrite sum_filter_list. done.
Qed.
