(* ===== verification/Idempotency.v ===== *)
(** [lib/idempotency-key.ts] and [lib/storage/idempotency-store.ts]: parsing of
    idempotency keys, the fingerprint of a payload, and the in-memory record
    store.

    The digest [createHash('sha256').update(JSON.stringify(v)).digest('hex')]
    of [node:crypto] is the parameter [digest]; what is assumed of it where a
    theorem needs it is that the two values concerned do not collide. *)

From S2P Require Import Prelude JsDate JsString JsValue CronParser.
From stdpp Require Import base list sets fin_sets gmap strings numbers sorting.
From Stdlib Require Import ZArith Lia Ascii.
#[local] Open Scope Z_scope.

(** ** Keys *)

Definition IDEMPOTENCY_KEY_MAX_LENGTH : Z := 255.
(** [[\x21-\x7e]]. *)
Definition visible (c : ascii) : bool := (33 <=? code c) && (code c <=? 126).
Definition parseIdempotencyKey (raw : option string) : result string (option string) :=
  match raw with
  | None => Ok None
  | Some raw =>
      let key := trim raw in
      if (js_length key =? 0) || (IDEMPOTENCY_KEY_MAX_LENGTH <? js_length key) ||
         negb (all_chars visible key)
      then Err "Idempotency-Key must be 1-255 visible ASCII characters."
      else Ok (Some key)
  end.

(** [schedule:<id>:<Date.parse(scheduledFor)>]. *)
Definition scheduledCampaignIdempotencyKey (scheduleId scheduledFor : string) : string :=
  cat ["schedule:"; scheduleId; ":";
       match date_parse scheduledFor with Some t => num_to_string t | None => "NaN" end].

(** The key tracker of the forms: [current] is the closure's variable,
    [serialized] the [JSON.stringify] of the payload and [generated] the key
    [generate()] would return. *)
Definition tracker_keyFor (current : option (string * string)) (serialized generated : string)
  : option (string * string) * string :=
  match current with
  | Some (payload, key) =>
      if decide (payload = serialized) then (current, key)
      else (Some (serialized, generated), generated)
  | None => (Some (serialized, generated), generated)
  end.
Definition tracker_reset (_ : option (string * string)) : option (string * string) := None.

(** ** Fingerprints *)

Definition key_le (a b : string * json) : bool := str_le a.1 b.1.
Fixpoint canonicalize (value : json) : json :=
  match value with
  | JArr l => JArr (map canonicalize l)
  | JObj o => JObj (sort_by key_le (map (fun kv => (kv.1, canonicalize kv.2)) o))
  | v => v
  end.

(** ** Records *)

Definition IDEMPOTENCY_TTL_SECONDS : Z := 86400.

Section Store.
Context (digest : json -> string).
Context {Response : Type}.

Definition fingerprintPayload (payload : json) : string := digest (canonicalize payload).

Record IdempotencyRecord : Type := mkRecord
  { rec_scope : string; rec_key : string; fingerprint : string; resourceId : string;
    response : Response; createdAt : string; rec_expiresAt : string }.
Definition buildIdempotencyRecord (sc key : string) (payload : json) (resource : string)
    (resp : Response) (now : Z) : IdempotencyRecord :=
  mkRecord sc key (fingerprintPayload payload) resource resp (to_iso_string now)
    (to_iso_string (now + IDEMPOTENCY_TTL_SECONDS * 1000)).

Definition storageKey (sc key : string) : string := cat ["idempotency:"; sc; ":"; key].

(** [live]: the record unless it has expired, in which case it is deleted. *)
Definition live (store : gmap string IdempotencyRecord) (id : string) (now : Z)
  : gmap string IdempotencyRecord * option IdempotencyRecord :=
  match store !! id with
  | None => (store, None)
  | Some r =>
      if match date_parse (rec_expiresAt r) with Some e => e <=? now | None => false end
      then (delete id store, None)
      else (store, Some r)
  end.
Definition store_get (store : gmap string IdempotencyRecord) (sc key : string) (now : Z)
  : gmap string IdempotencyRecord * option IdempotencyRecord := live store (storageKey sc key) now.
(** Returns the record that won, and whether it is the new one. *)
Definition putIfAbsent (store : gmap string IdempotencyRecord) (r : IdempotencyRecord) (now : Z)
  : gmap string IdempotencyRecord * IdempotencyRecord * bool :=
  let id := storageKey (rec_scope r) (rec_key r) in
  match live store id now with
  | (store', Some existing) => (store', existing, false)
  | (store', None) => (<[id := r]> store', r, true)
  end.
End Store.
Arguments IdempotencyRecord : clear implicits.

Example canonical_example :
  canonicalize (JObj [("b", JNum 1); ("a", JObj [("z", JNull); ("y", JNum 2)])])
  = JObj [("a", JObj [("y", JNum 2); ("z", JNull)]); ("b", JNum 1)].
Proof. vm_compute. reflexivity. Qed.
Example scheduled_key :
  scheduledCampaignIdempotencyKey "s1" "2021-01-01T00:00:00.000Z" = "schedule:s1:1609459200000".
Proof. vm_compute. reflexivity. Qed.

(** ** Canonical forms *)

Section JsonInd.
Context (P : json -> Prop).
Context (Hnull : P JNull) (Hbool : forall b, P (JBool b)) (Hnum : forall n, P (JNum n)).
Context (Hfrac : forall n d, P (JFrac n d)) (Hstr : forall s, P (JStr s)).
Context (Harr : forall l, Forall P l -> P (JArr l)).
Context (Hobj : forall o, Forall (fun kv => P kv.2) o -> P (JObj o)).
Fixpoint json_ind' (v : json) : P v :=
  match v with
  | JNull => Hnull
  | JBool b => Hbool b
  | JNum n => Hnum n
  | JFrac n d => Hfrac n d
  | JStr s => Hstr s
  | JArr l =>
      Harr l ((fix go (l : list json) : Forall P l :=
                 match l with
                 | [] => Forall_nil_2 P
                 | x :: l' => Forall_cons_2 P x l' (json_ind' x) (go l')
                 end) l)
  | JObj o =>
      Hobj o ((fix go (o : fields) : Forall (fun kv => P kv.2) o :=
                 match o with
                 | [] => Forall_nil_2 _
                 | kv :: o' => Forall_cons_2 _ kv o' (json_ind' kv.2) (go o')
                 end) o)
  end.
End JsonInd.

(** Equal up to the order of the properties of objects, at any depth. *)
Inductive same_payload : json -> json -> Prop :=
  | same_null : same_payload JNull JNull
  | same_bool b : same_payload (JBool b) (JBool b)
  | same_num n : same_payload (JNum n) (JNum n)
  | same_frac n d : same_payload (JFrac n d) (JFrac n d)
  | same_str s : same_payload (JStr s) (JStr s)
  | same_arr l l' : Forall2 same_payload l l' -> same_payload (JArr l) (JArr l')
  | same_obj o o1 o' :
      o ≡ₚ o1 -> Forall2 (fun a b => a.1 = b.1 /\ same_payload a.2 b.2) o1 o' ->
      same_payload (JObj o) (JObj o').
(** No object has two properties of the same name: what [JSON.parse] yields. *)
Fixpoint distinct_keys (v : json) : Prop :=
  match v with
  | JArr l => foldr (fun x acc => distinct_keys x /\ acc) True l
  | JObj o => NoDup o.*1 /\ foldr (fun kv acc => distinct_keys kv.2 /\ acc) True o
  | _ => True
  end.

Lemma canonical_fields_perm o o' :
  NoDup o.*1 -> o ≡ₚ o' -> sort_by key_le o = sort_by key_le o'.
Proof.
  intros Hn Hp.
  apply (StronglySorted_unique_strong (fun a b => key_le a b = true)).
  - intros a b Ha Hb Hab Hba. rewrite elem_of_sort_by in Ha, Hb. rewrite <- Hp in Hb.
    assert (E : a.1 = b.1) by (by apply str_le_antisym).
    apply list_elem_of_lookup in Ha as [i Hi]. apply list_elem_of_lookup in Hb as [j Hj].
    assert (i = j) as ->; [|congruence].
    apply (NoDup_lookup o.*1 i j a.1 Hn); rewrite list_lookup_fmap; [by rewrite Hi|by rewrite Hj, E].
  - apply sort_by_sorted; unfold key_le; [intros; apply str_le_total|intros ? ? ?; apply str_le_trans].
  - apply sort_by_sorted; unfold key_le; [intros; apply str_le_total|intros ? ? ?; apply str_le_trans].
  - by rewrite !sort_by_perm.
Qed.

Definition canon_field (kv : string * json) : string * json := (kv.1, canonicalize kv.2).
Lemma canonicalize_obj o : canonicalize (JObj o) = JObj (sort_by key_le (canon_field <$> o)).
Proof. done. Qed.
Lemma canon_field_keys o : (canon_field <$> o).*1 = o.*1.
Proof. induction o as [|kv o IH]; [done|]. cbn. by f_equal. Qed.
Lemma distinct_arr l : distinct_keys (JArr l) -> Forall distinct_keys l.
Proof. cbn. induction l as [|x l IH]; cbn; [constructor|]. intros []. constructor; auto. Qed.
Lemma distinct_obj o :
  distinct_keys (JObj o) -> NoDup o.*1 /\ Forall (fun kv => distinct_keys kv.2) o.
Proof.
  intros [Hn H]. split; [done|]. clear Hn. revert H.
  induction o as [|x o IH]; cbn; [constructor|]. intros []. constructor; auto.
Qed.

Lemma same_canonical p q : distinct_keys p -> same_payload p q -> canonicalize p = canonicalize q.
Proof.
  revert q. induction p as [| | | | |l IH|o IH] using json_ind'; intros q Hd Hs;
    inversion Hs as [| | | | |? l' Hl|? o1 o' Hp Ho]; subst; try done.
  - cbn. f_equal. apply distinct_arr in Hd. clear Hs. revert IH Hd.
    induction Hl as [|x y l l' Hxy Hl IHl]; intros IH Hd; [done|]. cbn.
    apply Forall_cons_1 in IH as [Hx IH]. apply Forall_cons_1 in Hd as [Hdx Hd].
    f_equal; [by apply Hx|by apply IHl].
  - rewrite !canonicalize_obj. f_equal. apply distinct_obj in Hd as [Hn Hd].
    rewrite (canonical_fields_perm (canon_field <$> o) (canon_field <$> o1));
      [|by rewrite canon_field_keys|by rewrite Hp].
    rewrite Hp in IH, Hd. f_equal. clear Hs Hp Hn. revert IH Hd.
    induction Ho as [|x y o1 o' [Hk Hxy] Ho IHo]; intros IH Hd; [done|]. cbn.
    apply Forall_cons_1 in IH as [Hx IH]. apply Forall_cons_1 in Hd as [Hdx Hd].
    f_equal; [|by apply IHo]. unfold canon_field. rewrite Hk. f_equal. by apply Hx.
Qed.
Lemma canonical_same p q : canonicalize p = canonicalize q -> same_payload p q.
Proof.
  revert q. induction p as [| | | | |l IH|o IH] using json_ind'; intros q H;
    destruct q as [| | | | |l'|o']; try discriminate H;
    try solve [constructor | injection H; intros; subst; constructor].
  - injection H as H. constructor. revert l' H. induction IH as [|x l Hx IH IHl]; intros [|y l'] H; try done.
    cbn in H. injection H as Hxy H. constructor; [by apply Hx|by apply IHl].
  - rewrite !canonicalize_obj in H. injection H as H.
    assert (Hp : canon_field <$> o' ≡ₚ canon_field <$> o).
    { rewrite <- (sort_by_perm key_le (canon_field <$> o)), H. by rewrite sort_by_perm. }
    apply Permutation_map_inv in Hp as (o3 & E & Hp3). apply (same_obj o o3 o'); [done|].
    rewrite Hp3 in IH. clear H Hp3. revert o' E.
    induction IH as [|x o3 Hx IH IHo]; intros [|y o'] E; try done.
    cbn in E. injection E as Ek Ev E. constructor; [split; [done|by apply Hx]|].
    by apply IHo.
Qed.

(** The fingerprint identifies the payload up to property order: two JSON
    payloads have the same fingerprint exactly when they are equal after
    reordering the properties of objects at any depth (assuming the digest does
    not collide on their two canonical forms). *)
Theorem fingerprintPayload_iff (digest : json -> string) (p q : json) :
  distinct_keys p ->
  (digest (canonicalize p) = digest (canonicalize q) -> canonicalize p = canonicalize q) ->
  fingerprintPayload digest p = fingerprintPayload digest q <-> same_payload p q.
Proof.
  intros Hd Hcol. unfold fingerprintPayload. split.
  - intros H. by apply canonical_same, Hcol.
  - intros H. by rewrite (same_canonical p q).
Qed.
(** A digest that tells the two sample payloads from a third one. *)
Definition sample_digest (v : json) : string :=
  match v with JObj [(k, JNum n); (k', _)] => cat [k; num_to_string n; k'] | _ => "" end.
Theorem fingerprintPayload_iff_witness :
  fingerprintPayload sample_digest (JObj [("b", JNull); ("a", JNum 1)])
  = fingerprintPayload sample_digest (JObj [("a", JNum 1); ("b", JNull)]) /\
  same_payload (JObj [("b", JNull); ("a", JNum 1)]) (JObj [("a", JNum 1); ("b", JNull)]).
Proof.
  assert (E : fingerprintPayload sample_digest (JObj [("b", JNull); ("a", JNum 1)])
    = fingerprintPayload sample_digest (JObj [("a", JNum 1); ("b", JNull)]))
    by (vm_compute; reflexivity).
  split; [exact E|]. apply (fingerprintPayload_iff sample_digest).
  - split; [|done]. apply (bool_decide_unpack (NoDup ["b"; "a"])). vm_compute. done.
  - intros _. vm_compute. reflexivity.
  - exact E.
Defined.
