(* ===== verification/CreateCampaign.v ===== *)
(** [POST /api/campaigns] ([app/api/campaigns/route.ts] with
    [lib/idempotency-middleware.ts]): admission of a new campaign against the
    capacity ledger, and its idempotency records.

    The handler is a coroutine: it gives way to other requests at its [await]s,
    so it is modelled as a sequence of segments ([lookup], [check], [put],
    [admit_segment]), each of which runs without interruption, and a run of the
    server is an interleaving of the segments of its requests.  The clock value
    a segment reads is an argument.  Requests carry an already parsed JSON
    object, the generated id, and the principal the RBAC layer resolves. *)

From S2P Require Import Prelude JsDate JsString JsNumber JsValue CronParser CronNextRun Quotas CapacityLedger Idempotency.
From stdpp Require Import base list sets fin_sets gmap strings numbers sorting.
From Stdlib Require Import ZArith Lia Ascii.
#[local] Open Scope Z_scope.

Definition IDEMPOTENCY_SCOPE : string := "POST /api/campaigns".

Record CampaignResponse : Type := mkResponse
  { campaign : fields; capacity : CampaignResourceRequest; quotaOverride : bool }.
Record Request : Type := mkRq
  { rq_key_header : option string; rq_payload : fields; rq_override : option string;
    rq_subject : string; rq_maintainer : bool; rq_new_id : string }.
Inductive Reply : Type :=
  | KeyInvalid (error : string)
  | ValidationError (error : string)
  | RejectedWindow (retryAfterSeconds : Z)
  | RejectedQuota (violation : QuotaViolation) (retryAfterSeconds : option (option Z))
  | OverrideForbidden
  | KeyReused
  | Replayed (r : CampaignResponse)
  | Created (r : CampaignResponse).

(** The audit event of an override: actor, target and reason. *)
Record OverrideEvent : Type := mkOverride { ev_actor : string; ev_target : string; ev_reason : string }.
Record World : Type := mkWorld
  { w_ledger : Ledger; w_store : gmap string (IdempotencyRecord CampaignResponse); w_audit : list OverrideEvent }.

(** Where a request is. *)
Inductive Phase : Type :=
  | PStart
  | PLooked (key : option string)
  | PChecked (key : option string) (resources : CampaignResourceRequest)
      (overriddenBy : option (string * string)) (now : Z)
  | PStored (key : option string) (r : CampaignResponse) (overriddenBy : option (string * string))
  | PDone (reply : Reply).

(** [{ id, status: 'queued', createdAt, ...payload }]. *)
Definition build_campaign (id : string) (now : Z) (payload : fields) : fields :=
  spread [("id", JStr id); ("status", JStr "queued"); ("createdAt", JStr (to_iso_string now))] payload.
(** [campaign.id], for payloads whose [id], if any, is a string. *)
Definition campaign_id (c : fields) : string :=
  match prop "id" c with Some (JStr s) => s | _ => "" end.

Section Handler.
Context (digest : json -> string).
Context (limits : QuotaLimits) (windows : SchedulingWindows).

Definition replayOrReject (rec : IdempotencyRecord CampaignResponse) (payload : fields) : Reply :=
  if decide (fingerprint rec = fingerprintPayload digest (JObj payload))
  then Replayed (response rec) else KeyReused.

Definition lookup_segment (w : World) (rq : Request) (now : Z) : World * Phase :=
  match parseIdempotencyKey (rq_key_header rq) with
  | Err e => (w, PDone (KeyInvalid e))
  | Ok None => (w, PLooked None)
  | Ok (Some key) =>
      match store_get (w_store w) IDEMPOTENCY_SCOPE key now with
      | (store', Some existing) =>
          (mkWorld (w_ledger w) store' (w_audit w), PDone (replayOrReject existing (rq_payload rq)))
      | (store', None) => (mkWorld (w_ledger w) store' (w_audit w), PLooked (Some key))
      end
  end.

(** A rejected admission: only a maintainer's override goes on. *)
Definition rejected_segment (w : World) (rq : Request) (key : option string)
    (resources : CampaignResourceRequest) (reason : option string) (reply : Reply) (now : Z)
  : World * Phase :=
  match reason with
  | None => (w, PDone reply)
  | Some reason =>
      if rq_maintainer rq
      then (w, PChecked key resources (Some (rq_subject rq, reason)) now)
      else (w, PDone OverrideForbidden)
  end.
Definition check_segment (w : World) (rq : Request) (key : option string) (now : Z) : World * Phase :=
  match deriveCampaignRequest (rq_payload rq) with
  | Err e => (w, PDone (ValidationError e))
  | Ok resources =>
      match parseOverrideReason (rq_override rq) with
      | Err e => (w, PDone (ValidationError e))
      | Ok reason =>
          match evaluateCampaignAdmission resources limits
                  (usage (w_ledger w) (cr_scope resources) now) windows now with
          | AdmissionOk => (w, PChecked key resources None now)
          | WindowClosed s => rejected_segment w rq key resources reason (RejectedWindow s) now
          | QuotaExceeded v r => rejected_segment w rq key resources reason (RejectedQuota v r) now
          end
      end
  end.

Definition put_segment (w : World) (rq : Request) (key : option string)
    (resources : CampaignResourceRequest) (overriddenBy : option (string * string))
    (checked now : Z) : World * Phase :=
  let c := build_campaign (rq_new_id rq) checked (rq_payload rq) in
  let resp := mkResponse c resources (bool_decide (overriddenBy <> None)) in
  match key with
  | None => (w, PStored None resp overriddenBy)
  | Some k =>
      let rec := buildIdempotencyRecord digest IDEMPOTENCY_SCOPE k (JObj (rq_payload rq))
                   (campaign_id c) resp now in
      match putIfAbsent (w_store w) rec now with
      | (store', winner, true) =>
          (mkWorld (w_ledger w) store' (w_audit w), PStored (Some k) resp overriddenBy)
      | (store', winner, false) =>
          (mkWorld (w_ledger w) store' (w_audit w), PDone (replayOrReject winner (rq_payload rq)))
      end
  end.

Definition admit_segment (w : World) (r : CampaignResponse)
    (overriddenBy : option (string * string)) (now : Z) : World * Phase :=
  let id := campaign_id (campaign r) in
  (mkWorld (ledger_admit (w_ledger w) id (capacity r) now).1 (w_store w)
     (w_audit w ++ match overriddenBy with
                   | Some (who, why) => [mkOverride who id why]
                   | None => []
                   end),
   PDone (Created r)).

(** The next segment of a request. *)
Definition request_step (w : World) (rq : Request) (p : Phase) (now : Z) : World * Phase :=
  match p with
  | PStart => lookup_segment w rq now
  | PLooked key => check_segment w rq key now
  | PChecked key resources overriddenBy checked =>
      put_segment w rq key resources overriddenBy checked now
  | PStored key r overriddenBy => admit_segment w r overriddenBy now
  | PDone reply => (w, PDone reply)
  end.

(** ** Interleavings *)

Definition Server : Type := World * list (Request * Phase).
(** Request [i] runs its next segment at [now]. *)
Definition server_step (s : Server) (i : nat) (now : Z) : Server :=
  match s.2 !! i with
  | Some (rq, p) =>
      let '(w', p') := request_step s.1 rq p now in (w', <[i := (rq, p')]> s.2)
  | None => s
  end.
Definition server_run (s : Server) (schedule : list (nat * Z)) : Server :=
  foldl (fun s in_ => server_step s in_.1 in_.2) s schedule.
Definition start (rqs : list Request) : Server :=
  (mkWorld empty_ledger ∅ [], (fun rq => (rq, PStart)) <$> rqs).
(** One request alone: all its segments at one instant. *)
Definition createCampaign (w : World) (rq : Request) (now : Z) : World * Phase :=
  let step := fun wp : World * Phase => request_step wp.1 rq wp.2 now in
  step (step (step (step (w, PStart)))).
End Handler.

Definition sample_rq (key : option string) (id : string) (n : Z) : Request :=
  mkRq key [("workers", JNum n)] None "alice" false id.
Definition limit8 : QuotaLimits := mkLimits (Some 8) None None None.
Example create_twice :
  let d := fun _ => "" in
  let '(w, p) := createCampaign d limit8 no_windows (mkWorld empty_ledger ∅ [])
                   (sample_rq (Some "k1") "c1" 3) 1609459200000 in
  let '(w', p') := createCampaign d limit8 no_windows w (sample_rq (Some "k1") "c2" 3) 1609459201000 in
  match p, p' with
  | PDone (Created r), PDone (Replayed r') => r = r'
  | _, _ => False
  end.
Proof. vm_compute. reflexivity. Qed.

(** ** Exactly once per key *)

Definition ttl_ms : Z := IDEMPOTENCY_TTL_SECONDS * 1000.
Definition slot (k : string) : string := storageKey IDEMPOTENCY_SCOPE k.
Definition rq_key (rq : Request) : option string :=
  match parseIdempotencyKey (rq_key_header rq) with Ok k => k | Err _ => None end.
(** The request stored its own response; it answers with [r]. *)
Definition owns (p : Phase) (r : CampaignResponse) : Prop :=
  (exists k o, p = PStored k r o) \/ p = PDone (Created r).
Definition settled (p : Phase) (r : CampaignResponse) : Prop := owns p r \/ p = PDone (Replayed r).
Definition phase_key_ok (rq : Request) (p : Phase) : Prop :=
  match p with
  | PLooked k | PChecked k _ _ _ | PStored k _ _ => k = rq_key rq
  | _ => True
  end.
(** Every record outlives the instants before [t0 + ttl_ms]. *)
Definition fresh_store (t0 : Z) (st : gmap string (IdempotencyRecord CampaignResponse)) : Prop :=
  forall id rec, st !! id = Some rec ->
    exists e, date_parse (rec_expiresAt rec) = Some e /\ t0 + ttl_ms <= e.
Definition in_day (t0 now : Z) : Prop := t0 <= now < t0 + ttl_ms.
Definition sane_start (t0 : Z) : Prop := 0 <= t0 /\ t0 + 2 * ttl_ms < 253402300800000.

Lemma slot_inj k k' : slot k = slot k' -> k = k'.
Proof.
  unfold slot, storageKey, cat. cbn [foldr]. rewrite !append_empty.
  intros H. by do 3 apply append_inj_l in H.
Qed.
Lemma live_fresh t0 st id now :
  fresh_store t0 st -> in_day t0 now -> live st id now = (st, st !! id).
Proof.
  intros Hf Hn. unfold live. destruct (st !! id) as [rec|] eqn:E; [|done].
  destruct (Hf id rec E) as (e & -> & He). unfold in_day in Hn.
  destruct (Z.leb_spec e now); [lia|done].
Qed.
Lemma built_expiry digest sc k p id (r : CampaignResponse) t0 now :
  sane_start t0 -> in_day t0 now ->
  exists e, date_parse (rec_expiresAt (buildIdempotencyRecord digest sc k p id r now)) = Some e /\
    t0 + ttl_ms <= e.
Proof.
  intros [H0 H1] Hn. exists (now + ttl_ms). unfold in_day in Hn. split; [|lia]. cbn.
  apply date_parse_iso. unfold iso_range, ttl_ms, IDEMPOTENCY_TTL_SECONDS in *. lia.
Qed.

Section Once.
Context (digest : json -> string) (limits : QuotaLimits) (windows : SchedulingWindows).
Context (t0 : Z) (Ht0 : sane_start t0).

Record step_ok (w w' : World) (rq : Request) (p p' : Phase) : Prop := mkStepOk {
  so_keeps : forall id rec, w_store w !! id = Some rec -> w_store w' !! id = Some rec;
  so_fresh : fresh_store t0 (w_store w');
  so_key : phase_key_ok rq p';
  so_settled : forall r k, rq_key rq = Some k -> settled p' r ->
    settled p r \/ exists rec, w_store w' !! slot k = Some rec /\ response rec = r;
  so_owns : forall r k, rq_key rq = Some k -> owns p' r ->
    owns p r \/ w_store w !! slot k = None }.

(** A segment that leaves the store alone and ends in a phase that answers
    nothing new. *)
Lemma step_ok_same w w' rq p p' :
  fresh_store t0 (w_store w) -> w_store w' = w_store w -> phase_key_ok rq p' ->
  (forall r, settled p' r -> settled p r) -> (forall r, owns p' r -> owns p r) ->
  step_ok w w' rq p p'.
Proof. intros Hf E Hk Hs Ho. constructor; rewrite ?E; auto. Qed.
Ltac quiet := apply step_ok_same; [done|done|cbn; try done; congruence|..];
  intros ? Hq; (destruct Hq as [[(? & ? & ?)|?]|?] || destruct Hq as [(? & ? & ?)|?]); done.

(** A replay answers with the record it found. *)
Lemma step_ok_replay w w' rq p rec k :
  fresh_store t0 (w_store w) -> w_store w' = w_store w -> rq_key rq = Some k ->
  w_store w !! slot k = Some rec ->
  step_ok w w' rq p (PDone (replayOrReject digest rec (rq_payload rq))).
Proof.
  intros Hf E Hk Hrec. unfold replayOrReject. constructor; rewrite ?E; try done.
  - intros r k' Hk' Hs. right. exists rec. assert (k' = k) as -> by congruence. split; [done|].
    case_decide; destruct Hs as [[(? & ? & ?)|?]|?]; congruence.
  - intros r k' _ Ho. case_decide; destruct Ho as [(? & ? & ?)|?]; congruence.
Qed.
Lemma lookup_ok w rq now w' p' :
  fresh_store t0 (w_store w) -> in_day t0 now ->
  lookup_segment digest w rq now = (w', p') -> step_ok w w' rq PStart p'.
Proof.
  intros Hf Hn. unfold lookup_segment, store_get.
  destruct (parseIdempotencyKey (rq_key_header rq)) as [[k|]|e] eqn:Ek.
  - assert (Hk : rq_key rq = Some k) by (unfold rq_key; by rewrite Ek).
    fold (slot k). rewrite (live_fresh t0) by done.
    destruct (w_store w !! slot k) as [rec|] eqn:Er; intros [= <- <-].
    + by apply (step_ok_replay _ _ _ _ _ k).
    + quiet.
  - intros [= <- <-]. assert (Hk : rq_key rq = None) by (unfold rq_key; by rewrite Ek). quiet.
  - intros [= <- <-]. quiet.
Qed.
Lemma check_ok w rq now w' p' key :
  fresh_store t0 (w_store w) -> key = rq_key rq ->
  check_segment limits windows w rq key now = (w', p') -> step_ok w w' rq (PLooked key) p'.
Proof.
  intros Hf -> H. assert (Hw : w' = w /\ phase_key_ok rq p' /\ forall r, ~ settled p' r).
  { revert H. unfold check_segment, rejected_segment.
    repeat case_goal; intros [= <- <-]; (split; [done|]); (split; [done|]);
      intros r [[(? & ? & ?)|?]|?]; done. }
  destruct Hw as (-> & Hk & Hs). apply step_ok_same; try done.
  - intros r Hr. by destruct (Hs r).
  - intros r Hr. destruct (Hs r). by left.
Qed.
Lemma put_ok w rq now w' p' key res o checked :
  fresh_store t0 (w_store w) -> in_day t0 now -> key = rq_key rq ->
  put_segment digest w rq key res o checked now = (w', p') ->
  step_ok w w' rq (PChecked key res o checked) p'.
Proof.
  intros Hf Hn Hkey. unfold put_segment. destruct key as [k|].
  2: { intros [= <- <-]. constructor; try done; intros r k Hk; congruence. }
  unfold putIfAbsent. cbn [buildIdempotencyRecord rec_scope rec_key]. fold (slot k).
  rewrite (live_fresh t0) by done.
  destruct (w_store w !! slot k) as [rec|] eqn:Er; intros [= <- <-].
  - by apply (step_ok_replay _ _ _ _ _ k).
  - constructor; cbn [w_store].
    + intros id rec Hid. rewrite lookup_insert_ne; [done|]. congruence.
    + intros id rec. cbn [w_store]. rewrite lookup_insert_Some. intros [[_ <-]|[_ Hid]]; [|by eapply Hf].
      by apply built_expiry.
    + done.
    + intros r k' Hk' Hs. right. assert (k' = k) as -> by congruence.
      eexists. split; [apply lookup_insert_eq|].
      destruct Hs as [[(? & ? & ?)|?]|?]; try done. cbn. congruence.
    + intros r k' Hk' _. right. by assert (k' = k) as -> by congruence.
Qed.
Lemma request_step_ok w rq p now w' p' :
  fresh_store t0 (w_store w) -> in_day t0 now -> phase_key_ok rq p ->
  request_step digest limits windows w rq p now = (w', p') -> step_ok w w' rq p p'.
Proof.
  intros Hf Hn Hk. destruct p as [|key|key res o c|key r o|reply]; cbn [request_step].
  - by apply lookup_ok.
  - by apply check_ok.
  - by apply put_ok.
  - unfold admit_segment. intros [= <- <-]. constructor; try done.
    + intros r' k _ [[(? & ? & ?)|[= <-]]|?]; try done. left. left. left. eauto.
    + intros r' k _ [(? & ? & ?)|[= <-]]; try done. left. left. eauto.
  - intros [= <- <-]. constructor; auto.
Qed.

(** What holds of the server at every moment. *)
Record server_ok (s : Server) : Prop := mkServerOk {
  sv_fresh : fresh_store t0 (w_store s.1);
  sv_key : forall i rq p, s.2 !! i = Some (rq, p) -> phase_key_ok rq p;
  sv_settled : forall i rq p r k, s.2 !! i = Some (rq, p) -> rq_key rq = Some k ->
    settled p r -> exists rec, w_store s.1 !! slot k = Some rec /\ response rec = r;
  sv_once : forall i j rq rq' p p' r r' k, s.2 !! i = Some (rq, p) -> s.2 !! j = Some (rq', p') ->
    rq_key rq = Some k -> rq_key rq' = Some k -> owns p r -> owns p' r' -> i = j }.

Lemma server_step_ok s i now :
  in_day t0 now -> server_ok s -> server_ok (server_step digest limits windows s i now).
Proof.
  intros Hn [Hf Hk Hs Ho]. unfold server_step. destruct (s.2 !! i) as [[rq p]|] eqn:Ei; [|done].
  destruct (request_step digest limits windows s.1 rq p now) as [w' p'] eqn:Est.
  destruct (request_step_ok _ _ _ _ _ _ Hf Hn (Hk _ _ _ Ei) Est) as [K F KO S O].
  assert (Hlook : forall j rq1 p1, <[i := (rq, p')]> s.2 !! j = Some (rq1, p1) ->
    (j = i /\ rq1 = rq /\ p1 = p') \/ (j <> i /\ s.2 !! j = Some (rq1, p1))).
  { intros j rq1 p1 H. apply list_lookup_insert_Some in H as [(-> & [= <- <-] & _)|[? ?]]; auto. }
  constructor; cbn [fst snd].
  - done.
  - intros j rq1 p1 Hj. apply Hlook in Hj as [(-> & -> & ->)|[_ Hj]]; [done|by eapply Hk].
  - intros j rq1 p1 r k Hj Hkey Hset. apply Hlook in Hj as [(-> & -> & ->)|[_ Hj]].
    + destruct (S r k Hkey Hset) as [Hold|Hnew]; [|done].
      destruct (Hs _ _ _ _ _ Ei Hkey Hold) as (rec & Hrec & Hr). eauto.
    + destruct (Hs _ _ _ _ _ Hj Hkey Hset) as (rec & Hrec & Hr). eauto.
  - intros j1 j2 rq1 rq2 p1 p2 r1 r2 k H1 H2 K1 K2 O1 O2.
    assert (Hclash : forall j rq' q r r', s.2 !! j = Some (rq', q) -> rq_key rq' = Some k ->
      rq_key rq = Some k -> owns q r -> owns p' r' -> i = j).
    { intros j rq' q r r' Hj Hkj Hki Hq Hp'. destruct (O r' k Hki Hp') as [Hold|Hnone].
      - by apply (Ho i j rq rq' p q r' r k).
      - destruct (Hs _ _ _ _ _ Hj Hkj (or_introl Hq)) as (rec & Hrec & _). congruence. }
    apply Hlook in H1 as [(-> & -> & ->)|[N1 H1]]; apply Hlook in H2 as [(-> & -> & ->)|[N2 H2]].
    + done.
    + by eapply Hclash.
    + symmetry. by eapply Hclash.
    + by eapply Ho.
Qed.
Lemma server_run_ok s schedule :
  Forall (fun x => in_day t0 x.2) schedule -> server_ok s ->
  server_ok (server_run digest limits windows s schedule).
Proof.
  unfold server_run. intros H. revert s. induction H as [|[i now] l Hn Hl IH]; intros s Hs; [done|].
  cbn [foldl]. apply IH. by apply server_step_ok.
Qed.
Lemma start_ok rqs : server_ok (start rqs).
Proof.
  assert (Hstart : forall i rq p, (start rqs).2 !! i = Some (rq, p) -> p = PStart).
  { intros i rq p. cbn. rewrite list_lookup_fmap. destruct (rqs !! i); [|done].
    by intros [= _ <-]. }
  constructor.
  - intros id rec. cbn. by rewrite lookup_empty.
  - intros i rq p Hi. by rewrite (Hstart _ _ _ Hi).
  - intros i rq p r k Hi _ Hs. rewrite (Hstart _ _ _ Hi) in Hs.
    by destruct Hs as [[(? & ? & ?)|?]|?].
  - intros i j rq rq' p p' r r' k Hi _ _ _ Ho _. rewrite (Hstart _ _ _ Hi) in Ho.
    by destruct Ho as [(? & ? & ?)|?].
Qed.
End Once.

(** ** Properties *)

(** Two requests with one key, their segments interleaved. *)
Definition interleaved : list (nat * Z) :=
  (fun i => (i, 1609459200000)) <$> [0; 1; 0; 1; 0; 1; 1; 0]%nat.
Definition same_key_server : Server :=
  server_run (fun _ => "") limit8 no_windows
    (start [sample_rq (Some "k1") "c1" 3; sample_rq (Some "k1") "c2" 3]) interleaved.

(** The admission check is not atomic with the admission: two requests
    with different keys that interleave at the [await] of [putIfAbsent] are
    both admitted, and 16 workers are active under a limit of 8. *)
Theorem admission_race (digest : json -> string) :
  let s := server_run digest limit8 no_windows
    (start [sample_rq (Some "k1") "c1" 8; sample_rq (Some "k2") "c2" 8]) interleaved in
  (exists r r', snd <$> s.2 = [PDone (Created r); PDone (Created r')]) /\
  activeWorkers (usage (w_ledger s.1) "global" 1609459200000) = 16.
Proof.
  split.
  - eexists _, _. vm_compute. reflexivity.
  - vm_compute. reflexivity.
Qed.

Lemma created_unkeyed digest limits windows w rq now w' r :
  rq_key_header rq = None ->
  createCampaign digest limits windows w rq now = (w', PDone (Created r)) ->
  deriveCampaignRequest (rq_payload rq) = Ok (capacity r) /\
  campaign r = build_campaign (rq_new_id rq) now (rq_payload rq) /\
  w_ledger w' = (ledger_admit (w_ledger w) (campaign_id (campaign r)) (capacity r) now).1.
Proof.
  intros Hk. unfold createCampaign. cbn [request_step fst snd]. unfold lookup_segment. rewrite Hk.
  cbn [parseIdempotencyKey request_step fst snd].
  unfold check_segment, rejected_segment.
  destruct (deriveCampaignRequest (rq_payload rq)) as [res|e] eqn:Ed; [|by cbn].
  destruct (parseOverrideReason (rq_override rq)) as [reason|e]; [|by cbn].
  destruct (evaluateCampaignAdmission _ _ _ _ _); destruct reason; destruct (rq_maintainer rq);
    cbn -[ledger_admit build_campaign campaign_id]; try done; intros [= <- <-]; done.
Qed.
Lemma campaign_id_payload id0 now payload id :
  NoDup payload.*1 -> prop "id" payload = Some (JStr id) ->
  campaign_id (build_campaign id0 now payload) = id.
Proof. intros Hn Hp. unfold campaign_id, build_campaign. by rewrite prop_spread, Hp. Qed.
Lemma active_admit_over l now id req old :
  0 <= now -> leases l !! id = Some old -> isActive old now = true ->
  scope old = cr_scope req ->
  active (ledger_admit l id req now).1 (cr_scope req) now
  = active l (cr_scope req) now - workers old + req_workers (cr_resources req).
Proof.
  intros Hn Hold Hact Hsc. unfold active, ledger_admit. cbn [fst leases].
  assert (Hp : leases (prune l now) !! id = Some old).
  { cbn. apply map_lookup_filter_Some. split; [done|]. cbn. unfold lease_end, isActive in *.
    destruct (finishedAt old); [done|]. bools. cbn. unfold LEASE_HISTORY_MS. lia. }
  rewrite lease_sum_insert. pose proof (active_prune l (cr_scope req) now Hn) as E.
  unfold active in E. rewrite (lease_sum_delete _ _ _ _ Hp) in E.
  assert (E1 : active_in (cr_scope req) now old = workers old).
  { unfold active_in, in_scope. rewrite Hsc, Hact. by rewrite bool_decide_eq_true_2. }
  assert (E2 : active_in (cr_scope req) now (new_lease id req now) = req_workers (cr_resources req)).
  { unfold active_in, in_scope, isActive, new_lease. cbn. rewrite !bool_decide_eq_true_2 by done.
    rewrite (proj2 (Z.ltb_lt _ _)); [done|]. destruct (req_class _); cbn; lia. }
  lia.
Qed.

(** A client-chosen id defeats the accounting: the payload's [id] replaces
    the generated one, so creating a campaign under the id of a running one
    overwrites its lease, and the running campaign's workers are no longer
    counted although nothing ended. *)
Theorem payload_id_displaces_lease (digest : json -> string) (limits : QuotaLimits)
    (windows : SchedulingWindows) (w w' : World) (rq : Request) (r : CampaignResponse) (now : Z)
    (id : string) (old : CampaignLease) :
  0 <= now -> NoDup (rq_payload rq).*1 -> prop "id" (rq_payload rq) = Some (JStr id) ->
  rq_key_header rq = None -> leases (w_ledger w) !! id = Some old -> isActive old now = true ->
  scope old = DEFAULT_QUOTA_SCOPE ->
  createCampaign digest limits windows w rq now = (w', PDone (Created r)) ->
  activeWorkers (usage (w_ledger w') DEFAULT_QUOTA_SCOPE now)
  = activeWorkers (usage (w_ledger w) DEFAULT_QUOTA_SCOPE now) - workers old
    + req_workers (cr_resources (capacity r)).
Proof.
  intros Hn Hnd Hid Hk Hold Hact Hsc Hc.
  apply created_unkeyed in Hc as (Hd & Hcam & Hl); [|done].
  rewrite Hcam, (campaign_id_payload _ _ _ id) in Hl by done.
  assert (Hscope : cr_scope (capacity r) = DEFAULT_QUOTA_SCOPE).
  { revert Hd. unfold deriveCampaignRequest. intros Hd.
    repeat (apply bind_Ok in Hd as (? & _ & Hd)). injection Hd as <-. done. }
  rewrite !usage_active, Hl, <- Hscope. apply active_admit_over; [done|done|done|congruence].
Qed.
(** Under a limit of 8, a second campaign named as the first: both run, with 4
    workers each, and 4 are counted. *)
Definition named_rq : Request :=
  mkRq None [("id", JStr "c1"); ("workers", JNum 4)] None "alice" false "generated".
Definition after_first : World :=
  (createCampaign (fun _ => "") limit8 no_windows (mkWorld empty_ledger ∅ []) named_rq 1609459200000).1.
Theorem payload_id_displaces_lease_witness :
  activeWorkers (usage (w_ledger (createCampaign (fun _ => "") limit8 no_windows after_first named_rq
    1609459201000).1) "global" 1609459201000) = 4.
Proof.
  rewrite (payload_id_displaces_lease (fun _ => "") limit8 no_windows after_first _ named_rq
    (mkResponse (build_campaign "generated" 1609459201000 (rq_payload named_rq))
       (mkCampaignRequest "global" "default" (mkRequest interactive 4 1000 0)) false)
    1609459201000 "c1"
    (new_lease "c1" (mkCampaignRequest "global" "default" (mkRequest interactive 4 1000 0))
       1609459200000)).
  - vm_compute. reflexivity.
  - lia.
  - apply (bool_decide_unpack (NoDup ["id"; "workers"])). vm_compute. done.
  - reflexivity.
  - reflexivity.
  - vm_compute. reflexivity.
  - vm_compute. reflexivity.
  - reflexivity.
  - vm_compute. reflexivity.
Defined.
