(* ===== verification/CronTick.v ===== *)
(** [lib/cron/tick-evaluator.ts], [lib/cron/ledger.ts], [lib/cron/lock.ts] and
    [app/api/schedules/tick/route.ts]: firing the schedules that are due,
    recovering from missed slots, and the lock around a tick.

    Instants are epoch milliseconds; the ISO strings of the state are read back
    with [date_parse].  The caps of 100,000 ticks are arguments ([maxTicks]) of
    the functions that carry them. *)

From S2P Require Import Prelude JsDate JsString JsNumber JsValue CronParser CronNextRun Quotas ScheduleStore Idempotency.
From stdpp Require Import base list sets fin_sets gmap strings numbers sorting.
From Stdlib Require Import ZArith Lia Ascii.
#[local] Open Scope Z_scope.

(** ** The tick evaluator *)

Record DeferredSchedule : Type := mkDeferred
  { def_scheduleId : string; def_class : CampaignClass; def_opensInSeconds : Z }.
Record TickOutcome : Type := mkOutcome
  { out_schedules : list Schedule; out_history : list ScheduledRun;
    out_created : list ScheduledRun; out_deferred : list DeferredSchedule }.
Definition DEFAULT_MAX_CATCHUP_TICKS : nat := Z.to_nat 100000.

Definition floorToMinute (date : Z) : Z := date / 60000 * 60000.

(** Every tick strictly after [cursor] and at or before [limit], at most
    [maxTicks] of them; [next] is [nextRun(expr, _)]. *)
Fixpoint due_loop (next : Z -> option Z) (maxTicks : nat) (cursor limit : Z) : list Z :=
  match maxTicks with
  | O => []
  | S n =>
      match next cursor with
      | None => []
      | Some tick => if limit <? tick then [] else tick :: due_loop next n tick limit
      end
  end.
Definition anchor_of (s : Schedule) : option Z :=
  date_parse (default (sch_createdAt s) (sch_lastRunAt s)).
Definition with_lastRunAt (s : Schedule) (iso : string) : Schedule :=
  mkSchedule (sch_id s) (sch_name s) (sch_cron s) (sch_enabled s) (sch_createdAt s)
    (sch_updatedAt s) (Some iso) (sch_class s) (sch_policy s).
Definition class_of (s : Schedule) : CampaignClass := default DEFAULT_SCHEDULE_CLASS (sch_class s).
(** The run that covers [count] due ticks, the last of which is [tick]. *)
Definition scheduled_run (s : Schedule) (tick now count : Z) : ScheduledRun :=
  mkRun (cat ["srun-"; sch_id s; "-"; num_to_string tick]) (sch_id s) (sch_name s) (sch_cron s)
    (to_iso_string tick) (to_iso_string now) count (1 <? count) [SCHEDULED_RUN_TAG]
    (scheduledCampaignIdempotencyKey (sch_id s) (to_iso_string tick)) (class_of s).
Definition recorded (history : list ScheduledRun) (id iso : string) : bool :=
  existsb (fun r => bool_decide (run_scheduleId r = id) && bool_decide (run_scheduledFor r = iso))
    history.
(** What is done with the due ticks of one schedule. *)
Definition settle_ticks (windows : SchedulingWindows) (history : list ScheduledRun) (now : Z)
    (s : Schedule) (dueTicks : list Z)
  : Schedule * option ScheduledRun * option DeferredSchedule :=
  match last dueTicks with
  | None => (s, None, None)
  | Some lastTick =>
      let campaignClass := class_of s in
      if negb (isWindowOpen windows campaignClass now)
      then (s, None, Some (mkDeferred (sch_id s) campaignClass
                             (secondsUntilWindowOpens windows campaignClass now)))
      else
        let iso := to_iso_string lastTick in
        (with_lastRunAt s iso,
         if recorded history (sch_id s) iso then None
         else Some (scheduled_run s lastTick now (Z.of_nat (length dueTicks))),
         None)
  end.
Definition evaluate_schedule (maxTicks : nat) (windows : SchedulingWindows)
    (history : list ScheduledRun) (now : Z) (s : Schedule)
  : Schedule * option ScheduledRun * option DeferredSchedule :=
  if negb (sch_enabled s) then (s, None, None)
  else
    match parseCron (sch_cron s) with
    | Err _ => (s, None, None)
    | Ok expr =>
        match anchor_of s with
        | None => (s, None, None)
        | Some anchor =>
            settle_ticks windows history now s
              (due_loop (nextRun expr) maxTicks anchor (floorToMinute now))
        end
    end.
Definition run_priority (r : ScheduledRun) : Z := CAMPAIGN_CLASS_PRIORITY (run_class r).
Definition evaluateTick (maxTicks : nat) (windows : SchedulingWindows) (schedules : list Schedule)
    (history : list ScheduledRun) (now : Z) : TickOutcome :=
  let results := evaluate_schedule maxTicks windows history now <$> schedules in
  let created := sort_on run_priority (omap (fun r => r.1.2) results) in
  mkOutcome ((fun r => r.1.1) <$> results) (history ++ created) created (omap snd results).

(** ** Misfire recovery *)

Record MisfireRecord : Type := mkMisfire { mis_scheduleId : string; mis_missed : Z }.
Definition MAX_MISFIRE_SCAN_TICKS : nat := Z.to_nat 100000.
Definition misfire_policy (s : Schedule) : MisfirePolicy :=
  default run_immediately (pol_misfire <$> sch_policy s).
Definition recover_schedule (maxTicks : nat) (now : Z) (s : Schedule)
  : Schedule * option MisfireRecord :=
  if negb (sch_enabled s) then (s, None)
  else
    match misfire_policy s with
    | run_immediately => (s, None)
    | misfire_skip =>
        match parseCron (sch_cron s) with
        | Err _ => (s, None)
        | Ok expr =>
            match anchor_of s with
            | None => (s, None)
            | Some anchor =>
                let missed := due_loop (nextRun expr) maxTicks anchor now in
                match last missed with
                | None => (s, None)
                | Some lastMissed =>
                    (with_lastRunAt s (to_iso_string lastMissed),
                     Some (mkMisfire (sch_id s) (Z.of_nat (length missed))))
                end
            end
        end
    end.
Definition applyMisfirePolicies (maxTicks : nat) (schedules : list Schedule) (now : Z)
  : list Schedule * list MisfireRecord :=
  let results := recover_schedule maxTicks now <$> schedules in (results.*1, omap snd results).

Definition recordExecutionLedgerEntry (ledger : ExecutionLedger) (e : ExecutionLedgerEntry)
  : ExecutionLedger :=
  <[ent_scheduleId e := default [] (ledger !! ent_scheduleId e) ++ [e]]> ledger.

(** ** The tick route *)

Inductive TickReply : Type :=
  | TickIdempotent
  | TickDone (outcome : TickOutcome) (misfires : list MisfireRecord).
Definition tick_record_id (now : Z) : string :=
  cat ["tick-"; "tick_"; num_to_string (now / 60000)].
Definition created_entry (r : ScheduledRun) : ExecutionLedgerEntry :=
  mkEntry (run_scheduleId r) (run_scheduleName r) (run_scheduledFor r) (run_id r) success
    (run_executedAt r) (run_executedAt r).
Definition deferred_entry (now : Z) (d : DeferredSchedule) : ExecutionLedgerEntry :=
  let iso := to_iso_string now in
  mkEntry (def_scheduleId d) (def_scheduleId d) iso
    (cat ["deferred-"; def_scheduleId d; "-"; num_to_string now]) skipped_overlap iso iso.
(** The record of the tick itself; [clock] is the [new Date()] it reads. *)
Definition tick_record (now clock count : Z) : ScheduledRun :=
  mkRun (tick_record_id now) "system" "Tick Evaluation" "* * * * *" (to_iso_string now)
    (to_iso_string clock) count false ["system:tick"]
    (scheduledCampaignIdempotencyKey "system" (to_iso_string now)) DEFAULT_SCHEDULE_CLASS.
Definition tick_with (maxScan maxTicks : nat) (windows : SchedulingWindows) (st : SchedulerState)
    (now clock : Z) : SchedulerState * TickReply :=
  if existsb (fun r => bool_decide (run_id r = tick_record_id now) ||
                       bool_decide (run_scheduledFor r = to_iso_string now)) (st_history st)
  then (st, TickIdempotent)
  else
    let '(recovered, misfires) := applyMisfirePolicies maxScan (st_schedules st) now in
    let outcome := evaluateTick maxTicks windows recovered (st_history st) now in
    let ledger := foldl recordExecutionLedgerEntry (st_ledger st)
                    ((created_entry <$> out_created outcome) ++
                     (deferred_entry now <$> out_deferred outcome)) in
    (mkState (out_schedules outcome)
       (out_history outcome ++ [tick_record now clock (Z.of_nat (length (out_created outcome)))])
       ledger,
     TickDone outcome misfires).
(** [POST /api/schedules/tick], once authenticated and holding the lock. *)
Definition tick_route (windows : SchedulingWindows) (st : SchedulerState) (now clock : Z)
  : SchedulerState * TickReply :=
  tick_with MAX_MISFIRE_SCAN_TICKS DEFAULT_MAX_CATCHUP_TICKS windows st now clock.
#[global] Strategy expand [tick_route].

Definition sample_schedule (p : MisfirePolicy) : Schedule :=
  mkSchedule "s1" "Hourly" "0 * * * *" true "2026-03-01T00:00:00.000Z" "2026-03-01T00:00:00.000Z"
    None None (Some (mkPolicy p 3 overlap_skip)).
Example tick_example :
  let o := evaluateTick 100 no_windows [sample_schedule run_immediately] [] 1772335845000 in
  (fun r => (run_scheduledFor r, run_tickCount r, run_caughtUp r)) <$> out_created o
  = [("2026-03-01T03:00:00.000Z", 3, true)].
Proof. vm_compute. reflexivity. Qed.

(** ** The locks *)

(** [createInMemoryCronLock]: acquisition time and time to live, by lock id. *)
Definition LOCK_TTL_SECONDS : Z := 60.
Definition mem_acquire (locks : gmap string (Z * Z)) (lockId : string) (now : Z) : gmap string (Z * Z) * bool :=
  match locks !! lockId with
  | Some (acquiredAt, ttl) =>
      if now - acquiredAt <? ttl * 1000 then (locks, false)
      else (<[lockId := (now, LOCK_TTL_SECONDS)]> locks, true)
  | None => (<[lockId := (now, LOCK_TTL_SECONDS)]> locks, true)
  end.
Definition mem_release (locks : gmap string (Z * Z)) (lockId : string) : gmap string (Z * Z) := delete lockId locks.
Definition mem_isLocked (locks : gmap string (Z * Z)) (lockId : string) (now : Z) : gmap string (Z * Z) * bool :=
  match locks !! lockId with
  | None => (locks, false)
  | Some (acquiredAt, ttl) =>
      if ttl * 1000 <? now - acquiredAt then (delete lockId locks, false) else (locks, true)
  end.

(** [createCronLock]: the lock is a run record of the storage driver, written
    ([has_put]) by drivers that offer [putRun].  [acquire] gives way between the
    read and the write, so it is two segments. *)
Definition createLockKey (lockId : string) : string := cat ["cron:tick:lock:"; lockId].
Inductive Acquire : Type := AcqStart | AcqRead | AcqDone (acquired : bool).
Definition acquire_step (has_put : bool) (runs : gset string) (lockId : string) (p : Acquire)
  : gset string * Acquire :=
  let key := createLockKey lockId in
  match p with
  | AcqStart => (runs, if decide (key ∈ runs) then AcqDone false else AcqRead)
  | AcqRead => (if has_put then {[key]} ∪ runs else runs, AcqDone true)
  | AcqDone b => (runs, AcqDone b)
  end.
Definition driver_release (runs : gset string) (lockId : string) : gset string :=
  runs ∖ {[createLockKey lockId]}.
Definition driver_isLocked (runs : gset string) (lockId : string) : bool :=
  bool_decide (createLockKey lockId ∈ runs).

(** ** The due ticks of a schedule *)

(** [ticks] lists, in order, the minutes in [(a, limit]] the expression
    matches. *)
Definition lists_matches (e : CronExpression) (a limit : Z) (ticks : list Z) : Prop :=
  StronglySorted Z.lt ticks /\ forall u, u ∈ ticks <-> matches e u /\ a < u <= limit.
(** Instants the theorems cover: from 1970 to the year 9999. *)
Definition plain_instant (t : Z) : Prop := 0 <= t < 253402300800000.

(** At most [n] whole minutes lie in [(a, limit]]. *)
Definition minutes_within (n : nat) (a limit : Z) : Prop := limit / 60000 - a / 60000 <= Z.of_nat n.

Lemma lists_nothing e a limit : (forall u, matches e u -> ~ a < u <= limit) -> lists_matches e a limit [].
Proof.
  intros H. split; [constructor|]. intros u. split; [intros Hu; by apply elem_of_nil in Hu|].
  intros [Hu Hr]. by destruct (H u Hu).
Qed.
Lemma due_loop_lists e n a limit :
  wf_cron e -> 0 <= a -> limit < 253402300800000 -> minutes_within n a limit ->
  lists_matches e a limit (due_loop (nextRun e) n a limit).
Proof.
  intros Hwf. unfold minutes_within. revert a.
  induction n as [|n IH]; intros a Ha Hl Hc; cbn [due_loop].
  { apply lists_nothing. intros u [Hu _]. lia. }
  destruct (nextRun e a) as [t|] eqn:E.
  - apply nextRun_next in E as (Hlt & Hm & Hno); [|done].
    destruct (Z.ltb_spec limit t).
    { apply lists_nothing. intros u Hu Hr. apply (Hno u); [lia|done]. }
    assert (t mod 60000 = 0) by apply Hm.
    destruct (IH t ltac:(lia) Hl) as [Hs He]; [lia|]. split.
    + constructor; [done|]. apply Forall_forall. intros u Hu. apply He in Hu. lia.
    + intros u. rewrite elem_of_cons, He. split.
      * intros [->|[? ?]]; (split; [done|lia]).
      * intros [Hu Hr]. destruct (Z.lt_trichotomy u t) as [?|[?|?]];
          [|by left|right; split; [done|lia]].
        exfalso. apply (Hno u); [lia|done].
  - destruct (Z.le_gt_cases a limit).
    + apply lists_nothing. intros u Hu _. revert Hu. apply (nextRun_None e a); [done| |done].
      unfold max_time, ms_per_day. lia.
    + apply lists_nothing. intros u _ Hr. lia.
Qed.
Lemma lists_matches_last e a limit ticks t :
  lists_matches e a limit ticks -> last ticks = Some t ->
  matches e t /\ a < t <= limit /\ forall u, matches e u -> a < u <= limit -> u <= t.
Proof.
  intros [Hs He] Hl. assert (t ∈ ticks) as Ht by (by apply last_Some_elem_of).
  apply He in Ht as [Hm Hr]. split; [done|]. split; [done|]. intros u Hu Hur.
  assert (u ∈ ticks) as Hin by (by apply He). clear He.
  revert Hl Hin. induction Hs as [|x l Hs IH Hx]; intros Hl Hin; [done|].
  destruct l as [|y l]; [cbn in Hl; injection Hl as ->; apply elem_of_cons in Hin as [->|Hin];
    [lia|by apply elem_of_nil in Hin]|].
  change (last (x :: y :: l)) with (last (y :: l)) in Hl.
  apply elem_of_cons in Hin as [->|Hin]; [|by apply IH].
  rewrite Forall_forall in Hx. assert (t ∈ y :: l) by (by apply last_Some_elem_of).
  specialize (Hx t ltac:(done)). lia.
Qed.
Lemma lists_matches_none e a limit ticks :
  lists_matches e a limit ticks -> (forall u, matches e u -> ~ a < u <= limit) -> ticks = [].
Proof.
  intros [_ He] Hno. destruct ticks as [|t l]; [done|]. exfalso.
  destruct (proj1 (He t)) as [Hm Hr]; [by left|]. by apply (Hno t).
Qed.

(** What the evaluator needs of a schedule for the caps not to matter: if it
    is enabled and its expression and anchor parse, the anchor is not before
    1970 and at most [n] minutes ago. *)
Definition within_cap (n : nat) (now : Z) (s : Schedule) : Prop :=
  forall e a, sch_enabled s = true -> parseCron (sch_cron s) = Ok e -> anchor_of s = Some a ->
    0 <= a /\ minutes_within n a now.

Lemma floorToMinute_spec now : floorToMinute now <= now < floorToMinute now + 60000.
Proof. unfold floorToMinute. lia. Qed.
Lemma matches_floor e u now : matches e u -> u <= floorToMinute now <-> u <= now.
Proof. intros [Hu _]. unfold floorToMinute. lia. Qed.
Lemma due_now n s now e a :
  plain_instant now -> within_cap n now s -> sch_enabled s = true ->
  parseCron (sch_cron s) = Ok e -> anchor_of s = Some a ->
  lists_matches e a now (due_loop (nextRun e) n a (floorToMinute now)).
Proof.
  intros Hn Hcap Hen Hp Ha. destruct (Hcap e a Hen Hp Ha) as [H0 Hc].
  apply parseCron_fields in Hp as [Hwf _]. unfold plain_instant in Hn.
  pose proof (floorToMinute_spec now).
  destruct (due_loop_lists e n a (floorToMinute now)) as [Hs He]; [done|done|lia| |].
  - unfold minutes_within, floorToMinute in *. lia.
  - split; [done|]. intros u. rewrite He. split.
    + intros [Hm Hr]. split; [done|]. lia.
    + intros [Hm Hr]. split; [done|]. pose proof (matches_floor e u now Hm). lia.
Qed.

(** One evaluation of a schedule does what the schedule asks.  Let [ticks]
    be the minutes after its anchor and up to now that its expression matches:
    with none the schedule is left alone; with its class window closed it is
    deferred and keeps its anchor; otherwise the anchor moves to the last tick
    and, unless history already holds that slot, exactly one run is created for
    it, that counts all the ticks and is marked as a catch-up when there are
    several. *)
Theorem evaluate_schedule_spec (n : nat) (windows : SchedulingWindows)
    (history : list ScheduledRun) (now a : Z) (s : Schedule) (e : CronExpression) :
  plain_instant now -> within_cap n now s -> sch_enabled s = true ->
  parseCron (sch_cron s) = Ok e -> anchor_of s = Some a ->
  exists ticks, lists_matches e a now ticks /\
    match last ticks with
    | None => evaluate_schedule n windows history now s = (s, None, None)
    | Some t =>
        if isWindowOpen windows (class_of s) now then
          evaluate_schedule n windows history now s
          = (with_lastRunAt s (to_iso_string t),
             if recorded history (sch_id s) (to_iso_string t) then None
             else Some (scheduled_run s t now (Z.of_nat (length ticks))), None)
        else evaluate_schedule n windows history now s
          = (s, None, Some (mkDeferred (sch_id s) (class_of s)
                              (secondsUntilWindowOpens windows (class_of s) now)))
    end.
Proof.
  intros Hn Hcap Hen Hp Ha. pose proof (due_now n s now e a Hn Hcap Hen Hp Ha) as Hd.
  exists (due_loop (nextRun e) n a (floorToMinute now)). split; [done|].
  unfold evaluate_schedule, settle_ticks. rewrite Hen, Hp, Ha. cbn [negb].
  destruct (last _); [|done]. by destruct (isWindowOpen windows (class_of s) now).
Qed.
Theorem evaluate_schedule_spec_witness :
  exists e ticks, parseCron "0 * * * *" = Ok e /\
    lists_matches e 1772323200000 1772335845000 ticks.
Proof.
  destruct (evaluate_schedule_spec 300 no_windows [] 1772335845000 1772323200000
    (sample_schedule run_immediately)
    (mkCron "0 * * * *" [0] (Z.of_nat <$> seq 0 24) (Z.of_nat <$> seq 1 31) (Z.of_nat <$> seq 1 12)
       (Z.of_nat <$> seq 0 7) false false)) as (ticks & H & _).
  - unfold plain_instant. lia.
  - intros e a _ _ Ha. vm_compute in Ha. injection Ha as <-. unfold minutes_within. lia.
  - reflexivity.
  - vm_compute. reflexivity.
  - vm_compute. reflexivity.
  - eexists _, ticks. split; [|exact H]. vm_compute. reflexivity.
Defined.

(** ** Idempotence *)

Lemma anchor_with_lastRunAt s t : iso_range t -> anchor_of (with_lastRunAt s (to_iso_string t)) = Some t.
Proof. intros Ht. unfold anchor_of. cbn. by apply date_parse_iso. Qed.
Lemma plain_iso t now : 0 <= t <= now -> plain_instant now -> iso_range t.
Proof. unfold plain_instant, iso_range. lia. Qed.
Lemma no_more_ticks e n t now :
  0 <= t -> (forall u, matches e u -> t < u -> now < u) ->
  due_loop (nextRun e) n t (floorToMinute now) = [].
Proof.
  intros Ht H. destruct n as [|n]; cbn [due_loop]; [done|].
  destruct (nextRun e t) as [u|] eqn:E; [|done]. apply nextRun_next in E as (Hlt & Hm & _); [|done].
  pose proof (floorToMinute_spec now). specialize (H u Hm Hlt).
  by rewrite (proj2 (Z.ltb_lt _ _)) by lia.
Qed.
(** A schedule whose anchor is at its last due tick has nothing to do. *)
Lemma evaluate_settled n windows history now s e a t :
  plain_instant now -> sch_enabled s = true -> parseCron (sch_cron s) = Ok e ->
  0 <= a -> a < t <= now -> (forall u, matches e u -> a < u <= now -> u <= t) ->
  evaluate_schedule n windows history now (with_lastRunAt s (to_iso_string t))
  = (with_lastRunAt s (to_iso_string t), None, None).
Proof.
  intros Hn Hen Hp Ha Ht Hlast. unfold evaluate_schedule. cbn [sch_enabled with_lastRunAt sch_cron].
  rewrite Hen, Hp. cbn [negb].
  change (anchor_of _) with (anchor_of (with_lastRunAt s (to_iso_string t))).
  rewrite anchor_with_lastRunAt by (apply (plain_iso t now); [lia|done]).
  rewrite no_more_ticks; [done|lia|]. intros u Hu Htu.
  destruct (Z.le_gt_cases u now); [|lia]. specialize (Hlast u Hu). lia.
Qed.
Lemma evaluate_twice n windows history history' now s :
  plain_instant now -> within_cap n now s ->
  let r := evaluate_schedule n windows history now s in
  let r' := evaluate_schedule n windows history' now r.1.1 in
  r'.1.1 = r.1.1 /\ r'.1.2 = None /\ r'.2 = r.2.
Proof.
  intros Hn Hcap r r'. subst r'.
  assert (Hcases : (r.1.1 = s /\ r.1.2 = None /\
      forall h, evaluate_schedule n windows h now s = (s, None, r.2)) \/
    (r.2 = None /\ forall h, evaluate_schedule n windows h now r.1.1 = (r.1.1, None, None))).
  { subst r. destruct (sch_enabled s) eqn:Hen;
      [|left; unfold evaluate_schedule; rewrite Hen; auto].
    destruct (parseCron (sch_cron s)) as [e|err] eqn:Hp;
      [|left; unfold evaluate_schedule; rewrite Hen, Hp; auto].
    destruct (anchor_of s) as [a|] eqn:Ha;
      [|left; unfold evaluate_schedule; rewrite Hen, Hp, Ha; auto].
    pose proof (due_now n s now e a Hn Hcap Hen Hp Ha) as Hd.
    destruct (Hcap e a Hen Hp Ha) as [H0 _].
    assert (E : forall h, evaluate_schedule n windows h now s
      = settle_ticks windows h now s (due_loop (nextRun e) n a (floorToMinute now)))
      by (intros h; unfold evaluate_schedule; by rewrite Hen, Hp, Ha).
    rewrite (E history). unfold settle_ticks in *.
    destruct (last _) as [t|] eqn:El; [|by left].
    destruct (isWindowOpen windows (class_of s) now) eqn:Ew; cbn [negb fst snd] in *; [|by left].
    right. split; [done|]. intros h.
    destruct (lists_matches_last e a now _ t Hd El) as (Hm & Hr & Hmax).
    by apply (evaluate_settled n windows h now s e a t). }
  destruct Hcases as [(E1 & E2 & H)|[E2 H]].
  - rewrite E1, (H history'). done.
  - rewrite (H history'). cbn. done.
Qed.


(** ** Skipped misfires *)

Lemma recover_then_evaluate n m windows history now s :
  plain_instant now -> misfire_policy s = misfire_skip -> within_cap n now s ->
  evaluate_schedule m windows history now (recover_schedule n now s).1
  = ((recover_schedule n now s).1, None, None).
Proof.
  intros Hn Hskip Hcap. unfold recover_schedule. rewrite Hskip.
  destruct (sch_enabled s) eqn:Hen; cbn [negb];
    [|unfold evaluate_schedule; cbn [fst]; by rewrite Hen].
  destruct (parseCron (sch_cron s)) as [e|err] eqn:Hp;
    [|unfold evaluate_schedule; cbn [fst]; by rewrite Hen, Hp].
  destruct (anchor_of s) as [a|] eqn:Ha;
    [|unfold evaluate_schedule; cbn [fst]; by rewrite Hen, Hp, Ha].
  destruct (Hcap e a Hen Hp Ha) as [H0 Hc].
  assert (Hd : lists_matches e a now (due_loop (nextRun e) n a now)).
  { apply due_loop_lists; [by apply parseCron_fields in Hp as []|done| |done].
    unfold plain_instant in Hn. lia. }
  destruct (last _) as [t|] eqn:El; cbn [fst].
  - destruct (lists_matches_last e a now _ t Hd El) as (Hm & Hr & Hmax).
    by apply (evaluate_settled m windows history now s e a t).
  - unfold evaluate_schedule. rewrite Hen, Hp, Ha. cbn [negb].
    rewrite no_more_ticks; [done|done|]. intros u Hu Hau.
    destruct (Z.le_gt_cases u now); [|lia]. exfalso.
    assert (u ∈ due_loop (nextRun e) n a now) as Hin by (apply Hd; split; [done|lia]).
    apply last_None in El. rewrite El in Hin. by apply elem_of_nil in Hin.
Qed.
Lemma recover_id n now s : sch_id (recover_schedule n now s).1 = sch_id s.
Proof. unfold recover_schedule. repeat case_goal; done. Qed.
Lemma evaluate_run_id n windows history now s r :
  (evaluate_schedule n windows history now s).1.2 = Some r -> run_scheduleId r = sch_id s.
Proof.
  unfold evaluate_schedule, settle_ticks. repeat case_goal; cbn; try done. by intros [= <-].
Qed.

(** A schedule with the [skip] misfire policy never fires: the tick route
    discards its missed slots up to and including the one due now before it
    evaluates it, so every run a tick creates is of a schedule whose policy is
    not [skip]. *)
Theorem tick_never_fires_skip (maxScan maxTicks : nat) (windows : SchedulingWindows)
    (st : SchedulerState) (now clock : Z) (o : TickOutcome) (mis : list MisfireRecord) :
  plain_instant now -> Forall (within_cap maxScan now) (st_schedules st) ->
  (tick_with maxScan maxTicks windows st now clock).2 = TickDone o mis ->
  forall r, r ∈ out_created o ->
    exists s, s ∈ st_schedules st /\ sch_id s = run_scheduleId r /\ misfire_policy s <> misfire_skip.
Proof.
  intros Hn Hcap H r Hr. unfold tick_with in H. destruct (existsb _ _); [done|].
  cbn [applyMisfirePolicies] in H. unfold applyMisfirePolicies in H. cbn [snd] in H.
  injection H as <- _. unfold evaluateTick in Hr. cbn [out_created] in Hr.
  unfold sort_on in Hr. apply elem_of_sort_by in Hr.
  apply list_elem_of_omap in Hr as (res & Hres & Er).
  apply list_elem_of_fmap in Hres as (s' & -> & Hs').
  apply list_elem_of_fmap in Hs' as (rec & -> & Hrec).
  apply list_elem_of_fmap in Hrec as (s & -> & Hs).
  exists s. split; [done|]. split.
  - apply evaluate_run_id in Er. by rewrite Er, recover_id.
  - intros Hskip. rewrite Forall_forall in Hcap.
    rewrite (recover_then_evaluate maxScan) in Er; [done|done|done|by apply Hcap].
Qed.
(** The hourly schedule at exactly 03:00: three slots are discarded. *)
Theorem tick_never_fires_skip_witness :
  exists o, (tick_with 300 300 no_windows (mkState [sample_schedule misfire_skip] [] ∅)
               1772334000000 1772334000000).2 = TickDone o [mkMisfire "s1" 3] /\
    forall r, r ∈ out_created o -> exists s, s ∈ [sample_schedule misfire_skip] /\
      sch_id s = run_scheduleId r /\ misfire_policy s <> misfire_skip.
Proof.
  eexists. split; [vm_compute; reflexivity|].
  apply (tick_never_fires_skip 300 300 no_windows (mkState [sample_schedule misfire_skip] [] ∅)
    1772334000000 1772334000000 _ [mkMisfire "s1" 3]).
  - unfold plain_instant. lia.
  - apply Forall_cons_2; [|apply Forall_nil_2].
    intros e a _ _ Ha. vm_compute in Ha. injection Ha as <-. unfold minutes_within. lia.
  - vm_compute. reflexivity.
Defined.

(** ** Locks *)

(** The in-memory lock excludes other holders for exactly its 60 seconds:
    after an acquisition at [t] nobody acquires the same lock before [t + 60s]
    unless it is released, and from then on the next attempt succeeds whether
    or not the first tick has ended - even at the instant [t + 60s], at which
    [isLocked] still reports it as held. *)
Theorem mem_lock_exclusion (locks locks' : gmap string (Z * Z)) (lockId : string) (t t' : Z) :
  mem_acquire locks lockId t = (locks', true) -> t <= t' ->
  ((mem_acquire locks' lockId t').2 = true <-> t + 60000 <= t') /\
  (mem_acquire (mem_release locks' lockId) lockId t').2 = true /\
  ((mem_isLocked locks' lockId t').2 = true <-> t' <= t + 60000) /\
  (forall other, other <> lockId -> locks' !! other = locks !! other).
Proof.
  intros H Ht.
  assert (E : locks' = <[lockId := (t, LOCK_TTL_SECONDS)]> locks).
  { unfold mem_acquire in H. destruct (locks !! lockId) as [[acq ttl]|]; [|by injection H as <-].
    destruct (_ <? _); [done|]. by injection H as <-. }
  subst locks'. unfold mem_acquire, mem_release, mem_isLocked. rewrite lookup_insert_eq.
  rewrite lookup_delete_eq. unfold LOCK_TTL_SECONDS. split; [|split; [done|split]].
  - destruct (Z.ltb_spec (t' - t) (60 * 1000)); cbn; split; try done; lia.
  - destruct (Z.ltb_spec (60 * 1000) (t' - t)); cbn; split; try done; lia.
  - intros other Hne. by rewrite lookup_insert_ne by congruence.
Qed.
Theorem mem_lock_exclusion_witness :
  (mem_acquire (mem_acquire ∅ "tick:1" 0).1 "tick:1" 60000).2 = true /\
  (mem_isLocked (mem_acquire ∅ "tick:1" 0).1 "tick:1" 60000).2 = true.
Proof.
  destruct (mem_lock_exclusion ∅ (mem_acquire ∅ "tick:1" 0).1 "tick:1" 0 60000)
    as (H1 & _ & H3 & _); [reflexivity|lia|]. split; [apply H1; lia|apply H3; lia].
Defined.

(** The storage-driver lock is not exclusive: two ticks that interleave between
    its read and its write both acquire it, and a driver without [putRun] never
    excludes anybody. *)
Lemma driver_lock_race (has_put : bool) (lockId : string) :
  let '(r1, p1) := acquire_step has_put ∅ lockId AcqStart in
  let '(r2, p2) := acquire_step has_put r1 lockId AcqStart in
  let '(r3, q1) := acquire_step has_put r2 lockId p1 in
  let '(r4, q2) := acquire_step has_put r3 lockId p2 in
  q1 = AcqDone true /\ q2 = AcqDone true.
Proof. unfold acquire_step. rewrite !decide_False by set_solver. done. Qed.
