(* ===== verification/RetryBackoff.v ===== *)
(** [lib/retry-backoff.ts] and the delivery vocabulary of
    [lib/webhook-delivery-worker.ts]: the equal-jitter delay, computed with the
    roundings of double arithmetic, and the statuses worth another attempt. *)

From S2P Require Import Prelude JsNumber JsValue.
From stdpp Require Import base list gmap strings numbers.
From Stdlib Require Import ZArith Lia.
#[local] Open Scope Z_scope.

(** ** Deliveries *)

Record WebhookDeliveryRequest : Type := mkRequest
  { req_id : string; req_url : string; req_eventType : string; req_payload : json;
    req_headers : option (list (string * string));
    req_maxAttempts : option Z; req_timeoutMs : option Z }.
(** What [adapter.deliver] resolves to, or the error it rejects with. *)
Record DeliveryResult : Type := mkDelivery
  { dlv_ok : bool; dlv_statusCode : option Z; dlv_error : option string }.

Definition isRetryableDeliveryStatus (statusCode : option Z) : bool :=
  match statusCode with
  | None => true
  | Some c => if c =? 429 then true else 500 <=? c
  end.

(** ** The delay *)

Record BackoffPolicy : Type := mkBackoff { baseMs : Z; maxMs : Z }.

(** [a / 2 + p] for the double [p]. *)
Definition half_plus (a : Z) (p : Z * Z) : Z * Z :=
  double_ratio (a * 2 ^ Z.max 0 (- p.2) + 2 * (p.1 * 2 ^ Z.max 0 p.2)) (2 * 2 ^ Z.max 0 (- p.2)).
(** [r * (a / 2)] for the double [r = m * 2 ^ -k]. *)
Definition times_half (r : Z * nat) (a : Z) : Z * Z :=
  double_ratio (r.1 * a) (2 * 2 ^ Z.of_nat r.2).
(** [Math.round]: ties go up. *)
Definition math_round (x : Z * Z) : Z :=
  (2 * (x.1 * 2 ^ Z.max 0 x.2) + 2 ^ Z.max 0 (- x.2)) / (2 * 2 ^ Z.max 0 (- x.2)).
Definition backoff_window (attempt : Z) (policy : BackoffPolicy) : Z :=
  Z.min (maxMs policy) (baseMs policy * 2 ^ Z.max 0 (attempt - 1)).
(** [random] is the double [m * 2 ^ -k] that [random()] returns. *)
Definition computeBackoffMs (attempt : Z) (policy : BackoffPolicy) (random : Z * nat) : Z :=
  let window := backoff_window attempt policy in
  math_round (half_plus window (times_half random window)).

(** A value [random()] can return: a double of [0, 1). *)
Definition unit_random (r : Z * nat) : Prop := 0 <= r.1 < 2 ^ Z.of_nat r.2.
(** Whole milliseconds, and a window within the exact range of doubles. *)
Definition wf_backoff (p : BackoffPolicy) : Prop := 0 < baseMs p /\ 0 < maxMs p < 2 ^ 52.

(** The constants of [lib/timeouts.ts]. *)
Definition WEBHOOK_RETRY_BACKOFF_BASE_MS : Z := 30000.
Definition WEBHOOK_RETRY_BACKOFF_MAX_MS : Z := 30 * 60000.
Definition WEBHOOK_RETRY_LEASE_MS : Z := 60000.
Definition WEBHOOK_DLQ_DRAIN_BACKOFF_BASE_MS : Z := 15 * 60000.
Definition WEBHOOK_DLQ_DRAIN_BACKOFF_MAX_MS : Z := 6 * 60 * 60000.
Definition retry_policy : BackoffPolicy :=
  mkBackoff WEBHOOK_RETRY_BACKOFF_BASE_MS WEBHOOK_RETRY_BACKOFF_MAX_MS.
Definition drain_policy : BackoffPolicy :=
  mkBackoff WEBHOOK_DLQ_DRAIN_BACKOFF_BASE_MS WEBHOOK_DLQ_DRAIN_BACKOFF_MAX_MS.

Example backoff_examples :
  computeBackoffMs 1 retry_policy (0, 1%nat) = 15000 /\
  computeBackoffMs 1 retry_policy (1, 1%nat) = 22500 /\
  computeBackoffMs 3 retry_policy (9007199254740991, 53%nat) = 120000 /\
  computeBackoffMs 40 retry_policy (1, 2%nat) = 1125000 /\
  computeBackoffMs 0 (mkBackoff 5 100) (0, 1%nat) = 3.
Proof. vm_compute. done. Qed.

(** ** Lemmas *)

Lemma round_half_even_le n d h : 0 <= n -> 0 < d -> n <= d * h -> round_half_even n d <= h.
Proof. intros Hn Hd Hle. destruct (round_half_even_bounds n d Hn Hd). nia. Qed.
Lemma round_half_even_ge n d h : 0 <= n -> 0 < d -> d * h <= n -> h <= round_half_even n d.
Proof.
  intros Hn Hd Hle. destruct (round_half_even_bounds n d Hn Hd) as [H _].
  assert (h <= n / d) by (apply Z.div_le_lower_bound; lia). lia.
Qed.

(** Rounding [n / d] to a double preserves bounds that are halves of integers,
    which are themselves doubles. *)
Lemma double_ratio_half_bounds n d lo hi :
  0 <= n -> 0 < d -> 0 <= lo -> hi < 2 ^ 53 -> d * lo <= 2 * n <= d * hi ->
  exists k, 0 <= k /\
    let x := double_ratio n d in
    (x.2 = - (k + 1) \/ x = (0, 0)) /\ 0 <= x.1 /\
    lo * 2 ^ Z.max 0 (- x.2) <= 2 * (x.1 * 2 ^ Z.max 0 x.2) <= hi * 2 ^ Z.max 0 (- x.2).
Proof.
  intros Hn Hd Hlo Hhi H. unfold double_ratio. destruct (Z.eqb_spec n 0) as [->|Hn0].
  { exists 0. cbn. split; [done|]. split; [by right|]. split; [done|]. nia. }
  assert (Hl : log2_ratio n d < 52).
  { apply log2_ratio_upper; [lia..|]. change (2 ^ 53) with (2 * 2 ^ 52) in Hhi. nia. }
  set (k := - Z.max (-1074) (log2_ratio n d - 52) - 1). exists k. split; [lia|]. cbn [fst snd].
  replace (Z.max (-1074) (log2_ratio n d - 52)) with (- (k + 1)) by lia.
  rewrite !Z.opp_involutive, (Z.max_r 0 (k + 1)), (Z.max_l 0 (- (k + 1))), Z.pow_0_r, !Z.mul_1_r
    by lia.
  rewrite Z.pow_add_r by lia. change (2 ^ 1) with 2.
  assert (0 < 2 ^ k) by (apply Z.pow_pos_nonneg; lia). set (P := 2 ^ k) in *. clearbody P.
  split; [by left|]. split; [apply round_half_even_ge; nia|]. split.
  - assert (lo * P <= round_half_even (n * (P * 2)) d) by (apply round_half_even_ge; nia). lia.
  - assert (round_half_even (n * (P * 2)) d <= hi * P) by (apply round_half_even_le; nia). lia.
Qed.

Lemma math_round_bounds x lo hi :
  0 <= lo ->
  lo * 2 ^ Z.max 0 (- x.2) <= 2 * (x.1 * 2 ^ Z.max 0 x.2) <= (2 * hi) * 2 ^ Z.max 0 (- x.2) ->
  (lo + 1) / 2 <= math_round x <= hi.
Proof.
  intros Hlo. unfold math_round.
  assert (0 < 2 ^ Z.max 0 (- x.2)) by (apply Z.pow_pos_nonneg; lia).
  set (P := 2 ^ Z.max 0 (- x.2)) in *. set (m := x.1 * 2 ^ Z.max 0 x.2). clearbody P m.
  intros [H1 H2]. split.
  - apply Z.div_le_lower_bound; [lia|]. pose proof (Z.mul_div_le (lo + 1) 2). nia.
  - apply Z.lt_succ_r, Z.div_lt_upper_bound; [lia|]. nia.
Qed.

Lemma backoff_window_range attempt p :
  wf_backoff p -> 0 < backoff_window attempt p < 2 ^ 52.
Proof.
  intros [Hb Hm]. unfold backoff_window.
  assert (0 < 2 ^ Z.max 0 (attempt - 1)) by (apply Z.pow_pos_nonneg; lia). nia.
Qed.

(** The delay lies between half the window, rounded up, and the window. *)
Lemma computeBackoffMs_bounds attempt p r :
  wf_backoff p -> unit_random r ->
  (backoff_window attempt p + 1) / 2 <= computeBackoffMs attempt p r <= backoff_window attempt p.
Proof.
  intros Hp Hr. pose proof (backoff_window_range attempt p Hp) as Hw. unfold computeBackoffMs.
  set (w := backoff_window attempt p) in *. clearbody w. unfold unit_random in Hr.
  assert (HR : 0 < 2 ^ Z.of_nat r.2) by (apply Z.pow_pos_nonneg; lia).
  destruct (double_ratio_half_bounds (r.1 * w) (2 * 2 ^ Z.of_nat r.2) 0 w)
    as (k & Hk & _ & Hx0 & Hx); [nia|lia|lia|lia|nia|].
  fold (times_half r w) in Hx, Hx0. set (x := times_half r w) in *. clearbody x.
  assert (HP : 0 < 2 ^ Z.max 0 (- x.2)) by (apply Z.pow_pos_nonneg; lia).
  assert (HQ : 0 < 2 ^ Z.max 0 x.2) by (apply Z.pow_pos_nonneg; lia).
  unfold half_plus.
  destruct (double_ratio_half_bounds
      (w * 2 ^ Z.max 0 (- x.2) + 2 * (x.1 * 2 ^ Z.max 0 x.2)) (2 * 2 ^ Z.max 0 (- x.2)) w (2 * w))
    as (k' & _ & _ & _ & Hy); [nia|lia|lia|lia|lia|].
  apply math_round_bounds; [lia|exact Hy].
Qed.
Lemma computeBackoffMs_nonneg attempt p r :
  wf_backoff p -> unit_random r -> 0 < computeBackoffMs attempt p r.
Proof.
  intros Hp Hr. pose proof (computeBackoffMs_bounds attempt p r Hp Hr).
  pose proof (backoff_window_range attempt p Hp). lia.
Qed.

(** ** Selection under a cap per receiver

    The loop both the retry tick and the dead-letter drain run over their due
    work: at most [max] items in all and [cap] active ones per target, where
    [counts] holds the active ones; [n] items were taken before. The second
    result counts the items skipped because their target was saturated. *)

Section CappedSelection.
Context {A : Type} (target : A -> string).

Fixpoint take_capped (cap max n : Z) (counts : gmap string Z) (l : list A) : list A * Z :=
  match l with
  | [] => ([], 0)
  | x :: l' =>
      if max <=? n then ([], 0)
      else
        let active := default 0 (counts !! target x) in
        if cap <=? active
        then let r := take_capped cap max n counts l' in (r.1, r.2 + 1)
        else let r := take_capped cap max (n + 1) (<[target x := active + 1]> counts) l' in
             (x :: r.1, r.2)
  end.

(** Items of [l] for the target [t]. *)
Definition on_target (t : string) (l : list A) : list A := filter (fun x => target x = t) l.

Lemma take_capped_sublist cap max n counts l :
  (take_capped cap max n counts l).1 `sublist_of` l.
Proof.
  revert n counts. induction l as [|x l IH]; intros n counts; cbn [take_capped]; [done|].
  destruct (max <=? n); [apply sublist_nil_l|]. destruct (cap <=? _); simpl.
  - by apply sublist_cons.
  - by apply sublist_skip.
Qed.
Lemma take_capped_length cap max n counts l :
  Z.of_nat (length (take_capped cap max n counts l).1) <= Z.max 0 (max - n).
Proof.
  revert n counts. induction l as [|x l IH]; intros n counts; cbn [take_capped]; [simpl; lia|].
  destruct (Z.leb_spec max n); [simpl; lia|]. destruct (cap <=? _); simpl.
  - apply IH.
  - specialize (IH (n + 1) (<[target x := default 0 (counts !! target x) + 1]> counts)). lia.
Qed.
(** No target ends above the cap, unless it started there. *)
Lemma take_capped_cap cap max n counts l t :
  let taken := Z.of_nat (length (on_target t (take_capped cap max n counts l).1)) in
  taken = 0 \/ default 0 (counts !! t) + taken <= cap.
Proof.
  revert n counts. induction l as [|x l IH]; intros n counts; cbn [take_capped]; [by left|].
  destruct (Z.leb_spec max n); [by left|].
  destruct (Z.leb_spec cap (default 0 (counts !! target x))) as [|Hcap]; [apply IH|].
  cbn [fst]. unfold on_target. rewrite filter_cons.
  specialize (IH (n + 1) (<[target x := default 0 (counts !! target x) + 1]> counts)).
  cbn zeta in IH. unfold on_target in IH. case_decide as E.
  - subst t. rewrite lookup_insert_eq in IH. cbn [length default] in *. right.
    unfold id in *. lia.
  - rewrite lookup_insert_ne in IH by done. exact IH.
Qed.
(** Work is left behind only when the batch is full or its target saturated. *)
Lemma take_capped_maximal cap max n counts l x :
  let r := take_capped cap max n counts l in
  x ∈ l -> x ∈ r.1 \/ max <= n + Z.of_nat (length r.1)
         \/ cap <= default 0 (counts !! target x) + Z.of_nat (length (on_target (target x) r.1)).
Proof.
  revert n counts. induction l as [|y l IH]; intros n counts; cbn [take_capped].
  { intros Hx. by apply elem_of_nil in Hx. }
  destruct (Z.leb_spec max n); [intros _; right; left; simpl; lia|].
  intros Hx. apply elem_of_cons in Hx.
  destruct (Z.leb_spec cap (default 0 (counts !! target y))) as [Hcap|Hcap]; cbn [fst].
  - destruct Hx as [->|Hx]; [right; right; lia|]. by apply IH.
  - destruct Hx as [->|Hx]; [left; apply list_elem_of_here|].
    destruct (IH (n + 1) (<[target y := default 0 (counts !! target y) + 1]> counts) Hx)
      as [H1|[H1|H1]].
    + left. by apply list_elem_of_further.
    + right; left. cbn [length]. lia.
    + right; right. unfold on_target in *. rewrite filter_cons. case_decide as E.
      * rewrite E, lookup_insert_eq in H1. rewrite E. cbn [default length] in *. unfold id in *. lia.
      * rewrite lookup_insert_ne in H1 by done. exact H1.
Qed.
(** When the batch does not fill up, what is not taken is counted as skipped. *)
Lemma take_capped_skipped cap max n counts l :
  let r := take_capped cap max n counts l in
  0 <= r.2 /\ Z.of_nat (length r.1) + r.2 <= Z.of_nat (length l) /\
  (n + Z.of_nat (length r.1) < max -> Z.of_nat (length r.1) + r.2 = Z.of_nat (length l)).
Proof.
  revert n counts. induction l as [|y l IH]; intros n counts; cbn [take_capped]; [simpl; lia|].
  destruct (Z.leb_spec max n); [simpl; lia|].
  destruct (cap <=? default 0 (counts !! target y)); cbn [fst snd length].
  - specialize (IH n counts). cbn zeta in IH. lia.
  - specialize (IH (n + 1) (<[target y := default 0 (counts !! target y) + 1]> counts)).
    cbn zeta in IH. lia.
Qed.

(** Starting with nothing active. *)
Lemma take_capped_cap_empty cap max l t :
  Z.of_nat (length (on_target t (take_capped cap max 0 ∅ l).1)) <= Z.max 0 cap.
Proof.
  destruct (take_capped_cap cap max 0 ∅ l t) as [H|H]; [lia|].
  rewrite lookup_empty in H. cbn [default] in H. unfold id in H. lia.
Qed.
Lemma take_capped_maximal_empty cap max l x :
  let r := take_capped cap max 0 ∅ l in
  x ∈ l -> x ∈ r.1 \/ max <= Z.of_nat (length r.1)
         \/ cap <= Z.of_nat (length (on_target (target x) r.1)).
Proof.
  intros r Hx. destruct (take_capped_maximal cap max 0 ∅ l x Hx) as [H|[H|H]]; [by left|right; left|right; right].
  - subst r. lia.
  - rewrite lookup_empty in H. cbn [default] in H. unfold id in H. subst r. lia.
Qed.
End CappedSelection.

(** ** The property *)

(** "The delay for attempt N is drawn uniformly from [cap/2, cap] where
    cap = min(maxMs, baseMs * 2^(N-1))": with the two roundings of double
    arithmetic and [Math.round], every delay is a whole number of milliseconds
    between half the window, rounded up, and the window; the window starts at
    [baseMs], doubles with each attempt and never exceeds [maxMs]. *)
Theorem computeBackoffMs_in_window attempt p r :
  wf_backoff p -> unit_random r ->
  let w := backoff_window attempt p in
  (w + 1) / 2 <= computeBackoffMs attempt p r <= w /\ w <= maxMs p /\
  backoff_window 1 p = Z.min (maxMs p) (baseMs p) /\
  (1 <= attempt -> backoff_window (attempt + 1) p = Z.min (maxMs p) (2 * w)).
Proof.
  intros Hp Hr w. split; [by apply computeBackoffMs_bounds|]. subst w. unfold backoff_window.
  split; [lia|]. split; [by rewrite Z.max_l, Z.pow_0_r, Z.mul_1_r by lia|]. intros Ha.
  replace (Z.max 0 (attempt + 1 - 1)) with (Z.succ (Z.max 0 (attempt - 1))) by lia.
  rewrite Z.pow_succ_r by lia. destruct Hp. nia.
Qed.
Lemma computeBackoffMs_in_window_witness :
  computeBackoffMs 3 retry_policy (5, 3%nat) = 97500 /\ 60000 <= 97500 <= 120000.
Proof.
  assert (Hp : wf_backoff retry_policy) by (split; vm_compute; auto; split; reflexivity).
  assert (Hr : unit_random (5, 3%nat)) by (split; vm_compute; [discriminate|reflexivity]).
  assert (E : computeBackoffMs 3 retry_policy (5, 3%nat) = 97500) by (vm_compute; reflexivity).
  destruct (computeBackoffMs_in_window 3 retry_policy (5, 3%nat) Hp Hr) as [H _].
  rewrite E in H. split; [exact E|]. exact H.
Defined.
