(* ===== verification/DeliveryLedger.v ===== *)
(** The abstract specification of a durable delivery queue: which requests are
    open, delivered and dead-lettered, and the only ways these sets may change.
    [WebhookRetry] implements it. *)

From S2P Require Import Prelude.
From stdpp Require Import base list sets fin_sets gmap strings.

Record Duties : Type := mkDuties
  { ldg_open : gset string; ldg_delivered : gset string; ldg_buried : gset string }.
Definition no_duties : Duties := mkDuties ∅ ∅ ∅.

(** A request closes by being delivered or buried; an answer that comes late may
    settle a request that is not open any more. *)
Inductive duty_step : Duties -> Duties -> Prop :=
  | ledger_stutter l : duty_step l l
  | ledger_open id op dl bu : duty_step (mkDuties op dl bu) (mkDuties ({[ id ]} ∪ op) dl bu)
  | ledger_deliver id op dl bu :
      duty_step (mkDuties op dl bu) (mkDuties (op ∖ {[ id ]}) ({[ id ]} ∪ dl) bu)
  | ledger_bury id op dl bu :
      duty_step (mkDuties op dl bu) (mkDuties (op ∖ {[ id ]}) dl ({[ id ]} ∪ bu)).

(** What was accepted once stays accounted for. *)
Definition known (id : string) (l : Duties) : Prop :=
  id ∈ ldg_open l ∪ ldg_delivered l ∪ ldg_buried l.
Lemma ledger_known_step id l l' : duty_step l l' -> known id l -> known id l'.
Proof.
  unfold known. intros Hs. destruct Hs as [l|id'|id'|id']; cbn; [done|set_solver| |];
    destruct (decide (id = id')); set_solver.
Qed.
Lemma ledger_known id l l' : rtc duty_step l l' -> known id l -> known id l'.
Proof. apply (reachable_inv duty_step (known id)), ledger_known_step. Qed.
(** Settled requests stay settled. *)
Lemma ledger_settled_step id l l' :
  duty_step l l' -> id ∈ ldg_delivered l ∪ ldg_buried l -> id ∈ ldg_delivered l' ∪ ldg_buried l'.
Proof. intros Hs. destruct Hs; cbn; set_solver. Qed.
