(* ===== verification/WebhookDlq.v ===== *)
(** [lib/webhook-dlq.ts]: the dead-letter queue — building and filtering
    entries, retention, replay under the in-flight lock, and the automatic drain
    that parks what keeps failing.

    [new URL(url).host.toLowerCase()] is a parameter [hostOf]; the receiver's
    answers are an argument of the operations that wait for one. *)

From S2P Require Import Prelude JsDate JsString JsNumber JsValue CronParser RetryBackoff.
From stdpp Require Import base list sets fin_sets gmap strings numbers sorting.
From Stdlib Require Import ZArith Lia Ascii.
#[local] Open Scope Z_scope.

Definition DLQ_RETENTION_MS : Z := 30 * 24 * 60 * 60 * 1000.
Definition DLQ_REPLAY_CONCURRENCY : nat := 5.
Definition DLQ_PARK_AFTER_ROUNDS : Z := 3.
Definition DLQ_DRAIN_PER_TARGET : Z := 2.
Definition DLQ_DRAIN_MAX_PER_TICK : Z := 10.

Inductive DlqFailureReason : Type := retries_exhausted | non_retryable.
Inductive DlqEntryStatus : Type := dlq_pending | dlq_parked.
#[export] Instance DlqFailureReason_eq : EqDecision DlqFailureReason.
Proof. solve_decision. Defined.
#[export] Instance DlqEntryStatus_eq : EqDecision DlqEntryStatus.
Proof. solve_decision. Defined.

Record DlqAttemptNote : Type := mkNote
  { note_attempt : Z; note_statusCode : option Z; note_error : option string; note_at : string }.
Record DlqEntry : Type := mkDlq
  { dlq_id : string; dlq_requestId : string; dlq_endpoint : string; dlq_eventType : string;
    dlq_payload : json; dlq_headers : option (list (string * string));
    dlq_reason : DlqFailureReason; dlq_errorTimeline : list DlqAttemptNote;
    dlq_firstFailedAt : string; dlq_deadLetteredAt : string; dlq_replayAttempts : Z;
    dlq_status : option DlqEntryStatus; dlq_nextDrainAt : option string;
    dlq_parkedAt : option string }.

Definition dlqEntryStatus (entry : DlqEntry) : DlqEntryStatus :=
  default dlq_pending (dlq_status entry).

Definition createDlqEntry (request : WebhookDeliveryRequest) (timeline : list DlqAttemptNote)
    (reason : DlqFailureReason) (now : string) : DlqEntry :=
  mkDlq ("dlq-" ++ req_id request)%string (req_id request) (req_url request)
    (req_eventType request) (req_payload request) (req_headers request) reason timeline
    (match timeline with n :: _ => note_at n | [] => now end) now 0 None None None.

Record DlqFilter : Type := mkFilter
  { flt_endpoint : option string; flt_reason : option DlqFailureReason;
    flt_status : option DlqEntryStatus; flt_maxAgeMs : option Z }.
(** [now - Date.parse(s) > ms]; false when the date does not parse. *)
Definition older_than (ms now : Z) (s : string) : bool :=
  match date_parse s with Some t => ms <? now - t | None => false end.
Definition filter_keeps (flt : DlqFilter) (now : Z) (e : DlqEntry) : bool :=
  let needle := to_lower (trim (default "" (flt_endpoint flt))) in
  (bool_decide (needle = "") || includes (to_lower (dlq_endpoint e)) needle) &&
  (match flt_reason flt with Some r => bool_decide (dlq_reason e = r) | None => true end) &&
  (match flt_status flt with Some s => bool_decide (dlqEntryStatus e = s) | None => true end) &&
  (match flt_maxAgeMs flt with
   | Some ms => negb (older_than ms now (dlq_deadLetteredAt e)) | None => true end).
Definition filterDlqEntries (entries : list DlqEntry) (flt : DlqFilter) (now : Z)
  : list DlqEntry := filter (fun e => filter_keeps flt now e = true) entries.

Definition deriveReplayKey (entryId : string) (attempt : Z) : string :=
  cat [entryId; "#replay-"; num_to_string attempt].

Fixpoint sweepExpiredEntries (entries : list DlqEntry) (now retentionMs : Z)
  : list DlqEntry * list DlqEntry :=
  match entries with
  | [] => ([], [])
  | e :: rest =>
      let '(kept, evicted) := sweepExpiredEntries rest now retentionMs in
      if older_than retentionMs now (dlq_deadLetteredAt e)
      then (kept, e :: evicted) else (e :: kept, evicted)
  end.

Inductive ReplayResult : Type :=
  | replayed (entryId idempotencyKey : string)
  | failed (entryId idempotencyKey : string) (error : option string)
  | locked (entryId : string)
  | missing (entryId : string).
(** The audit events of this module. *)
Inductive DlqAudit : Type :=
  | audit_purge (evictedCount retentionMs : Z)
  | audit_replay (target entryId : string) (attempt : Z) (eventType : string)
  | audit_park (target entryId : string) (rounds : Z) (eventType : string).

(** The gateway's entries, the lock set [inFlight], and the events recorded. *)
Record DeadLetterQueue : Type := mkQueue
  { entries : list DlqEntry; inFlight : gset string; dlq_events : list DlqAudit }.
Record DlqOptions : Type := mkDlqOptions
  { opt_retentionMs : Z; opt_concurrency : nat; opt_parkAfterRounds : Z;
    opt_drainBackoff : BackoffPolicy }.
Definition default_dlq_options : DlqOptions :=
  mkDlqOptions DLQ_RETENTION_MS DLQ_REPLAY_CONCURRENCY DLQ_PARK_AFTER_ROUNDS drain_policy.

(** ** Bookkeeping *)

Definition dlq_depth (q : DeadLetterQueue) : Z := Z.of_nat (length (entries q)).
Definition parkedDepth (q : DeadLetterQueue) : Z :=
  Z.of_nat (length (filter (fun e => dlqEntryStatus e = dlq_parked) (entries q))).
Definition dlq_list (flt : DlqFilter) (now : Z) (q : DeadLetterQueue) : list DlqEntry :=
  filterDlqEntries (entries q) flt now.
Definition isLocked (entryId : string) (q : DeadLetterQueue) : bool :=
  bool_decide (entryId ∈ inFlight q).
Definition find_entry (entryId : string) (l : list DlqEntry) : option DlqEntry :=
  head (filter (fun e => dlq_id e = entryId) l).
Definition without_entry (entryId : string) (l : list DlqEntry) : list DlqEntry :=
  filter (fun e => dlq_id e <> entryId) l.
(** [entries.map((c) => (c.id === updated.id ? updated : c))]. *)
Definition replaceEntry (updated : DlqEntry) (l : list DlqEntry) : list DlqEntry :=
  (fun c => if decide (dlq_id c = dlq_id updated) then updated else c) <$> l.
Definition dlq_add (entry : DlqEntry) (q : DeadLetterQueue) : DeadLetterQueue :=
  mkQueue (without_entry (dlq_id entry) (entries q) ++ [entry]) (inFlight q) (dlq_events q).
Definition sweep (o : DlqOptions) (now : Z) (q : DeadLetterQueue) : DeadLetterQueue * Z :=
  let '(kept, evicted) := sweepExpiredEntries (entries q) now (opt_retentionMs o) in
  match evicted with
  | [] => (q, 0)
  | _ => let n := Z.of_nat (length evicted) in
         (mkQueue kept (inFlight q) (dlq_events q ++ [audit_purge n (opt_retentionMs o)]), n)
  end.
Definition evict (entryId : string) (q : DeadLetterQueue) : DeadLetterQueue * bool :=
  let next := without_entry entryId (entries q) in
  if decide (length next = length (entries q)) then (q, false)
  else (mkQueue next (inFlight q) (dlq_events q), true).

(** ** Replay

    [replay] runs to its [await] in one go ([replay_begin]) and continues when
    the receiver has answered ([replay_end]); in between only the lock and the
    snapshot of the entry taken at the start remain. *)

Definition replay_begin (entryId : string) (q : DeadLetterQueue)
  : DeadLetterQueue * (ReplayResult + DlqEntry) :=
  if decide (entryId ∈ inFlight q) then (q, inl (locked entryId))
  else
    match find_entry entryId (entries q) with
    | None => (q, inl (missing entryId))
    | Some entry => (mkQueue (entries q) ({[ entryId ]} ∪ inFlight q) (dlq_events q), inr entry)
    end.
Definition replay_key (entry : DlqEntry) : string :=
  deriveReplayKey (dlq_id entry) (dlq_replayAttempts entry + 1).
(** The entry a failed replay writes back. *)
Definition with_failure (entry : DlqEntry) (outcome : DeliveryResult) (at_ : string) : DlqEntry :=
  mkDlq (dlq_id entry) (dlq_requestId entry) (dlq_endpoint entry) (dlq_eventType entry)
    (dlq_payload entry) (dlq_headers entry) (dlq_reason entry)
    (dlq_errorTimeline entry ++
       [mkNote (Z.of_nat (length (dlq_errorTimeline entry)) + 1) (dlv_statusCode outcome)
          (Some (default "Replay failed"%string (dlv_error outcome))) at_])
    (dlq_firstFailedAt entry) (dlq_deadLetteredAt entry) (dlq_replayAttempts entry + 1)
    (dlq_status entry) (dlq_nextDrainAt entry) (dlq_parkedAt entry).
(** [finally { this.inFlight.delete(entryId) }]. *)
Definition unlock (entryId : string) (q : DeadLetterQueue) : DeadLetterQueue :=
  mkQueue (entries q) (inFlight q ∖ {[ entryId ]}) (dlq_events q).
Definition replay_end (entry : DlqEntry) (outcome : DeliveryResult) (at_ : string)
    (q : DeadLetterQueue) : DeadLetterQueue * ReplayResult :=
  let id := dlq_id entry in
  if dlv_ok outcome then
    (unlock id (mkQueue (without_entry id (entries q)) (inFlight q)
       (dlq_events q ++ [audit_replay (dlq_endpoint entry) id (dlq_replayAttempts entry + 1)
                           (dlq_eventType entry)])),
     replayed id (replay_key entry))
  else
    (unlock id (mkQueue (replaceEntry (with_failure entry outcome at_) (entries q)) (inFlight q)
       (dlq_events q)),
     failed id (replay_key entry) (Some (default "Replay failed"%string (dlv_error outcome)))).
(** One replay nothing interferes with; [deliver] is [replayDelivery]. *)
Definition replay (deliver : DlqEntry -> string -> DeliveryResult) (at_ entryId : string)
    (q : DeadLetterQueue) : DeadLetterQueue * ReplayResult :=
  match replay_begin entryId q with
  | (q1, inl r) => (q1, r)
  | (q1, inr entry) => replay_end entry (deliver entry (replay_key entry)) at_ q1
  end.

(** [Promise.all(slice.map((id) => this.replay(id)))]: the replays of a slice
    all begin before any of them continues. *)
Fixpoint begin_all (ids : list string) (q : DeadLetterQueue)
  : DeadLetterQueue * list (ReplayResult + DlqEntry) :=
  match ids with
  | [] => (q, [])
  | id :: rest =>
      let '(q1, r) := replay_begin id q in
      let '(q2, rs) := begin_all rest q1 in (q2, r :: rs)
  end.
Fixpoint end_all (deliver : DlqEntry -> string -> DeliveryResult) (clock : DlqEntry -> string)
    (started : list (ReplayResult + DlqEntry)) (q : DeadLetterQueue)
  : DeadLetterQueue * list ReplayResult :=
  match started with
  | [] => (q, [])
  | inl r :: rest => let '(q1, rs) := end_all deliver clock rest q in (q1, r :: rs)
  | inr entry :: rest =>
      let '(q1, r) := replay_end entry (deliver entry (replay_key entry)) (clock entry) q in
      let '(q2, rs) := end_all deliver clock rest q1 in (q2, r :: rs)
  end.
(** The loop over slices of [concurrency]; [fuel] bounds the number of slices. *)
Fixpoint replay_slices (fuel : nat) (concurrency : nat)
    (deliver : DlqEntry -> string -> DeliveryResult) (clock : DlqEntry -> string) (ids : list string)
    (q : DeadLetterQueue) : DeadLetterQueue * list ReplayResult * Z :=
  match fuel, ids with
  | O, _ | _, [] => (q, [], 0)
  | S fuel', _ =>
      let '(q1, started) := begin_all (take concurrency ids) q in
      let '(q2, rs) := end_all deliver clock started q1 in
      let '(q3, rs', batches) := replay_slices fuel' concurrency deliver clock (drop concurrency ids) q2 in
      (q3, rs ++ rs', batches + 1)
  end.
Record BatchReplayResult : Type := mkBatch
  { bat_results : list ReplayResult; bat_replayed : Z; bat_failed : Z; bat_batches : Z }.
Definition is_replayed (r : ReplayResult) : bool :=
  match r with replayed _ _ => true | _ => false end.
Definition failed_id (r : ReplayResult) : option string :=
  match r with failed id _ _ => Some id | _ => None end.
Definition replayBatch (o : DlqOptions) (deliver : DlqEntry -> string -> DeliveryResult)
    (clock : DlqEntry -> string) (entryIds : list string) (q : DeadLetterQueue)
  : DeadLetterQueue * BatchReplayResult :=
  let '(q1, results, batches) :=
    replay_slices (length entryIds) (opt_concurrency o) deliver clock entryIds q in
  (q1, mkBatch results (Z.of_nat (length (filter (fun r => is_replayed r = true) results)))
         (Z.of_nat (length (omap failed_id results))) batches).

(** ** The automatic drain *)

Section Drain.
Context (hostOf : string -> string).

Definition due_date (e : DlqEntry) : option Z :=
  date_parse (default (dlq_deadLetteredAt e) (dlq_nextDrainAt e)).
Definition drain_due (nowMs : Z) (q : DeadLetterQueue) (e : DlqEntry) : bool :=
  bool_decide (dlqEntryStatus e = dlq_pending) && bool_decide (dlq_reason e = retries_exhausted) &&
  negb (isLocked (dlq_id e) q) &&
  match due_date e with Some t => t <=? nowMs | None => false end.
Definition drain_select (perTarget maxEntries nowMs : Z) (q : DeadLetterQueue)
  : list DlqEntry * Z :=
  take_capped (fun e => hostOf (dlq_endpoint e)) perTarget maxEntries 0 ∅
    (sort_on (fun e => default 0 (due_date e)) (filter (fun e => drain_due nowMs q e = true) (entries q))).

(** What follows a failed drain round of [entry]; [random] is the draw made. *)
Definition settle_failed (o : DlqOptions) (at_ : Z) (random : Z * nat) (e : DlqEntry) : DlqEntry :=
  if opt_parkAfterRounds o <=? dlq_replayAttempts e then
    mkDlq (dlq_id e) (dlq_requestId e) (dlq_endpoint e) (dlq_eventType e) (dlq_payload e)
      (dlq_headers e) (dlq_reason e) (dlq_errorTimeline e) (dlq_firstFailedAt e)
      (dlq_deadLetteredAt e) (dlq_replayAttempts e) (Some dlq_parked) None
      (Some (to_iso_string at_))
  else
    mkDlq (dlq_id e) (dlq_requestId e) (dlq_endpoint e) (dlq_eventType e) (dlq_payload e)
      (dlq_headers e) (dlq_reason e) (dlq_errorTimeline e) (dlq_firstFailedAt e)
      (dlq_deadLetteredAt e) (dlq_replayAttempts e) (dlq_status e)
      (Some (to_iso_string (at_ + computeBackoffMs (dlq_replayAttempts e) (opt_drainBackoff o) random)))
      (dlq_parkedAt e).
Definition park_event (e : DlqEntry) : DlqAudit :=
  audit_park (dlq_endpoint e) (dlq_id e) (dlq_replayAttempts e) (dlq_eventType e).
(** The loop over the failed results: the queue and the parked ids. *)
Fixpoint settle_all (o : DlqOptions) (at_ : Z) (random : DlqEntry -> Z * nat) (ids : list string)
    (q : DeadLetterQueue) : DeadLetterQueue * list string :=
  match ids with
  | [] => (q, [])
  | id :: rest =>
      match find_entry id (entries q) with
      | None => settle_all o at_ random rest q
      | Some e =>
          let parks := opt_parkAfterRounds o <=? dlq_replayAttempts e in
          let '(q', ps) := settle_all o at_ random rest
            (mkQueue (replaceEntry (settle_failed o at_ (random e) e) (entries q)) (inFlight q)
               (dlq_events q ++ if parks then [park_event e] else [])) in
          (q', if parks then id :: ps else ps)
      end
  end.

Record DlqDrainResult : Type := mkDrain
  { drn_attempted : Z; drn_replayed : Z; drn_failed : Z; drn_parked : list string;
    drn_deferred : Z }.
(** [nowMs] is the clock at the start, [clock e] when the answer for [e]
    arrives, [at_] after the replays. *)
Definition drain (o : DlqOptions) (perTarget maxEntries : Z)
    (deliver : DlqEntry -> string -> DeliveryResult) (random : DlqEntry -> Z * nat)
    (clock : DlqEntry -> string) (nowMs at_ : Z) (q : DeadLetterQueue) : DeadLetterQueue * DlqDrainResult :=
  let '(selected, deferred) := drain_select perTarget maxEntries nowMs q in
  let '(q1, batch) := replayBatch o deliver clock (dlq_id <$> selected) q in
  let '(q2, parked) := settle_all o at_ random (omap failed_id (bat_results batch)) q1 in
  (q2, mkDrain (Z.of_nat (length selected)) (bat_replayed batch) (bat_failed batch) parked deferred).
End Drain.

(** ** Lemmas *)

Notation ids_of l := (dlq_id <$> l).

Lemma find_entry_in e l : NoDup (ids_of l) -> e ∈ l -> find_entry (dlq_id e) l = Some e.
Proof.
  unfold find_entry. induction l as [|x l IH]; intros Hn He; [by apply elem_of_nil in He|].
  cbn [fmap list_fmap] in Hn. apply NoDup_cons in Hn as [Hx Hn]. rewrite filter_cons.
  apply elem_of_cons in He as [->|He]; [by rewrite decide_True|].
  rewrite decide_False; [by apply IH|]. intros E. apply Hx. rewrite E. by apply list_elem_of_fmap_2.
Qed.
Lemma find_entry_Some id l e : find_entry id l = Some e -> e ∈ l /\ dlq_id e = id.
Proof.
  unfold find_entry. intros H. apply head_Some_elem_of, list_elem_of_filter in H. tauto.
Qed.
Lemma same_id_eq l c c' :
  NoDup (ids_of l) -> c ∈ l -> c' ∈ l -> dlq_id c = dlq_id c' -> c = c'.
Proof.
  intros Hn Hc Hc' E. pose proof (find_entry_in c l Hn Hc) as H1.
  pose proof (find_entry_in c' l Hn Hc') as H2. rewrite E in H1. congruence.
Qed.

(** What a replay makes of its entry: nothing is left of a delivered one. *)
Definition replay_entry (deliver : DlqEntry -> string -> DeliveryResult)
    (clock : DlqEntry -> string) (c : DlqEntry) : option DlqEntry :=
  let o := deliver c (replay_key c) in
  if dlv_ok o then None else Some (with_failure c o (clock c)).
Definition after_replays (deliver : DlqEntry -> string -> DeliveryResult)
    (clock : DlqEntry -> string) (ids : list string) (l : list DlqEntry) : list DlqEntry :=
  omap (fun c => if decide (dlq_id c ∈ ids) then replay_entry deliver clock c else Some c) l.
Definition replay_result (deliver : DlqEntry -> string -> DeliveryResult) (c : DlqEntry)
  : ReplayResult :=
  let o := deliver c (replay_key c) in
  if dlv_ok o then replayed (dlq_id c) (replay_key c)
  else failed (dlq_id c) (replay_key c) (Some (default "Replay failed"%string (dlv_error o))).
Definition replay_event (deliver : DlqEntry -> string -> DeliveryResult) (c : DlqEntry)
  : option DlqAudit :=
  if dlv_ok (deliver c (replay_key c))
  then Some (audit_replay (dlq_endpoint c) (dlq_id c) (dlq_replayAttempts c + 1) (dlq_eventType c))
  else None.

(** Mapping entries without changing their ids keeps the ids distinct. *)
Lemma ids_omap_NoDup (f : DlqEntry -> option DlqEntry) l :
  (forall c c', f c = Some c' -> dlq_id c' = dlq_id c) ->
  NoDup (ids_of l) -> NoDup (ids_of (omap f l)).
Proof.
  intros Hf. induction l as [|x l IH]; intros Hn; [done|]. cbn [fmap list_fmap] in Hn.
  apply NoDup_cons in Hn as [Hx Hn]. cbn. destruct (f x) as [y|] eqn:E; [|by apply IH].
  cbn [fmap list_fmap]. apply NoDup_cons. split; [|by apply IH]. intros Hin. apply Hx.
  apply list_elem_of_fmap in Hin as (z & Ez & Hz). apply list_elem_of_omap in Hz as (w & Hw & Ew).
  apply Hf in E, Ew. rewrite <- E, Ez, Ew. by apply list_elem_of_fmap_2.
Qed.

Section Replays.
Context (deliver : DlqEntry -> string -> DeliveryResult) (clock : DlqEntry -> string).
Notation after := (after_replays deliver clock).

Lemma omap_ext' {A B} (f g : A -> option B) (l : list A) :
  (forall x, x ∈ l -> f x = g x) -> omap f l = omap g l.
Proof.
  induction l as [|x l IH]; intros H; [done|]. cbn. rewrite (H x) by apply list_elem_of_here.
  rewrite IH; [done|]. intros y Hy. apply H. by apply list_elem_of_further.
Qed.
Lemma omap_length_le {A B} (f : A -> option B) (l : list A) :
  (length (omap f l) <= length l)%nat.
Proof.
  induction l as [|x l IH]; [done|].
  change (omap f (x :: l)) with (match f x with Some y => y :: omap f l | None => omap f l end).
  destruct (f x); cbn [length]; lia.
Qed.
Lemma without_entry_omap id l :
  without_entry id l = omap (fun c => if decide (dlq_id c = id) then None else Some c) l.
Proof.
  unfold without_entry. induction l as [|x l IH]; [done|]. rewrite filter_cons. cbn.
  destruct (decide (dlq_id x = id)) as [E|E].
  - rewrite decide_False by tauto. exact IH.
  - rewrite decide_True by done. by f_equal.
Qed.
Lemma replaceEntry_omap e l :
  replaceEntry e l = omap (fun c => if decide (dlq_id c = dlq_id e) then Some e else Some c) l.
Proof.
  unfold replaceEntry. induction l as [|x l IH]; [done|]. cbn.
  destruct (decide (dlq_id x = dlq_id e)); by f_equal.
Qed.
Lemma after_one c l :
  NoDup (ids_of l) -> c ∈ l ->
  after [dlq_id c] l =
  if dlv_ok (deliver c (replay_key c)) then without_entry (dlq_id c) l
  else replaceEntry (with_failure c (deliver c (replay_key c)) (clock c)) l.
Proof.
  intros Hn Hc. unfold after_replays.
  destruct (dlv_ok (deliver c (replay_key c))) eqn:E;
    [rewrite without_entry_omap|rewrite replaceEntry_omap]; apply omap_ext';
    intros x Hx; cbn [dlq_id with_failure];
    (destruct (decide (dlq_id x ∈ [dlq_id c])) as [H|H]; rewrite list_elem_of_singleton in H;
     [rewrite decide_True by done | by rewrite decide_False by done]);
    assert (x = c) as -> by (by eapply same_id_eq); unfold replay_entry; by rewrite E.
Qed.

Lemma replay_entry_id c c' : replay_entry deliver clock c = Some c' -> dlq_id c' = dlq_id c.
Proof. unfold replay_entry. destruct (dlv_ok _); [done|]. by intros [= <-]. Qed.
Lemma after_NoDup ids l : NoDup (ids_of l) -> NoDup (ids_of (after ids l)).
Proof.
  apply ids_omap_NoDup. intros c c'. case_decide; [apply replay_entry_id|by intros [= ->]].
Qed.
Lemma after_elem ids l e : e ∈ l -> dlq_id e ∉ ids -> e ∈ after ids l.
Proof.
  intros He Hn. unfold after_replays. apply list_elem_of_omap. exists e.
  by rewrite decide_False.
Qed.
Lemma after_nil l : after [] l = l.
Proof.
  unfold after_replays. induction l as [|x l IH]; [done|]. cbn.
  rewrite decide_False by (apply not_elem_of_nil). by f_equal.
Qed.
Lemma after_app ids ids' l :
  (forall id, id ∈ ids -> id ∉ ids') -> after ids' (after ids l) = after (ids ++ ids') l.
Proof.
  intros Hd. unfold after_replays. induction l as [|x l IH]; [done|]. cbn.
  destruct (decide (dlq_id x ∈ ids)) as [E|E].
  - rewrite (decide_True (P := dlq_id x ∈ ids ++ ids')) by (apply elem_of_app; by left).
    destruct (replay_entry deliver clock x) as [y|] eqn:Ey; [|exact IH]. cbn.
    rewrite (replay_entry_id _ _ Ey). rewrite (decide_False (P := dlq_id x ∈ ids')) by (by apply Hd). by f_equal.
  - cbn. destruct (decide (dlq_id x ∈ ids')) as [E'|E'].
    + rewrite (decide_True (P := dlq_id x ∈ ids ++ ids')) by (apply elem_of_app; by right).
      destruct (replay_entry deliver clock x); [by f_equal|exact IH].
    + rewrite (decide_False (P := dlq_id x ∈ ids ++ ids')) by (rewrite elem_of_app; tauto). by f_equal.
Qed.

Lemma begin_all_spec sel l locks ev :
  NoDup (ids_of l) -> (forall e, e ∈ sel -> e ∈ l) -> NoDup (ids_of sel) ->
  (forall e, e ∈ sel -> dlq_id e ∉ locks) ->
  begin_all (ids_of sel) (mkQueue l locks ev)
  = (mkQueue l (list_to_set (ids_of sel) ∪ locks) ev, inr <$> sel).
Proof.
  revert locks. induction sel as [|e sel IH]; intros locks Hl Hin Hn Hlk.
  { cbn. do 2 f_equal. set_solver. }
  cbn [fmap list_fmap begin_all] in *. apply NoDup_cons in Hn as [He Hn]. unfold replay_begin.
  cbn [inFlight entries dlq_events]. rewrite decide_False by (apply Hlk, list_elem_of_here).
  rewrite find_entry_in by (done || apply Hin, list_elem_of_here).
  rewrite IH; [|done|intros x Hx; by apply Hin, list_elem_of_further|done|].
  - do 2 f_equal. cbn. set_solver.
  - intros x Hx. assert (dlq_id x ∉ locks) by (by apply Hlk, list_elem_of_further).
    assert (dlq_id x <> dlq_id e) by (intros E; apply He; rewrite <- E; by apply list_elem_of_fmap_2).
    set_solver.
Qed.

Lemma end_all_spec sel l locks ev :
  NoDup (ids_of l) -> (forall e, e ∈ sel -> e ∈ l) -> NoDup (ids_of sel) ->
  end_all deliver clock (inr <$> sel) (mkQueue l locks ev)
  = (mkQueue (after (ids_of sel) l) (locks ∖ list_to_set (ids_of sel))
       (ev ++ omap (replay_event deliver) sel), replay_result deliver <$> sel).
Proof.
  revert l locks ev. induction sel as [|e sel IH]; intros l locks ev Hl Hin Hn.
  { cbn. rewrite after_nil, app_nil_r. do 2 f_equal. set_solver. }
  cbn [fmap list_fmap end_all] in *. apply NoDup_cons in Hn as [He Hn].
  assert (E : replay_end e (deliver e (replay_key e)) (clock e) (mkQueue l locks ev)
    = (mkQueue (after [dlq_id e] l) (locks ∖ {[ dlq_id e ]})
         (ev ++ match replay_event deliver e with Some a => [a] | None => [] end),
       replay_result deliver e)).
  { rewrite after_one by (done || apply Hin, list_elem_of_here).
    unfold replay_end, replay_result, replay_event, unlock.
    destruct (dlv_ok (deliver e (replay_key e))); cbn [entries inFlight dlq_events]; [done|].
    by rewrite app_nil_r. }
  rewrite E, IH.
  - rewrite after_app by (intros id ->%list_elem_of_singleton; done). f_equal. cbn [omap list_omap].
    f_equal; [cbn; set_solver|]. rewrite <- app_assoc. f_equal. by destruct (replay_event deliver e).
  - by apply after_NoDup.
  - intros x Hx. apply after_elem; [by apply Hin, list_elem_of_further|].
    rewrite list_elem_of_singleton. intros Ex. apply He. rewrite <- Ex. by apply list_elem_of_fmap_2.
  - done.
Qed.

Lemma replay_slices_spec fuel conc sel l locks ev :
  (0 < conc)%nat -> (length sel <= fuel)%nat ->
  NoDup (ids_of l) -> (forall e, e ∈ sel -> e ∈ l) -> NoDup (ids_of sel) ->
  (forall e, e ∈ sel -> dlq_id e ∉ locks) ->
  replay_slices fuel conc deliver clock (ids_of sel) (mkQueue l locks ev)
  = (mkQueue (after (ids_of sel) l) locks (ev ++ omap (replay_event deliver) sel),
     replay_result deliver <$> sel,
     (Z.of_nat (length sel) + Z.of_nat conc - 1) / Z.of_nat conc).
Proof.
  intros Hc. revert sel l locks ev. induction fuel as [|fuel IH]; intros sel l locks ev Hf Hl Hin Hn Hlk.
  - destruct sel; [|simpl in Hf; lia]. cbn. rewrite after_nil, app_nil_r. f_equal.
    rewrite Z.div_small; [done|lia].
  - destruct sel as [|e sel'] eqn:Es.
    { cbn. rewrite after_nil, app_nil_r. f_equal. rewrite Z.div_small; [done|lia]. }
    rewrite <- Es in *. cbn [replay_slices].
    assert (Hids : exists i is_, ids_of sel = i :: is_) by (rewrite Es; cbn; eauto).
    destruct Hids as (i & is_ & Ei). rewrite Ei at 1. rewrite <- !fmap_take, <- !fmap_drop.
    assert (Hsplit : sel = take conc sel ++ drop conc sel) by (by rewrite take_drop).
    set (hd := take conc sel) in *. set (tl := drop conc sel) in *.
    assert (Hn' := Hn). rewrite Hsplit, fmap_app in Hn'. apply NoDup_app in Hn' as (Hn1 & Hd & Hn2).
    assert (Hi1 : forall e, e ∈ hd -> e ∈ sel) by (intros x Hx; rewrite Hsplit; set_solver).
    assert (Hi2 : forall e, e ∈ tl -> e ∈ sel) by (intros x Hx; rewrite Hsplit; set_solver).
    rewrite begin_all_spec by auto. rewrite end_all_spec by auto.
    replace ((list_to_set (ids_of hd) ∪ locks) ∖ list_to_set (ids_of hd)) with locks.
    2:{ apply set_eq. intros x. rewrite elem_of_difference, elem_of_union, elem_of_list_to_set.
        split; [|tauto]. intros Hx. split; [by right|]. intros (y & -> & Hy)%list_elem_of_fmap.
        by eapply Hlk; [apply Hi1|]. }
    rewrite IH.
    + rewrite after_app by done. rewrite <- fmap_app, <- Hsplit, <- app_assoc, <- omap_app,
        <- Hsplit. f_equal; [f_equal; by rewrite <- fmap_app, <- Hsplit|].
      unfold tl. rewrite length_drop.
      assert (0 < length sel)%nat by (rewrite Es; simpl; lia).
      destruct (Nat.le_gt_cases conc (length sel)).
      * replace (Z.of_nat (length sel) + Z.of_nat conc - 1)
          with (Z.of_nat (length sel - conc) + Z.of_nat conc - 1 + 1 * Z.of_nat conc) by lia.
        rewrite Z.div_add by lia. done.
      * replace (length sel - conc)%nat with 0%nat by lia. rewrite Z.div_small by lia.
        apply (Z.div_unique_pos _ _ 1 (Z.of_nat (length sel) - 1)); lia.
    + unfold tl. rewrite length_drop. rewrite Es in *. simpl in *. lia.
    + by apply after_NoDup.
    + intros x Hx. apply after_elem; [by apply Hin, Hi2|]. intros H. apply (Hd _ H).
      by apply list_elem_of_fmap_2.
    + done.
    + intros x Hx. by apply Hlk, Hi2.
Qed.
End Replays.

Section Settle.
Context (o : DlqOptions) (at_ : Z) (random : DlqEntry -> Z * nat).

Definition parks (e : DlqEntry) : bool := opt_parkAfterRounds o <=? dlq_replayAttempts e.
Definition settle (ids : list string) (l : list DlqEntry) : list DlqEntry :=
  (fun c => if decide (dlq_id c ∈ ids) then settle_failed o at_ (random c) c else c) <$> l.

Lemma settle_failed_id r e : dlq_id (settle_failed o at_ r e) = dlq_id e.
Proof. unfold settle_failed. by destruct (_ <=? _). Qed.
Lemma settle_ids ids l : ids_of (settle ids l) = ids_of l.
Proof.
  unfold settle. rewrite <- list_fmap_compose. apply list_fmap_ext. intros i x _. cbn.
  case_decide; [apply settle_failed_id|done].
Qed.
Lemma settle_one e l :
  NoDup (ids_of l) -> e ∈ l ->
  replaceEntry (settle_failed o at_ (random e) e) l = settle [dlq_id e] l.
Proof.
  intros Hn He. unfold replaceEntry, settle. apply list_fmap_ext. intros i x Hx.
  apply list_elem_of_lookup_2 in Hx. rewrite settle_failed_id.
  destruct (decide (dlq_id x = dlq_id e)) as [E|E].
  - assert (x = e) as -> by (by eapply same_id_eq). by rewrite decide_True by set_solver.
  - by rewrite decide_False by set_solver.
Qed.
Lemma settle_app ids ids' l :
  (forall id, id ∈ ids -> id ∉ ids') -> settle ids' (settle ids l) = settle (ids ++ ids') l.
Proof.
  intros Hd. unfold settle. rewrite <- list_fmap_compose. apply list_fmap_ext. intros i x _. cbn.
  destruct (decide (dlq_id x ∈ ids)) as [E|E].
  - rewrite settle_failed_id. rewrite (decide_False (P := dlq_id x ∈ ids')) by (by apply Hd).
    by rewrite decide_True by (apply elem_of_app; by left).
  - destruct (decide (dlq_id x ∈ ids')) as [E'|E'].
    + by rewrite decide_True by (apply elem_of_app; by right).
    + by rewrite decide_False by (rewrite elem_of_app; tauto).
Qed.
Lemma settle_elem ids l e : e ∈ l -> dlq_id e ∉ ids -> e ∈ settle ids l.
Proof.
  intros He Hn. apply list_elem_of_fmap. exists e. by rewrite decide_False.
Qed.

(** [sel] lists the entries whose ids are settled. *)
Lemma settle_all_spec sel l locks ev :
  NoDup (ids_of l) -> (forall e, e ∈ sel -> e ∈ l) -> NoDup (ids_of sel) ->
  settle_all o at_ random (ids_of sel) (mkQueue l locks ev)
  = (mkQueue (settle (ids_of sel) l) locks
       (ev ++ (park_event <$> filter (fun e => parks e = true) sel)),
     ids_of (filter (fun e => parks e = true) sel)).
Proof.
  revert l ev. induction sel as [|e sel IH]; intros l ev Hl Hin Hn.
  { cbn. rewrite app_nil_r. do 2 f_equal. unfold settle. symmetry.
    erewrite list_fmap_ext; [apply list_fmap_id|]. intros i x _. cbn.
    by rewrite decide_False by apply not_elem_of_nil. }
  cbn [fmap list_fmap settle_all] in *. apply NoDup_cons in Hn as [He Hn]. cbn [entries inFlight dlq_events].
  rewrite find_entry_in by (done || apply Hin, list_elem_of_here).
  rewrite settle_one by (done || apply Hin, list_elem_of_here). fold (parks e).
  rewrite IH.
  - rewrite settle_app by (intros id ->%list_elem_of_singleton; done).
    rewrite filter_cons. destruct (parks e) eqn:Ep.
    + rewrite decide_True by done. cbn [fmap list_fmap]. by rewrite <- app_assoc.
    + rewrite decide_False by done. by rewrite app_nil_r.
  - by rewrite settle_ids.
  - intros x Hx. apply settle_elem; [by apply Hin, list_elem_of_further|].
    rewrite list_elem_of_singleton. intros Ex. apply He. rewrite <- Ex. by apply list_elem_of_fmap_2.
  - done.
Qed.
End Settle.

(** ** The drain, entry by entry *)

(** What a drain makes of a selected entry. *)
Definition drain_entry (o : DlqOptions) (deliver : DlqEntry -> string -> DeliveryResult)
    (random : DlqEntry -> Z * nat) (clock : DlqEntry -> string) (at_ : Z) (e : DlqEntry)
  : option DlqEntry :=
  e' ← replay_entry deliver clock e; Some (settle_failed o at_ (random e') e').

Lemma failed_ids_results deliver clock (sel : list DlqEntry) :
  omap failed_id (replay_result deliver <$> sel) = ids_of (omap (replay_entry deliver clock) sel).
Proof.
  induction sel as [|e sel IH]; [done|]. cbn. unfold replay_result at 1, replay_entry at 1.
  destruct (dlv_ok (deliver e (replay_key e))); cbn; [exact IH|by f_equal].
Qed.
Lemma count_replayed deliver clock (sel : list DlqEntry) :
  length (filter (fun r => is_replayed r = true) (replay_result deliver <$> sel))
  = (length sel - length (omap (replay_entry deliver clock) sel))%nat.
Proof.
  assert (length (omap (replay_entry deliver clock) sel)
          + length (filter (fun r => is_replayed r = true) (replay_result deliver <$> sel))
          = length sel)%nat; [|lia].
  induction sel as [|e sel IH]; [done|]. cbn [fmap list_fmap]. rewrite filter_cons.
  change (omap (replay_entry deliver clock) (e :: sel))
    with (match replay_entry deliver clock e with
          | Some y => y :: omap (replay_entry deliver clock) sel
          | None => omap (replay_entry deliver clock) sel end).
  assert (E : is_replayed (replay_result deliver e) = dlv_ok (deliver e (replay_key e)))
    by (unfold replay_result; by destruct (dlv_ok _)).
  unfold replay_entry at 1. cbn zeta. destruct (dlv_ok (deliver e (replay_key e)));
    [rewrite decide_True by done|rewrite decide_False by congruence]; cbn [length]; lia.
Qed.
Lemma drain_entries o deliver random clock at_ sel l :
  NoDup (ids_of l) -> (forall e, e ∈ sel -> e ∈ l) ->
  settle o at_ random (ids_of (omap (replay_entry deliver clock) sel))
    (after_replays deliver clock (ids_of sel) l)
  = omap (fun c => if decide (dlq_id c ∈ ids_of sel)
                   then drain_entry o deliver random clock at_ c else Some c) l.
Proof.
  intros Hl Hin. unfold settle, after_replays. rewrite list_fmap_omap. apply omap_ext'.
  intros x Hx. cbn. destruct (decide (dlq_id x ∈ ids_of sel)) as [E|E].
  - unfold drain_entry. destruct (replay_entry deliver clock x) as [y|] eqn:Ey; [|done]. cbn.
    rewrite decide_True; [done|]. apply list_elem_of_fmap_2, list_elem_of_omap. exists x. split; [|done].
    apply list_elem_of_fmap in E as (z & Ez & Hz).
    replace x with z; [done|]. eapply same_id_eq; eauto.
  - cbn. rewrite decide_False; [done|]. intros H. apply E.
    apply list_elem_of_fmap in H as (y & Ey & Hy). apply list_elem_of_omap in Hy as (z & Hz & Ez).
    apply replay_entry_id in Ez. rewrite Ey, Ez. by apply list_elem_of_fmap_2.
Qed.

(** The fields of [drain], spelled out. *)
Lemma drain_eq hostOf o perTarget maxEntries deliver random clock nowMs at_ q :
  NoDup (ids_of (entries q)) -> (0 < opt_concurrency o)%nat ->
  let sel := (drain_select hostOf perTarget maxEntries nowMs q).1 in
  let fs := omap (replay_entry deliver clock) sel in
  (forall e, e ∈ sel -> e ∈ entries q /\ drain_due nowMs q e = true) /\
  drain hostOf o perTarget maxEntries deliver random clock nowMs at_ q
  = (mkQueue (omap (fun c => if decide (dlq_id c ∈ ids_of sel)
                             then drain_entry o deliver random clock at_ c else Some c) (entries q))
       (inFlight q)
       ((dlq_events q ++ omap (replay_event deliver) sel)
          ++ (park_event <$> filter (fun e => parks o e = true) fs)),
     mkDrain (Z.of_nat (length sel)) (Z.of_nat (length sel - length fs)) (Z.of_nat (length fs))
       (ids_of (filter (fun e => parks o e = true) fs))
       (drain_select hostOf perTarget maxEntries nowMs q).2).
Proof.
  intros Hn Hc sel fs. destruct q as [l locks ev]. cbn [entries inFlight dlq_events] in *.
  assert (Hsub : sel `sublist_of` sort_on (fun e => default 0 (due_date e))
                   (filter (fun e => drain_due nowMs (mkQueue l locks ev) e = true) l))
    by apply take_capped_sublist.
  assert (Hsel : forall e, e ∈ sel -> e ∈ l /\ drain_due nowMs (mkQueue l locks ev) e = true).
  { intros e He. assert (He' : e ∈ filter (fun e => drain_due nowMs (mkQueue l locks ev) e = true) l).
    { rewrite <- sort_on_perm. eapply elem_of_submseteq; [exact He|]. by apply sublist_submseteq. }
    apply list_elem_of_filter in He'. tauto. }
  assert (Hns : NoDup (ids_of sel)).
  { eapply sublist_NoDup; [|apply fmap_sublist, Hsub]. unfold sort_on.
    rewrite sort_by_perm. by apply NoDup_fmap_filter. }
  assert (Hlk : forall e, e ∈ sel -> dlq_id e ∉ locks).
  { intros e He. apply Hsel in He as [_ He]. unfold drain_due, isLocked in He. bools. done. }
  split; [exact Hsel|]. unfold drain. rewrite (surjective_pairing (drain_select _ _ _ _ _)).
  fold sel. unfold replayBatch.
  rewrite replay_slices_spec; [|done|by rewrite length_fmap|done|by intros e He; apply Hsel|done|done].
  cbn [bat_results bat_replayed bat_failed]. rewrite (failed_ids_results deliver clock).
  rewrite settle_all_spec.
  - subst fs. rewrite drain_entries by (done || intros e He; apply Hsel, He).
    rewrite length_fmap. do 3 f_equal. apply count_replayed.
  - by apply after_NoDup.
  - intros e He. apply list_elem_of_omap in He as (x & Hx & Ex). apply list_elem_of_omap. exists x.
    split; [by apply Hsel|]. by rewrite decide_True by (by apply list_elem_of_fmap_2).
  - apply ids_omap_NoDup; [apply replay_entry_id|done].
Qed.

(** ** Failing rounds *)

(** One failed drain round: the receiver's answer, the instants at which it
    arrives and at which the round is settled, and the draw. *)
Record FailedRound : Type := mkRound
  { rnd_outcome : DeliveryResult; rnd_clock : string; rnd_at : Z; rnd_random : Z * nat }.
Definition fail_round (o : DlqOptions) (e : DlqEntry) (r : FailedRound) : DlqEntry :=
  settle_failed o (rnd_at r) (rnd_random r) (with_failure e (rnd_outcome r) (rnd_clock r)).

Lemma fail_round_entry o deliver random clock at_ e :
  dlv_ok (deliver e (replay_key e)) = false ->
  drain_entry o deliver random clock at_ e
  = Some (fail_round o e (mkRound (deliver e (replay_key e)) (clock e) at_
            (random (with_failure e (deliver e (replay_key e)) (clock e))))).
Proof. intros H. unfold drain_entry, replay_entry, fail_round. by rewrite H. Qed.
Lemma fail_round_fields o e r :
  dlq_id (fail_round o e r) = dlq_id e /\
  dlq_reason (fail_round o e r) = dlq_reason e /\
  dlq_replayAttempts (fail_round o e r) = dlq_replayAttempts e + 1 /\
  dlq_errorTimeline e `prefix_of` dlq_errorTimeline (fail_round o e r) /\
  length (dlq_errorTimeline (fail_round o e r)) = S (length (dlq_errorTimeline e)).
Proof.
  unfold fail_round, settle_failed. destruct (_ <=? _); cbn; rewrite length_app; cbn;
    (split; [done|]; split; [done|]; split; [done|]; split; [by eexists|lia]).
Qed.
Lemma fail_rounds_fields o rs e :
  let e' := foldl (fail_round o) e rs in
  dlq_id e' = dlq_id e /\ dlq_reason e' = dlq_reason e /\
  dlq_replayAttempts e' = dlq_replayAttempts e + Z.of_nat (length rs) /\
  dlq_errorTimeline e `prefix_of` dlq_errorTimeline e' /\
  length (dlq_errorTimeline e') = (length (dlq_errorTimeline e) + length rs)%nat.
Proof.
  revert e. induction rs as [|r rs IH]; intros e; [cbn; split_and!; (done || lia)|]. cbn [foldl].
  specialize (IH (fail_round o e r)). destruct (fail_round_fields o e r) as (H1 & H2 & H3 & H4 & H5).
  cbn zeta in *. destruct IH as (-> & -> & -> & H6 & ->). rewrite H1, H2, H3, H5. cbn [length].
  split_and!; try done; try lia. by etrans.
Qed.
Lemma fail_round_status o e r :
  if opt_parkAfterRounds o <=? dlq_replayAttempts e + 1
  then dlqEntryStatus (fail_round o e r) = dlq_parked /\ dlq_nextDrainAt (fail_round o e r) = None /\
       dlq_parkedAt (fail_round o e r) = Some (to_iso_string (rnd_at r))
  else dlqEntryStatus (fail_round o e r) = dlqEntryStatus e /\
       dlq_nextDrainAt (fail_round o e r) = Some (to_iso_string (rnd_at r
         + computeBackoffMs (dlq_replayAttempts e + 1) (opt_drainBackoff o) (rnd_random r))).
Proof.
  unfold fail_round, settle_failed. cbn [dlq_replayAttempts with_failure].
  by destruct (opt_parkAfterRounds o <=? dlq_replayAttempts e + 1).
Qed.
Lemma fail_rounds_status o rs r e :
  dlqEntryStatus e = dlq_pending ->
  let e' := foldl (fail_round o) e (rs ++ [r]) in
  if opt_parkAfterRounds o <=? dlq_replayAttempts e'
  then dlqEntryStatus e' = dlq_parked /\ dlq_nextDrainAt e' = None /\
       dlq_parkedAt e' = Some (to_iso_string (rnd_at r))
  else dlqEntryStatus e' = dlq_pending /\
       dlq_nextDrainAt e' = Some (to_iso_string (rnd_at r
         + computeBackoffMs (dlq_replayAttempts e') (opt_drainBackoff o) (rnd_random r))).
Proof.
  intros He. revert r. induction rs as [|r0 rs IH] using rev_ind; intros r; cbn zeta.
  - cbn [app foldl]. pose proof (fail_round_status o e r) as H.
    destruct (fail_round_fields o e r) as (_ & _ & -> & _). by rewrite He in H.
  - specialize (IH r0). cbn zeta in IH. rewrite foldl_app. cbn [foldl].
    set (e1 := foldl (fail_round o) e (rs ++ [r0])) in *. clearbody e1.
    pose proof (fail_round_status o e1 r) as H.
    destruct (fail_round_fields o e1 r) as (_ & _ & -> & _).
    destruct (Z.leb_spec (opt_parkAfterRounds o) (dlq_replayAttempts e1 + 1)) as [Hp|Hp]; [done|].
    rewrite (proj2 (Z.leb_gt _ _)) in IH by lia. destruct IH as [IH _]. by rewrite <- IH.
Qed.

(** ** Concurrent replays

    The state of the queue and the replays waiting for an answer, each with the
    snapshot it took. Other operations may run in between. *)

Record ReplayWorld : Type := mkWorld { rw_queue : DeadLetterQueue; rw_running : list DlqEntry }.
Inductive replay_step (o : DlqOptions) : ReplayWorld -> ReplayWorld -> Prop :=
  | step_begin id q q' e run :
      replay_begin id q = (q', inr e) -> replay_step o (mkWorld q run) (mkWorld q' (e :: run))
  | step_end e outcome at_ q run1 run2 :
      replay_step o (mkWorld q (run1 ++ e :: run2))
        (mkWorld (replay_end e outcome at_ q).1 (run1 ++ run2))
  | step_reject e q run1 run2 :
      replay_step o (mkWorld q (run1 ++ e :: run2)) (mkWorld (unlock (dlq_id e) q) (run1 ++ run2))
  | step_settle e at_ random q run :
      replay_step o (mkWorld q run)
        (mkWorld (mkQueue (replaceEntry (settle_failed o at_ random e) (entries q)) (inFlight q)
                    (dlq_events q)) run)
  | step_add e q run : replay_step o (mkWorld q run) (mkWorld (dlq_add e q) run)
  | step_evict id q run : replay_step o (mkWorld q run) (mkWorld (evict id q).1 run)
  | step_sweep now q run : replay_step o (mkWorld q run) (mkWorld (sweep o now q).1 run).

Definition lock_inv (w : ReplayWorld) : Prop :=
  inFlight (rw_queue w) = list_to_set (ids_of (rw_running w)) /\
  NoDup (ids_of (rw_running w)) /\ NoDup (ids_of (entries (rw_queue w))).

Lemma without_entry_NoDup id l : NoDup (ids_of l) -> NoDup (ids_of (without_entry id l)).
Proof. apply NoDup_fmap_filter. Qed.
Lemma replaceEntry_NoDup e l : NoDup (ids_of l) -> NoDup (ids_of (replaceEntry e l)).
Proof.
  rewrite replaceEntry_omap. apply ids_omap_NoDup. intros c c'. case_decide; by intros [= <-].
Qed.
Lemma dlq_add_NoDup e q : NoDup (ids_of (entries q)) -> NoDup (ids_of (entries (dlq_add e q))).
Proof.
  intros Hn. cbn. rewrite fmap_app. apply NoDup_app. split; [by apply without_entry_NoDup|].
  split; [|apply NoDup_singleton]. intros id H1 ->%list_elem_of_singleton.
  apply list_elem_of_fmap in H1 as (x & Ex & Hx). apply list_elem_of_filter in Hx. by destruct Hx.
Qed.
Lemma sweepExpiredEntries_filter l now ms :
  sweepExpiredEntries l now ms
  = (filter (fun e => older_than ms now (dlq_deadLetteredAt e) = false) l,
     filter (fun e => older_than ms now (dlq_deadLetteredAt e) = true) l).
Proof.
  induction l as [|e l IH]; [done|]. cbn [sweepExpiredEntries]. rewrite IH, !filter_cons.
  by destruct (older_than ms now (dlq_deadLetteredAt e)).
Qed.
Lemma unlock_running e run1 run2 (locks : gset string) :
  locks = list_to_set (ids_of (run1 ++ e :: run2)) -> NoDup (ids_of (run1 ++ e :: run2)) ->
  locks ∖ {[ dlq_id e ]} = list_to_set (ids_of (run1 ++ run2)) /\ NoDup (ids_of (run1 ++ run2)).
Proof.
  intros -> Hn. rewrite fmap_app in *. cbn [fmap list_fmap] in *.
  assert (Hp : ids_of run1 ++ dlq_id e :: ids_of run2 ≡ₚ dlq_id e :: ids_of run1 ++ ids_of run2)
    by (symmetry; apply Permutation_middle).
  rewrite fmap_app. rewrite Hp in Hn. apply NoDup_cons in Hn as [He Hn]. split; [|done].
  rewrite list_to_set_app_L. cbn [list_to_set]. rewrite list_to_set_app_L.
  apply set_eq. intros x. rewrite elem_of_app in He. set_solver.
Qed.
Lemma lock_inv_step o w w' : lock_inv w -> replay_step o w w' -> lock_inv w'.
Proof.
  intros (Hl & Hr & Hn) Hs. destruct Hs; cbn [rw_queue rw_running] in *; unfold lock_inv;
    cbn [rw_queue rw_running].
  - unfold replay_begin in H. destruct (decide (id ∈ inFlight q)) as [|Hni]; [done|].
    destruct (find_entry id (entries q)) as [x|] eqn:Ef; [|done]. simplify_eq.
    apply find_entry_Some in Ef as [_ <-]. cbn [inFlight entries fmap list_fmap list_to_set]. split; [by rewrite Hl|].
    split; [|done]. apply NoDup_cons. split; [|done]. intros Hin. apply Hni. rewrite Hl.
    by apply elem_of_list_to_set.
  - destruct (unlock_running e run1 run2 (inFlight q) Hl Hr) as [H1 H2]. unfold replay_end.
    destruct (dlv_ok outcome); cbn [fst unlock inFlight entries]; split_and!; try done.
    + by apply without_entry_NoDup.
    + by apply replaceEntry_NoDup.
  - destruct (unlock_running e run1 run2 (inFlight q) Hl Hr) as [H1 H2]. done.
  - split_and!; try done. by apply replaceEntry_NoDup.
  - split_and!; try done. by apply dlq_add_NoDup.
  - unfold evict. case_decide; cbn [fst inFlight entries]; split_and!; try done.
    by apply without_entry_NoDup.
  - unfold sweep. rewrite sweepExpiredEntries_filter.
    destruct (filter _ (entries q)) eqn:E in |- *; cbn [fst inFlight entries]; split_and!; try done;
      by apply NoDup_fmap_filter.
Qed.

(** ** Replay keys *)

Lemma deriveReplayKey_inj id n n' :
  0 <= n -> 0 <= n' -> deriveReplayKey id n = deriveReplayKey id n' -> n = n'.
Proof.
  intros Hn Hn' H. unfold deriveReplayKey, cat in H. cbn [foldr] in H.
  apply append_inj_l, append_inj_l in H. rewrite !append_empty in H.
  pose proof (parse_digits_num n Hn) as E. rewrite H, parse_digits_num in E by done. congruence.
Qed.
(** A replay that got no acknowledgement is recorded as failed, so the next one
    is sent under another key. *)
Lemma failed_replay_changes_key e outcome at_ :
  0 <= dlq_replayAttempts e -> replay_key (with_failure e outcome at_) <> replay_key e.
Proof. intros H E. apply deriveReplayKey_inj in E; cbn in *; lia. Qed.

Definition sample_entry (n : Z) : DlqEntry :=
  createDlqEntry (mkRequest (num_to_string n) "https://h/x" "run.failed" JNull None None None)
    [mkNote 1 (Some 503) (Some "HTTP 503"%string) (to_iso_string 0)] retries_exhausted
    (to_iso_string 0).
Definition sample_deliver (e : DlqEntry) (_ : string) : DeliveryResult :=
  if decide (dlq_id e = "dlq-1"%string) then mkDelivery true (Some 200) None
  else mkDelivery false None (Some "timeout"%string).
Definition sample_dlq : DeadLetterQueue :=
  mkQueue [sample_entry 1; sample_entry 2; sample_entry 3] ∅ [].

(** ** Properties *)

(** One automatic drain, entry by entry. The entries it selects are pending,
    failed with exhausted retries, due and not being replayed; they are at most
    [maxEntries] and at most [perTarget] per receiver, and a due entry is left
    behind only when one of these caps is reached. A selected entry whose replay
    succeeds disappears; one whose replay fails keeps its place with the attempt
    appended and is parked or pushed back ([drain_entry]); every other entry is
    untouched, whatever the slicing into batches, and every lock is released. *)
Theorem drain_spec hostOf o perTarget maxEntries deliver random clock nowMs at_ q :
  NoDup (ids_of (entries q)) -> (0 < opt_concurrency o)%nat ->
  let sel := (drain_select hostOf perTarget maxEntries nowMs q).1 in
  let host e := hostOf (dlq_endpoint e) in
  let r := drain hostOf o perTarget maxEntries deliver random clock nowMs at_ q in
  (forall e, e ∈ sel -> e ∈ entries q /\ drain_due nowMs q e = true) /\
  Z.of_nat (length sel) <= Z.max 0 maxEntries /\
  (forall h, Z.of_nat (length (filter (fun e => host e = h) sel)) <= Z.max 0 perTarget) /\
  (forall e, e ∈ entries q -> drain_due nowMs q e = true ->
     e ∈ sel \/ maxEntries <= Z.of_nat (length sel) \/
     perTarget <= Z.of_nat (length (filter (fun e' => host e' = host e) sel))) /\
  entries r.1 = omap (fun c => if decide (dlq_id c ∈ ids_of sel)
                               then drain_entry o deliver random clock at_ c else Some c) (entries q) /\
  inFlight r.1 = inFlight q /\
  drn_attempted r.2 = Z.of_nat (length sel) /\ drn_replayed r.2 + drn_failed r.2 = drn_attempted r.2.
Proof.
  intros Hn Hc sel host r.
  destruct (drain_eq hostOf o perTarget maxEntries deliver random clock nowMs at_ q Hn Hc) as [Hsel E].
  fold sel in Hsel, E. fold r in E. rewrite E. cbn [fst snd entries inFlight drn_attempted drn_replayed drn_failed].
  split; [exact Hsel|]. split; [|split; [|split; [|split; [done|split; [done|split; [done|]]]]]].
  - subst sel. unfold drain_select.
    etrans; [apply take_capped_length|]. lia.
  - intros h. apply take_capped_cap_empty.
  - intros e He Hd. apply take_capped_maximal_empty. rewrite sort_on_perm.
    by apply list_elem_of_filter.
  - pose proof (omap_length_le (replay_entry deliver clock) sel). lia.
Qed.
Lemma drain_spec_witness :
  let r := drain (fun _ => "h"%string) default_dlq_options 2 10 sample_deliver
             (fun _ => (0, 1%nat)) (fun _ => "t"%string) 1000 2000 sample_dlq in
  (dlq_id <$> entries r.1 = ["dlq-2"%string; "dlq-3"%string] /\ drn_deferred r.2 = 1) /\
  inFlight r.1 = inFlight sample_dlq /\ drn_replayed r.2 + drn_failed r.2 = drn_attempted r.2.
Proof.
  assert (Hn : NoDup (ids_of (entries sample_dlq)))
    by (apply (bool_decide_unpack _); vm_compute; exact I).
  assert (Hc : (0 < opt_concurrency default_dlq_options)%nat) by (vm_compute; lia).
  destruct (drain_spec (fun _ => "h"%string) default_dlq_options 2 10 sample_deliver
    (fun _ => (0, 1%nat)) (fun _ => "t"%string) 1000 2000 sample_dlq Hn Hc)
    as (_ & _ & _ & _ & _ & Hi & Ha & Hf).
  split; [split; vm_compute; reflexivity|]. split; [exact Hi|exact Hf].
Defined.

(** The reference for a batch: one replay after the other. *)
Fixpoint replay_each (deliver : DlqEntry -> string -> DeliveryResult) (at_ : string)
    (ids : list string) (q : DeadLetterQueue) : DeadLetterQueue * list ReplayResult :=
  match ids with
  | [] => (q, [])
  | id :: rest =>
      let '(q1, r) := replay deliver at_ id q in
      let '(q2, rs) := replay_each deliver at_ rest q1 in (q2, r :: rs)
  end.
Lemma replay_each_spec deliver at_ sel l locks ev :
  NoDup (ids_of l) -> (forall e, e ∈ sel -> e ∈ l) -> NoDup (ids_of sel) ->
  (forall e, e ∈ sel -> dlq_id e ∉ locks) ->
  replay_each deliver at_ (ids_of sel) (mkQueue l locks ev)
  = (mkQueue (after_replays deliver (fun _ => at_) (ids_of sel) l) locks
       (ev ++ omap (replay_event deliver) sel), replay_result deliver <$> sel).
Proof.
  revert l ev. induction sel as [|e sel IH]; intros l ev Hl Hin Hn Hlk.
  { cbn. by rewrite after_nil, app_nil_r. }
  assert (He : e ∈ l) by (apply Hin, list_elem_of_here).
  cbn [fmap list_fmap replay_each] in *. apply NoDup_cons in Hn as [Hne Hn].
  pose proof (begin_all_spec deliver (fun _ => at_) [e] l locks ev Hl
    ltac:(intros x ->%list_elem_of_singleton; exact He) (NoDup_singleton _)
    ltac:(intros x ->%list_elem_of_singleton; apply Hlk, list_elem_of_here)) as Hb.
  pose proof (end_all_spec deliver (fun _ => at_) [e] l ({[ dlq_id e ]} ∪ ∅ ∪ locks) ev Hl
    ltac:(intros x ->%list_elem_of_singleton; exact He) (NoDup_singleton _)) as He'.
  cbn [fmap list_fmap begin_all end_all] in Hb, He'. unfold replay.
  destruct (replay_begin (dlq_id e) (mkQueue l locks ev)) as [q1 b]. injection Hb as -> ->.
  destruct (replay_end e _ _ _) as [q2 r]. injection He' as -> ->.
  match goal with |- context [replay_each _ _ _ (mkQueue _ ?lk _)] => replace lk with locks end.
  2:{ pose proof (Hlk e (list_elem_of_here _ _)). cbn [list_to_set]. set_solver. }
  rewrite IH.
  - rewrite after_app by (intros id ->%list_elem_of_singleton; done). cbn [app]. f_equal.
    f_equal. rewrite <- app_assoc. f_equal. cbn. by destruct (replay_event deliver e).
  - by apply after_NoDup.
  - intros x Hx. apply after_elem; [by apply Hin, list_elem_of_further|].
    rewrite list_elem_of_singleton. intros Ex. apply Hne. rewrite <- Ex. by apply list_elem_of_fmap_2.
  - done.
  - intros x Hx. by apply Hlk, list_elem_of_further.
Qed.

(** Slicing a batch into concurrent groups changes nothing but the number of
    slices: for any concurrency, replaying distinct unlocked entries leaves the
    queue, the locks, the audit events and the results exactly as replaying them
    one after the other does, in ceil(count / concurrency) slices. *)
Theorem replayBatch_sequential o deliver at_ sel q :
  NoDup (ids_of (entries q)) -> (0 < opt_concurrency o)%nat ->
  (forall e, e ∈ sel -> e ∈ entries q /\ dlq_id e ∉ inFlight q) -> NoDup (ids_of sel) ->
  let '(q', r) := replayBatch o deliver (fun _ => at_) (ids_of sel) q in
  (q', bat_results r) = replay_each deliver at_ (ids_of sel) q /\
  bat_batches r = (Z.of_nat (length sel) + Z.of_nat (opt_concurrency o) - 1)
                  / Z.of_nat (opt_concurrency o) /\
  bat_replayed r + bat_failed r = Z.of_nat (length sel).
Proof.
  intros Hn Hc Hsel Hs. destruct q as [l locks ev]. cbn [entries inFlight] in *.
  unfold replayBatch. rewrite length_fmap.
  rewrite replay_slices_spec; [|done|done|done|by intros e He; apply Hsel|done|by intros e He; apply Hsel].
  rewrite replay_each_spec; [|done|by intros e He; apply Hsel|done|by intros e He; apply Hsel].
  cbn [bat_results bat_batches bat_replayed bat_failed]. split; [done|]. split; [done|].
  rewrite (failed_ids_results deliver (fun _ => at_)), length_fmap.
  rewrite (count_replayed deliver (fun _ => at_)).
  pose proof (omap_length_le (replay_entry deliver (fun _ => at_)) sel). lia.
Qed.
Lemma replayBatch_sequential_witness :
  let '(q', r) := replayBatch (mkDlqOptions DLQ_RETENTION_MS 2 3 drain_policy) sample_deliver
                    (fun _ => "t"%string) (ids_of (entries sample_dlq)) sample_dlq in
  bat_batches r = 2 /\
  (q', bat_results r) = replay_each sample_deliver "t" (ids_of (entries sample_dlq)) sample_dlq.
Proof.
  assert (Hn : NoDup (ids_of (entries sample_dlq)))
    by (apply (bool_decide_unpack _); vm_compute; exact I).
  assert (Hl : forall e, e ∈ entries sample_dlq -> e ∈ entries sample_dlq /\ dlq_id e ∉ inFlight sample_dlq)
    by (intros e He; split; [exact He|apply not_elem_of_empty]).
  pose proof (replayBatch_sequential (mkDlqOptions DLQ_RETENTION_MS 2 3 drain_policy) sample_deliver
    "t" (entries sample_dlq) sample_dlq Hn ltac:(vm_compute; lia) Hl Hn) as H.
  destruct (replayBatch (mkDlqOptions DLQ_RETENTION_MS 2 3 drain_policy) sample_deliver
    (fun _ => "t"%string) (ids_of (entries sample_dlq)) sample_dlq) as [q' r].
  destruct H as (H1 & H2 & _). split; [rewrite H2; vm_compute; reflexivity|exact H1].
Defined.

(** "After [parkAfterRounds] failed rounds the entry is parked": an entry
    with [a] failed replays behind it that fails [n] more drain rounds is parked
    when [a + n] reaches the limit and not before. Until then each round puts the
    next one off by the equal-jitter delay of its own number, and the failure
    timeline only ever grows, keeping what was there. *)
Theorem failing_entry_parked o e rs r :
  dlqEntryStatus e = dlq_pending -> 0 <= dlq_replayAttempts e ->
  wf_backoff (opt_drainBackoff o) -> unit_random (rnd_random r) ->
  iso_range (rnd_at r) -> iso_range (rnd_at r + maxMs (opt_drainBackoff o)) ->
  let e' := foldl (fail_round o) e (rs ++ [r]) in
  let total := dlq_replayAttempts e + Z.of_nat (length (rs ++ [r])) in
  let w := backoff_window total (opt_drainBackoff o) in
  dlq_replayAttempts e' = total /\
  dlq_errorTimeline e `prefix_of` dlq_errorTimeline e' /\
  length (dlq_errorTimeline e') = (length (dlq_errorTimeline e) + length (rs ++ [r]))%nat /\
  if opt_parkAfterRounds o <=? total
  then dlqEntryStatus e' = dlq_parked /\ (forall now q, drain_due now q e' = false)
  else dlqEntryStatus e' = dlq_pending /\
       exists t, due_date e' = Some t /\ rnd_at r + (w + 1) / 2 <= t <= rnd_at r + w.
Proof.
  intros He Ha Hp Hr Hi1 Hi2 e' total w.
  destruct (fail_rounds_fields o (rs ++ [r]) e) as (_ & _ & Hat & Hpre & Hlen).
  fold e' in Hat, Hpre, Hlen. fold total in Hat. split; [done|]. split; [done|]. split; [done|].
  pose proof (fail_rounds_status o rs r e He) as H. fold e' in H. cbn zeta in H. rewrite Hat in H.
  destruct (opt_parkAfterRounds o <=? total).
  - destruct H as (Hs & _). split; [done|]. intros now q. unfold drain_due. by rewrite Hs.
  - destruct H as (Hs & Hd). split; [done|].
    pose proof (computeBackoffMs_bounds total _ _ Hp Hr) as Hb. fold w in Hb.
    assert (w <= maxMs (opt_drainBackoff o)) by (subst w; unfold backoff_window; lia).
    pose proof (backoff_window_range total _ Hp).
    exists (rnd_at r + computeBackoffMs total (opt_drainBackoff o) (rnd_random r)).
    unfold due_date. rewrite Hd. cbn [default]. unfold id.
    rewrite date_parse_iso by (unfold iso_range in *; lia). split; [done|lia].
Qed.
Definition sample_round (t : Z) : FailedRound :=
  mkRound (mkDelivery false (Some 503) None) "t" t (0, 1%nat).
Lemma failing_entry_parked_witness :
  dlqEntryStatus (foldl (fail_round default_dlq_options) (sample_entry 1)
    ([sample_round 1000; sample_round 2000000] ++ [sample_round 9000000])) = dlq_parked.
Proof.
  assert (Hp : wf_backoff (opt_drainBackoff default_dlq_options)) by (split; [|split]; vm_compute; reflexivity).
  assert (Hr : unit_random (rnd_random (sample_round 9000000)))
    by (split; vm_compute; [discriminate|reflexivity]).
  assert (H1 : iso_range (rnd_at (sample_round 9000000)))
    by (split; vm_compute; [discriminate|reflexivity]).
  assert (H2 : iso_range (rnd_at (sample_round 9000000) + maxMs (opt_drainBackoff default_dlq_options)))
    by (split; vm_compute; [discriminate|reflexivity]).
  assert (Ha : 0 <= dlq_replayAttempts (sample_entry 1)) by (vm_compute; discriminate).
  destruct (failing_entry_parked default_dlq_options (sample_entry 1)
    [sample_round 1000; sample_round 2000000] (sample_round 9000000) eq_refl Ha Hp Hr H1 H2)
    as (_ & _ & _ & H).
  exact (proj1 H).
Defined.

(** C22. The in-flight set is a lock: whatever replays, answers, rejections,
    drains, additions, evictions and sweeps interleave, at most one replay per
    entry is waiting for an answer, the set holds exactly the entries being
    replayed, a second replay of one is refused, and no two entries share an id. *)
Theorem replay_lock_exclusive o l ev w :
  NoDup (ids_of l) -> rtc (replay_step o) (mkWorld (mkQueue l ∅ ev) []) w ->
  NoDup (ids_of (rw_running w)) /\
  (forall id, isLocked id (rw_queue w) = true <-> id ∈ ids_of (rw_running w)) /\
  (forall e, e ∈ rw_running w ->
     replay_begin (dlq_id e) (rw_queue w) = (rw_queue w, inl (locked (dlq_id e)))) /\
  NoDup (ids_of (entries (rw_queue w))).
Proof.
  intros Hn Hs. assert (Hi : lock_inv w).
  { remember (mkWorld (mkQueue l ∅ ev) []) as w0 eqn:Ew. assert (lock_inv w0) as H0.
    { subst w0. split; [done|]. split; [constructor|done]. }
    clear Ew. induction Hs as [|w0 w1 w2 H1 _ IH]; [done|]. by apply IH, (lock_inv_step o w0). }
  destruct Hi as (Hl & Hr & He). split; [done|]. split; [|split; [|done]].
  - intros id. unfold isLocked. rewrite bool_decide_eq_true, Hl. apply elem_of_list_to_set.
  - intros e Hin. unfold replay_begin. rewrite decide_True; [done|]. rewrite Hl.
    apply elem_of_list_to_set. by apply list_elem_of_fmap_2.
Qed.
Lemma replay_lock_exclusive_witness :
  rtc (replay_step default_dlq_options) (mkWorld sample_dlq [])
    (mkWorld (mkQueue (entries sample_dlq) {[ "dlq-2"%string ]} []) [sample_entry 2]) /\
  NoDup (ids_of [sample_entry 2]).
Proof.
  assert (Hn : NoDup (ids_of (entries sample_dlq)))
    by (apply (bool_decide_unpack _); vm_compute; exact I).
  assert (Hs : rtc (replay_step default_dlq_options) (mkWorld sample_dlq [])
    (mkWorld (mkQueue (entries sample_dlq) {[ "dlq-2"%string ]} []) [sample_entry 2])).
  { eapply rtc_l; [|apply rtc_refl]. apply (step_begin _ "dlq-2"%string). vm_compute. reflexivity. }
  split; [exact Hs|].
  exact (proj1 (replay_lock_exclusive default_dlq_options (entries sample_dlq) [] _ Hn Hs)).
Defined.

(** A replay writes back the snapshot it took when it began. When the same
    request is dead-lettered again while its replay is waiting ([dlq_add]), the
    newer entry is lost whatever the answer: after a failure the old entry
    replaces it, after a success nothing is left of it. *)
Theorem replay_discards_newer_entry e newer outcome at_ q :
  dlq_id newer = dlq_id e ->
  let q' := (replay_end e outcome at_ (dlq_add newer q)).1 in
  if dlv_ok outcome then dlq_id newer ∉ ids_of (entries q')
  else with_failure e outcome at_ ∈ entries q' /\
       forall c, c ∈ entries q' -> dlq_id c = dlq_id newer -> c = with_failure e outcome at_.
Proof.
  intros E q'. subst q'. unfold replay_end, dlq_add. destruct (dlv_ok outcome);
    cbn [fst unlock entries].
  - intros (x & Ex & Hx)%list_elem_of_fmap. apply list_elem_of_filter in Hx as [Hx _]. congruence.
  - unfold replaceEntry. split.
    + apply list_elem_of_fmap. exists newer. cbn [dlq_id with_failure].
      rewrite decide_True by done. split; [done|]. apply elem_of_app. right. by apply list_elem_of_singleton.
    + intros c (x & -> & _)%list_elem_of_fmap. cbn [dlq_id with_failure]. intros Hc.
      case_decide as Hd; [done|]. congruence.
Qed.
Lemma replay_discards_newer_entry_witness :
  let e := sample_entry 2 in
  let newer := createDlqEntry (mkRequest "2" "https://h/x" "run.failed" JNull None None None)
    [mkNote 1 (Some 400) None "new"] non_retryable "new" in
  dlq_reason newer = non_retryable /\
  (forall c, c ∈ entries (replay_end e (mkDelivery false None None) "t" (dlq_add newer sample_dlq)).1 ->
     dlq_id c = dlq_id newer -> c = with_failure e (mkDelivery false None None) "t").
Proof.
  split; [reflexivity|].
  exact (proj2 (replay_discards_newer_entry (sample_entry 2)
    (createDlqEntry (mkRequest "2" "https://h/x" "run.failed" JNull None None None)
       [mkNote 1 (Some 400) None "new"] non_retryable "new")
    (mkDelivery false None None) "t" sample_dlq eq_refl)).
Defined.
