(* ===== verification/WebhookRetry.v ===== *)
(** [lib/webhook-retry-queue.ts]: the durable retry queue — scheduling, the
    claims of a tick under the per-receiver cap, the outcome of an attempt, the
    metrics — and the interleavings of overlapping and crashing ticks.

    [retryTargetOf] (URL parsing) is a parameter, and the receiver's answers,
    the clock and the draws of [random] are arguments of the operations. *)

From S2P Require Import Prelude JsDate JsString JsNumber JsValue RetryBackoff DeliveryLedger WebhookDlq.
From stdpp Require Import base list sets fin_sets gmap strings numbers sorting.
From Stdlib Require Import ZArith Lia Ascii.
#[local] Open Scope Z_scope.

Definition WEBHOOK_RETRY_MAX_ATTEMPTS : Z := 5.
Definition WEBHOOK_RETRY_PER_TARGET_CONCURRENCY : Z := 2.
Definition WEBHOOK_RETRY_MAX_JOBS_PER_TICK : Z := 20.

Inductive RetryJobStatus : Type := job_pending | in_flight.
#[export] Instance RetryJobStatus_eq : EqDecision RetryJobStatus.
Proof. solve_decision. Defined.
Record RetryJob : Type := mkJob
  { job_id : string; job_request : WebhookDeliveryRequest; job_target : string;
    job_attempt : Z; job_maxAttempts : Z; job_status : RetryJobStatus;
    job_nextAttemptAt : string; job_leaseExpiresAt : option string; job_createdAt : string;
    job_timeline : list DlqAttemptNote }.

(** ** Metrics

    The latency sum and maximum are [None] once a [NaN] went in. *)

Record WebhookRetryMetrics : Type := mkMetrics
  { recovered : Z; attempts : Z; scheduled : Z; dead : Z; throttled : Z;
    latencyCount : Z; latencySum : option Z; latencyMax : option Z }.
Definition new_metrics : WebhookRetryMetrics := mkMetrics 0 0 0 0 0 0 (Some 0) (Some 0).
Definition recordAttempt (m : WebhookRetryMetrics) : WebhookRetryMetrics :=
  mkMetrics (recovered m) (attempts m + 1) (scheduled m) (dead m) (throttled m) (latencyCount m)
    (latencySum m) (latencyMax m).
Definition recordRecovered (latencyMs : option Z) (m : WebhookRetryMetrics)
  : WebhookRetryMetrics :=
  let latency := Z.max 0 <$> latencyMs in
  mkMetrics (recovered m + 1) (attempts m) (scheduled m) (dead m) (throttled m)
    (latencyCount m + 1)
    (s ← latencySum m; l ← latency; Some (s + l)) (s ← latencyMax m; l ← latency; Some (Z.max s l)).
Definition recordRetryScheduled (m : WebhookRetryMetrics) : WebhookRetryMetrics :=
  mkMetrics (recovered m) (attempts m) (scheduled m + 1) (dead m) (throttled m) (latencyCount m)
    (latencySum m) (latencyMax m).
Definition recordDeadLettered (m : WebhookRetryMetrics) : WebhookRetryMetrics :=
  mkMetrics (recovered m) (attempts m) (scheduled m) (dead m + 1) (throttled m) (latencyCount m)
    (latencySum m) (latencyMax m).
Definition recordThrottled (count : Z) (m : WebhookRetryMetrics) : WebhookRetryMetrics :=
  mkMetrics (recovered m) (attempts m) (scheduled m) (dead m) (throttled m + count)
    (latencyCount m) (latencySum m) (latencyMax m).
(** The average latency of [snapshot]; the other fields are the counters. *)
Definition snapshot_avg (m : WebhookRetryMetrics) : option Z :=
  if latencyCount m =? 0 then Some 0
  else s ← latencySum m; Some (math_round (double_ratio s (latencyCount m))).

(** ** The queue *)

Inductive RetryTickOutcome : Type :=
  | out_delivered (jobId : string) (attempt : Z) (statusCode : option Z)
  | out_scheduled (jobId : string) (attempt : Z) (statusCode : option Z) (error : option string)
      (nextAttemptAt : string)
  | out_dead (jobId : string) (attempt : Z) (statusCode : option Z) (error : option string).
Record ScheduleRetryInput : Type := mkInput
  { inp_request : WebhookDeliveryRequest; inp_attemptsMade : Z;
    inp_timeline : list DlqAttemptNote; inp_immediate : bool; inp_createdAt : option string }.
Record RetryOptions : Type := mkRetryOptions
  { opt_backoff : BackoffPolicy; opt_maxAttempts : Z; opt_perTargetConcurrency : Z;
    opt_maxJobsPerTick : Z; opt_leaseMs : Z }.
Definition default_retry_options : RetryOptions :=
  mkRetryOptions retry_policy WEBHOOK_RETRY_MAX_ATTEMPTS WEBHOOK_RETRY_PER_TARGET_CONCURRENCY
    WEBHOOK_RETRY_MAX_JOBS_PER_TICK WEBHOOK_RETRY_LEASE_MS.
(** The jobs behind the gateway, the metrics, and what [onDeadLetter] received. *)
Record WebhookRetryQueue : Type := mkRetryQueue
  { jobs : list RetryJob; metrics : WebhookRetryMetrics; handed_over : list DlqEntry }.

Definition isLeased (nowMs : Z) (job : RetryJob) : bool :=
  bool_decide (job_status job = in_flight) &&
  match job_leaseExpiresAt job with
  | None => false
  | Some s => match date_parse s with Some t => nowMs <? t | None => false end
  end.
Definition find_job (id : string) (l : list RetryJob) : option RetryJob :=
  head (filter (fun j => job_id j = id) l).
Definition remove_job (id : string) (l : list RetryJob) : list RetryJob :=
  filter (fun j => job_id j <> id) l.
Definition replace_job (updated : RetryJob) (l : list RetryJob) : list RetryJob :=
  (fun j => if decide (job_id j = job_id updated) then updated else j) <$> l.

Section Queue.
Context (retryTargetOf : string -> string) (o : RetryOptions).

Definition scheduled_job (existing : option RetryJob) (input : ScheduleRetryInput) (nowMs : Z)
    (random : Z * nat) : RetryJob :=
  let delayMs := if inp_immediate input then 0
                 else computeBackoffMs (inp_attemptsMade input) (opt_backoff o) random in
  mkJob (req_id (inp_request input)) (inp_request input) (retryTargetOf (req_url (inp_request input)))
    (inp_attemptsMade input)
    (Z.max (default (opt_maxAttempts o) (req_maxAttempts (inp_request input)))
       (inp_attemptsMade input + 1))
    job_pending (to_iso_string (nowMs + delayMs)) None
    (match existing, inp_createdAt input with
     | Some j, _ => job_createdAt j
     | None, Some c => c
     | None, None => to_iso_string nowMs
     end)
    (match existing with Some j => job_timeline j | None => [] end ++ inp_timeline input).
Definition schedule (input : ScheduleRetryInput) (nowMs : Z) (random : Z * nat)
    (q : WebhookRetryQueue) : WebhookRetryQueue * RetryJob :=
  let existing := find_job (req_id (inp_request input)) (jobs q) in
  let go :=
    let job := scheduled_job existing input nowMs random in
    (mkRetryQueue (remove_job (job_id job) (jobs q) ++ [job]) (metrics q) (handed_over q), job) in
  match existing with
  | Some j => if isLeased nowMs j then (q, j) else go
  | None => go
  end.

(** The count of leased jobs per target. *)
Definition count_leased (nowMs : Z) (l : list RetryJob) : gmap string Z :=
  foldl (fun m j => if isLeased nowMs j
                    then <[job_target j := default 0 (m !! job_target j) + 1]> m else m) ∅ l.
Definition job_date (j : RetryJob) : option Z := date_parse (job_nextAttemptAt j).
Definition job_due (nowMs : Z) (j : RetryJob) : bool :=
  negb (isLeased nowMs j) && match job_date j with Some t => t <=? nowMs | None => false end.
Definition claimed_job (nowMs : Z) (j : RetryJob) : RetryJob :=
  mkJob (job_id j) (job_request j) (job_target j) (job_attempt j + 1) (job_maxAttempts j) in_flight
    (job_nextAttemptAt j) (Some (to_iso_string (nowMs + opt_leaseMs o))) (job_createdAt j)
    (job_timeline j).
(** The jobs a tick takes, and how many it leaves to their targets' caps. *)
Definition tick_select (nowMs : Z) (l : list RetryJob) : list RetryJob * Z :=
  take_capped job_target (opt_perTargetConcurrency o) (opt_maxJobsPerTick o) 0 (count_leased nowMs l)
    (sort_on (fun j => default 0 (job_date j)) (filter (fun j => job_due nowMs j = true) l)).
(** [runTick] up to the first [await]: the claims are saved and every attempt
    has been started. *)
Definition tick_begin (nowMs : Z) (q : WebhookRetryQueue)
  : WebhookRetryQueue * list RetryJob * Z :=
  let '(due, throttled) := tick_select nowMs (jobs q) in
  let claimed := claimed_job nowMs <$> due in
  let m := if 0 <? throttled then recordThrottled throttled (metrics q) else metrics q in
  let saved := match claimed with
               | [] => jobs q
               | _ => filter (fun j => job_id j ∉ (job_id <$> claimed)) (jobs q) ++ claimed
               end in
  (mkRetryQueue saved (Nat.iter (length claimed) recordAttempt m) (handed_over q), claimed, throttled).

(** [attempt] after the receiver's answer; [at_] is the clock then. *)
Definition attempt_end (job : RetryJob) (result : DeliveryResult) (at_ : Z) (random : Z * nat)
    (q : WebhookRetryQueue) : WebhookRetryQueue * RetryTickOutcome :=
  if dlv_ok result then
    (mkRetryQueue (remove_job (job_id job) (jobs q))
       (recordRecovered (t ← date_parse (job_createdAt job); Some (at_ - t)) (metrics q))
       (handed_over q),
     out_delivered (job_id job) (job_attempt job) (dlv_statusCode result))
  else
    let timeline := job_timeline job ++
      [mkNote (job_attempt job) (dlv_statusCode result)
         (Some (default "Delivery failed"%string (dlv_error result))) (to_iso_string at_)] in
    let retryable := isRetryableDeliveryStatus (dlv_statusCode result) in
    if retryable && (job_attempt job <? job_maxAttempts job) then
      let nextAttemptAt := to_iso_string (at_ + computeBackoffMs (job_attempt job) (opt_backoff o) random) in
      (mkRetryQueue
         (replace_job (mkJob (job_id job) (job_request job) (job_target job) (job_attempt job)
            (job_maxAttempts job) job_pending nextAttemptAt None (job_createdAt job) timeline) (jobs q))
         (recordRetryScheduled (metrics q)) (handed_over q),
       out_scheduled (job_id job) (job_attempt job) (dlv_statusCode result) (dlv_error result)
         nextAttemptAt)
    else
      (mkRetryQueue (remove_job (job_id job) (jobs q)) (recordDeadLettered (metrics q))
         (handed_over q ++ [createDlqEntry (job_request job) timeline
            (if retryable then retries_exhausted else non_retryable) (to_iso_string at_)]),
       out_dead (job_id job) (job_attempt job) (dlv_statusCode result) (dlv_error result)).

(** A whole tick nothing interferes with; [answer] gives the receiver's answer,
    the instant it arrives and the draw made then, in the order of the claims. *)
Fixpoint attempts_end (answer : RetryJob -> DeliveryResult * Z * (Z * nat)) (claimed : list RetryJob)
    (q : WebhookRetryQueue) : WebhookRetryQueue * list RetryTickOutcome :=
  match claimed with
  | [] => (q, [])
  | j :: rest =>
      let '(result, at_, random) := answer j in
      let '(q1, out) := attempt_end j result at_ random q in
      let '(q2, outs) := attempts_end answer rest q1 in (q2, out :: outs)
  end.
Record RetryTickResult : Type := mkTickResult
  { tck_outcomes : list RetryTickOutcome; tck_throttled : Z; tck_pending : Z }.
Definition runTick (answer : RetryJob -> DeliveryResult * Z * (Z * nat)) (nowMs : Z)
    (q : WebhookRetryQueue) : WebhookRetryQueue * RetryTickResult :=
  let '(q1, claimed, throttled) := tick_begin nowMs q in
  let '(q2, outcomes) := attempts_end answer claimed q1 in
  (q2, mkTickResult outcomes throttled (Z.of_nat (length (jobs q2)))).
End Queue.

(** ** Overlapping and crashing ticks

    The queue, the attempts waiting for an answer (each with the job it
    claimed), and, for the record, the requests delivered so far. A crash takes
    running attempts with it and leaves the queue as it was saved. *)

Record RetryWorld : Type := mkRetryWorld
  { rt_queue : WebhookRetryQueue; rt_running : list RetryJob; rt_delivered : list string }.
Section Steps.
Context (retryTargetOf : string -> string) (o : RetryOptions).
Inductive retry_step : RetryWorld -> RetryWorld -> Prop :=
  | retry_schedule input nowMs random q run ds :
      retry_step (mkRetryWorld q run ds)
        (mkRetryWorld (schedule retryTargetOf o input nowMs random q).1 run ds)
  | retry_tick nowMs q q' claimed n run ds :
      tick_begin o nowMs q = (q', claimed, n) ->
      retry_step (mkRetryWorld q run ds) (mkRetryWorld q' (run ++ claimed) ds)
  | retry_answer j result at_ random q run1 run2 ds :
      retry_step (mkRetryWorld q (run1 ++ j :: run2) ds)
        (mkRetryWorld (attempt_end o j result at_ random q).1 (run1 ++ run2)
           (if dlv_ok result then job_id j :: ds else ds))
  | retry_crash run1 lost run2 q ds :
      retry_step (mkRetryWorld q (run1 ++ lost ++ run2) ds) (mkRetryWorld q (run1 ++ run2) ds).
End Steps.

(** ** Lemmas *)

Notation jids l := (job_id <$> l).

Lemma find_job_Some id l j : find_job id l = Some j -> j ∈ l /\ job_id j = id.
Proof.
  unfold find_job. intros H. apply head_Some_elem_of, list_elem_of_filter in H. tauto.
Qed.
Lemma remove_job_NoDup id l : NoDup (jids l) -> NoDup (jids (remove_job id l)).
Proof. apply NoDup_fmap_filter. Qed.
Lemma elem_remove_job id id' l : id' ∈ jids (remove_job id l) <-> id' ∈ jids l /\ id' <> id.
Proof.
  unfold remove_job. rewrite !list_elem_of_fmap. split.
  - intros (j & -> & Hj). apply list_elem_of_filter in Hj as [H1 H2]. split; [by exists j|done].
  - intros [(j & -> & Hj) H]. exists j. split; [done|]. by apply list_elem_of_filter.
Qed.
Lemma replace_job_ids u l : jids (replace_job u l) = jids l.
Proof.
  unfold replace_job. rewrite <- list_fmap_compose. apply list_fmap_ext. intros i j _. cbn.
  by case_decide.
Qed.
Lemma same_job_eq l j j' : NoDup (jids l) -> j ∈ l -> j' ∈ l -> job_id j = job_id j' -> j = j'.
Proof.
  induction l as [|x l IH]; intros Hn Hj Hj' E; [by apply elem_of_nil in Hj|].
  cbn [fmap list_fmap] in Hn. apply NoDup_cons in Hn as [Hx Hn].
  apply elem_of_cons in Hj as [->|Hj]; apply elem_of_cons in Hj' as [->|Hj']; try done.
  - exfalso. apply Hx. rewrite E. by apply list_elem_of_fmap_2.
  - exfalso. apply Hx. rewrite <- E. by apply list_elem_of_fmap_2.
  - by apply IH.
Qed.

(** [Map] counting is the length of a filter. *)
Definition leased_on (nowMs : Z) (t : string) (l : list RetryJob) : Z :=
  Z.of_nat (length (filter (fun j => isLeased nowMs j = true /\ job_target j = t) l)).
Lemma count_leased_lookup nowMs l t : default 0 (count_leased nowMs l !! t) = leased_on nowMs t l.
Proof.
  unfold count_leased, leased_on. assert (H : forall m : gmap string Z,
    default 0 (foldl (fun m j => if isLeased nowMs j
        then <[job_target j := default 0 (m !! job_target j) + 1]> m else m) m l !! t)
    = default 0 (m !! t)
      + Z.of_nat (length (filter (fun j => isLeased nowMs j = true /\ job_target j = t) l))).
  { induction l as [|j l IH]; intros m; cbn [foldl]; [simpl; lia|]. rewrite IH, filter_cons.
    destruct (isLeased nowMs j) eqn:E.
    - destruct (decide (job_target j = t)) as [<-|Ht].
      + rewrite lookup_insert_eq, (decide_True (P := _ /\ _)) by (by split). cbn [default length].
        unfold id. lia.
      + rewrite lookup_insert_ne by done. rewrite (decide_False (P := _ /\ _)); [done|tauto].
    - rewrite (decide_False (P := _ /\ _)); [done|]. intros [? _]. congruence. }
  rewrite H, lookup_empty. cbn [default]. unfold id. lia.
Qed.

Section Claims.
Context (o : RetryOptions).

Lemma tick_select_due nowMs l j :
  j ∈ (tick_select o nowMs l).1 -> j ∈ l /\ job_due nowMs j = true.
Proof.
  intros Hj. assert (H : j ∈ filter (fun j => job_due nowMs j = true) l).
  { rewrite <- (sort_on_perm (fun j => default 0 (job_date j))). eapply elem_of_submseteq; [exact Hj|].
    apply sublist_submseteq, take_capped_sublist. }
  apply list_elem_of_filter in H. tauto.
Qed.
Lemma tick_select_NoDup nowMs l : NoDup (jids l) -> NoDup (jids (tick_select o nowMs l).1).
Proof.
  intros Hn. eapply sublist_NoDup; [|apply fmap_sublist, take_capped_sublist]. unfold sort_on.
  rewrite sort_by_perm. by apply NoDup_fmap_filter.
Qed.
Lemma claimed_ids nowMs (due : list RetryJob) : jids (claimed_job o nowMs <$> due) = jids due.
Proof. by rewrite <- list_fmap_compose. Qed.

Lemma jids_partition (l due : list RetryJob) :
  NoDup (jids l) -> (forall j, j ∈ due -> j ∈ l) -> NoDup (jids due) ->
  jids (filter (fun j => job_id j ∉ jids due) l) ++ jids due ≡ₚ jids l.
Proof.
  intros Hl Hin Hd. apply NoDup_Permutation; [|done|].
  - apply NoDup_app. split; [by apply NoDup_fmap_filter|]. split; [|done].
    intros id (j & -> & Hj)%list_elem_of_fmap. by apply list_elem_of_filter in Hj as [? _].
  - intros id. rewrite elem_of_app. split.
    + intros [H|H].
      * apply list_elem_of_fmap in H as (j & -> & Hj). apply list_elem_of_filter in Hj as [_ Hj].
        by apply list_elem_of_fmap_2.
      * apply list_elem_of_fmap in H as (j & -> & Hj). by apply list_elem_of_fmap_2, Hin.
    + intros H. destruct (decide (id ∈ jids due)) as [Hd'|Hd']; [by right|]. left.
      apply list_elem_of_fmap in H as (j & -> & Hj). apply list_elem_of_fmap_2.
      by apply list_elem_of_filter.
Qed.

(** The claims of a tick, saved: the same jobs, the claimed ones rewritten. *)
Lemma tick_begin_jobs nowMs q :
  let due := (tick_select o nowMs (jobs q)).1 in
  jobs (tick_begin o nowMs q).1.1
  = filter (fun j => job_id j ∉ jids due) (jobs q) ++ (claimed_job o nowMs <$> due) /\
  (tick_begin o nowMs q).1.2 = claimed_job o nowMs <$> due /\
  (tick_begin o nowMs q).2 = (tick_select o nowMs (jobs q)).2 /\
  handed_over (tick_begin o nowMs q).1.1 = handed_over q.
Proof.
  unfold tick_begin. destruct (tick_select o nowMs (jobs q)) as [due n]. cbn [fst snd jobs handed_over].
  split; [|done]. pose proof (claimed_ids nowMs due) as E.
  destruct due as [|j due]; [|change (claimed_job o nowMs <$> j :: due)
    with (claimed_job o nowMs j :: (claimed_job o nowMs <$> due)) in *; by rewrite E].
  cbn [fmap list_fmap]. rewrite app_nil_r. symmetry. induction (jobs q) as [|x l IH]; [done|].
  rewrite filter_cons, decide_True by apply not_elem_of_nil. by f_equal.
Qed.
End Claims.

Lemma filter_filter_sub {A} (P Q : A -> Prop) (HP : forall x, Decision (P x))
    (HQ : forall x, Decision (Q x)) (l : list A) :
  (forall x, x ∈ l -> P x -> Q x) -> filter P (filter Q l) = filter P l.
Proof.
  induction l as [|x l IH]; intros H; [done|].
  assert (IH' : filter P (filter Q l) = filter P l)
    by (apply IH; intros y Hy; apply H; by apply list_elem_of_further).
  rewrite !filter_cons. destruct (decide (Q x)) as [Hq|Hq].
  - rewrite filter_cons, IH'. done.
  - rewrite IH'. rewrite decide_False; [done|]. intros Hp. by apply Hq, H; [apply list_elem_of_here|].
Qed.
Lemma isLeased_claimed o nowMs now j :
  iso_range (nowMs + opt_leaseMs o) ->
  isLeased now (claimed_job o nowMs j) = (now <? nowMs + opt_leaseMs o).
Proof.
  intros H. unfold isLeased, claimed_job. cbn [job_status job_leaseExpiresAt].
  rewrite date_parse_iso by done. by rewrite bool_decide_eq_true_2.
Qed.
(** The leases per target after the claims. *)
Lemma leased_after_claims o nowMs q t :
  NoDup (jids (jobs q)) -> 0 < opt_leaseMs o -> iso_range (nowMs + opt_leaseMs o) ->
  leased_on nowMs t (jobs (tick_begin o nowMs q).1.1)
  = leased_on nowMs t (jobs q)
    + Z.of_nat (length (on_target job_target t (tick_select o nowMs (jobs q)).1)).
Proof.
  intros Hn Hl Hi. destruct (tick_begin_jobs o nowMs q) as (-> & _). unfold leased_on.
  set (due := (tick_select o nowMs (jobs q)).1). rewrite filter_app, length_app, Nat2Z.inj_add. f_equal.
  - f_equal. f_equal. apply filter_filter_sub. intros j Hj [Hlj _] Hin.
    apply list_elem_of_fmap in Hin as (d & E & Hd). apply tick_select_due in Hd as [Hd1 Hd2].
    assert (j = d) as -> by (by eapply same_job_eq). unfold job_due in Hd2. by rewrite Hlj in Hd2.
  - f_equal. unfold on_target. clearbody due. induction due as [|j due IH]; [done|].
    cbn [fmap list_fmap]. rewrite !filter_cons. rewrite isLeased_claimed by done.
    rewrite (proj2 (Z.ltb_lt _ _)) by lia. cbn [job_target claimed_job].
    destruct (decide (job_target j = t)) as [E|E].
    + rewrite (decide_True (P := _ /\ _)) by done. cbn [length]. f_equal. exact IH.
    + rewrite (decide_False (P := _ /\ _)) by tauto. exact IH.
Qed.

(** ** Properties *)

(** The claims of a tick. A job it claims was due — its time has come and
    no lease holds it, so the job of a crashed tick is due again once its lease
    lapses — and is saved in flight, its attempt consumed, before any attempt
    runs. No job is added, dropped or duplicated; a tick takes at most
    [maxJobsPerTick]; the leased jobs per receiver never exceed the cap
    (or what was leased before); a due job is passed over only when one of
    these bounds is reached. *)
Theorem tick_claims_spec o nowMs q :
  NoDup (jids (jobs q)) -> 0 < opt_leaseMs o -> iso_range (nowMs + opt_leaseMs o) ->
  let due := (tick_select o nowMs (jobs q)).1 in
  let '(q', claimed, throttled) := tick_begin o nowMs q in
  claimed = claimed_job o nowMs <$> due /\
  (forall c, c ∈ claimed -> c ∈ jobs q' /\ isLeased nowMs c = true) /\
  (forall j, j ∈ due -> j ∈ jobs q /\ job_due nowMs j = true) /\
  jids (jobs q') ≡ₚ jids (jobs q) /\
  Z.of_nat (length claimed) <= Z.max 0 (opt_maxJobsPerTick o) /\
  (forall t, leased_on nowMs t (jobs q')
             <= Z.max (leased_on nowMs t (jobs q)) (opt_perTargetConcurrency o)) /\
  (forall j, j ∈ jobs q -> job_due nowMs j = true ->
     j ∈ due \/ opt_maxJobsPerTick o <= Z.of_nat (length claimed) \/
     opt_perTargetConcurrency o <= leased_on nowMs (job_target j) (jobs q')) /\
  attempts (metrics q') = attempts (metrics q) + Z.of_nat (length claimed).
Proof.
  intros Hn Hl Hi due. destruct (tick_begin_jobs o nowMs q) as (Ej & Ec & Et & _).
  pose proof (leased_after_claims o nowMs q) as Hleased. fold due in Ej, Ec, Hleased.
  assert (Em : attempts (metrics (tick_begin o nowMs q).1.1)
               = attempts (metrics q) + Z.of_nat (length (tick_begin o nowMs q).1.2)).
  { unfold tick_begin. destruct (tick_select o nowMs (jobs q)) as [d n]. cbn [fst snd metrics].
    assert (Hit : forall k m, attempts (Nat.iter k recordAttempt m) = attempts m + Z.of_nat k)
      by (induction k as [|k IHk]; intros m; [cbn; lia|];
          change (Nat.iter (S k) recordAttempt m) with (recordAttempt (Nat.iter k recordAttempt m));
          cbn [attempts recordAttempt]; rewrite IHk; lia).
    rewrite Hit. by destruct (0 <? n). }
  destruct (tick_begin o nowMs q) as [[q' claimed] throttled]. cbn [fst snd] in *. subst claimed.
  assert (Hdue : forall j, j ∈ due -> j ∈ jobs q /\ job_due nowMs j = true)
    by (intros j; apply tick_select_due).
  split; [done|]. split; [|split; [exact Hdue|split; [|split; [|split; [|split; [|exact Em]]]]]].
  - intros c Hc. split; [rewrite Ej; apply elem_of_app; by right|].
    apply list_elem_of_fmap in Hc as (j & -> & _). rewrite isLeased_claimed by done.
    apply Z.ltb_lt. lia.
  - rewrite Ej, fmap_app, claimed_ids. apply jids_partition; [done|apply Hdue|by apply tick_select_NoDup].
  - rewrite length_fmap. etrans; [apply take_capped_length|]. lia.
  - intros t. rewrite Hleased by done. subst due. unfold tick_select.
    pose proof (take_capped_cap job_target (opt_perTargetConcurrency o) (opt_maxJobsPerTick o) 0
      (count_leased nowMs (jobs q))
      (sort_on (fun j => default 0 (job_date j)) (filter (fun j => job_due nowMs j = true) (jobs q))) t) as H.
    cbn zeta in H. rewrite count_leased_lookup in H. lia.
  - intros j Hj Hd. rewrite length_fmap, Hleased by done. rewrite <- count_leased_lookup.
    destruct (take_capped_maximal job_target (opt_perTargetConcurrency o) (opt_maxJobsPerTick o) 0
      (count_leased nowMs (jobs q))
      (sort_on (fun j => default 0 (job_date j)) (filter (fun j => job_due nowMs j = true) (jobs q))) j)
      as [H|[H|H]].
    + rewrite sort_on_perm. by apply list_elem_of_filter.
    + by left.
    + right; left. subst due. unfold tick_select. lia.
    + by right; right.
Qed.
Definition sample_delivery (id : string) (max : option Z) : WebhookDeliveryRequest :=
  mkRequest id "https://h/x" "run.failed" JNull None max None.
Definition sample_job (id : string) : RetryJob :=
  mkJob id (sample_delivery id (Some 3)) "h" 1 3 job_pending (to_iso_string 5000) None
    (to_iso_string 0) [].
Definition sample_retry_queue : WebhookRetryQueue :=
  mkRetryQueue [sample_job "a"; sample_job "b"; sample_job "c"] new_metrics [].
Lemma tick_claims_spec_witness :
  let '(q', claimed, throttled) := tick_begin default_retry_options 6000 sample_retry_queue in
  jids claimed = ["a"%string; "b"%string] /\ throttled = 1 /\
  jids (jobs q') ≡ₚ jids (jobs sample_retry_queue).
Proof.
  assert (Hn : NoDup (jids (jobs sample_retry_queue)))
    by (apply (bool_decide_unpack _); vm_compute; exact I).
  assert (Hl : 0 < opt_leaseMs default_retry_options) by (vm_compute; reflexivity).
  assert (Hi : iso_range (6000 + opt_leaseMs default_retry_options))
    by (split; vm_compute; [discriminate|reflexivity]).
  pose proof (tick_claims_spec default_retry_options 6000 sample_retry_queue Hn Hl Hi) as H.
  cbn zeta in H.
  assert (E : let '(_, claimed, throttled) := tick_begin default_retry_options 6000 sample_retry_queue in
              jids claimed = ["a"%string; "b"%string] /\ throttled = 1)
    by (vm_compute; split; reflexivity).
  destruct (tick_begin default_retry_options 6000 sample_retry_queue) as [[q' claimed] throttled].
  destruct H as (_ & _ & _ & H & _). destruct E as [E1 E2]. split; [exact E1|]. split; [exact E2|exact H].
Defined.

(** What an attempt does to its job. A success removes it; a failure worth
    retrying with budget left puts it back, pending, its failure appended to the
    timeline, due after the equal-jitter delay of the attempt; any other failure
    removes it and hands its request with the whole timeline to the dead-letter
    queue, as exhausted exactly when the status was worth retrying. The other jobs
    are untouched, and exactly one outcome counter moves. *)
Theorem attempt_outcome_spec o job result at_ random q :
  wf_backoff (opt_backoff o) -> unit_random random ->
  iso_range at_ -> iso_range (at_ + maxMs (opt_backoff o)) ->
  let '(q', out) := attempt_end o job result at_ random q in
  let note := mkNote (job_attempt job) (dlv_statusCode result)
                (Some (default "Delivery failed"%string (dlv_error result))) (to_iso_string at_) in
  let retryable := isRetryableDeliveryStatus (dlv_statusCode result) in
  let w := backoff_window (job_attempt job) (opt_backoff o) in
  filter (fun j => job_id j <> job_id job) (jobs q') = filter (fun j => job_id j <> job_id job) (jobs q) /\
  recovered (metrics q') + scheduled (metrics q') + dead (metrics q')
  = recovered (metrics q) + scheduled (metrics q) + dead (metrics q) + 1 /\
  match out with
  | out_delivered id a _ =>
      dlv_ok result = true /\ id = job_id job /\ a = job_attempt job /\
      job_id job ∉ jids (jobs q') /\ handed_over q' = handed_over q
  | out_scheduled id a _ _ _ =>
      dlv_ok result = false /\ retryable = true /\ job_attempt job < job_maxAttempts job /\
      id = job_id job /\ a = job_attempt job /\ handed_over q' = handed_over q /\
      forall j, j ∈ jobs q' -> job_id j = job_id job ->
        job_status j = job_pending /\ job_attempt j = job_attempt job /\
        job_timeline j = job_timeline job ++ [note] /\
        exists t, job_date j = Some t /\ at_ + (w + 1) / 2 <= t <= at_ + w
  | out_dead id a _ _ =>
      dlv_ok result = false /\ (retryable = false \/ job_maxAttempts job <= job_attempt job) /\
      id = job_id job /\ a = job_attempt job /\ job_id job ∉ jids (jobs q') /\
      exists e, handed_over q' = handed_over q ++ [e] /\
        dlq_requestId e = req_id (job_request job) /\ dlq_endpoint e = req_url (job_request job) /\
        dlq_errorTimeline e = job_timeline job ++ [note] /\
        (dlq_reason e = retries_exhausted <-> retryable = true)
  end.
Proof.
  intros Hp Hr Hi1 Hi2. unfold attempt_end.
  assert (Hrm : forall l, filter (fun j => job_id j <> job_id job) (remove_job (job_id job) l)
                          = filter (fun j => job_id j <> job_id job) l)
    by (intros l; by apply filter_filter_sub).
  assert (Hni : forall l, job_id job ∉ jids (remove_job (job_id job) l))
    by (intros l H; apply elem_remove_job in H as [_ H]; done).
  destruct (dlv_ok result) eqn:Eok.
  { cbn [jobs metrics handed_over recovered scheduled dead recordRecovered]. rewrite Hrm.
    split; [done|]. split; [lia|]. done. }
  destruct (isRetryableDeliveryStatus (dlv_statusCode result)) eqn:Er; cbn [andb];
    [destruct (Z.ltb_spec (job_attempt job) (job_maxAttempts job)) as [Hlt|Hge]|];
    cbn [jobs metrics handed_over recovered scheduled dead recordRetryScheduled recordDeadLettered];
    rewrite ?Hrm.
  - split; [|split; [lia|]].
    + unfold replace_job. cbn [job_id]. induction (jobs q) as [|x l IH]; [done|].
      cbn [fmap list_fmap]. rewrite !filter_cons. destruct (decide (job_id x = job_id job)) as [E|E].
      * cbn [job_id]. rewrite !decide_False by tauto. exact IH.
      * rewrite !decide_True by done. by f_equal.
    + split_and!; try done. intros j Hj Ej. apply list_elem_of_fmap in Hj as (x & -> & _).
      cbn [job_id] in *. destruct (decide (job_id x = job_id job)) as [Ex|Ex]; [|done].
      cbn [job_status job_attempt job_timeline]. split_and!; try done.
      exists (at_ + computeBackoffMs (job_attempt job) (opt_backoff o) random). unfold job_date.
      cbn [job_nextAttemptAt].
      pose proof (computeBackoffMs_bounds (job_attempt job) _ _ Hp Hr) as Hb.
      pose proof (backoff_window_range (job_attempt job) _ Hp).
      assert (backoff_window (job_attempt job) (opt_backoff o) <= maxMs (opt_backoff o))
        by (unfold backoff_window; lia).
      rewrite date_parse_iso by (unfold iso_range in *; lia). split; [done|lia].
  - split; [done|]. split; [lia|]. split_and!; try done; [by right|]. by eexists.
  - split; [done|]. split; [lia|]. split_and!; try done; [by left|]. by eexists.
Qed.
Lemma attempt_outcome_spec_witness :
  let '(q', out) := attempt_end default_retry_options (sample_job "b") (mkDelivery false (Some 404) None)
    7000 (0, 1%nat) sample_retry_queue in
  out = out_dead "b" 1 (Some 404) None /\ jids (jobs q') = ["a"%string; "c"%string] /\
  recovered (metrics q') + scheduled (metrics q') + dead (metrics q') = 1.
Proof.
  assert (Hp : wf_backoff (opt_backoff default_retry_options)) by (split; [|split]; vm_compute; reflexivity).
  assert (Hr : unit_random (0, 1%nat)) by (split; vm_compute; [discriminate|reflexivity]).
  assert (H1 : iso_range 7000) by (split; vm_compute; [discriminate|reflexivity]).
  assert (H2 : iso_range (7000 + maxMs (opt_backoff default_retry_options)))
    by (split; vm_compute; [discriminate|reflexivity]).
  pose proof (attempt_outcome_spec default_retry_options (sample_job "b")
    (mkDelivery false (Some 404) None) 7000 (0, 1%nat) sample_retry_queue Hp Hr H1 H2) as H.
  assert (E : let '(q', out) := attempt_end default_retry_options (sample_job "b")
                (mkDelivery false (Some 404) None) 7000 (0, 1%nat) sample_retry_queue in
              out = out_dead "b" 1 (Some 404) None /\ jids (jobs q') = ["a"%string; "c"%string])
    by (vm_compute; split; reflexivity).
  destruct (attempt_end default_retry_options (sample_job "b") (mkDelivery false (Some 404) None)
    7000 (0, 1%nat) sample_retry_queue) as [q' out].
  destruct H as (_ & H & _). destruct E as [E1 E2]. split; [exact E1|]. split; [exact E2|exact H].
Defined.

(** ** Invariants of overlapping ticks *)

(** A job belongs to its request; a pending one has budget left. *)
Definition job_ok (j : RetryJob) : Prop :=
  job_id j = req_id (job_request j) /\
  (job_status j = job_pending -> job_attempt j < job_maxAttempts j).
Definition retry_inv (w : RetryWorld) : Prop :=
  NoDup (jids (jobs (rt_queue w))) /\ Forall job_ok (jobs (rt_queue w)) /\
  Forall (fun j => job_id j = req_id (job_request j)) (rt_running w).
(** The request is still queued, or was delivered, or was dead-lettered. *)
Definition accounted (id : string) (w : RetryWorld) : Prop :=
  id ∈ jids (jobs (rt_queue w)) \/ id ∈ rt_delivered w
  \/ id ∈ (dlq_requestId <$> handed_over (rt_queue w)).
Definition ledger_of (w : RetryWorld) : Duties :=
  mkDuties (list_to_set (job_id <$> jobs (rt_queue w))) (list_to_set (rt_delivered w))
    (list_to_set (dlq_requestId <$> handed_over (rt_queue w))).
Definition empty_retry : RetryWorld := mkRetryWorld (mkRetryQueue [] new_metrics []) [] [].

Section Invariants.
Context (retryTargetOf : string -> string) (o : RetryOptions).
Notation step := (retry_step retryTargetOf o).

Lemma schedule_jobs input nowMs random q :
  jobs (schedule retryTargetOf o input nowMs random q).1 = jobs q \/
  exists existing,
    jobs (schedule retryTargetOf o input nowMs random q).1
    = remove_job (req_id (inp_request input)) (jobs q)
      ++ [scheduled_job retryTargetOf o existing input nowMs random].
Proof.
  unfold schedule. destruct (find_job _ (jobs q)) as [j|];
    [destruct (isLeased nowMs j); [by left|]|]; right; by eexists.
Qed.
Lemma schedule_handed_over input nowMs random q :
  handed_over (schedule retryTargetOf o input nowMs random q).1 = handed_over q.
Proof.
  unfold schedule. destruct (find_job _ (jobs q)) as [j|]; [destruct (isLeased nowMs j)|]; done.
Qed.
Lemma Forall_filter_sub {A} (P Q : A -> Prop) (HQ : forall x, Decision (Q x)) (l : list A) :
  Forall P l -> Forall P (filter Q l).
Proof.
  rewrite !Forall_forall. intros H x Hx. apply H. by apply list_elem_of_filter in Hx as [_ ?].
Qed.

Lemma schedule_inv input nowMs random q run ds :
  retry_inv (mkRetryWorld q run ds) ->
  retry_inv (mkRetryWorld (schedule retryTargetOf o input nowMs random q).1 run ds).
Proof.
  intros (Hn & Hj & Hr). unfold retry_inv. cbn [rt_queue rt_running] in *.
  destruct (schedule_jobs input nowMs random q) as [->|[ex ->]]; [done|]. split; [|split; [|done]].
  - rewrite fmap_app. apply NoDup_app. split; [by apply remove_job_NoDup|]. split; [|apply NoDup_singleton].
    intros id H1 ->%list_elem_of_singleton. apply elem_remove_job in H1 as [_ H1]. by apply H1.
  - apply Forall_app. split; [by apply Forall_filter_sub|]. apply Forall_singleton. split; [done|].
    intros _. cbn [scheduled_job job_attempt job_maxAttempts]. lia.
Qed.
Lemma tick_inv nowMs q q' claimed n run ds :
  tick_begin o nowMs q = (q', claimed, n) ->
  retry_inv (mkRetryWorld q run ds) -> retry_inv (mkRetryWorld q' (run ++ claimed) ds).
Proof.
  intros E (Hn & Hj & Hr). unfold retry_inv. cbn [rt_queue rt_running] in *.
  destruct (tick_begin_jobs o nowMs q) as (E1 & E2 & _). rewrite E in E1, E2. cbn [fst snd] in E1, E2.
  rewrite E1, E2. rewrite Forall_forall in Hj.
  assert (Hc : forall c, c ∈ claimed_job o nowMs <$> (tick_select o nowMs (jobs q)).1 ->
                 job_id c = req_id (job_request c) /\ job_status c = in_flight).
  { intros c (d & -> & Hd)%list_elem_of_fmap. apply tick_select_due in Hd as [Hd _].
    split; [|done]. by apply (Hj d). }
  split; [|split].
  - rewrite fmap_app, claimed_ids. rewrite jids_partition; [done|done|intros j Hd; by eapply tick_select_due|].
    by apply tick_select_NoDup.
  - apply Forall_app. split; [apply Forall_filter_sub; by apply Forall_forall|].
    apply Forall_forall. intros c Hin. apply Hc in Hin as [H1 H2]. split; [done|]. by rewrite H2.
  - apply Forall_app. split; [done|]. apply Forall_forall. intros c Hin. by apply Hc in Hin as [H1 _].
Qed.
Lemma answer_inv j result at_ random q run1 run2 ds ds' :
  retry_inv (mkRetryWorld q (run1 ++ j :: run2) ds) ->
  retry_inv (mkRetryWorld (attempt_end o j result at_ random q).1 (run1 ++ run2) ds').
Proof.
  intros (Hn & Hj & Hr). unfold retry_inv. cbn [rt_queue rt_running] in *.
  apply Forall_app in Hr as [Hr1 Hr2]. apply Forall_cons in Hr2 as [Hrj Hr2].
  assert (Hrun : Forall (fun j => job_id j = req_id (job_request j)) (run1 ++ run2))
    by (by apply Forall_app). unfold attempt_end.
  destruct (dlv_ok result); [|destruct (_ && _) eqn:Eb]; cbn [fst jobs]; split_and!; try done;
    try (by apply remove_job_NoDup); try (by apply Forall_filter_sub).
  - by rewrite replace_job_ids.
  - bools. apply Forall_forall. intros x (y & -> & Hy)%list_elem_of_fmap. cbn [job_id].
    case_decide; [|by eapply Forall_forall in Hj]. split; [done|]. intros _.
    cbn [job_attempt job_maxAttempts]. lia.
Qed.
Lemma retry_inv_step w w' : step w w' -> retry_inv w -> retry_inv w'.
Proof.
  intros Hs. destruct Hs.
  - apply schedule_inv.
  - by eapply tick_inv.
  - apply answer_inv.
  - intros (Hn & Hj & Hr). split_and!; try done. cbn [rt_running] in *.
    rewrite !Forall_app in *. tauto.
Qed.

(** Every step is a step of the delivery ledger. *)
Lemma ledger_sim w w' : retry_inv w -> step w w' -> duty_step (ledger_of w) (ledger_of w').
Proof.
  intros (Hn & Hj & Hr) Hs. unfold ledger_of. destruct Hs; cbn [rt_queue rt_running rt_delivered] in *.
  - rewrite schedule_handed_over.
    destruct (schedule_jobs input nowMs random q) as [->|[ex ->]]; [apply ledger_stutter|].
    replace (list_to_set (jids (remove_job (req_id (inp_request input)) (jobs q)
               ++ [scheduled_job retryTargetOf o ex input nowMs random])))
      with ({[ req_id (inp_request input) ]} ∪ list_to_set (jids (jobs q)) : gset string);
      [apply ledger_open|].
    apply set_eq. intros x. rewrite fmap_app, list_to_set_app, !elem_of_union, !elem_of_list_to_set,
      elem_remove_job, elem_of_singleton. cbn [fmap list_fmap].
    rewrite list_elem_of_singleton. cbn [scheduled_job job_id].
    destruct (decide (x = req_id (inp_request input))); tauto.
  - destruct (tick_begin_jobs o nowMs q) as (E1 & E2 & _ & E4). rewrite H in E1, E2, E4.
    cbn [fst snd] in *. rewrite E4. replace (list_to_set (jids (jobs q')) : gset string)
      with (list_to_set (jids (jobs q)) : gset string); [apply ledger_stutter|].
    apply set_eq. intros x. rewrite !elem_of_list_to_set, E1, fmap_app, claimed_ids.
    rewrite jids_partition; [done|done|intros j Hd; by eapply tick_select_due|by apply tick_select_NoDup].
  - assert (Ej : job_id j = req_id (job_request j))
      by (apply Forall_app in Hr as [_ Hr]; by apply Forall_cons in Hr as [? _]).
    assert (Erm : list_to_set (jids (remove_job (job_id j) (jobs q)))
                  = (list_to_set (jids (jobs q)) ∖ {[ job_id j ]} : gset string)).
    { apply set_eq. intros x. rewrite elem_of_difference, !elem_of_list_to_set, elem_remove_job.
      by rewrite elem_of_singleton. }
    unfold attempt_end. destruct (dlv_ok result); [|destruct (_ && _)]; cbn [fst jobs handed_over].
    + rewrite Erm. cbn [list_to_set]. apply ledger_deliver.
    + rewrite replace_job_ids. apply ledger_stutter.
    + rewrite Erm, fmap_app. cbn [fmap list_fmap createDlqEntry dlq_requestId]. rewrite <- Ej.
      replace (list_to_set ((dlq_requestId <$> handed_over q) ++ [job_id j]) : gset string)
        with ({[ job_id j ]} ∪ list_to_set (dlq_requestId <$> handed_over q) : gset string) by set_solver.
      apply ledger_bury.
  - apply ledger_stutter.
Qed.
End Invariants.


(** C3. A queued delivery is never lost. Whatever schedules, ticks, answers and
    crashes follow, in whatever interleaving, a request that was queued once is
    queued still, or was delivered, or was handed to the dead-letter queue; the
    queue never holds two jobs for one request; and a job waiting for its turn
    always has an attempt left. *)
Theorem queued_delivery_never_lost retryTargetOf o w w' id :
  rtc (retry_step retryTargetOf o) empty_retry w -> rtc (retry_step retryTargetOf o) w w' ->
  id ∈ jids (jobs (rt_queue w)) ->
  accounted id w' /\ NoDup (jids (jobs (rt_queue w'))) /\
  forall j, j ∈ jobs (rt_queue w') -> job_status j = job_pending -> job_attempt j < job_maxAttempts j.
Proof.
  intros H0 H1 Hid. assert (Hw : retry_inv w)
    by (eapply reachable_inv; [apply retry_inv_step|exact H0|by split_and!; constructor]).
  destruct (simulation_rtc (retry_step retryTargetOf o) duty_step retry_inv ledger_of
    ltac:(intros; by eapply retry_inv_step) ltac:(apply ledger_sim) w w' Hw H1) as [(Hn & Hj & _) Hl].
  split; [|split; [done|]].
  - apply (ledger_known id) in Hl; unfold known, ledger_of in *; cbn in *; [|set_solver].
    unfold accounted. set_solver.
  - intros j Hin. rewrite Forall_forall in Hj. by apply (Hj j Hin).
Qed.
Lemma queued_delivery_never_lost_witness :
  exists w w', rtc (retry_step (fun u => u) default_retry_options) empty_retry w /\
    rtc (retry_step (fun u => u) default_retry_options) w w' /\
    accounted "a" w' /\ jobs (rt_queue w') = [] /\ rt_delivered w' = ["a"%string].
Proof.
  set (input := mkInput (sample_delivery "a" None) 1 [] true None).
  set (q1 := (schedule (fun u => u) default_retry_options input 0 (0, 1%nat) (rt_queue empty_retry)).1).
  set (j := claimed_job default_retry_options 0
              (scheduled_job (fun u => u) default_retry_options None input 0 (0, 1%nat))).
  set (q2 := mkRetryQueue [j] (recordAttempt new_metrics) []).
  set (w' := mkRetryWorld (attempt_end default_retry_options j (mkDelivery true (Some 200) None) 100
               (0, 1%nat) q2).1 [] ["a"%string]).
  assert (H0 : rtc (retry_step (fun u => u) default_retry_options) empty_retry (mkRetryWorld q1 [] [])).
  { eapply rtc_l; [apply (retry_schedule _ _ input 0 (0, 1%nat))|apply rtc_refl]. }
  assert (H1 : rtc (retry_step (fun u => u) default_retry_options) (mkRetryWorld q1 [] []) w').
  { eapply rtc_l; [apply (retry_tick _ _ 0 q1 q2 [j] 0); vm_compute; reflexivity|].
    eapply rtc_l; [|apply rtc_refl].
    apply (retry_answer _ _ j (mkDelivery true (Some 200) None) 100 (0, 1%nat) q2 [] [] []). }
  assert (Hid : "a"%string ∈ jids (jobs (rt_queue (mkRetryWorld q1 [] []))))
    by (apply list_elem_of_singleton; reflexivity).
  exists (mkRetryWorld q1 [] []), w'. split; [exact H0|]. split; [exact H1|].
  split; [exact (proj1 (queued_delivery_never_lost (fun u => u) default_retry_options _ _ _ H0 H1 Hid))|].
  split; vm_compute; reflexivity.
Defined.

(** ** Crashes and the attempt budget *)

(** The job of a request with a budget of one attempt, after [n] claims whose
    ticks all crashed, one lease apart. *)
Definition crashed_job (n : Z) : RetryJob :=
  mkJob "a" (sample_delivery "a" (Some 1)) "https://h/x" n 1
    (if n =? 0 then job_pending else in_flight) (to_iso_string 0)
    (if n =? 0 then None else Some (to_iso_string (n * WEBHOOK_RETRY_LEASE_MS)))
    (to_iso_string 0) [].
Lemma crashed_tick n m :
  0 <= n -> iso_range (n * WEBHOOK_RETRY_LEASE_MS) ->
  tick_begin default_retry_options (n * WEBHOOK_RETRY_LEASE_MS) (mkRetryQueue [crashed_job n] m [])
  = (mkRetryQueue [crashed_job (n + 1)] (recordAttempt m) [], [crashed_job (n + 1)], 0).
Proof.
  intros Hn Hi. set (now := n * WEBHOOK_RETRY_LEASE_MS) in *.
  assert (Hl : isLeased now (crashed_job n) = false).
  { unfold isLeased, crashed_job. cbn [job_status job_leaseExpiresAt]. destruct (n =? 0); [done|].
    fold now. rewrite date_parse_iso by done. by rewrite Z.ltb_irrefl, andb_false_r. }
  assert (Hd : job_due now (crashed_job n) = true).
  { unfold job_due, job_date. rewrite Hl. cbn [job_nextAttemptAt crashed_job].
    rewrite date_parse_iso by (split; vm_compute; [discriminate|reflexivity]).
    apply Z.leb_le. subst now. unfold WEBHOOK_RETRY_LEASE_MS. lia. }
  assert (Hs : tick_select default_retry_options now [crashed_job n] = ([crashed_job n], 0)).
  { unfold tick_select, count_leased. cbn [foldl]. rewrite Hl, filter_cons, (decide_True _ _ Hd).
    unfold sort_on. cbn [filter list_filter sort_by insert_by take_capped].
    by rewrite lookup_empty. }
  unfold tick_begin. cbn [jobs metrics handed_over]. rewrite Hs. cbn [fmap list_fmap].
  assert (Hc : claimed_job default_retry_options now (crashed_job n) = crashed_job (n + 1)).
  { unfold claimed_job, crashed_job. cbn [job_id job_request job_target job_attempt job_maxAttempts
      job_nextAttemptAt job_createdAt job_timeline opt_leaseMs default_retry_options].
    rewrite (proj2 (Z.eqb_neq (n + 1) 0)) by lia.
    replace (now + WEBHOOK_RETRY_LEASE_MS) with ((n + 1) * WEBHOOK_RETRY_LEASE_MS) by lia. done. }
  rewrite Hc. f_equal.
Qed.

(** The budget does not bound the attempts when ticks crash: a job reclaimed
    after its lease lapsed is claimed again whatever its attempt count, so a
    request allowed a single attempt is sent [n] times by [n] crashing ticks. *)
Theorem crashes_exceed_budget n :
  iso_range (Z.of_nat n * WEBHOOK_RETRY_LEASE_MS) ->
  exists w j, rtc (retry_step (fun u => u) default_retry_options) empty_retry w /\
    jobs (rt_queue w) = [j] /\ req_maxAttempts (job_request j) = Some 1 /\ job_maxAttempts j = 1 /\
    job_attempt j = Z.of_nat n /\ attempts (metrics (rt_queue w)) = Z.of_nat n.
Proof.
  intros Hi.
  set (q0 := mkRetryQueue [crashed_job 0] new_metrics []).
  assert (H0 : rtc (retry_step (fun u => u) default_retry_options) empty_retry (mkRetryWorld q0 [] [])).
  { eapply rtc_l; [|apply rtc_refl].
    exact (retry_schedule (fun u => u) default_retry_options
             (mkInput (sample_delivery "a" (Some 1)) 0 [] true None) 0 (0, 1%nat) _ [] []). }
  exists (mkRetryWorld (mkRetryQueue [crashed_job (Z.of_nat n)] (Nat.iter n recordAttempt new_metrics) []) [] []),
    (crashed_job (Z.of_nat n)).
  split; [|split_and!; try done].
  - etrans; [exact H0|]. clear H0. induction n as [|n IH]; [apply rtc_refl|].
    etrans; [apply IH; unfold iso_range, WEBHOOK_RETRY_LEASE_MS in *; lia|].
    eapply rtc_l; [eapply (retry_tick _ _ (Z.of_nat n * WEBHOOK_RETRY_LEASE_MS)),
      (crashed_tick (Z.of_nat n)); [lia|unfold iso_range, WEBHOOK_RETRY_LEASE_MS in *; lia]|].
    eapply rtc_l; [apply (retry_crash _ _ [] [crashed_job (Z.of_nat n + 1)] [])|].
    rewrite Nat2Z.inj_succ. apply rtc_refl.
  - clear. induction n as [|n IH]; [done|]. cbn [rt_queue metrics] in *.
    change (Nat.iter (S n) recordAttempt new_metrics) with (recordAttempt (Nat.iter n recordAttempt new_metrics)).
    cbn [attempts recordAttempt]. rewrite IH. lia.
Qed.
Lemma crashes_exceed_budget_witness :
  exists w j, jobs (rt_queue w) = [j] /\ job_maxAttempts j = 1 /\ attempts (metrics (rt_queue w)) = 7.
Proof.
  assert (H : iso_range (Z.of_nat 7 * WEBHOOK_RETRY_LEASE_MS))
    by (split; vm_compute; [discriminate|reflexivity]).
  destruct (crashes_exceed_budget 7 H) as (w & j & _ & H1 & _ & H2 & _ & H3).
  exists w, j. split; [exact H1|]. split; [exact H2|exact H3].
Defined.
