(* ===== verification/WebhookStore.v ===== *)
(** [lib/webhook-store.ts]: the pending deliveries, the bounded delivery log and
    the rotation of signing secrets.

    Every mutation is written through to its file before it returns, so the
    state is also what a restart finds. Fresh secrets and ids, the key id of a
    secret and the collation [localeCompare] are arguments. *)

From S2P Require Import Prelude JsDate JsString JsNumber JsValue RetryBackoff.
From stdpp Require Import base list sets fin_sets gmap strings numbers sorting.
From Stdlib Require Import ZArith Lia Ascii.
#[local] Open Scope Z_scope.

Record DeliveryLogEntry : Type := mkLog
  { log_webhookId : string; log_success : bool; log_statusCode : option Z;
    log_error : option string; log_retryCount : Z; log_timestamp : string;
    log_signingKeyId : option string }.
Inductive WebhookSigningSecretStatus : Type := sec_active | sec_grace.
#[export] Instance WebhookSigningSecretStatus_eq : EqDecision WebhookSigningSecretStatus.
Proof. solve_decision. Defined.
Record WebhookSigningSecretRecord : Type := mkSecret
  { sec_id : string; sec_keyId : string; sec_secret : string;
    sec_status : WebhookSigningSecretStatus; sec_createdAt : string;
    sec_expiresAt : option string }.
Definition DEFAULT_SIGNING_GRACE_TTL_DAYS : Z := 14.

(** The parts of the store this development uses; the dead-letter and retry
    queues behind its gateways are [WebhookDlq] and [WebhookRetry]. *)
Record WebhookStore : Type := mkStore
  { st_queue : list WebhookDeliveryRequest; st_deliveryLog : list DeliveryLogEntry;
    st_signingSecrets : list WebhookSigningSecretRecord; st_maxLogSize : nat }.

(** ** Pending deliveries *)

Definition with_queue (q : list WebhookDeliveryRequest) (s : WebhookStore) : WebhookStore :=
  mkStore q (st_deliveryLog s) (st_signingSecrets s) (st_maxLogSize s).
Definition store_enqueue (r : WebhookDeliveryRequest) (s : WebhookStore) : WebhookStore :=
  with_queue (st_queue s ++ [r]) s.
Definition store_dequeue (s : WebhookStore) : WebhookStore * option WebhookDeliveryRequest :=
  match st_queue s with [] => (s, None) | r :: rest => (with_queue rest s, Some r) end.
Definition removeFromQueue (id : string) (s : WebhookStore) : WebhookStore * bool :=
  let next := filter (fun r => req_id r <> id) (st_queue s) in
  if decide (length next = length (st_queue s)) then (s, false) else (with_queue next s, true).
Definition clearQueue (s : WebhookStore) : WebhookStore := with_queue [] s.

(** ** Delivery log *)

Definition with_log (l : list DeliveryLogEntry) (s : WebhookStore) : WebhookStore :=
  mkStore (st_queue s) l (st_signingSecrets s) (st_maxLogSize s).
Definition getDeliveryLog (webhookId : option string) (limit : nat) (s : WebhookStore)
  : list DeliveryLogEntry :=
  let entries := match webhookId with
    | Some id => if decide (id = ""%string) then st_deliveryLog s
                 else filter (fun e => log_webhookId e = id) (st_deliveryLog s)
    | None => st_deliveryLog s
    end in
  reverse (if decide (limit = 0%nat) then entries else slice_last limit entries).
Definition addDeliveryLog (e : DeliveryLogEntry) (s : WebhookStore) : WebhookStore :=
  let log := st_deliveryLog s ++ [e] in
  with_log (if decide (st_maxLogSize s < length log)%nat
            then (if decide (st_maxLogSize s = 0%nat) then log else slice_last (st_maxLogSize s) log)
            else log) s.
Definition clearDeliveryLog (s : WebhookStore) : WebhookStore := with_log [] s.
(** Old enough to prune: the timestamp is a positive instant before the cutoff. *)
Definition prunable (cutoffMs : Z) (e : DeliveryLogEntry) : bool :=
  match date_parse (log_timestamp e) with
  | Some t => (0 <? t) && (t <? cutoffMs)
  | None => false
  end.
Fixpoint prune_log (cutoffMs : Z) (budget : nat) (l : list DeliveryLogEntry)
  : list DeliveryLogEntry * nat :=
  match l with
  | [] => ([], 0%nat)
  | e :: rest =>
      match budget with
      | S b => if prunable cutoffMs e
               then let '(kept, n) := prune_log cutoffMs b rest in (kept, S n)
               else let '(kept, n) := prune_log cutoffMs budget rest in (e :: kept, n)
      | O => let '(kept, n) := prune_log cutoffMs 0 rest in (e :: kept, n)
      end
  end.
Definition pruneDeliveryLog (ttlDays : Z) (maxBatchSize : nat) (nowMs : Z) (s : WebhookStore)
  : WebhookStore * nat :=
  if ttlDays <=? 0 then (s, 0%nat)
  else
    let '(kept, n) := prune_log (nowMs - ttlDays * 24 * 60 * 60 * 1000) maxBatchSize
                        (st_deliveryLog s) in
    (if decide (0 < n)%nat then with_log kept s else s, n).

(** ** Signing secrets *)

Definition with_secrets (l : list WebhookSigningSecretRecord) (s : WebhookStore) : WebhookStore :=
  mkStore (st_queue s) (st_deliveryLog s) l (st_maxLogSize s).
Definition is_active (r : WebhookSigningSecretRecord) : bool :=
  bool_decide (sec_status r = sec_active).
(** Kept by [pruneExpiredSigningSecrets]. *)
Definition unexpired (nowMs : Z) (r : WebhookSigningSecretRecord) : bool :=
  is_active r ||
  match sec_expiresAt r with
  | None => true
  | Some e => if decide (e = ""%string) then true
              else match date_parse e with Some t => nowMs <? t | None => false end
  end.
Definition pruneExpiredSigningSecrets (nowMs : Z) (s : WebhookStore) : WebhookStore * Z :=
  let kept := filter (fun r => unexpired nowMs r = true) (st_signingSecrets s) in
  (with_secrets kept s, Z.of_nat (length (st_signingSecrets s)) - Z.of_nat (length kept)).
Definition getSigningSecretsForVerification (nowMs : Z) (s : WebhookStore)
  : WebhookStore * list string :=
  let s' := (pruneExpiredSigningSecrets nowMs s).1 in
  (s', (sec_secret <$> filter (fun r => is_active r = true) (st_signingSecrets s'))
       ++ (sec_secret <$> filter (fun r => is_active r = false) (st_signingSecrets s'))).
Definition getActiveSigningSecretRecord (nowMs : Z) (s : WebhookStore)
  : WebhookStore * option WebhookSigningSecretRecord :=
  let s' := (pruneExpiredSigningSecrets nowMs s).1 in
  (s', head (filter (fun r => is_active r = true) (st_signingSecrets s'))).

Section Rotation.
Context (keyIdOf : string -> string) (locale_le : string -> string -> bool).

Definition secret_le (a b : WebhookSigningSecretRecord) : bool :=
  if is_active a then true else if is_active b then false
  else locale_le (sec_createdAt a) (sec_createdAt b).
(** [previous] is the first active record; the object is mutated in place. *)
Fixpoint demote_active (expiresAt : string) (l : list WebhookSigningSecretRecord)
  : list WebhookSigningSecretRecord :=
  match l with
  | [] => []
  | r :: rest =>
      if is_active r
      then mkSecret (sec_id r) (sec_keyId r) (sec_secret r) sec_grace (sec_createdAt r)
             (Some expiresAt) :: rest
      else r :: demote_active expiresAt rest
  end.
Definition rotateSigningSecret (ttlDays nowMs : Z) (newId newSecret : string) (s : WebhookStore)
  : WebhookStore * WebhookSigningSecretRecord * option string :=
  let pruned := st_signingSecrets (pruneExpiredSigningSecrets nowMs s).1 in
  let previous := head (filter (fun r => is_active r = true) pruned) in
  let active := mkSecret newId (keyIdOf newSecret) newSecret sec_active (to_iso_string nowMs) None in
  let demoted := demote_active (to_iso_string (nowMs + ttlDays * 24 * 60 * 60 * 1000)) pruned in
  (with_secrets (sort_by secret_le (demoted ++ [active])) s, active, sec_keyId <$> previous).
Definition revokeGraceSigningSecret (nowMs : Z) (idOrKeyId : string) (s : WebhookStore)
  : WebhookStore * bool :=
  let pruned := st_signingSecrets (pruneExpiredSigningSecrets nowMs s).1 in
  let kept := filter (fun r => is_active r = true \/
                (sec_id r <> idOrKeyId /\ sec_keyId r <> idOrKeyId)) pruned in
  (with_secrets kept s, bool_decide (length kept <> length pruned)).
(** [fresh i] is the id given to the secret at index [i]. *)
Definition seedSigningSecretsFromEnv (envSecrets : list string) (fresh : nat -> string)
    (ttlDays nowMs : Z) (s : WebhookStore) : WebhookStore :=
  match st_signingSecrets s with
  | _ :: _ => s
  | [] =>
      with_secrets (imap (fun i secret =>
        mkSecret (fresh i) (keyIdOf secret) secret (if decide (i = 0%nat) then sec_active else sec_grace)
          (to_iso_string nowMs)
          (if decide (i = 0%nat) then None
           else Some (to_iso_string (nowMs + ttlDays * 24 * 60 * 60 * 1000)))) envSecrets) s
  end.
End Rotation.

(** ** Lemmas *)

Lemma addDeliveryLog_bounded e s :
  (0 < st_maxLogSize s)%nat -> (length (st_deliveryLog s) <= st_maxLogSize s)%nat ->
  (length (st_deliveryLog (addDeliveryLog e s)) <= st_maxLogSize s)%nat /\
  last (st_deliveryLog (addDeliveryLog e s)) = Some e.
Proof.
  intros Hm Hl. unfold addDeliveryLog. cbn [with_log st_deliveryLog].
  rewrite (decide_False (P := st_maxLogSize s = 0%nat)) by lia.
  assert (Hlen : length (st_deliveryLog s ++ [e]) = S (length (st_deliveryLog s)))
    by (rewrite length_app; cbn; lia).
  case_decide as Hc; [|split; [lia|apply last_snoc]]. unfold slice_last. split.
  - rewrite length_drop. lia.
  - rewrite drop_app_le by lia. apply last_snoc.
Qed.
Lemma prune_log_spec cutoff budget l :
  let r := prune_log cutoff budget l in
  r.1 `sublist_of` l /\ (r.2 <= budget)%nat /\ (length r.1 + r.2 = length l)%nat /\
  filter (fun e => prunable cutoff e = false) r.1 = filter (fun e => prunable cutoff e = false) l /\
  ((r.2 < budget)%nat -> Forall (fun e => prunable cutoff e = false) r.1).
Proof.
  revert budget. induction l as [|e l IH]; intros budget; cbn zeta in *.
  { cbn. split_and!; try done; lia. }
  cbn [prune_log]. destruct budget as [|b]; [|destruct (prunable cutoff e) eqn:E].
  - specialize (IH 0%nat). destruct (prune_log cutoff 0 l) as [k n]. cbn [fst snd] in *.
    destruct IH as (H1 & H2 & H3 & H4 & H5). rewrite !filter_cons, H4. cbn [length].
    split_and!; try done; try lia. by apply sublist_skip.
  - specialize (IH b). destruct (prune_log cutoff b l) as [k n]. cbn [fst snd] in *.
    destruct IH as (H1 & H2 & H3 & H4 & H5). rewrite !filter_cons, H4. cbn [length].
    rewrite (decide_False (P := prunable cutoff e = false)) by congruence.
    split_and!; try done; try lia; [by apply sublist_cons|]. intros Hb. apply H5. lia.
  - specialize (IH (S b)). destruct (prune_log cutoff (S b) l) as [k n]. cbn [fst snd] in *.
    destruct IH as (H1 & H2 & H3 & H4 & H5). rewrite !filter_cons, H4. cbn [length].
    split_and!; try done; try lia; [by apply sublist_skip|]. intros Hb. constructor; [done|by apply H5].
Qed.

(** At most one secret signs. *)
Definition one_active (l : list WebhookSigningSecretRecord) : Prop :=
  (length (filter (fun r => is_active r = true) l) <= 1)%nat.
Definition demoted (expiresAt : string) (r : WebhookSigningSecretRecord)
  : WebhookSigningSecretRecord :=
  mkSecret (sec_id r) (sec_keyId r) (sec_secret r) sec_grace (sec_createdAt r) (Some expiresAt).

Lemma one_active_sub (P : WebhookSigningSecretRecord -> Prop) (HP : forall x, Decision (P x)) l :
  one_active l -> one_active (filter P l).
Proof.
  unfold one_active. intros H. etrans; [|exact H]. apply sublist_length.
  induction l as [|x l IH]; [done|]. rewrite !(filter_cons _ x).
  assert (IH' := IH ltac:(rewrite filter_cons in H; case_decide; cbn [length] in H; lia)).
  destruct (decide (P x)); rewrite ?filter_cons; case_decide; try done;
    [by apply sublist_skip|by apply sublist_cons].
Qed.
Lemma demote_none e l :
  one_active l -> filter (fun r => is_active r = true) (demote_active e l) = [].
Proof.
  unfold one_active. induction l as [|r l IH]; intros H; [done|]. cbn [demote_active].
  rewrite filter_cons in H. destruct (is_active r) eqn:E.
  - rewrite decide_True in H by done. rewrite filter_cons, decide_False by done.
    apply nil_length_inv. cbn [length] in H. lia.
  - rewrite decide_False in H by done. rewrite filter_cons, decide_False by congruence. by apply IH.
Qed.
Lemma demote_elem e l r :
  one_active l -> r ∈ l ->
  (if is_active r then demoted e r else r) ∈ demote_active e l.
Proof.
  unfold one_active. induction l as [|x l IH]; intros H Hr; [by apply elem_of_nil in Hr|].
  cbn [demote_active]. rewrite filter_cons in H. apply elem_of_cons in Hr.
  destruct (is_active x) eqn:E.
  - destruct Hr as [->|Hr]; [rewrite E; apply list_elem_of_here|]. apply list_elem_of_further.
    rewrite decide_True in H by done. cbn [length] in H.
    assert (Hn : filter (fun r => is_active r = true) l = []) by (apply nil_length_inv; lia).
    destruct (is_active r) eqn:Er; [|done]. exfalso.
    assert (Hin : r ∈ filter (fun r => is_active r = true) l) by (by apply list_elem_of_filter).
    rewrite Hn in Hin. by apply elem_of_nil in Hin.
  - rewrite decide_False in H by congruence.
    destruct Hr as [->|Hr]; [rewrite E; apply list_elem_of_here|]. apply list_elem_of_further. by apply IH.
Qed.
Lemma demote_origin e l r :
  r ∈ demote_active e l -> exists r0, r0 ∈ l /\ (r = r0 \/ is_active r0 = true /\ r = demoted e r0).
Proof.
  induction l as [|x l IH]; intros Hr; [by apply elem_of_nil in Hr|]. cbn [demote_active] in Hr.
  destruct (is_active x) eqn:E; apply elem_of_cons in Hr as [->|Hr].
  - exists x. split; [apply list_elem_of_here|by right].
  - exists r. split; [by apply list_elem_of_further|by left].
  - exists x. split; [apply list_elem_of_here|by left].
  - destruct (IH Hr) as (r0 & H0 & H). exists r0. split; [by apply list_elem_of_further|done].
Qed.
(** The active record sorts first. *)
Lemma insert_active_first le x l :
  is_active x = true -> insert_by (secret_le le) x l = x :: l.
Proof.
  intros Hx. destruct l as [|y l]; [done|]. cbn [insert_by]. unfold secret_le at 1. by rewrite Hx.
Qed.
Lemma sort_active_first le l a :
  is_active a = true -> filter (fun r => is_active r = true) l = [] ->
  head (sort_by (secret_le le) (l ++ [a])) = Some a.
Proof.
  intros Ha. induction l as [|x l IH]; intros Hl; [done|]. cbn [app sort_by].
  rewrite filter_cons in Hl. destruct (is_active x) eqn:Ex; [by rewrite decide_True in Hl by done|].
  rewrite decide_False in Hl by congruence. specialize (IH Hl).
  destruct (sort_by (secret_le le) (l ++ [a])) as [|y s]; [done|]. cbn [head] in IH.
  injection IH as ->. cbn [insert_by]. unfold secret_le. by rewrite Ex, Ha.
Qed.

Lemma filter_filter_active t (l : list WebhookSigningSecretRecord) :
  filter (fun r => is_active r = true) (filter (fun r => unexpired t r = true) l)
  = filter (fun r => unexpired t r = true) (filter (fun r => is_active r = true) l).
Proof.
  induction l as [|x l IH]; [done|]. rewrite !(filter_cons _ x).
  destruct (decide (unexpired t x = true)) as [Hu|Hu], (decide (is_active x = true)) as [Ha|Ha];
    rewrite ?(filter_cons _ x), ?decide_True, ?decide_False by done; by rewrite ?IH.
Qed.

(** ** Properties *)

(** Rotation. After [rotateSigningSecret] the new secret is the only active
    one, it sorts first and is the first that verification tries. What verifies
    besides it at a later instant are the grace secrets that have not expired:
    those that were in grace at the rotation, with the expiry they had, and the
    secret that was active, which is accepted exactly until the grace period is
    over. *)
Theorem rotation_spec keyIdOf locale_le ttlDays nowMs newId newSecret s t :
  one_active (st_signingSecrets s) ->
  iso_range nowMs -> iso_range (nowMs + ttlDays * 24 * 60 * 60 * 1000) ->
  let '(s', active, _) := rotateSigningSecret keyIdOf locale_le ttlDays nowMs newId newSecret s in
  let verified := (getSigningSecretsForVerification t s').2 in
  let l' := st_signingSecrets s' in
  sec_secret active = newSecret /\ head l' = Some active /\
  filter (fun r => is_active r = true) l' = [active] /\
  head verified = Some newSecret /\
  (forall r, r ∈ st_signingSecrets s -> is_active r = false -> unexpired nowMs r = true -> r ∈ l') /\
  (forall p, p ∈ st_signingSecrets s -> is_active p = true ->
     exists p', p' ∈ l' /\ sec_secret p' = sec_secret p /\
       (unexpired t p' = true <-> t < nowMs + ttlDays * 24 * 60 * 60 * 1000)) /\
  (forall x, x ∈ verified -> x = newSecret \/
     exists r, r ∈ st_signingSecrets s /\ sec_secret r = x /\ unexpired nowMs r = true /\
       (is_active r = true -> t < nowMs + ttlDays * 24 * 60 * 60 * 1000)).
Proof.
  intros Hone Hn Ht. unfold rotateSigningSecret.
  set (pruned := st_signingSecrets (pruneExpiredSigningSecrets nowMs s).1).
  set (active := mkSecret newId _ newSecret _ _ _). set (e := nowMs + _) in *.
  assert (Hp : one_active pruned) by (by apply one_active_sub).
  assert (Hsort : sort_by (secret_le locale_le) (demote_active (to_iso_string e) pruned ++ [active])
                  ≡ₚ demote_active (to_iso_string e) pruned ++ [active]) by apply sort_by_perm.
  assert (Hhead := sort_active_first locale_le _ active eq_refl (demote_none (to_iso_string e) pruned Hp)).
  assert (Hdem : forall r, sec_secret (demoted (to_iso_string e) r) = sec_secret r /\
     (unexpired t (demoted (to_iso_string e) r) = true <-> t < e)).
  { intros r. split; [done|]. unfold unexpired, is_active. cbn [demoted sec_status sec_expiresAt].
    rewrite bool_decide_eq_false_2 by done. cbn [orb].
    rewrite decide_False by (apply to_iso_nonempty). rewrite date_parse_iso by done. apply Z.ltb_lt. }
  cbn [st_signingSecrets with_secrets].
  set (l' := sort_by _ _) in *. clearbody l'.
  assert (Hact : filter (fun r => is_active r = true) l' = [active]).
  { apply Permutation_singleton_r. rewrite Hsort, filter_app, demote_none by done. done. }
  assert (Hunexp : unexpired t active = true) by done.
  assert (Hver : (getSigningSecretsForVerification t (with_secrets l' s)).2
    = newSecret :: (sec_secret <$> filter (fun r => is_active r = false)
                      (filter (fun r => unexpired t r = true) l'))).
  { unfold getSigningSecretsForVerification, pruneExpiredSigningSecrets.
    cbn [fst snd st_signingSecrets with_secrets]. rewrite filter_filter_active, Hact.
    by rewrite filter_cons, decide_True by done. }
  rewrite Hver. split_and!; try done.
  - intros r Hr Ha Hu. rewrite Hsort. apply elem_of_app. left.
    pose proof (demote_elem (to_iso_string e) pruned r Hp) as H. rewrite Ha in H. apply H.
    by apply list_elem_of_filter.
  - intros p Hpin Ha. exists (demoted (to_iso_string e) p). split; [|apply Hdem].
    rewrite Hsort. apply elem_of_app. left.
    pose proof (demote_elem (to_iso_string e) pruned p Hp) as H. rewrite Ha in H. apply H.
    apply list_elem_of_filter. split; [|done]. unfold unexpired. by rewrite Ha.
  - intros x Hx. apply elem_of_cons in Hx as [->|Hx]; [by left|]. right.
    apply list_elem_of_fmap in Hx as (r & -> & Hr). apply list_elem_of_filter in Hr as [Hg Hr].
    apply list_elem_of_filter in Hr as [Hu Hr]. rewrite Hsort in Hr. apply elem_of_app in Hr as [Hr|Hr].
    + apply demote_origin in Hr as (r0 & Hr0 & Hcase). apply list_elem_of_filter in Hr0 as [Hu0 Hr0].
      exists r0. destruct Hcase as [->|[Ha ->]].
      * split_and!; try done. congruence.
      * split_and!; try done. intros _. by apply (proj2 (Hdem r0)).
    + apply list_elem_of_singleton in Hr as ->. done.
Qed.

Definition sample_store : WebhookStore :=
  mkStore [] [] [mkSecret "s1" "k1" "old" sec_active (to_iso_string 0) None] 100.
Lemma rotation_spec_witness :
  let '(s', active, _) := rotateSigningSecret (fun _ => "k2"%string) (fun _ _ => true) 14 1000 "s2" "new"
                            sample_store in
  (getSigningSecretsForVerification 5000 s').2 = ["new"%string; "old"%string] /\
  (getSigningSecretsForVerification (1000 + 14 * 86400000) s').2 = ["new"%string] /\
  head (st_signingSecrets s') = Some active.
Proof.
  assert (H1 : one_active (st_signingSecrets sample_store)) by (vm_compute; apply le_n).
  assert (H2 : iso_range 1000) by (split; vm_compute; [discriminate|reflexivity]).
  assert (H3 : iso_range (1000 + 14 * 24 * 60 * 60 * 1000))
    by (split; vm_compute; [discriminate|reflexivity]).
  pose proof (rotation_spec (fun _ => "k2"%string) (fun _ _ => true) 14 1000 "s2" "new" sample_store 5000
    H1 H2 H3) as H.
  assert (E : let '(s', active, _) := rotateSigningSecret (fun _ => "k2"%string) (fun _ _ => true) 14 1000
                "s2" "new" sample_store in
    (getSigningSecretsForVerification 5000 s').2 = ["new"%string; "old"%string] /\
    (getSigningSecretsForVerification (1000 + 14 * 86400000) s').2 = ["new"%string])
    by (vm_compute; split; reflexivity).
  destruct (rotateSigningSecret (fun _ => "k2"%string) (fun _ _ => true) 14 1000 "s2" "new" sample_store)
    as [[s' active] prev].
  destruct H as (_ & H & _). destruct E as [E1 E2]. split; [exact E1|]. split; [exact E2|exact H].
Defined.
