(* ===== verification/WebhookWorker.v ===== *)
(** [lib/webhook-delivery-worker.ts] and [lib/webhook-recovery.ts]: the queue in
    memory and its persistent copy, the attempts for one request, and the
    recovery tick that runs the retry queue and then the dead-letter drain.

    The receiver's answer to an attempt and the clock then are functions of the
    attempt's number; URL parsing is the parameters [url_ok] (an http or https
    URL) and [hostOf]. *)

From S2P Require Import Prelude JsDate JsString JsNumber JsValue CronParser RetryBackoff DeliveryLedger WebhookDlq WebhookRetry WebhookStore.
From stdpp Require Import base list sets fin_sets gmap strings numbers sorting.
From Stdlib Require Import ZArith Lia Ascii.
#[local] Open Scope Z_scope.

Inductive WebhookDeliveryStatus : Type := dlv_queued | dlv_delivered | dlv_failed.
Record WebhookDeliveryAttempt : Type := mkAttempt
  { atm_requestId : string; atm_attempt : Z; atm_status : WebhookDeliveryStatus;
    atm_statusCode : option Z; atm_error : option string; atm_deliveredAt : string }.
Definition DEFAULT_MAX_ATTEMPTS : Z := 3.
Definition WEBHOOK_DELIVERY_TIMEOUT_MS : Z := 5000.

(** [wrk_signingKeyId] is the key id of the first secret; [wrk_deadLetters] tells
    whether [onDeadLetter] is set. *)
Record WorkerOptions : Type := mkWorkerOptions
  { wrk_maxAttempts : Z; wrk_timeoutMs : Z; wrk_signingKeyId : option string;
    wrk_deadLetters : bool; wrk_retry : RetryOptions }.
(** The worker, the store and the retry queue it was built with, and what its
    callbacks [onAttempt] and [onDeadLetter] received. *)
Record Worker : Type := mkWorker
  { wk_queue : list WebhookDeliveryRequest; wk_active : bool; wk_store : option WebhookStore;
    wk_retryQueue : option WebhookRetryQueue; wk_attempts : list WebhookDeliveryAttempt;
    wk_dead : list DlqEntry }.

Section Worker.
Context (url_ok : string -> bool) (retryTargetOf : string -> string) (o : WorkerOptions).

Definition assertRequest (r : WebhookDeliveryRequest) : result string unit :=
  if bool_decide (trim (req_id r) = ""%string)
  then Err "Webhook delivery request requires an id"%string
  else if negb (url_ok (req_url r)) then Err (cat ["Invalid webhook URL: "; req_url r])
  else if bool_decide (trim (req_eventType r) = ""%string)
  then Err "Webhook delivery request requires an event type"%string
  else Ok tt.
Definition with_timeout (r : WebhookDeliveryRequest) : WebhookDeliveryRequest :=
  mkRequest (req_id r) (req_url r) (req_eventType r) (req_payload r) (req_headers r)
    (req_maxAttempts r) (Some (default (wrk_timeoutMs o) (req_timeoutMs r))).
Definition enqueue (r : WebhookDeliveryRequest) (w : Worker) : result string Worker :=
  _ ← assertRequest r;
  let enriched := with_timeout r in
  Ok (mkWorker (wk_queue w ++ [enriched]) (wk_active w) (store_enqueue enriched <$> wk_store w)
        (wk_retryQueue w) (wk_attempts w) (wk_dead w)).

(** The pending requests of the store that are not in the queue yet. *)
Definition recover_into (queue pending : list WebhookDeliveryRequest)
  : list WebhookDeliveryRequest :=
  foldl (fun q r => if bool_decide (req_id r ∈ (req_id <$> q)) then q else q ++ [r]) queue pending.
Definition recoverPendingDeliveries (w : Worker) : Worker :=
  match wk_store w with
  | None => w
  | Some s => mkWorker (recover_into (wk_queue w) (st_queue s)) (wk_active w) (wk_store w)
                (wk_retryQueue w) (wk_attempts w) (wk_dead w)
  end.
Definition set_active (b : bool) (w : Worker) : Worker :=
  mkWorker (wk_queue w) b (wk_store w) (wk_retryQueue w) (wk_attempts w) (wk_dead w).
Definition start (w : Worker) : Worker :=
  if wk_active w then w else set_active true (recoverPendingDeliveries w).
Definition stop (w : Worker) : Worker := set_active false w.

(** ** One request *)

Definition attempt_record (r : WebhookDeliveryRequest) (attempt : Z) (result : DeliveryResult)
    (willRetry : bool) (at_ : Z) : WebhookDeliveryAttempt :=
  mkAttempt (req_id r) attempt
    (if dlv_ok result then dlv_delivered else if willRetry then dlv_queued else dlv_failed)
    (dlv_statusCode result) (dlv_error result) (to_iso_string at_).
Definition recordAttempt_ (a : WebhookDeliveryAttempt) (w : Worker) : Worker :=
  mkWorker (wk_queue w) (wk_active w) (wk_store w) (wk_retryQueue w) (wk_attempts w ++ [a]) (wk_dead w).
Definition log_delivery (r : WebhookDeliveryRequest) (a : WebhookDeliveryAttempt) (delivered : bool)
    (w : Worker) : Worker :=
  mkWorker (wk_queue w) (wk_active w)
    (addDeliveryLog (mkLog (req_id r) delivered (atm_statusCode a) (atm_error a) (atm_attempt a - 1)
       (atm_deliveredAt a) (wrk_signingKeyId o)) <$> wk_store w)
    (wk_retryQueue w) (wk_attempts w) (wk_dead w).
Definition deadLetter (r : WebhookDeliveryRequest) (timeline : list DlqAttemptNote)
    (exhausted : bool) (at_ : string) (w : Worker) : Worker :=
  if wrk_deadLetters o
  then mkWorker (wk_queue w) (wk_active w) (wk_store w) (wk_retryQueue w) (wk_attempts w)
         (wk_dead w ++ [createDlqEntry r timeline
            (if exhausted then retries_exhausted else non_retryable) at_])
  else w.
Definition with_maxAttempts (maxAttempts : Z) (r : WebhookDeliveryRequest) : WebhookDeliveryRequest :=
  mkRequest (req_id r) (req_url r) (req_eventType r) (req_payload r) (req_headers r)
    (Some maxAttempts) (req_timeoutMs r).
(** The attempt [n] of [request]: what the queue's [schedule] is given. *)
Definition retry_input (r : WebhookDeliveryRequest) (maxAttempts attempt : Z)
    (timeline : list DlqAttemptNote) : ScheduleRetryInput :=
  mkInput (with_maxAttempts maxAttempts r) attempt timeline false (note_at <$> head timeline).
(** The [for] loop from [attempt] on; [n] iterations are left. *)
Fixpoint attempt_loop (answer : Z -> DeliveryResult) (clock : Z -> Z) (random : Z * nat)
    (r : WebhookDeliveryRequest) (maxAttempts : Z) (n : nat) (attempt : Z)
    (timeline : list DlqAttemptNote) (w : Worker) : Worker :=
  match n with
  | O => w
  | S n' =>
      let result := answer attempt in
      let delivered := dlv_ok result in
      let willRetry := negb delivered && negb (attempt =? maxAttempts) &&
                       isRetryableDeliveryStatus (dlv_statusCode result) in
      let a := attempt_record r attempt result willRetry (clock attempt) in
      let w1 := recordAttempt_ a w in
      let w2 := if delivered || negb willRetry then log_delivery r a delivered w1 else w1 in
      let timeline' := if delivered then timeline
        else timeline ++ [mkNote attempt (dlv_statusCode result)
                            (Some (default "Delivery failed"%string (dlv_error result))) (atm_deliveredAt a)] in
      if willRetry then
        match wk_retryQueue w2 with
        | Some q =>
            mkWorker (wk_queue w2) (wk_active w2) (wk_store w2)
              (Some (schedule retryTargetOf (wrk_retry o) (retry_input r maxAttempts attempt timeline')
                       (clock attempt) random q).1) (wk_attempts w2) (wk_dead w2)
        | None => attempt_loop answer clock random r maxAttempts n' (attempt + 1) timeline' w2
        end
      else if delivered then w2
      else deadLetter r timeline' (attempt =? maxAttempts) (atm_deliveredAt a) w2
  end.
Definition deliverWithRetries (answer : Z -> DeliveryResult) (clock : Z -> Z) (random : Z * nat)
    (r : WebhookDeliveryRequest) (w : Worker) : Worker :=
  let maxAttempts := default (wrk_maxAttempts o) (req_maxAttempts r) in
  attempt_loop answer clock random r maxAttempts (Z.to_nat maxAttempts) 1 [] w.
(** The shift of [processQueue]: the request leaves the queue, and its copy the
    store, before the first attempt. *)
Definition take_request (w : Worker) : option (WebhookDeliveryRequest * Worker) :=
  if wk_active w then
    match wk_queue w with
    | [] => None
    | r :: rest =>
        Some (r, mkWorker rest (wk_active w)
                   ((fun s => (removeFromQueue (req_id r) s).1) <$> wk_store w)
                   (wk_retryQueue w) (wk_attempts w) (wk_dead w))
    end
  else None.
(** [processQueue] while nothing is enqueued: [fuel] is the queue's length. *)
Fixpoint process_with (fuel : nat) (answer : string -> Z -> DeliveryResult)
    (clock : string -> Z -> Z) (random : string -> Z * nat) (w : Worker) : Worker :=
  match fuel with
  | O => w
  | S f =>
      match take_request w with
      | None => w
      | Some (r, w1) =>
          process_with f answer clock random
            (deliverWithRetries (answer (req_id r)) (clock (req_id r)) (random (req_id r)) r w1)
      end
  end.
Definition processQueue (answer : string -> Z -> DeliveryResult) (clock : string -> Z -> Z)
    (random : string -> Z * nat) (w : Worker) : Worker :=
  process_with (length (wk_queue w)) answer clock random w.
End Worker.

(** ** The recovery tick *)

(** [{ ...headers, [name]: value }]. *)
Fixpoint set_header (name value : string) (l : list (string * string)) : list (string * string) :=
  match l with
  | [] => [(name, value)]
  | (k, v) :: rest => if decide (k = name) then (name, value) :: rest
                      else (k, v) :: set_header name value rest
  end.
(** What a drain replay sends. *)
Definition replay_request (e : DlqEntry) (idempotencyKey : string) : WebhookDeliveryRequest :=
  mkRequest (dlq_requestId e) (dlq_endpoint e) (dlq_eventType e) (dlq_payload e)
    (Some (set_header "Idempotency-Key" idempotencyKey (default [] (dlq_headers e)))) None None.
Record WebhookRecoveryTickResult : Type := mkRecovery
  { rec_retries : RetryTickResult; rec_drain : DlqDrainResult; rec_drainedRequestIds : list string;
    rec_parkedRequestIds : list string }.
Section Recovery.
Context (hostOf : string -> string) (o : RetryOptions) (d : DlqOptions).
(** What the tick needs from outside: the answer to a request, the instants of
    the answers, and the draws. *)
Context (deliver : WebhookDeliveryRequest -> DeliveryResult) (at_ : Z)
  (random : string -> Z * nat).

(** [queue.runTick], whose dead letters are added to the dead-letter queue. *)
Definition recovery_retries (nowMs : Z) (q : WebhookRetryQueue) (dlq : DeadLetterQueue)
  : WebhookRetryQueue * DeadLetterQueue * RetryTickResult :=
  let '(q', r) := runTick o (fun j => (deliver (job_request j), at_, random (job_id j))) nowMs
                    (mkRetryQueue (jobs q) (metrics q) []) in
  (mkRetryQueue (jobs q') (metrics q') (handed_over q ++ handed_over q'),
   foldl (fun acc e => dlq_add e acc) dlq (handed_over q'), r).
Definition recovery_tick (nowMs : Z) (q : WebhookRetryQueue) (dlq : DeadLetterQueue)
  : WebhookRetryQueue * DeadLetterQueue * WebhookRecoveryTickResult :=
  let '(q', dlq1, retries) := recovery_retries nowMs q dlq in
  let before := (fun e => (dlq_id e, dlq_requestId e)) <$> entries dlq1 in
  let '(dlq2, dr) := drain hostOf d DLQ_DRAIN_PER_TARGET DLQ_DRAIN_MAX_PER_TICK
    (fun e key => deliver (replay_request e key)) (fun e => random (dlq_id e))
    (fun _ => to_iso_string at_) at_ at_ dlq1 in
  let remaining := dlq_id <$> entries dlq2 in
  (q', dlq2,
   mkRecovery retries dr
     (snd <$> filter (fun p => p.1 ∉ remaining) before)
     (omap (fun id => snd <$> find (fun p => bool_decide (p.1 = id)) before) (drn_parked dr))).
End Recovery.

(** ** One request: lemmas *)

Section Attempts.
Context (retryTargetOf : string -> string) (o : WorkerOptions).
Context (answer : Z -> DeliveryResult) (clock : Z -> Z) (random : Z * nat).
Context (r : WebhookDeliveryRequest) (m : Z).

(** Attempt [j] is the last one: a success, a status not worth another attempt,
    or the end of the budget. *)
Definition terminal (j : Z) : bool :=
  dlv_ok (answer j) || (j =? m) || negb (isRetryableDeliveryStatus (dlv_statusCode (answer j))).
Definition note_of (j : Z) : DlqAttemptNote :=
  mkNote j (dlv_statusCode (answer j)) (Some (default "Delivery failed"%string (dlv_error (answer j))))
    (to_iso_string (clock j)).
Definition record_of (j : Z) : WebhookDeliveryAttempt :=
  attempt_record r j (answer j) (negb (terminal j)) (clock j).
Definition log_of (j : Z) : DeliveryLogEntry :=
  mkLog (req_id r) (dlv_ok (answer j)) (dlv_statusCode (answer j)) (dlv_error (answer j)) (j - 1)
    (to_iso_string (clock j)) (wrk_signingKeyId o).
(** The state after the attempts up to [k], of which [tl] are the notes. *)
Definition settled_by (k : Z) (records : list WebhookDeliveryAttempt) (tl : list DlqAttemptNote)
    (w : Worker) : Worker :=
  if terminal k then
    mkWorker (wk_queue w) (wk_active w) (addDeliveryLog (log_of k) <$> wk_store w) (wk_retryQueue w)
      (wk_attempts w ++ records)
      (wk_dead w ++
         if dlv_ok (answer k) || negb (wrk_deadLetters o) then []
         else [createDlqEntry r tl (if k =? m then retries_exhausted else non_retryable)
                 (to_iso_string (clock k))])
  else
    mkWorker (wk_queue w) (wk_active w) (wk_store w)
      ((fun q => (schedule retryTargetOf (wrk_retry o) (retry_input r m k tl) (clock k) random q).1)
         <$> wk_retryQueue w)
      (wk_attempts w ++ records) (wk_dead w).

Lemma willRetry_terminal j :
  negb (dlv_ok (answer j)) && negb (j =? m) && isRetryableDeliveryStatus (dlv_statusCode (answer j))
  = negb (terminal j).
Proof.
  unfold terminal. destruct (dlv_ok _), (j =? m), (isRetryableDeliveryStatus _); done.
Qed.
(** The last iteration. *)
Lemma attempt_loop_stop n k tl w :
  terminal k = true \/ wk_retryQueue w <> None ->
  attempt_loop retryTargetOf o answer clock random r m (S n) k tl w
  = settled_by k [record_of k] (if dlv_ok (answer k) then tl else tl ++ [note_of k]) w.
Proof.
  intros Hk. cbn [attempt_loop]. rewrite willRetry_terminal. fold (record_of k) (note_of k).
  unfold settled_by. destruct w as [q act st rq ats dd].
  destruct (terminal k) eqn:Et; cbn [negb].
  - assert (Ed : (dlv_ok (answer k) || true) = true) by apply orb_true_r. rewrite Ed.
    unfold recordAttempt_, log_delivery, deadLetter.
    cbn [wk_queue wk_active wk_store wk_retryQueue wk_attempts wk_dead].
    destruct (dlv_ok (answer k)) eqn:Eok; cbn [orb];
      [rewrite app_nil_r | destruct (wrk_deadLetters o); cbn [negb]; rewrite ?app_nil_r];
      unfold log_of, record_of, note_of; rewrite Eok; done.
  - destruct Hk as [|Hk]; [done|]. cbn [wk_retryQueue] in Hk.
    assert (Eok : dlv_ok (answer k) = false)
      by (unfold terminal in Et; by destruct (dlv_ok (answer k))).
    rewrite Eok. cbn [orb wk_retryQueue recordAttempt_]. destruct rq as [qq|]; [|done]. done.
Qed.
(** The other iterations. *)
Lemma attempt_loop_continue n j tl w :
  terminal j = false -> wk_retryQueue w = None ->
  attempt_loop retryTargetOf o answer clock random r m (S n) j tl w
  = attempt_loop retryTargetOf o answer clock random r m n (j + 1) (tl ++ [note_of j])
      (recordAttempt_ (record_of j) w).
Proof.
  intros Et Hq. cbn [attempt_loop]. rewrite willRetry_terminal.
  assert (Eok : dlv_ok (answer j) = false) by (unfold terminal in Et; by destruct (dlv_ok (answer j))).
  fold (record_of j) (note_of j). rewrite Et, Eok. cbn [negb orb]. unfold recordAttempt_ at 1.
  cbn [wk_retryQueue]. rewrite Hq. done.
Qed.

Lemma settled_records k records j tl w :
  settled_by k records tl (recordAttempt_ (record_of j) w) = settled_by k (record_of j :: records) tl w.
Proof.
  unfold settled_by, recordAttempt_. cbn [wk_queue wk_active wk_store wk_retryQueue wk_attempts wk_dead].
  by rewrite <- app_assoc.
Qed.
Lemma attempt_loop_settled n j tl w :
  (0 < n)%nat -> Z.of_nat n = m - j + 1 ->
  exists k, j <= k <= m /\ (terminal k = true \/ (wk_retryQueue w <> None /\ k = j)) /\
    (forall i, j <= i < k -> terminal i = false) /\
    attempt_loop retryTargetOf o answer clock random r m n j tl w
    = settled_by k (record_of <$> seqZ j (k - j + 1))
        (tl ++ (note_of <$> filter (fun i => dlv_ok (answer i) = false) (seqZ j (k - j + 1)))) w.
Proof.
  revert j tl w. induction n as [|n IH]; intros j tl w Hn Hm; [lia|].
  destruct (terminal j) eqn:Et.
  2: destruct (wk_retryQueue w) as [q|] eqn:Hq.
  1,2: exists j; split; [lia|]; (split; [first [by left|by right]|]); (split; [intros i Hi; lia|]);
    replace (j - j + 1) with 1 by lia; rewrite attempt_loop_stop by (first [by left|right; by rewrite Hq]);
    change (seqZ j 1) with [j]; rewrite filter_cons;
    destruct (dlv_ok (answer j)); [rewrite decide_False by done|rewrite decide_True by done];
    cbn [fmap list_fmap filter list_filter]; rewrite ?app_nil_r; done.
  destruct n as [|n].
  { exfalso. assert (j = m) by lia. unfold terminal in Et.
    rewrite (proj2 (Z.eqb_eq j m)) in Et by done. by rewrite orb_true_r in Et. }
  rewrite attempt_loop_continue by done.
  destruct (IH (j + 1) (tl ++ [note_of j]) (recordAttempt_ (record_of j) w)) as (k & Hk & Hs & Hi & E);
    [lia|lia|].
  exists k. split; [lia|]. split; [destruct Hs as [Hs|[Hs _]]; [by left|exfalso; apply Hs; exact Hq]|]. split.
  - intros i Hij. destruct (Z.eq_dec i j) as [->|]; [done|]. apply Hi. lia.
  - rewrite E, settled_records.
    assert (Eseq : seqZ j (k - j + 1) = j :: seqZ (j + 1) (k - (j + 1) + 1)).
    { rewrite seqZ_cons by lia. f_equal. f_equal; lia. }
    rewrite Eseq. assert (Eok : dlv_ok (answer j) = false)
      by (unfold terminal in Et; by destruct (dlv_ok (answer j))).
    rewrite filter_cons, decide_True by done. cbn [fmap list_fmap]. by rewrite <- app_assoc.
Qed.
End Attempts.

(** A request is in no queue while its attempts run: what a restart recovers
    from the store does not contain it. *)
Lemma taken_request_not_stored r w w1 s :
  take_request w = Some (r, w1) -> wk_store w1 = Some s -> req_id r ∉ (req_id <$> st_queue s).
Proof.
  unfold take_request. destruct (wk_active w); [|done].
  destruct (wk_queue w) as [|x rest]; [done|]. intros [= <- <-]. cbn [wk_store].
  destruct (wk_store w) as [s0|]; [|done]. cbn [fmap option_fmap option_map]. intros [= <-].
  unfold removeFromQueue. case_decide as Hl; cbn [fst st_queue with_queue].
  - intros Hin. apply list_elem_of_fmap in Hin as (y & Ey & Hy).
    assert (E : filter (fun r => req_id r <> req_id x) (st_queue s0) = st_queue s0).
    { clear Ey Hy. induction (st_queue s0) as [|z l IH]; [done|]. rewrite filter_cons in *.
      pose proof (length_filter (fun r => req_id r <> req_id x) l).
      case_decide; cbn [length] in Hl; [f_equal; apply IH; lia|lia]. }
    rewrite <- E in Hy. by apply list_elem_of_filter in Hy as [? _].
  - intros (y & -> & Hy)%list_elem_of_fmap. by apply list_elem_of_filter in Hy as [? _].
Qed.
(** Without a positive budget the request is dropped: no attempt, no record. *)
Lemma no_budget_drops retryTargetOf o answer clock random r w :
  default (wrk_maxAttempts o) (req_maxAttempts r) <= 0 ->
  deliverWithRetries retryTargetOf o answer clock random r w = w.
Proof.
  intros H. unfold deliverWithRetries. replace (Z.to_nat _) with 0%nat by lia. done.
Qed.

(** ** The tick as steps of the retry queue *)

Section TickSteps.
Context (tgt : string -> string) (o : RetryOptions).
Context (answer : RetryJob -> DeliveryResult * Z * (Z * nat)).
Definition answered_ok (j : RetryJob) : bool := dlv_ok (answer j).1.1.

Lemma attempts_end_steps claimed q ds :
  exists ds', (forall id, id ∈ ds' -> id ∈ ds \/ exists j, j ∈ claimed /\ job_id j = id /\ answered_ok j = true) /\
    rtc (retry_step tgt o) (mkRetryWorld q claimed ds)
      (mkRetryWorld (attempts_end o answer claimed q).1 [] ds').
Proof.
  revert q ds. induction claimed as [|j rest IH]; intros q ds.
  { exists ds. split; [by left|apply rtc_refl]. }
  cbn [attempts_end]. destruct (answer j) as [[res at_] rnd] eqn:Ea.
  destruct (attempt_end o j res at_ rnd q) as [q1 out] eqn:Eq.
  destruct (IH q1 (if dlv_ok res then job_id j :: ds else ds)) as (ds' & Hd & Hs).
  destruct (attempts_end o answer rest q1) as [q2 outs]. cbn [fst] in *. exists ds'. split.
  - intros id Hid. destruct (Hd id Hid) as [H|(j' & Hj' & H)].
    + destruct (dlv_ok res) eqn:Er; [|by left]. apply elem_of_cons in H as [->|H]; [|by left].
      right. exists j. split; [apply list_elem_of_here|]. split; [done|]. unfold answered_ok. by rewrite Ea.
    + right. exists j'. split; [by apply list_elem_of_further|done].
  - eapply rtc_l; [|exact Hs]. pose proof (retry_answer tgt o j res at_ rnd q [] rest ds) as H.
    rewrite Eq in H. exact H.
Qed.
Lemma runTick_steps nowMs q ds :
  exists ds', (forall id, id ∈ ds' -> id ∈ ds \/ exists j, j ∈ jobs q /\ job_id j = id /\
                 answered_ok (claimed_job o nowMs j) = true) /\
    rtc (retry_step tgt o) (mkRetryWorld q [] ds) (mkRetryWorld (runTick o answer nowMs q).1 [] ds').
Proof.
  unfold runTick. destruct (tick_begin o nowMs q) as [[q1 claimed] n] eqn:Et.
  destruct (attempts_end_steps claimed q1 ds) as (ds' & Hd & Hs).
  destruct (attempts_end o answer claimed q1) as [q2 outs]. cbn [fst] in *. exists ds'. split.
  - intros id Hid. destruct (Hd id Hid) as [H|(j & Hj & H1 & H2)]; [by left|]. right. destruct (tick_begin_jobs o nowMs q) as (_ & Ec & _).
    rewrite Et in Ec. cbn [fst snd] in Ec. rewrite Ec in Hj.
    apply list_elem_of_fmap in Hj as (d & -> & Hd'). apply tick_select_due in Hd' as [Hd' _].
    by exists d.
  - eapply rtc_l; [|exact Hs]. by apply (retry_tick tgt o nowMs q q1 claimed n [] ds).
Qed.
End TickSteps.

Lemma dlq_add_ids e q id :
  id ∈ (dlq_id <$> entries (dlq_add e q)) <-> id = dlq_id e \/ id ∈ (dlq_id <$> entries q).
Proof.
  cbn [dlq_add entries]. rewrite fmap_app, elem_of_app. cbn [fmap list_fmap].
  rewrite list_elem_of_singleton, !list_elem_of_fmap. split.
  - intros [(x & -> & Hx)| ->]; [|by left]. apply list_elem_of_filter in Hx as [_ Hx]. right. by exists x.
  - intros [->|(x & -> & Hx)]; [by right|]. destruct (decide (dlq_id x = dlq_id e)) as [->|Hne]; [by right|].
    left. exists x. split; [done|]. by apply list_elem_of_filter.
Qed.
(** Adding entries whose id is made from the request's. *)
Definition id_from_request (e : DlqEntry) : Prop := dlq_id e = ("dlq-" ++ dlq_requestId e)%string.
Lemma dlq_add_all es q :
  NoDup (dlq_id <$> entries q) -> Forall id_from_request (entries q) -> Forall id_from_request es ->
  let q' := foldl (fun acc e => dlq_add e acc) q es in
  NoDup (dlq_id <$> entries q') /\ Forall id_from_request (entries q') /\
  forall rid, rid ∈ (dlq_requestId <$> es) \/ rid ∈ (dlq_requestId <$> entries q) ->
    rid ∈ (dlq_requestId <$> entries q').
Proof.
  revert q. induction es as [|e es IH]; intros q Hn Hq He; cbn zeta in *; cbn [foldl].
  { split; [done|]. split; [done|]. intros rid [H|H]; [by apply elem_of_nil in H|done]. }
  apply Forall_cons in He as [He Hes].
  assert (Hq' : Forall id_from_request (entries (dlq_add e q))).
  { cbn [dlq_add entries]. apply Forall_app. split; [by apply Forall_filter_sub|].
    by apply Forall_singleton. }
  destruct (IH (dlq_add e q)) as (H1 & H2 & H3); [by apply dlq_add_NoDup|done|done|].
  split; [done|]. split; [done|]. intros rid Hrid.
  assert (Hids : forall rid l, Forall id_from_request l -> ("dlq-" ++ rid)%string ∈ (dlq_id <$> l) ->
                   rid ∈ (dlq_requestId <$> l)).
  { intros rid' l Hl (x & Ex & Hx)%list_elem_of_fmap. rewrite Forall_forall in Hl.
    pose proof (Hl x Hx) as Hx'. unfold id_from_request in Hx'. rewrite Hx' in Ex.
    apply append_inj_l in Ex as ->. by apply list_elem_of_fmap_2. }
  apply H3. destruct Hrid as [Hrid|Hrid].
  - cbn [fmap list_fmap] in Hrid. apply elem_of_cons in Hrid as [->|Hrid]; [|by left]. right.
    apply Hids; [done|]. apply dlq_add_ids. by left.
  - right. apply Hids; [done|]. apply dlq_add_ids. right.
    apply list_elem_of_fmap in Hrid as (x & -> & Hx). rewrite Forall_forall in Hq.
    rewrite <- (Hq x Hx). by apply list_elem_of_fmap_2.
Qed.
Lemma attempt_end_handed_over o j res at_ rnd q :
  Forall id_from_request (handed_over q) ->
  Forall id_from_request (handed_over (attempt_end o j res at_ rnd q).1).
Proof.
  intros H. unfold attempt_end. destruct (dlv_ok res); [done|]. destruct (_ && _); [done|].
  cbn [fst handed_over]. apply Forall_app. split; [done|]. apply Forall_singleton. reflexivity.
Qed.
Lemma runTick_handed_over o answer nowMs q :
  Forall id_from_request (handed_over q) ->
  Forall id_from_request (handed_over (runTick o answer nowMs q).1).
Proof.
  intros H. unfold runTick. pose proof (tick_begin_jobs o nowMs q) as (_ & _ & _ & E).
  destruct (tick_begin o nowMs q) as [[q1 claimed] n]. cbn [fst snd] in E. rewrite <- E in H. clear E.
  assert (Hall : Forall id_from_request (handed_over (attempts_end o answer claimed q1).1)).
  { revert q1 H. induction claimed as [|j rest IH]; intros q1 H; [done|]. cbn [attempts_end].
    destruct (answer j) as [[res at_] rnd]. pose proof (attempt_end_handed_over o j res at_ rnd q1 H) as H1.
    destruct (attempt_end o j res at_ rnd q1) as [q2 out]. cbn [fst] in H1.
    specialize (IH q2 H1). by destruct (attempts_end o answer rest q2). }
  by destruct (attempts_end o answer claimed q1).
Qed.
(** What a drain does to the requests of the queue. *)
Lemma drain_requests hostOf d perTarget maxEntries deliver random clock nowMs at_ q rid :
  NoDup (dlq_id <$> entries q) -> (0 < opt_concurrency d)%nat ->
  rid ∈ (dlq_requestId <$> entries q) ->
  rid ∈ (dlq_requestId <$> entries (drain hostOf d perTarget maxEntries deliver random clock nowMs at_ q).1)
  \/ exists e, dlq_requestId e = rid /\ dlv_ok (deliver e (replay_key e)) = true.
Proof.
  intros Hn Hc (e & -> & He)%list_elem_of_fmap.
  destruct (drain_eq hostOf d perTarget maxEntries deliver random clock nowMs at_ q Hn Hc) as [_ E].
  rewrite E. cbn [fst entries]. set (sel := (drain_select hostOf perTarget maxEntries nowMs q).1).
  set (f := fun c => _). assert (Hf : forall c, f e = Some c -> dlq_requestId c = dlq_requestId e).
  { intros c. subst f. cbn beta. case_decide; [|by intros [= ->]]. unfold drain_entry, replay_entry.
    destruct (dlv_ok _); [done|]. intros [= <-]. unfold settle_failed. by destruct (_ <=? _). }
  destruct (f e) as [c|] eqn:Ef.
  - left. rewrite <- (Hf c eq_refl). apply list_elem_of_fmap_2, list_elem_of_omap. by exists e.
  - right. exists e. split; [done|]. subst f. cbn beta in Ef. case_decide; [|done].
    unfold drain_entry, replay_entry in Ef. by destruct (dlv_ok (deliver e (replay_key e))).
Qed.

(** ** Properties *)

(** Every accepted request is settled once. The worker makes attempts 1 to
    [k] in order, where [k] is the first that succeeds, is not worth another
    attempt, or ends the budget — or the very first one when a retry queue takes
    over from there — each reported with its number, answer and instant. Then
    either one delivery-log entry is written for the request, together with one
    dead-letter entry carrying a note of every failed attempt unless it was
    delivered, or the queue holds a job with the attempts made so far. *)
Theorem request_settled_once retryTargetOf o answer clock random r w :
  let m := default (wrk_maxAttempts o) (req_maxAttempts r) in
  1 <= m ->
  exists k, 1 <= k <= m /\
    (terminal answer m k = true \/ (wk_retryQueue w <> None /\ k = 1)) /\
    (forall i, 1 <= i < k -> terminal answer m i = false) /\
    deliverWithRetries retryTargetOf o answer clock random r w
    = settled_by retryTargetOf o answer clock random r m k (record_of answer clock r m <$> seqZ 1 k)
        (note_of answer clock <$> filter (fun i => dlv_ok (answer i) = false) (seqZ 1 k)) w.
Proof.
  intros m Hm. unfold deliverWithRetries. fold m.
  destruct (attempt_loop_settled retryTargetOf o answer clock random r m (Z.to_nat m) 1 [] w)
    as (k & Hk & Hs & Hi & E); [lia|lia|]. exists k.
  replace (k - 1 + 1) with k in E by lia. split; [exact Hk|]. split; [exact Hs|].
  split; [exact Hi|exact E].
Qed.
Definition sample_worker : Worker := mkWorker [] true (Some sample_store) None [] [].
Definition sample_worker_options : WorkerOptions :=
  mkWorkerOptions DEFAULT_MAX_ATTEMPTS WEBHOOK_DELIVERY_TIMEOUT_MS None true default_retry_options.
Definition sample_answer (j : Z) : DeliveryResult :=
  if j =? 1 then mkDelivery false (Some 503) None else mkDelivery true (Some 200) None.
Lemma request_settled_once_witness :
  exists k, 1 <= k <= 3 /\
    atm_attempt <$> wk_attempts (deliverWithRetries (fun u => u) sample_worker_options sample_answer
      (fun j => j * 1000) (0, 1%nat) (sample_delivery "a" None) sample_worker) = [1; 2] /\
    deliverWithRetries (fun u => u) sample_worker_options sample_answer (fun j => j * 1000) (0, 1%nat)
      (sample_delivery "a" None) sample_worker
    = settled_by (fun u => u) sample_worker_options sample_answer (fun j => j * 1000) (0, 1%nat)
        (sample_delivery "a" None) 3 k
        (record_of sample_answer (fun j => j * 1000) (sample_delivery "a" None) 3 <$> seqZ 1 k)
        (note_of sample_answer (fun j => j * 1000)
           <$> filter (fun i => dlv_ok (sample_answer i) = false) (seqZ 1 k)) sample_worker.
Proof.
  destruct (request_settled_once (fun u => u) sample_worker_options sample_answer (fun j => j * 1000)
    (0, 1%nat) (sample_delivery "a" None) sample_worker ltac:(vm_compute; discriminate))
    as (k & Hk & _ & _ & E).
  exists k. split; [exact Hk|]. split; [vm_compute; reflexivity|exact E].
Defined.

(** C23. A recovery tick loses no request: whatever the receivers answer, a
    request queued for a retry before the tick is, after the retries and the
    drain, queued again, dead-lettered, or delivered by one of the two; and the
    ids of both queues stay distinct. *)
Theorem recovery_tick_accounts hostOf o d deliver at_ random nowMs q dlq id :
  retry_inv (mkRetryWorld q [] []) -> NoDup (dlq_id <$> entries dlq) ->
  Forall id_from_request (entries dlq) -> (0 < opt_concurrency d)%nat ->
  id ∈ (job_id <$> jobs q) ->
  let '(q', dlq', _) := recovery_tick hostOf o d deliver at_ random nowMs q dlq in
  NoDup (job_id <$> jobs q') /\
  (id ∈ (job_id <$> jobs q') \/ id ∈ (dlq_requestId <$> entries dlq')
   \/ exists rq, req_id rq = id /\ dlv_ok (deliver rq) = true).
Proof.
  intros Hinv Hn Hreq Hc Hid. unfold recovery_tick, recovery_retries.
  set (ans := fun j => _). set (q0 := mkRetryQueue (jobs q) (metrics q) []).
  destruct (runTick_steps (fun u => u) o ans nowMs q0 []) as (ds' & Hd & Hs).
  assert (Hh : Forall id_from_request (handed_over (runTick o ans nowMs q0).1))
    by (apply runTick_handed_over; constructor).
  destruct (runTick o ans nowMs q0) as [q' r]. cbn [fst] in Hs, Hh.
  destruct (simulation_rtc (retry_step (fun u => u) o) duty_step retry_inv ledger_of
    ltac:(intros; by eapply retry_inv_step) ltac:(apply ledger_sim) (mkRetryWorld q0 [] []) _ Hinv Hs)
    as [(Hn' & _) Hl].
  apply (ledger_known id) in Hl; unfold known, ledger_of in *; cbn [ldg_open ldg_delivered ldg_buried
    rt_queue rt_delivered jobs handed_over q0] in *; [|set_solver].
  destruct (dlq_add_all (handed_over q') dlq Hn Hreq Hh) as (Hn1 & _ & Hadd).
  set (dlq1 := foldl (fun acc e => dlq_add e acc) dlq (handed_over q')) in *.
  pose proof (drain_requests hostOf d DLQ_DRAIN_PER_TARGET DLQ_DRAIN_MAX_PER_TICK
    (fun e key => deliver (replay_request e key)) (fun e => random (dlq_id e))
    (fun _ => to_iso_string at_) at_ at_ dlq1 id Hn1 Hc) as Hdr.
  destruct (drain _ _ _ _ _ _ _ _ _ dlq1) as [dlq2 dr]. cbn [fst jobs] in *. split; [done|].
  rewrite !elem_of_union, !elem_of_list_to_set in Hl. destruct Hl as [[Hl|Hl]|Hl].
  - by left.
  - right; right. destruct (Hd id Hl) as [H|(j & Hj & <- & Hok)]; [by apply elem_of_nil in H|].
    exists (job_request j). split; [|exact Hok]. destruct Hinv as (_ & Hjobs & _).
    rewrite Forall_forall in Hjobs. symmetry. by apply (Hjobs j).
  - right. destruct Hdr as [H|(e & He & Hok)]; [by apply Hadd; left|by left|]. right.
    by exists (replay_request e (replay_key e)).
Qed.
Definition no_receiver (_ : WebhookDeliveryRequest) : DeliveryResult := mkDelivery false None None.
Lemma recovery_tick_accounts_witness :
  let '(q', dlq', r) := recovery_tick (fun _ => "h"%string) default_retry_options default_dlq_options
      no_receiver 700000 (fun _ => (0, 1%nat)) 6000 sample_retry_queue sample_dlq in
  (job_id <$> jobs q' = ["c"; "a"; "b"]%string /\ drn_deferred (rec_drain r) = 1) /\
  NoDup (job_id <$> jobs q').
Proof.
  assert (H1 : retry_inv (mkRetryWorld sample_retry_queue [] [])).
  { split; [apply (bool_decide_unpack _); vm_compute; exact I|]. split; [|constructor].
    repeat constructor; vm_compute; intros; reflexivity. }
  assert (H2 : NoDup (dlq_id <$> entries sample_dlq)) by (apply (bool_decide_unpack _); vm_compute; exact I).
  assert (H3 : Forall id_from_request (entries sample_dlq)) by (repeat constructor).
  assert (H4 : (0 < opt_concurrency default_dlq_options)%nat) by (vm_compute; lia).
  assert (H5 : "b"%string ∈ (job_id <$> jobs sample_retry_queue))
    by (apply (bool_decide_unpack _); vm_compute; exact I).
  pose proof (recovery_tick_accounts (fun _ => "h"%string) default_retry_options default_dlq_options
    no_receiver 700000 (fun _ => (0, 1%nat)) 6000 sample_retry_queue sample_dlq "b" H1 H2 H3 H4 H5) as H.
  assert (E : let '(q', dlq', r) := recovery_tick (fun _ => "h"%string) default_retry_options
      default_dlq_options no_receiver 700000 (fun _ => (0, 1%nat)) 6000 sample_retry_queue sample_dlq in
    job_id <$> jobs q' = ["c"; "a"; "b"]%string /\ drn_deferred (rec_drain r) = 1)
    by (vm_compute; split; reflexivity).
  destruct (recovery_tick (fun _ => "h"%string) default_retry_options default_dlq_options
    no_receiver 700000 (fun _ => (0, 1%nat)) 6000 sample_retry_queue sample_dlq) as [[q' dlq'] r].
  split; [exact E|exact (proj1 H)].
Defined.
