(* ===== verification/AuditLog.v ===== *)
(** [lib/audit/audit-log.ts], [audit-checkpoint.ts], [audit-sink.ts] and
    [redaction.ts]: the append-only hash chain, its verification against a
    signed checkpoint, and the redaction of metadata on the way in.

    [createHash('sha256')] over a pre-image and [createHmac('sha256', key)] over
    a text are the parameters [digest] and [hmac]; [new URL] with its query,
    fragment and credentials cleared is [strip_url] ([None] when it throws).
    [JSON.stringify] of two entries is equal when the entries are. *)

From S2P Require Import Prelude JsDate JsString JsValue CronParser Idempotency.
From stdpp Require Import base list sets fin_sets gmap strings numbers sorting.
From Stdlib Require Import ZArith Lia Ascii.
#[local] Open Scope Z_scope.

(** ** Redaction *)

Definition any_of (words : list string) (key : string) : bool :=
  existsb (includes (to_lower key)) words.
Definition SECRET_KEY_PATTERN : string -> bool := any_of
  ["secret"; "password"; "passwd"; "token"; "apikey"; "api-key"; "api_key"; "accesskey";
   "access-key"; "access_key"; "authorization"; "credential"; "privatekey"; "private-key";
   "private_key"; "cookie"; "session"]%string.
Definition PII_KEY_PATTERN : string -> bool := any_of
  ["email"; "phone"; "ssn"; "address"; "fullname"; "full-name"; "full_name"; "ipaddress";
   "ip-address"; "ip_address"]%string.
Definition REDACTED : string := "[redacted]".
Definition TOKEN_PREFIX_LENGTH : Z := 6.
(** The horizontal ellipsis U+2026, as the bytes of its UTF-8 form. *)
Definition ellipsis : string :=
  String (ascii_of_N 226) (String (ascii_of_N 128) (String (ascii_of_N 166) EmptyString)).
Definition token_prefix (s : string) : string := String.substring 0 6 s.

Definition redactTokenLike (value : string) : string :=
  let trimmed := trim value in
  if js_length trimmed <=? TOKEN_PREFIX_LENGTH then REDACTED
  else cat [token_prefix trimmed; ellipsis; REDACTED].
Definition looksLikeUrl (value : string) : bool :=
  String.prefix "http://" (to_lower value) || String.prefix "https://" (to_lower value).

(** One property, whatever becomes of it under other keys. *)
Definition redact_prop (key : string) (entry redacted : json) : json :=
  if SECRET_KEY_PATTERN key
  then match entry with JStr s => JStr (redactTokenLike s) | _ => JStr REDACTED end
  else if PII_KEY_PATTERN key then JStr REDACTED
  else redacted.

Section Redaction.
Context (strip_url : string -> option string).

Definition redactUrl (value : string) : string := default value (strip_url value).
Fixpoint redactMetadata (value : json) (depth : nat) : json :=
  if (6 <? depth)%nat then JStr REDACTED
  else
    match value with
    | JStr s => JStr (if looksLikeUrl s then redactUrl s else s)
    | JArr l => JArr (map (fun item => redactMetadata item (S depth)) l)
    | JObj source =>
        JObj (sort_by key_le
                (map (fun kv => (kv.1, redact_prop kv.1 kv.2 (redactMetadata kv.2 (S depth))))
                   source))
    | v => v
    end.
End Redaction.

(** ** Entries *)

Definition GENESIS_HASH : string := String.string_of_list_ascii (repeat "0"%char 64).

Inductive AuditAction : Type :=
  | run_delete | token_revoke | config_bundle_import | rbac_change
  | dlq_purge | dlq_replay | dlq_park | upload_reject | thread_resolve | artifact_delete
  | webhook_secret_rotate | webhook_secret_revokeGrace | auth_login | auth_login_denied
  | auth_role_grant | tenant_access_denied | quota_override
  | triage_status | triage_assign | triage_priority | triage_bulk.
Definition action_name (a : AuditAction) : string :=
  match a with
  | run_delete => "run.delete" | token_revoke => "token.revoke"
  | config_bundle_import => "config.bundle.import" | rbac_change => "rbac.change"
  | dlq_purge => "dlq.purge" | dlq_replay => "dlq.replay" | dlq_park => "dlq.park"
  | upload_reject => "upload.reject" | thread_resolve => "thread.resolve"
  | artifact_delete => "artifact.delete" | webhook_secret_rotate => "webhook.secret.rotate"
  | webhook_secret_revokeGrace => "webhook.secret.revokeGrace" | auth_login => "auth.login"
  | auth_login_denied => "auth.login.denied" | auth_role_grant => "auth.role.grant"
  | tenant_access_denied => "tenant.access.denied" | quota_override => "quota.override"
  | triage_status => "triage.status" | triage_assign => "triage.assign"
  | triage_priority => "triage.priority" | triage_bulk => "triage.bulk"
  end.
Definition SYSTEM_ACTOR : string := "system".
Definition entry_actor (actor : option string) : string :=
  match actor with
  | Some a => let trimmed := trim a in
              if decide (trimmed = EmptyString) then SYSTEM_ACTOR else trimmed
  | None => SYSTEM_ACTOR
  end.

Record AuditEntryInput : Type := mkEntryInput
  { in_action : AuditAction; in_target : string; in_actor : option string;
    in_metadata : option fields; in_orgId : option string }.
Record AuditEntry : Type := mkEntry
  { ae_sequence : Z; ae_timestamp : string; ae_actor : string; ae_action : AuditAction;
    ae_target : string; ae_metadata : json; ae_orgId : option string; ae_prevHash : string;
    ae_hash : string }.
#[export] Instance AuditAction_eq : EqDecision AuditAction.
Proof. solve_decision. Defined.
#[export] Instance AuditEntry_eq : EqDecision AuditEntry.
Proof. solve_decision. Defined.

(** ** The append-only gateway: [current] is what the inner gateway loads *)

Inductive AppendOnlyViolation : Type :=
  | entries_deleted
  | entry_modified (sequence : Z).
(** [current.forEach]: the first entry that [next] does not repeat. *)
Fixpoint check_unmodified (current next : list AuditEntry) : option AppendOnlyViolation :=
  match current with
  | [] => None
  | e :: current' =>
      match next with
      | n :: next' =>
          if decide (n = e) then check_unmodified current' next'
          else Some (entry_modified (ae_sequence e))
      | [] => Some (entry_modified (ae_sequence e))
      end
  end.
Definition append_only_save (current next : list AuditEntry)
  : result AppendOnlyViolation (list AuditEntry) :=
  if (length next <? length current)%nat then Err entries_deleted
  else match check_unmodified current next with Some v => Err v | None => Ok next end.

Inductive ChainStatus : Type := intact | broken | empty_chain.
Inductive ChainBreak : Type := out_of_sequence (expected : Z) | bad_link | modified.
Record ChainVerification : Type := mkVerification
  { chain_status : ChainStatus; brokenAt : option Z; reason : option ChainBreak }.
Definition broken_at (sequence : Z) (why : ChainBreak) : ChainVerification :=
  mkVerification broken (Some sequence) (Some why).

Definition entryPreimage (entry : AuditEntry) : json :=
  JArr ([JNum (ae_sequence entry); JStr (ae_timestamp entry); JStr (ae_actor entry);
         JStr (action_name (ae_action entry)); JStr (ae_target entry); ae_metadata entry;
         JStr (ae_prevHash entry)]
        ++ match ae_orgId entry with Some org => [JStr org] | None => [] end).

Section Log.
Context (digest : json -> string) (hmac : string -> string -> string)
  (strip_url : string -> option string).

Definition hashEntry (entry : AuditEntry) : string := digest (entryPreimage entry).

(** The [for] loop, at index [index] with [expectedPrev]. *)
Fixpoint verify_loop (index : Z) (expectedPrev : string) (entries : list AuditEntry)
  : ChainVerification :=
  match entries with
  | [] => mkVerification intact None None
  | entry :: rest =>
      if negb (ae_sequence entry =? index + 1)
      then broken_at (ae_sequence entry) (out_of_sequence (index + 1))
      else if negb (bool_decide (ae_prevHash entry = expectedPrev))
      then broken_at (ae_sequence entry) bad_link
      else if negb (bool_decide (hashEntry entry = ae_hash entry))
      then broken_at (ae_sequence entry) modified
      else verify_loop (index + 1) (ae_hash entry) rest
  end.
Definition verifyChain (entries : list AuditEntry) : ChainVerification :=
  match entries with
  | [] => mkVerification empty_chain None None
  | _ => verify_loop 0 GENESIS_HASH entries
  end.

(** [now] is the clock of the log. *)
Definition new_entry (entries : list AuditEntry) (input : AuditEntryInput) (now : Z) : AuditEntry :=
  let withoutHash :=
    mkEntry (Z.of_nat (length entries) + 1) (to_iso_string now) (entry_actor (in_actor input))
      (in_action input) (in_target input)
      (redactMetadata strip_url (JObj (default [] (in_metadata input))) 0) (in_orgId input)
      (from_option ae_hash GENESIS_HASH (last entries)) EmptyString in
  mkEntry (ae_sequence withoutHash) (ae_timestamp withoutHash) (ae_actor withoutHash)
    (ae_action withoutHash) (ae_target withoutHash) (ae_metadata withoutHash)
    (ae_orgId withoutHash) (ae_prevHash withoutHash) (hashEntry withoutHash).
Definition audit_append (entries : list AuditEntry) (input : AuditEntryInput) (now : Z)
  : result AppendOnlyViolation (list AuditEntry * AuditEntry) :=
  let entry := new_entry entries input now in
  entries' ← append_only_save entries (entries ++ [entry]);
  Ok (entries', entry).
(** [recordAuditEvent]: a write the storage refuses ([stored = false]) and a
    violation are swallowed. *)
Definition recordAuditEvent (stored : bool) (entries : list AuditEntry) (input : AuditEntryInput)
    (now : Z) : list AuditEntry :=
  if stored
  then match audit_append entries input now with Ok (entries', _) => entries' | Err _ => entries end
  else entries.

(** ** Checkpoints *)

Record AuditCheckpoint : Type := mkCheckpoint
  { cp_sequence : Z; cp_headHash : string; cp_signedAt : string; cp_signature : string }.
Definition sign_checkpoint (key : string) (sequence : Z) (headHash signedAt : string) : string :=
  hmac key (cat ["crashlab-audit-checkpoint:v1:"; num_to_string sequence; ":"; headHash; ":";
                 signedAt]).
Definition createCheckpoint (entries : list AuditEntry) (key : string) (now : Z)
  : option AuditCheckpoint :=
  head ← last entries;
  let signedAt := to_iso_string now in
  Some (mkCheckpoint (ae_sequence head) (ae_hash head) signedAt
          (sign_checkpoint key (ae_sequence head) (ae_hash head) signedAt)).

(** The in-memory checkpoint store. *)
Definition checkpoint_save (store : list AuditCheckpoint) (c : AuditCheckpoint)
  : list AuditCheckpoint := store ++ [c].
Definition checkpoint_latest (store : list AuditCheckpoint) : option AuditCheckpoint := last store.

Inductive CheckpointState : Type := cp_verified | cp_missing | cp_invalid_signature | cp_mismatch
  | cp_truncated.
Inductive IntegrityReason : Type :=
  | chain_reason (why : option ChainBreak)
  | log_ends_before (length_ checkpointed : Z)
  | differs_from_checkpoint (sequence : Z).
Record IntegrityReport : Type := mkReport
  { rep_status : ChainStatus; rep_brokenAt : option Z; rep_reason : IntegrityReason;
    rep_checkpoint : CheckpointState; rep_sequence : option Z }.
Definition of_chain (chain : ChainVerification) (s : CheckpointState) (n : option Z)
  : IntegrityReport :=
  mkReport (chain_status chain) (brokenAt chain) (chain_reason (reason chain)) s n.

(** [entries[i]]. *)
Definition entry_at (entries : list AuditEntry) (i : Z) : option AuditEntry :=
  if 0 <=? i then entries !! Z.to_nat i else None.
Definition verifyAuditIntegrity (entries : list AuditEntry) (checkpoint : option AuditCheckpoint)
    (key : option string) : IntegrityReport :=
  let chain := verifyChain entries in
  match checkpoint, key with
  | Some c, Some k =>
      if decide (k = EmptyString) then of_chain chain cp_missing None
      else if negb (bool_decide
                (sign_checkpoint k (cp_sequence c) (cp_headHash c) (cp_signedAt c)
                 = cp_signature c))
      then of_chain chain cp_invalid_signature (Some (cp_sequence c))
      else if Z.of_nat (length entries) <? cp_sequence c
      then mkReport broken (Some (Z.of_nat (length entries) + 1))
             (log_ends_before (Z.of_nat (length entries)) (cp_sequence c)) cp_truncated
             (Some (cp_sequence c))
      else if negb (bool_decide (ae_hash <$> entry_at entries (cp_sequence c - 1)
                                 = Some (cp_headHash c)))
      then mkReport broken
             (match chain_status chain with broken => brokenAt chain
              | _ => Some (cp_sequence c) end)
             (match reason chain with Some why => chain_reason (Some why)
              | None => differs_from_checkpoint (cp_sequence c) end)
             cp_mismatch (Some (cp_sequence c))
      else of_chain chain cp_verified (Some (cp_sequence c))
  | _, _ => of_chain chain cp_missing None
  end.
End Log.

(** ** Concrete inputs *)

(** A digest that is injective on the pre-images used below. *)
Definition toy_text (v : json) : string :=
  match v with
  | JStr s => cat ["s"; s; ";"] | JNum n => cat ["n"; num_to_string n; ";"] | _ => "v;"
  end%string.
Definition toy_digest (v : json) : string :=
  match v with JArr l => cat (toy_text <$> l) | _ => EmptyString end.
Definition toy_hmac (key text : string) : string := cat [key; "|"; text].
Definition toy_input (target : string) : AuditEntryInput :=
  mkEntryInput run_delete target (Some " ann "%string)
    (Some [("token", JStr "  sk-123456789"); ("count", JNum 2)]%string) None.
Definition toy_log (targets : list string) : list AuditEntry :=
  foldl (fun l t => recordAuditEvent toy_digest Some true l (toy_input t) 0) [] targets.

Example redaction_example :
  redactMetadata Some
    (JObj [("user", JObj [("Api_Key", JStr "abcdefghij"); ("Email", JStr "a@b.c")]);
           ("before", JNum 1)]%string) 0
  = JObj [("before", JNum 1);
          ("user", JObj [("Api_Key", JStr (cat ["abcdef"; ellipsis; "[redacted]"]));
                         ("Email", JStr "[redacted]")])]%string.
Proof. vm_compute. reflexivity. Qed.
Example chain_example :
  verifyChain toy_digest (toy_log ["r1"; "r2"; "r3"]%string) = mkVerification intact None None /\
  verifyChain toy_digest (drop 1 (toy_log ["r1"; "r2"; "r3"]%string))
  = broken_at 2 (out_of_sequence 1).
Proof. vm_compute. done. Qed.

(** ** The append-only gateway *)

Lemma check_unmodified_prefix current next :
  check_unmodified current next = None <-> current `prefix_of` next.
Proof.
  revert next. induction current as [|e current IH]; intros [|n next]; simpl.
  - split; [intros _; by apply prefix_nil|done].
  - split; [intros _; by apply prefix_nil|done].
  - split; [done|]. intros [k H]. done.
  - destruct (decide (n = e)) as [->|E].
    + rewrite IH. split; [apply prefix_cons|intros H; by apply prefix_cons_inv_2 in H].
    + split; [done|]. intros H. apply prefix_cons_inv_1 in H. congruence.
Qed.
(** The gateway accepts exactly the extensions of what is stored. *)
Lemma append_only_save_spec current next r :
  append_only_save current next = Ok r <-> current `prefix_of` next /\ r = next.
Proof.
  unfold append_only_save. destruct (Nat.ltb_spec (length next) (length current)) as [Hl|Hl].
  - split; [done|]. intros [H _]. apply prefix_length in H. lia.
  - rewrite <- check_unmodified_prefix. destruct (check_unmodified current next).
    + split; [done|by intros [? _]].
    + split; [by intros [= ->]|by intros [_ ->]].
Qed.

(** ** The chain *)

#[local] Opaque GENESIS_HASH.

Section LogTheorems.
Context (digest : json -> string).

(** The entries from [index] on, when the hash before them is [prev]. *)
Fixpoint chained (index : Z) (prev : string) (entries : list AuditEntry) : Prop :=
  match entries with
  | [] => True
  | e :: rest =>
      ae_sequence e = index + 1 /\ ae_prevHash e = prev /\ hashEntry digest e = ae_hash e /\
      chained (index + 1) (ae_hash e) rest
  end.
Definition head_hash (prev : string) (entries : list AuditEntry) : string :=
  from_option ae_hash prev (last entries).

Lemma head_hash_cons prev e entries : head_hash prev (e :: entries) = head_hash (ae_hash e) entries.
Proof. unfold head_hash. rewrite last_cons. by destruct (last entries). Qed.
Lemma chained_app index prev a b :
  chained index prev (a ++ b)
  <-> chained index prev a /\ chained (index + Z.of_nat (length a)) (head_hash prev a) b.
Proof.
  revert index prev. induction a as [|e a IH]; intros index prev.
  - cbn. rewrite Z.add_0_r. tauto.
  - cbn [app chained]. rewrite IH, head_hash_cons. cbn [length].
    replace (index + Z.of_nat (S (length a))) with (index + 1 + Z.of_nat (length a)) by lia. tauto.
Qed.
Lemma verify_loop_chained index prev entries :
  chained index prev entries -> verify_loop digest index prev entries = mkVerification intact None None.
Proof.
  revert index prev. induction entries as [|e l IH]; intros index prev; [done|].
  cbn [chained verify_loop]. intros (-> & -> & -> & H). rewrite Z.eqb_refl, !bool_decide_true by done.
  by apply IH.
Qed.
(** The loop stops at the first entry that does not continue the chain. *)
Lemma verify_loop_broken index prev entries v :
  verify_loop digest index prev entries = v -> chain_status v <> intact ->
  exists pre e post,
    entries = pre ++ e :: post /\ chained index prev pre /\ ~ chained index prev (pre ++ [e]) /\
    chain_status v = broken /\ brokenAt v = Some (ae_sequence e) /\ reason v <> None.
Proof.
  revert index prev. induction entries as [|e l IH]; intros index prev; cbn [verify_loop].
  { by intros <-. }
  assert (Hhere : ~ (ae_sequence e = index + 1 /\ ae_prevHash e = prev /\
                     hashEntry digest e = ae_hash e) ->
            forall why, broken_at (ae_sequence e) why = v -> exists pre e' post,
            e :: l = pre ++ e' :: post /\ chained index prev pre /\
            ~ chained index prev (pre ++ [e']) /\ chain_status v = broken /\
            brokenAt v = Some (ae_sequence e') /\ reason v <> None).
  { intros Hn why <-. exists [], e, l. cbn. repeat split; [tauto|done]. }
  destruct (Z.eqb_spec (ae_sequence e) (index + 1)) as [E1|E1]; cbn [negb];
    [|intros Hv _; eapply Hhere; [tauto|exact Hv]].
  destruct (bool_decide_reflect (ae_prevHash e = prev)) as [E2|E2]; cbn [negb];
    [|intros Hv _; eapply Hhere; [tauto|exact Hv]].
  destruct (bool_decide_reflect (hashEntry digest e = ae_hash e)) as [E3|E3]; cbn [negb];
    [|intros Hv _; eapply Hhere; [tauto|exact Hv]].
  intros Hv Hs. destruct (IH _ _ Hv Hs) as (pre & e' & post & -> & Hp & Hn & Hr).
  exists (e :: pre), e', post. cbn. tauto.
Qed.
Lemma verifyChain_intact entries :
  chain_status (verifyChain digest entries) = intact
  <-> entries <> [] /\ chained 0 GENESIS_HASH entries.
Proof.
  destruct entries as [|e l]; [by split; [|intros []]|]. cbn [verifyChain]. split.
  - intros H. split; [done|].
    destruct (verify_loop digest 0 GENESIS_HASH (e :: l)) as [s b r] eqn:E.
    cbn in H. subst s. revert E. generalize (e :: l) 0 GENESIS_HASH. clear e l.
    induction l as [|e l IH]; intros i p; [done|]. cbn [verify_loop chained].
    destruct (Z.eqb_spec (ae_sequence e) (i + 1)); [|done].
    destruct (bool_decide_reflect (ae_prevHash e = p)); [|done].
    destruct (bool_decide_reflect (hashEntry digest e = ae_hash e)); [|done]. cbn [negb].
    intros H. repeat split; [done..|]. by apply IH.
  - intros [_ H]. by rewrite verify_loop_chained.
Qed.
Lemma last_sequence entries e :
  chained 0 GENESIS_HASH entries -> last entries = Some e ->
  ae_sequence e = Z.of_nat (length entries).
Proof.
  destruct entries as [|x l _] using rev_ind; [done|]. rewrite last_snoc, chained_app.
  intros [_ H] [= ->]. rewrite length_app. cbn in *. lia.
Qed.

(** *** Two chains with one head *)

Lemma action_name_inj a b : action_name a = action_name b -> a = b.
Proof. destruct a, b; try done; discriminate. Qed.
Lemma preimage_inj a b : entryPreimage a = entryPreimage b -> ae_hash a = ae_hash b -> a = b.
Proof.
  destruct a as [s1 t1 a1 c1 g1 m1 o1 p1 h1], b as [s2 t2 a2 c2 g2 m2 o2 p2 h2].
  unfold entryPreimage; cbn. intros H ->. injection H. intros Ho -> -> -> Hc -> -> ->.
  apply action_name_inj in Hc as ->. f_equal.
  destruct o1, o2; cbn in Ho; try discriminate; congruence.
Qed.
(** [digest] does not collide on an entry of [a] and one of [b]. *)
Definition no_collision (a b : list AuditEntry) : Prop :=
  forall x y, x ∈ a -> y ∈ b ->
    digest (entryPreimage x) = digest (entryPreimage y) -> entryPreimage x = entryPreimage y.
Lemma chain_agree a b :
  chained 0 GENESIS_HASH a -> chained 0 GENESIS_HASH b -> length a = length b ->
  head_hash GENESIS_HASH a = head_hash GENESIS_HASH b -> no_collision a b -> a = b.
Proof.
  revert b. induction a as [|x a IH] using rev_ind; intros b.
  { intros _ _ Hl _ _. by destruct b. }
  destruct b as [|y b _] using rev_ind; [intros _ _ Hl; rewrite length_app in Hl; cbn in Hl; lia|].
  rewrite !chained_app, !length_app. unfold head_hash at 3 4. rewrite !last_snoc. cbn.
  intros (Ha & _ & Hpx & Hhx & _) (Hb & _ & Hpy & Hhy & _) Hl Hh Hno.
  assert (x = y) as ->.
  { apply preimage_inj; [|done].
    apply Hno; [apply elem_of_app; right; by left|apply elem_of_app; right; by left|].
    unfold hashEntry in *. by rewrite Hhx, Hhy. }
  f_equal. apply IH; [done..|lia|congruence|].
  intros u w Hu Hw. apply Hno; apply elem_of_app; by left.
Qed.

End LogTheorems.

(** *** Checkpoints *)

Section CheckpointTheorems.
Context (digest : json -> string) (hmac : string -> string -> string).
Notation chained := (chained digest).
Notation no_collision := (no_collision digest).

Lemma checkpoint_of entries key now c :
  chained 0 GENESIS_HASH entries -> createCheckpoint hmac entries key now = Some c ->
  entries <> [] /\ cp_sequence c = Z.of_nat (length entries) /\
  cp_headHash c = head_hash GENESIS_HASH entries /\
  sign_checkpoint hmac key (cp_sequence c) (cp_headHash c) (cp_signedAt c) = cp_signature c.
Proof.
  unfold createCheckpoint, head_hash. intros Hc H.
  destruct (last entries) as [e|] eqn:E; cbn in H; [|done]. injection H as <-. cbn.
  repeat split; [by destruct entries|by eapply last_sequence].
Qed.
(** With the signature in order, the report is decided by the length, by the
    entry at the checkpoint, and by the chain. *)
Lemma integrity_signed entries c key :
  key <> EmptyString ->
  sign_checkpoint hmac key (cp_sequence c) (cp_headHash c) (cp_signedAt c) = cp_signature c ->
  let r := verifyAuditIntegrity digest hmac entries (Some c) (Some key) in
  let n := Z.of_nat (length entries) in
  (rep_checkpoint r = cp_verified <->
     cp_sequence c <= n /\
     ae_hash <$> entry_at entries (cp_sequence c - 1) = Some (cp_headHash c)) /\
  (rep_checkpoint r = cp_verified ->
     rep_status r = chain_status (verifyChain digest entries)) /\
  (n < cp_sequence c ->
     rep_status r = broken /\ rep_checkpoint r = cp_truncated /\ rep_brokenAt r = Some (n + 1)) /\
  (rep_status r = intact -> rep_checkpoint r = cp_verified).
Proof.
  intros Hk Hs r n. subst r n. unfold verifyAuditIntegrity.
  rewrite decide_False, bool_decide_true by done. cbn [negb].
  destruct (Z.ltb_spec (Z.of_nat (length entries)) (cp_sequence c)) as [Hl|Hl]; cbn.
  - repeat split; try done; lia.
  - destruct (bool_decide_reflect (ae_hash <$> entry_at entries (cp_sequence c - 1)
                                   = Some (cp_headHash c))); cbn; repeat split; try done; try lia.
    by intros [_ ?].
Qed.
Lemma entry_at_last entries :
  entries <> [] -> entry_at entries (Z.of_nat (length entries) - 1) = last entries.
Proof.
  intros Hne. assert (0 < length entries)%nat by (destruct entries; [done|cbn; lia]).
  unfold entry_at. rewrite (proj2 (Z.leb_le _ _)) by lia. rewrite last_lookup. f_equal. lia.
Qed.

(** C15. A checkpoint taken of a log whose chain holds accepts exactly the later
    states of that log: any other sequence of entries — rewritten, reordered or
    shortened below the checkpoint, even with every hash recomputed — is not
    reported as intact, as long as the digest does not collide on an entry of
    the two logs.  A log that lost its tail is reported as truncated, with the
    number of the first entry missing. *)
Theorem checkpoint_detects (entries current : list AuditEntry) (key : string) (now : Z)
    (c : AuditCheckpoint) :
  chained 0 GENESIS_HASH entries -> key <> EmptyString ->
  createCheckpoint hmac entries key now = Some c -> no_collision current entries ->
  let r := verifyAuditIntegrity digest hmac current (Some c) (Some key) in
  (rep_status r = intact <->
     entries `prefix_of` current /\ chained 0 GENESIS_HASH current) /\
  (rep_status r = intact -> rep_checkpoint r = cp_verified) /\
  ((length current < length entries)%nat ->
     rep_status r = broken /\ rep_checkpoint r = cp_truncated /\
     rep_brokenAt r = Some (Z.of_nat (length current) + 1)).
Proof.
  intros Hc Hk Hcp Hno r. destruct (checkpoint_of _ _ _ _ Hc Hcp) as (Hne & Hseq & Hhash & Hsig).
  destruct (integrity_signed current c key Hk Hsig) as (Hver & Hst & Htr & Hin). fold r in Hver, Hst, Htr, Hin.
  rewrite Hseq in Hver, Htr.
  assert (Hpos : (0 < length entries)%nat) by (destruct entries; [done|cbn; lia]). split; [|split; [done|intros; apply Htr; lia]]. split.
  - intros Hi. pose proof (Hin Hi) as Hv. rewrite (Hst Hv) in Hi.
    apply verifyChain_intact in Hi as [_ Hcur]. split; [|done].
    apply Hver in Hv as [Hle Hat]. rewrite Hhash in Hat.
    exists (drop (length entries) current). rewrite <- (take_drop (length entries) current) at 1.
    f_equal. rewrite <- (take_drop (length entries) current), chained_app in Hcur.
    destruct Hcur as [Hcur _].
    assert (Hlen : length (take (length entries) current) = length entries)
      by (rewrite length_take; lia).
    apply (chain_agree digest); [done..| |].
    + unfold head_hash at 1. rewrite <- entry_at_last, Hlen by (intros E; rewrite E in Hlen; by destruct entries).
      unfold entry_at in *. destruct (0 <=? Z.of_nat (length entries) - 1); [|done].
      rewrite lookup_take_lt by lia.
      destruct (current !! _) as [e|]; cbn in Hat |- *; [by injection Hat|done].
    + intros x y Hx Hy. apply Hno; [|done]. eapply elem_of_take in Hx as (i & Hi & _).
      by eapply list_elem_of_lookup_2.
  - intros [[tl ->] Hcur].
    assert (Hv : rep_checkpoint r = cp_verified).
    { apply Hver. rewrite length_app. split; [lia|]. rewrite Hhash. unfold head_hash.
      rewrite <- entry_at_last by done. unfold entry_at.
      rewrite !(proj2 (Z.leb_le 0 _)) by lia. rewrite lookup_app_l by lia.
      destruct (entries !! _) eqn:E; [done|]. apply lookup_ge_None in E. lia. }
    rewrite (Hst Hv). apply verifyChain_intact. split; [by destruct entries|done].
Qed.
End CheckpointTheorems.

Section HistoryTheorems.
Context (digest : json -> string) (strip_url : string -> option string).
Notation chained := (chained digest).

(** *** Histories *)

(** A call of [recordAuditEvent]: whether the storage took the write, what is
    recorded, and the clock. *)
Definition audit_event : Type := bool * AuditEntryInput * Z.
Definition record_event (entries : list AuditEntry) (e : audit_event) : list AuditEntry :=
  recordAuditEvent digest strip_url e.1.1 entries e.1.2 e.2.
Definition log_after (events : list audit_event) : list AuditEntry := foldl record_event [] events.
Definition stored_events (events : list audit_event) : list audit_event :=
  filter (fun e => e.1.1 = true) events.
(** What an entry must say of the event it records. *)
Definition records (e : audit_event) (entry : AuditEntry) : Prop :=
  ae_action entry = in_action e.1.2 /\ ae_target entry = in_target e.1.2 /\
  ae_actor entry = entry_actor (in_actor e.1.2) /\ ae_orgId entry = in_orgId e.1.2 /\
  ae_timestamp entry = to_iso_string e.2 /\
  ae_metadata entry = redactMetadata strip_url (JObj (default [] (in_metadata e.1.2))) 0.

Lemma record_event_eq entries e :
  record_event entries e
  = if e.1.1 then entries ++ [new_entry digest strip_url entries e.1.2 e.2] else entries.
Proof.
  unfold record_event, recordAuditEvent, audit_append. destruct e.1.1; [|done].
  set (n := new_entry _ _ _ _ _).
  assert (append_only_save entries (entries ++ [n]) = Ok (entries ++ [n])) as ->; [|done].
  apply append_only_save_spec. split; [by apply prefix_app_r|done].
Qed.
Lemma new_entry_chained entries input now :
  chained 0 GENESIS_HASH entries ->
  chained 0 GENESIS_HASH (entries ++ [new_entry digest strip_url entries input now]).
Proof. intros H. rewrite chained_app. split; [done|]. cbn. split; [lia|]. repeat split. Qed.
Lemma log_after_snoc events e : log_after (events ++ [e]) = record_event (log_after events) e.
Proof. unfold log_after. by rewrite foldl_app. Qed.
Lemma log_after_inv events :
  chained 0 GENESIS_HASH (log_after events) /\
  Forall2 records (stored_events events) (log_after events).
Proof.
  induction events as [|e l [H1 H2]] using rev_ind; [by repeat constructor|].
  rewrite log_after_snoc, record_event_eq. unfold stored_events in *. rewrite filter_app.
  destruct e.1.1 eqn:E.
  - split; [by apply new_entry_chained|]. apply Forall2_app; [done|].
    rewrite filter_cons, decide_True by done. repeat constructor.
  - rewrite filter_cons, decide_False by congruence. by rewrite filter_nil, app_nil_r.
Qed.
Lemma log_after_prefix events more : log_after events `prefix_of` log_after (events ++ more).
Proof.
  induction more as [|e l IH] using rev_ind; [by rewrite app_nil_r|].
  rewrite app_assoc, log_after_snoc, record_event_eq. etrans; [exact IH|].
  destruct e.1.1; [by apply prefix_app_r|done].
Qed.

(** Whatever is recorded, and whichever writes the storage drops: the log
    holds one entry per write that was stored, in order, saying what was
    recorded with its metadata redacted; it always verifies as intact, so a
    dropped write leaves no trace in it; a log read earlier is a prefix of the
    log read later, and of anything the gateway lets anybody save later. *)
Theorem audit_history (events more : list audit_event) :
  Forall2 records (stored_events events) (log_after events) /\
  verifyChain digest (log_after events)
  = mkVerification (if decide (stored_events events = []) then empty_chain else intact) None None /\
  log_after events `prefix_of` log_after (events ++ more) /\
  (forall next saved, append_only_save (log_after (events ++ more)) next = Ok saved ->
     log_after events `prefix_of` saved).
Proof.
  destruct (log_after_inv events) as [Hc Hr].
  split; [done|]. split; [|split; [apply log_after_prefix|]].
  - destruct Hr as [|e x s l _ _]; [by rewrite decide_True|].
    rewrite decide_False by done. by apply verify_loop_chained.
  - intros next saved H. apply append_only_save_spec in H as [Hp ->].
    etrans; [apply log_after_prefix|exact Hp].
Qed.

End HistoryTheorems.

Lemma no_collision_check digest a b :
  bool_decide (Forall (fun x => Forall (fun y =>
    digest (entryPreimage x) = digest (entryPreimage y) -> entryPreimage x = entryPreimage y) b) a)
  = true -> no_collision digest a b.
Proof.
  intros H%bool_decide_eq_true x y Hx Hy. rewrite Forall_forall in H. specialize (H x Hx).
  rewrite Forall_forall in H. by apply H.
Qed.
Lemma checkpoint_detects_witness :
  let L := toy_log ["r1"; "r2"]%string in
  let r current := verifyAuditIntegrity toy_digest toy_hmac current
                     (createCheckpoint toy_hmac L "k" 5) (Some "k"%string) in
  (rep_status (r (toy_log ["r1"; "r2"; "r3"]%string)) = intact) /\
  (rep_status (r (toy_log ["r1"; "x2"; "r3"]%string)) = intact -> False).
Proof.
  set (c := mkCheckpoint 2 (ae_hash (List.nth 1 (toy_log ["r1"; "r2"]%string)
              (new_entry toy_digest Some [] (toy_input "") 0))) (to_iso_string 5)
              (sign_checkpoint toy_hmac "k" 2 (ae_hash (List.nth 1 (toy_log ["r1"; "r2"]%string)
              (new_entry toy_digest Some [] (toy_input "") 0))) (to_iso_string 5))).
  cbn zeta.
  assert (E : createCheckpoint toy_hmac (toy_log ["r1"; "r2"]%string) "k" 5 = Some c)
    by (vm_compute; reflexivity). rewrite E.
  assert (H : forall t3, t3 = "r2"%string \/ t3 = "x2"%string ->
             (rep_status (verifyAuditIntegrity toy_digest toy_hmac
                            (toy_log ["r1"; t3; "r3"]%string) (Some c) (Some "k"%string)) = intact
              <-> toy_log ["r1"; "r2"]%string `prefix_of` toy_log ["r1"; t3; "r3"]%string /\
                  chained toy_digest 0 GENESIS_HASH (toy_log ["r1"; t3; "r3"]%string))).
  { intros t3 Ht3.
    eapply (proj1 (checkpoint_detects toy_digest toy_hmac (toy_log ["r1"; "r2"]%string)
                     (toy_log ["r1"; t3; "r3"]%string) "k" 5 c
                     ltac:(vm_compute; repeat split) ltac:(done) E
                     ltac:(apply no_collision_check; destruct Ht3 as [-> | ->];
                           vm_compute; reflexivity))). }
  split.
  - apply H; [by left|]. split; [|vm_compute; repeat split].
    exists (drop 2 (toy_log ["r1"; "r2"; "r3"]%string)). vm_compute. reflexivity.
  - intros Hi. apply H in Hi as [Hp _]; [|by right].
    apply check_unmodified_prefix in Hp. vm_compute in Hp. discriminate Hp.
Defined.

(** *** Redaction *)

#[local] Arguments Nat.ltb : simpl never.

Section RedactionTheorems.
Context (strip_url : string -> option string).
Notation redact := (redactMetadata strip_url).

(** A path into a value: property names and array indices. *)
Fixpoint at_path (path : list (string + nat)) (v : json) : option json :=
  match path with
  | [] => Some v
  | inl k :: path' => match v with JObj o => prop k o ≫= at_path path' | _ => None end
  | inr n :: path' => match v with JArr l => l !! n ≫= at_path path' | _ => None end
  end.
Definition sensitive (key : string) : bool := SECRET_KEY_PATTERN key || PII_KEY_PATTERN key.
Definition plain_step (s : string + nat) : bool :=
  match s with inl k => negb (sensitive k) | inr _ => true end.

Lemma prop_elem k x o : prop k o = Some x -> (k, x) ∈ o.
Proof.
  induction o as [|[a b] o IH]; [done|]. cbn. destruct (decide (a = k)) as [->|].
  - intros [= ->]. by left.
  - intros H. right. by apply IH.
Qed.
Lemma elem_prop k x o : NoDup o.*1 -> (k, x) ∈ o -> prop k o = Some x.
Proof.
  intros Hn Hx. induction o as [|[a b] o IH]; [by apply not_elem_of_nil in Hx|].
  cbn in Hn. apply NoDup_cons in Hn as [Ha Hn]. cbn. apply elem_of_cons in Hx as [[= -> ->]|Hx].
  - by rewrite decide_True.
  - rewrite decide_False; [by apply IH|]. intros ->. apply Ha.
    apply list_elem_of_fmap. by exists (k, x).
Qed.
Definition redacted_field (depth : nat) (kv : string * json) : string * json :=
  (kv.1, redact_prop kv.1 kv.2 (redact kv.2 (S depth))).
Lemma redact_object v depth o :
  redact v depth = JObj o ->
  (depth <= 6)%nat /\ exists source, v = JObj source /\
    o = sort_by key_le (redacted_field depth <$> source).
Proof.
  destruct v; cbn; destruct (Nat.ltb_spec 6 depth); try discriminate. intros [= <-]. eauto.
Qed.
Lemma redact_obj depth source :
  (depth <= 6)%nat ->
  redact (JObj source) depth = JObj (sort_by key_le (redacted_field depth <$> source)).
Proof. intros H. cbn. by destruct (Nat.ltb_spec 6 depth); [lia|]. Qed.
Lemma redact_arr depth l :
  (depth <= 6)%nat -> redact (JArr l) depth = JArr ((fun x => redact x (S depth)) <$> l).
Proof. intros H. cbn. by destruct (Nat.ltb_spec 6 depth); [lia|]. Qed.
Lemma redact_array v depth l :
  redact v depth = JArr l ->
  exists items, v = JArr items /\ l = (fun x => redact x (S depth)) <$> items.
Proof.
  destruct v; cbn; destruct (Nat.ltb_spec 6 depth); try discriminate. intros [= <-]. eauto.
Qed.
Lemma at_path_str path s x : at_path path (JStr s) = Some x -> x = JStr s.
Proof. by destruct path as [|[]]; [intros [= <-]|..]. Qed.
Lemma redact_prop_cases k entry r :
  redact_prop k entry r = r /\ sensitive k = false \/
  (exists s, redact_prop k entry r = JStr s) /\ sensitive k = true.
Proof.
  unfold redact_prop, sensitive. destruct (SECRET_KEY_PATTERN k); [destruct entry; cbn; eauto|].
  destruct (PII_KEY_PATTERN k); cbn; eauto.
Qed.

(** An object of the output is the output of an object of the input. *)
Lemma redact_object_at path v depth o :
  at_path path (redact v depth) = Some (JObj o) ->
  exists source depth', o = sort_by key_le (redacted_field depth' <$> source).
Proof.
  revert v depth. induction path as [|[k|n] path IH]; intros v depth.
  - cbn. intros [= H]. apply redact_object in H as (_ & source & _ & ->). eauto.
  - cbn [at_path]. destruct (redact v depth) as [| | | | |?|o'] eqn:E; try discriminate.
    apply redact_object in E as (_ & source & -> & ->).
    destruct (prop k _) as [y|] eqn:Ep; [|discriminate]. cbn. intros H.
    apply prop_elem, elem_of_sort_by, list_elem_of_fmap in Ep as ([k' e] & [= -> ->] & _).
    cbn [fst snd] in H.
    destruct (redact_prop_cases k' e (redact e (S depth))) as [[E _]|[[s E] _]];
      rewrite E in H; [by eapply IH|]. apply at_path_str in H. discriminate.
  - cbn [at_path]. destruct (redact v depth) as [| | | | |l|?] eqn:E; try discriminate.
    apply redact_array in E as (items & -> & ->). rewrite list_lookup_fmap.
    destruct (items !! n); [|discriminate]. apply IH.
Qed.
Lemma redact_plain path v depth x :
  distinct_keys v -> (depth + length path <= 6)%nat -> forallb plain_step path = true ->
  at_path path v = Some x ->
  at_path path (redact v depth) = Some (redact x (depth + length path)).
Proof.
  revert v depth. induction path as [|[k|n] path IH]; intros v depth Hd Hl Hp H; cbn [length] in *.
  - injection H as ->. by rewrite Nat.add_0_r.
  - destruct v as [| | | | |?|source]; try discriminate. cbn [at_path] in H.
    cbn in Hp. apply andb_true_iff in Hp as [Hk Hp]. apply distinct_obj in Hd as [Hn Hd].
    destruct (prop k source) as [y|] eqn:Ey; [|discriminate]. cbn in H.
    apply prop_elem in Ey as Hy. rewrite redact_obj by lia. cbn [at_path].
    rewrite (elem_prop k (redact y (S depth))).
    + cbn. rewrite (IH y (S depth)); [f_equal; f_equal; lia| |lia|done..].
      rewrite Forall_forall in Hd. by apply (Hd (k, y)).
    + rewrite (sort_by_perm key_le). rewrite <- list_fmap_compose. exact Hn.
    + apply elem_of_sort_by, list_elem_of_fmap. exists (k, y). split; [|done].
      unfold redacted_field. cbn. f_equal. destruct (redact_prop_cases k y (redact y (S depth)))
        as [[-> _]|[_ E]]; [done|]. rewrite E in Hk. discriminate.
  - destruct v as [| | | | |l|?]; try discriminate. cbn [at_path] in H. cbn in Hp.
    destruct (l !! n) as [y|] eqn:Ey; [|discriminate]. cbn in H.
    rewrite redact_arr by lia. cbn [at_path]. rewrite list_lookup_fmap, Ey. cbn.
    rewrite (IH y (S depth)); [f_equal; f_equal; lia| |lia|done..].
    apply distinct_arr in Hd. rewrite Forall_forall in Hd. apply Hd. by eapply list_elem_of_lookup_2.
Qed.

(** What redaction lets into the log.  At any depth of the result, the value
    of a secret-looking key is the marker, or six code units of the trimmed
    string before an ellipsis and the marker, and that of a personal-data key is
    the marker.  Everything reached through at most six other keys and indices
    is kept, with URLs stripped, and whatever is deeper is the marker. *)
Theorem redaction_spec (v : json) (path : list (string + nat)) :
  (forall o k x, at_path path (redact v 0) = Some (JObj o) -> (k, x) ∈ o ->
     (SECRET_KEY_PATTERN k = true ->
        x = JStr REDACTED \/
        exists s, 6 < js_length (trim s) /\
          x = JStr (cat [String.substring 0 6 (trim s); ellipsis; REDACTED])) /\
     (SECRET_KEY_PATTERN k = false -> PII_KEY_PATTERN k = true -> x = JStr REDACTED)) /\
  (distinct_keys v -> forallb plain_step path = true -> (length path <= 6)%nat ->
     forall x, at_path path v = Some x -> at_path path (redact v 0) = Some (redact x (length path))) /\
  (forall x, redact x 7 = JStr REDACTED).
Proof.
  split; [|split].
  - intros o k x H Hx. apply redact_object_at in H as (source & depth & ->).
    apply elem_of_sort_by, list_elem_of_fmap in Hx as ([k' e] & [= -> ->] & _).
    unfold redact_prop. cbn [fst snd]. destruct (SECRET_KEY_PATTERN k') eqn:E.
    + split; [intros _|done]. destruct e; auto. unfold redactTokenLike.
      destruct (Z.leb_spec (js_length (trim s)) TOKEN_PREFIX_LENGTH); [by left|]. right.
      exists s. split; [done|]. reflexivity.
    + split; [done|]. intros _ ->. done.
  - intros Hd Hp Hl x Hx. exact (redact_plain path v 0 x Hd Hl Hp Hx).
  - by intros [].
Qed.
End RedactionTheorems.

Lemma redaction_spec_witness :
  let v := JObj [("a", JArr [JObj [("n", JNum 3); ("token", JStr "0123456789")]])]%string in
  distinct_keys v /\
  at_path [inl "a"; inr 0%nat; inl "n"]%string (redactMetadata Some v 0) = Some (JNum 3).
Proof.
  cbn zeta. set (v := JObj _).
  assert (Hd : distinct_keys v).
  { cbn. repeat split; apply (bool_decide_eq_true_1 _); vm_compute; reflexivity. }
  split; [exact Hd|].
  rewrite (proj1 (proj2 (redaction_spec Some v [inl "a"; inr 0%nat; inl "n"]%string))
             Hd ltac:(reflexivity) ltac:(cbn; lia) (JNum 3) ltac:(reflexivity)).
  reflexivity.
Defined.
