(* ===== verification/AuditQuery.v ===== *)
(** [lib/audit/audit-query.ts] and [audit-view-utils.ts], with the cursor
    fingerprint of [app/pagination-utils.ts]: which entries a query of one
    organisation sees, their pages, and the CSV export.

    Cursors are opaque to clients: [Cursor] is the type of the
    [Buffer.from(text).toString('base64url')] strings, [to_cursor] and
    [text_cursor] encode a JSON value and a text, [cursor_json] is [JSON.parse]
    of the decoded text ([None] when it throws) and [cursor_text] that text.  An
    absent and an empty cursor are [None]; limits are integers. *)

From S2P Require Import Prelude JsDate JsString JsValue CronParser Idempotency AuditLog.
From stdpp Require Import base list sets fin_sets gmap strings numbers sorting.
From Stdlib Require Import ZArith Lia Ascii.
#[local] Open Scope Z_scope.

Definition DEFAULT_AUDIT_ORG_ID : string := "org_default".
Definition MAX_AUDIT_PAGE_SIZE : Z := 200.

(** ** The fingerprint of a query *)

(** One digit of [hash.toString(16)]. *)
Definition hash_digit (n : Z) : ascii :=
  ascii_of_N (Z.to_N (if n <? 10 then 48 + n else 87 + n)).
(** [toString(16).padStart(8, '0')] of an unsigned 32-bit integer. *)
Definition hex8 (n : Z) : string :=
  String.string_of_list_ascii
    (map (fun k => hash_digit (Z.shiftr n (4 * k) mod 16)) [7; 6; 5; 4; 3; 2; 1; 0]).
Fixpoint fnv_loop (hash : Z) (input : string) : Z :=
  match input with
  | EmptyString => hash
  | String c rest => fnv_loop (Z.lxor hash (code c) * 16777619 mod 4294967296) rest
  end.
Definition fnv1a32Hex (input : string) : string := hex8 (fnv_loop 2166136261 input).

Definition pair_le (a b : string * string) : bool := str_le a.1 b.1.
Definition cursor_canonical (parts : list (string * string)) : string :=
  join_with "&" (map (fun kv => cat [kv.1; "="; kv.2]) (sort_by pair_le parts)).
Definition computeCursorScope (parts : list (string * string)) : string :=
  fnv1a32Hex (cursor_canonical parts).

Record AuditQuery : Type := mkQuery
  { q_actor : option string; q_action : option string; q_target : option string;
    q_since : option string; q_until : option string }.
Definition auditCursorScope (orgId : string) (query : AuditQuery) : string :=
  let part (o : option string) := default EmptyString o in
  computeCursorScope
    [("route", "audit"); ("org", orgId); ("actor", part (q_actor query));
     ("action", part (q_action query)); ("target", part (q_target query));
     ("since", part (q_since query)); ("until", part (q_until query))]%string.

(** ** Filtering *)

Definition entryOrg (entry : AuditEntry) : string := default DEFAULT_AUDIT_ORG_ID (ae_orgId entry).
(** [needle && !field.toLowerCase().includes(needle)] is false. *)
Definition matches_text (needle : option string) (field : string) : bool :=
  match truthy ((fun s => to_lower (trim s)) <$> needle) with
  | Some n => includes (to_lower field) n
  | None => true
  end.
(** [since !== undefined && at < since] is false; comparing with NaN is false. *)
Definition in_bound (bound : option string) (at_ : option Z) (le : Z -> Z -> bool) : bool :=
  match truthy bound with
  | Some s => match date_parse s, at_ with Some b, Some t => le b t | _, _ => true end
  | None => true
  end.
Definition entry_visible (orgId : string) (query : AuditQuery) (entry : AuditEntry) : bool :=
  bool_decide (entryOrg entry = orgId) && matches_text (q_actor query) (ae_actor entry) &&
  match truthy (q_action query) with
  | Some a => bool_decide (action_name (ae_action entry) = a)
  | None => true
  end &&
  matches_text (q_target query) (ae_target entry) &&
  in_bound (q_since query) (date_parse (ae_timestamp entry)) (fun since t => since <=? t) &&
  in_bound (q_until query) (date_parse (ae_timestamp entry)) (fun until t => t <=? until).
Definition filterScopedEntries (entries : list AuditEntry) (orgId : string) (query : AuditQuery)
  : list AuditEntry :=
  sort_on (fun e => - ae_sequence e) (filter (fun e => entry_visible orgId query e = true) entries).

(** ** Pages *)

Inductive AuditQueryError : Type := invalid_cursor | cursor_mismatch.

Section Pages.
Context {Cursor : Type} (to_cursor : json -> Cursor) (text_cursor : string -> Cursor)
  (cursor_json : Cursor -> option json) (cursor_text : Cursor -> string).

Record AuditPage : Type := mkPage
  { page_items : list AuditEntry; page_total : Z; nextCursor : option Cursor; hasMore : bool }.

Definition encodeCursor (sequence : Z) : Cursor := text_cursor (cat ["seq:"; num_to_string sequence]).
(** [/^seq:(\d+)$/]. *)
Definition decodeCursor (cursor : Cursor) : result AuditQueryError Z :=
  match cursor_text cursor with
  | String "s" (String "e" (String "q" (String ":" digits))) =>
      match parse_digits digits with Some n => Ok n | None => Err invalid_cursor end
  | _ => Err invalid_cursor
  end.
Definition cursor_payload (sequence : Z) (scope : string) : json :=
  JObj [("v", JNum 2); ("seq", JNum sequence); ("scope", JStr scope)]%string.
Definition encodeBoundAuditCursor (sequence : Z) (scope : string) : Cursor :=
  to_cursor (cursor_payload sequence scope).
(** The least integer that is not below the number. *)
Definition number_ceil (v : json) : option Z :=
  match v with JNum n => Some n | JFrac n d => Some (- (- n / Zpos d)) | _ => None end.
Definition decodeBoundAuditCursor (cursor : Cursor) (scope : string) : result AuditQueryError Z :=
  let legacy := decodeCursor cursor in
  match cursor_json cursor with
  | Some (JObj candidate) =>
      match prop "v" candidate with
      | None => legacy
      | Some v =>
          match v, prop "seq" candidate ≫= number_ceil, prop "scope" candidate with
          | JNum 2, Some seq, Some (JStr s) =>
              if decide (s = scope) then Ok seq else Err cursor_mismatch
          | _, _, _ => Err invalid_cursor
          end
      end
  | _ => legacy
  end.

Definition page_limit (limit : option Z) : Z :=
  Z.min (Z.max 1 (default 50 limit)) MAX_AUDIT_PAGE_SIZE.
Definition page_matching (after : option Z) (matchingAll : list AuditEntry) : list AuditEntry :=
  match after with
  | None => matchingAll
  | Some a => filter (fun e => ae_sequence e < a) matchingAll
  end.
Definition queryAuditEntries (entries : list AuditEntry) (orgId : string) (query : AuditQuery)
    (cursor : option Cursor) (limit : option Z) (scope : option string)
  : result AuditQueryError AuditPage :=
  let limit := page_limit limit in
  let scope := truthy scope in
  after ← match cursor, scope with
          | None, _ => Ok None
          | Some c, Some s => Some <$> decodeBoundAuditCursor c s
          | Some c, None => Some <$> decodeCursor c
          end;
  let matchingAll := filterScopedEntries entries orgId query in
  let matching := page_matching after matchingAll in
  let items := take (Z.to_nat limit) matching in
  let hasMore := limit <? Z.of_nat (length matching) in
  let nextCursor :=
    if hasMore then
      e ← last items;
      Some (match scope with
            | Some s => encodeBoundAuditCursor (ae_sequence e) s
            | None => encodeCursor (ae_sequence e)
            end)
    else None in
  Ok (mkPage items (Z.of_nat (length matchingAll)) nextCursor hasMore).

(** [GET /api/audit], page after page: each request sees the log of its moment. *)
Fixpoint follow_pages (logs : list (list AuditEntry)) (orgId : string) (query : AuditQuery)
    (limit : option Z) (cursor : option Cursor) : result AuditQueryError (list AuditEntry) :=
  match logs with
  | [] => Ok []
  | entries :: logs' =>
      page ← queryAuditEntries entries orgId query cursor limit
               (Some (auditCursorScope orgId query));
      match nextCursor page with
      | None => Ok (page_items page)
      | Some c =>
          rest ← follow_pages logs' orgId query limit (Some c);
          Ok (page_items page ++ rest)
      end
  end.
End Pages.

(** ** The viewer: [audit-view-utils.ts] *)

Definition AUDIT_PAGE_SIZE : Z := 25.
Record AuditFilter : Type := mkFilter
  { f_actor : option string; f_action : option string; f_target : option string;
    f_since : option string }.
Definition filterAuditEntries (entries : list AuditEntry) (f : AuditFilter) : list AuditEntry :=
  filter (fun e =>
    matches_text (f_actor f) (ae_actor e) &&
    match truthy (f_action f) with
    | Some a => bool_decide (a = "all"%string) || bool_decide (action_name (ae_action e) = a)
    | None => true
    end &&
    matches_text (f_target f) (ae_target e) &&
    in_bound (f_since f) (date_parse (ae_timestamp e)) (fun since t => since <=? t) = true) entries.
Definition pageCount (total pageSize : Z) : Z := Z.max 1 (- (- total / pageSize)).
Definition pageOf {A} (items : list A) (page pageSize : Z) : list A :=
  let safePage := Z.min (Z.max 1 page) (pageCount (Z.of_nat (length items)) pageSize) in
  let start := (safePage - 1) * pageSize in
  take (Z.to_nat pageSize) (drop (Z.to_nat start) items).

Definition quote : ascii := ascii_of_N 34.
Definition is_dangerous (c : ascii) : bool :=
  existsb (Z.eqb (code c)) [61; 43; 45; 64; 9; 13].
Definition needs_quotes (s : string) : bool :=
  negb (all_chars (fun c => negb (existsb (Z.eqb (code c)) [34; 44; 10; 13])) s).
Fixpoint double_quotes (s : string) : string :=
  match s with
  | EmptyString => EmptyString
  | String c s' => if decide (c = quote) then String quote (String quote (double_quotes s'))
                   else String c (double_quotes s')
  end.
Definition escapeCsvField (value : string) : string :=
  let prefixed := match value with
                  | String c _ => if is_dangerous c then String "'" value else value
                  | EmptyString => value
                  end in
  if needs_quotes prefixed
  then (String quote (double_quotes prefixed) ++ String quote EmptyString)%string
  else prefixed.
Definition AUDIT_CSV_HEADERS : list string :=
  ["sequence"; "timestamp"; "actor"; "action"; "target"; "metadata"; "hash"]%string.
Definition newline : string := String (ascii_of_N 10) EmptyString.
(** [stringify] is [JSON.stringify] of a metadata value. *)
Definition csv_row (stringify : json -> string) (entry : AuditEntry) : list string :=
  [num_to_string (ae_sequence entry); ae_timestamp entry; ae_actor entry;
   action_name (ae_action entry); ae_target entry; stringify (ae_metadata entry); ae_hash entry].
Definition toCsv (stringify : json -> string) (entries : list AuditEntry) : string :=
  join_with newline
    (join_with "," AUDIT_CSV_HEADERS
     :: map (fun e => join_with "," (escapeCsvField <$> csv_row stringify e)) entries).

Example scope_example :
  computeCursorScope [("b", "2"); ("a", "1")]%string = fnv1a32Hex "a=1&b=2" /\
  fnv1a32Hex "a" = "e40c292c"%string.
Proof. vm_compute. done. Qed.
Example csv_example :
  escapeCsvField "=1+1" = "'=1+1"%string /\ escapeCsvField "plain" = "plain"%string.
Proof. vm_compute. done. Qed.

(** ** Scoped queries *)

(** The order in which a log holds its entries. *)
Definition ascending (entries : list AuditEntry) : Prop :=
  StronglySorted (fun a b => ae_sequence a < ae_sequence b) entries.

Lemma ascending_filter P `{!forall x, Decision (P x)} l : ascending l -> ascending (filter P l).
Proof.
  induction 1 as [|x l Hl IH Hx]; [constructor|]. rewrite filter_cons.
  destruct (decide (P x)); [|done]. constructor; [done|].
  rewrite Forall_forall in *. intros y [_ Hy]%list_elem_of_filter. by apply Hx.
Qed.
Lemma ascending_app a b :
  ascending (a ++ b) ->
  ascending a /\ ascending b /\ forall x y, x ∈ a -> y ∈ b -> ae_sequence x < ae_sequence y.
Proof.
  induction a as [|z a IH]; cbn; intros H.
  - split; [constructor|split; [done|]]. intros x y Hx. by apply not_elem_of_nil in Hx.
  - inversion H as [|? ? Hs Hz]; subst. apply Forall_app in Hz as [Hza Hzb].
    destruct (IH Hs) as (Ha & Hb & Hab). split; [by constructor|split; [done|]].
    rewrite Forall_forall in Hzb. intros x y [->|Hx]%elem_of_cons Hy; [by apply Hzb|by apply Hab].
Qed.
(** On a log in sequence order, newest first is the reverse. *)
Lemma sort_newest_first l : ascending l -> sort_on (fun e => - ae_sequence e) l = reverse l.
Proof.
  intros H. apply (StronglySorted_unique_strong (fun a b => - ae_sequence a <= - ae_sequence b)).
  - intros a b Ha Hb H1 H2. rewrite sort_on_perm in Ha. rewrite elem_of_reverse in Hb.
    induction H as [|x l Hl IH Hx]; [by apply not_elem_of_nil in Ha|].
    rewrite Forall_forall in Hx.
    apply elem_of_cons in Ha as [->|Ha]; apply elem_of_cons in Hb as [->|Hb]; [done|..].
    + apply Hx in Hb. lia.
    + apply Hx in Ha. lia.
    + by apply IH.
  - apply sort_on_sorted.
  - induction H as [|x l Hl IH Hx]; [constructor|]. rewrite reverse_cons.
    assert (Hr : Forall (fun y => - ae_sequence y <= - ae_sequence x) (reverse l)).
    { rewrite Forall_forall in *. intros y Hy. apply elem_of_reverse, Hx in Hy. lia. }
    clear Hx Hl. induction IH as [|y r Hs IHs Hy]; cbn; [by repeat constructor|].
    apply Forall_cons_1 in Hr as [Hxy Hr]. constructor; [by apply IHs|].
    apply Forall_app. split; [done|]. by repeat constructor.
  - rewrite sort_on_perm. by rewrite reverse_Permutation.
Qed.
Lemma filterScoped_reverse entries orgId query :
  ascending entries ->
  filterScopedEntries entries orgId query
  = reverse (filter (fun e => entry_visible orgId query e = true) entries).
Proof. intros H. by apply sort_newest_first, ascending_filter. Qed.

Lemma filter_above_all a (l : list AuditEntry) :
  (forall e, e ∈ l -> a <= ae_sequence e) -> filter (fun e => ae_sequence e < a) l = [].
Proof. intros H. apply filter_none. intros e He. specialize (H e He). lia. Qed.
Lemma filter_below_all a (l : list AuditEntry) :
  (forall e, e ∈ l -> ae_sequence e < a) -> filter (fun e => ae_sequence e < a) l = l.
Proof. intros H. by apply filter_all. Qed.
(** Cutting below an entry of the newest-first list leaves what follows it, and
    entries appended to the log since are above the cut. *)
Lemma page_matching_after entries orgId query seen x rest more :
  ascending (entries ++ more) ->
  filterScopedEntries entries orgId query = seen ++ x :: rest ->
  page_matching (Some (ae_sequence x)) (filterScopedEntries (entries ++ more) orgId query) = rest.
Proof.
  intros Ha E. apply ascending_app in Ha as Hparts. destruct Hparts as (He & Hm & Hlt).
  rewrite filterScoped_reverse in E |- * by done. rewrite filter_app, reverse_app, E.
  cbn [page_matching]. rewrite !filter_app.
  apply (ascending_filter (fun e => entry_visible orgId query e = true)) in He as Hs.
  rewrite <- (reverse_involutive (filter _ entries)), E, reverse_app, reverse_cons, <- app_assoc in Hs.
  cbn in Hs. apply ascending_app in Hs as (_ & Hs & Hlow).
  change (x :: reverse seen) with ([x] ++ reverse seen) in Hs, Hlow.
  apply ascending_app in Hs as (_ & _ & Hhigh).
  rewrite (filter_above_all _ (reverse _)), (filter_above_all _ seen), !app_nil_l.
  - rewrite filter_cons, decide_False by lia. apply filter_below_all.
    intros e Hr. apply Hlow; [by apply elem_of_reverse|by left].
  - intros e Hr. specialize (Hhigh x e ltac:(by left)).
    rewrite elem_of_reverse in Hhigh. specialize (Hhigh Hr). lia.
  - intros e [_ Hr]%elem_of_reverse%list_elem_of_filter.
    assert (x ∈ entries).
    { assert (x ∈ reverse (filter (fun e => entry_visible orgId query e = true) entries)) as Hx
        by (rewrite E; set_solver).
      by apply elem_of_reverse, list_elem_of_filter in Hx as [_ ?]. }
    specialize (Hlt x e). lia.
Qed.

Section PageTheorems.
Context {Cursor : Type} (to_cursor : json -> Cursor) (text_cursor : string -> Cursor)
  (cursor_json : Cursor -> option json) (cursor_text : Cursor -> string).
(** Decoding and parsing a bound cursor gives back what was encoded. *)
Hypothesis cursor_roundtrip : forall sequence scope,
  cursor_json (to_cursor (cursor_payload sequence scope)) = Some (cursor_payload sequence scope).
Notation queryAuditEntries := (queryAuditEntries to_cursor text_cursor cursor_json cursor_text).
Notation follow_pages := (follow_pages to_cursor text_cursor cursor_json cursor_text).
Notation bound_cursor := (encodeBoundAuditCursor to_cursor).

Lemma scope_truthy orgId query :
  truthy (Some (auditCursorScope orgId query)) = Some (auditCursorScope orgId query).
Proof.
  assert (H : forall n, hex8 n <> EmptyString) by (intros n; unfold hex8; discriminate).
  unfold auditCursorScope, computeCursorScope, fnv1a32Hex. cbv zeta. generalize (fnv_loop 2166136261
    (cursor_canonical [("route", "audit"); ("org", orgId); ("actor", default EmptyString (q_actor query));
     ("action", default EmptyString (q_action query)); ("target", default EmptyString (q_target query));
     ("since", default EmptyString (q_since query)); ("until", default EmptyString (q_until query))]%string)).
  intros n. unfold truthy. by rewrite decide_False.
Qed.
Lemma decode_bound sequence scope scope' :
  decodeBoundAuditCursor cursor_json cursor_text (bound_cursor sequence scope) scope'
  = if decide (scope = scope') then Ok sequence else Err cursor_mismatch.
Proof.
  unfold decodeBoundAuditCursor, encodeBoundAuditCursor. rewrite cursor_roundtrip.
  unfold cursor_payload. set (o := [_; _; _]).
  assert (prop "v" o = Some (JNum 2)) as -> by done.
  assert (prop "seq" o = Some (JNum sequence)) as -> by done.
  by assert (prop "scope" o = Some (JStr scope)) as -> by done.
Qed.
(** One page, when the entries still to be seen are [left]. *)
Lemma query_page entries orgId query limit cursor after left :
  let scope := auditCursorScope orgId query in
  let n := Z.to_nat (page_limit limit) in
  match cursor with None => after = None | Some c => exists a, after = Some a /\ c = bound_cursor a scope end ->
  page_matching after (filterScopedEntries entries orgId query) = left ->
  exists total more,
    queryAuditEntries entries orgId query cursor limit (Some scope)
    = Ok (mkPage (take n left) total
            (if (length left <=? n)%nat then None
             else (fun e => bound_cursor (ae_sequence e) scope) <$> last (take n left)) more).
Proof.
  intros scope n Hc Hm. subst scope n. unfold AuditQuery.queryAuditEntries. rewrite scope_truthy.
  assert (0 < page_limit limit) by (unfold page_limit, MAX_AUDIT_PAGE_SIZE; lia).
  assert (Hb : (page_limit limit <? Z.of_nat (length left))
               = negb (length left <=? Z.to_nat (page_limit limit))%nat).
  { destruct (Z.ltb_spec (page_limit limit) (Z.of_nat (length left)));
    destruct (Nat.leb_spec (length left) (Z.to_nat (page_limit limit))); try done; lia. }
  destruct cursor as [c|]; [destruct Hc as (a & -> & ->); rewrite decode_bound, decide_True by done|rewrite Hc in Hm];
    cbn [mbind result_bind fmap result_fmap]; rewrite ?Hc, Hm, Hb; do 2 eexists; f_equal; f_equal;
    by destruct (_ <=? _)%nat.
Qed.
(** Cutting the first page off leaves fewer entries and an earlier cut. *)
Lemma page_split {A} (n : nat) (l : list A) :
  (0 < n)%nat -> (length l <=? n)%nat = false ->
  exists t y, take n l = t ++ [y] /\ last (take n l) = Some y /\ drop n l <> [] /\
    (length (drop n l) < length l)%nat.
Proof.
  intros Hn Hl%Nat.leb_gt. destruct (take n l) as [|y t _] eqn:E using rev_ind.
  - assert (length (take n l) = 0%nat) as H by by rewrite E. rewrite length_take in H. lia.
  - exists t, y. rewrite last_snoc, length_drop. repeat split; [|lia].
    intros H. assert (length (drop n l) = 0%nat) as H' by by rewrite H. rewrite length_drop in H'. lia.
Qed.
Lemma limit_positive limit : (0 < Z.to_nat (page_limit limit))%nat.
Proof. unfold page_limit, MAX_AUDIT_PAGE_SIZE. lia. Qed.

Lemma follow_after entries later orgId query limit seen x left :
  Forall (fun l => entries `prefix_of` l /\ ascending l) later ->
  filterScopedEntries entries orgId query = seen ++ x :: left ->
  later <> [] -> (length left <= length later)%nat ->
  follow_pages later orgId query limit
    (Some (bound_cursor (ae_sequence x) (auditCursorScope orgId query))) = Ok left.
Proof.
  intros Hl. revert seen x left. induction Hl as [|l later [[more ->] Ha] Hl IH];
    intros seen x left E Hne Hlen; [done|]. cbn [AuditQuery.follow_pages].
  destruct (query_page (entries ++ more) orgId query limit
              (Some (bound_cursor (ae_sequence x) (auditCursorScope orgId query)))
              (Some (ae_sequence x)) left) as (total & b & ->).
  { eauto. }
  { by eapply page_matching_after. }
  cbn [mbind result_bind nextCursor page_items].
  destruct (length left <=? _)%nat eqn:Eb.
  { apply Nat.leb_le in Eb. by rewrite take_ge by lia. }
  destruct (page_split _ _ (limit_positive limit) Eb) as (t & y & Et & Ey & Hd & Hs).
  rewrite Ey. cbn [fmap option_fmap option_map].
  rewrite (IH (seen ++ x :: t) y (drop (Z.to_nat (page_limit limit)) left)).
  - cbn [mbind result_bind]. f_equal. apply take_drop.
  - rewrite E, <- app_assoc. cbn. do 2 f_equal.
    rewrite <- (take_drop (Z.to_nat (page_limit limit)) left) at 1. rewrite Et. by rewrite <- app_assoc.
  - intros ->. cbn in Hlen. destruct (drop _ left); [done|cbn in Hs; lia].
  - cbn in Hlen. lia.
Qed.

(** Following the cursors from the first page, whatever the page size and
    whatever is appended to the log between two requests, yields exactly the
    entries of that organisation that match the query when the first page is
    served: each one once, newest first.  A cursor issued for another
    organisation or another query is refused when the fingerprints differ. *)
Theorem pages_complete (entries : list AuditEntry) (later : list (list AuditEntry))
    (orgId : string) (query : AuditQuery) (limit : option Z) :
  ascending entries ->
  Forall (fun l => entries `prefix_of` l /\ ascending l) later ->
  (length (filterScopedEntries entries orgId query) <= length later)%nat ->
  follow_pages (entries :: later) orgId query limit None
  = Ok (reverse (filter (fun e => entry_visible orgId query e = true) entries)) /\
  (forall seq orgId' query', auditCursorScope orgId' query' <> auditCursorScope orgId query ->
     queryAuditEntries entries orgId query
       (Some (bound_cursor seq (auditCursorScope orgId' query'))) limit
       (Some (auditCursorScope orgId query)) = Err cursor_mismatch).
Proof.
  intros Ha Hl Hlen. split.
  - rewrite <- filterScoped_reverse by done. cbn [AuditQuery.follow_pages].
    destruct (query_page entries orgId query limit None None
                (filterScopedEntries entries orgId query) eq_refl eq_refl) as (total & b & ->).
    cbn [mbind result_bind nextCursor page_items].
    destruct (length _ <=? _)%nat eqn:Eb.
    { apply Nat.leb_le in Eb. by rewrite take_ge by lia. }
    destruct (page_split _ _ (limit_positive limit) Eb) as (t & y & Et & Ey & Hd & Hs).
    rewrite Ey. cbn [fmap option_fmap option_map].
    rewrite (follow_after entries later orgId query limit t y
               (drop (Z.to_nat (page_limit limit)) (filterScopedEntries entries orgId query))).
    + cbn [mbind result_bind]. f_equal. apply take_drop.
    + done.
    + rewrite <- (take_drop (Z.to_nat (page_limit limit)) (filterScopedEntries entries orgId query)) at 1.
      rewrite Et. by rewrite <- app_assoc.
    + intros ->. cbn in Hlen. destruct (drop _ _); [done|cbn in Hs; lia].
    + lia.
  - intros seq orgId' query' Hne. unfold AuditQuery.queryAuditEntries. rewrite scope_truthy.
    by rewrite decode_bound, decide_False.
Qed.
End PageTheorems.

(** Two different queries with one fingerprint: the values are joined unescaped. *)
Theorem scope_collision :
  let q since target := mkQuery None None (Some target) (Some since) None in
  auditCursorScope "org" (q "2020&target=a" "b")%string
  = auditCursorScope "org" (q "2020" "a&target=b")%string /\
  q "2020&target=a" "b" <> q "2020" "a&target=b"%string.
Proof. split; [vm_compute; reflexivity|discriminate]. Qed.

(** A log whose chain holds is in sequence order. *)
Lemma chained_ascending digest index prev entries :
  chained digest index prev entries ->
  Forall (fun e => index < ae_sequence e) entries /\ ascending entries.
Proof.
  revert index prev. induction entries as [|e l IH]; intros index prev; [by repeat constructor|].
  cbn [chained]. intros (Hs & _ & _ & H). apply IH in H as [H1 H2]. split.
  - constructor; [lia|]. eapply Forall_impl; [exact H1|]. intros; cbn in *; lia.
  - constructor; [done|]. eapply Forall_impl; [exact H1|]. intros; cbn in *; lia.
Qed.
Definition toy_events (targets : list string) : list audit_event :=
  (fun t => (true, toy_input t, 0)) <$> targets.
Lemma toy_log_after targets : toy_log targets = log_after toy_digest Some (toy_events targets).
Proof.
  unfold toy_log, log_after. generalize (@nil AuditEntry).
  induction targets as [|t l IH]; intros acc; [done|]. cbn. apply IH.
Qed.
Lemma toy_log_ok targets more :
  toy_log targets `prefix_of` toy_log (targets ++ more) /\ ascending (toy_log targets).
Proof.
  rewrite !toy_log_after. split.
  - unfold toy_events. rewrite fmap_app. apply log_after_prefix.
  - eapply chained_ascending, (proj1 (log_after_inv toy_digest Some _)).
Qed.

Definition all_entries : AuditQuery := mkQuery None None None None None.
Lemma pages_complete_witness :
  let log := toy_log ["r1"; "r2"; "r3"]%string in
  let grown := toy_log ["r1"; "r2"; "r3"; "r4"]%string in
  follow_pages id JStr Some (fun _ => EmptyString) [log; grown; grown; grown]
    "org_default" all_entries (Some 1) None = Ok (reverse log).
Proof.
  cbn zeta.
  etrans; [exact (proj1 (pages_complete id JStr Some (fun _ => EmptyString) ltac:(done)
    (toy_log ["r1"; "r2"; "r3"]%string)
    (let grown := toy_log ["r1"; "r2"; "r3"; "r4"]%string in [grown; grown; grown]) "org_default" all_entries (Some 1)
    (proj2 (toy_log_ok _ []))
    ltac:(repeat (constructor; [split; [exact (proj1 (toy_log_ok ["r1"; "r2"; "r3"]%string ["r4"%string]))
                                       |exact (proj2 (toy_log_ok _ []))]|]); constructor)
    ltac:(vm_compute; lia)))|].
  vm_compute. reflexivity.
Defined.

(** ** The pages of the viewer *)

(** The pages of the viewer, one after the other, are the list. *)
Theorem pages_of_viewer {A} (items : list A) (pageSize : Z) :
  1 <= pageSize ->
  concat (map (fun n => pageOf items (Z.of_nat n) pageSize)
            (seq 1 (Z.to_nat (pageCount (Z.of_nat (length items)) pageSize)))) = items.
Proof.
  intros Hs. set (count := pageCount (Z.of_nat (length items)) pageSize).
  assert (Hc : 1 <= count /\ Z.of_nat (length items) <= count * pageSize)
    by (unfold count, pageCount; nia).
  assert (H : forall n, (n <= Z.to_nat count)%nat ->
    concat (map (fun n => pageOf items (Z.of_nat n) pageSize) (seq 1 n))
    = take (n * Z.to_nat pageSize) items).
  { induction n as [|n IH]; intros Hn; [done|].
    rewrite seq_S, map_app, concat_app, IH by lia. cbn [map concat]. rewrite app_nil_r.
    unfold pageOf. fold count. rewrite Z.min_l, Z.max_r by lia.
    replace (Z.to_nat ((Z.of_nat (1 + n) - 1) * pageSize)) with (n * Z.to_nat pageSize)%nat by lia.
    rewrite take_take_drop. f_equal. cbn. lia. }
  rewrite H by done. apply take_ge. nia.
Qed.

(** ** The CSV export *)

#[local] Arguments String.append !_ _ / : simpl nomatch.

(** A reader of RFC 4180 text with LF row ends: the state is the part of a field
    it is in, the field and the row read so far. *)
Inductive CsvMode : Type := at_start | in_plain | in_quotes | after_quote.
Definition comma : ascii := ",".
Definition lf : ascii := ascii_of_N 10.
Fixpoint csv_read (s : string) (mode : CsvMode) (field : string) (row : list string)
  : list (list string) :=
  match s with
  | EmptyString => [row ++ [field]]
  | String c s' =>
      let more := (field ++ String c EmptyString)%string in
      match mode with
      | in_quotes =>
          if decide (c = quote) then csv_read s' after_quote field row
          else csv_read s' in_quotes more row
      | _ =>
          if decide (c = comma) then csv_read s' at_start EmptyString (row ++ [field])
          else if decide (c = lf) then (row ++ [field]) :: csv_read s' at_start EmptyString []
          else match mode, decide (c = quote) with
               | at_start, left _ => csv_read s' in_quotes field row
               | after_quote, left _ => csv_read s' in_quotes more row
               | _, _ => csv_read s' in_plain more row
               end
      end
  end.
(** A field as a spreadsheet shows it: text that would be a formula is quoted. *)
Definition guarded (value : string) : string :=
  match value with
  | String c _ => if is_dangerous c then String "'" value else value
  | EmptyString => value
  end.
(** What may follow a field. *)
Definition field_end (rest : string) : Prop :=
  match rest with EmptyString => True | String c _ => c = comma \/ c = lf end.

Lemma comma_lf : comma <> lf.
Proof. discriminate. Qed.
Lemma csv_read_end rest mode field row :
  field_end rest -> mode <> in_quotes -> csv_read rest mode field row = csv_read rest in_plain field row.
Proof.
  destruct rest as [|c rest]; [done|]. intros Hc Hm. cbn.
  destruct Hc as [->| ->]; by destruct mode.
Qed.
Lemma csv_read_quoted value rest field row :
  field_end rest ->
  csv_read (double_quotes value ++ String quote rest) in_quotes field row
  = csv_read rest in_plain (field ++ value) row.
Proof.
  intros Hr. revert field. induction value as [|c v IH]; intros field; cbn [double_quotes].
  - cbn. rewrite csv_read_end by done. by rewrite append_empty.
  - destruct (decide (c = quote)) as [->|E].
    + cbn. rewrite IH. by rewrite append_assoc_r.
    + cbn. rewrite decide_False by done. rewrite IH. by rewrite append_assoc_r.
Qed.
Lemma plain_char c :
  existsb (Z.eqb (code c)) [34; 44; 10; 13] = false -> c <> quote /\ c <> comma /\ c <> lf.
Proof. intros H. repeat split; intros ->; discriminate H. Qed.
Lemma csv_read_plain value rest field row :
  needs_quotes value = false -> field_end rest ->
  csv_read (value ++ rest) in_plain field row = csv_read rest in_plain (field ++ value) row.
Proof.
  unfold needs_quotes. intros H Hr. apply negb_false_iff in H. revert field.
  induction value as [|c v IH]; intros field; [by rewrite append_empty|].
  cbn [all_chars] in H. apply andb_true_iff in H as [Hc H].
  apply negb_true_iff, plain_char in Hc as (Hq & Hcm & Hlf).
  cbn. rewrite !decide_False by done. rewrite (IH H). by rewrite append_assoc_r.
Qed.
(** Reading an escaped field gives back the guarded one. *)
Lemma csv_read_field value rest row :
  field_end rest ->
  csv_read (escapeCsvField value ++ rest) at_start EmptyString row
  = csv_read rest in_plain (guarded value) row.
Proof.
  intros Hr. unfold escapeCsvField. fold (guarded value). generalize (guarded value). intros v.
  destruct (needs_quotes v) eqn:E.
  - cbn [String.append]. rewrite append_assoc_r. cbn.
    by rewrite csv_read_quoted.
  - destruct v as [|c v]; [by apply csv_read_end|].
    apply negb_false_iff in E as E'. cbn [all_chars] in E'. apply andb_true_iff in E' as [Hc _].
    apply negb_true_iff, plain_char in Hc as (Hq & Hcm & Hlf).
    etrans; [|exact (csv_read_plain (String c v) rest EmptyString row E Hr)].
    cbn. by rewrite !decide_False by done.
Qed.
Lemma csv_read_row fields rest row :
  fields <> [] -> match rest with EmptyString => True | String c _ => c = lf end ->
  csv_read (join_with "," (escapeCsvField <$> fields) ++ rest) at_start EmptyString row
  = (row ++ (guarded <$> fields))
    :: match rest with EmptyString => [] | String _ rest' => csv_read rest' at_start EmptyString [] end.
Proof.
  intros Hne Hr. revert row. induction fields as [|v fs IH]; intros row; [done|].
  destruct fs as [|w fs].
  - cbn [fmap list_fmap join_with]. rewrite csv_read_field by (destruct rest; cbn; auto).
    destruct rest as [|c rest]; [done|]. by subst c.
  - change (join_with "," (escapeCsvField <$> v :: w :: fs))
      with (escapeCsvField v ++ "," ++ join_with "," (escapeCsvField <$> w :: fs))%string.
    rewrite !append_assoc_r, csv_read_field by by left.
    cbn [String.append csv_read]. rewrite (decide_True (P := ","%char = comma)) by done.
    rewrite IH by done. by rewrite <- app_assoc.
Qed.
Lemma csv_read_rows (rows : list (list string)) :
  rows <> [] -> Forall (fun r => r <> []) rows ->
  csv_read (join_with newline (map (fun r => join_with "," (map escapeCsvField r)) rows))
    at_start EmptyString [] = map (map guarded) rows.
Proof.
  intros Hne H. revert Hne. induction H as [|r rows Hr Hrows IH]; intros Hne; [done|]. destruct rows as [|r' rows].
  - cbn [map join_with]. rewrite <- (append_empty (join_with _ _)). by apply csv_read_row.
  - change (join_with newline (map (fun r => join_with "," (map escapeCsvField r)) (r :: r' :: rows)))
      with (join_with "," (escapeCsvField <$> r) ++ newline ++
            join_with newline (map (fun r => join_with "," (map escapeCsvField r)) (r' :: rows)))%string.
    rewrite csv_read_row by done. cbn [newline String.append]. by rewrite IH by done.
Qed.

(** Reading the CSV export back gives the header and one row per entry with
    exactly the fields of that entry, whatever characters they hold, except
    that a field that begins like a formula has an apostrophe before it; no
    field that is read begins like a formula. *)
Theorem csv_roundtrip (stringify : json -> string) (entries : list AuditEntry) :
  csv_read (toCsv stringify entries) at_start EmptyString []
  = AUDIT_CSV_HEADERS :: map (fun e => guarded <$> csv_row stringify e) entries /\
  forall value, match guarded value with
                | String c _ => is_dangerous c = false
                | EmptyString => True
                end.
Proof.
  split.
  - transitivity (map (map guarded) (AUDIT_CSV_HEADERS :: map (csv_row stringify) entries)).
    + rewrite <- csv_read_rows; [|done|].
      * unfold toCsv. cbn [map]. by rewrite map_map.
      * constructor; [done|]. change (map (csv_row stringify) entries) with (csv_row stringify <$> entries).
        apply Forall_fmap, Forall_forall. done.
    + cbn [map]. by rewrite map_map.
  - intros [|c v]; [exact I|]. unfold guarded.
    destruct (is_dangerous c) eqn:E; [reflexivity|exact E].
Qed.
