(* ===== verification/Triage.v ===== *)
(** [lib/triage/]: the workflow of a queue item ([types.ts], [state-machine.ts]),
    bulk changes with an outcome per item ([bulk.ts]), the stored queue
    ([store.ts] over the in-memory [RecordDriver]), its audit trail ([audit.ts])
    and [POST /api/triage/queue].

    Statuses and priorities that come from a caller are strings: the guards
    check them.  A record of the store is an item, or a text [parseItem]
    rejects ([None]); its records never expire.  Clocks are arguments. *)

From S2P Require Import Prelude JsDate JsString JsNumber JsValue CronParser Idempotency AuditLog.
From stdpp Require Import base list sets fin_sets gmap strings numbers sorting.
From Stdlib Require Import ZArith Lia Ascii.
#[local] Open Scope Z_scope.

(** ** Items *)

Inductive TriageStatus : Type := ts_new | ts_triaged | ts_in_progress | ts_resolved.
Inductive TriagePriority : Type := tp_p0 | tp_p1 | tp_p2 | tp_p3.
Inductive TriageSeverity : Type := sev_low | sev_medium | sev_high | sev_critical.
#[export] Instance TriageStatus_eq : EqDecision TriageStatus.
Proof. solve_decision. Defined.
#[export] Instance TriagePriority_eq : EqDecision TriagePriority.
Proof. solve_decision. Defined.

Definition TRIAGE_STATUSES (s : TriageStatus) : string :=
  match s with
  | ts_new => "new" | ts_triaged => "triaged" | ts_in_progress => "in-progress"
  | ts_resolved => "resolved"
  end.
Definition TRIAGE_PRIORITIES (p : TriagePriority) : string :=
  match p with tp_p0 => "p0" | tp_p1 => "p1" | tp_p2 => "p2" | tp_p3 => "p3" end.
Definition MAX_ASSIGNEE_LENGTH : Z := 80.
Definition MAX_BULK_IDS : Z := 500.
(** The value a string names, when it names one. *)
Definition isTriageStatus (value : string) : option TriageStatus :=
  List.find (fun s => bool_decide (TRIAGE_STATUSES s = value))
    [ts_new; ts_triaged; ts_in_progress; ts_resolved].
Definition isTriagePriority (value : string) : option TriagePriority :=
  List.find (fun p => bool_decide (TRIAGE_PRIORITIES p = value)) [tp_p0; tp_p1; tp_p2; tp_p3].

Record TriageItemState : Type := mkItem
  { ti_id : string; ti_orgId : string; ti_runId : option string; ti_signature : string;
    ti_failureClass : string; ti_severity : TriageSeverity; ti_occurrences : Z;
    ti_status : TriageStatus; ti_priority : TriagePriority; ti_assignee : option string;
    ti_version : Z; ti_updatedAt : string; ti_updatedBy : option string }.
Record TriageSnapshot : Type := mkSnapshot
  { sn_status : TriageStatus; sn_priority : TriagePriority; sn_assignee : option string }.
Definition snapshotOf (item : TriageItemState) : TriageSnapshot :=
  mkSnapshot (ti_status item) (ti_priority item) (ti_assignee item).

(** ** The state machine *)

Definition TRIAGE_TRANSITIONS (from : TriageStatus) : list TriageStatus :=
  match from with
  | ts_new => [ts_triaged; ts_resolved]
  | ts_triaged => [ts_new; ts_in_progress; ts_resolved]
  | ts_in_progress => [ts_triaged; ts_resolved]
  | ts_resolved => [ts_new]
  end.
Definition canTransition (from to : TriageStatus) : bool :=
  bool_decide (from = to) || bool_decide (to ∈ TRIAGE_TRANSITIONS from).

Inductive TriageMutationError : Type :=
  | invalid_status | invalid_priority | invalid_transition | invalid_assignee | empty_mutation.
(** [mi_assignee]: [Some None] is [null] (unassign), [None] is [undefined]. *)
Record TriageMutationInput : Type := mkMutation
  { mi_status : option string; mi_assignee : option (option string); mi_priority : option string;
    mi_actor : string; mi_now : option string }.
Inductive TriageField : Type := tf_status | tf_assignee | tf_priority.
Inductive TriageTransition : Type :=
  | Refused (why : TriageMutationError)
  | Accepted (item : TriageItemState) (changed : bool) (before after : TriageSnapshot)
      (fields : list TriageField).

(** [[A-Za-z0-9._@+-]]. *)
Definition assignee_char (c : ascii) : bool :=
  ((65 <=? code c) && (code c <=? 90)) || ((97 <=? code c) && (code c <=? 122)) || is_digit c ||
  existsb (Z.eqb (code c)) [46; 95; 64; 43; 45].
Definition normaliseAssignee (value : string) : option string :=
  let trimmed := trim value in
  if decide (trimmed = EmptyString) then None
  else if MAX_ASSIGNEE_LENGTH <? js_length trimmed then None
  else if negb (all_chars assignee_char trimmed) then None
  else Some trimmed.
Definition normaliseActor (actor : string) : string :=
  let trimmed := trim actor in if decide (trimmed = EmptyString) then "system" else trimmed.

(** [None] is a refusal. *)
Definition next_assignee (current : option string) (input : option (option string))
  : option (option string) :=
  match input with
  | None => Some current
  | Some None => Some None
  | Some (Some value) => Some <$> normaliseAssignee value
  end.
Definition changed_fields (item : TriageItemState) (s : TriageStatus) (a : option string)
    (p : TriagePriority) : list TriageField :=
  (if decide (s = ti_status item) then [] else [tf_status]) ++
  (if decide (a = ti_assignee item) then [] else [tf_assignee]) ++
  (if decide (p = ti_priority item) then [] else [tf_priority]).
(** [{ ...item, status, priority, assignee, version + 1, updatedAt, updatedBy }]. *)
Definition changed_item (item : TriageItemState) (s : TriageStatus) (a : option string)
    (p : TriagePriority) (updatedAt updatedBy : string) : TriageItemState :=
  mkItem (ti_id item) (ti_orgId item) (ti_runId item) (ti_signature item) (ti_failureClass item)
    (ti_severity item) (ti_occurrences item) s p a (ti_version item + 1) updatedAt
    (Some updatedBy).
(** [clock] is [new Date().toISOString()]. *)
Definition transitionTriageItem (clock : string) (item : TriageItemState)
    (input : TriageMutationInput) : TriageTransition :=
  match mi_status input, mi_assignee input, mi_priority input with
  | None, None, None => Refused empty_mutation
  | status, assignee, priority =>
      let wanted_status := from_option isTriageStatus (Some (ti_status item)) status in
      let wanted_priority := from_option isTriagePriority (Some (ti_priority item)) priority in
      match wanted_status, wanted_priority with
      | None, _ => Refused invalid_status
      | _, None => Refused invalid_priority
      | Some nextStatus, Some nextPriority =>
          if negb (canTransition (ti_status item) nextStatus) then Refused invalid_transition
          else
            match next_assignee (ti_assignee item) assignee with
            | None => Refused invalid_assignee
            | Some nextAssignee =>
                let before := snapshotOf item in
                match changed_fields item nextStatus nextAssignee nextPriority with
                | [] => Accepted item false before before []
                | fields =>
                    let next := changed_item item nextStatus nextAssignee nextPriority
                                  (default clock (mi_now input)) (normaliseActor (mi_actor input)) in
                    Accepted next true before (snapshotOf next) fields
                end
            end
      end
  end.

(** ** Bulk changes *)

Record BulkTriageRequest : Type := mkBulk
  { br_ids : list string; br_status : option string; br_assignee : option (option string);
    br_priority : option string; br_actor : string; br_orgId : option string;
    br_now : option string }.
Inductive BulkFailureCode : Type := bf_not_found | bf_forbidden | bf_refused (why : TriageMutationError).
Record BulkTriageFailure : Type := mkFailure { bf_id : string; bf_code : BulkFailureCode }.
Record TriageAuditRecord : Type := mkTriageAudit
  { ta_action : AuditAction; ta_itemId : string; ta_actor : string; ta_at : string;
    ta_before : TriageSnapshot; ta_after : TriageSnapshot; ta_orgId : option string }.
Record BulkTriageResult : Type := mkBulkResult
  { res_items : list TriageItemState; res_updated : list TriageItemState;
    res_unchanged : list TriageItemState; res_failed : list BulkTriageFailure;
    res_audit : list TriageAuditRecord }.

Definition auditActionFor (fields : list TriageField) : AuditAction :=
  match fields with
  | _ :: _ :: _ => triage_bulk
  | [tf_assignee] => triage_assign
  | [tf_priority] => triage_priority
  | _ => triage_status
  end.
(** [new Map(items.map((item) => [item.id, item])).get(id)]. *)
Definition by_id (items : list TriageItemState) (id : string) : option TriageItemState :=
  last (filter (fun i => ti_id i = id) items).
(** [nextItems[nextItems.findIndex((c) => c.id === id)] = item]. *)
Fixpoint replace_item (id : string) (item : TriageItemState) (l : list TriageItemState)
  : list TriageItemState :=
  match l with
  | [] => []
  | c :: l' => if decide (ti_id c = id) then item :: l' else c :: replace_item id item l'
  end.
Definition mutation_of (request : BulkTriageRequest) : TriageMutationInput :=
  mkMutation (br_status request) (br_assignee request) (br_priority request) (br_actor request)
    (br_now request).
(** What happens to one requested id. *)
Inductive BulkOutcome : Type :=
  | bulk_failed (why : BulkFailureCode)
  | bulk_unchanged (item : TriageItemState)
  | bulk_updated (item : TriageItemState) (before after : TriageSnapshot) (fields : list TriageField).
Definition bulk_outcome (clock : string) (items : list TriageItemState)
    (request : BulkTriageRequest) (id : string) : BulkOutcome :=
  match by_id items id with
  | None => bulk_failed bf_not_found
  | Some item =>
      if match br_orgId request with Some o => bool_decide (ti_orgId item <> o) | None => false end
      then bulk_failed bf_forbidden
      else
        match transitionTriageItem clock item (mutation_of request) with
        | Refused why => bulk_failed (bf_refused why)
        | Accepted _ false _ _ _ => bulk_unchanged item
        | Accepted next true before after fields => bulk_updated next before after fields
        end
  end.
Definition audit_record (request : BulkTriageRequest) (id : string) (item : TriageItemState)
    (before after : TriageSnapshot) (fields : list TriageField) : TriageAuditRecord :=
  mkTriageAudit (auditActionFor fields) id (default (br_actor request) (ti_updatedBy item))
    (ti_updatedAt item) before after
    (if decide (ti_orgId item = EmptyString) then None else Some (ti_orgId item)).
(** One turn of the loop over the requested ids. *)
Definition bulk_step (clock : string) (items : list TriageItemState) (request : BulkTriageRequest)
    (r : BulkTriageResult) (id : string) : BulkTriageResult :=
  match bulk_outcome clock items request id with
  | bulk_failed why =>
      mkBulkResult (res_items r) (res_updated r) (res_unchanged r)
        (res_failed r ++ [mkFailure id why]) (res_audit r)
  | bulk_unchanged item =>
      mkBulkResult (res_items r) (res_updated r) (res_unchanged r ++ [item]) (res_failed r)
        (res_audit r)
  | bulk_updated item before after fields =>
      mkBulkResult (replace_item id item (res_items r)) (res_updated r ++ [item]) (res_unchanged r)
        (res_failed r) (res_audit r ++ [audit_record request id item before after fields])
  end.
Definition applyBulkTriage (clock : string) (items : list TriageItemState)
    (request : BulkTriageRequest) : BulkTriageResult :=
  foldl (bulk_step clock items request) (mkBulkResult items [] [] [] []) (br_ids request).
(** [Math.floor((done / requested) * 100)], with both roundings. *)
Definition percent_of (done_ requested : Z) : Z :=
  let '(m, e) := double_ratio done_ requested in
  floor_double (double_ratio (m * 100 * 2 ^ Z.max 0 e) (2 ^ Z.max 0 (- e))).
Definition percentComplete (request : BulkTriageRequest) (r : BulkTriageResult) : Z :=
  let requested := Z.of_nat (length (br_ids request)) in
  if requested =? 0 then 100
  else percent_of (Z.of_nat (length (res_updated r) + length (res_unchanged r))) requested.
Definition bulkRequestForItem (id : string) (mutation : BulkTriageRequest) : BulkTriageRequest :=
  mkBulk [id] (br_status mutation) (br_assignee mutation) (br_priority mutation)
    (br_actor mutation) (br_orgId mutation) (br_now mutation).

(** ** Reading a request body *)

Inductive BulkParseError : Type :=
  | body_not_object | no_ids | bad_id | too_many_ids | actor_required | nothing_to_apply
  | unknown_status | unknown_priority | assignee_type | org_type | now_type.
(** The [for] loop over the ids: trimmed, first occurrences. *)
Fixpoint parse_ids (raw : list json) (ids : list string) : option (list string) :=
  match raw with
  | [] => Some ids
  | JStr s :: raw' =>
      let id := trim s in
      if decide (id = EmptyString) then None
      else if decide (id ∈ ids) then parse_ids raw' ids
      else parse_ids raw' (ids ++ [id])
  | _ :: _ => None
  end.
(** [body.field]: absent, or what the check makes of it. *)
Definition read_field {A} (o : fields) (name : string) (read : json -> option A)
    (err : BulkParseError) : result BulkParseError (option A) :=
  match prop name o with
  | None => Ok None
  | Some v => match read v with Some a => Ok (Some a) | None => Err err end
  end.
Definition read_named {A} (is_one : string -> option A) (v : json) : option string :=
  match v with JStr s => (fun _ => s) <$> is_one s | _ => None end.
Definition read_assignee (v : json) : option (option string) :=
  match v with JNull => Some None | JStr s => Some (Some s) | _ => None end.
Definition read_org (v : json) : option string :=
  match v with
  | JStr s => if decide (trim s = EmptyString) then None else Some (trim s)
  | _ => None
  end.
Definition read_now (v : json) : option string :=
  match v with JStr s => (fun _ => s) <$> date_parse s | _ => None end.
Definition parseBulkTriageRequest (body : json) : result BulkParseError BulkTriageRequest :=
  match body with
  | JObj o =>
      match prop "ids" o with
      | Some (JArr (x :: raw)) =>
          ids ← match parse_ids (x :: raw) [] with Some ids => Ok ids | None => Err bad_id end;
          if MAX_BULK_IDS <? Z.of_nat (length ids) then Err too_many_ids
          else
            let actor := match prop "actor" o with Some (JStr s) => trim s | _ => EmptyString end in
            if decide (actor = EmptyString) then Err actor_required
            else
              match prop "status" o, prop "assignee" o, prop "priority" o with
              | None, None, None => Err nothing_to_apply
              | _, _, _ =>
                  status ← read_field o "status" (read_named isTriageStatus) unknown_status;
                  priority ← read_field o "priority" (read_named isTriagePriority) unknown_priority;
                  assignee ← read_field o "assignee" read_assignee assignee_type;
                  orgId ← read_field o "orgId" read_org org_type;
                  now ← read_field o "now" read_now now_type;
                  Ok (mkBulk ids status assignee priority actor orgId now)
              end
      | _ => Err no_ids
      end
  | _ => Err body_not_object
  end.

(** ** The stored queue *)

Definition MAX_ITEMS : nat := 5000.
Definition itemKey (id : string) : string := cat ["triage:item:"; id].
(** The records under [itemKey] and the index [TRIAGE_QUEUE_INDEX]. *)
Record TriageDb : Type := mkDb
  { db_records : gmap string (option TriageItemState); db_index : list string }.

Definition PRIORITY_RANK (p : TriagePriority) : Z :=
  match p with tp_p0 => 0 | tp_p1 => 1 | tp_p2 => 2 | tp_p3 => 3 end.
Definition queue_le (a b : TriageItemState) : bool :=
  let pa := PRIORITY_RANK (ti_priority a) in
  let pb := PRIORITY_RANK (ti_priority b) in
  if negb (pa =? pb) then pa <? pb
  else if negb (ti_occurrences a =? ti_occurrences b) then ti_occurrences b <? ti_occurrences a
  else str_le (ti_id a) (ti_id b).
Definition sortQueue (items : list TriageItemState) : list TriageItemState :=
  sort_by queue_le items.

(** The item [list] reads under an id. *)
Definition listed (db : TriageDb) (orgId : option string) (id : string) : option TriageItemState :=
  item ← mjoin (db_records db !! itemKey id);
  if match orgId with Some o => bool_decide (ti_orgId item <> o) | None => false end then None
  else Some item.
Definition queue_list (db : TriageDb) (orgId : option string) : list TriageItemState :=
  sortQueue (omap (listed db orgId) (take MAX_ITEMS (db_index db))).
Definition queue_get (db : TriageDb) (id : string) : option TriageItemState :=
  mjoin (db_records db !! itemKey id).
Definition put_item (db : TriageDb) (item : TriageItemState) : TriageDb :=
  mkDb (<[itemKey (ti_id item) := Some item]> (db_records db))
    (if decide (ti_id item ∈ db_index db) then db_index db else db_index db ++ [ti_id item]).
Definition queue_save (db : TriageDb) (items : list TriageItemState) : TriageDb :=
  foldl put_item db (take MAX_ITEMS items).
Definition seed_step (acc : TriageDb * Z) (item : TriageItemState) : TriageDb * Z :=
  match db_records acc.1 !! itemKey (ti_id item) with
  | Some _ => acc
  | None => (put_item acc.1 item, acc.2 + 1)
  end.
Definition queue_seed (db : TriageDb) (items : list TriageItemState) : TriageDb * Z :=
  foldl seed_step (db, 0) (take MAX_ITEMS items).
(** [apply] gives way to other requests between its reads and its writes. *)
Definition apply_write (db : TriageDb) (r : BulkTriageResult) : TriageDb :=
  match res_updated r with [] => db | _ => queue_save db (res_updated r) end.
Definition apply_read (clock : string) (db : TriageDb) (request : BulkTriageRequest)
  : BulkTriageResult := applyBulkTriage clock (queue_list db (br_orgId request)) request.
Definition queue_apply (clock : string) (db : TriageDb) (request : BulkTriageRequest)
  : TriageDb * BulkTriageResult :=
  let r := apply_read clock db request in (apply_write db r, r).

(** ** The audit trail and the route *)

Definition snapshot_json (s : TriageSnapshot) : json :=
  JObj ([("status", JStr (TRIAGE_STATUSES (sn_status s)));
         ("priority", JStr (TRIAGE_PRIORITIES (sn_priority s)))]%string
        ++ match sn_assignee s with Some a => [("assignee"%string, JStr a)] | None => [] end).
Definition triage_event (record : TriageAuditRecord) : AuditEntryInput :=
  mkEntryInput (ta_action record) (ta_itemId record) (Some (ta_actor record))
    (Some [("before", snapshot_json (ta_before record)); ("after", snapshot_json (ta_after record))]%string)
    (match ta_orgId record with
     | Some o => if decide (o = EmptyString) then None else Some o
     | None => None
     end).

Section Route.
Context (digest : json -> string) (strip_url : string -> option string).

(** [recordTriageAudit], the log's clock at [now]. *)
Definition recordTriageAudit (now : Z) (log : list AuditEntry) (records : list TriageAuditRecord)
  : list AuditEntry :=
  foldl (fun l r => record_event digest strip_url l (true, triage_event r, now)) log records.

Definition DEFAULT_ORG : string := "default".
Definition orgFrom (param : option string) : string :=
  match trim <$> param with
  | Some o => if decide (o = EmptyString) then DEFAULT_ORG else o
  | None => DEFAULT_ORG
  end.
Definition countByStatus (items : list TriageItemState) : list (TriageStatus * Z) :=
  (fun s => (s, Z.of_nat (length (filter (fun i => ti_status i = s) items))))
    <$> [ts_new; ts_triaged; ts_in_progress; ts_resolved].
(** [GET]: the default organisation is seeded with [seed] on the way. *)
Definition get_queue (seed : list TriageItemState) (db : TriageDb) (param : option string)
  : TriageDb * (list TriageItemState * list (TriageStatus * Z) * string) :=
  let orgId := orgFrom param in
  let db' := if decide (orgId = DEFAULT_ORG) then (queue_seed db seed).1 else db in
  let items := queue_list db' (Some orgId) in
  (db', (items, countByStatus items, orgId)).
(** [POST]: [param] is the query parameter [orgId], [body] the parsed body. *)
Definition post_queue (now : Z) (db : TriageDb) (log : list AuditEntry) (param : option string)
    (body : json) : TriageDb * list AuditEntry * result BulkParseError BulkTriageResult :=
  match parseBulkTriageRequest body with
  | Err e => (db, log, Err e)
  | Ok input =>
      let orgId := default (orgFrom param) (br_orgId input) in
      let request := mkBulk (br_ids input) (br_status input) (br_assignee input)
                       (br_priority input) (br_actor input) (Some orgId) (br_now input) in
      let '(db', r) := queue_apply (to_iso_string now) db request in
      (db', recordTriageAudit now log (res_audit r), Ok r)
  end.
End Route.

Definition toy_item (id : string) (s : TriageStatus) : TriageItemState :=
  mkItem id "org" None "sig" "panic" sev_high 3 s tp_p1 None 1 "t0" None.
Definition toy_bulk (ids : list string) (status : string) : BulkTriageRequest :=
  mkBulk ids (Some status) None None "ann" None None.
Example bulk_example :
  let r := applyBulkTriage "t1" [toy_item "a" ts_new; toy_item "b" ts_resolved]
             (toy_bulk ["a"; "b"; "c"] "triaged") in
  (ti_status <$> res_items r) = [ts_triaged; ts_resolved] /\
  (ti_version <$> res_updated r) = [2] /\
  res_failed r = [mkFailure "b" (bf_refused invalid_transition); mkFailure "c" bf_not_found] /\
  percentComplete (toy_bulk ["a"; "b"; "c"] "triaged") r = 33.
Proof. vm_compute. done. Qed.

(** ** One item *)

(** The change a request asks of an item, when it is allowed. *)
Definition wanted (item : TriageItemState) (input : TriageMutationInput) (s : TriageStatus)
    (a : option string) (p : TriagePriority) : Prop :=
  from_option isTriageStatus (Some (ti_status item)) (mi_status input) = Some s /\
  from_option isTriagePriority (Some (ti_priority item)) (mi_priority input) = Some p /\
  canTransition (ti_status item) s = true /\
  next_assignee (ti_assignee item) (mi_assignee input) = Some a.
Definition asks_something (input : TriageMutationInput) : Prop :=
  ~ (mi_status input = None /\ mi_assignee input = None /\ mi_priority input = None).
Definition settle_item (clock : string) (item : TriageItemState) (input : TriageMutationInput)
    (s : TriageStatus) (a : option string) (p : TriagePriority) : TriageTransition :=
  match changed_fields item s a p with
  | [] => Accepted item false (snapshotOf item) (snapshotOf item) []
  | fields =>
      let next := changed_item item s a p (default clock (mi_now input))
                    (normaliseActor (mi_actor input)) in
      Accepted next true (snapshotOf item) (snapshotOf next) fields
  end.

Lemma transition_wanted clock item input s a p :
  asks_something input -> wanted item input s a p ->
  transitionTriageItem clock item input = settle_item clock item input s a p.
Proof.
  intros Hask (Hs & Hp & Hc & Ha). unfold transitionTriageItem, settle_item.
  destruct (mi_status input) eqn:E1, (mi_assignee input) eqn:E2, (mi_priority input) eqn:E3;
    try (exfalso; by apply Hask); by rewrite Hs, Hp, Hc, Ha.
Qed.
Lemma transition_cases clock item input :
  (exists why, transitionTriageItem clock item input = Refused why /\
     forall clock', transitionTriageItem clock' item input = Refused why) \/
  (asks_something input /\ exists s a p, wanted item input s a p).
Proof.
  unfold asks_something, wanted.
  destruct (from_option isTriageStatus (Some (ti_status item)) (mi_status input)) as [s|] eqn:Es;
  destruct (from_option isTriagePriority (Some (ti_priority item)) (mi_priority input)) as [p|] eqn:Ep;
  [destruct (canTransition (ti_status item) s) eqn:Ec;
   [destruct (next_assignee (ti_assignee item) (mi_assignee input)) as [a|] eqn:Ea|]| | |].
  2-6: left; unfold transitionTriageItem;
       destruct (mi_status input), (mi_assignee input), (mi_priority input);
       rewrite ?Es, ?Ep, ?Ec; cbn [negb]; rewrite ?Ea;
       first [by exists empty_mutation|by exists invalid_status|by exists invalid_priority
             |by exists invalid_transition|by exists invalid_assignee].
  destruct (mi_status input) eqn:E1, (mi_assignee input) eqn:E2, (mi_priority input) eqn:E3;
    try (right; split; [by intros (? & ? & ?)|by exists s, a, p]).
  left. exists empty_mutation. unfold transitionTriageItem. by rewrite E1, E2, E3.
Qed.
Lemma no_fields item s a p :
  changed_fields item s a p = [] <-> mkSnapshot s p a = snapshotOf item.
Proof.
  unfold changed_fields, snapshotOf.
  destruct (decide (s = ti_status item)), (decide (a = ti_assignee item)),
    (decide (p = ti_priority item)); cbn; split; intros H; try done; try congruence;
    by subst; f_equal.
Qed.
(** What an accepted change does and what it leaves alone. *)
Lemma transition_accepted clock item input next changed before after fields :
  transitionTriageItem clock item input = Accepted next changed before after fields ->
  before = snapshotOf item /\ after = snapshotOf next /\ ti_id next = ti_id item /\
  ti_orgId next = ti_orgId item /\ canTransition (ti_status item) (ti_status next) = true /\
  (if changed then ti_version next = ti_version item + 1 /\ before <> after /\ fields <> []
   else next = item).
Proof.
  destruct (transition_cases clock item input) as [(why & -> & _)|(Hask & s & a & p & Hw)]; [done|].
  rewrite (transition_wanted _ _ _ _ _ _ Hask Hw). unfold settle_item.
  destruct Hw as (_ & _ & Hc & _).
  destruct (changed_fields item s a p) as [|f fs] eqn:E; intros [= <- <- <- <- <-].
  - repeat split. unfold canTransition. by rewrite bool_decide_true.
  - repeat split; [done| |done]. intros H. by rewrite (proj2 (no_fields item s a p)) in E.
Qed.
(** Asking again for what was accepted changes nothing. *)
Lemma transition_again clock clock' item input next changed before after fields :
  transitionTriageItem clock item input = Accepted next changed before after fields ->
  transitionTriageItem clock' next input
  = Accepted next false (snapshotOf next) (snapshotOf next) [].
Proof.
  destruct (transition_cases clock item input) as [(why & -> & _)|(Hask & s & a & p & Hw)]; [done|].
  rewrite (transition_wanted _ _ _ _ _ _ Hask Hw). intros H.
  assert (Hn : snapshotOf next = mkSnapshot s p a).
  { unfold settle_item in H. destruct (changed_fields item s a p) eqn:E; injection H as <- <- <- <- <-.
    - symmetry. by apply no_fields.
    - done. }
  destruct Hw as (Hs & Hp & _ & Ha).
  assert (Hw' : wanted next input s a p).
  { unfold snapshotOf in Hn. injection Hn as E1 E2 E3. unfold wanted. rewrite E1, E2, E3.
    repeat split.
    - by destruct (mi_status input).
    - by destruct (mi_priority input).
    - unfold canTransition. by rewrite bool_decide_true.
    - by destruct (mi_assignee input) as [[v|]|]; cbn in Ha |- *. }
  rewrite (transition_wanted _ _ _ _ _ _ Hask Hw'). unfold settle_item.
  by rewrite (proj2 (no_fields next s a p)).
Qed.

(** ** A batch *)

Section Batch.
Context (clock : string) (items : list TriageItemState) (request : BulkTriageRequest).
Notation outcome := (bulk_outcome clock items request).

Definition updated_by (id : string) : option TriageItemState :=
  match outcome id with bulk_updated item _ _ _ => Some item | _ => None end.
Definition unchanged_by (id : string) : option TriageItemState :=
  match outcome id with bulk_unchanged item => Some item | _ => None end.
Definition failed_by (id : string) : option BulkTriageFailure :=
  match outcome id with bulk_failed why => Some (mkFailure id why) | _ => None end.
Definition audited_by (id : string) : option TriageAuditRecord :=
  match outcome id with
  | bulk_updated item before after fields => Some (audit_record request id item before after fields)
  | _ => None
  end.
(** The item after the batch. *)
Definition settled_item (item : TriageItemState) : TriageItemState :=
  if decide (ti_id item ∈ br_ids request) then default item (updated_by (ti_id item)) else item.

Lemma bulk_step_eq r id :
  bulk_step clock items request r id
  = mkBulkResult
      (match updated_by id with Some i => replace_item id i (res_items r) | None => res_items r end)
      (res_updated r ++ option_list (updated_by id)) (res_unchanged r ++ option_list (unchanged_by id))
      (res_failed r ++ option_list (failed_by id)) (res_audit r ++ option_list (audited_by id)).
Proof.
  unfold bulk_step, updated_by, unchanged_by, failed_by, audited_by.
  destruct (outcome id); cbn; rewrite ?app_nil_r; by destruct r.
Qed.
Lemma bulk_fold ids r :
  foldl (bulk_step clock items request) r ids
  = mkBulkResult
      (foldl (fun l id => match updated_by id with Some i => replace_item id i l | None => l end)
         (res_items r) ids)
      (res_updated r ++ omap updated_by ids) (res_unchanged r ++ omap unchanged_by ids)
      (res_failed r ++ omap failed_by ids) (res_audit r ++ omap audited_by ids).
Proof.
  revert r. induction ids as [|id ids IH]; intros r; cbn [foldl].
  { cbn. rewrite !app_nil_r. by destruct r. }
  by rewrite IH, bulk_step_eq, !omap_step, !app_assoc.
Qed.
Lemma replace_item_map id item l :
  NoDup (ti_id <$> l) ->
  replace_item id item l = (fun i => if decide (ti_id i = id) then item else i) <$> l.
Proof.
  induction l as [|c l IH]; [done|]. cbn. intros [Hc Hl]%NoDup_cons.
  destruct (decide (ti_id c = id)) as [<-|E]; f_equal; [|by apply IH].
  clear IH Hl. induction l as [|d l IH]; [done|]. cbn in *.
  rewrite decide_False by (intros E; apply Hc; rewrite E; by left).
  f_equal. apply IH. intros H. apply Hc. by right.
Qed.
Lemma by_id_Some l id item :
  NoDup (ti_id <$> l) -> by_id l id = Some item <-> item ∈ l /\ ti_id item = id.
Proof.
  intros Hn. unfold by_id. induction l as [|c l IH].
  { split; [done|]. intros [H _]. by apply not_elem_of_nil in H. }
  cbn in Hn. apply NoDup_cons in Hn as [Hc Hn]. specialize (IH Hn). rewrite filter_cons.
  destruct (decide (ti_id c = id)) as [E|E].
  - rewrite (filter_none (fun i => ti_id i = id)).
    + cbn. split; [intros [= <-]; split; [by left|done]|]. intros [[->|H]%elem_of_cons Hi]; [done|].
      exfalso. apply Hc. rewrite E, <- Hi. by apply list_elem_of_fmap_2.
    + intros d Hd Ed. apply Hc. rewrite E, <- Ed. by apply list_elem_of_fmap_2.
  - rewrite IH. split; intros [H Hi]; (split; [|done]); [by right|].
    by apply elem_of_cons in H as [->|H].
Qed.
(** What an updated item keeps of the one it replaces. *)
Lemma updated_by_Some id item :
  updated_by id = Some item ->
  exists old, by_id items id = Some old /\ ti_id item = ti_id old /\ ti_orgId item = ti_orgId old /\
    canTransition (ti_status old) (ti_status item) = true /\
    ti_version item = ti_version old + 1 /\ snapshotOf old <> snapshotOf item /\
    (forall o, br_orgId request = Some o -> ti_orgId old = o) /\
    exists fields, audited_by id
      = Some (audit_record request id item (snapshotOf old) (snapshotOf item) fields).
Proof.
  unfold updated_by, audited_by, bulk_outcome. destruct (by_id items id) as [old|]; [|done].
  destruct (match br_orgId request with Some o => _ | None => _ end) eqn:Eo; [done|].
  destruct (transitionTriageItem clock old (mutation_of request)) as [|next [] b a f] eqn:Et; try done.
  intros [= <-]. apply transition_accepted in Et as (-> & -> & H1 & H2 & H3 & H4 & H5 & H6).
  exists old. repeat split; try done; [|by eexists].
  intros o Ho. rewrite Ho in Eo. apply bool_decide_eq_false in Eo.
  destruct (decide (ti_orgId old = o)); [done|by destruct Eo].
Qed.
End Batch.

(** ** The percentage *)

(** A rounded quotient below [2 ^ k] is [m / P] with [P >= 2 ^ (53 - k)], off by
    less than one unit of [1 / P] below and half of one above. *)
Lemma double_ratio_near n d k :
  0 < n -> 0 < d -> 0 <= k <= 52 -> n < d * 2 ^ k ->
  exists m j, double_ratio n d = (m, - j) /\ 53 - k <= j /\ 0 <= m /\
    n * 2 ^ j - d < d * m /\ 2 * d * m <= 2 * n * 2 ^ j + d.
Proof.
  intros Hn Hd Hk Hlt. pose proof (log2_ratio_upper n d k Hn Hd ltac:(lia) Hlt) as HL.
  unfold double_ratio. rewrite (proj2 (Z.eqb_neq n 0)) by lia.
  set (j := - Z.max (-1074) (log2_ratio n d - 52)).
  assert (Hj : 53 - k <= j) by lia.
  replace (Z.max (-1074) (log2_ratio n d - 52)) with (- j) by lia.
  rewrite (Z.max_r 0 j), (Z.max_l 0 (- j)), Z.pow_0_r, Z.mul_1_r by lia.
  pose proof (Z.pow_pos_nonneg 2 j ltac:(lia) ltac:(lia)) as HP.
  destruct (round_half_even_bounds (n * 2 ^ j) d ltac:(nia) Hd) as [H1 H2].
  pose proof (Z.div_mod (n * 2 ^ j) d ltac:(lia)). pose proof (Z.mod_pos_bound (n * 2 ^ j) d Hd).
  assert (0 <= n * 2 ^ j / d) by (apply Z.div_pos; nia).
  exists (round_half_even (n * 2 ^ j) d), j. repeat split; [done|lia|nia|nia].
Qed.
Lemma percent_full b : 0 < b -> percent_of b b = 100.
Proof.
  intros Hb. unfold percent_of.
  assert (double_ratio b b = (2 ^ 52, - 52)) as ->; [|vm_compute; reflexivity].
  unfold double_ratio. rewrite (proj2 (Z.eqb_neq b 0)) by lia.
  assert (log2_ratio b b = 0) as ->.
  { unfold log2_ratio. rewrite Z.sub_diag. change (Z.max 0 0) with 0.
    change (Z.max 0 (- 0)) with 0. by rewrite Z.leb_refl. }
  change (Z.max (-1074) (0 - 52)) with (-52).
  change (Z.max 0 (- -52)) with 52. change (Z.max 0 (-52)) with 0.
  rewrite Z.pow_0_r, Z.mul_1_r. f_equal.
  unfold round_half_even. rewrite (Z.mul_comm b (2 ^ 52)), Z.div_mul, Z_mod_mult by lia.
  rewrite (proj2 (Z.ltb_ge _ _)), (proj2 (Z.eqb_neq _ _)) by lia. done.
Qed.
(** The percentage is the integer part, or one less; 100 only at the end. *)
Lemma percent_bounds a b :
  0 <= a <= b -> 0 < b <= MAX_BULK_IDS ->
  100 * a / b - 1 <= percent_of a b <= 100 * a / b /\ (percent_of a b = 100 <-> a = b).
Proof.
  unfold MAX_BULK_IDS. intros Ha Hb. destruct (Z.eq_dec a b) as [->|Hne].
  { rewrite percent_full, Z.div_mul by lia. lia. }
  assert (Hx : 100 * a / b <= 99) by (apply Z.lt_succ_r, Z.div_lt_upper_bound; lia).
  enough (100 * a / b - 1 <= percent_of a b <= 100 * a / b) by lia.
  destruct (Z.eq_dec a 0) as [->|Ha0].
  { rewrite Z.mul_0_r, Z.div_0_l by lia. vm_compute. split; discriminate. }
  unfold percent_of.
  destruct (double_ratio_near a b 0 ltac:(lia) ltac:(lia) ltac:(lia) ltac:(lia))
    as (m1 & j1 & -> & Hj1 & Hm1 & Hlo1 & Hhi1).
  rewrite Z.opp_involutive, (Z.max_r 0 j1), (Z.max_l 0 (- j1)), Z.pow_0_r, Z.mul_1_r by lia.
  assert (HP1 : 2 ^ 53 <= 2 ^ j1) by (apply Z.pow_le_mono_r; lia).
  change (2 ^ 53) with 9007199254740992 in HP1. set (P1 := 2 ^ j1) in *. clearbody P1.
  assert (Hm1' : 0 < m1) by nia.
  destruct (double_ratio_near (m1 * 100) P1 7 ltac:(lia) ltac:(lia) ltac:(lia) ltac:(nia))
    as (m2 & j2 & -> & Hj2 & Hm2 & Hlo2 & Hhi2).
  unfold floor_double. rewrite (proj2 (Z.leb_gt 0 (- j2))), Z.opp_involutive by lia.
  assert (HP2 : 2 ^ 46 <= 2 ^ j2) by (apply Z.pow_le_mono_r; lia).
  change (2 ^ 46) with 70368744177664 in HP2. set (P2 := 2 ^ j2) in *. clearbody P2.
  pose proof (Z.div_mod (100 * a) b ltac:(lia)) as E. pose proof (Z.mod_pos_bound (100 * a) b ltac:(lia)).
  set (x := 100 * a / b) in *. clearbody x.
  assert (Hbig : 50000 * P2 < P1 * P2 /\ 500 * P1 < P1 * P2 /\ 0 < P1 * P2) by nia.
  pose proof (Z.mul_le_mono_nonneg_l _ _ b ltac:(lia) Hhi2).
  pose proof (Z.mul_le_mono_nonneg_r _ _ (100 * P2) ltac:(lia) Hhi1).
  pose proof (Z.mul_le_mono_nonneg_l _ _ b ltac:(lia) (Z.lt_le_incl _ _ Hlo2)).
  pose proof (Z.mul_le_mono_nonneg_r _ _ (100 * P2) ltac:(lia) (Z.lt_le_incl _ _ Hlo1)).
  assert (b * P2 <= 500 * P2) by (apply Z.mul_le_mono_nonneg_r; lia).
  assert (b * P1 <= 500 * P1) by (apply Z.mul_le_mono_nonneg_r; lia).
  assert (HbP : 0 < b * P1) by (apply Z.mul_pos_pos; lia).
  assert (100 * a * (P1 * P2) <= (b * x + b - 1) * (P1 * P2)) by (apply Z.mul_le_mono_nonneg_r; lia).
  assert (b * x * (P1 * P2) <= 100 * a * (P1 * P2)) by (apply Z.mul_le_mono_nonneg_r; lia).
  assert (b * (100 * P2 + P1) <= b * (P1 * P2)) by (apply Z.mul_le_mono_nonneg_l; lia).
  assert (Hup : m2 < (x + 1) * P2) by (apply (Z.mul_lt_mono_pos_l (2 * (b * P1))); lia).
  assert (Hdn : (x - 1) * P2 <= m2) by (apply (Z.mul_le_mono_pos_l _ _ (b * P1)); lia).
  split.
  - apply Z.div_le_lower_bound; lia.
  - apply Z.lt_succ_r, Z.div_lt_upper_bound; lia.
Qed.

(** ** The claims about a batch *)

Section BatchTheorems.
Context (clock : string) (items : list TriageItemState) (request : BulkTriageRequest).
Notation updated_by := (updated_by clock items request).
Notation settled_item := (settled_item clock items request).
Hypothesis Hids : NoDup (ti_id <$> items).

Lemma updated_by_id id item : updated_by id = Some item -> ti_id item = id.
Proof.
  intros H. destruct (updated_by_Some _ _ _ _ _ H) as (old & Ho & -> & _).
  by apply by_id_Some in Ho as [_ ->].
Qed.
Lemma settled_id item : ti_id (settled_item item) = ti_id item.
Proof.
  unfold Triage.settled_item. destruct (decide _); [|done].
  destruct (updated_by (ti_id item)) eqn:E; cbn; [by apply updated_by_id|done].
Qed.
Lemma settled_ids : ti_id <$> (settled_item <$> items) = ti_id <$> items.
Proof. rewrite <- list_fmap_compose. apply list_fmap_ext. intros ? x _. apply settled_id. Qed.

Definition settled_in (seen : list string) (item : TriageItemState) : TriageItemState :=
  if decide (ti_id item ∈ seen) then default item (updated_by (ti_id item)) else item.
Lemma settled_in_id seen item : ti_id (settled_in seen item) = ti_id item.
Proof.
  unfold settled_in. destruct (decide _); [|done].
  destruct (updated_by (ti_id item)) eqn:E; cbn; [by apply updated_by_id|done].
Qed.
Lemma replace_fold ids seen :
  foldl (fun l id => match updated_by id with Some i => replace_item id i l | None => l end)
    (settled_in seen <$> items) ids = settled_in (seen ++ ids) <$> items.
Proof.
  revert seen. induction ids as [|id ids IH]; intros seen; cbn [foldl]; [by rewrite app_nil_r|].
  replace (seen ++ id :: ids) with ((seen ++ [id]) ++ ids) by (by rewrite <- app_assoc).
  rewrite <- IH. f_equal.
  assert (Hone : forall x, settled_in (seen ++ [id]) x
            = if decide (ti_id x = id) then default (settled_in seen x) (updated_by id)
              else settled_in seen x).
  { intros x. unfold settled_in. destruct (decide (ti_id x = id)) as [E|E].
    - rewrite decide_True by (rewrite E; set_solver). rewrite E.
      destruct (updated_by id); [done|]. by destruct (decide (id ∈ seen)).
    - destruct (decide (ti_id x ∈ seen)) as [Hi|Hi].
      + by rewrite decide_True by set_solver.
      + rewrite decide_False by set_solver. done. }
  destruct (updated_by id) as [i|] eqn:E.
  - rewrite replace_item_map.
    + rewrite <- list_fmap_compose. apply list_fmap_ext. intros ? x _. cbn.
      rewrite settled_in_id, Hone. by destruct (decide (ti_id x = id)).
    + rewrite <- list_fmap_compose. erewrite list_fmap_ext; [exact Hids|].
      intros ? x _. apply settled_in_id.
  - apply list_fmap_ext. intros ? x _. rewrite Hone. by destruct (decide (ti_id x = id)).
Qed.
Lemma applyBulkTriage_eq :
  applyBulkTriage clock items request
  = mkBulkResult (settled_item <$> items) (omap updated_by (br_ids request))
      (omap (unchanged_by clock items request) (br_ids request))
      (omap (failed_by clock items request) (br_ids request))
      (omap (audited_by clock items request) (br_ids request)).
Proof.
  unfold applyBulkTriage. rewrite bulk_fold. cbn. f_equal.
  transitivity (settled_in ([] ++ br_ids request) <$> items); [|done].
  rewrite <- (replace_fold (br_ids request) []). f_equal.
  rewrite <- (list_fmap_id items) at 1. apply list_fmap_ext. done.
Qed.
Lemma outcome_counts ids :
  (length (omap updated_by ids) + length (omap (unchanged_by clock items request) ids)
   + length (omap (failed_by clock items request) ids) = length ids)%nat.
Proof.
  induction ids as [|id ids IH]; [done|]. rewrite !omap_step, !length_app. cbn [length].
  assert (length (option_list (updated_by id))
          + length (option_list (unchanged_by clock items request id))
          + length (option_list (failed_by clock items request id)) = 1)%nat; [|lia].
  unfold Triage.updated_by, unchanged_by, failed_by. by destruct (bulk_outcome _ _ _ id).
Qed.
(** What the audit record of an update says. *)
Definition audits (record : TriageAuditRecord) (item : TriageItemState) : Prop :=
  ta_itemId record = ti_id item /\ ta_after record = snapshotOf item /\
  exists old, old ∈ items /\ ti_id old = ti_id item /\ ta_before record = snapshotOf old.
Lemma audits_updates ids :
  Forall2 audits (omap (audited_by clock items request) ids) (omap updated_by ids).
Proof.
  induction ids as [|id ids IH]; [constructor|]. rewrite !omap_step. apply Forall2_app; [|done].
  destruct (updated_by id) as [item|] eqn:E.
  - pose proof (updated_by_id _ _ E) as Hid.
    destruct (updated_by_Some _ _ _ _ _ E) as (old & Ho & Hi & _ & _ & _ & _ & _ & f & ->).
    apply by_id_Some in Ho as [Ho Ho']; [|done]. constructor; [|constructor].
    repeat split; [done|]. exists old. repeat split; [done|congruence].
  - unfold Triage.updated_by in E. unfold audited_by.
    destruct (bulk_outcome _ _ _ id); try done; constructor.
Qed.
End BatchTheorems.

(** A batch over distinct items: every item keeps its place and its id, and
    an item that was not asked for is untouched; a changed one went along an
    edge of the workflow with its version one higher, the snapshots before and
    after recorded, one record per change in the order of the ids; every id is
    counted once as updated, unchanged or failed, and the percentage is 100
    exactly when nothing failed. *)
Theorem bulk_spec (clock : string) (items : list TriageItemState) (request : BulkTriageRequest) :
  NoDup (ti_id <$> items) -> br_ids request <> [] ->
  Z.of_nat (length (br_ids request)) <= MAX_BULK_IDS ->
  let r := applyBulkTriage clock items request in
  Forall2 (fun old item =>
      ti_id item = ti_id old /\ ti_orgId item = ti_orgId old /\
      (item = old \/
       ti_id old ∈ br_ids request /\ item ∈ res_updated r /\
       canTransition (ti_status old) (ti_status item) = true /\
       ti_version item = ti_version old + 1 /\ snapshotOf item <> snapshotOf old))
    items (res_items r) /\
  Forall2 (audits items) (res_audit r) (res_updated r) /\
  (length (res_updated r) + length (res_unchanged r) + length (res_failed r)
   = length (br_ids request))%nat /\
  (percentComplete request r = 100 <-> res_failed r = []).
Proof.
  intros Hids Hne Hmax r. subst r. rewrite (applyBulkTriage_eq _ _ _ Hids). cbn.
  pose proof (outcome_counts clock items request (br_ids request)) as Hcount.
  split; [|split; [by apply audits_updates|split; [exact Hcount|]]].
  - apply Forall2_fmap_r, Forall_Forall2_diag, Forall_forall. intros old Ho.
    split; [by apply settled_id|]. unfold settled_item.
    destruct (decide (ti_id old ∈ br_ids request)) as [Hin|]; [|by auto].
    destruct (updated_by clock items request (ti_id old)) as [item|] eqn:E; cbn; [|by auto].
    destruct (updated_by_Some _ _ _ _ _ E) as (old' & Hb & Hi & Horg & Hc & Hv & Hs & _).
    apply by_id_Some in Hb as [Hb Hb']; [|done].
    assert (old' = old) as ->.
    { apply list_elem_of_lookup in Ho as [i Hi']. apply list_elem_of_lookup in Hb as [j Hj].
      assert (i = j) as ->; [|congruence].
      apply (NoDup_lookup _ i j (ti_id old) Hids); rewrite list_lookup_fmap; [by rewrite Hi'|].
      by rewrite Hj, <- Hb'. }
    split; [done|]. right. repeat split; [done| |done|done|congruence].
    apply list_elem_of_omap. by exists (ti_id old).
  - unfold percentComplete. cbn.
    destruct (Z.eqb_spec (Z.of_nat (length (br_ids request))) 0) as [E|E].
    { by destruct (br_ids request). }
    match goal with |- percent_of ?a ?b = 100 <-> _ =>
      rewrite (proj2 (percent_bounds a b ltac:(lia) ltac:(lia))) end.
    destruct (omap (failed_by clock items request) (br_ids request)); cbn in *.
    + split; [done|lia].
    + split; [lia|done].
Qed.

(** ** Retrying a batch *)

Section Retry.
Context (clock clock' : string) (items : list TriageItemState) (request : BulkTriageRequest).
Hypothesis Hids : NoDup (ti_id <$> items).
Notation after := (settled_item clock items request <$> items).

Lemma by_id_after id :
  by_id after id = settled_item clock items request <$> by_id items id.
Proof.
  destruct (by_id items id) as [item|] eqn:E.
  - apply by_id_Some in E as [Hi <-]; [|done]. apply by_id_Some; [by rewrite settled_ids|].
    split; [by apply list_elem_of_fmap_2|by apply settled_id].
  - destruct (by_id after id) as [x|] eqn:E'; [|done].
    apply by_id_Some in E' as [Hx <-]; [|by rewrite settled_ids].
    apply list_elem_of_fmap in Hx as (item & -> & Hi).
    rewrite settled_id in E by done. rewrite (proj2 (by_id_Some items _ item Hids)) in E; done.
Qed.
(** The second time every id that did not fail is unchanged. *)
Lemma outcome_again id :
  id ∈ br_ids request ->
  bulk_outcome clock' after request id
  = match bulk_outcome clock items request id with
    | bulk_failed why => bulk_failed why
    | bulk_unchanged item => bulk_unchanged item
    | bulk_updated item _ _ _ => bulk_unchanged item
    end.
Proof.
  intros Hin. unfold bulk_outcome at 1. rewrite by_id_after.
  destruct (by_id items id) as [old|] eqn:Eb; cbn [fmap option_fmap option_map];
    [|by unfold bulk_outcome; rewrite Eb].
  apply by_id_Some in Eb as Hold; [|done]. destruct Hold as [Hi Hid].
  assert (Hset : settled_item clock items request old
            = match bulk_outcome clock items request id with
              | bulk_updated item _ _ _ => item | _ => old end).
  { unfold settled_item, updated_by. rewrite Hid, decide_True by done. by destruct (bulk_outcome _ _ _ id). }
  unfold bulk_outcome in Hset |- *. rewrite Eb in Hset |- *.
  destruct (match br_orgId request with Some o => _ | None => _ end) eqn:Eo.
  { rewrite Hset. by rewrite Eo. }
  destruct (transitionTriageItem clock old (mutation_of request)) as [why|next ch b a f] eqn:Et.
  { rewrite Hset, Eo.
    destruct (transition_cases clock old (mutation_of request)) as [(w & E1 & E2)|(Hask & s & x & p & Hw)].
    - rewrite E2. congruence.
    - rewrite (transition_wanted _ _ _ _ _ _ Hask Hw) in Et. unfold settle_item in Et.
      by destruct (changed_fields _ _ _ _). }
  pose proof (transition_again _ clock' _ _ _ _ _ _ _ Et) as Hagain.
  apply transition_accepted in Et as (_ & _ & _ & Horg & _ & Hch).
  destruct ch; rewrite Hset.
  - rewrite Horg, Eo. by rewrite Hagain.
  - rewrite Eo. subst next. by rewrite Hagain.
Qed.

(** A batch may be sent again: applied to its own result, whatever the
    time, it changes and audits nothing, reports the same failures, and finds
    unchanged every item it had updated or found unchanged. *)
Theorem bulk_retry_safe :
  let r := applyBulkTriage clock items request in
  let r' := applyBulkTriage clock' (res_items r) request in
  res_items r' = res_items r /\ res_updated r' = [] /\ res_audit r' = [] /\
  res_failed r' = res_failed r /\
  length (res_unchanged r') = (length (res_updated r) + length (res_unchanged r))%nat.
Proof.
  intros r r'. subst r r'. rewrite (applyBulkTriage_eq clock items request Hids). cbn [res_items].
  rewrite applyBulkTriage_eq by (by rewrite settled_ids). cbn.
  assert (Hnone : forall id, id ∈ br_ids request ->
            updated_by clock' after request id = None /\ audited_by clock' after request id = None /\
            failed_by clock' after request id = failed_by clock items request id).
  { intros id Hin. unfold updated_by, audited_by, failed_by. rewrite (outcome_again id Hin).
    by destruct (bulk_outcome clock items request id). }
  assert (Hupd : omap (updated_by clock' after request) (br_ids request) = []).
  { apply elem_of_nil_inv. intros x (id & Hin & E)%list_elem_of_omap.
    by rewrite (proj1 (Hnone id Hin)) in E. }
  assert (Hfail : omap (failed_by clock' after request) (br_ids request)
                  = omap (failed_by clock items request) (br_ids request)).
  { assert (H : forall ids : list string, (forall id, id ∈ ids -> id ∈ br_ids request) ->
      omap (failed_by clock' after request) ids = omap (failed_by clock items request) ids);
      [|by apply H].
    induction ids as [|id ids IH]; intros Hi; [done|]. rewrite !omap_step.
    rewrite (proj2 (proj2 (Hnone id ltac:(apply Hi; by left)))). f_equal. apply IH.
    intros x Hx. apply Hi. by right. }
  repeat split; [|done| |done|].
  - etrans; [|apply list_fmap_id]. apply list_fmap_ext. intros ? x _. unfold settled_item at 1.
    destruct (decide _) as [Hin|]; [|done]. by rewrite (proj1 (Hnone _ Hin)).
  - apply elem_of_nil_inv. intros x (id & Hin & E)%list_elem_of_omap.
    by rewrite (proj1 (proj2 (Hnone id Hin))) in E.
  - pose proof (outcome_counts clock' after request (br_ids request)) as H1.
    pose proof (outcome_counts clock items request (br_ids request)) as H2.
    rewrite Hupd, Hfail in H1. cbn in H1. lia.
Qed.
End Retry.

Definition toy_queue : list TriageItemState := [toy_item "a" ts_new; toy_item "b" ts_resolved].
Lemma bulk_spec_witness :
  percentComplete (toy_bulk ["a"; "b"] "new")
    (applyBulkTriage "t1" toy_queue (toy_bulk ["a"; "b"] "new")) = 100.
Proof.
  apply (bulk_spec "t1" toy_queue (toy_bulk ["a"; "b"] "new")).
  - apply (bool_decide_eq_true_1 _). vm_compute. reflexivity.
  - discriminate.
  - vm_compute. discriminate.
  - vm_compute. reflexivity.
Defined.
Lemma bulk_retry_safe_witness :
  res_updated (applyBulkTriage "t2" (res_items (applyBulkTriage "t1" toy_queue
     (toy_bulk ["a"; "b"] "triaged"))) (toy_bulk ["a"; "b"] "triaged")) = [].
Proof.
  apply (bulk_retry_safe "t1" "t2" toy_queue (toy_bulk ["a"; "b"] "triaged")).
  apply (bool_decide_eq_true_1 _). vm_compute. reflexivity.
Defined.

(** ** The stored queue *)

Lemma itemKey_inj a b : itemKey a = itemKey b -> a = b.
Proof.
  unfold itemKey, cat. cbn [foldr]. rewrite !append_empty. apply append_inj_l.
Qed.
(** What every operation keeps: items are stored under their own id, and the
    index enumerates them, within the number [list] reads. *)
Definition db_wf (db : TriageDb) : Prop :=
  NoDup (db_index db) /\ (length (db_index db) <= MAX_ITEMS)%nat /\
  forall id item, queue_get db id = Some item -> ti_id item = id /\ id ∈ db_index db.

Lemma queue_get_put db item id :
  queue_get (put_item db item) id = if decide (ti_id item = id) then Some item else queue_get db id.
Proof.
  unfold queue_get, put_item. cbn [db_records]. destruct (decide (ti_id item = id)) as [->|E].
  - by rewrite lookup_insert_eq.
  - rewrite lookup_insert_ne; [done|]. intros H. by apply itemKey_inj in H.
Qed.
(** Saving items that are already indexed keeps the index. *)
Lemma save_items l db id :
  Forall (fun i => ti_id i ∈ db_index db) l ->
  db_index (foldl put_item db l) = db_index db /\
  queue_get (foldl put_item db l) id
  = match last (filter (fun i => ti_id i = id) l) with Some i => Some i | None => queue_get db id end.
Proof.
  revert db. induction l as [|i l IH]; intros db H; [done|]. apply Forall_cons_1 in H as [Hi Hl].
  assert (Hx : db_index (put_item db i) = db_index db) by (unfold put_item; cbn [db_index]; by rewrite decide_True).
  cbn [foldl]. destruct (IH (put_item db i)) as [H1 H2]; [by rewrite Hx|].
  rewrite H1, H2, Hx, queue_get_put, filter_cons. split; [done|].
  destruct (decide (ti_id i = id)); [|done]. rewrite last_cons. by destruct (last _).
Qed.

Section Stored.
Context (db : TriageDb) (Hdb : db_wf db).

Lemma listed_get orgId id :
  listed db orgId id
  = item ← queue_get db id;
    if match orgId with Some o => bool_decide (ti_orgId item <> o) | None => false end then None
    else Some item.
Proof. done. Qed.
Lemma listed_Some orgId id item :
  listed db orgId id = Some item ->
  queue_get db id = Some item /\ match orgId with Some o => ti_orgId item = o | None => True end.
Proof.
  rewrite listed_get. destruct (queue_get db id) as [i|]; [|done]. cbn.
  destruct orgId as [o|]; [|by intros [= ->]].
  destruct (bool_decide_reflect (ti_orgId i <> o)); [done|]. intros [= ->]. split; [done|].
  destruct (decide (ti_orgId item = o)); [done|by exfalso].
Qed.
Lemma queue_list_ids orgId : NoDup (ti_id <$> queue_list db orgId).
Proof.
  unfold queue_list. rewrite (sort_by_perm queue_le). rewrite take_ge by apply Hdb.
  destruct Hdb as (Hn & _ & Hids).
  assert (Hk : forall id item, queue_get db id = Some item -> ti_id item = id)
    by (intros id item H; by apply Hids in H as [? _]).
  clear Hids Hdb. induction Hn as [|id l Hid Hl IH]; [constructor|].
  rewrite omap_step, fmap_app. destruct (listed db orgId id) as [item|] eqn:E; [|exact IH].
  cbn. apply NoDup_cons. split; [|done]. apply listed_Some in E as [E _].
  apply Hk in E as ->. intros (x & Hx & Hi)%list_elem_of_fmap.
  apply list_elem_of_omap in Hi as (id' & Hin & E). apply listed_Some in E as [E _].
  apply Hk in E. congruence.
Qed.
Lemma queue_list_by_id orgId id : by_id (queue_list db orgId) id = listed db orgId id.
Proof.
  destruct (listed db orgId id) as [item|] eqn:E.
  - apply by_id_Some; [apply queue_list_ids|]. pose proof (listed_Some _ _ _ E) as [Hg _].
    apply Hdb in Hg as [Hid Hin]. split; [|done]. unfold queue_list. apply elem_of_sort_by.
    rewrite take_ge by apply Hdb. apply list_elem_of_omap. by exists id.
  - destruct (by_id (queue_list db orgId) id) as [item|] eqn:E'; [|done].
    apply by_id_Some in E' as [Hi <-]; [|apply queue_list_ids].
    unfold queue_list, sortQueue in Hi. rewrite elem_of_sort_by in Hi.
    apply list_elem_of_omap in Hi as (id & _ & Hl). pose proof (listed_Some _ _ _ Hl) as [Hg _].
    apply Hdb in Hg as [Hg _]. congruence.
Qed.

Context (clock : string) (request : BulkTriageRequest).
Hypothesis Hreq : NoDup (br_ids request) /\ (length (br_ids request) <= MAX_ITEMS)%nat.
Notation items := (queue_list db (br_orgId request)).
Notation updated_by := (updated_by clock items request).

Lemma updated_filter id ids :
  NoDup ids ->
  filter (fun i => ti_id i = id) (omap updated_by ids)
  = if decide (id ∈ ids) then option_list (updated_by id) else [].
Proof.
  induction 1 as [|x l Hx Hl IH]; [done|]. rewrite omap_step, filter_app, IH.
  destruct (decide (x = id)) as [->|E].
  - rewrite decide_False, decide_True, app_nil_r by (done || by left).
    destruct (updated_by id) as [i|] eqn:Eu; [|done]. cbn [option_list option_rect].
    rewrite filter_cons, decide_True; [done|]. by eapply updated_by_id; [apply queue_list_ids|].
  - rewrite (filter_none (fun i => ti_id i = id)).
    + cbn. destruct (decide (id ∈ l)); [by rewrite decide_True by (by right)|].
      rewrite decide_False; [done|]. by intros [?|?]%elem_of_cons.
    + intros i Hi. destruct (updated_by x) as [y|] eqn:Eu; [|by apply not_elem_of_nil in Hi].
      apply list_elem_of_singleton in Hi as ->. apply updated_by_id in Eu; [|apply queue_list_ids].
      congruence.
Qed.
(** The stored queue after [apply]. *)
Lemma queue_apply_get :
  let '(db', r) := queue_apply clock db request in
  db_wf db' /\ r = applyBulkTriage clock items request /\
  forall id, queue_get db' id
    = if decide (id ∈ br_ids request)
      then match updated_by id with Some item => Some item | None => queue_get db id end
      else queue_get db id.
Proof.
  unfold queue_apply, apply_read, apply_write.
  rewrite (applyBulkTriage_eq _ _ _ (queue_list_ids _)). cbn [res_updated].
  assert (Hidx : Forall (fun i => ti_id i ∈ db_index db) (omap updated_by (br_ids request))).
  { apply Forall_forall. intros i (id & _ & E)%list_elem_of_omap.
    apply updated_by_Some in E as (old & Ho & Hi & _). rewrite queue_list_by_id in Ho.
    apply listed_Some in Ho as [Ho _]. apply Hdb in Ho as [Ho Hin]. by rewrite Hi, Ho. }
  assert (Hlen : (length (omap updated_by (br_ids request)) <= MAX_ITEMS)%nat).
  { pose proof (outcome_counts clock items request (br_ids request)). destruct Hreq. lia. }
  set (l := omap updated_by (br_ids request)) in *.
  assert (E : match l with [] => db | _ => queue_save db l end = foldl put_item db l).
  { destruct l; [done|]. unfold queue_save. by rewrite take_ge. }
  rewrite E. clear E.
  assert (Hget : forall id, queue_get (foldl put_item db l) id
     = if decide (id ∈ br_ids request)
       then match updated_by id with Some item => Some item | None => queue_get db id end
       else queue_get db id).
  { intros id. rewrite (proj2 (save_items l db id Hidx)). subst l.
    rewrite updated_filter by apply Hreq. destruct (decide _); [|done].
    by destruct (updated_by id). }
  split; [|split; [done|exact Hget]]. unfold db_wf.
  rewrite (proj1 (save_items l db EmptyString Hidx)). split; [apply Hdb|split; [apply Hdb|]].
  intros id item. rewrite Hget. destruct (decide (id ∈ br_ids request)); [|apply Hdb].
  destruct (updated_by id) as [i|] eqn:Eu; [|apply Hdb]. intros [= <-].
  pose proof (updated_by_id _ _ _ (queue_list_ids _) _ _ Eu) as Hid. split; [done|].
  rewrite Forall_forall in Hidx. rewrite <- Hid. apply Hidx. subst l.
  apply list_elem_of_omap. by exists id.
Qed.
Lemma audited_filter id ids :
  NoDup ids ->
  filter (fun t => ta_itemId t = id) (omap (audited_by clock items request) ids)
  = if decide (id ∈ ids) then option_list (audited_by clock items request id) else [].
Proof.
  assert (Haud : forall x t, audited_by clock items request x = Some t -> ta_itemId t = x).
  { intros x t. unfold audited_by. destruct (bulk_outcome _ _ _ x); try done. by intros [= <-]. }
  induction 1 as [|x l Hx Hl IH]; [done|]. rewrite omap_step, filter_app, IH.
  destruct (decide (x = id)) as [->|E].
  - rewrite decide_False, decide_True, app_nil_r by (done || by left).
    destruct (audited_by _ _ _ id) as [t|] eqn:Eu; [|done]. cbn [option_list option_rect].
    rewrite filter_cons, decide_True; [done|]. by apply Haud.
  - rewrite (filter_none (fun t => ta_itemId t = id)).
    + cbn. destruct (decide (id ∈ l)); [by rewrite decide_True by (by right)|].
      rewrite decide_False; [done|]. by intros [?|?]%elem_of_cons.
    + intros i Hi. destruct (audited_by _ _ _ x) as [y|] eqn:Eu; [|by apply not_elem_of_nil in Hi].
      apply list_elem_of_singleton in Hi as ->. apply Haud in Eu. congruence.
Qed.
End Stored.

Lemma parse_ids_ok raw ids out :
  parse_ids raw ids = Some out -> NoDup ids -> NoDup out /\ (length ids <= length out)%nat.
Proof.
  revert ids. induction raw as [|x raw IH]; intros ids; cbn [parse_ids].
  { by intros [= ->]. }
  destruct x; try done. destruct (decide (trim s = EmptyString)); [done|].
  destruct (decide (trim s ∈ ids)) as [|Hn]; [by apply IH|]. intros H Hids.
  destruct (IH _ H) as [H1 H2].
  - apply NoDup_app. repeat split; [done| |by repeat constructor; apply not_elem_of_nil].
    intros y Hy Hs. apply list_elem_of_singleton in Hs as ->. done.
  - split; [done|]. rewrite length_app in H2. cbn in H2. lia.
Qed.
(** The ids of an accepted request are distinct and not too many. *)
Lemma parseBulkTriageRequest_ok body request :
  parseBulkTriageRequest body = Ok request ->
  NoDup (br_ids request) /\ Z.of_nat (length (br_ids request)) <= MAX_BULK_IDS.
Proof.
  unfold parseBulkTriageRequest. destruct body as [| | | | | |o]; try done.
  destruct (prop "ids" o) as [[| | | | |[|x raw]|]|]; try done.
  destruct (parse_ids (x :: raw) []) as [ids|] eqn:E; [|done].
  cbn [mbind result_bind]. destruct (Z.ltb_spec MAX_BULK_IDS (Z.of_nat (length ids))); [done|].
  destruct (decide _); [done|]. intros H'.
  assert (br_ids request = ids) as ->.
  { destruct (prop "status" o), (prop "assignee" o), (prop "priority" o); try done;
    repeat (apply bind_Ok in H' as (? & _ & H')); by injection H' as <-. }
  split; [|done]. by apply (parse_ids_ok (x :: raw) []); [|constructor].
Qed.

(** ** The audit trail *)

Definition of_item (id : string) (trail : list (Z * TriageAuditRecord)) : list TriageAuditRecord :=
  filter (fun t => ta_itemId t = id) trail.*2.
(** Each record starts where the one before ended, on an edge of the workflow. *)
Fixpoint snapshots_path (s : TriageSnapshot) (trail : list TriageAuditRecord) (t : TriageSnapshot)
  : Prop :=
  match trail with
  | [] => s = t
  | r :: rest =>
      ta_before r = s /\ ta_after r <> s /\
      canTransition (sn_status s) (sn_status (ta_after r)) = true /\
      snapshots_path (ta_after r) rest t
  end.
Definition trail_events (trail : list (Z * TriageAuditRecord)) : list audit_event :=
  (fun t => (true, triage_event t.2, t.1)) <$> trail.

Lemma snapshots_path_app s a t b u :
  snapshots_path s a t -> snapshots_path t b u -> snapshots_path s (a ++ b) u.
Proof.
  revert s. induction a as [|r a IH]; intros s; cbn; [by intros ->|].
  intros (H1 & H2 & H3 & H4) Hb. auto.
Qed.
Lemma of_item_app id a b : of_item id (a ++ b) = of_item id a ++ of_item id b.
Proof. unfold of_item. by rewrite fmap_app, filter_app. Qed.
Lemma of_item_now id now l :
  of_item id (pair now <$> l) = filter (fun t => ta_itemId t = id) l.
Proof. unfold of_item. f_equal. rewrite <- list_fmap_compose. apply list_fmap_id. Qed.
(** What one request does to one item. *)
Lemma apply_item clock db request id :
  db_wf db -> NoDup (br_ids request) /\ (length (br_ids request) <= MAX_ITEMS)%nat ->
  let '(db', r) := queue_apply clock db request in
  let added := filter (fun t => ta_itemId t = id) (res_audit r) in
  match queue_get db id with
  | Some item =>
      exists item', queue_get db' id = Some item' /\
        ti_version item' = ti_version item + Z.of_nat (length added) /\
        ti_orgId item' = ti_orgId item /\
        snapshots_path (snapshotOf item) added (snapshotOf item') /\
        (match br_orgId request with Some o => o <> ti_orgId item | None => False end -> item' = item)
  | None => queue_get db' id = None /\ added = []
  end.
Proof.
  intros Hdb Hreq. pose proof (queue_apply_get db Hdb clock request Hreq) as H.
  destruct (queue_apply clock db request) as [db' r]. destruct H as (_ & -> & Hget).
  rewrite (applyBulkTriage_eq _ _ _ (queue_list_ids db Hdb _)). cbn [res_audit].
  rewrite audited_filter by apply Hreq. rewrite Hget.
  destruct (decide (id ∈ br_ids request)) as [Hin|].
  2: { destruct (queue_get db id) as [item|]; [|done]. exists item. cbn. repeat split; [lia|done..]. }
  destruct (updated_by clock (queue_list db (br_orgId request)) request id) as [item'|] eqn:Eu.
  - destruct (updated_by_Some _ _ _ _ _ Eu)
      as (old & Ho & Hi & Horg & Hc & Hv & Hs & Hforeign & f & ->).
    rewrite queue_list_by_id in Ho by done. apply listed_Some in Ho as [Ho Ho'].
    rewrite Ho. exists item'. cbn. repeat split; try done; try congruence; try lia.
    destruct (br_orgId request) as [o|]; [|done]. intros Hne. exfalso. apply Hne. by rewrite (Hforeign o).
  - assert (audited_by clock (queue_list db (br_orgId request)) request id = None) as ->.
    { unfold updated_by in Eu. unfold audited_by. by destruct (bulk_outcome _ _ _ id). }
    destruct (queue_get db id) as [item|]; [|done]. exists item. cbn. repeat split; [lia|done..].
Qed.

Section Trail.
Context (digest : json -> string) (strip_url : string -> option string).

(** The queue, the audit log, and the audit records with their times. *)
Definition queue_state : Type := TriageDb * list AuditEntry * list (Z * TriageAuditRecord).
(** A request of [POST /api/triage/queue]: its time, query parameter and body. *)
Definition queue_post : Type := Z * option string * json.
Definition post_step (st : queue_state) (p : queue_post) : queue_state :=
  let '(db, log, trail) := st in
  let '(now, param, body) := p in
  let '(db', log', r) := post_queue digest strip_url now db log param body in
  (db', log', trail ++ match r with Ok r => pair now <$> res_audit r | Err _ => [] end).
Lemma record_trail now records log :
  recordTriageAudit digest strip_url now log records
  = foldl (record_event digest strip_url) log (trail_events (pair now <$> records)).
Proof.
  revert log. induction records as [|r l IH]; intros log; [done|]. cbn. by rewrite <- IH.
Qed.

(** The state reached from [db0] with an empty log. *)
Definition trail_inv (db0 : TriageDb) (st : queue_state) : Prop :=
  let '(db, log, trail) := st in
  db_wf db /\ log = log_after digest strip_url (trail_events trail) /\
  forall id,
    match queue_get db0 id with
    | Some item =>
        exists item', queue_get db id = Some item' /\
          ti_version item' = ti_version item + Z.of_nat (length (of_item id trail)) /\
          ti_orgId item' = ti_orgId item /\
          snapshots_path (snapshotOf item) (of_item id trail) (snapshotOf item')
    | None => queue_get db id = None /\ of_item id trail = []
    end.
Lemma trail_inv_step db0 st p : trail_inv db0 st -> trail_inv db0 (post_step st p).
Proof.
  destruct st as [[db log] trail], p as [[now param] body]. intros (Hdb & Hlog & Hitems).
  unfold post_step, post_queue. destruct (parseBulkTriageRequest body) as [input|e] eqn:E.
  2: { unfold trail_inv. by rewrite app_nil_r. }
  apply parseBulkTriageRequest_ok in E as [Hn Hle]. unfold MAX_BULK_IDS in Hle.
  set (request := mkBulk _ _ _ _ _ _ _).
  assert (Hreq : NoDup (br_ids request) /\ (length (br_ids request) <= MAX_ITEMS)%nat)
    by (cbn; unfold MAX_ITEMS; split; [done|lia]).
  pose proof (queue_apply_get db Hdb (to_iso_string now) request Hreq) as Hwf.
  pose proof (fun id => apply_item (to_iso_string now) db request id Hdb Hreq) as Hone.
  destruct (queue_apply (to_iso_string now) db request) as [db' r].
  destruct Hwf as (Hwf & _ & _). split; [done|split].
  - rewrite record_trail, Hlog. unfold log_after, trail_events. by rewrite fmap_app, foldl_app.
  - intros id. specialize (Hitems id). specialize (Hone id). cbn zeta in Hone.
    rewrite of_item_app, of_item_now. destruct (queue_get db0 id) as [item|].
    + destruct Hitems as (item1 & Hg & Hv & Ho & Hp). rewrite Hg in Hone.
      destruct Hone as (item2 & Hg2 & Hv2 & Ho2 & Hp2 & _). exists item2.
      rewrite length_app. repeat split; [done|lia|congruence|by eapply snapshots_path_app].
    + destruct Hitems as [Hg Ht]. rewrite Hg in Hone. destruct Hone as [Hg2 Hf].
      by rewrite Ht, Hf.
Qed.

(** C29. After any sequence of requests to the queue, served one after the
    other: the audit log holds exactly the accepted changes, in order; the
    records of each item lead from its first snapshot to its present one
    without a gap, every step along an edge of the workflow; its version has
    grown by the number of its records; and no other item appears in the log. *)
Theorem triage_trail (db : TriageDb) (posts : list queue_post) :
  db_wf db ->
  let '(db', log, trail) := foldl post_step (db, [], []) posts in
  Forall2 (records strip_url) (trail_events trail) log /\ db_wf db' /\
  forall id,
    match queue_get db id with
    | Some item =>
        exists item', queue_get db' id = Some item' /\ ti_id item' = id /\
          ti_orgId item' = ti_orgId item /\
          ti_version item' = ti_version item + Z.of_nat (length (of_item id trail)) /\
          snapshots_path (snapshotOf item) (of_item id trail) (snapshotOf item')
    | None => queue_get db' id = None /\ of_item id trail = []
    end.
Proof.
  intros Hdb.
  assert (H : trail_inv db (foldl post_step (db, [], []) posts)).
  { assert (H0 : trail_inv db (db, [], [])).
    { split; [done|split; [done|]]. intros id. destruct (queue_get db id) as [item|]; [|done].
      exists item. cbn. repeat split; lia. }
    revert H0. generalize ((db, [], []) : queue_state).
    induction posts as [|p l IH]; intros st H; [done|]. cbn. by apply IH, trail_inv_step. }
  destruct (foldl post_step (db, [], []) posts) as [[db' log] trail].
  destruct H as (Hwf & -> & Hitems). split; [|split; [done|]].
  - pose proof (proj2 (log_after_inv digest strip_url (trail_events trail))) as H.
    unfold stored_events in H. rewrite filter_all in H; [done|].
    intros e (t & -> & _)%list_elem_of_fmap. done.
  - intros id. specialize (Hitems id). destruct (queue_get db id) as [item|]; [|done].
    destruct Hitems as (item' & Hg & Hv & Ho & Hp). exists item'.
    repeat split; try done. by apply Hwf in Hg as [? _].
Qed.
End Trail.

(** A request for one organisation never touches an item of another, and
    through the store such an item is reported as not found: the code
    [forbidden] is not reachable. *)
Theorem queue_isolated (clock : string) (db : TriageDb) (request : BulkTriageRequest) (o : string) :
  db_wf db -> NoDup (br_ids request) -> (length (br_ids request) <= MAX_ITEMS)%nat ->
  br_orgId request = Some o ->
  let '(db', r) := queue_apply clock db request in
  (forall id item, queue_get db id = Some item -> ti_orgId item <> o ->
     queue_get db' id = Some item /\
     (id ∈ br_ids request -> mkFailure id bf_not_found ∈ res_failed r)) /\
  Forall (fun f => bf_code f <> bf_forbidden) (res_failed r).
Proof.
  intros Hdb Hn Hl Ho.
  pose proof (queue_apply_get db Hdb clock request (conj Hn Hl)) as H.
  pose proof (fun id => apply_item clock db request id Hdb (conj Hn Hl)) as Hone.
  destruct (queue_apply clock db request) as [db' r]. destruct H as (_ & -> & _).
  rewrite (applyBulkTriage_eq _ _ _ (queue_list_ids db Hdb _)) in *. cbn [res_failed] in *.
  split.
  - intros id item Hg Horg. specialize (Hone id). rewrite Hg in Hone.
    destruct Hone as (item' & Hg' & _ & _ & _ & Hsame). rewrite Ho in Hsame.
    rewrite Hg', (Hsame (not_eq_sym Horg)). split; [done|]. intros Hin.
    apply list_elem_of_omap. exists id. split; [done|]. unfold failed_by, bulk_outcome.
    rewrite queue_list_by_id, listed_get, Hg, Ho by done. cbn. by rewrite bool_decide_true.
  - apply Forall_forall. intros f (id & _ & Hf)%list_elem_of_omap. unfold failed_by, bulk_outcome in Hf.
    rewrite queue_list_by_id in Hf by done.
    destruct (listed db (br_orgId request) id) as [item|] eqn:E; [|by injection Hf as <-].
    apply listed_Some in E as [_ E]. rewrite Ho in E, Hf.
    rewrite bool_decide_false in Hf by (intros H; by apply H).
    destruct (transitionTriageItem _ _ _) as [|? []]; try done. by injection Hf as <-.
Qed.

(** ** The queue as it is listed *)

Lemma queue_le_total a b : queue_le a b = true \/ queue_le b a = true.
Proof.
  unfold queue_le. destruct (Z.eqb_spec (PRIORITY_RANK (ti_priority a)) (PRIORITY_RANK (ti_priority b))) as [->|E].
  - rewrite Z.eqb_refl. cbn [negb].
    destruct (Z.eqb_spec (ti_occurrences a) (ti_occurrences b)) as [->|E].
    + rewrite Z.eqb_refl. apply str_le_total.
    + rewrite (proj2 (Z.eqb_neq (ti_occurrences b) _)) by lia. cbn. rewrite !Z.ltb_lt. lia.
  - rewrite (proj2 (Z.eqb_neq (PRIORITY_RANK (ti_priority b)) _)) by lia. cbn. rewrite !Z.ltb_lt. lia.
Qed.
(** The comparison as a lexicographic order. *)
Lemma queue_le_spec a b :
  queue_le a b = true <->
  let pa := PRIORITY_RANK (ti_priority a) in let pb := PRIORITY_RANK (ti_priority b) in
  pa < pb \/ pa = pb /\ (ti_occurrences b < ti_occurrences a \/
                         ti_occurrences a = ti_occurrences b /\ str_le (ti_id a) (ti_id b) = true).
Proof.
  unfold queue_le. cbn zeta.
  destruct (Z.eqb_spec (PRIORITY_RANK (ti_priority a)) (PRIORITY_RANK (ti_priority b))); cbn [negb].
  - destruct (Z.eqb_spec (ti_occurrences a) (ti_occurrences b)); cbn [negb];
      rewrite ?Z.ltb_lt; split; intros H; try lia; [by right; split; [|right]|].
    destruct H as [H|[_ [H|[_ H]]]]; [lia|lia|done].
  - rewrite Z.ltb_lt. lia.
Qed.
Lemma queue_le_trans a b c : queue_le a b = true -> queue_le b c = true -> queue_le a c = true.
Proof.
  rewrite !queue_le_spec. cbn zeta.
  intros [H1|(H1 & [H2|(H2 & H3)])] [H4|(H4 & [H5|(H5 & H6)])]; try lia.
  right. split; [lia|]. right. split; [lia|]. by eapply str_le_trans.
Qed.
(** The listing depends on the items alone: not on the order of the index. *)
Theorem queue_order (l l' : list TriageItemState) :
  NoDup (ti_id <$> l) -> l ≡ₚ l' -> sortQueue l = sortQueue l'.
Proof.
  intros Hn Hp. unfold sortQueue.
  apply (StronglySorted_unique_strong (fun a b => queue_le a b = true)).
  - intros a b Ha Hb H1 H2. rewrite elem_of_sort_by in Ha, Hb. rewrite <- Hp in Hb.
    apply queue_le_spec in H1, H2. cbn zeta in H1, H2.
    assert (E : ti_id a = ti_id b).
    { destruct H1 as [?|(? & [?|(? & H1)])], H2 as [?|(? & [?|(? & H2)])]; try lia.
      by apply str_le_antisym. }
    apply list_elem_of_lookup in Ha as [i Hi]. apply list_elem_of_lookup in Hb as [j Hj].
    assert (i = j) as ->; [|congruence].
    apply (NoDup_lookup _ i j (ti_id a) Hn); rewrite list_lookup_fmap; [by rewrite Hi|by rewrite Hj, E].
  - apply sort_by_sorted; [apply queue_le_total|apply queue_le_trans].
  - apply sort_by_sorted; [apply queue_le_total|apply queue_le_trans].
  - by rewrite !sort_by_perm.
Qed.

(** ** Seeding *)

Lemma seed_step_keeps acc item id :
  is_Some (db_records acc.1 !! itemKey id) ->
  db_records (seed_step acc item).1 !! itemKey id = db_records acc.1 !! itemKey id.
Proof.
  intros Hs. unfold seed_step. destruct (db_records acc.1 !! itemKey (ti_id item)) eqn:E; [done|].
  cbn [fst put_item db_records]. rewrite lookup_insert_ne; [done|]. intros Hk. rewrite Hk in E. rewrite E in Hs. by destruct Hs.
Qed.
Lemma seed_stored acc item :
  is_Some (db_records (seed_step acc item).1 !! itemKey (ti_id item)).
Proof.
  unfold seed_step. destruct (db_records acc.1 !! itemKey (ti_id item)) eqn:E; [by rewrite E|].
  cbn [fst put_item db_records]. by rewrite lookup_insert_eq.
Qed.
Lemma seed_fold_keeps l acc id :
  is_Some (db_records acc.1 !! itemKey id) ->
  db_records (foldl seed_step acc l).1 !! itemKey id = db_records acc.1 !! itemKey id.
Proof.
  revert acc. induction l as [|x l IH]; intros acc Hs; [done|]. cbn [foldl].
  rewrite IH; rewrite seed_step_keeps; done.
Qed.
Lemma seed_fold_stored l acc :
  Forall (fun i => is_Some (db_records (foldl seed_step acc l).1 !! itemKey (ti_id i))) l.
Proof.
  revert acc. induction l as [|x l IH]; intros acc; cbn [foldl]; constructor; [|apply IH].
  rewrite seed_fold_keeps; apply seed_stored.
Qed.
(** Seeding never touches a stored row, and seeding again does nothing: reading
    the queue after a restart keeps every assignment. *)
Theorem queue_seed_once (db : TriageDb) (items : list TriageItemState) :
  (forall id, is_Some (db_records db !! itemKey id) ->
     db_records (queue_seed db items).1 !! itemKey id = db_records db !! itemKey id) /\
  queue_seed (queue_seed db items).1 items = ((queue_seed db items).1, 0).
Proof.
  split; [intros id Hs; by apply (seed_fold_keeps _ (db, 0))|]. unfold queue_seed.
  pose proof (seed_fold_stored (take MAX_ITEMS items) (db, 0)) as H.
  set (db' := (foldl seed_step (db, 0) (take MAX_ITEMS items)).1) in *. clearbody db'.
  induction H as [|x l [r Hr] Hl IH]; [done|]. cbn [foldl]. unfold seed_step at 2. cbn [fst].
  by rewrite Hr.
Qed.

(** ** Concrete queues *)

Lemma db_wf_put db item :
  db_wf db -> (length (db_index db) < MAX_ITEMS)%nat -> db_wf (put_item db item).
Proof.
  intros (Hn & Hl & Hids) Hlt.
  assert (Hin : forall id, id ∈ db_index db \/ id = ti_id item -> id ∈ db_index (put_item db item)).
  { intros id H. unfold put_item. cbn [db_index]. destruct (decide _) as [Hd|].
    - destruct H as [?| ->]; done.
    - apply elem_of_app. destruct H as [?| ->]; [by left|right; by left]. }
  split; [|split].
  - unfold put_item. cbn [db_index]. destruct (decide _) as [|Hd]; [done|].
    apply NoDup_app. split; [done|]. split; [|apply NoDup_singleton].
    intros x Hx Hs. apply list_elem_of_singleton in Hs as ->. done.
  - unfold put_item. cbn [db_index]. destruct (decide _); [lia|]. rewrite length_app. cbn. lia.
  - intros id it H. rewrite queue_get_put in H. destruct (decide (ti_id item = id)) as [<-|E].
    + injection H as <-. split; [done|]. apply Hin. by right.
    + destruct (Hids id it H) as [H1 H2]. split; [done|]. apply Hin. by left.
Qed.
Definition empty_db : TriageDb := mkDb ∅ [].
Lemma empty_db_wf : db_wf empty_db.
Proof.
  split; [constructor|split; [cbn; lia|]]. intros id item H. unfold queue_get in H. cbn in H.
  by rewrite lookup_empty in H.
Qed.
Definition toy_db : TriageDb := foldl put_item empty_db toy_queue.
Lemma toy_db_wf : db_wf toy_db.
Proof.
  unfold toy_db. cbn [foldl toy_queue].
  repeat (apply db_wf_put; [|apply Nat.ltb_lt; vm_compute; reflexivity]). exact empty_db_wf.
Qed.
Definition toy_posts : list queue_post :=
  let post status := JObj [("ids", JArr [JStr "a"]); ("actor", JStr "ann"); ("status", JStr status)]%string in
  [(1000, Some "org"%string, post "triaged"%string); (2000, Some "org"%string, post "resolved"%string);
   (3000, Some "other"%string, post "new"%string)].
Lemma triage_trail_witness :
  let '(db', log, trail) := foldl (post_step toy_digest Some) (toy_db, [], []) toy_posts in
  db_wf toy_db /\ Forall2 (records Some) (trail_events trail) log /\
  (ti_status <$> queue_get db' "a") = Some ts_resolved /\ length (of_item "a" trail) = 2%nat.
Proof.
  pose proof (triage_trail toy_digest Some toy_db toy_posts toy_db_wf) as H.
  destruct (foldl (post_step toy_digest Some) (toy_db, [], []) toy_posts) as [[db' log] trail] eqn:E.
  destruct H as (H & _). split; [exact toy_db_wf|]. split; [exact H|].
  vm_compute in E. injection E as <- _ <-. vm_compute. split; reflexivity.
Defined.
Lemma queue_isolated_witness :
  let request := mkBulk ["a"]%string (Some "triaged"%string) None None "ann" (Some "other"%string) None in
  mkFailure "a" bf_not_found ∈ res_failed (queue_apply "t" toy_db request).2.
Proof.
  cbn zeta. set (request := mkBulk _ _ _ _ _ _ _).
  pose proof (queue_isolated "t" toy_db request "other" toy_db_wf ltac:(apply NoDup_singleton)
                ltac:(cbn; unfold MAX_ITEMS; lia) eq_refl) as H.
  destruct (queue_apply "t" toy_db request) as [db' r]. destruct H as [H _].
  apply (H "a"%string (toy_item "a" ts_new)); [vm_compute; reflexivity|discriminate|by left].
Defined.

(** Two requests that interleave between the reads and the writes of [apply]:
    both report their change and both records start from the same snapshot and
    reach the same version, but the stored item has only the second change. *)
Theorem lost_update :
  let assign := mkBulk ["a"]%string None (Some (Some "bob"%string)) None "bob" (Some "org"%string) None in
  let move := mkBulk ["a"]%string (Some "triaged"%string) None None "ann" (Some "org"%string) None in
  let r1 := apply_read "t1" toy_db move in
  let r2 := apply_read "t2" toy_db assign in
  let db' := apply_write (apply_write toy_db r1) r2 in
  (ti_status <$> res_updated r1) = [ts_triaged] /\ (ti_assignee <$> res_updated r2) = [Some "bob"%string] /\
  (ti_version <$> res_updated r1) = (ti_version <$> res_updated r2) /\
  (ti_status <$> queue_get db' "a") = Some ts_new.
Proof. vm_compute. repeat split. Qed.
