(* ===== verification/Tenancy.v ===== *)
(** [lib/tenancy/]: tenant storage keys ([storage-keys.ts]), the resolution of a
    scope from memberships ([tenant-scope.ts]), the scoped repository
    ([scoped-repository.ts]) and the default-org backfill ([backfill.ts]).

    A JavaScript [Map] of objects is a list of properties ([fields]), in
    insertion order.  [randomBytes(16)] is an argument; denials are the list of
    audit inputs they send. *)

From S2P Require Import Prelude JsDate JsString JsValue CronParser Idempotency AuditLog.
From stdpp Require Import base list sets fin_sets gmap strings numbers sorting.
From Stdlib Require Import ZArith Lia Ascii.
#[local] Open Scope Z_scope.

(** ** Storage keys *)

Definition is_base32 (c : ascii) : bool :=
  ((97 <=? code c) && (code c <=? 122)) || ((50 <=? code c) && (code c <=? 55)).
(** [(?:[a-z2-7]{26}|default)$]. *)
Definition is_id_body (s : string) : bool :=
  ((js_length s =? 26) && all_chars is_base32 s) || bool_decide (s = "default"%string).
Definition is_id_after (prefix s : string) : bool := from_option is_id_body false (strip_str prefix s).
Definition ORG_ID_PATTERN (s : string) : bool := is_id_after "org_" s.
Definition PROJECT_ID_PATTERN (s : string) : bool := is_id_after "prj_" s.
Definition is_lower_letter (c : ascii) : bool := (97 <=? code c) && (code c <=? 122).
(** [/^[a-z]{2,8}$/]. *)
Definition is_collection (s : string) : bool :=
  (2 <=? js_length s) && (js_length s <=? 8) && all_chars is_lower_letter s.
(** [/^[a-z]{2,8}_[a-z2-7]{26}$/]. *)
Definition RESOURCE_ID_PATTERN (s : string) : bool :=
  match split_on "_" s with
  | [p; body] => is_collection p && (js_length body =? 26) && all_chars is_base32 body
  | _ => false
  end.
Definition DEFAULT_ORG_ID : string := "org_default".
Definition DEFAULT_PROJECT_ID : string := "prj_default".

Inductive TenancyError : Type :=
  | invalid_org_id | invalid_project_id | unsafe_key | access_denied.
Definition tenantKeyPrefix (orgId projectId : string) : result TenancyError string :=
  if negb (ORG_ID_PATTERN orgId) then Err invalid_org_id
  else if negb (PROJECT_ID_PATTERN projectId) then Err invalid_project_id
  else Ok (cat ["org/"; orgId; "/project/"; projectId; "/"]).
Definition unsafe_segment (s : string) : bool :=
  bool_decide (s = ".."%string) || bool_decide (s = "."%string) || bool_decide (s = EmptyString).
Definition joinTenantKey (prefix relativeKey : string) : result TenancyError string :=
  if bool_decide (relativeKey = EmptyString) || startsWith relativeKey "/" ||
     existsb unsafe_segment (split_on "/" relativeKey) || includes relativeKey "\"
  then Err unsafe_key
  else Ok (prefix ++ relativeKey)%string.
(** [TENANT_KEY_PATTERN]: neither kind of id holds a slash, so the parts of a
    match are the segments of the key. *)
Definition isTenantKey (key : string) : bool :=
  match split_on "/" key with
  | root :: orgId :: project :: projectId :: rest :: _ =>
      bool_decide (root = "org"%string) && ORG_ID_PATTERN orgId &&
      bool_decide (project = "project"%string) && PROJECT_ID_PATTERN projectId &&
      bool_decide (rest <> EmptyString)
  | _ => false
  end.

(** ** Scopes *)

Inductive UserRole : Type := analyst | maintainer.
Record TenantScope : Type := mkScope
  { sc_orgId : string; sc_projectId : string; sc_principal : string; sc_role : UserRole }.
Inductive ProjectSet : Type := every_project | projects (l : list string).
Record Membership : Type := mkMembership
  { ms_principal : string; ms_orgId : string; ms_projects : ProjectSet; ms_role : UserRole }.
Definition membershipsFor (memberships : list Membership) (principal : string) : list Membership :=
  filter (fun m => ms_principal m = principal) memberships.
Definition auditTenantDenial (principal target reason : string) (metadata : fields)
  : AuditEntryInput :=
  mkEntryInput tenant_access_denied target (Some principal)
    (Some (spread [("reason"%string, JStr reason)] metadata)) None.
Definition reaches (m : Membership) (projectId : string) : bool :=
  match ms_projects m with every_project => true | projects l => bool_decide (projectId ∈ l) end.
Definition listed_projects (m : Membership) : list (Membership * string) :=
  match ms_projects m with every_project => [] | projects l => pair m <$> l end.
(** [!requested.orgId || m.orgId === requested.orgId]. *)
Definition wants_org (orgId : option string) (m : Membership) : bool :=
  match truthy orgId with Some o => bool_decide (ms_orgId m = o) | None => true end.
(** The membership a request is resolved to, if any. *)
Definition scope_match (memberships : list Membership) (orgId projectId : option string)
  : option (Membership * string) :=
  let candidates :=
    filter (fun m => wants_org orgId m = true) memberships in
  match truthy projectId with
  | Some p => (fun m => (m, p)) <$> List.find (fun m => reaches m p) candidates
  | None =>
      match candidates ≫= listed_projects with
      | [one] => if forallb (fun m => match ms_projects m with every_project => false | _ => true end)
                      candidates
                 then Some one else None
      | _ => None
      end
  end.
Definition resolveTenantScope (principal : string) (directory : list Membership)
    (orgId projectId : option string) : list AuditEntryInput * result TenancyError TenantScope :=
  let memberships := membershipsFor directory principal in
  let target := cat ["org/"; default "?"%string orgId; "/project/"; default "?"%string projectId] in
  match scope_match memberships orgId projectId with
  | None =>
      ([auditTenantDenial principal target
          (match memberships with [] => "no_membership" | _ => "not_a_member" end) []],
       Err access_denied)
  | Some (m, p) =>
      ([], _ ← tenantKeyPrefix (ms_orgId m) p; Ok (mkScope (ms_orgId m) p principal (ms_role m)))
  end.
Definition systemTenantScope (orgId projectId : string) : result TenancyError TenantScope :=
  _ ← tenantKeyPrefix orgId projectId; Ok (mkScope orgId projectId "system" maintainer).

Definition BASE32 : string := "abcdefghijklmnopqrstuvwxyz234567".
Definition base32_char (i : Z) : string :=
  match String.get (Z.to_nat i) BASE32 with Some c => String c EmptyString | None => EmptyString end.
(** [while (bits >= 5)]: [bits] is below 13, so two turns are enough. *)
Fixpoint drain_bits (turns : nat) (value bits : Z) (out : string) : Z * string :=
  match turns with
  | O => (bits, out)
  | S turns' =>
      if 5 <=? bits
      then drain_bits turns' value (bits - 5)
             (out ++ base32_char (js_and (js_ushr value (bits - 5)) 31))%string
      else (bits, out)
  end.
Fixpoint encode_bytes (bytes : list Z) (bits value : Z) (out : string) : Z * Z * string :=
  match bytes with
  | [] => (bits, value, out)
  | byte :: bytes' =>
      let value := js_or (js_shl value 8) byte in
      let '(bits, out) := drain_bits 2 value (bits + 8) out in
      encode_bytes bytes' bits value out
  end.
(** [None] when the prefix is rejected. *)
Definition newTenantId (prefix : string) (bytes : list Z) : option string :=
  if negb (is_collection prefix) then None
  else
    let '(bits, value, out) := encode_bytes bytes 0 0 EmptyString in
    let out := if 0 <? bits
               then (out ++ base32_char (js_and (js_shl value (5 - bits)) 31))%string else out in
    Some (cat [prefix; "_"; out]).

Definition scopePrefix (scope : TenantScope) : result TenancyError string :=
  tenantKeyPrefix (sc_orgId scope) (sc_projectId scope).
Definition scopedStorageKey (scope : TenantScope) (relativeKey : string) : result TenancyError string :=
  prefix ← scopePrefix scope; joinTenantKey prefix relativeKey.
Definition scopedCacheKey (scope : TenantScope) (relativeKey : string) : result TenancyError string :=
  key ← scopedStorageKey scope relativeKey; Ok (cat ["cache/"; key]).
Definition isKeyInScope (scope : TenantScope) (key : string) : result TenancyError bool :=
  prefix ← scopePrefix scope;
  Ok (startsWith key prefix || startsWith key (cat ["cache/"; prefix])).

(** ** The scoped repository *)

(** [map.delete(key)]. *)
Fixpoint del_prop (name : string) (o : fields) : fields :=
  match o with
  | [] => []
  | (k, v) :: o' => if decide (k = name) then o' else (k, v) :: del_prop name o'
  end.
(** [backend] and [owners], and the denials sent to the audit sink. *)
Record Repo : Type := mkRepo
  { repo_backend : fields; repo_owners : gmap string string; repo_denials : list AuditEntryInput }.
Definition object_fields (v : json) : fields := match v with JObj o => o | _ => [] end.

Section Repository.
Context (collection : string).

(** [key.split('/').at(-1)]. *)
Definition key_id (key : string) : string := default EmptyString (last (split_on "/" key)).
(** The constructor over an existing backend. *)
Definition open_repo (backend : fields) : Repo :=
  mkRepo backend
    (foldl (fun owners kv => if decide (key_id kv.1 = EmptyString) then owners
                             else <[key_id kv.1 := kv.1]> owners) ∅ backend) [].
Definition repo_key (scope : TenantScope) (id : string) : result TenancyError string :=
  scopedStorageKey scope (cat [collection; "/"; id]).
(** [prefix] is that of the scope, already validated by [repo_key]. *)
Definition auditIfForeign (st : Repo) (scope : TenantScope) (id attemptedKey operation : string)
  : Repo :=
  match repo_owners st !! id with
  | Some owner =>
      if bool_decide (owner <> EmptyString) && bool_decide (owner <> attemptedKey)
      then mkRepo (repo_backend st) (repo_owners st)
             (repo_denials st ++
              [auditTenantDenial (sc_principal scope) (cat [collection; "/"; id]) "cross_tenant"
                 [("operation", JStr operation);
                  ("scope", JStr (default EmptyString (ok_of (scopePrefix scope))))]%string])
      else st
  | None => st
  end.

(** The operations of the class, with the arguments of a call. *)
Inductive RepoOp : Type :=
  | op_create (bytes : list Z) (record : fields)
  | op_get (id : string)
  | op_list
  | op_update (id : string) (patch : fields)
  | op_delete (id : string).
Inductive RepoAnswer : Type :=
  | ans_record (r : option json)
  | ans_list (l : list json)
  | ans_deleted (b : bool)
  | ans_throws (e : option TenancyError).

Definition repo_create (st : Repo) (scope : TenantScope) (bytes : list Z) (record : fields)
  : Repo * RepoAnswer :=
  match newTenantId collection bytes with
  | None => (st, ans_throws None)
  | Some id =>
      let stored := JObj (set_prop "id" (JStr id) record) in
      match repo_key scope id with
      | Err e => (st, ans_throws (Some e))
      | Ok key =>
          (mkRepo (set_prop key stored (repo_backend st)) (<[id := key]> (repo_owners st))
             (repo_denials st), ans_record (Some stored))
      end
  end.
Definition repo_get (st : Repo) (scope : TenantScope) (id : string) : Repo * RepoAnswer :=
  match repo_key scope id with
  | Err e => (st, ans_throws (Some e))
  | Ok key =>
      match prop key (repo_backend st) with
      | Some found => (st, ans_record (Some found))
      | None => (auditIfForeign st scope id key "read", ans_record None)
      end
  end.
Definition repo_list (st : Repo) (scope : TenantScope) : Repo * RepoAnswer :=
  match scopePrefix scope with
  | Err e => (st, ans_throws (Some e))
  | Ok p =>
      let prefix := cat [p; collection; "/"] in
      (st, ans_list (snd <$> List.filter (fun kv => startsWith kv.1 prefix) (repo_backend st)))
  end.
Definition repo_update (st : Repo) (scope : TenantScope) (id : string) (patch : fields)
  : Repo * RepoAnswer :=
  match repo_key scope id with
  | Err e => (st, ans_throws (Some e))
  | Ok key =>
      match prop key (repo_backend st) with
      | None => (auditIfForeign st scope id key "update", ans_record None)
      | Some existing =>
          let updated := JObj (set_prop "id" (JStr id) (spread (object_fields existing) patch)) in
          (mkRepo (set_prop key updated (repo_backend st)) (repo_owners st) (repo_denials st),
           ans_record (Some updated))
      end
  end.
Definition repo_delete (st : Repo) (scope : TenantScope) (id : string) : Repo * RepoAnswer :=
  match repo_key scope id with
  | Err e => (st, ans_throws (Some e))
  | Ok key =>
      match prop key (repo_backend st) with
      | Some _ =>
          (mkRepo (del_prop key (repo_backend st)) (delete id (repo_owners st)) (repo_denials st),
           ans_deleted true)
      | None => (auditIfForeign st scope id key "delete", ans_deleted false)
      end
  end.
Definition repo_step (st : Repo) (scope : TenantScope) (op : RepoOp) : Repo * RepoAnswer :=
  match op with
  | op_create bytes record => repo_create st scope bytes record
  | op_get id => repo_get st scope id
  | op_list => repo_list st scope
  | op_update id patch => repo_update st scope id patch
  | op_delete id => repo_delete st scope id
  end.
End Repository.

(** ** The backfill: the store is a map from keys to values *)

Definition hex_upper (n : Z) : string :=
  String (ascii_of_N (Z.to_N (if n <? 10 then 48 + n else 55 + n))) EmptyString.
Definition percent (n : Z) : string := cat ["%"; hex_upper (n / 16); hex_upper (n mod 16)].
(** The characters [encodeURIComponent] keeps; the others are the bytes of
    their UTF-8 form. *)
Definition is_unreserved (c : ascii) : bool :=
  ((65 <=? code c) && (code c <=? 90)) || ((97 <=? code c) && (code c <=? 122)) || is_digit c ||
  existsb (Z.eqb (code c)) [45; 95; 46; 33; 126; 42; 39; 40; 41].
Definition encode_char (c : ascii) : string :=
  if is_unreserved c then String c EmptyString
  else if code c <? 128 then percent (code c)
  else (percent (192 + code c / 64) ++ percent (128 + code c mod 64))%string.
Fixpoint encodeURIComponent (s : string) : string :=
  match s with
  | EmptyString => EmptyString
  | String c s' => (encode_char c ++ encodeURIComponent s')%string
  end.

Record Move : Type := mkMove { mv_from : string; mv_to : string }.
Record BackfillReport : Type := mkBackfill
  { bk_dryRun : bool; bk_target : string; bk_total : Z; bk_alreadyScoped : Z;
    bk_global : list string; bk_moves : list Move; bk_conflicts : list Move }.
Record BackfillOptions : Type := mkOptions
  { opt_prefixes : list string; opt_dryRun : option bool; opt_orgId : option string;
    opt_projectId : option string }.
Definition backfillTargetKey (legacyKey orgId projectId : string) : result TenancyError string :=
  prefix ← tenantKeyPrefix orgId projectId;
  joinTenantKey prefix (cat ["legacy/"; encodeURIComponent legacyKey]).
Definition tenant_owned (prefixes : list string) (key : string) : bool :=
  existsb (startsWith key) prefixes.
(** One turn of the loop over the sorted keys. *)
Definition backfill_step (store : gmap string json) (options : BackfillOptions)
    (orgId projectId : string) (report : BackfillReport) (key : string)
  : result TenancyError BackfillReport :=
  let '(mkBackfill dry target total scoped glob moves conflicts) := report in
  if isTenantKey key then Ok (mkBackfill dry target (total + 1) (scoped + 1) glob moves conflicts)
  else if negb (tenant_owned (opt_prefixes options) key)
  then Ok (mkBackfill dry target (total + 1) scoped (glob ++ [key]) moves conflicts)
  else
    to ← backfillTargetKey key orgId projectId;
    if match store !! to with
       | Some existing => bool_decide (Some existing <> store !! key)
       | None => false
       end
    then Ok (mkBackfill dry target (total + 1) scoped glob moves (conflicts ++ [mkMove key to]))
    else Ok (mkBackfill dry target (total + 1) scoped glob (moves ++ [mkMove key to]) conflicts).
Fixpoint foldl_result {E A B} (f : A -> B -> result E A) (acc : A) (l : list B) : result E A :=
  match l with
  | [] => Ok acc
  | x :: l' => acc' ← f acc x; foldl_result f acc' l'
  end.
Definition sorted_keys (store : gmap string json) : list string :=
  sort_by str_le (map_to_list store).*1.
(** [store.set(to, store.get(from)); store.delete(from)]. *)
Definition apply_move (store : gmap string json) (m : Move) : gmap string json :=
  match store !! mv_from m with
  | Some v => delete (mv_from m) (<[mv_to m := v]> store)
  | None => delete (mv_from m) store
  end.
Definition runBackfill (store : gmap string json) (options : BackfillOptions)
  : result TenancyError (gmap string json * BackfillReport) :=
  let dryRun := default true (opt_dryRun options) in
  let orgId := default DEFAULT_ORG_ID (opt_orgId options) in
  let projectId := default DEFAULT_PROJECT_ID (opt_projectId options) in
  target ← tenantKeyPrefix orgId projectId;
  report ← foldl_result (backfill_step store options orgId projectId)
             (mkBackfill dryRun target 0 0 [] [] []) (sorted_keys store);
  Ok (if dryRun then store else foldl apply_move store (bk_moves report), report).
Definition undo_move (acc : gmap string json * Z) (m : Move) : gmap string json * Z :=
  match acc.1 !! mv_to m with
  | Some v => (delete (mv_to m) (<[mv_from m := v]> acc.1), acc.2 + 1)
  | None => acc
  end.
Definition rollbackBackfill (store : gmap string json) (report : BackfillReport)
  : gmap string json * Z :=
  if bk_dryRun report then (store, 0) else foldl undo_move (store, 0) (reverse (bk_moves report)).
Definition findUnscopedKeys (keys : list string) (prefixes : list string) : list string :=
  filter (fun key => isTenantKey key = false /\ tenant_owned prefixes key = true) keys.

(** ** Prefixes of different tenants are disjoint *)

Definition no_slash (s : string) : Prop := all_chars (fun a => negb (bool_decide (a = "/"%char))) s = true.

Lemma base32_no_slash s : all_chars is_base32 s = true -> no_slash s.
Proof.
  apply all_chars_impl. intros c Hc. apply negb_true_iff, bool_decide_eq_false. by intros ->.
Qed.
Lemma is_id_after_spec p s : is_id_after p s = true ->
  exists body, s = (p ++ body)%string /\ is_id_body body = true.
Proof.
  unfold is_id_after. destruct (strip_str p s) as [r|] eqn:E; [|done].
  apply strip_str_Some in E. intros H. by exists r.
Qed.
Lemma is_id_after_no_slash p s : no_slash p -> is_id_after p s = true -> no_slash s.
Proof.
  intros Hp (body & -> & Hb)%is_id_after_spec. unfold no_slash in *. rewrite all_chars_app, Hp.
  unfold is_id_body in Hb. apply orb_true_iff in Hb as [[_ Hb]%andb_true_iff|Hb].
  - by apply base32_no_slash.
  - apply bool_decide_eq_true in Hb as ->. done.
Qed.
Lemma tenantKeyPrefix_Ok o p pre : tenantKeyPrefix o p = Ok pre <->
  ORG_ID_PATTERN o = true /\ PROJECT_ID_PATTERN p = true /\
  pre = cat ["org/"; o; "/project/"; p; "/"].
Proof.
  unfold tenantKeyPrefix. destruct (ORG_ID_PATTERN o), (PROJECT_ID_PATTERN p); simpl;
    (split; [try discriminate; intros [= <-]; done|]); intros (? & ? & ->); done.
Qed.
Lemma split_tenant_key o p pre rel : tenantKeyPrefix o p = Ok pre ->
  split_on "/" (pre ++ rel) = ["org"%string; o; "project"%string; p] ++ split_on "/" rel.
Proof.
  intros (Ho & Hp & ->)%tenantKeyPrefix_Ok.
  apply is_id_after_no_slash in Ho; [|done]. apply is_id_after_no_slash in Hp; [|done].
  change (cat _ ++ rel)%string
    with ("org" ++ String "/" ((o ++ "/project/" ++ p ++ "/" ++ "") ++ rel))%string.
  rewrite split_on_app by done. rewrite append_assoc_r.
  change (o ++ ("/project/" ++ p ++ "/" ++ "") ++ rel)%string
    with (o ++ String "/" ("project" ++ String "/" ((p ++ "/" ++ "") ++ rel)))%string.
  rewrite split_on_app by done. rewrite split_on_app by done. rewrite append_assoc_r.
  change (p ++ ("/" ++ "") ++ rel)%string with (p ++ String "/" rel)%string.
  by rewrite split_on_app.
Qed.
Lemma prefix_disjoint o p pre o' p' pre' r r' :
  tenantKeyPrefix o p = Ok pre -> tenantKeyPrefix o' p' = Ok pre' ->
  (pre ++ r)%string = (pre' ++ r')%string -> o = o' /\ p = p'.
Proof.
  intros H H' E. apply (f_equal (split_on "/")) in E.
  erewrite !split_tenant_key in E by eassumption. by simplify_eq.
Qed.
Lemma joinTenantKey_Ok prefix rel key : joinTenantKey prefix rel = Ok key -> key = (prefix ++ rel)%string.
Proof. unfold joinTenantKey. case_goal; by intros [= <-]. Qed.

(** ** What a tenant can observe of the repository *)

(** Scopes open the same keys when they name the same project. *)
Definition same_tenant (s s' : TenantScope) : Prop :=
  sc_orgId s = sc_orgId s' /\ sc_projectId s = sc_projectId s'.
#[export] Instance same_tenant_dec s s' : Decision (same_tenant s s').
Proof. unfold same_tenant. apply _. Defined.
Definition in_prefix (scope : TenantScope) (kv : string * json) : bool :=
  match scopePrefix scope with Ok p => startsWith kv.1 p | Err _ => false end.
(** The entries under the prefix of the scope, in the order of the [Map]. *)
Definition tenant_view (scope : TenantScope) (st : Repo) : fields :=
  List.filter (in_prefix scope) (repo_backend st).

Lemma same_tenant_prefix s s' : same_tenant s s' -> scopePrefix s = scopePrefix s'.
Proof. unfold same_tenant, scopePrefix. by intros [-> ->]. Qed.
Lemma scoped_key_prefix scope rel key p :
  scopePrefix scope = Ok p -> scopedStorageKey scope rel = Ok key -> key = (p ++ rel)%string.
Proof.
  unfold scopedStorageKey. intros ->. cbn. apply joinTenantKey_Ok.
Qed.
Lemma scoped_key_owner s s' rel key v :
  scopedStorageKey s' rel = Ok key -> in_prefix s (key, v) = true -> same_tenant s s'.
Proof.
  unfold in_prefix. cbn [fst]. destruct (scopePrefix s) as [p|] eqn:E; [|done].
  intros H (r & Hr)%startsWith_spec. pose proof H as H'. unfold scopedStorageKey in H'.
  destruct (scopePrefix s') as [p'|] eqn:E'; [|done]. apply joinTenantKey_Ok in H'.
  unfold same_tenant. unfold scopePrefix in E, E'.
  eapply prefix_disjoint; [exact E|exact E'|]. by rewrite <- Hr, <- H'.
Qed.
Lemma scoped_key_inside s s' rel key v :
  same_tenant s s' -> scopedStorageKey s' rel = Ok key -> in_prefix s (key, v) = true.
Proof.
  intros Hs H. unfold in_prefix. rewrite (same_tenant_prefix _ _ Hs). pose proof H as H'.
  unfold scopedStorageKey in H'. destruct (scopePrefix s') as [p|] eqn:E; [|done].
  apply joinTenantKey_Ok in H'. apply startsWith_spec. eauto.
Qed.

(** A property test that looks at the key alone commutes with the [Map]'s
    operations. *)
Section KeyFilter.
Context (P : string * json -> bool).
Hypothesis P_key : forall k v w, P (k, v) = P (k, w).

Lemma filter_set_in k v o : P (k, v) = true ->
  List.filter P (set_prop k v o) = set_prop k v (List.filter P o).
Proof.
  intros H. induction o as [|[k' w] o IH]; cbn [set_prop List.filter]; [by rewrite H|].
  destruct (decide (k' = k)) as [->|E]; cbn [List.filter].
  - rewrite H, (P_key k w v), H. cbn [set_prop]. by rewrite decide_True.
  - rewrite IH. destruct (P (k', w)); [|done]. cbn [set_prop]. by rewrite decide_False.
Qed.
Lemma filter_set_out k v o : P (k, v) = false ->
  List.filter P (set_prop k v o) = List.filter P o.
Proof.
  intros H. induction o as [|[k' w] o IH]; cbn [set_prop List.filter]; [by rewrite H|].
  destruct (decide (k' = k)) as [->|E]; cbn [List.filter].
  - by rewrite H, (P_key k w v), H.
  - by rewrite IH.
Qed.
Lemma filter_del_in k v o : P (k, v) = true ->
  List.filter P (del_prop k o) = del_prop k (List.filter P o).
Proof.
  intros H. induction o as [|[k' w] o IH]; [done|]. cbn [del_prop List.filter].
  destruct (decide (k' = k)) as [->|E].
  - rewrite (P_key k w v), H. cbn [del_prop]. by rewrite decide_True.
  - cbn [List.filter]. rewrite IH. destruct (P (k', w)); [|done]. cbn [del_prop].
    by rewrite decide_False.
Qed.
Lemma filter_del_out k v o : P (k, v) = false ->
  List.filter P (del_prop k o) = List.filter P o.
Proof.
  intros H. induction o as [|[k' w] o IH]; [done|]. cbn [del_prop List.filter].
  destruct (decide (k' = k)) as [->|E].
  - by rewrite (P_key k w v), H.
  - cbn [List.filter]. by rewrite IH.
Qed.
Lemma prop_filter_in k v o : P (k, v) = true -> prop k (List.filter P o) = prop k o.
Proof.
  intros H. induction o as [|[k' w] o IH]; [done|]. cbn [List.filter prop].
  destruct (decide (k' = k)) as [->|E].
  - rewrite (P_key k w v), H. cbn [prop]. by rewrite decide_True.
  - destruct (P (k', w)); [|done]. cbn [prop]. by rewrite decide_False.
Qed.
End KeyFilter.

Lemma in_prefix_key scope k v w : in_prefix scope (k, v) = in_prefix scope (k, w).
Proof. done. Qed.
Lemma audit_backend collection st scope id key op :
  repo_backend (auditIfForeign collection st scope id key op) = repo_backend st.
Proof. unfold auditIfForeign. repeat case_goal; done. Qed.
Lemma filter_inside {A} (P Q : A -> bool) l :
  (forall x, Q x = true -> P x = true) -> List.filter Q (List.filter P l) = List.filter Q l.
Proof.
  intros H. induction l as [|x l IH]; [done|]. cbn [List.filter].
  destruct (P x) eqn:E; cbn [List.filter]; [by rewrite IH|].
  destruct (Q x) eqn:E'; [|done]. apply H in E'. congruence.
Qed.
Lemma view_prop s s' rel key st : same_tenant s s' -> scopedStorageKey s' rel = Ok key ->
  prop key (repo_backend st) = prop key (tenant_view s st).
Proof.
  intros Hs H. unfold tenant_view. symmetry. apply (prop_filter_in _ (in_prefix_key s) key JNull).
  by eapply scoped_key_inside.
Qed.
Lemma view_list s s' rest p st : same_tenant s s' -> scopePrefix s' = Ok p ->
  List.filter (fun kv => startsWith kv.1 (p ++ rest)) (repo_backend st) =
  List.filter (fun kv => startsWith kv.1 (p ++ rest)) (tenant_view s st).
Proof.
  intros Hs Hp. unfold tenant_view. symmetry. apply filter_inside. intros [k v]. cbn [fst].
  unfold in_prefix. rewrite (same_tenant_prefix _ _ Hs), Hp. intros (r & Hr)%startsWith_spec.
  apply startsWith_spec. cbn [fst]. exists (rest ++ r)%string. by rewrite Hr, append_assoc_r.
Qed.
Lemma view_set s s' rel key v st owners denials : scopedStorageKey s' rel = Ok key ->
  tenant_view s (mkRepo (set_prop key v (repo_backend st)) owners denials) =
  if decide (same_tenant s s') then set_prop key v (tenant_view s st) else tenant_view s st.
Proof.
  intros H. unfold tenant_view. cbn [repo_backend]. case_decide as Hs.
  - apply (filter_set_in _ (in_prefix_key s)). by eapply scoped_key_inside.
  - apply (filter_set_out _ (in_prefix_key s)). apply not_true_is_false. intros Hin.
    apply Hs. by eapply scoped_key_owner.
Qed.
Lemma view_del s s' rel key st owners denials : scopedStorageKey s' rel = Ok key ->
  tenant_view s (mkRepo (del_prop key (repo_backend st)) owners denials) =
  if decide (same_tenant s s') then del_prop key (tenant_view s st) else tenant_view s st.
Proof.
  intros H. unfold tenant_view. cbn [repo_backend]. case_decide as Hs.
  - apply (filter_del_in _ (in_prefix_key s) key JNull). by eapply scoped_key_inside.
  - apply (filter_del_out _ (in_prefix_key s) key JNull). apply not_true_is_false. intros Hin.
    apply Hs. by eapply scoped_key_owner.
Qed.
Lemma view_audit collection s st scope id key op :
  tenant_view s (auditIfForeign collection st scope id key op) = tenant_view s st.
Proof. unfold tenant_view. by rewrite audit_backend. Qed.

(** A call of another tenant leaves the view as it was. *)
Lemma foreign_step collection s s' st op :
  ~ same_tenant s s' -> tenant_view s (repo_step collection st s' op).1 = tenant_view s st.
Proof.
  intros Hs. destruct op; cbn [repo_step];
    unfold repo_create, repo_get, repo_list, repo_update, repo_delete, repo_key;
    repeat (case_goal; cbn [fst]); rewrite ?view_audit; try done.
  all: first [erewrite view_set by eassumption | erewrite view_del by eassumption];
    by rewrite decide_False.
Qed.
(** A call of the tenant is a function of its view. *)
Lemma own_step collection s s' st st' op :
  same_tenant s s' -> tenant_view s st = tenant_view s st' ->
  (repo_step collection st s' op).2 = (repo_step collection st' s' op).2 /\
  tenant_view s (repo_step collection st s' op).1 = tenant_view s (repo_step collection st' s' op).1.
Proof.
  intros Hs Hv.
  assert (Hprop : forall rel key, scopedStorageKey s' rel = Ok key ->
    prop key (repo_backend st) = prop key (repo_backend st')).
  { intros rel key H. by rewrite !(view_prop s s' rel key), Hv. }
  destruct op; cbn [repo_step];
    unfold repo_create, repo_get, repo_list, repo_update, repo_delete, repo_key.
  2-5: try destruct (scopedStorageKey _ _) eqn:E; try done; try rewrite (Hprop _ _ E).
  - destruct (newTenantId _ _); [|done]. destruct (scopedStorageKey _ _) eqn:E; [|done].
    cbn [fst snd]. erewrite !view_set by eassumption. by rewrite Hv.
  - destruct (prop _ _); cbn [fst snd]; [done|]. by rewrite !view_audit.
  - destruct (scopePrefix s') eqn:E; [|done]. cbn [fst snd].
    change (cat [a; collection; "/"%string])%string with (a ++ (cat [collection; "/"]))%string.
    by rewrite !(view_list s s') , Hv.
  - destruct (prop _ _); cbn [fst snd]; [|by rewrite !view_audit].
    erewrite !view_set by eassumption. by rewrite Hv.
  - destruct (prop _ _); cbn [fst snd]; [|by rewrite !view_audit].
    erewrite !view_del by eassumption. by rewrite Hv.
Qed.

(** A sequence of calls, each answered in its turn. *)
Fixpoint run_repo (collection : string) (st : Repo) (calls : list (TenantScope * RepoOp))
  : list (TenantScope * RepoAnswer) :=
  match calls with
  | [] => []
  | (scope, op) :: calls' =>
      let '(st', answer) := repo_step collection st scope op in
      (scope, answer) :: run_repo collection st' calls'
  end.
Definition of_tenant {A} (s : TenantScope) (l : list (TenantScope * A)) : list (TenantScope * A) :=
  filter (fun x => same_tenant s x.1) l.

(** C7. Tenant isolation of [ScopedRepository]: in any interleaving of the calls of
    any tenants, from any backend, the answers a tenant is given (records, lists,
    deletions, exceptions) are those of a run of its own calls alone, from any
    other backend that agrees under its prefix. What other tenants store, change,
    delete or look up changes none of them. *)
Theorem tenant_noninterference collection s st st' calls :
  tenant_view s st = tenant_view s st' ->
  of_tenant s (run_repo collection st calls) = run_repo collection st' (of_tenant s calls).
Proof.
  revert st st'. induction calls as [|[s' op] calls IH]; intros st st' Hv; [done|].
  unfold of_tenant in *. rewrite (filter_cons _ (s', op)). cbn [run_repo fst].
  destruct (repo_step collection st s' op) as [st1 ans] eqn:E. rewrite filter_cons. cbn [fst].
  case_decide as Hs.
  - cbn [run_repo]. destruct (own_step collection s s' st st' op Hs Hv) as [Ha Hv'].
    destruct (repo_step collection st' s' op) as [st2 ans'] eqn:E'. rewrite E in *. cbn in Ha, Hv'.
    subst ans'. f_equal. by apply IH.
  - apply IH. pose proof (foreign_step collection s s' st op Hs) as H. rewrite E in H.
    cbn in H. congruence.
Qed.
Lemma tenant_noninterference_witness :
  let a := mkScope DEFAULT_ORG_ID DEFAULT_PROJECT_ID "u" analyst in
  let b := mkScope DEFAULT_ORG_ID (cat ["prj_"; "aaaaaaaaaaaaaaaaaaaaaaaaaa"]) "v" analyst in
  let calls := [(b, op_create (seqZ 0 16) []); (a, op_create (seqZ 0 16) []); (b, op_delete "x");
                (a, op_list)]%string in
  let hidden := mkRepo [(cat ["org/"; sc_orgId b; "/project/"; sc_projectId b; "/run/x"], JNull)]%string
                  ∅ [] in
  of_tenant a (run_repo "run" hidden calls) = run_repo "run" (open_repo []) (of_tenant a calls).
Proof. intros. apply (tenant_noninterference "run" a). reflexivity. Defined.

(** ** Generated ids *)

Definition is_byte (b : Z) : Prop := 0 <= b < 256.
(** The bytes as one number, the first the most significant. *)
Definition big_endian (bytes : list Z) : Z := foldl (fun n b => n * 256 + b) 0 bytes.
(** The [k] low base-32 digits of [n], most significant first. *)
Fixpoint base32_digits (k : nat) (n : Z) : string :=
  match k with
  | O => EmptyString
  | S k' => (base32_digits k' (n / 32) ++ base32_char (n mod 32))%string
  end.

Lemma to_int32_mod a n : 0 <= n <= 32 -> to_int32 a mod 2 ^ n = a mod 2 ^ n.
Proof.
  intros Hn. apply Z.bits_inj'. intros i Hi. destruct (Z.lt_ge_cases i n).
  - rewrite !Z.mod_pow2_bits_low, to_int32_testbit by lia. f_equal. lia.
  - by rewrite !Z.mod_pow2_bits_high by lia.
Qed.
Lemma js_and_31 a : js_and a 31 = a mod 32.
Proof.
  unfold js_and. change (to_int32 31) with (Z.ones 5). rewrite Z.land_ones by lia.
  change 32 with (2 ^ 5). by apply to_int32_mod.
Qed.
Lemma shift_in_byte value byte : is_byte byte ->
  js_or (js_shl value 8) byte mod 2 ^ 32 = (value * 256 + byte) mod 2 ^ 32.
Proof.
  intros Hb. assert (E : js_or (js_shl value 8) byte = to_int32 (value * 256 + byte)).
  { rewrite Z.add_comm. change 256 with (2 ^ 8). rewrite <- lor_shiftl_add by (unfold is_byte in *; lia).
    rewrite to_int32_lor. unfold js_or, js_shl. change (8 mod 32) with 8.
    rewrite Z.lor_comm, to_int32_idem. f_equal. apply Z.bits_inj'. intros i Hi.
    rewrite !to_int32_testbit, !Z.shiftl_spec by lia.
    destruct (Z.le_gt_cases 8 (Z.min i 31)); [|by rewrite !Z.testbit_neg_r by lia].
    rewrite to_int32_testbit by lia. f_equal. lia. }
  rewrite E. by apply to_int32_mod.
Qed.
Lemma ushr_digit value b : 0 <= b <= 27 ->
  js_and (js_ushr value b) 31 = value / 2 ^ b mod 32.
Proof.
  intros Hb. rewrite js_and_31. unfold js_ushr. rewrite (Z.mod_small b) by lia.
  rewrite Z.shiftr_div_pow2 by lia. change 4294967296 with (2 ^ 32). change 32 with (2 ^ 5).
  apply Z.bits_inj'. intros i Hi. destruct (Z.lt_ge_cases i 5).
  - rewrite !Z.mod_pow2_bits_low, !Z.div_pow2_bits, Z.mod_pow2_bits_low by lia. done.
  - by rewrite !Z.mod_pow2_bits_high by lia.
Qed.
Lemma ushr_low value n b bits : 0 <= b -> b + 5 <= bits ->
  value mod 2 ^ bits = n mod 2 ^ bits -> value / 2 ^ b mod 32 = n / 2 ^ b mod 32.
Proof.
  intros Hb Hbits E. change 32 with (2 ^ 5). apply Z.bits_inj'. intros i Hi.
  destruct (Z.lt_ge_cases i 5); [|by rewrite !Z.mod_pow2_bits_high by lia].
  rewrite !Z.mod_pow2_bits_low, !Z.div_pow2_bits by lia.
  rewrite <- (Z.mod_pow2_bits_low value bits), <- (Z.mod_pow2_bits_low n bits) by lia. by rewrite E.
Qed.
Lemma mod_pow_less value n bits b : 0 <= b <= bits ->
  value mod 2 ^ bits = n mod 2 ^ bits -> value mod 2 ^ b = n mod 2 ^ b.
Proof.
  intros Hb E. apply Z.bits_inj'. intros i Hi.
  destruct (Z.lt_ge_cases i b); [|by rewrite !Z.mod_pow2_bits_high by lia].
  rewrite !Z.mod_pow2_bits_low by lia.
  rewrite <- (Z.mod_pow2_bits_low value bits), <- (Z.mod_pow2_bits_low n bits) by lia. by rewrite E.
Qed.

(** What the encoder holds after reading [n]: the digits above the [bits] low
    bits are written, those bits are the low ones of [value]. *)
Definition encoder_inv (n : Z) (k : nat) (bits value : Z) (out : string) : Prop :=
  value mod 2 ^ bits = n mod 2 ^ bits /\ out = base32_digits k (n / 2 ^ bits).

Lemma drain_digit n k bits value out : 5 <= bits <= 32 ->
  encoder_inv n k bits value out ->
  encoder_inv n (S k) (bits - 5) value
    (out ++ base32_char (js_and (js_ushr value (bits - 5)) 31))%string.
Proof.
  intros Hb [Hv ->]. split; [by eapply mod_pow_less; [|exact Hv]; lia|].
  cbn [base32_digits]. rewrite ushr_digit, (ushr_low value n _ bits) by (done || lia).
  rewrite Z.div_div by lia.
  assert (E : 2 ^ (bits - 5) * 32 = 2 ^ bits).
  { change 32 with (2 ^ 5). rewrite <- Z.pow_add_r by lia. f_equal. lia. }
  by rewrite E.
Qed.
Lemma drain_spec32 turns : forall n k bits value out,
  0 <= bits <= 32 -> bits < 5 * (Z.of_nat turns + 1) -> encoder_inv n k bits value out ->
  exists k' bits' out', drain_bits turns value bits out = (bits', out') /\
    0 <= bits' < 5 /\ 5 * Z.of_nat k' + bits' = 5 * Z.of_nat k + bits /\
    encoder_inv n k' bits' value out'.
Proof.
  induction turns as [|turns IH]; intros n k bits value out Hb Ht Hi; cbn [drain_bits].
  { exists k, bits, out. split_and!; try done; lia. }
  destruct (Z.leb_spec 5 bits).
  - apply drain_digit in Hi; [|lia]. destruct (IH _ _ (bits - 5) _ _ ltac:(lia) ltac:(lia) Hi)
      as (k' & bits' & out' & E & ? & ? & ?).
    exists k', bits', out'. split_and!; try done; lia.
  - exists k, bits, out. split_and!; try done; lia.
Qed.
Lemma encode_step n k bits value out byte : 0 <= bits < 5 -> is_byte byte ->
  encoder_inv n k bits value out ->
  encoder_inv (n * 256 + byte) k (bits + 8) (js_or (js_shl value 8) byte) out.
Proof.
  intros Hb Hy [Hv ->]. split.
  - rewrite (mod_pow_less _ (value * 256 + byte) 32) by (try apply shift_in_byte; done || lia).
    rewrite Z.pow_add_r by lia. change (2 ^ 8) with 256. unfold is_byte in Hy.
    rewrite (Z.mul_comm (2 ^ bits)), !Z.rem_mul_r by lia.
    replace ((value * 256 + byte) / 256) with value by (Z.to_euclidean_division_equations; lia).
    replace ((n * 256 + byte) / 256) with n by (Z.to_euclidean_division_equations; lia).
    rewrite Hv. f_equal. rewrite !(Z.add_comm _ byte), !Z.mod_add; lia.
  - f_equal. rewrite Z.pow_add_r, (Z.mul_comm (2 ^ bits)), <- Z.div_div by lia.
    change (2 ^ 8) with 256. unfold is_byte in Hy.
    by replace ((n * 256 + byte) / 256) with n by (Z.to_euclidean_division_equations; lia).
Qed.
Lemma encode_spec bytes : forall n k bits value out,
  Forall is_byte bytes -> 0 <= bits < 5 -> encoder_inv n k bits value out ->
  exists k' bits' value' out', encode_bytes bytes bits value out = (bits', value', out') /\
    0 <= bits' < 5 /\ 5 * Z.of_nat k' + bits' = 5 * Z.of_nat k + bits + 8 * Z.of_nat (length bytes) /\
    encoder_inv (foldl (fun n b => n * 256 + b) n bytes) k' bits' value' out'.
Proof.
  induction bytes as [|b bytes IH]; intros n k bits value out Hf Hb Hi; cbn [encode_bytes].
  { exists k, bits, value, out. simpl. split_and!; try done; lia. }
  inversion_clear Hf as [|? ? Hy Hf'].
  pose proof (encode_step _ _ _ _ _ _ Hb Hy Hi) as Hi1.
  destruct (drain_spec32 2 _ _ (bits + 8) _ _ ltac:(lia) ltac:(lia) Hi1)
    as (k1 & bits1 & out1 & E & Hb1 & Hk1 & Hi2).
  cbv zeta. rewrite E.
  destruct (IH _ _ _ _ _ Hf' Hb1 Hi2) as (k' & bits' & v' & out' & E' & ? & ? & ?).
  exists k', bits', v', out'. cbn [length foldl]. split_and!; try done; lia.
Qed.
#[local] Arguments String.append !_ _ / : simpl nomatch.
(** The index of a digit. *)
Definition base32_index (c : ascii) : Z := if code c <? 97 then code c - 24 else code c - 97.
Lemma base32_char_spec i : 0 <= i < 32 ->
  exists c, base32_char i = String c EmptyString /\ is_base32 c = true /\ base32_index c = i.
Proof.
  intros Hi.
  set (ok := fun i => match base32_char i with
                      | String c EmptyString => is_base32 c && (base32_index c =? i)
                      | _ => false
                      end).
  assert (H : forallb ok (seqZ 0 32) = true) by (by vm_compute).
  rewrite forallb_forall in H. specialize (H i). rewrite <- list_elem_of_In, elem_of_seqZ in H.
  specialize (H ltac:(lia)). unfold ok in H.
  destruct (base32_char i) as [|c [|]]; try done. bools. by exists c.
Qed.
Lemma str_length_app s t : String.length (s ++ t) = (String.length s + String.length t)%nat.
Proof.
  induction s as [|a s IH]; [done|]. change (String a s ++ t)%string with (String a (s ++ t)).
  cbn [String.length]. by rewrite IH.
Qed.
Lemma base32_digits_spec k : forall n,
  String.length (base32_digits k n) = k /\ all_chars is_base32 (base32_digits k n) = true.
Proof.
  induction k as [|k IH]; intros n; [done|]. cbn [base32_digits].
  destruct (base32_char_spec (n mod 32)) as (c & -> & Hc & _); [lia|].
  destruct (IH (n / 32)) as [Hl Ha]. rewrite str_length_app, all_chars_app, Hl, Ha. simpl.
  rewrite Hc. split; [lia|done].
Qed.
Lemma append_last_inj s t c d :
  (s ++ String c EmptyString)%string = (t ++ String d EmptyString)%string -> s = t /\ c = d.
Proof.
  revert t. induction s as [|a s IH]; intros [|b t] E; simpl in E.
  - by injection E as ->.
  - injection E as -> E. by destruct t.
  - injection E as -> E. by destruct s.
  - injection E as -> E. by destruct (IH t E) as [-> ->].
Qed.
Lemma base32_digits_inj k : forall n m, 0 <= n < 32 ^ Z.of_nat k -> 0 <= m < 32 ^ Z.of_nat k ->
  base32_digits k n = base32_digits k m -> n = m.
Proof.
  induction k as [|k IH]; intros n m Hn Hm E; [simpl in *; lia|]. cbn [base32_digits] in E.
  rewrite Nat2Z.inj_succ, Z.pow_succ_r in Hn, Hm by lia.
  destruct (base32_char_spec (n mod 32)) as (c & En & _ & Hc); [lia|].
  destruct (base32_char_spec (m mod 32)) as (d & Em & _ & Hd); [lia|].
  rewrite En, Em in E. apply append_last_inj in E as [E ->].
  apply IH in E; [|lia..]. lia.
Qed.
Lemma big_endian_app bytes b : big_endian (bytes ++ [b]) = big_endian bytes * 256 + b.
Proof. unfold big_endian. by rewrite foldl_app. Qed.
Lemma big_endian_range bytes : Forall is_byte bytes ->
  0 <= big_endian bytes < 256 ^ Z.of_nat (length bytes).
Proof.
  induction bytes as [|b bytes IH] using rev_ind; intros Hf; [done|].
  apply Forall_app in Hf as [Hf Hb]. inversion_clear Hb as [|? ? Hb' _]. unfold is_byte in Hb'.
  rewrite big_endian_app, length_app, Nat2Z.inj_add, Z.pow_add_r by lia. specialize (IH Hf).
  cbn [length]. change (256 ^ Z.of_nat 1) with 256. lia.
Qed.
Lemma big_endian_inj bytes : forall bytes', Forall is_byte bytes -> Forall is_byte bytes' ->
  length bytes = length bytes' -> big_endian bytes = big_endian bytes' -> bytes = bytes'.
Proof.
  induction bytes as [|b bytes IH] using rev_ind; intros bytes' Hf Hf' Hl E.
  { by destruct bytes'. }
  destruct bytes' as [|b' bytes' _] using rev_ind; [rewrite length_app in Hl; simpl in Hl; lia|].
  apply Forall_app in Hf as [Hf Hb], Hf' as [Hf' Hb']. rewrite !length_app in Hl. simpl in Hl.
  inversion_clear Hb as [|? ? Hb1 _]. inversion_clear Hb' as [|? ? Hb1' _]. unfold is_byte in *.
  rewrite !big_endian_app in E. rewrite (IH bytes'); [|done..|lia|lia]. f_equal. f_equal. lia.
Qed.
Lemma last_digit value : js_and (js_shl value 2) 31 = 4 * (value mod 8).
Proof.
  rewrite js_and_31. unfold js_shl. change (2 mod 32) with 2. change 32 with (2 ^ 5).
  rewrite to_int32_mod, Z.shiftl_mul_pow2 by lia.
  change (2 ^ 5) with (8 * 4). change (2 ^ 2) with 4. rewrite Z.mul_mod_distr_r by lia.
  change 8 with (2 ^ 3). rewrite to_int32_mod by lia. lia.
Qed.
Lemma four_big_endian bytes : length bytes = 16%nat -> Forall is_byte bytes ->
  0 <= 4 * big_endian bytes < 32 ^ Z.of_nat 26.
Proof.
  intros Hl Hf. pose proof (big_endian_range _ Hf) as H. rewrite Hl in H.
  assert (E : 32 ^ Z.of_nat 26 = 4 * 256 ^ Z.of_nat 16) by reflexivity. rewrite E. clear E.
  revert H. generalize (256 ^ Z.of_nat 16) as m. lia.
Qed.
Lemma newTenantId_digits prefix bytes :
  is_collection prefix = true -> length bytes = 16%nat -> Forall is_byte bytes ->
  newTenantId prefix bytes = Some (cat [prefix; "_"; base32_digits 26 (4 * big_endian bytes)])%string.
Proof.
  intros Hp Hl Hf. unfold newTenantId. rewrite Hp. cbn [negb].
  destruct (encode_spec bytes 0 0 0 0 EmptyString Hf) as (k & bits & value & out & E & Hb & Hk & Hi);
    [lia|done|]. rewrite E. rewrite Hl in Hk. assert (k = 25%nat) as -> by lia.
  assert (bits = 3) as -> by lia. destruct Hi as [Hv ->]. change (2 ^ 3) with 8 in *.
  change (0 <? 3) with true. change (5 - 3) with 2. cbv iota. rewrite last_digit, Hv.
  fold (big_endian bytes). change 26%nat with (S 25). cbn [base32_digits].
  set (n := big_endian bytes).
  replace (4 * n / 32) with (n / 8) by lia. by replace (4 * n mod 32) with (4 * (n mod 8)) by lia.
Qed.

Lemma id_body_inj prefix body body' :
  cat [prefix; "_"; body]%string = cat [prefix; "_"; body']%string -> body = body'.
Proof.
  change (prefix ++ String "_" (body ++ "") = prefix ++ String "_" (body' ++ "") -> body = body')%string.
  intros E%append_inj_l. injection E as E. by rewrite !append_empty in E.
Qed.

(** The ids of [newTenantId]: from sixteen random bytes they are the 26 base-32
    digits of the 128-bit number (with two zero bits below), they match
    [RESOURCE_ID_PATTERN], and other bytes give another id, so that none of the
    128 bits is lost although [value] is a 32-bit accumulator that overflows. *)
Theorem newTenantId_unique prefix bytes :
  is_collection prefix = true -> length bytes = 16%nat -> Forall is_byte bytes ->
  exists id, newTenantId prefix bytes = Some id /\
    id = cat [prefix; "_"; base32_digits 26 (4 * big_endian bytes)]%string /\
    RESOURCE_ID_PATTERN id = true /\
    forall bytes', length bytes' = 16%nat -> Forall is_byte bytes' ->
      newTenantId prefix bytes' = Some id -> bytes' = bytes.
Proof.
  intros Hp Hl Hf. rewrite newTenantId_digits by done. eexists. split_and!; [done..| |].
  - destruct (base32_digits_spec 26 (4 * big_endian bytes)) as [Hn Ha].
    revert Hn Ha. generalize (base32_digits 26 (4 * big_endian bytes)). intros body Hn Ha.
    assert (Hfree : forall s, all_chars is_base32 s = true ->
      all_chars (fun a => negb (bool_decide (a = "_"%char))) s = true).
    { intros s. apply all_chars_impl. intros c Hc. apply negb_true_iff, bool_decide_eq_false.
      by intros ->. }
    unfold RESOURCE_ID_PATTERN. change (cat [prefix; "_"; body])%string
      with (prefix ++ String "_" (body ++ ""))%string. rewrite append_empty.
    rewrite split_on_app, split_on_free; [|by apply Hfree|].
    + rewrite Hp, Ha. unfold js_length. by rewrite Hn.
    + apply Hfree. unfold is_collection in Hp. bools. eapply all_chars_impl; [|eassumption].
      intros c Hc. unfold is_base32. unfold is_lower_letter in Hc. by rewrite Hc.
  - intros bytes' Hl' Hf'. rewrite newTenantId_digits by done. intros E%(inj Some)%id_body_inj.
    apply (base32_digits_inj 26) in E; [|by apply four_big_endian..].
    apply big_endian_inj; congruence || lia.
Qed.
Lemma newTenantId_unique_witness :
  exists id, newTenantId "run" (seqZ 240 16) = Some id /\ RESOURCE_ID_PATTERN id = true.
Proof.
  destruct (newTenantId_unique "run" (seqZ 240 16)) as (id & H & _ & Hr & _).
  - reflexivity.
  - reflexivity.
  - apply Forall_forall. intros x. rewrite elem_of_seqZ. unfold is_byte. lia.
  - exists id. auto.
Defined.

(** ** The backfill *)

(** The character an encoded string starts with. *)
Definition hex_val (c : ascii) : Z := if code c <? 65 then code c - 48 else code c - 55.
Definition percent_val (a b : ascii) : Z := hex_val a * 16 + hex_val b.
Definition decode_head (s : string) : option ascii :=
  match s with
  | String "%" (String a (String b s')) =>
      let n := percent_val a b in
      if n <? 128 then Some (ascii_of_N (Z.to_N n))
      else match s' with
           | String "%" (String a' (String b' _)) =>
               Some (ascii_of_N (Z.to_N ((n - 192) * 64 + (percent_val a' b' - 128))))
           | _ => None
           end
  | String c _ => Some c
  | EmptyString => None
  end.
Lemma decode_head_encode c s : decode_head (encode_char c ++ s) = Some c.
Proof. destruct c as [[] [] [] [] [] [] [] []]; reflexivity. Qed.
Lemma encodeURIComponent_inj s : forall t,
  encodeURIComponent s = encodeURIComponent t -> s = t.
Proof.
  induction s as [|c s IH]; intros [|d t] E; [done|..]; cbn [encodeURIComponent] in E;
    pose proof (f_equal decode_head E) as Hd; rewrite ?decode_head_encode in Hd; try done.
  injection Hd as ->. f_equal. apply IH. by eapply append_inj_l.
Qed.
Lemma target_key_spec key o p to : backfillTargetKey key o p = Ok to ->
  exists pre, tenantKeyPrefix o p = Ok pre /\
    to = (pre ++ "legacy" ++ String "/" (encodeURIComponent key))%string.
Proof.
  unfold backfillTargetKey. destruct (tenantKeyPrefix o p) as [pre|]; [|done].
  cbn. intros H%joinTenantKey_Ok. exists pre. by rewrite H, append_empty.
Qed.
Lemma target_key_tenant key o p to : backfillTargetKey key o p = Ok to -> isTenantKey to = true.
Proof.
  intros (pre & Hp & ->)%target_key_spec. unfold isTenantKey.
  erewrite split_tenant_key by eassumption. rewrite split_on_app by done.
  apply tenantKeyPrefix_Ok in Hp as (Ho & Hp & _). cbn [app]. rewrite Ho, Hp. done.
Qed.
Lemma target_key_inj key key' o p to :
  backfillTargetKey key o p = Ok to -> backfillTargetKey key' o p = Ok to -> key = key'.
Proof.
  intros (pre & Hp & E)%target_key_spec (pre' & Hp' & E')%target_key_spec.
  rewrite Hp in Hp'. injection Hp' as <-. rewrite E in E'. apply append_inj_l in E'.
  injection E' as E'. by apply encodeURIComponent_inj.
Qed.

(** What the loop decides for a key. *)
Inductive Verdict : Type := is_scoped | is_global | is_conflict (to : string) | is_move (to : string).
Section Verdicts.
Context (store : gmap string json) (options : BackfillOptions) (orgId projectId : string).

Definition verdict (key : string) : result TenancyError Verdict :=
  if isTenantKey key then Ok is_scoped
  else if negb (tenant_owned (opt_prefixes options) key) then Ok is_global
  else
    to ← backfillTargetKey key orgId projectId;
    Ok (if decide (store !! to = None \/ store !! to = store !! key) then is_move to
        else is_conflict to).
Definition moved (key : string) : option Move :=
  match verdict key with Ok (is_move to) => Some (mkMove key to) | _ => None end.
Definition conflicting (key : string) : option Move :=
  match verdict key with Ok (is_conflict to) => Some (mkMove key to) | _ => None end.
Definition globally (key : string) : option string :=
  match verdict key with Ok is_global => Some key | _ => None end.
Definition scoped_already (key : string) : bool :=
  match verdict key with Ok is_scoped => true | _ => false end.

Lemma step_verdict r key : backfill_step store options orgId projectId r key =
  v ← verdict key;
  let '(mkBackfill dry target total scoped glob moves conflicts) := r in
  Ok (mkBackfill dry target (total + 1)
        (if v is is_scoped then scoped + 1 else scoped)
        (if v is is_global then glob ++ [key] else glob)
        (if v is is_move to then moves ++ [mkMove key to] else moves)
        (if v is is_conflict to then conflicts ++ [mkMove key to] else conflicts)).
Proof.
  destruct r. unfold backfill_step, verdict. destruct (isTenantKey key); [done|].
  destruct (negb _); [done|]. destruct (backfillTargetKey _ _ _) as [to|]; [|done]. cbn.
  destruct (store !! to) as [e|] eqn:E; [|by rewrite decide_True by auto].
  case_bool_decide as Hb; case_decide as Hd; try done.
  - destruct Hd; congruence.
  - exfalso. apply Hd. by right.
Qed.
Lemma fold_verdicts keys : forall r r',
  foldl_result (backfill_step store options orgId projectId) r keys = Ok r' ->
  r' = mkBackfill (bk_dryRun r) (bk_target r) (bk_total r + Z.of_nat (length keys))
         (bk_alreadyScoped r + Z.of_nat (length (List.filter scoped_already keys)))
         (bk_global r ++ omap globally keys) (bk_moves r ++ omap moved keys)
         (bk_conflicts r ++ omap conflicting keys) /\
  forall key, key ∈ keys -> exists v, verdict key = Ok v.
Proof.
  induction keys as [|key keys IH]; intros r r' H; cbn [foldl_result] in H.
  { injection H as <-. destruct r. cbn. rewrite !Z.add_0_r, !app_nil_r. split; [done|].
    intros key []%not_elem_of_nil. }
  rewrite step_verdict in H. destruct (verdict key) as [v|] eqn:Ev; [|done].
  destruct r as [dry target total scoped glob moves conflicts]. cbn in H.
  apply IH in H as [-> Hk]. split; [|intros k [->|Hin]%elem_of_cons; eauto].
  rewrite !omap_step. cbn [List.filter length]. unfold scoped_already at 2, globally at 2,
    moved at 2, conflicting at 2. rewrite Ev. cbn.
  destruct v; cbn; rewrite <- ?app_assoc; cbn; f_equal; lia.
Qed.
Lemma moved_Some key m : moved key = Some m <->
  m = mkMove key (mv_to m) /\ isTenantKey key = false /\
  tenant_owned (opt_prefixes options) key = true /\
  backfillTargetKey key orgId projectId = Ok (mv_to m) /\
  (store !! mv_to m = None \/ store !! mv_to m = store !! key).
Proof.
  unfold moved, verdict. destruct (isTenantKey key); [naive_solver|].
  destruct (tenant_owned _ key); [|naive_solver]. cbn [negb].
  destruct (backfillTargetKey _ _ _) as [to|]; [|naive_solver]. cbn.
  destruct m as [from to']. cbn. case_decide; naive_solver.
Qed.
End Verdicts.

(** Moves that take distinct unscoped keys of the store to distinct tenant keys. *)
Record sound_moves (store : gmap string json) (ms : list Move) : Prop := mkSound
  { sound_from : NoDup (mv_from <$> ms);
    sound_to : NoDup (mv_to <$> ms);
    sound_keys : forall m, m ∈ ms -> isTenantKey (mv_from m) = false /\ isTenantKey (mv_to m) = true;
    sound_value : forall m, m ∈ ms -> is_Some (store !! mv_from m) }.

Lemma apply_move_lookup store m : is_Some (store !! mv_from m) -> mv_from m <> mv_to m ->
  apply_move store m !! mv_to m = store !! mv_from m /\
  apply_move store m !! mv_from m = None /\
  forall k, k <> mv_from m -> k <> mv_to m -> apply_move store m !! k = store !! k.
Proof.
  intros [v Hv] Hne. unfold apply_move. rewrite Hv. split_and!.
  - by rewrite lookup_delete_ne, lookup_insert_eq by done.
  - by rewrite lookup_delete_eq.
  - intros k Hf Ht. by rewrite lookup_delete_ne, lookup_insert_ne by done.
Qed.
Lemma sound_ne store ms m m' : sound_moves store ms -> m ∈ ms -> m' ∈ ms -> mv_from m <> mv_to m'.
Proof.
  intros Hs Hm Hm' E. destruct (sound_keys _ _ Hs m Hm) as [H _].
  destruct (sound_keys _ _ Hs m' Hm') as [_ H']. congruence.
Qed.
(** The remaining moves see the first one's keys nowhere. *)
Lemma sound_tail store m ms : sound_moves store (m :: ms) ->
  sound_moves (apply_move store m) ms /\
  forall m', m' ∈ ms -> mv_from m' <> mv_from m /\ mv_from m' <> mv_to m /\
                      mv_to m' <> mv_from m /\ mv_to m' <> mv_to m.
Proof.
  intros Hs. assert (Hm : m ∈ m :: ms) by apply list_elem_of_here.
  assert (Hne : forall m', m' ∈ ms -> mv_from m' <> mv_from m /\ mv_from m' <> mv_to m /\
                      mv_to m' <> mv_from m /\ mv_to m' <> mv_to m).
  { intros m' Hm'. assert (Hm2 : m' ∈ m :: ms) by (by apply list_elem_of_further).
    pose proof (sound_from _ _ Hs) as Hf. pose proof (sound_to _ _ Hs) as Ht.
    cbn [fmap list_fmap] in Hf, Ht. apply NoDup_cons in Hf as [Hf _], Ht as [Ht _].
    split_and!.
    - intros E. apply Hf. rewrite <- E. by apply list_elem_of_fmap_2.
    - by eapply sound_ne.
    - intros E. symmetry in E. by eapply (sound_ne _ _ m m').
    - intros E. apply Ht. rewrite <- E. by apply list_elem_of_fmap_2. }
  split; [|done]. split.
  - pose proof (sound_from _ _ Hs) as H. cbn in H. by apply NoDup_cons in H as [_ H].
  - pose proof (sound_to _ _ Hs) as H. cbn in H. by apply NoDup_cons in H as [_ H].
  - intros m' Hm'. by apply (sound_keys _ _ Hs), list_elem_of_further.
  - intros m' Hm'. destruct (Hne m' Hm') as (H1 & H2 & _).
    destruct (apply_move_lookup store m) as (_ & _ & H).
    + by apply (sound_value _ _ Hs).
    + by eapply sound_ne.
    + rewrite H by done. by apply (sound_value _ _ Hs), list_elem_of_further.
Qed.
Lemma apply_moves_lookup ms : forall store, sound_moves store ms ->
  (forall m, m ∈ ms -> foldl apply_move store ms !! mv_to m = store !! mv_from m /\
                     foldl apply_move store ms !! mv_from m = None) /\
  forall k, k ∉ mv_from <$> ms -> k ∉ mv_to <$> ms -> foldl apply_move store ms !! k = store !! k.
Proof.
  induction ms as [|m ms IH]; intros store Hs.
  { split; [by intros m ?%not_elem_of_nil|done]. }
  assert (Hm : m ∈ m :: ms) by apply list_elem_of_here. cbn [foldl fmap list_fmap].
  destruct (sound_tail _ _ _ Hs) as [Ht Hne]. destruct (IH _ Ht) as [Hin Hout].
  destruct (apply_move_lookup store m) as (Hto & Hfrom & Hk);
    [by apply (sound_value _ _ Hs)|exact (sound_ne _ _ m m Hs Hm Hm)|].
  split.
  - intros m' [->|Hm']%elem_of_cons.
    + split; rewrite Hout; try done; intros (m'' & E & H'')%list_elem_of_fmap;
        destruct (Hne m'' H'') as (? & ? & ? & ?); congruence.
    + destruct (Hin m' Hm') as [-> ->]. destruct (Hne m' Hm') as (? & ? & _). by rewrite Hk.
  - intros k Hf Ho. rewrite not_elem_of_cons in Hf, Ho. rewrite Hout by tauto. apply Hk; tauto.
Qed.
(** Undoing moves to keys that held nothing gives the store back. *)
Lemma undo_moves ms : forall store, sound_moves store ms ->
  (forall m, m ∈ ms -> store !! mv_to m = None) ->
  foldl undo_move (foldl apply_move store ms, 0) (reverse ms) = (store, Z.of_nat (length ms)).
Proof.
  induction ms as [|m ms IH]; intros store Hs Hfresh; [done|].
  assert (Hm : m ∈ m :: ms) by apply list_elem_of_here.
  destruct (sound_tail _ _ _ Hs) as [Ht Hne]. cbn [foldl]. rewrite reverse_cons, foldl_app.
  rewrite IH; [|done|].
  - cbn [foldl]. destruct (sound_value _ _ Hs m Hm) as [v Hv].
    unfold undo_move, apply_move. cbn [fst snd]. rewrite Hv.
    pose proof (sound_ne _ _ m m Hs Hm Hm) as Hn.
    rewrite lookup_delete_ne, lookup_insert_eq by done. cbn [length]. f_equal; [|lia].
    apply map_eq. intros k. destruct (decide (k = mv_to m)) as [->|Hk].
    { rewrite lookup_delete_eq. symmetry. by apply Hfresh. }
    rewrite lookup_delete_ne by done. destruct (decide (k = mv_from m)) as [->|Hk'].
    { by rewrite lookup_insert_eq. }
    by rewrite lookup_insert_ne, lookup_delete_ne, lookup_insert_ne by done.
  - intros m' Hm'. destruct (Hne m' Hm') as (_ & _ & ? & ?).
    destruct (apply_move_lookup store m) as (_ & _ & Hk);
      [by apply (sound_value _ _ Hs)|exact (sound_ne _ _ m m Hs Hm Hm)|].
    rewrite Hk by done. by apply Hfresh, list_elem_of_further.
Qed.

Lemma elem_keys (store : gmap string json) k : k ∈ (map_to_list store).*1 <-> is_Some (store !! k).
Proof.
  split.
  - intros ([k' v] & -> & Hk)%list_elem_of_fmap. exists v. by apply elem_of_map_to_list.
  - intros [v Hv]. apply list_elem_of_fmap. exists (k, v). split; [done|].
    by apply elem_of_map_to_list.
Qed.
Lemma elem_sorted_keys store k : k ∈ sorted_keys store <-> is_Some (store !! k).
Proof. unfold sorted_keys. by rewrite elem_of_sort_by, elem_keys. Qed.
Lemma sorted_keys_NoDup store : NoDup (sorted_keys store).
Proof. unfold sorted_keys. rewrite sort_by_perm. apply NoDup_fst_map_to_list. Qed.

Definition org_of (options : BackfillOptions) : string := default DEFAULT_ORG_ID (opt_orgId options).
Definition project_of (options : BackfillOptions) : string :=
  default DEFAULT_PROJECT_ID (opt_projectId options).
Notation moved_in store options := (moved store options (org_of options) (project_of options)).
Notation conflicting_in store options :=
  (conflicting store options (org_of options) (project_of options)).

Lemma runBackfill_report store options store' r : runBackfill store options = Ok (store', r) ->
  bk_dryRun r = default true (opt_dryRun options) /\
  bk_moves r = omap (moved_in store options) (sorted_keys store) /\
  bk_conflicts r = omap (conflicting_in store options) (sorted_keys store) /\
  store' = (if bk_dryRun r then store else foldl apply_move store (bk_moves r)) /\
  (forall k, k ∈ sorted_keys store ->
     exists v, verdict store options (org_of options) (project_of options) k = Ok v) /\
  bk_total r = Z.of_nat (size store).
Proof.
  unfold runBackfill. fold (org_of options) (project_of options). intros H.
  destruct (tenantKeyPrefix _ _) as [target|]; [|done]. cbn in H.
  destruct (foldl_result _ _ _) as [r'|] eqn:E; [|done]. cbn in H. injection H as <- ->.
  apply fold_verdicts in E as [-> Hk]. cbn. split_and!; [done..| |].
  - intros k Hin. by apply Hk.
  - unfold sorted_keys. by rewrite sort_by_length, length_fmap, length_map_to_list.
Qed.
Lemma moves_elem store options m : m ∈ omap (moved_in store options) (sorted_keys store) <->
  is_Some (store !! mv_from m) /\ moved_in store options (mv_from m) = Some m.
Proof.
  rewrite list_elem_of_omap. split.
  - intros (k & Hk & Hm). pose proof Hm as Hm'. apply moved_Some in Hm' as [E _].
    rewrite E. cbn [mv_from]. rewrite E in Hm. by rewrite <- elem_sorted_keys.
  - intros [Hk Hm]. exists (mv_from m). by rewrite elem_sorted_keys.
Qed.
Lemma omap_NoDup {A B} (f : A -> option B) (l : list A) :
  (forall x y z, f x = Some z -> f y = Some z -> x = y) -> NoDup l -> NoDup (omap f l).
Proof.
  intros Hf. induction 1 as [|x l Hx Hl IH]; [constructor|]. rewrite omap_step.
  destruct (f x) as [z|] eqn:E; [|done]. cbn. apply NoDup_cons. split; [|done].
  intros (y & Hy & Ey)%list_elem_of_omap. by rewrite (Hf x y z E Ey) in Hx.
Qed.
Lemma moves_sound store options :
  sound_moves store (omap (moved_in store options) (sorted_keys store)).
Proof.
  split.
  - rewrite list_fmap_omap. apply omap_NoDup; [|apply sorted_keys_NoDup].
    intros x y z. destruct (moved_in store options x) as [m|] eqn:E; [|done].
    destruct (moved_in store options y) as [m'|] eqn:E'; [|done].
    apply moved_Some in E as [-> _], E' as [-> _]. cbn. congruence.
  - rewrite list_fmap_omap. apply omap_NoDup; [|apply sorted_keys_NoDup].
    intros x y z. destruct (moved_in store options x) as [m|] eqn:E; [|done].
    destruct (moved_in store options y) as [m'|] eqn:E'; [|done].
    apply moved_Some in E as (_ & _ & _ & H & _), E' as (_ & _ & _ & H' & _). cbn.
    intros [= <-] [= E]. rewrite E in H'. by eapply target_key_inj.
  - intros m [_ Hm]%moves_elem. apply moved_Some in Hm as (_ & Hf & _ & Ht & _).
    split; [done|]. by eapply target_key_tenant.
  - by intros m [Hv _]%moves_elem.
Qed.
Lemma moved_from store options o p k m : moved store options o p k = Some m -> k = mv_from m.
Proof. unfold moved. repeat case_goal; try done. by intros [= <-]. Qed.
Lemma conflicting_from store options o p k m :
  conflicting store options o p k = Some m -> k = mv_from m.
Proof. unfold conflicting. repeat case_goal; try done. by intros [= <-]. Qed.
Lemma conflicting_owned store options o p k m : conflicting store options o p k = Some m ->
  isTenantKey k = false /\ tenant_owned (opt_prefixes options) k = true.
Proof.
  unfold conflicting, verdict. destruct (isTenantKey k); [done|].
  by destruct (tenant_owned _ _).
Qed.
Lemma moved_not_conflicting store options o p k m m' :
  moved store options o p k = Some m -> conflicting store options o p k = Some m' -> False.
Proof. unfold moved, conflicting. by repeat case_goal. Qed.
(** What an applied backfill does to each key. *)
Lemma applied_lookup store options store' r :
  runBackfill store options = Ok (store', r) -> opt_dryRun options = Some false ->
  (forall m, m ∈ bk_moves r -> store' !! mv_to m = store !! mv_from m /\ store' !! mv_from m = None) /\
  forall k, k ∉ mv_from <$> bk_moves r -> k ∉ mv_to <$> bk_moves r -> store' !! k = store !! k.
Proof.
  intros H Hd. apply runBackfill_report in H as (Hr & Hm & _ & -> & _).
  rewrite Hd in Hr. cbn in Hr. rewrite Hr, Hm. apply apply_moves_lookup, moves_sound.
Qed.
(** A key that is still unscoped afterwards was there before and is in conflict,
    then as now. *)
Lemma still_unscoped store options store' r k :
  runBackfill store options = Ok (store', r) -> opt_dryRun options = Some false ->
  is_Some (store' !! k) -> isTenantKey k = false ->
  tenant_owned (opt_prefixes options) k = true ->
  store' !! k = store !! k /\
  exists m, conflicting_in store options k = Some m /\ conflicting_in store' options k = Some m.
Proof.
  intros H Hd Hk Ht Ho. destruct (applied_lookup _ _ _ _ H Hd) as [Hin Hout].
  apply runBackfill_report in H as (_ & Hm & _ & _ & Hv & _).
  assert (Hf : k ∉ mv_from <$> bk_moves r).
  { intros (m & -> & Hmm)%list_elem_of_fmap. destruct (Hin m Hmm) as [_ E]. rewrite E in Hk.
    by destruct Hk. }
  assert (Hto : k ∉ mv_to <$> bk_moves r).
  { intros (m & -> & Hmm)%list_elem_of_fmap. rewrite Hm in Hmm.
    destruct (sound_keys _ _ (moves_sound store options) m Hmm) as [_ E]. congruence. }
  pose proof (Hout k Hf Hto) as E. split; [done|]. rewrite E in Hk.
  assert (Hnm : moved_in store options k = None).
  { destruct (moved_in store options k) as [m|] eqn:Em; [|done]. exfalso. apply Hf.
    pose proof Em as ->%moved_from. apply list_elem_of_fmap.
    exists m. split; [done|]. rewrite Hm. by apply moves_elem. }
  destruct (Hv k) as [v Hv']; [by apply elem_sorted_keys|].
  unfold moved in Hnm. unfold conflicting. rewrite Hv' in *.
  unfold verdict in *. rewrite Ht, Ho in *. cbn [negb] in *.
  destruct (backfillTargetKey _ _ _) as [to|] eqn:Et; [|done]. cbn in *. injection Hv' as <-.
  case_decide as Hdec; [done|]. exists (mkMove k to). split; [done|].
  rewrite decide_False; [done|]. rewrite E, Hout; [done|..].
  - intros (m & -> & Hmm)%list_elem_of_fmap. rewrite Hm in Hmm.
    destruct (sound_keys _ _ (moves_sound store options) m Hmm) as [E' _].
    apply target_key_tenant in Et. congruence.
  - intros (m & -> & Hmm)%list_elem_of_fmap. apply Hf. rewrite Hm in *.
    pose proof Hmm as [_ Em]%moves_elem. apply moved_Some in Em as (_ & _ & _ & Et' & _).
    rewrite (target_key_inj _ _ _ _ _ Et Et'). by apply list_elem_of_fmap_2.
Qed.

(** An applied backfill loses and overwrites nothing: every record is found
    under its key, or under the target of its move, which was free or held the
    same content; no key outside the report changes; the tenant-owned keys
    [findUnscopedKeys] still finds are the reported conflicts; and a second run
    has nothing left to move. *)
Theorem backfill_lossless store options store' r :
  runBackfill store options = Ok (store', r) -> opt_dryRun options = Some false ->
  (forall k v, store !! k = Some v ->
     store' !! k = Some v \/ exists m, m ∈ bk_moves r /\ mv_from m = k /\ store' !! mv_to m = Some v) /\
  (forall k v, store' !! k = Some v ->
     store !! k = Some v \/ exists m, m ∈ bk_moves r /\ mv_to m = k /\ store !! k = None) /\
  (forall k, k ∈ findUnscopedKeys (map_to_list store').*1 (opt_prefixes options) <->
     k ∈ mv_from <$> bk_conflicts r) /\
  (forall store'' r'', runBackfill store' options = Ok (store'', r'') ->
     store'' = store' /\ bk_moves r'' = []).
Proof.
  intros H Hd. destruct (applied_lookup _ _ _ _ H Hd) as [Hin Hout].
  pose proof (runBackfill_report _ _ _ _ H) as (_ & Hm & Hc & _ & _ & _).
  assert (Hto : forall m, m ∈ bk_moves r ->
    store !! mv_to m = None \/ store !! mv_to m = store !! mv_from m).
  { intros m Hmm. rewrite Hm in Hmm. apply moves_elem in Hmm as [_ E].
    by apply moved_Some in E as (_ & _ & _ & _ & E). }
  split_and!.
  - intros k v Hk. destruct (decide (k ∈ mv_from <$> bk_moves r)) as [Hf|Hf].
    { apply list_elem_of_fmap in Hf as (m & -> & Hmm). right. exists m.
      destruct (Hin m Hmm) as [-> _]. done. }
    left. destruct (decide (k ∈ mv_to <$> bk_moves r)) as [Ht|Ht]; [|by rewrite Hout].
    apply list_elem_of_fmap in Ht as (m & -> & Hmm). destruct (Hin m Hmm) as [-> _].
    destruct (Hto m Hmm); congruence.
  - intros k v Hk. destruct (decide (k ∈ mv_to <$> bk_moves r)) as [Ht|Ht].
    { apply list_elem_of_fmap in Ht as (m & -> & Hmm). destruct (Hin m Hmm) as [E _].
      destruct (Hto m Hmm) as [Hn|Hn]; [right; by exists m|left; congruence]. }
    left. destruct (decide (k ∈ mv_from <$> bk_moves r)) as [Hf|Hf]; [|by rewrite <- Hout].
    apply list_elem_of_fmap in Hf as (m & -> & Hmm). destruct (Hin m Hmm). congruence.
  - intros k. unfold findUnscopedKeys. rewrite list_elem_of_filter, elem_keys, Hc. split.
    + intros [[Ht Ho] Hk]. destruct (still_unscoped _ _ _ _ _ H Hd Hk Ht Ho) as (E & m & Ec & _).
      apply list_elem_of_fmap. exists m. split; [by eapply conflicting_from|].
      apply list_elem_of_omap. exists k. by rewrite elem_sorted_keys, <- E.
    + intros (m & -> & Hmm)%list_elem_of_fmap. apply list_elem_of_omap in Hmm as (k & Hk & Ec).
      rewrite <- (conflicting_from _ _ _ _ _ _ Ec). apply elem_sorted_keys in Hk.
      pose proof (conflicting_owned _ _ _ _ _ _ Ec) as Ho. split; [done|].
      rewrite Hout; [done|..]; intros (m' & E & Hm')%list_elem_of_fmap; rewrite Hm in Hm'.
      * apply moves_elem in Hm' as [_ Em]. rewrite <- E in Em.
        by apply (moved_not_conflicting _ _ _ _ _ _ _ Em) in Ec.
      * destruct (sound_keys _ _ (moves_sound store options) m' Hm') as [_ E']. destruct Ho. congruence.
  - intros store'' r'' H''. apply runBackfill_report in H'' as (_ & Hm'' & _ & -> & _).
    assert (E : bk_moves r'' = []).
    { rewrite Hm''. apply elem_of_nil_inv. intros m [Hk Em]%moves_elem.
      pose proof Em as (_ & Ht & Ho & _)%moved_Some.
      destruct (still_unscoped _ _ _ _ _ H Hd Hk Ht Ho) as (_ & m' & _ & Ec).
      by apply (moved_not_conflicting _ _ _ _ _ _ _ Em) in Ec. }
    rewrite E. by destruct (bk_dryRun r'').
Qed.
(** A store with a record to move, one in conflict and a global key. *)
Definition sample_options : BackfillOptions := mkOptions ["run:"%string] (Some false) None None.
Definition sample_store : gmap string json :=
  {[ "run:1"%string := JStr "a"; "run:2"%string := JStr "b"; "roles"%string := JStr "c";
     "org/org_default/project/prj_default/legacy/run%3A2"%string := JStr "d" ]}.
Lemma backfill_lossless_witness :
  match runBackfill sample_store sample_options with
  | Ok (store', r) =>
      length (bk_moves r) = 1%nat /\ length (bk_conflicts r) = 1%nat /\
      forall store'' r'', runBackfill store' sample_options = Ok (store'', r'') -> bk_moves r'' = []
  | Err _ => False
  end.
Proof.
  assert (Hshape : match runBackfill sample_store sample_options with
                   | Ok (_, r) => (length (bk_moves r), length (bk_conflicts r)) = (1, 1)%nat
                   | Err _ => False
                   end) by (by vm_compute).
  destruct (runBackfill sample_store sample_options) as [[store' r]|] eqn:E; [|done].
  destruct (backfill_lossless sample_store sample_options store' r E eq_refl)
    as (_ & _ & _ & Hsecond).
  injection Hshape as Hm Hc. split; [done|]. split; [done|].
  intros store'' r'' H''. by apply (Hsecond store'' r'').
Defined.

(** Rollback of an applied backfill gives the store back, each record counted,
    when the targets were free. *)
Theorem backfill_rollback store options store' r :
  runBackfill store options = Ok (store', r) -> opt_dryRun options = Some false ->
  (forall m, m ∈ bk_moves r -> store !! mv_to m = None) ->
  rollbackBackfill store' r = (store, Z.of_nat (length (bk_moves r))).
Proof.
  intros H Hd Hfresh. apply runBackfill_report in H as (Hr & Hm & _ & -> & _).
  rewrite Hd in Hr. cbn in Hr. unfold rollbackBackfill. rewrite Hr, Hm in *.
  apply undo_moves; [apply moves_sound|done].
Qed.
(** It is not when a target held an equal record: that record is deleted. *)
Example rollback_deletes_equal_target :
  let target := "org/org_default/project/prj_default/legacy/run%3A1"%string in
  let store : gmap string json := {[ "run:1"%string := JStr "a"; target := JStr "a" ]} in
  match runBackfill store sample_options with
  | Ok (store', r) => (rollbackBackfill store' r).1 !! target = None /\ store !! target = Some (JStr "a")
  | Err _ => False
  end.
Proof. vm_compute. done. Qed.
(** A dry run changes nothing and lists the moves and conflicts of an applied run. *)
Theorem dry_run_report store options options' store1 store2 r1 r2 :
  opt_prefixes options = opt_prefixes options' -> org_of options = org_of options' ->
  project_of options = project_of options' ->
  default true (opt_dryRun options) = true ->
  runBackfill store options = Ok (store1, r1) -> runBackfill store options' = Ok (store2, r2) ->
  store1 = store /\ bk_moves r1 = bk_moves r2 /\ bk_conflicts r1 = bk_conflicts r2.
Proof.
  intros Hp Ho Hj Hd H1 H2. apply runBackfill_report in H1 as (Hr & Hm1 & Hc1 & -> & _).
  apply runBackfill_report in H2 as (_ & Hm2 & Hc2 & _). rewrite Hr, Hd. split; [done|].
  rewrite Hm1, Hm2, Hc1, Hc2, Ho, Hj.
  split; apply list_omap_ext, Forall_Forall2_diag, Forall_forall; intros k _;
    unfold moved, conflicting, verdict; by rewrite Hp.
Qed.

(** ** Scopes that are granted *)

Lemma scope_match_spec ms orgId projectId m p : scope_match ms orgId projectId = Some (m, p) ->
  m ∈ ms /\ wants_org orgId m = true /\ reaches m p = true /\
  forall p', truthy projectId = Some p' -> p = p'.
Proof.
  unfold scope_match. destruct (truthy projectId) as [p'|].
  - destruct (List.find _ _) as [m'|] eqn:E; [|done]. intros [= -> ->].
    apply List.find_some in E as [Hin Hr]. rewrite <- list_elem_of_In, list_elem_of_filter in Hin.
    destruct Hin as [Hw Hin]. split_and!; try done. by intros p' [= <-].
  - repeat case_goal; try done. intros [= ->].
    assert (H : (m, p) ∈ filter (fun m => wants_org orgId m = true) ms ≫= listed_projects)
      by (rewrite Heql; apply list_elem_of_here).
    apply list_elem_of_bind in H as (m' & Hl & [Hw Hin]%list_elem_of_filter).
    unfold listed_projects in Hl. unfold reaches. destruct (ms_projects m') as [|ps] eqn:El.
    + by apply not_elem_of_nil in Hl.
    + apply list_elem_of_fmap in Hl as (q & [= -> ->] & Hq). rewrite El.
      split_and!; try done. by apply bool_decide_eq_true.
Qed.
(** A scope is granted by a membership of the principal that reaches the
    project, for the organisation and project asked for, with its role; a denial
    is audited once and a grant never. *)
Theorem resolve_authorised principal directory orgId projectId audits answer :
  resolveTenantScope principal directory orgId projectId = (audits, answer) ->
  match answer with
  | Ok scope =>
      audits = [] /\ is_Ok (scopePrefix scope) /\ sc_principal scope = principal /\
      (forall o, truthy orgId = Some o -> sc_orgId scope = o) /\
      (forall p, truthy projectId = Some p -> sc_projectId scope = p) /\
      exists m, m ∈ directory /\ ms_principal m = principal /\ ms_orgId m = sc_orgId scope /\
        reaches m (sc_projectId scope) = true /\ ms_role m = sc_role scope
  | Err access_denied => length audits = 1%nat
  | Err _ => audits = []
  end.
Proof.
  unfold resolveTenantScope. destruct (scope_match _ _ _) as [[m p]|] eqn:E; [|by intros [= <- <-]].
  apply scope_match_spec in E as (Hm & Hw & Hr & Hp). apply list_elem_of_filter in Hm as [Hpr Hm].
  intros [= <- <-]. destruct (tenantKeyPrefix (ms_orgId m) p) as [pre|e] eqn:Ek; cbn.
  - split_and!; try done.
    + by exists pre.
    + intros o Ho. unfold wants_org in Hw. rewrite Ho in Hw. by bools.
    + by exists m.
  - unfold tenantKeyPrefix in Ek. repeat case_in Ek; by simplify_eq.
Qed.
(** With a project and no organisation, the first of several reaching memberships
    is taken. *)
Example ambiguous_org_granted :
  let o c := (cat ["org_"; c; "aaaaaaaaaaaaaaaaaaaaaaaaa"])%string in
  let directory := [mkMembership "u" (o "a"%string) every_project analyst;
                    mkMembership "u" (o "b"%string) every_project maintainer] in
  resolveTenantScope "u" directory None (Some "prj_default"%string) =
  ([], Ok (mkScope (o "a"%string) "prj_default" "u" analyst)).
Proof. reflexivity. Qed.
