(* ===== verification/QueryLexer.v ===== *)
(** [app/search/grammar/lexer.ts]: the tokens of a search query, each with the
    span of the input it was read from.

    A position of the input is its index, the character before it ([startsTerm]
    looks back by one) and what is left of the input. *)

From S2P Require Import Prelude JsString CronParser.
From stdpp Require Import base list strings numbers.
From Stdlib Require Import ZArith Lia Ascii.
#[local] Open Scope Z_scope.

Inductive TokenType : Type :=
  | tk_word | tk_phrase | tk_colon | tk_gt | tk_gte | tk_lt | tk_lte | tk_lparen | tk_rparen
  | tk_minus | tk_or | tk_eof.
#[export] Instance TokenType_eq_dec : EqDecision TokenType.
Proof. solve_decision. Defined.
Record Token : Type := mkToken
  { tk_type : TokenType; tk_value : string; tk_start : Z; tk_end : Z }.
Record QueryError : Type := mkQueryError
  { qe_message : string; qe_position : Z; qe_expected : list string }.

Definition dquote : ascii := "034"%char.
Definition DQUOTE : string := String dquote EmptyString.
(** [DELIMITERS]: space, tab, newline and [: > < ( )] and the double quote. *)
Definition is_delimiter (c : ascii) : bool :=
  existsb (Z.eqb (code c)) [32; 9; 10; 58; 62; 60; 40; 41; 34].
Definition startsTerm (previous : option ascii) : bool :=
  match previous with None => true | Some c => is_ws c || bool_decide (c = "("%char) end.
(** The longest bare word, and what follows it. *)
Fixpoint take_word (s : string) : string * string :=
  match s with
  | String c s' =>
      if is_delimiter c then (EmptyString, s)
      else let '(w, rest) := take_word s' in (String c w, rest)
  | EmptyString => (EmptyString, EmptyString)
  end.
(** The text before the closing quote, and what follows the quote. *)
Fixpoint take_phrase (s : string) : option (string * string) :=
  match s with
  | String c s' =>
      if decide (c = dquote) then Some (EmptyString, s')
      else '(p, rest) ← take_phrase s'; Some (String c p, rest)
  | EmptyString => None
  end.
Fixpoint last_char (previous : option ascii) (s : string) : option ascii :=
  match s with String c s' => last_char (Some c) s' | EmptyString => previous end.
(** The operator at the head: its type and its width. *)
Definition comparison_token (c : ascii) (rest : string) : TokenType * string :=
  match rest with
  | String "=" _ => if decide (c = ">"%char) then (tk_gte, ">="%string) else (tk_lte, "<="%string)
  | _ => if decide (c = ">"%char) then (tk_gt, ">"%string) else (tk_lt, "<"%string)
  end.
Definition after_operator (rest : string) : string :=
  match rest with String "=" rest' => rest' | _ => rest end.

(** What a turn of the loop of [tokenize] does at a position: end, skip a
    character, push a token, or throw. *)
Inductive Turn : Type :=
  | turn_end
  | turn_skip (previous : option ascii) (rest : string)
  | turn_push (t : TokenType) (value : string) (previous : option ascii) (rest : string)
  | turn_throw (message : string) (expected : list string).
Definition lex_turn (previous : option ascii) (rest : string) : Turn :=
  match rest with
  | EmptyString => turn_end
  | String c rest' =>
      if is_ws c then turn_skip (Some c) rest'
      else if decide (c = "("%char) then turn_push tk_lparen "(" (Some c) rest'
      else if decide (c = ")"%char) then turn_push tk_rparen ")" (Some c) rest'
      else if decide (c = ":"%char) then turn_push tk_colon ":" (Some c) rest'
      else if decide (c = ">"%char \/ c = "<"%char) then
        let '(t, value) := comparison_token c rest' in
        turn_push t value (last_char None value) (after_operator rest')
      else if bool_decide (c = "-"%char) && startsTerm previous
      then turn_push tk_minus "-" (Some c) rest'
      else if decide (c = dquote) then
        match take_phrase rest' with
        | None => turn_throw "Unterminated quoted phrase." [("closing " ++ DQUOTE)%string]
        | Some (value, rest'') => turn_push tk_phrase value (Some dquote) rest''
        end
      else
        let '(value, rest'') := take_word rest in
        if decide (value = EmptyString)
        then turn_throw (cat ["Unexpected character "; DQUOTE; String c ""; DQUOTE; "."]) []
        else turn_push (if decide (value = "OR"%string) then tk_or else tk_word) value
               (last_char previous value) rest''
  end.
(** The loop; [None] when the fuel is spent.  Every turn takes a character or
    more, so the length of the input is enough ([tokenize_total]). *)
Fixpoint lex (fuel : nat) (previous : option ascii) (index : Z) (rest : string)
  : option (result QueryError (list Token)) :=
  match fuel with
  | O => None
  | S fuel' =>
      match lex_turn previous rest with
      | turn_end => Some (Ok [mkToken tk_eof EmptyString index index])
      | turn_skip previous' rest' => lex fuel' previous' (index + 1) rest'
      | turn_push t value previous' rest' =>
          let stop := index + (js_length rest - js_length rest') in
          tokens ← lex fuel' previous' stop rest';
          Some (ts ← tokens; Ok (mkToken t value index stop :: ts))
      | turn_throw message expected => Some (Err (mkQueryError message index expected))
      end
  end.
Definition tokenize (input : string) : option (result QueryError (list Token)) :=
  lex (S (String.length input)) None 0 input.
(** [' '.repeat(n)]. *)
Fixpoint repeat_space (n : nat) : string :=
  match n with O => EmptyString | S n' => String " " (repeat_space n') end.
Definition caretLine (input : string) (position : Z) : string :=
  cat [input; String "010" ""; repeat_space (Z.to_nat (Z.max 0 position)); "^"].

Example tokenize_example :
  tokenize "status:failed -(a OR fee>=10)" =
  Some (Ok [mkToken tk_word "status" 0 6; mkToken tk_colon ":" 6 7; mkToken tk_word "failed" 7 13;
            mkToken tk_minus "-" 14 15; mkToken tk_lparen "(" 15 16; mkToken tk_word "a" 16 17;
            mkToken tk_or "OR" 18 20; mkToken tk_word "fee" 21 24; mkToken tk_gte ">=" 24 26;
            mkToken tk_word "10" 26 28; mkToken tk_rparen ")" 28 29; mkToken tk_eof "" 29 29])%string.
Proof. reflexivity. Qed.

(** ** A turn reads a token's text *)

(** The source text of a token. *)
Definition token_text (t : TokenType) (value : string) : string :=
  match t with tk_phrase => (DQUOTE ++ value ++ DQUOTE)%string | _ => value end.
Definition no_delimiter (s : string) : Prop := all_chars (fun c => negb (is_delimiter c)) s = true.
Definition no_quote (s : string) : Prop := all_chars (fun c => negb (bool_decide (c = dquote))) s = true.
(** The values tokens of a type have. *)
Definition token_ok (t : TokenType) (value : string) : Prop :=
  match t with
  | tk_word => no_delimiter value /\ value <> EmptyString /\ value <> "OR"%string
  | tk_phrase => no_quote value
  | tk_colon => value = ":"%string
  | tk_gt => value = ">"%string
  | tk_gte => value = ">="%string
  | tk_lt => value = "<"%string
  | tk_lte => value = "<="%string
  | tk_lparen => value = "("%string
  | tk_rparen => value = ")"%string
  | tk_minus => value = "-"%string
  | tk_or => value = "OR"%string
  | tk_eof => value = EmptyString
  end.

Lemma take_word_spec s w rest : take_word s = (w, rest) ->
  s = (w ++ rest)%string /\ no_delimiter w /\
  match rest with String c _ => is_delimiter c = true | EmptyString => True end.
Proof.
  revert w rest. induction s as [|c s IH]; intros w rest H; cbn [take_word] in H.
  { by injection H as <- <-. }
  destruct (is_delimiter c) eqn:E; [by injection H as <- <-|].
  destruct (take_word s) as [w' r'] eqn:E'. injection H as <- <-.
  destruct (IH _ _ eq_refl) as (-> & Hw & Hr). unfold no_delimiter. cbn [all_chars].
  rewrite E. done.
Qed.
Lemma take_phrase_spec s v rest : take_phrase s = Some (v, rest) ->
  s = (v ++ DQUOTE ++ rest)%string /\ no_quote v.
Proof.
  revert v rest. induction s as [|c s IH]; intros v rest H; cbn [take_phrase] in H; [done|].
  destruct (decide (c = dquote)) as [->|E]; [by injection H as <- <-|].
  destruct (take_phrase s) as [[v' r']|] eqn:E'; [|done]. cbn in H. injection H as <- <-.
  destruct (IH _ _ eq_refl) as (-> & Hv). unfold no_quote. cbn [all_chars].
  rewrite bool_decide_eq_false_2 by done. done.
Qed.
Lemma take_phrase_None s : take_phrase s = None <-> no_quote s.
Proof.
  unfold no_quote. induction s as [|c s IH]; cbn [take_phrase all_chars]; [done|].
  destruct (decide (c = dquote)) as [->|E]; [by rewrite bool_decide_eq_true_2|].
  rewrite bool_decide_eq_false_2 by done. cbn [negb andb]. rewrite <- IH.
  by destruct (take_phrase s) as [[]|].
Qed.
(** A character no other branch takes is part of a word. *)
Lemma word_start c : is_ws c = false -> c <> "("%char -> c <> ")"%char -> c <> ":"%char ->
  ~ (c = ">"%char \/ c = "<"%char) -> c <> dquote -> is_delimiter c = false.
Proof.
  intros. destruct (is_delimiter c) eqn:E; [|done]. exfalso. revert E.
  destruct c as [[] [] [] [] [] [] [] []]; try discriminate; vm_compute; intros _; naive_solver.
Qed.
Lemma lex_turn_spec previous rest :
  match lex_turn previous rest with
  | turn_end => rest = EmptyString
  | turn_skip previous' rest' => exists c, rest = String c rest' /\ is_ws c = true
  | turn_push t value previous' rest' =>
      rest = (token_text t value ++ rest')%string /\ token_ok t value /\
      t <> tk_eof /\ token_text t value <> EmptyString
  | turn_throw message expected =>
      exists rest', rest = String dquote rest' /\ no_quote rest'
  end.
Proof.
  unfold lex_turn. destruct rest as [|c rest]; [done|].
  destruct (is_ws c) eqn:Ews; [by exists c|].
  destruct (decide (c = "("%char)) as [->|]; [done|].
  destruct (decide (c = ")"%char)) as [->|]; [done|].
  destruct (decide (c = ":"%char)) as [->|]; [done|].
  destruct (decide _) as [Hop|].
  { unfold comparison_token, after_operator. destruct rest as [|d rest].
    - destruct Hop as [-> | ->]; done.
    - destruct (decide (d = "="%char)) as [->|Hd].
      + destruct Hop as [-> | ->]; done.
      + destruct d as [[] [] [] [] [] [] [] []]; try done; by destruct Hop as [-> | ->]. }
  destruct (_ && _) eqn:Em; [by bools; subst|].
  destruct (decide (c = dquote)) as [->|].
  { destruct (take_phrase rest) as [[v r]|] eqn:Ep.
    - apply take_phrase_spec in Ep as [-> Hv]. split; [|done]. cbn [token_text].
      change (String dquote (v ++ DQUOTE ++ r) = String dquote ((v ++ DQUOTE) ++ r))%string.
      by rewrite append_assoc_r.
    - apply take_phrase_None in Ep. by exists rest. }
  assert (Hc : is_delimiter c = false) by (by apply word_start).
  destruct (take_word (String c rest)) as [w r] eqn:Ew.
  assert (Hne : w <> EmptyString).
  { cbn [take_word] in Ew. rewrite Hc in Ew. destruct (take_word rest). by injection Ew as <- _. }
  rewrite decide_False by done. apply take_word_spec in Ew as (-> & Hw & _).
  by destruct (decide (w = "OR"%string)) as [->|].
Qed.

(** ** The spans of the tokens *)

Definition blank (s : string) : Prop := all_chars is_ws s = true.
(** [spanned i s ts]: [s], which starts at index [i], is the text of the tokens
    in order, each at its span, with nothing but white space between them. *)
Inductive spanned : Z -> string -> list Token -> Prop :=
  | spanned_eof i gap :
      blank gap ->
      spanned i gap [mkToken tk_eof EmptyString (i + js_length gap) (i + js_length gap)]
  | spanned_token i gap t value stop rest ts :
      blank gap -> token_ok t value -> t <> tk_eof ->
      stop = i + js_length gap + js_length (token_text t value) ->
      spanned stop rest ts ->
      spanned i (gap ++ token_text t value ++ rest)
        (mkToken t value (i + js_length gap) stop :: ts).

Lemma js_length_app s t : js_length (s ++ t) = js_length s + js_length t.
Proof.
  unfold js_length. induction s as [|c s IH]; [done|].
  change (String c s ++ t)%string with (String c (s ++ t)). cbn [String.length]. lia.
Qed.
Lemma js_length_pos s : s <> EmptyString -> 0 < js_length s.
Proof. unfold js_length. destruct s; [done|]. cbn [String.length]. lia. Qed.
Lemma js_length_cons c s : js_length (String c s) = 1 + js_length s.
Proof. unfold js_length. cbn [String.length]. lia. Qed.
Lemma spanned_skip i c s ts : is_ws c = true -> spanned (i + 1) s ts -> spanned i (String c s) ts.
Proof.
  intros Hc H. inversion H as [j gap Hg|j gap t v stop rest ts' Hg Hv Ht Hstop Hr]; subst.
  - replace (i + 1 + js_length s) with (i + js_length (String c s)) by (rewrite js_length_cons; lia).
    apply spanned_eof. unfold blank. cbn [all_chars]. by rewrite Hc.
  - change (String c (gap ++ token_text t v ++ rest))%string
      with (String c gap ++ token_text t v ++ rest)%string.
    replace (i + 1 + js_length gap) with (i + js_length (String c gap)) in *
      by (rewrite js_length_cons; lia).
    by apply spanned_token; try done; unfold blank; cbn [all_chars]; rewrite Hc.
Qed.
(** Where the quote of an unterminated phrase is. *)
Definition unterminated_at (i : Z) (s : string) (position : Z) : Prop :=
  exists before after, s = (before ++ String dquote after)%string /\ no_quote after /\
    position = i + js_length before.
Lemma unterminated_later i s p t : unterminated_at (i + js_length t) s p ->
  unterminated_at i (t ++ s) p.
Proof.
  intros (before & after & -> & Ha & ->). exists (t ++ before)%string, after.
  rewrite append_assoc_r, js_length_app. split_and!; [done|done|lia].
Qed.

Lemma lex_spec fuel : forall previous i s, (String.length s < fuel)%nat ->
  exists r, lex fuel previous i s = Some r /\
    match r with
    | Ok ts => spanned i s ts
    | Err e => unterminated_at i s (qe_position e)
    end.
Proof.
  induction fuel as [|fuel IH]; intros previous i s Hl; [lia|]. cbn [lex].
  pose proof (lex_turn_spec previous s) as Ht.
  destruct (lex_turn previous s) as [|p r|t v p r|m e].
  - subst. eexists. split; [done|]. pose proof (spanned_eof i EmptyString eq_refl) as H.
    by rewrite Z.add_0_r in H.
  - destruct Ht as (c & -> & Hc). cbn [String.length] in Hl.
    destruct (IH p (i + 1) r ltac:(lia)) as (res & -> & Hres). exists res. split; [done|].
    destruct res; [by apply spanned_skip|]. by apply (unterminated_later i r _ (String c "")).
  - destruct Ht as (-> & Hv & Hne & Htext). apply js_length_pos in Htext.
    rewrite js_length_app. replace (i + (js_length (token_text t v) + js_length r - js_length r))
      with (i + js_length (token_text t v)) by lia.
    pose proof (js_length_app (token_text t v) r) as Hsum. unfold js_length in Hsum, Htext.
    destruct (IH p (i + js_length (token_text t v)) r ltac:(lia)) as (res & -> & Hres).
    eexists. split; [done|]. destruct res as [ts|e]; cbn; [|by apply unterminated_later].
    pose proof (spanned_token i EmptyString t v _ r ts eq_refl Hv Hne eq_refl) as H.
    change (js_length "") with 0 in H. rewrite Z.add_0_r in H. by apply H.
  - destruct Ht as (r & -> & Hr). eexists. split; [done|]. exists EmptyString, r.
    split_and!; [done|done|]. unfold js_length. simpl. lia.
Qed.

(** The lexer loses nothing and invents nothing: it always ends, with tokens
    whose texts, at their spans and with only white space between them, are the
    input; it throws only for a quote that has no closing one, at its position
    (so "Unexpected character" is unreachable). *)
Theorem tokenize_spans input :
  exists r, tokenize input = Some r /\
    match r with
    | Ok ts => spanned 0 input ts
    | Err e => unterminated_at 0 input (qe_position e)
    end.
Proof. apply lex_spec. lia. Qed.
