(* ===== verification/QueryParser.v ===== *)
(** [app/search/grammar/parser.ts]: the recursive-descent parser, and the grammar
    of its header as relations, which it decides.

    The parser's state is what is left of the tokens.  The list ends with an
    [eof] token that is never consumed, so that [peek] has a token to answer. *)

From S2P Require Import Prelude JsString CronParser QueryLexer.
From stdpp Require Import base list strings numbers.
From Stdlib Require Import ZArith Lia Ascii.
#[local] Open Scope Z_scope.

Inductive ComparisonOperator : Type := op_is | op_gt | op_gte | op_lt | op_lte.
#[export] Instance ComparisonOperator_eq_dec : EqDecision ComparisonOperator.
Proof. solve_decision. Defined.
Inductive QueryNode : Type :=
  | qn_and (children : list QueryNode)
  | qn_or (children : list QueryNode)
  | qn_not (child : QueryNode)
  | qn_field (field : string) (operator : ComparisonOperator) (value : string) (position : Z)
  | qn_text (value : string) (position : Z).

Definition OPERATOR_TOKENS (t : TokenType) : option ComparisonOperator :=
  match t with
  | tk_colon => Some op_is | tk_gt => Some op_gt | tk_gte => Some op_gte
  | tk_lt => Some op_lt | tk_lte => Some op_lte | _ => None
  end.
Definition startsPrimary (token : Token) : bool :=
  match tk_type token with tk_word | tk_phrase | tk_lparen | tk_minus => true | _ => false end.
Definition describe (token : Token) : string :=
  match tk_type token with
  | tk_eof => "the end of the query"
  | _ => cat [DQUOTE; tk_value token; DQUOTE]
  end.
Definition peek (ts : list Token) : Token := default (mkToken tk_eof EmptyString 0 0) (head ts).

(** A parser answers [None] when the fuel is spent. *)
Definition Parse (A : Type) : Type := option (result QueryError (A * list Token)).
Definition p_throw {A} (message : string) (position : Z) (expected : list string) : Parse A :=
  Some (Err (mkQueryError message position expected)).
Definition p_return {A} (a : A) (ts : list Token) : Parse A := Some (Ok (a, ts)).
Definition p_bind {A B} (p : Parse A) (f : A -> list Token -> Parse B) : Parse B :=
  match p with
  | None => None
  | Some (Err e) => Some (Err e)
  | Some (Ok (a, ts)) => f a ts
  end.
(** [children.length === 1 ? children[0] : { type, children }]. *)
Definition collapse (join : list QueryNode -> QueryNode) (children : list QueryNode) : QueryNode :=
  match children with [one] => one | _ => join children end.

(** [parsePrimary] on anything but a group. *)
Definition parse_term (ts : list Token) : Parse QueryNode :=
  let token := peek ts in
  match tk_type token with
  | tk_phrase => p_return (qn_text (tk_value token) (tk_start token)) (tail ts)
  | tk_word =>
      let ts := tail ts in
      match OPERATOR_TOKENS (tk_type (peek ts)) with
      | None => p_return (qn_text (tk_value token) (tk_start token)) ts
      | Some operator =>
          let operatorToken := peek ts in
          let ts := tail ts in
          let valueToken := peek ts in
          match tk_type valueToken with
          | tk_word | tk_phrase =>
              p_return (qn_field (tk_value token) operator (tk_value valueToken) (tk_start token))
                (tail ts)
          | _ =>
              p_throw (cat ["Expected a value after "; DQUOTE; tk_value token;
                            tk_value operatorToken; DQUOTE; "."])
                (tk_start valueToken) ["a value"; "a quoted phrase"]%string
          end
      end
  | _ =>
      p_throw (cat ["Expected a search term but found "; describe token; "."]) (tk_start token)
        ["a search term"; "a quoted phrase"; "("]%string
  end.
Fixpoint parseOr (fuel : nat) (ts : list Token) : Parse QueryNode :=
  match fuel with
  | O => None
  | S fuel' =>
      p_bind (parseAnd fuel' ts) (fun first ts =>
      p_bind (or_loop fuel' ts) (fun others ts =>
      p_return (collapse qn_or (first :: others)) ts))
  end
(** [while (this.peek().type === 'or')]. *)
with or_loop (fuel : nat) (ts : list Token) : Parse (list QueryNode) :=
  match fuel with
  | O => None
  | S fuel' =>
      match tk_type (peek ts) with
      | tk_or =>
          p_bind (parseAnd fuel' (tail ts)) (fun child ts =>
          p_bind (or_loop fuel' ts) (fun others ts => p_return (child :: others) ts))
      | _ => p_return [] ts
      end
  end
with parseAnd (fuel : nat) (ts : list Token) : Parse QueryNode :=
  match fuel with
  | O => None
  | S fuel' =>
      p_bind (parseUnary fuel' ts) (fun first ts =>
      p_bind (and_loop fuel' ts) (fun others ts =>
      p_return (collapse qn_and (first :: others)) ts))
  end
(** [while (startsPrimary(this.peek()))]. *)
with and_loop (fuel : nat) (ts : list Token) : Parse (list QueryNode) :=
  match fuel with
  | O => None
  | S fuel' =>
      if startsPrimary (peek ts)
      then p_bind (parseUnary fuel' ts) (fun child ts =>
           p_bind (and_loop fuel' ts) (fun others ts => p_return (child :: others) ts))
      else p_return [] ts
  end
with parseUnary (fuel : nat) (ts : list Token) : Parse QueryNode :=
  match fuel with
  | O => None
  | S fuel' =>
      match tk_type (peek ts) with
      | tk_minus => p_bind (parseUnary fuel' (tail ts)) (fun child ts => p_return (qn_not child) ts)
      | _ => parsePrimary fuel' ts
      end
  end
with parsePrimary (fuel : nat) (ts : list Token) : Parse QueryNode :=
  match fuel with
  | O => None
  | S fuel' =>
      match tk_type (peek ts) with
      | tk_lparen =>
          p_bind (parseOr fuel' (tail ts)) (fun inner ts =>
          match tk_type (peek ts) with
          | tk_rparen => p_return inner (tail ts)
          | _ => p_throw "Unclosed group." (tk_start (peek ts)) [")"%string]
          end)
      | _ => parse_term ts
      end
  end.
(** Six calls at most stand between two tokens ([parse_total]). *)
Definition parse_fuel (ts : list Token) : nat := 6 * length ts + 6.
(** [Parser.parse]. *)
Definition parse_tokens (ts : list Token) : option (result QueryError QueryNode) :=
  match parseOr (parse_fuel ts) ts with
  | None => None
  | Some (Err e) => Some (Err e)
  | Some (Ok (node, rest)) =>
      match tk_type (peek rest) with
      | tk_eof => Some (Ok node)
      | _ => Some (Err (mkQueryError (cat ["Unexpected "; describe (peek rest); "."])
                          (tk_start (peek rest)) ["end of query"; "OR"; "a search term"]%string))
      end
  end.
Definition parseQuery (input : string) : option (result QueryError QueryNode) :=
  match tokenize input with
  | None => None
  | Some (Err e) => Some (Err e)
  | Some (Ok ts) => parse_tokens ts
  end.

Example parse_example :
  parseQuery "status:failed -(a OR fee>=10)" =
  Some (Ok (qn_and [qn_field "status" op_is "failed" 0;
                    qn_not (qn_or [qn_text "a" 16; qn_field "fee" op_gte "10" 21])]))%string /\
  parseQuery "status:" =
  Some (Err (mkQueryError (cat ["Expected a value after "; DQUOTE; "status:"; DQUOTE; "."]) 7
               ["a value"; "a quoted phrase"]%string)).
Proof. split; reflexivity. Qed.

(** ** The grammar *)

(** The productions of the header of [parser.ts], over segments of tokens. *)
Inductive g_or : list Token -> QueryNode -> Prop :=
  | G_or ts ns : g_ors ts ns -> g_or ts (collapse qn_or ns)
with g_ors : list Token -> list QueryNode -> Prop :=
  | G_ors_one ts n : g_and ts n -> g_ors ts [n]
  | G_ors_more ts n t ts' ns :
      g_and ts n -> tk_type t = tk_or -> g_ors ts' ns -> g_ors (ts ++ t :: ts') (n :: ns)
with g_and : list Token -> QueryNode -> Prop :=
  | G_and ts ns : g_ands ts ns -> g_and ts (collapse qn_and ns)
with g_ands : list Token -> list QueryNode -> Prop :=
  | G_ands_one ts n : g_unary ts n -> g_ands ts [n]
  | G_ands_more ts n ts' ns : g_unary ts n -> g_ands ts' ns -> g_ands (ts ++ ts') (n :: ns)
with g_unary : list Token -> QueryNode -> Prop :=
  | G_not t ts n : tk_type t = tk_minus -> g_unary ts n -> g_unary (t :: ts) (qn_not n)
  | G_primary ts n : g_primary ts n -> g_unary ts n
with g_primary : list Token -> QueryNode -> Prop :=
  | G_group t ts n t' :
      tk_type t = tk_lparen -> g_or ts n -> tk_type t' = tk_rparen ->
      g_primary (t :: ts ++ [t']) n
  | G_term ts n : g_term ts n -> g_primary ts n
with g_term : list Token -> QueryNode -> Prop :=
  | G_phrase t : tk_type t = tk_phrase -> g_term [t] (qn_text (tk_value t) (tk_start t))
  | G_word t : tk_type t = tk_word -> g_term [t] (qn_text (tk_value t) (tk_start t))
  | G_field t o v operator :
      tk_type t = tk_word -> OPERATOR_TOKENS (tk_type o) = Some operator ->
      tk_type v = tk_word \/ tk_type v = tk_phrase ->
      g_term [t; o; v] (qn_field (tk_value t) operator (tk_value v) (tk_start t)).

Scheme g_or_ind' := Minimality for g_or Sort Prop
  with g_ors_ind' := Minimality for g_ors Sort Prop
  with g_and_ind' := Minimality for g_and Sort Prop
  with g_ands_ind' := Minimality for g_ands Sort Prop
  with g_unary_ind' := Minimality for g_unary Sort Prop
  with g_primary_ind' := Minimality for g_primary Sort Prop
  with g_term_ind' := Minimality for g_term Sort Prop.
Combined Scheme grammar_ind from g_or_ind', g_ors_ind', g_and_ind', g_ands_ind', g_unary_ind',
  g_primary_ind', g_term_ind'.

(** Segments of the grammar never hold the [eof] token. *)
Definition not_eof (t : Token) : Prop := tk_type t <> tk_eof.
Lemma segments_not_eof :
  (forall ts n, g_or ts n -> Forall not_eof ts) /\ (forall ts ns, g_ors ts ns -> Forall not_eof ts) /\
  (forall ts n, g_and ts n -> Forall not_eof ts) /\ (forall ts ns, g_ands ts ns -> Forall not_eof ts) /\
  (forall ts n, g_unary ts n -> Forall not_eof ts) /\
  (forall ts n, g_primary ts n -> Forall not_eof ts) /\ (forall ts n, g_term ts n -> Forall not_eof ts).
Proof.
  apply grammar_ind; intros; repeat (apply Forall_app_2 || constructor); unfold not_eof; try done;
    try congruence.
  - intros E. by rewrite E in *.
  - intros E. naive_solver congruence.
Qed.
#[local] Hint Extern 1 (Forall not_eof _) =>
  first [by eapply (proj1 segments_not_eof) | by eapply (proj1 (proj2 (proj2 segments_not_eof)))
        | by eapply (proj1 (proj2 (proj2 (proj2 (proj2 segments_not_eof)))))] : core.
(** [s] is left of [ts] when the tokens before it are consumed. *)
Definition left_of (s ts : list Token) : Prop := exists seg, ts = seg ++ s /\ Forall not_eof seg.
Lemma left_of_refl ts : left_of ts ts.
Proof. by exists []. Qed.
Lemma left_of_trans a b c : left_of a b -> left_of b c -> left_of a c.
Proof.
  intros (s & -> & Hs) (s' & -> & Hs'). exists (s' ++ s). rewrite app_assoc. split; [done|].
  by apply Forall_app_2.
Qed.
Lemma left_of_app seg ts : Forall not_eof seg -> left_of ts (seg ++ ts).
Proof. intros H. by exists seg. Qed.
Lemma left_of_cons t ts : not_eof t -> left_of ts (t :: ts).
Proof. intros H. exists [t]. split; [done|by constructor]. Qed.
Lemma left_of_tail ts : not_eof (peek ts) -> left_of (tail ts) ts.
Proof. destruct ts as [|t ts]; [done|]. apply left_of_cons. Qed.

(** ** What a parse answers *)

(** A parser with [k] levels above the terms: out of fuel only with less than
    [fuel] says, a segment read that the grammar gives the answer, or an error
    at the start of a token that was left. *)
Definition answers {A} (k : nat) (g : list Token -> A -> Prop) (fuel : nat) (ts : list Token)
    (p : Parse A) : Prop :=
  match p with
  | None => (fuel < 6 * length ts + k)%nat
  | Some (Ok (a, rest)) => exists seg, ts = seg ++ rest /\ g seg a
  | Some (Err e) => exists s, left_of s ts /\ qe_position e = tk_start (peek s)
  end.
Definition nonempty {A} (g : list Token -> A -> Prop) (seg : list Token) (a : A) : Prop :=
  seg <> [] /\ g seg a.
(** What the loops read: nothing, or more of the list. *)
Definition g_or_rest (seg : list Token) (ns : list QueryNode) : Prop :=
  (seg = [] /\ ns = []) \/ exists t seg', seg = t :: seg' /\ tk_type t = tk_or /\ g_ors seg' ns.
Definition g_and_rest (seg : list Token) (ns : list QueryNode) : Prop :=
  (seg = [] /\ ns = []) \/ g_ands seg ns.

Lemma answers_bind {A B} k (g : list Token -> A -> Prop) fuel' ts' (p : Parse A)
    k' (h : list Token -> B -> Prop) fuel ts (f : A -> list Token -> Parse B) :
  left_of ts' ts ->
  ((fuel' < 6 * length ts' + k)%nat -> (fuel < 6 * length ts + k')%nat) ->
  answers k g fuel' ts' p ->
  (forall a seg rest, ts' = seg ++ rest -> g seg a -> answers k' h fuel ts (f a rest)) ->
  answers k' h fuel ts (p_bind p f).
Proof.
  intros Hs Hf Hp Hk. unfold p_bind. destruct p as [[[a rest]|e]|]; cbn [answers] in Hp.
  - destruct Hp as (seg & E & Hg). by eapply Hk.
  - destruct Hp as (s & Hs' & E). exists s. split; [by eapply left_of_trans|done].
  - by apply Hf.
Qed.
Lemma answers_throw {A} k (g : list Token -> A -> Prop) fuel ts s m expected :
  left_of s ts -> answers k g fuel ts (p_throw m (tk_start (peek s)) expected).
Proof. intros Hs. by exists s. Qed.
Lemma peek_cons (ts : list Token) : tk_type (peek ts) <> tk_eof -> ts = peek ts :: tail ts.
Proof. by destruct ts. Qed.
#[local] Hint Resolve left_of_refl : core.

Lemma parse_term_answers k fuel ts : answers k (nonempty g_primary) fuel ts (parse_term ts).
Proof.
  unfold parse_term. destruct (tk_type (peek ts)) eqn:Et; try by apply answers_throw.
  - assert (E : ts = peek ts :: tail ts) by (apply peek_cons; congruence).
    destruct (OPERATOR_TOKENS _) as [operator|] eqn:Eo.
    + assert (E' : tail ts = peek (tail ts) :: tail (tail ts)).
      { apply peek_cons. intros H. by rewrite H in Eo. }
      destruct (tk_type (peek (tail (tail ts)))) eqn:Ev;
        try (apply answers_throw; eapply left_of_trans; apply left_of_tail; unfold not_eof;
             intros H; congruence || by rewrite H in Eo).
      all: exists [peek ts; peek (tail ts); peek (tail (tail ts))]; split;
        [by rewrite E at 1; rewrite E' at 1; rewrite (peek_cons (tail (tail ts))) at 1 by congruence|].
      all: split; [done|]; apply G_term, G_field; auto.
    + exists [peek ts]. split; [done|]. split; [done|]. by apply G_term, G_word.
  - assert (E : ts = peek ts :: tail ts) by (apply peek_cons; congruence).
    exists [peek ts]. split; [done|]. split; [done|]. by apply G_term, G_phrase.
Qed.

(** Every parser answers, with fuel for the tokens left. *)
Definition all_answer (fuel : nat) : Prop := forall ts,
  answers 4 (nonempty g_or) fuel ts (parseOr fuel ts) /\
  answers 1 g_or_rest fuel ts (or_loop fuel ts) /\
  answers 3 (nonempty g_and) fuel ts (parseAnd fuel ts) /\
  answers 3 g_and_rest fuel ts (and_loop fuel ts) /\
  answers 2 (nonempty g_unary) fuel ts (parseUnary fuel ts) /\
  answers 1 (nonempty g_primary) fuel ts (parsePrimary fuel ts).

Lemma g_ors_cons n seg rest ns : g_and seg n -> g_or_rest rest ns -> g_ors (seg ++ rest) (n :: ns).
Proof.
  intros Hn [[-> ->]|(t & seg' & -> & Ht & Hns)]; [|by apply G_ors_more].
  rewrite app_nil_r. by apply G_ors_one.
Qed.
Lemma g_ands_cons n seg rest ns : g_unary seg n -> g_and_rest rest ns -> g_ands (seg ++ rest) (n :: ns).
Proof.
  intros Hn [[-> ->]|Hns]; [|by apply G_ands_more]. rewrite app_nil_r. by apply G_ands_one.
Qed.
Lemma parseOr_answers fuel ts : all_answer fuel ->
  answers 4 (nonempty g_or) (S fuel) ts (parseOr (S fuel) ts).
Proof.
  intros IH. cbn [parseOr]. destruct (IH ts) as (_ & _ & Ha & _).
  eapply answers_bind; [apply left_of_refl| |exact Ha|]; [lia|]. intros n seg rest -> [Hne Hn].
  destruct (IH rest) as (_ & Hl & _).
  eapply (answers_bind _ _ _ rest); [by apply left_of_app; eauto| |exact Hl|]; [rewrite length_app; lia|].
  intros ns seg' rest' -> Hns. exists (seg ++ seg'). rewrite app_assoc. split; [done|]. split.
  - by destruct seg.
  - by apply G_or, g_ors_cons.
Qed.
Lemma or_loop_answers fuel ts : all_answer fuel ->
  answers 1 g_or_rest (S fuel) ts (or_loop (S fuel) ts).
Proof.
  intros IH. cbn [or_loop]. destruct (tk_type (peek ts)) eqn:Et;
    try (exists []; split; [done|by left]).
  rewrite (peek_cons ts) by congruence. generalize dependent (peek ts). intros t Et.
  generalize (tail ts). clear ts. intros ts. cbn [tail].
  destruct (IH ts) as (_ & _ & Ha & _).
  eapply answers_bind; [apply left_of_cons; unfold not_eof; congruence| |exact Ha|]; [cbn [length]; lia|].
  intros n seg rest -> [Hne Hn]. destruct (IH rest) as (_ & Hl & _).
  eapply (answers_bind _ _ _ rest);
    [apply (left_of_trans _ (seg ++ rest)); [by apply left_of_app; eauto|];
     apply left_of_cons; unfold not_eof; congruence| |exact Hl|];
    [cbn [length]; rewrite length_app; lia|].
  intros ns seg' rest' -> Hns. exists (t :: seg ++ seg'). rewrite app_assoc. split; [done|].
  right. exists t, (seg ++ seg'). split_and!; [done|done|by apply g_ors_cons].
Qed.
Lemma parseAnd_answers fuel ts : all_answer fuel ->
  answers 3 (nonempty g_and) (S fuel) ts (parseAnd (S fuel) ts).
Proof.
  intros IH. cbn [parseAnd]. destruct (IH ts) as (_ & _ & _ & _ & Hu & _).
  eapply answers_bind; [apply left_of_refl| |exact Hu|]; [lia|]. intros n seg rest -> [Hne Hn].
  destruct (IH rest) as (_ & _ & _ & Hl & _).
  eapply (answers_bind _ _ _ rest); [by apply left_of_app; eauto| |exact Hl|];
    [rewrite length_app; destruct seg; [done|]; cbn [length]; lia|].
  intros ns seg' rest' -> Hns. exists (seg ++ seg'). rewrite app_assoc. split; [done|]. split.
  - by destruct seg.
  - by apply G_and, g_ands_cons.
Qed.
Lemma and_loop_answers fuel ts : all_answer fuel ->
  answers 3 g_and_rest (S fuel) ts (and_loop (S fuel) ts).
Proof.
  intros IH. cbn [and_loop]. destruct (startsPrimary (peek ts)); [|exists []; split; [done|by left]].
  destruct (IH ts) as (_ & _ & _ & _ & Hu & _).
  eapply answers_bind; [apply left_of_refl| |exact Hu|]; [lia|]. intros n seg rest -> [Hne Hn].
  destruct (IH rest) as (_ & _ & _ & Hl & _).
  eapply (answers_bind _ _ _ rest); [by apply left_of_app; eauto| |exact Hl|];
    [rewrite length_app; destruct seg; [done|]; cbn [length]; lia|].
  intros ns seg' rest' -> Hns. exists (seg ++ seg'). rewrite app_assoc. split; [done|].
  right. by apply g_ands_cons.
Qed.
Lemma parseUnary_answers fuel ts : all_answer fuel ->
  answers 2 (nonempty g_unary) (S fuel) ts (parseUnary (S fuel) ts).
Proof.
  intros IH. cbn [parseUnary].
  assert (Hprimary : answers 2 (nonempty g_unary) (S fuel) ts (parsePrimary fuel ts)).
  { destruct (IH ts) as (_ & _ & _ & _ & _ & Hp). destruct (parsePrimary fuel ts) as [[[n rest]|e]|].
    - destruct Hp as (seg & E & Hne & Hn). exists seg. split; [done|]. split; [done|].
      by apply G_primary.
    - done.
    - cbn in *. lia. }
  destruct (tk_type (peek ts)) eqn:Et; try done. clear Hprimary.
  rewrite (peek_cons ts) by congruence. generalize dependent (peek ts). intros t Et.
  generalize (tail ts). clear ts. intros ts. cbn [tail].
  destruct (IH ts) as (_ & _ & _ & _ & Hu & _).
  eapply answers_bind; [apply left_of_cons; unfold not_eof; congruence| |exact Hu|]; [cbn [length]; lia|].
  intros n seg rest -> [Hne Hn]. exists (t :: seg). split; [done|]. split; [done|]. by apply G_not.
Qed.
Lemma parsePrimary_answers fuel ts : all_answer fuel ->
  answers 1 (nonempty g_primary) (S fuel) ts (parsePrimary (S fuel) ts).
Proof.
  intros IH. cbn [parsePrimary].
  destruct (tk_type (peek ts)) eqn:Et; try apply parse_term_answers.
  rewrite (peek_cons ts) by congruence. generalize dependent (peek ts). intros t Et.
  generalize (tail ts). clear ts. intros ts. cbn [tail].
  destruct (IH ts) as (Ho & _).
  eapply answers_bind; [apply left_of_cons; unfold not_eof; congruence| |exact Ho|]; [cbn [length]; lia|].
  intros n seg rest -> [Hne Hn].
  destruct (tk_type (peek rest)) eqn:Er;
    try (apply answers_throw; apply (left_of_trans _ (seg ++ rest)); [by apply left_of_app; eauto|];
         apply left_of_cons; unfold not_eof; congruence).
  exists (t :: seg ++ [peek rest]). rewrite (peek_cons rest) at 1 by congruence.
  split; [by rewrite <- app_comm_cons, <- app_assoc|]. split; [done|]. by apply G_group.
Qed.
Lemma parsers_answer fuel : all_answer fuel.
Proof.
  induction fuel as [|fuel IH]; intros ts; [cbn; split_and!; lia|].
  split_and!; eauto using parseOr_answers, or_loop_answers, parseAnd_answers, and_loop_answers,
    parseUnary_answers, parsePrimary_answers.
Qed.

(** ** The parser finds every derivation *)

Definition stop_primary (rest : list Token) : Prop := OPERATOR_TOKENS (tk_type (peek rest)) = None.
Definition stop_and (rest : list Token) : Prop := startsPrimary (peek rest) = false /\ stop_primary rest.
Definition stop_or (rest : list Token) : Prop := tk_type (peek rest) <> tk_or /\ stop_and rest.

Lemma bind_defined {A B} (p : Parse A) (f : A -> list Token -> Parse B) (a : A) (ts : list Token) :
  (p <> None -> p = Some (Ok (a, ts))) -> p_bind p f <> None -> p_bind p f = f a ts.
Proof. intros Hp Hd. rewrite Hp; [done|]. by intros ->. Qed.
Lemma fuel_left {A} (p : nat -> Parse A) (fuel : nat) :
  p O = None -> p fuel <> None -> exists fuel', fuel = S fuel'.
Proof. intros H0 H. destruct fuel as [|fuel]; [done|by exists fuel]. Qed.
Lemma or_loop_stop fuel rest : stop_or rest -> or_loop fuel rest <> None ->
  or_loop fuel rest = Some (Ok ([], rest)).
Proof. intros [Ht _] H. destruct fuel; [done|]. cbn [or_loop]. by destruct (tk_type (peek rest)). Qed.
Lemma and_loop_stop fuel rest : stop_and rest -> and_loop fuel rest <> None ->
  and_loop fuel rest = Some (Ok ([], rest)).
Proof. intros [Ht _] H. destruct fuel; [done|]. cbn [and_loop]. by rewrite Ht. Qed.

(** What starts an operand: never an operator, always taken by the loop. *)
Definition starts (ts : list Token) : Prop := forall rest, startsPrimary (peek (ts ++ rest)) = true.
Lemma starts_stop ts rest : starts ts -> stop_primary (ts ++ rest).
Proof.
  intros H. specialize (H rest). unfold stop_primary, startsPrimary in *.
  by destruct (tk_type (peek (ts ++ rest))).
Qed.
Lemma startsPrimary_type t : tk_type t = tk_word \/ tk_type t = tk_phrase \/
  tk_type t = tk_lparen \/ tk_type t = tk_minus -> startsPrimary t = true.
Proof. unfold startsPrimary. intros [-> |[-> |[-> | ->]]]; done. Qed.
Lemma operands_start :
  (forall ts n, g_or ts n -> True) /\ (forall ts ns, g_ors ts ns -> True) /\
  (forall ts n, g_and ts n -> True) /\ (forall ts ns, g_ands ts ns -> starts ts) /\
  (forall ts n, g_unary ts n -> starts ts) /\ (forall ts n, g_primary ts n -> starts ts) /\
  (forall ts n, g_term ts n -> starts ts).
Proof.
  apply grammar_ind; try done; unfold starts; intros; rewrite ?app_assoc_reverse; auto;
    apply startsPrimary_type; cbn; auto.
Qed.
Lemma parse_term_complete ts n rest : g_term ts n -> stop_primary rest ->
  parse_term (ts ++ rest) = Some (Ok (n, rest)).
Proof.
  intros H Hs. unfold parse_term, stop_primary in *. destruct H as [t Ht|t Ht|t o v op Ht Ho Hv]; cbn.
  - by rewrite Ht.
  - by rewrite Ht, Hs.
  - rewrite Ht, Ho. by destruct Hv as [-> | ->].
Qed.

(** One operand, then what the loop reads. *)
Definition p_list (operand : nat -> list Token -> Parse QueryNode)
    (loop : nat -> list Token -> Parse (list QueryNode)) (fuel : nat) (ts : list Token)
  : Parse (list QueryNode) :=
  p_bind (operand fuel ts) (fun child ts =>
  p_bind (loop fuel ts) (fun others ts => p_return (child :: others) ts)).
Lemma bind_assoc {A B C} (p : Parse A) (f : A -> list Token -> Parse B) (g : B -> list Token -> Parse C) :
  p_bind (p_bind p f) g = p_bind p (fun a ts => p_bind (f a ts) g).
Proof. by destruct p as [[[a ts]|e]|]. Qed.
Lemma parseOr_list fuel ts : parseOr (S fuel) ts =
  p_bind (p_list parseAnd or_loop fuel ts) (fun ns ts => p_return (collapse qn_or ns) ts).
Proof.
  unfold p_list. cbn [parseOr]. rewrite bind_assoc. destruct (parseAnd fuel ts) as [[[n r]|e]|]; try done.
  cbn. by destruct (or_loop fuel r) as [[[ns r']|e]|].
Qed.
Lemma parseAnd_list fuel ts : parseAnd (S fuel) ts =
  p_bind (p_list parseUnary and_loop fuel ts) (fun ns ts => p_return (collapse qn_and ns) ts).
Proof.
  unfold p_list. cbn [parseAnd]. rewrite bind_assoc. destruct (parseUnary fuel ts) as [[[n r]|e]|]; try done.
  cbn. by destruct (and_loop fuel r) as [[[ns r']|e]|].
Qed.
Lemma or_loop_more fuel t ts : tk_type t = tk_or ->
  or_loop (S fuel) (t :: ts) = p_list parseAnd or_loop fuel ts.
Proof. intros Ht. cbn [or_loop]. change (peek (t :: ts)) with t. by rewrite Ht. Qed.
Lemma and_loop_more fuel ts : startsPrimary (peek ts) = true ->
  and_loop (S fuel) ts = p_list parseUnary and_loop fuel ts.
Proof. intros Ht. cbn [and_loop]. by rewrite Ht. Qed.
Lemma parseUnary_minus fuel t ts : tk_type t = tk_minus ->
  parseUnary (S fuel) (t :: ts) =
  p_bind (parseUnary fuel ts) (fun child ts => p_return (qn_not child) ts).
Proof. intros Ht. cbn [parseUnary]. change (peek (t :: ts)) with t. by rewrite Ht. Qed.
Lemma parsePrimary_group fuel t ts : tk_type t = tk_lparen ->
  parsePrimary (S fuel) (t :: ts) =
  p_bind (parseOr fuel ts) (fun inner ts =>
    match tk_type (peek ts) with
    | tk_rparen => p_return inner (tail ts)
    | _ => p_throw "Unclosed group." (tk_start (peek ts)) [")"%string]
    end).
Proof. intros Ht. cbn [parsePrimary]. change (peek (t :: ts)) with t. by rewrite Ht. Qed.
(** A parser started on a segment reads it, when it answers at all. *)
Definition reads {A} (p : nat -> list Token -> Parse A) (stop : list Token -> Prop)
    (ts : list Token) (a : A) : Prop :=
  forall fuel rest, stop rest -> p fuel (ts ++ rest) <> None ->
    p fuel (ts ++ rest) = Some (Ok (a, rest)).

Lemma reads_ors_one ts n : reads parseAnd stop_and ts n -> reads (p_list parseAnd or_loop) stop_or ts [n].
Proof.
  intros IH fuel rest Hs. unfold p_list. intros Hd. pose proof Hs as [_ Ha].
  pose proof (bind_defined _ _ _ _ (IH fuel rest Ha) Hd) as E. rewrite E in *. clear E.
  by rewrite (bind_defined _ _ _ _ (or_loop_stop fuel rest Hs) Hd).
Qed.
Lemma reads_ors_more ts n t ts' ns : reads parseAnd stop_and ts n -> tk_type t = tk_or ->
  reads (p_list parseAnd or_loop) stop_or ts' ns ->
  reads (p_list parseAnd or_loop) stop_or (ts ++ t :: ts') (n :: ns).
Proof.
  intros IH Ht IH' fuel rest Hs. unfold p_list at 1 2. rewrite <- app_assoc, <- app_comm_cons. intros Hd.
  assert (Ha : stop_and (t :: ts' ++ rest)).
  { unfold stop_and, startsPrimary, stop_primary. cbn. by rewrite Ht. }
  rewrite (bind_defined _ _ _ _ (IH fuel _ Ha) Hd) in Hd |- *.
  destruct fuel as [|fuel]; [done|]. rewrite or_loop_more in Hd |- * by done.
  by rewrite (bind_defined _ _ _ _ (IH' fuel rest Hs) Hd).
Qed.
Lemma reads_ands_one ts n : reads parseUnary stop_primary ts n ->
  reads (p_list parseUnary and_loop) stop_and ts [n].
Proof.
  intros IH fuel rest Hs. unfold p_list. intros Hd. pose proof Hs as [_ Ha].
  pose proof (bind_defined _ _ _ _ (IH fuel rest Ha) Hd) as E. rewrite E in *. clear E.
  by rewrite (bind_defined _ _ _ _ (and_loop_stop fuel rest Hs) Hd).
Qed.
Lemma reads_ands_more ts n ts' ns : reads parseUnary stop_primary ts n -> starts ts' ->
  reads (p_list parseUnary and_loop) stop_and ts' ns ->
  reads (p_list parseUnary and_loop) stop_and (ts ++ ts') (n :: ns).
Proof.
  intros IH Ht IH' fuel rest Hs. unfold p_list at 1 2. rewrite <- app_assoc. intros Hd.
  rewrite (bind_defined _ _ _ _ (IH fuel _ (starts_stop _ rest Ht)) Hd) in Hd |- *.
  destruct fuel as [|fuel]; [done|]. rewrite and_loop_more in Hd |- * by done.
  by rewrite (bind_defined _ _ _ _ (IH' fuel rest Hs) Hd).
Qed.
Lemma reads_or ts ns : reads (p_list parseAnd or_loop) stop_or ts ns ->
  reads parseOr stop_or ts (collapse qn_or ns).
Proof.
  intros IH fuel rest Hs Hd. destruct fuel as [|fuel]; [done|]. rewrite parseOr_list in *.
  by rewrite (bind_defined _ _ _ _ (IH fuel rest Hs) Hd).
Qed.
Lemma reads_and ts ns : reads (p_list parseUnary and_loop) stop_and ts ns ->
  reads parseAnd stop_and ts (collapse qn_and ns).
Proof.
  intros IH fuel rest Hs Hd. destruct fuel as [|fuel]; [done|]. rewrite parseAnd_list in *.
  by rewrite (bind_defined _ _ _ _ (IH fuel rest Hs) Hd).
Qed.
Lemma reads_not t ts n : tk_type t = tk_minus -> reads parseUnary stop_primary ts n ->
  reads parseUnary stop_primary (t :: ts) (qn_not n).
Proof.
  intros Ht IH fuel rest Hs Hd. destruct fuel as [|fuel]; [done|].
  change ((t :: ts) ++ rest) with (t :: ts ++ rest) in *. rewrite parseUnary_minus in Hd |- * by done.
  by rewrite (bind_defined _ _ _ _ (IH fuel rest Hs) Hd).
Qed.
Lemma primary_start ts n : g_primary ts n -> forall rest, tk_type (peek (ts ++ rest)) <> tk_minus.
Proof.
  destruct 1 as [t ts n t' Ht Hn Ht'|ts n [t Ht|t Ht|t o v op Ht Ho Hv]]; intros rest; cbn; congruence.
Qed.
Lemma reads_primary ts n : g_primary ts n -> reads parsePrimary stop_primary ts n ->
  reads parseUnary stop_primary ts n.
Proof.
  intros Hp IH fuel rest Hs Hd. destruct fuel as [|fuel]; [done|]. cbn [parseUnary] in *.
  pose proof (primary_start _ _ Hp rest) as Hm.
  destruct (tk_type (peek (ts ++ rest))); try done; by apply IH.
Qed.
Lemma reads_group t ts n t' : tk_type t = tk_lparen -> reads parseOr stop_or ts n ->
  tk_type t' = tk_rparen -> reads parsePrimary stop_primary (t :: ts ++ [t']) n.
Proof.
  intros Ht IH Ht' fuel rest _ Hd. destruct fuel as [|fuel]; [done|]. revert Hd.
  rewrite <- app_comm_cons, <- app_assoc. cbn [app]. rewrite parsePrimary_group by done. intros Hd.
  assert (Hs : stop_or (t' :: rest)).
  { unfold stop_or, stop_and, stop_primary, startsPrimary. cbn. by rewrite Ht'. }
  pose proof (bind_defined _ _ _ _ (IH fuel _ Hs) Hd) as E. rewrite E. cbn. by rewrite Ht'.
Qed.
Lemma reads_term ts n : g_term ts n -> reads parsePrimary stop_primary ts n.
Proof.
  intros H fuel rest Hs Hd. destruct fuel as [|fuel]; [done|]. cbn [parsePrimary] in *.
  destruct (tk_type (peek (ts ++ rest))) eqn:E; try by apply parse_term_complete.
  exfalso. revert E. destruct H as [t Ht|t Ht|t o v op Ht Ho Hv]; cbn; congruence.
Qed.
Lemma parsers_complete :
  (forall ts n, g_or ts n -> reads parseOr stop_or ts n) /\
  (forall ts ns, g_ors ts ns -> reads (p_list parseAnd or_loop) stop_or ts ns) /\
  (forall ts n, g_and ts n -> reads parseAnd stop_and ts n) /\
  (forall ts ns, g_ands ts ns -> reads (p_list parseUnary and_loop) stop_and ts ns) /\
  (forall ts n, g_unary ts n -> reads parseUnary stop_primary ts n) /\
  (forall ts n, g_primary ts n -> reads parsePrimary stop_primary ts n) /\
  (forall ts n, g_term ts n -> g_term ts n).
Proof.
  apply grammar_ind; intros; eauto using reads_or, reads_ors_one, reads_ors_more, reads_and,
    reads_ands_one, reads_not, reads_group, reads_term, reads_primary, G_phrase, G_word, G_field.
  apply reads_ands_more; try done. destruct operands_start as (_ & _ & _ & Hstarts & _). by eapply Hstarts.
Qed.

(** ** The parser decides the grammar *)

(** The shape of the lexer's tokens: one [eof], at the end. *)
Definition ends_eof (ts : list Token) : Prop :=
  exists init stop, ts = init ++ [mkToken tk_eof EmptyString stop stop] /\ Forall not_eof init.
Lemma spanned_ends i s ts : spanned i s ts -> ends_eof ts.
Proof.
  induction 1 as [i gap Hg|i gap t v stop rest ts Hg Hv Ht Hs Hr (init & e & -> & Hi)].
  - by exists [], (i + js_length gap).
  - exists (mkToken t v (i + js_length gap) stop :: init), e. split; [done|]. by constructor.
Qed.
Lemma parseOr_total fuel ts : (6 * length ts + 4 <= fuel)%nat -> parseOr fuel ts <> None.
Proof.
  intros Hf Hn. destruct (parsers_answer fuel ts) as (H & _). rewrite Hn in H. cbn in H. lia.
Qed.
Lemma split_at_eof (init seg rest : list Token) (e : Token) :
  init ++ [e] = seg ++ rest -> Forall not_eof init -> tk_type (peek rest) = tk_eof ->
  Forall not_eof seg -> seg = init /\ rest = [e] \/ rest = [].
Proof.
  intros E Hi Hr Hs. destruct rest as [|t rest]; [by right|]. left. revert init E Hi.
  induction Hs as [|s seg Hs _ IH]; intros [|i init] E Hi.
  - by injection E as -> <-.
  - injection E as <- _. by inversion_clear Hi.
  - exfalso. injection E as _ E. by destruct seg.
  - injection E as -> E. inversion_clear Hi. by destruct (IH init E) as [-> ->].
Qed.
Lemma parse_tokens_answers init e : tk_type e = tk_eof -> Forall not_eof init ->
  exists r, parse_tokens (init ++ [e]) = Some r /\
    (forall n, r = Ok n <-> g_or init n) /\
    match r with
    | Ok _ => True
    | Err err => exists t, t ∈ init ++ [e] /\ qe_position err = tk_start t
    end.
Proof.
  intros He Hi. unfold parse_tokens.
  assert (Hd : parseOr (parse_fuel (init ++ [e])) (init ++ [e]) <> None).
  { apply parseOr_total. unfold parse_fuel. lia. }
  assert (Hcomplete : forall n, g_or init n ->
    parseOr (parse_fuel (init ++ [e])) (init ++ [e]) = Some (Ok (n, [e]))).
  { intros n Hn. apply (proj1 parsers_complete); [done| |done].
    unfold stop_or, stop_and, stop_primary, startsPrimary. cbn. by rewrite He. }
  destruct (parsers_answer (parse_fuel (init ++ [e])) (init ++ [e])) as (Ha & _).
  destruct (parseOr _ _) as [[[n rest]|err]|]; [| |done].
  - destruct Ha as (seg & E & Hne & Hn).
    destruct (decide (tk_type (peek rest) = tk_eof)) as [Hr|Hr].
    + pose proof (proj1 segments_not_eof _ _ Hn) as Hseg.
      assert (seg = init /\ rest = [e]) as [-> ->].
      { destruct (split_at_eof _ _ _ _ E Hi Hr Hseg) as [|Hnil]; [done|]. exfalso. rewrite Hnil, app_nil_r in E.
        subst seg. apply Forall_app in Hseg as [_ Hseg]. by inversion_clear Hseg. }
      cbn. rewrite He. exists (Ok n). split; [done|]. split; [|done]. intros n'. split.
      * by intros [= <-].
      * intros Hn'%Hcomplete. congruence.
    + eexists. split; [by destruct (tk_type (peek rest))|]. split.
      * intros n'. split; [done|]. intros Hn'%Hcomplete. injection Hn' as -> ->. done.
      * exists (peek rest). split; [|done]. rewrite E. apply elem_of_app. right.
        rewrite (peek_cons rest) by done. apply list_elem_of_here.
  - destruct Ha as (s & (seg & E & Hseg) & Hpos). eexists. split; [done|]. split.
    + intros n. split; [done|]. intros Hn%Hcomplete. done.
    + exists (peek s). split; [|done]. rewrite E. apply elem_of_app. right.
      destruct s as [|t s]; [|apply list_elem_of_here]. exfalso. rewrite app_nil_r in E. subst seg.
      apply Forall_app in Hseg as [_ Hseg]. by inversion_clear Hseg.
Qed.

(** The grammar is unambiguous. *)
Lemma grammar_unambiguous ts n n' : g_or ts n -> g_or ts n' -> n = n'.
Proof.
  intros H H'. set (e := mkToken tk_eof EmptyString 0 0).
  assert (Hs : stop_or [e]) by (by repeat split).
  pose proof (parseOr_total (6 * length (ts ++ [e]) + 4) (ts ++ [e]) ltac:(lia)) as Hd.
  destruct parsers_complete as [Hp _].
  pose proof (Hp _ _ H _ _ Hs Hd). pose proof (Hp _ _ H' _ _ Hs Hd). congruence.
Qed.
Lemma spanned_starts i s ts t : spanned i s ts -> t ∈ ts -> i <= tk_start t <= i + js_length s.
Proof.
  intros H. revert t.
  induction H as [i gap Hg|i gap ty v stop rest ts Hg Hv Ht Hs Hr IH]; intros t Hin.
  - apply list_elem_of_singleton in Hin as ->. cbn. unfold js_length. lia.
  - rewrite !js_length_app. apply elem_of_cons in Hin as [->|Hin]; cbn [tk_start].
    + unfold js_length. lia.
    + apply IH in Hin. unfold js_length in *. lia.
Qed.

(** The positions of the field terms of a tree are starts of its tokens. *)
Fixpoint field_terms (n : QueryNode) : list (string * ComparisonOperator * string * Z) :=
  match n with
  | qn_and children | qn_or children => concat (field_terms <$> children)
  | qn_not child => field_terms child
  | qn_field field operator value position => [(field, operator, value, position)]
  | qn_text _ _ => []
  end.
Definition placed (ts : list Token) (terms : list (string * ComparisonOperator * string * Z)) : Prop :=
  forall t, t ∈ terms -> exists tok, tok ∈ ts /\ t.2 = tk_start tok.
Lemma placed_app ts ts' l l' : placed ts l -> placed ts' l' -> placed (ts ++ ts') (l ++ l').
Proof.
  intros H H' t [Ht|Ht]%elem_of_app; [apply H in Ht|apply H' in Ht]; destruct Ht as (tok & ? & ?);
    exists tok; rewrite elem_of_app; auto.
Qed.
Lemma placed_wider ts ts' l : (forall t, t ∈ ts -> t ∈ ts') -> placed ts l -> placed ts' l.
Proof. intros Hs H t (tok & Hin & E)%H. eauto. Qed.
Lemma placed_collapse join ts ns : join = qn_or \/ join = qn_and ->
  placed ts (concat (field_terms <$> ns)) -> placed ts (field_terms (collapse join ns)).
Proof.
  intros [-> | ->]; destruct ns as [|n [|n' ns]]; cbn; rewrite ?app_nil_r; done.
Qed.
Lemma segments_positions :
  (forall ts n, g_or ts n -> placed ts (field_terms n)) /\
  (forall ts ns, g_ors ts ns -> placed ts (concat (field_terms <$> ns))) /\
  (forall ts n, g_and ts n -> placed ts (field_terms n)) /\
  (forall ts ns, g_ands ts ns -> placed ts (concat (field_terms <$> ns))) /\
  (forall ts n, g_unary ts n -> placed ts (field_terms n)) /\
  (forall ts n, g_primary ts n -> placed ts (field_terms n)) /\
  (forall ts n, g_term ts n -> placed ts (field_terms n)).
Proof.
  apply grammar_ind; intros; cbn [fmap list_fmap concat]; rewrite ?app_nil_r; auto using placed_collapse.
  - apply placed_app; [done|]. eapply placed_wider; [|done]. intros x. apply list_elem_of_further.
  - by apply placed_app.
  - eapply placed_wider; [|done]. intros x. apply list_elem_of_further.
  - eapply placed_wider; [|done]. intros x Hx. apply list_elem_of_further, elem_of_app. by left.
  - by intros x ?%not_elem_of_nil.
  - by intros x ?%not_elem_of_nil.
  - intros x ->%list_elem_of_singleton. exists t. split; [apply list_elem_of_here|done].
Qed.
Lemma parse_spec input :
  exists r, parseQuery input = Some r /\
    (forall n, r = Ok n <-> exists ts stop,
       tokenize input = Some (Ok (ts ++ [mkToken tk_eof EmptyString stop stop])) /\ g_or ts n) /\
    match r with Ok _ => True | Err e => 0 <= qe_position e <= js_length input end.
Proof.
  unfold parseQuery. destruct (lex_spec (S (String.length input)) None 0 input) as (r & Hr & Hs); [lia|].
  unfold tokenize. rewrite Hr. destruct r as [ts|e].
  - destruct (spanned_ends _ _ _ Hs) as (init & stop & -> & Hinit).
    destruct (parse_tokens_answers init (mkToken tk_eof EmptyString stop stop) eq_refl Hinit)
      as (r & -> & Hiff & Hpos).
    exists r. split; [done|]. split.
    + intros n. rewrite Hiff. split; [by exists init, stop|]. intros (ts & stop' & [= E] & Hn).
      by apply app_inj_tail in E as [-> _].
    + destruct r as [|err]; [done|]. destruct Hpos as (t & Ht & ->).
      pose proof (spanned_starts _ _ _ _ Hs Ht). lia.
  - exists (Err e). split; [done|]. split.
    + intros n. split; [done|]. by intros (ts & stop & E & _).
    + destruct Hs as (before & after & -> & _ & ->). rewrite js_length_app, js_length_cons.
      unfold js_length. lia.
Qed.

