(* ===== verification/QueryPrint.v ===== *)
(** A printer for query trees, and the round trip through the lexer and the
    parser: every tree the grammar can express is the answer to its printed form.

    The source has no printer; this one is the specification of the parser in the
    other direction: tokens separated by a space, parentheses where the level of
    the grammar needs them, every value quoted. *)

From S2P Require Import Prelude JsString CronParser QueryLexer QueryParser.
From stdpp Require Import base list strings numbers.
From Stdlib Require Import ZArith Lia Ascii.
#[local] Open Scope Z_scope.

(** ** The printer *)

(** A token without its span. *)
Definition Piece : Type := TokenType * string.
Definition kind (t : Token) : Piece := (tk_type t, tk_value t).
Definition render (ps : list Piece) : string := join_with " " ((fun p => token_text p.1 p.2) <$> ps).

Definition operator_piece (o : ComparisonOperator) : Piece :=
  match o with
  | op_is => (tk_colon, ":") | op_gt => (tk_gt, ">") | op_gte => (tk_gte, ">=")
  | op_lt => (tk_lt, "<") | op_lte => (tk_lte, "<=")
  end%string.
Definition group (needed : bool) (ps : list Piece) : list Piece :=
  if needed then (tk_lparen, "("%string) :: ps ++ [(tk_rparen, ")"%string)] else ps.
Fixpoint join_or (l : list (list Piece)) : list Piece :=
  match l with
  | [] => []
  | [ps] => ps
  | ps :: l' => ps ++ (tk_or, "OR"%string) :: join_or l'
  end.
(** Level 0 is [orExpr], 1 is [andExpr], 2 is [unary]. *)
Fixpoint pieces (level : nat) (n : QueryNode) : list Piece :=
  match n with
  | qn_or children => group (0 <? level)%nat (join_or (pieces 1 <$> children))
  | qn_and children => group (1 <? level)%nat (concat (pieces 2 <$> children))
  | qn_not child => (tk_minus, "-"%string) :: pieces 2 child
  | qn_field field operator value _ => [(tk_word, field); operator_piece operator; (tk_phrase, value)]
  | qn_text value _ => [(tk_phrase, value)]
  end.
Definition print_query (n : QueryNode) : string := render (pieces 0 n).

(** Names that can stand as a bare word at the start of a term. *)
Definition plain_word (w : string) : Prop :=
  no_delimiter w /\ w <> "OR"%string /\
  match w with String c _ => is_ws c = false /\ c <> "-"%char | EmptyString => False end.
(** The trees the grammar can express: lists of two or more, and values without quotes. *)
Fixpoint wf_node (n : QueryNode) : Prop :=
  match n with
  | qn_or children | qn_and children =>
      (2 <= length children)%nat /\ (fix all l := match l with [] => True | x :: l' => wf_node x /\ all l' end) children
  | qn_not child => wf_node child
  | qn_field field _ value _ => plain_word field /\ no_quote value
  | qn_text value _ => no_quote value
  end.
(** The tree without its positions. *)
Fixpoint erase (n : QueryNode) : QueryNode :=
  match n with
  | qn_or children => qn_or (erase <$> children)
  | qn_and children => qn_and (erase <$> children)
  | qn_not child => qn_not (erase child)
  | qn_field field operator value _ => qn_field field operator value 0
  | qn_text value _ => qn_text value 0
  end.

Section QueryNodeInd.
Context (P : QueryNode -> Prop).
Hypothesis P_and : forall children, Forall P children -> P (qn_and children).
Hypothesis P_or : forall children, Forall P children -> P (qn_or children).
Hypothesis P_not : forall child, P child -> P (qn_not child).
Hypothesis P_field : forall f o v p, P (qn_field f o v p).
Hypothesis P_text : forall v p, P (qn_text v p).

Fixpoint QueryNode_nested_ind (n : QueryNode) : P n :=
  let all := fix all (l : list QueryNode) : Forall P l :=
    match l with
    | [] => Forall_nil_2 P
    | x :: l' => Forall_cons_2 P x l' (QueryNode_nested_ind x) (all l')
    end in
  match n with
  | qn_and children => P_and children (all children)
  | qn_or children => P_or children (all children)
  | qn_not child => P_not child (QueryNode_nested_ind child)
  | qn_field f o v p => P_field f o v p
  | qn_text v p => P_text v p
  end.
End QueryNodeInd.
Lemma wf_children l : (fix all l := match l with [] => True | x :: l' => wf_node x /\ all l' end) l <-> Forall wf_node l.
Proof.
  induction l as [|x l IH]; [done|]. split.
  - intros [Hx Hl]. constructor; [done|]. by apply IH.
  - intros H. inversion_clear H as [|? ? Hx Hl]. split; [done|]. by apply IH.
Qed.

Example print_example :
  print_query (qn_and [qn_field "status" op_is "failed" 0;
                       qn_not (qn_or [qn_text "a b" 16; qn_field "fee" op_gte "10" 21])]) =
  cat ["status : "; DQUOTE; "failed"; DQUOTE; " - ( "; DQUOTE; "a b"; DQUOTE; " OR fee >= "; DQUOTE;
       "10"; DQUOTE; " )"]%string.
Proof. reflexivity. Qed.

(** ** The lexer reads a rendered list back *)

Definition piece_ok (p : Piece) : Prop :=
  match p.1 with
  | tk_word => plain_word p.2
  | tk_eof => False
  | t => token_ok t p.2
  end.
(** What is left is nothing, or starts with a space. *)
Definition spaced (rest : string) : Prop :=
  match rest with EmptyString => True | String c _ => c = " "%char end.
Definition fresh (previous : option ascii) : Prop := previous = None \/ previous = Some " "%char.

Lemma take_word_app w rest : no_delimiter w -> spaced rest -> take_word (w ++ rest) = (w, rest).
Proof.
  intros Hw Hr. induction w as [|c w IH]; cbn [take_word String.append].
  - destruct rest as [|c rest]; [done|]. cbn in Hr. by subst.
  - unfold no_delimiter in Hw. cbn [all_chars] in Hw. bools.
    change (String c w ++ rest)%string with (String c (w ++ rest)). cbn [take_word].
    rewrite H. by rewrite IH.
Qed.
Lemma take_phrase_app v rest : no_quote v ->
  take_phrase (v ++ String dquote rest) = Some (v, rest).
Proof.
  intros Hv. induction v as [|c v IH]; [done|]. unfold no_quote in Hv. cbn [all_chars] in Hv. bools.
  change (String c v ++ String dquote rest)%string with (String c (v ++ String dquote rest)).
  cbn [take_phrase]. rewrite decide_False by done. by rewrite IH.
Qed.
Lemma delimiter_cases c : is_delimiter c = false ->
  c <> "("%char /\ c <> ")"%char /\ c <> ":"%char /\ ~ (c = ">"%char \/ c = "<"%char) /\ c <> dquote.
Proof. intros H. split_and!; try by intros ->. by intros [-> | ->]. Qed.
Lemma lex_turn_word previous w rest : plain_word w -> spaced rest ->
  exists p, lex_turn previous (w ++ rest) = turn_push tk_word w p rest.
Proof.
  intros (Hd & Hor & Hc) Hr. pose proof (take_word_app w rest Hd Hr) as Ht.
  destruct w as [|c w]; [done|]. destruct Hc as [Hws Hm].
  change (String c w ++ rest)%string with (String c (w ++ rest)) in *. unfold lex_turn.
  unfold no_delimiter in Hd. cbn [all_chars] in Hd. bools.
  destruct (delimiter_cases c) as (? & ? & ? & ? & ?); [done|].
  rewrite Hws, !decide_False by done. rewrite bool_decide_eq_false_2 by done. cbn [andb].
  rewrite Ht, !decide_False by done. by eexists.
Qed.
Lemma lex_turn_or previous rest : spaced rest ->
  exists p, lex_turn previous ("OR" ++ rest) = turn_push tk_or "OR" p rest.
Proof.
  intros Hr. pose proof (take_word_app "OR" rest eq_refl Hr) as Ht.
  change ("OR" ++ rest)%string with (String "O" (String "R" rest)) in *. unfold lex_turn.
  cbv beta iota. change (is_ws "O") with false. cbv iota. rewrite !decide_False by (done || by intros []).
  cbn [andb]. rewrite Ht. by eexists.
Qed.
Lemma lex_turn_piece previous p rest : fresh previous -> piece_ok p -> spaced rest ->
  exists q, lex_turn previous (token_text p.1 p.2 ++ rest) = turn_push p.1 p.2 q rest.
Proof.
  destruct p as [t v]. unfold piece_ok. cbn [fst snd]. intros Hp Hv Hr.
  destruct t; cbn [token_text token_ok] in *; try done; try (by apply lex_turn_word); try (subst v; by apply lex_turn_or);
    try (by subst v; eexists).
  - change ((DQUOTE ++ v ++ DQUOTE) ++ rest)%string with (String dquote ((v ++ DQUOTE) ++ rest)).
    rewrite append_assoc_r. change (DQUOTE ++ rest)%string with (String dquote rest).
    unfold lex_turn. cbv beta iota. change (is_ws dquote) with false. cbv iota.
    rewrite !decide_False by (done || by intros []). cbn [andb]. rewrite decide_True by done.
    rewrite take_phrase_app by done. by eexists.
  - subst v. destruct rest as [|c rest]; [by eexists|]. cbn in Hr. subst c. by eexists.
  - subst v. destruct rest as [|c rest]; [by eexists|]. cbn in Hr. subst c. by eexists.
  - subst v. destruct Hp as [-> | ->]; by eexists.
Qed.

Definition tail_text (ps : list Piece) : string :=
  match ps with [] => EmptyString | _ => (" " ++ render ps)%string end.
Lemma render_cons p ps : render (p :: ps) = (token_text p.1 p.2 ++ tail_text ps)%string.
Proof. destruct ps as [|q ps]; [by rewrite append_empty|done]. Qed.
Lemma tail_text_spaced ps : spaced (tail_text ps).
Proof. by destruct ps. Qed.
(** The answer is the pieces, with spans, and the [eof] token. *)
Definition lexes_to (ps : list Piece) (r : result QueryError (list Token)) : Prop :=
  exists ts stop, r = Ok (ts ++ [mkToken tk_eof EmptyString stop stop]) /\ kind <$> ts = ps.
Lemma lex_render ps : Forall piece_ok ps -> forall fuel previous i r,
  (fresh previous -> lex fuel previous i (render ps) = Some r -> lexes_to ps r) /\
  (lex fuel previous i (tail_text ps) = Some r -> lexes_to ps r).
Proof.
  induction 1 as [|p ps Hp Hps IH]; intros fuel previous i r.
  { assert (H : lex fuel previous i EmptyString = Some r -> lexes_to [] r).
    { destruct fuel as [|fuel]; [done|]. intros [= <-]. by exists [], i. }
    split; [intros _|]; exact H. }
  assert (Hr : forall fuel previous i r, fresh previous ->
    lex fuel previous i (render (p :: ps)) = Some r -> lexes_to (p :: ps) r).
  { clear fuel previous i r. intros fuel previous i r Hf H. destruct fuel as [|fuel]; [done|].
    cbn [lex] in H. rewrite render_cons in H.
    destruct (lex_turn_piece previous p (tail_text ps) Hf Hp (tail_text_spaced ps)) as (q & E).
    rewrite E in H. destruct (lex fuel q _ (tail_text ps)) as [r'|] eqn:El; [|done].
    apply IH in El as (ts & stop & -> & Hk). cbn in H. injection H as <-.
    eexists (_ :: ts), stop. split; [done|]. cbn [fmap list_fmap]. rewrite Hk. by destruct p. }
  split; [apply Hr|]. destruct fuel as [|fuel]; [done|]. cbn [lex tail_text].
  change (lex_turn previous (" " ++ render (p :: ps)))
    with (turn_skip (Some " "%char) (render (p :: ps))).
  intros H. eapply Hr; [|exact H]. by right.
Qed.
Lemma tokenize_render ps : Forall piece_ok ps ->
  exists ts stop, tokenize (render ps) = Some (Ok (ts ++ [mkToken tk_eof EmptyString stop stop])) /\
    kind <$> ts = ps.
Proof.
  intros Hps. destruct (lex_spec (S (String.length (render ps))) None 0 (render ps)) as (r & Hr & _); [lia|].
  unfold tokenize. rewrite Hr.
  destruct (proj1 (lex_render ps Hps _ _ _ _) (or_introl eq_refl) Hr) as (ts & stop & -> & Hk).
  by exists ts, stop.
Qed.

(** ** The grammar derives the tree from its pieces *)

Lemma pieces_ok n : wf_node n -> forall level, Forall piece_ok (pieces level n).
Proof.
  assert (Hgroup : forall b ps, Forall piece_ok ps -> Forall piece_ok (group b ps)).
  { intros [] ps H; [|done]. cbn [group]. constructor; [done|]. apply Forall_app_2; [done|].
    by repeat constructor. }
  induction n as [cs IH|cs IH|c IH|f o v p|v p] using QueryNode_nested_ind; intros Hwf level; cbn [pieces].
  - apply Hgroup. destruct Hwf as [_ Hwf%wf_children].
    induction IH as [|c cs Hc _ IHcs]; [done|]. inversion_clear Hwf as [|? ? Hw Hws]. cbn [fmap list_fmap concat].
    apply Forall_app_2; auto.
  - apply Hgroup. destruct Hwf as [_ Hwf%wf_children].
    induction IH as [|c cs Hc _ IHcs]; [done|]. inversion_clear Hwf as [|? ? Hw Hws]. cbn [fmap list_fmap].
    destruct cs as [|c' cs]; [by apply Hc|]. cbn [join_or fmap list_fmap].
    apply Forall_app_2; [by apply Hc|]. constructor; [done|]. by apply IHcs.
  - constructor; [done|]. by apply IH.
  - destruct Hwf as [Hf Hv]. repeat constructor; try done; try apply Hf. by destruct o.
  - by repeat constructor.
Qed.
(** What a level of the grammar derives. *)
Definition derives (level : nat) : list Token -> QueryNode -> Prop :=
  match level with O => g_or | S O => g_and | _ => g_unary end.
Lemma derives_and ts n : g_unary ts n -> g_and ts n.
Proof. intros H. apply (G_and ts [n]). by apply G_ands_one. Qed.
Lemma derives_or ts n : g_and ts n -> g_or ts n.
Proof. intros H. apply (G_or ts [n]). by apply G_ors_one. Qed.
Lemma derives_unary level ts n : g_unary ts n -> derives level ts n.
Proof. intros H. destruct level as [|[|level]]; cbn; auto using derives_and, derives_or. Qed.
(** The segments whose pieces are [ps] give a tree that erases to [n]. *)
Definition gives {A} (g : list Token -> A -> Prop) (strip : A -> A) (ps : list Piece) (a : A) : Prop :=
  forall ts, kind <$> ts = ps -> exists a', g ts a' /\ strip a' = strip a.
Lemma gives_group ps n level : gives g_or erase ps n ->
  gives (derives level) erase (group true ps) n.
Proof.
  intros H ts E. cbn [group] in E. destruct ts as [|t ts]; [done|]. cbn [fmap list_fmap] in E.
  injection E as Ht Ht0 E. apply fmap_app_inv in E as (ts1 & ts2 & E1 & E2 & ->).
  destruct ts2 as [|t' [|]]; try done. injection E2 as Ht' _.
  destruct (H ts1 (eq_sym E1)) as (n' & Hn & He). exists n'. split; [|done].
  apply derives_unary, G_primary. by apply G_group.
Qed.
Lemma gives_ors cs : cs <> [] ->
  Forall (fun c => gives g_and erase (pieces 1 c) c) cs ->
  gives g_ors (fmap erase) (join_or (pieces 1 <$> cs)) cs.
Proof.
  intros Hne H. induction H as [|c cs Hc Hcs IH]; [done|]. intros ts E.
  destruct cs as [|c' cs].
  - destruct (Hc ts E) as (n & Hn & He). exists [n]. split; [by apply G_ors_one|]. cbn. by rewrite He.
  - cbn [fmap list_fmap join_or] in E. apply fmap_app_inv in E as (ts1 & ts2 & E1 & E2 & ->).
    destruct ts2 as [|t ts2]; [done|]. cbn [fmap list_fmap] in E2. injection E2 as Ht Ht0 E2.
    destruct (Hc ts1 (eq_sym E1)) as (n & Hn & He). destruct (IH ltac:(done) ts2 (eq_sym E2)) as (ns & Hns & Hes).
    exists (n :: ns). split; [by apply G_ors_more|]. cbn in *. by rewrite He, Hes.
Qed.
Lemma gives_ands cs : cs <> [] ->
  Forall (fun c => gives g_unary erase (pieces 2 c) c) cs ->
  gives g_ands (fmap erase) (concat (pieces 2 <$> cs)) cs.
Proof.
  intros Hne H. induction H as [|c cs Hc Hcs IH]; [done|]. intros ts E.
  cbn [fmap list_fmap concat] in E. destruct cs as [|c' cs].
  - cbn in E. rewrite app_nil_r in E. destruct (Hc ts E) as (n & Hn & He).
    exists [n]. split; [by apply G_ands_one|]. cbn. by rewrite He.
  - apply fmap_app_inv in E as (ts1 & ts2 & E1 & E2 & ->).
    destruct (Hc ts1 (eq_sym E1)) as (n & Hn & He). destruct (IH ltac:(done) ts2 (eq_sym E2)) as (ns & Hns & Hes).
    exists (n :: ns). split; [by apply G_ands_more|]. cbn in *. by rewrite He, Hes.
Qed.
Lemma collapse_join join cs (ns : list QueryNode) :
  (2 <= length cs)%nat -> erase <$> ns = erase <$> cs -> collapse join ns = join ns.
Proof.
  intros Hl E. apply (f_equal length) in E. rewrite !length_fmap in E.
  destruct ns as [|n [|n' ns]]; [done|cbn in *; lia|done].
Qed.
Lemma gives_or_node cs level : (2 <= length cs)%nat ->
  Forall (fun c => gives g_and erase (pieces 1 c) c) cs ->
  gives (derives level) erase (pieces level (qn_or cs)) (qn_or cs).
Proof.
  intros Hl H.
  assert (Hor : gives g_or erase (join_or (pieces 1 <$> cs)) (qn_or cs)).
  { intros ts E. destruct (gives_ors cs ltac:(by destruct cs; cbn in *; [lia|]) H ts E) as (ns & Hns & He).
    exists (collapse qn_or ns). split; [by apply G_or|]. rewrite (collapse_join _ cs) by done.
    cbn. by rewrite He. }
  destruct level as [|level]; [exact Hor|by apply gives_group].
Qed.
Lemma gives_and_node cs level : (2 <= length cs)%nat ->
  Forall (fun c => gives g_unary erase (pieces 2 c) c) cs ->
  gives (derives level) erase (pieces level (qn_and cs)) (qn_and cs).
Proof.
  intros Hl H.
  assert (Hand : gives g_and erase (concat (pieces 2 <$> cs)) (qn_and cs)).
  { intros ts E. destruct (gives_ands cs ltac:(by destruct cs; cbn in *; [lia|]) H ts E) as (ns & Hns & He).
    exists (collapse qn_and ns). split; [by apply G_and|]. rewrite (collapse_join _ cs) by done.
    cbn. by rewrite He. }
  assert (Hor : gives g_or erase (concat (pieces 2 <$> cs)) (qn_and cs)).
  { intros ts E. destruct (Hand ts E) as (n & Hn & He). exists n. split; [by apply derives_or|done]. }
  destruct level as [|[|level]]; [exact Hor|exact Hand|by apply gives_group].
Qed.
Lemma operator_piece_spec o : exists t, (operator_piece o).1 = t /\ OPERATOR_TOKENS t = Some o.
Proof. destruct o; by eexists. Qed.
Lemma pieces_give n : wf_node n -> forall level, gives (derives level) erase (pieces level n) n.
Proof.
  induction n as [cs IH|cs IH|c IH|f o v p|v p] using QueryNode_nested_ind; intros Hwf level.
  - destruct Hwf as [Hl Hwf%wf_children]. apply gives_and_node; [done|].
    rewrite Forall_forall in IH, Hwf. apply Forall_forall. intros c Hc.
    exact (IH c Hc (Hwf c Hc) 2%nat).
  - destruct Hwf as [Hl Hwf%wf_children]. apply gives_or_node; [done|].
    rewrite Forall_forall in IH, Hwf. apply Forall_forall. intros c Hc.
    exact (IH c Hc (Hwf c Hc) 1%nat).
  - intros [|t ts] E; [done|]. cbn [pieces fmap list_fmap] in E. injection E as Ht Ht0 E.
    destruct (IH Hwf 2%nat ts E) as (n & Hn & He). exists (qn_not n).
    split; [by apply derives_unary, G_not|]. cbn. by rewrite He.
  - intros [|t [|t' [|t'' [|]]]] E; try done. cbn in E.
    destruct (operator_piece_spec o) as (ty & Hty & Ho). injection E as Ht Hv Ho' Ht'' Hv''.
    exists (qn_field (tk_value t) o (tk_value t'') (tk_start t)).
    split; [|cbn; by subst f v]. apply derives_unary, G_primary, G_term, G_field; [done| |by right].
    rewrite <- Ho, <- Hty, <- Ho'. done.
  - intros [|t [|]] E; try done. cbn in E. injection E as Ht Hv.
    exists (qn_text (tk_value t) (tk_start t)). split; [|cbn; by subst v].
    by apply derives_unary, G_primary, G_term, G_phrase.
Qed.

Lemma print_parse_tree n : wf_node n ->
  exists n', parseQuery (print_query n) = Some (Ok n') /\ erase n' = erase n.
Proof.
  intros Hwf. destruct (tokenize_render (pieces 0 n) (pieces_ok n Hwf 0)) as (ts & stop & Ht & Hk).
  destruct (pieces_give n Hwf 0%nat ts Hk) as (n' & Hn & He). exists n'. split; [|done].
  destruct (parse_spec (print_query n)) as (r & Hr & Hiff & _). rewrite Hr. f_equal.
  apply Hiff. by exists ts, stop.
Qed.

(** Printing and parsing again gives the tree back, at every nesting of groups,
    negations and lists: nothing the grammar can express is lost or regrouped by
    the lexer or the parser. *)
Theorem print_parse n : wf_node n ->
  exists n', parseQuery (print_query n) = Some (Ok n') /\ erase n' = erase n.
Proof. apply print_parse_tree. Qed.
Lemma print_parse_witness :
  let n := qn_and [qn_field "status" op_is "failed" 0;
                   qn_not (qn_or [qn_text "a b" 0; qn_not (qn_not (qn_field "fee" op_gte "10" 0))])] in
  exists n', parseQuery (print_query n) = Some (Ok n') /\ erase n' = erase n.
Proof. intros n. apply (print_parse n). subst n. cbn. unfold plain_word. intuition (done || lia). Defined.
