(* ===== verification/QueryCompiler.v ===== *)
(** [app/search/grammar/fields.ts] and [compiler.ts]: the searchable fields, the
    compilation of a query tree to a predicate over runs, and the search itself.

    [Date.parse] reads a date-time without an offset in the zone of the host and
    is a parameter ([JsDate.date_parse] is an instance); so is the order of
    [localeCompare]. *)

From S2P Require Import Prelude JsDate JsString JsNumber CronParser QueryLexer QueryParser QueryPrint.
From stdpp Require Import base list strings numbers.
From Stdlib Require Import ZArith Lia Ascii.
#[local] Open Scope Z_scope.

(** ** [Number(s)] *)

(** A finite double is [m * 2 ^ e], as in [JsNumber]. *)
Definition Double : Type := Z * Z.
Definition compare_double (a b : Double) : comparison :=
  let e := Z.min a.2 b.2 in (a.1 * 2 ^ (a.2 - e) ?= b.1 * 2 ^ (b.2 - e)).
Fixpoint take_digits (s : string) : string * string :=
  match s with
  | String c s' =>
      if is_digit c then let '(d, rest) := take_digits s' in (String c d, rest) else (EmptyString, s)
  | EmptyString => (EmptyString, EmptyString)
  end.
Definition take_sign (s : string) : Z * string :=
  match s with String "-" s' => (-1, s') | String "+" s' => (1, s') | _ => (1, s) end.
(** The digits of a radix other than ten. *)
Definition radix_digit (radix : Z) (c : ascii) : option Z :=
  let d := if is_digit c then code c - 48
           else if (97 <=? code c) && (code c <=? 122) then code c - 87
           else if (65 <=? code c) && (code c <=? 90) then code c - 55 else radix in
  if d <? radix then Some d else None.
Fixpoint read_radix (radix acc : Z) (s : string) : option Z :=
  match s with
  | EmptyString => Some acc
  | String c s' => d ← radix_digit radix c; read_radix radix (acc * radix + d) s'
  end.
Definition read_exponent (s : string) : option Z :=
  match s with
  | EmptyString => Some 0
  | String c s' =>
      if decide (c = "e"%char \/ c = "E"%char)
      then let '(sign, digits) := take_sign s' in n ← parse_digits digits; Some (sign * n)
      else None
  end.
(** An unsigned decimal literal, as a ratio of integers. *)
Definition read_unsigned (s : string) : option (Z * Z) :=
  let '(whole, r1) := take_digits s in
  let '(frac, r2) := match r1 with String "." r => take_digits r | _ => (EmptyString, r1) end in
  n ← parse_digits (whole ++ frac);
  x ← read_exponent r2;
  let power := x - js_length frac in
  Some (if 0 <=? power then (n * 10 ^ power, 1) else (n, 10 ^ (- power))).
(** [Some d] when [Number(s)] is the finite double [d]. *)
Definition finite_number (s : string) : option Double :=
  let t := trim s in
  '(sign, (n, d)) ←
    match t with
    | EmptyString => Some (1, (0, 1))
    | String "0" (String c (String _ _ as r)) =>
        match (if decide (c = "x"%char \/ c = "X"%char) then Some 16
               else if decide (c = "o"%char \/ c = "O"%char) then Some 8
               else if decide (c = "b"%char \/ c = "B"%char) then Some 2 else None) with
        | Some radix =>
            match r with String _ _ => n ← read_radix radix 0 r; Some (1, (n, 1)) | _ => None end
        | None => q ← read_unsigned t; Some (1, q)
        end
    | _ => let '(sign, u) := take_sign t in q ← read_unsigned u; Some (sign, q)
    end;
  let x := double_ratio n d in
  if finite_double x then Some (sign * x.1, x.2) else None.

Example finite_number_examples :
  finite_number " 12.5 " = Some (7036874417766400, -49) /\ finite_number "1e3" <> None /\
  finite_number "0x1F" = finite_number "31" /\ finite_number "" = Some (0, 0) /\
  finite_number "-.5e1" = finite_number "-5" /\ finite_number "1e400" = None /\
  finite_number "." = None /\ finite_number "12px" = None /\ finite_number "Infinity" = None.
Proof. vm_compute. split_and!; done. Qed.

(** ** The fields *)

Inductive FieldKind : Type := fk_string | fk_enum | fk_number | fk_date | fk_boolean.
Record FieldSpec : Type := mkFieldSpec
  { fs_name : string; fs_kind : FieldKind; fs_values : option (list string); fs_description : string }.
Definition SEARCH_FIELDS : list FieldSpec :=
  [ mkFieldSpec "id" fk_string None "Run identifier";
    mkFieldSpec "status" fk_enum (Some ["running"; "completed"; "failed"; "cancelled"]) "Run status";
    mkFieldSpec "area" fk_enum (Some ["auth"; "state"; "budget"; "xdr"]) "Product area";
    mkFieldSpec "severity" fk_enum (Some ["low"; "medium"; "high"; "critical"])
      "Highest observed severity";
    mkFieldSpec "duration" fk_number None "Elapsed milliseconds";
    mkFieldSpec "seeds" fk_number None "Seed count";
    mkFieldSpec "cpu" fk_number None "CPU instructions";
    mkFieldSpec "memory" fk_number None "Memory bytes";
    mkFieldSpec "fee" fk_number None "Minimum resource fee";
    mkFieldSpec "queued" fk_date None "Queued timestamp (ISO date)";
    mkFieldSpec "started" fk_date None "Start timestamp (ISO date)";
    mkFieldSpec "finished" fk_date None "Finish timestamp (ISO date)";
    mkFieldSpec "tag" fk_string None "Any attached tag";
    mkFieldSpec "crash" fk_boolean None "Whether the run produced a crash";
    mkFieldSpec "category" fk_string None "Crash failure category";
    mkFieldSpec "signature" fk_string None "Crash signature" ]%string.
Definition findField (name : string) : option FieldSpec :=
  List.find (fun f => bool_decide (fs_name f = to_lower name)) SEARCH_FIELDS.
Definition fieldNames : list string := fs_name <$> SEARCH_FIELDS.
(** [locale_le a b]: [a.localeCompare(b) <= 0]. *)
Definition suggestFields (locale_le : string -> string -> bool) (prefix : string) : list FieldSpec :=
  let needle := to_lower (trim prefix) in
  let matches := if decide (needle = EmptyString) then SEARCH_FIELDS
                 else List.filter (fun f => startsWith (fs_name f) needle) SEARCH_FIELDS in
  sort_by (fun a b => locale_le (fs_name a) (fs_name b)) matches.

(** [ISO_DATE]: each part is told from the next by its first character. *)
Definition skip_digits (n : nat) (s : string) : option string := snd <$> read_digits n 0 s.
Definition iso_zone (s : string) : bool :=
  match s with
  | EmptyString | String "Z" EmptyString => true
  | String c s' =>
      bool_decide (c = "+"%char \/ c = "-"%char) &&
      bool_decide ((s1 ← skip_digits 2 s'; s2 ← expect ":" s1; skip_digits 2 s2) = Some EmptyString)
  end.
Definition iso_time (s : string) : bool :=
  match s1 ← skip_digits 2 s; s2 ← expect ":" s1; skip_digits 2 s2 with
  | None => false
  | Some (String ":" s3) =>
      match skip_digits 2 s3 with
      | None => false
      | Some (String "." s4) =>
          let '(digits, rest) := take_digits s4 in
          bool_decide (digits <> EmptyString) && iso_zone rest
      | Some rest => iso_zone rest
      end
  | Some rest => iso_zone rest
  end.
Definition ISO_DATE (s : string) : bool :=
  match s1 ← skip_digits 4 s; s2 ← expect "-" s1; s3 ← skip_digits 2 s2; s4 ← expect "-" s3;
        skip_digits 2 s4 with
  | None => false
  | Some EmptyString => true
  | Some (String "T" rest) => iso_time rest
  | Some _ => false
  end.
Example iso_date_examples :
  ISO_DATE "2026-08-01" = true /\ ISO_DATE "2026-08-01T10:20:30.5+02:00" = true /\
  ISO_DATE "2026-08-01T10:20" = true /\ ISO_DATE "2026-8-1" = false /\ ISO_DATE "2026-13-45" = true /\
  ISO_DATE "2026-08-01T10:20:30." = false.
Proof. vm_compute. done. Qed.

(** ** Runs *)

Record CrashDetail : Type := mkCrash { cd_failureCategory : string; cd_signature : string }.
(** What the search reads of a [FuzzingRun]; a measure that is no finite number
    is [None]. *)
Record FuzzingRun : Type := mkRun
  { run_id : string; run_status : string; run_area : string; run_severity : string;
    run_duration : option Double; run_seedCount : option Double;
    run_cpuInstructions : option Double; run_memoryBytes : option Double;
    run_minResourceFee : option Double;
    run_queuedAt : option string; run_startedAt : option string; run_finishedAt : option string;
    run_tags : option (list string); run_crashDetail : option CrashDetail }.
Inductive FieldValue : Type :=
  | fv_undefined | fv_string (s : string) | fv_number (d : Double) | fv_list (l : list string)
  | fv_boolean (b : bool).
Definition optional {A} (f : A -> FieldValue) (o : option A) : FieldValue :=
  match o with Some a => f a | None => fv_undefined end.
Definition readField (run : FuzzingRun) (field : FieldSpec) : FieldValue :=
  let named name := bool_decide (fs_name field = name) in
  (if named "id" then fv_string (run_id run)
   else if named "status" then fv_string (run_status run)
   else if named "area" then fv_string (run_area run)
   else if named "severity" then fv_string (run_severity run)
   else if named "duration" then optional fv_number (run_duration run)
   else if named "seeds" then optional fv_number (run_seedCount run)
   else if named "cpu" then optional fv_number (run_cpuInstructions run)
   else if named "memory" then optional fv_number (run_memoryBytes run)
   else if named "fee" then optional fv_number (run_minResourceFee run)
   else if named "queued" then optional fv_string (run_queuedAt run)
   else if named "started" then optional fv_string (run_startedAt run)
   else if named "finished" then optional fv_string (run_finishedAt run)
   else if named "tag" then fv_list (default [] (run_tags run))
   else if named "crash" then fv_boolean (bool_decide (run_crashDetail run <> None))
   else if named "category" then optional fv_string (cd_failureCategory <$> run_crashDetail run)
   else if named "signature" then optional fv_string (cd_signature <$> run_crashDetail run)
   else fv_undefined)%string.
(** [compareNumbers], given the order of its operands. *)
Definition compareNumbers (c : comparison) (operator : ComparisonOperator) : bool :=
  match operator, c with
  | op_is, Eq | op_gt, Gt | op_gte, Gt | op_gte, Eq | op_lt, Lt | op_lte, Lt | op_lte, Eq => true
  | _, _ => false
  end.
Definition contains_ci (needle s : string) : bool := includes (to_lower s) (to_lower needle).
(** The fields of kind string or enum hold a string, a list of them or nothing. *)
Definition substringMatch (haystack : FieldValue) (needle : string) : bool :=
  match haystack with
  | fv_string s => contains_ci needle s
  | fv_list l => existsb (contains_ci needle) l
  | fv_boolean b => contains_ci needle (if b then "true" else "false")
  | fv_undefined | fv_number _ => false
  end.

(** ** The compiler *)

Definition RunPredicate : Type := FuzzingRun -> bool.
Definition in_quotes (s : string) : string := cat [DQUOTE; s; DQUOTE].
Section Compiler.
Context (Date_parse : string -> option Z).

Definition compileFieldTerm (field : string) (operator : ComparisonOperator) (value : string)
    (position : Z) : result QueryError RunPredicate :=
  let throw message expected := Err (mkQueryError message position expected) in
  match findField field with
  | None => throw (cat ["Unknown field "; in_quotes field; "."]) fieldNames
  | Some spec =>
      match fs_kind spec with
      | fk_number =>
          match finite_number value with
          | None => throw (cat [in_quotes field; " expects a number but got "; in_quotes value; "."])
                      ["a number"]
          | Some expected =>
              Ok (fun run => match readField run spec with
                             | fv_number actual =>
                                 compareNumbers (compare_double actual expected) operator
                             | _ => false
                             end)
          end
      | fk_date =>
          if negb (ISO_DATE value)
          then throw (cat [in_quotes field; " expects an ISO date such as 2026-08-01, but got ";
                           in_quotes value; "."]) ["YYYY-MM-DD"; "YYYY-MM-DDTHH:MM:SSZ"]
          else
            let expected := Date_parse value in
            Ok (fun run => match readField run spec with
                           | fv_string actual =>
                               match Date_parse actual, expected with
                               | Some parsed, Some t => compareNumbers (parsed ?= t)%Z operator
                               | _, _ => false
                               end
                           | _ => false
                           end)
      | kind =>
          if negb (bool_decide (operator = op_is))
          then throw (cat [in_quotes field; " only supports "; in_quotes ":";
                           " — comparisons apply to numeric and date fields."]) [":"]
          else
            match kind with
            | fk_boolean =>
                if negb (bool_decide (value = "true" \/ value = "false"))
                then throw (cat [in_quotes field; " expects true or false but got "; in_quotes value; "."])
                       ["true"; "false"]
                else Ok (fun run => match readField run spec with
                                    | fv_boolean b => Bool.eqb b (bool_decide (value = "true"))
                                    | _ => false
                                    end)
            | _ =>
                match kind, fs_values spec with
                | fk_enum, Some values =>
                    if negb (bool_decide (to_lower value ∈ values))
                    then throw (cat [in_quotes value; " is not a valid "; field; "."]) values
                    else Ok (fun run => substringMatch (readField run spec) value)
                | _, _ => Ok (fun run => substringMatch (readField run spec) value)
                end
            end
      end
  end%string.
Definition free_text_candidates (run : FuzzingRun) : list string :=
  [run_id run; run_status run; run_area run; run_severity run] ++
  option_list (cd_failureCategory <$> run_crashDetail run) ++
  option_list (cd_signature <$> run_crashDetail run) ++ default [] (run_tags run).
Definition compileFreeText (value : string) : RunPredicate :=
  fun run => existsb (contains_ci value) (free_text_candidates run).
Fixpoint compileNode (node : QueryNode) : result QueryError RunPredicate :=
  let compile_all := fix compile_all (l : list QueryNode) : result QueryError (list RunPredicate) :=
    match l with
    | [] => Ok []
    | child :: l' => p ← compileNode child; ps ← compile_all l'; Ok (p :: ps)
    end in
  match node with
  | qn_and children => ps ← compile_all children; Ok (fun run => forallb (fun p => p run) ps)
  | qn_or children => ps ← compile_all children; Ok (fun run => existsb (fun p => p run) ps)
  | qn_not child => p ← compileNode child; Ok (fun run => negb (p run))
  | qn_field field operator value position => compileFieldTerm field operator value position
  | qn_text value _ => Ok (compileFreeText value)
  end.
Definition compileQuery (input : string) : option (result QueryError RunPredicate) :=
  match parseQuery input with
  | None => None
  | Some (Err e) => Some (Err e)
  | Some (Ok node) => Some (compileNode node)
  end.

(** [/(^|\s)-\S/]. *)
Fixpoint has_negation (previous : option ascii) (s : string) : bool :=
  match s with
  | String "-" (String c _ as s') =>
      (match previous with None => true | Some p => is_ws p end && negb (is_ws c)) ||
      has_negation (Some "-"%char) s'
  | String c s' => has_negation (Some c) s'
  | EmptyString => false
  end.
(** A round bracket, a colon, an angle bracket or a double quote. *)
Definition has_operator (s : string) : bool :=
  negb (all_chars (fun c => negb (existsb (Z.eqb (code c)) [40; 41; 58; 60; 62; 34])) s).
(** [/\s\bOR\b\s/]: a space and a letter make the word boundaries. *)
Fixpoint has_or (s : string) : bool :=
  match s with
  | String a (String "O" (String "R" (String b _)) as s') => (is_ws a && is_ws b) || has_or s'
  | String _ s' => has_or s'
  | EmptyString => false
  end.
(** [/\S:\S/]. *)
Fixpoint has_colon (s : string) : bool :=
  match s with
  | String a (String ":" (String b _) as s') => (negb (is_ws a) && negb (is_ws b)) || has_colon s'
  | String _ s' => has_colon s'
  | EmptyString => false
  end.
Definition usesGrammar (input : string) : bool :=
  has_negation None input || has_operator input || has_or input || has_colon input.

Record SearchOutcome : Type := mkOutcome
  { so_runs : list FuzzingRun; so_error : option QueryError; so_usedFallback : bool }.
Definition searchRuns (runs : list FuzzingRun) (input : string) : option SearchOutcome :=
  let trimmed := trim input in
  if decide (trimmed = EmptyString) then Some (mkOutcome runs None true)
  else if negb (usesGrammar trimmed)
  then Some (mkOutcome (List.filter (compileFreeText trimmed) runs) None true)
  else
    match compileQuery trimmed with
    | None => None
    | Some (Ok predicate) => Some (mkOutcome (List.filter predicate runs) None false)
    | Some (Err e) => Some (mkOutcome [] (Some e) false)
    end.
End Compiler.

(** ** What a query means *)

Section Semantics.
Context (Date_parse : string -> option Z).
#[local] Notation term := (compileFieldTerm Date_parse).
#[local] Notation compile := (compileNode Date_parse).

(** A run matches a tree; a term that does not compile matches nothing. *)
Fixpoint matches (run : FuzzingRun) (n : QueryNode) : bool :=
  match n with
  | qn_and children => forallb (matches run) children
  | qn_or children => existsb (matches run) children
  | qn_not child => negb (matches run child)
  | qn_field field operator value _ =>
      match term field operator value 0 with Ok p => p run | Err _ => false end
  | qn_text value _ => compileFreeText value run
  end.
Definition term_error (t : string * ComparisonOperator * string * Z) : option QueryError :=
  let '(field, operator, value, position) := t in
  match term field operator value position with Ok _ => None | Err e => Some e end.
(** The first error of the terms. *)
Definition first_error (n : QueryNode) : option QueryError := head (omap term_error (field_terms n)).

(** The position of a term only shows in its error. *)
Lemma term_position f o v p p' : 
  match term f o v p, term f o v p' with
  | Ok q, Ok q' => q = q'
  | Err e, Err e' => qe_message e = qe_message e' /\ qe_expected e = qe_expected e' /\
                     qe_position e = p /\ qe_position e' = p'
  | _, _ => False
  end.
Proof.
  unfold compileFieldTerm. destruct (findField f) as [spec|]; [|done].
  destruct (fs_kind spec), (finite_number v), (ISO_DATE v), (bool_decide (o = op_is)),
    (bool_decide (v = "true" \/ v = "false")%string), (fs_values spec) as [values|]; try done;
    by destruct (bool_decide (to_lower v ∈ values)).
Qed.

(** A compiled list: the first error, or predicates that agree with the children. *)
Definition compiles (n : QueryNode) : Prop :=
  match first_error n with
  | Some e => compile n = Err e
  | None => exists p, compile n = Ok p /\ forall run, p run = matches run n
  end.
Definition compile_list (l : list QueryNode) : result QueryError (list RunPredicate) :=
  (fix compile_all (l : list QueryNode) : result QueryError (list RunPredicate) :=
    match l with
    | [] => Ok []
    | child :: l' => p ← compile child; ps ← compile_all l'; Ok (p :: ps)
    end) l.
Lemma compile_and cs : compile (qn_and cs) =
  ps ← compile_list cs; Ok (fun run => forallb (fun p => p run) ps).
Proof. done. Qed.
Lemma compile_or cs : compile (qn_or cs) =
  ps ← compile_list cs; Ok (fun run => existsb (fun p => p run) ps).
Proof. done. Qed.
Lemma omap_app {A B} (f : A -> option B) (l k : list A) : omap f (l ++ k) = omap f l ++ omap f k.
Proof. induction l as [|x l IH]; [done|]. rewrite <- app_comm_cons, !omap_step, IH. by rewrite app_assoc. Qed.
Lemma head_app {A} (l k : list A) : head (l ++ k) = match head l with Some x => Some x | None => head k end.
Proof. by destruct l. Qed.
Lemma compile_list_spec l : Forall compiles l ->
  match head (omap term_error (concat (field_terms <$> l))) with
  | Some e => compile_list l = Err e
  | None => exists ps, compile_list l = Ok ps /\
      Forall2 (fun p n => forall run, p run = matches run n) ps l
  end.
Proof.
  induction 1 as [|n l Hn _ IH]; [by exists []|]. cbn [fmap list_fmap concat].
  rewrite omap_app, head_app. unfold compiles, first_error in Hn. unfold compile_list in *.
  destruct (head (omap term_error (field_terms n))) as [e|]; [by rewrite Hn|].
  destruct Hn as (p & -> & Hp). cbn [mbind result_bind].
  destruct (head (omap term_error (concat (field_terms <$> l)))) as [e|]; [by rewrite IH|].
  destruct IH as (ps & -> & Hps). exists (p :: ps). split; [done|]. by constructor.
Qed.
Lemma predicates_and ps l run : Forall2 (fun p n => forall run, p run = matches run n) ps l ->
  forallb (fun p => p run) ps = forallb (matches run) l.
Proof. induction 1 as [|p n ps l Hp _ IH]; [done|]. cbn. by rewrite Hp, IH. Qed.
Lemma predicates_or ps l run : Forall2 (fun p n => forall run, p run = matches run n) ps l ->
  existsb (fun p => p run) ps = existsb (matches run) l.
Proof. induction 1 as [|p n ps l Hp _ IH]; [done|]. cbn. by rewrite Hp, IH. Qed.
(** Compilation answers the first error of the terms in reading order, or a
    predicate that is the meaning of the tree. *)
Lemma compileNode_spec n : compiles n.
Proof.
  induction n as [cs IH|cs IH|c IH|f o v p|v p] using QueryNode_nested_ind;
    unfold compiles, first_error; cbn [field_terms].
  - apply compile_list_spec in IH. rewrite compile_and.
    destruct (head _) as [e|]; [by rewrite IH|]. destruct IH as (ps & -> & Hps).
    eexists. split; [done|]. intros run. by apply predicates_and.
  - apply compile_list_spec in IH. rewrite compile_or.
    destruct (head _) as [e|]; [by rewrite IH|]. destruct IH as (ps & -> & Hps).
    eexists. split; [done|]. intros run. by apply predicates_or.
  - unfold compiles, first_error in IH. cbn [compileNode].
    destruct (head _) as [e|]; [by rewrite IH|]. destruct IH as (q & -> & Hq).
    eexists. split; [done|]. intros run. cbn. by rewrite Hq.
  - rewrite omap_step. cbn [compileNode omap list_omap]. unfold term_error.
    pose proof (term_position f o v p 0) as H.
    destruct (term f o v p) as [q|e] eqn:E; cbn [option_list option_rect app head]; [|done].
    exists q. split; [done|]. intros run. cbn [matches]. destruct (term f o v 0); [by subst|done].
  - by eexists.
Qed.
Lemma matches_erase run n : matches run (erase n) = matches run n.
Proof.
  induction n as [cs IH|cs IH|c IH|f o v p|v p] using QueryNode_nested_ind; cbn [erase matches]; try done.
  - induction IH as [|c cs Hc _ IHcs]; [done|]. cbn. by rewrite Hc, IHcs.
  - induction IH as [|c cs Hc _ IHcs]; [done|]. cbn. by rewrite Hc, IHcs.
  - by rewrite IH.
Qed.
End Semantics.

(** ** Searching for a printed tree *)

(** Texts that start with a character that is no white space, and that end with a
    double quote or a closing bracket. *)
Definition starts_dark (s : string) : Prop :=
  match s with String c _ => is_ws c = false | EmptyString => False end.
Definition closing (c : ascii) : Prop := c = dquote \/ c = ")"%char.
Definition ends_closed (s : string) : Prop := exists a c, s = (a ++ String c EmptyString)%string /\ closing c.

Lemma ends_closed_app s t : ends_closed t -> ends_closed (s ++ t).
Proof. intros (a & c & -> & Hc). exists (s ++ a)%string, c. by rewrite append_assoc_r. Qed.
Lemma starts_dark_app s t : starts_dark s -> starts_dark (s ++ t).
Proof. by destruct s. Qed.
Lemma trim_closed s : starts_dark s -> ends_closed s -> trim s = s.
Proof.
  intros Hs (a & c & -> & Hc). unfold trim.
  assert (He : trim_end (String c EmptyString) = String c EmptyString) by (by destruct Hc as [-> | ->]).
  rewrite trim_end_app by (by rewrite He). rewrite He.
  destruct (a ++ String c EmptyString)%string as [|d s]; [done|]. cbn in Hs. cbn [trim_start].
  by rewrite Hs.
Qed.
Lemma closed_grammar s : ends_closed s -> usesGrammar s = true.
Proof.
  intros (a & c & -> & Hc). unfold usesGrammar.
  assert (H : has_operator (a ++ String c EmptyString) = true).
  { unfold has_operator. rewrite all_chars_app. destruct Hc as [-> | ->]; by rewrite andb_false_r. }
  rewrite H. by rewrite orb_true_r.
Qed.
(** The first and the last piece of a tree. *)
Definition opens (p : Piece) : Prop := starts_dark (token_text p.1 p.2).
Definition closes (p : Piece) : Prop := ends_closed (token_text p.1 p.2).
Lemma phrase_closes v : closes (tk_phrase, v).
Proof.
  exists (DQUOTE ++ v)%string, dquote. split; [|by left]. cbn [fst snd token_text].
  by rewrite append_assoc_r.
Qed.
Lemma rparen_closes : closes (tk_rparen, ")"%string).
Proof. exists EmptyString, ")"%char. split; [done|by right]. Qed.
Definition framed (ps : list Piece) : Prop :=
  (exists p ps', ps = p :: ps' /\ opens p) /\ (exists ps' p, ps = ps' ++ [p] /\ closes p).
Lemma framed_app ps qs : framed ps -> framed qs -> framed (ps ++ qs).
Proof.
  intros [(p & ps' & -> & Hp) _] [_ (qs' & q & -> & Hq)]. split.
  - by exists p, (ps' ++ qs' ++ [q]).
  - exists ((p :: ps') ++ qs'), q. by rewrite <- app_assoc.
Qed.
Lemma framed_or ps qs : framed ps -> framed qs -> framed (ps ++ (tk_or, "OR"%string) :: qs).
Proof.
  intros [(p & ps' & -> & Hp) _] [_ (qs' & q & -> & Hq)]. split.
  - by eexists p, _.
  - exists ((p :: ps') ++ (tk_or, "OR"%string) :: qs'), q. by rewrite <- app_assoc.
Qed.
Lemma framed_group b ps : framed ps -> framed (group b ps).
Proof.
  intros H. destruct b; [|done]. split; cbn [group].
  - by eexists _, _.
  - exists ((tk_lparen, "("%string) :: ps), (tk_rparen, ")"%string). split; [done|apply rparen_closes].
Qed.
Lemma pieces_framed n : wf_node n -> forall level, framed (pieces level n).
Proof.
  induction n as [cs IH|cs IH|c IH|f o v p|v p] using QueryNode_nested_ind; intros Hwf level; cbn [pieces].
  - apply framed_group. destruct Hwf as [Hl Hwf%wf_children].
    assert (Hne : cs <> []) by (by intros ->; cbn in Hl; lia). clear Hl.
    induction IH as [|c cs Hc _ IHcs]; [done|]. inversion_clear Hwf as [|? ? Hw Hws].
    cbn [fmap list_fmap concat]. destruct cs as [|c' cs]; [cbn; rewrite app_nil_r; by apply Hc|].
    apply framed_app; [by apply Hc|by apply IHcs].
  - apply framed_group. destruct Hwf as [Hl Hwf%wf_children].
    assert (Hne : cs <> []) by (by intros ->; cbn in Hl; lia). clear Hl.
    induction IH as [|c cs Hc _ IHcs]; [done|]. inversion_clear Hwf as [|? ? Hw Hws].
    cbn [fmap list_fmap]. destruct cs as [|c' cs]; [by apply Hc|].
    cbn [join_or fmap list_fmap]. apply framed_or; [by apply Hc|by apply IHcs].
  - destruct (IH Hwf 2%nat) as [_ (ps & q & -> & Hq)]. split; [by eexists _, _|].
    by exists ((tk_minus, "-"%string) :: ps), q.
  - destruct Hwf as [(_ & _ & Hf) _]. split.
    + eexists _, _. split; [done|]. unfold opens. cbn. destruct f; [done|]. by destruct Hf.
    + exists [(tk_word, f); operator_piece o], (tk_phrase, v). split; [done|apply phrase_closes].
  - split; [by eexists _, _|]. exists [], (tk_phrase, v). split; [done|apply phrase_closes].
Qed.
Lemma render_last ps p : exists a, render (ps ++ [p]) = (a ++ token_text p.1 p.2)%string.
Proof.
  induction ps as [|q ps [a IH]]; [by exists EmptyString|]. rewrite <- app_comm_cons, render_cons.
  exists (token_text q.1 q.2 ++ " " ++ a)%string. rewrite !append_assoc_r, <- IH. by destruct ps.
Qed.
Lemma print_shape n : wf_node n -> starts_dark (print_query n) /\ ends_closed (print_query n).
Proof.
  intros Hwf. unfold print_query.
  destruct (pieces_framed n Hwf 0%nat) as [(p & ps & E & Hp) (qs & q & E' & Hq)]. split.
  - rewrite E, render_cons. by apply starts_dark_app.
  - rewrite E'. destruct (render_last qs q) as [a ->]. by apply ends_closed_app.
Qed.


Section Search.
Context (Date_parse : string -> option Z).
#[local] Notation search := (searchRuns Date_parse).

(** A term compiles or not wherever it stands. *)
Lemma field_terms_erase n : field_terms (erase n) = (fun t => (t.1, 0)) <$> field_terms n.
Proof.
  induction n as [cs IH|cs IH|c IH|f o v p|v p] using QueryNode_nested_ind; cbn [erase field_terms]; try done.
  - induction IH as [|c cs Hc _ IHcs]; [done|]. cbn [fmap list_fmap concat]. by rewrite Hc, fmap_app, <- IHcs.
  - induction IH as [|c cs Hc _ IHcs]; [done|]. cbn [fmap list_fmap concat]. by rewrite Hc, fmap_app, <- IHcs.
Qed.
(** The first error has the same message whatever the positions. *)
Lemma first_error_erase n n' : erase n = erase n' ->
  qe_message <$> first_error Date_parse n = qe_message <$> first_error Date_parse n'.
Proof.
  intros E. apply (f_equal field_terms) in E. rewrite !field_terms_erase in E. unfold first_error.
  revert E. generalize (field_terms n) as l, (field_terms n') as l'.
  induction l as [|[[[f o] v] p] l IH]; intros [|[[[f' o'] v'] p'] l'] E; try done.
  cbn [fmap list_fmap fst] in E. injection E as -> -> -> E. rewrite !omap_step, !head_app. cbn [term_error].
  pose proof (term_position Date_parse f' o' v' p p') as H.
  destruct (compileFieldTerm Date_parse f' o' v' p), (compileFieldTerm Date_parse f' o' v' p');
    try done; cbn [option_list option_rect head]; [by apply IH|]. cbn. by destruct H as [-> _].
Qed.

(** The printed form of a tree finds the runs the tree means, in their order; a
    tree with a bad term finds none and reports the first one. *)
Lemma search_print runs n : wf_node n ->
  match first_error Date_parse n with
  | None => search runs (print_query n) =
      Some (mkOutcome (List.filter (fun run => matches Date_parse run n) runs) None false)
  | Some e => exists e', search runs (print_query n) = Some (mkOutcome [] (Some e') false) /\
      qe_message e' = qe_message e
  end.
Proof.
  intros Hwf. destruct (print_shape n Hwf) as [Hs He]. unfold searchRuns.
  rewrite (trim_closed _ Hs He), (closed_grammar _ He). cbn [negb].
  rewrite decide_False by (by intros E; rewrite E in Hs).
  destruct (print_parse_tree n Hwf) as (n' & Hp & Ee). unfold compileQuery. rewrite Hp.
  pose proof (compileNode_spec Date_parse n') as Hc. unfold compiles in Hc.
  pose proof (first_error_erase n' n Ee) as Hm.
  destruct (first_error Date_parse n') as [e'|], (first_error Date_parse n) as [e|]; try done.
  - exists e'. rewrite Hc. by injection Hm as <-.
  - destruct Hc as (p & -> & Hq). do 2 f_equal. apply filter_ext. intros run.
    by rewrite Hq, <- matches_erase, Ee, matches_erase.
Qed.

(** The position of a bad term is the start of one of the tokens. *)
Lemma first_error_position n e : first_error Date_parse n = Some e ->
  exists t, t ∈ field_terms n /\ qe_position e = t.2.
Proof.
  unfold first_error. intros H. assert (Hin : e ∈ omap (term_error Date_parse) (field_terms n)).
  { destruct (omap _ _) as [|e' l]; [done|]. injection H as ->. apply list_elem_of_here. }
  apply list_elem_of_omap in Hin as ([[[f o] v] p] & Ht & He). exists (f, o, v, p). split; [done|].
  cbn in He. pose proof (term_position Date_parse f o v p p) as Hp.
  destruct (compileFieldTerm Date_parse f o v p); [done|]. injection He as <-. apply Hp.
Qed.
Lemma parsed_position input n t : parseQuery input = Some (Ok n) -> t ∈ field_terms n ->
  0 <= t.2 <= js_length input.
Proof.
  intros Hn Ht. destruct (parse_spec input) as (r & Hr & Hiff & _). rewrite Hn in Hr. injection Hr as <-.
  destruct (proj1 (Hiff n) eq_refl) as (ts & stop & Htok & Hg).
  destruct (proj1 segments_positions _ _ Hg t Ht) as (tok & Hin & ->).
  destruct (lex_spec (S (String.length input)) None 0 input) as (r & Hr & Hs); [lia|].
  unfold tokenize in Htok. rewrite Hr in Htok. injection Htok as ->.
  apply (spanned_starts 0 _ _ _ Hs). apply elem_of_app. by left.
Qed.
(** What a search answers. *)
Definition answered (runs : list FuzzingRun) (trimmed : string) (out : SearchOutcome) : Prop :=
  match so_error out with
  | Some e =>
      so_runs out = [] /\ so_usedFallback out = false /\ 0 <= qe_position e <= js_length trimmed
  | None =>
      (trimmed = EmptyString /\ so_runs out = runs /\ so_usedFallback out = true) \/
      (usesGrammar trimmed = false /\ so_runs out = List.filter (compileFreeText trimmed) runs /\
       so_usedFallback out = true) \/
      (exists n, parseQuery trimmed = Some (Ok n) /\ first_error Date_parse n = None /\
         so_runs out = List.filter (fun run => matches Date_parse run n) runs /\
         so_usedFallback out = false)
  end.
Lemma search_answers runs input :
  exists out, search runs input = Some out /\ answered runs (trim input) out.
Proof.
  unfold searchRuns, answered. destruct (decide (trim input = EmptyString)) as [E|E].
  { eexists. split; [done|]. by left. }
  destruct (usesGrammar (trim input)) eqn:Eg; cbn [negb].
  2: { eexists. split; [done|]. right. by left. }
  unfold compileQuery. destruct (parse_spec (trim input)) as (r & Hr & _ & Hpos). rewrite Hr.
  destruct r as [n|e]; [|eexists; split; [done|]; by cbn].
  pose proof (compileNode_spec Date_parse n) as Hc. unfold compiles in Hc.
  destruct (first_error Date_parse n) as [e|] eqn:Ee.
  - rewrite Hc. eexists. split; [done|]. cbn. split; [done|]. split; [done|].
    apply first_error_position in Ee as (t & Ht & ->). by eapply parsed_position.
  - destruct Hc as (p & -> & Hp). eexists. split; [done|]. right. right. exists n. cbn.
    split_and!; try done. apply filter_ext. intros run. by rewrite Hp.
Qed.
End Search.

(** Every search ends, and finds nothing silently: an error comes with no run
    and a position inside the trimmed query; without an error the runs are all
    those, in order, that the empty query, the legacy substring search (only for
    inputs without grammar) or the meaning of the parsed tree selects. *)
Theorem searchRuns_total Date_parse runs input :
  exists out, searchRuns Date_parse runs input = Some out /\
    answered Date_parse runs (trim input) out.
Proof. apply search_answers. Qed.

Definition sample_run (name status : string) (ms : Z) : FuzzingRun :=
  mkRun name status "auth" "low" (Some (ms, 0)) None None None None (Some "2026-08-01T00:00:00.000Z"%string)
    None None None None.

(** ** Terms *)

(** A value of an enumeration matches exactly: no value of a field is a substring
    of another one. *)
Lemma enum_exact name spec values value actual :
  findField name = Some spec -> fs_kind spec = fk_enum -> fs_values spec = Some values ->
  to_lower value ∈ values -> actual ∈ values ->
  substringMatch (fv_string actual) value = bool_decide (actual = to_lower value).
Proof.
  intros Hf Hk Hv. unfold substringMatch, contains_ci. generalize (to_lower value) as v. intros v.
  unfold findField in Hf. apply List.find_some in Hf as [Hin _].
  assert (Hall : forallb (fun spec => match fs_kind spec, fs_values spec with
    | fk_enum, Some values => forallb (fun v => forallb (fun a =>
        Bool.eqb (includes (to_lower a) v) (bool_decide (a = v))) values) values
    | _, _ => true end) SEARCH_FIELDS = true) by (by vm_compute).
  rewrite forallb_forall in Hall. apply Hall in Hin. rewrite Hk, Hv in Hin.
  rewrite !list_elem_of_In. intros Hv' Ha. rewrite forallb_forall in Hin. apply Hin in Hv'.
  rewrite forallb_forall in Hv'. apply Hv' in Ha. by apply Bool.eqb_prop in Ha.
Qed.
(** A date the calendar does not have passes [ISO_DATE], and the query silently
    finds nothing. *)
Example impossible_date_finds_nothing runs :
  searchRuns date_parse runs "queued<2026-13-45" = Some (mkOutcome [] None false).
Proof.
  change (Some (mkOutcome (List.filter (fun run => match optional fv_string (run_queuedAt run) with
    | fv_string actual => match date_parse actual, date_parse "2026-13-45" with
                          | Some p, Some t => compareNumbers (p ?= t) op_lt | _, _ => false end
    | _ => false end) runs) None false) = Some (mkOutcome [] None false)).
  do 2 f_equal. induction runs as [|run runs IH]; [done|]. cbn [List.filter]. rewrite IH.
  destruct (run_queuedAt run) as [s|]; [|done]. cbn [optional]. by destruct (date_parse s).
Qed.
(** An empty phrase is the number zero. *)
Example empty_number : first_error date_parse (qn_field "fee" op_lte "" 0) = None.
Proof. reflexivity. Qed.
