(* ===== verification/RateLimit.v ===== *)
(** [lib/fixed-window-limiter.ts], [lib/rate-limit.ts] and the limiting part of
    [src/rate-limit.ts]: fixed-window counters, the per-principal policies, and
    the two layers of the API proxy. *)

From S2P Require Import Prelude JsString Quotas.
From stdpp Require Import base list sets fin_sets gmap strings numbers sorting.
From Stdlib Require Import ZArith Lia Ascii.
#[local] Open Scope Z_scope.

(** ** The fixed-window limiter *)

Record Bucket : Type := mkBucket { bkt_count : Z; bkt_resetAt : Z }.
Record FixedWindowDecision : Type := mkDecision
  { dec_allowed : bool; dec_remaining : Z; dec_retryAfterSeconds : Z }.

Definition bucket_expired (t : Z) (b : option Bucket) : bool :=
  match b with None => true | Some b => bkt_resetAt b <=? t end.
Definition limiter_take (limit windowMs : Z) (key : string) (t : Z) (buckets : gmap string Bucket)
  : gmap string Bucket * FixedWindowDecision :=
  let '(buckets1, bucket) :=
    match buckets !! key with
    | Some b =>
        if bkt_resetAt b <=? t
        then (filter (fun kb => t < bkt_resetAt kb.2) buckets, mkBucket 0 (t + windowMs))
        else (buckets, b)
    | None => (filter (fun kb => t < bkt_resetAt kb.2) buckets, mkBucket 0 (t + windowMs))
    end in
  let bucket' := mkBucket (bkt_count bucket + 1) (bkt_resetAt bucket) in
  let allowed := bkt_count bucket' <=? limit in
  (<[key := bucket']> buckets1,
   mkDecision allowed (Z.max (limit - bkt_count bucket') 0)
     (Z.max (ceil_seconds (bkt_resetAt bucket' - t)) (if allowed then 0 else 1))).

(** ** Policies *)

Record RateLimitPolicy : Type := mkPolicy
  { pol_name : string; pol_limit : Z; pol_windowMs : Z; pol_cost : Z; pol_failClosed : bool }.

(** [Number.parseInt(value, 10)], without the values beyond the doubles. *)
Fixpoint digit_prefix (acc : option Z) (s : string) : option Z :=
  match s with
  | String c s' => if is_digit c then digit_prefix (Some (10 * default 0 acc + (code c - 48))) s' else acc
  | EmptyString => acc
  end.
Definition parse_int (s : string) : option Z :=
  match trim_start s with
  | String "-" s' => Z.opp <$> digit_prefix None s'
  | String "+" s' => digit_prefix None s'
  | s' => digit_prefix None s'
  end.
Definition readPositiveInt (value : option string) (fallback : Z) : Z :=
  match value with
  | None => fallback
  | Some s =>
      match parse_int s with
      | Some n => let d := to_double n in
                  if (0 <? d) && (d <? 2 ^ 1024) then d else fallback
      | None => fallback
      end
  end.

(** The environment variables that override the limits. *)
Record RateEnv : Type := mkRateEnv
  { env_default : option string; env_auth : option string; env_fuzz_trigger : option string;
    env_artifact_upload : option string; env_replay : option string }.
Definition no_rate_env : RateEnv := mkRateEnv None None None None None.
Definition RATE_LIMIT_POLICIES (env : RateEnv) : list (string * RateLimitPolicy) :=
  [("default", mkPolicy "default" (readPositiveInt (env_default env) 300) 60000 1 false);
   ("auth", mkPolicy "auth" (readPositiveInt (env_auth env) 20) 60000 1 true);
   ("fuzz-trigger", mkPolicy "fuzz-trigger" (readPositiveInt (env_fuzz_trigger env) 30) 60000 2 true);
   ("artifact-upload", mkPolicy "artifact-upload" (readPositiveInt (env_artifact_upload env) 60) 60000 3 true);
   ("replay", mkPolicy "replay" (readPositiveInt (env_replay env) 30) 60000 2 true)]%string.
Definition policy_named (env : RateEnv) (name : string) : option RateLimitPolicy :=
  snd <$> head (filter (fun p => p.1 = name) (RATE_LIMIT_POLICIES env)).
Definition default_policy (env : RateEnv) : RateLimitPolicy :=
  mkPolicy "default" (readPositiveInt (env_default env) 300) 60000 1 false.
Definition getPolicyForClass (env : RateEnv) (className : option string) : RateLimitPolicy :=
  match className with
  | None => default_policy env
  | Some c => if decide (c = ""%string) then default_policy env
              else default (default_policy env) (policy_named env c)
  end.

(** ** Route classes *)

Fixpoint strip_prefix (p s : string) : option string :=
  match p, s with
  | EmptyString, _ => Some s
  | String a p', String b s' => if decide (a = b) then strip_prefix p' s' else None
  | String _ _, EmptyString => None
  end.
Definition starts_with (p s : string) : bool :=
  match strip_prefix p s with Some _ => true | None => false end.
(** The text of a path after its first segment. *)
Fixpoint drop_segment (s : string) : string :=
  match s with
  | EmptyString => EmptyString
  | String c s' => if decide (c = "/"%char) then s else drop_segment s'
  end.
(** [/^\/api\/runs\/[^/]+<suffix>$/]: one non-empty segment, then the suffix. *)
Definition run_action (suffix s : string) : bool :=
  match strip_prefix "/api/runs/" s with
  | Some rest =>
      bool_decide (drop_segment rest = suffix) && negb (bool_decide (rest = suffix))
  | None => false
  end.
Definition rule_matches (method pathname : string) (rule : list string * (string -> bool) * string) : bool :=
  bool_decide (method ∈ rule.1.1) && rule.1.2 pathname.
Definition ROUTE_CLASS_RULES : list (list string * (string -> bool) * string) :=
  [(["POST"; "GET"], starts_with "/api/auth/", "auth");
   (["POST"], fun s => bool_decide (s = "/api/runs"%string), "fuzz-trigger");
   (["POST"], run_action "/replay", "fuzz-trigger");
   (["POST"], starts_with "/api/campaigns", "fuzz-trigger");
   (["POST"], run_action "/issues", "replay");
   (["POST"; "PUT"], starts_with "/api/artifacts", "artifact-upload");
   (["POST"], starts_with "/api/uploadthing", "artifact-upload")]%string.
Definition resolveRouteClass (method pathname : string) : string :=
  match List.find (rule_matches (to_upper method) pathname) ROUTE_CLASS_RULES with
  | Some rule => rule.2
  | None => "default"%string
  end.

(** ** The principal layer *)

(** One limiter per policy; what is missing is empty. *)
Definition limiter_of (className : string) (ls : gmap string (gmap string Bucket))
  : gmap string Bucket := default ∅ (ls !! className).
Record PrincipalRateLimitDecision : Type := mkPrincipalDecision
  { prl_allowed : bool; prl_policyClass : string; prl_remaining : Z; prl_resetAtMs : Z;
    prl_retryAfterSeconds : Z; prl_principalSubject : string }.
(** [take] called [n + 1] times; the last decision counts. *)
Fixpoint take_times (n : nat) (limit windowMs : Z) (key : string) (t : Z) (m : gmap string Bucket)
  : gmap string Bucket * FixedWindowDecision :=
  match n with
  | O => limiter_take limit windowMs key t m
  | S n' => take_times n' limit windowMs key t (limiter_take limit windowMs key t m).1
  end.
(** Every class of [resolveRouteClass] has its limiter; [t] is the limiter's
    clock and [now] the request's. *)
Definition applyPrincipalRateLimit (env : RateEnv) (subject method pathname : string) (t now : Z)
    (ls : gmap string (gmap string Bucket))
  : gmap string (gmap string Bucket) * PrincipalRateLimitDecision :=
  let className := resolveRouteClass method pathname in
  let policy := getPolicyForClass env (Some className) in
  let '(m, d) := take_times (Z.to_nat (pol_cost policy) - 1) (pol_limit policy) (pol_windowMs policy)
                   subject t (limiter_of className ls) in
  (<[className := m]> ls,
   mkPrincipalDecision (dec_allowed d) className (dec_remaining d)
     (now + dec_retryAfterSeconds d * 1000) (dec_retryAfterSeconds d) subject).

(** ** The proxy's IP layer *)

Record IpState : Type := mkIp { ip_buckets : gmap string Bucket; ip_lastCleanup : Z }.
Definition currentBucket (windowMs : Z) (key : string) (now : Z) (m : gmap string Bucket) : Bucket :=
  match m !! key with
  | Some b => if now <? bkt_resetAt b then b else mkBucket 0 (now + windowMs)
  | None => mkBucket 0 (now + windowMs)
  end.
Definition cleanupExpiredBuckets (windowMs now : Z) (s : IpState) : IpState :=
  if now - ip_lastCleanup s <? windowMs then s
  else mkIp (filter (fun kb => now < bkt_resetAt kb.2) (ip_buckets s)) now.
Definition clientKey (forwardedFor realIp : option string) : string :=
  let nonempty s := if decide (s = ""%string) then None else Some s in
  match forwardedFor ≫= fun f => nonempty (trim (hd ""%string (split_on "," f))) with
  | Some ip => ip
  | None => default "unknown"%string (realIp ≫= fun r => nonempty (trim r))
  end.
Inductive ProxyReply : Type :=
  | proxy_next | proxy_denied
  | proxy_limited (retryAfter remaining resetSeconds : Z)
  | proxy_allowed (remaining resetSeconds : Z).
Record ProxyState : Type := mkProxy
  { px_principal : gmap string (gmap string Bucket); px_ip : IpState }.
(** [subject] and [denied] are what the permission layer resolved. *)
Definition proxy (env : RateEnv) (windowMs maxRequests : Z) (method pathname subject : string)
    (denied : bool) (forwardedFor realIp : option string) (now : Z) (s : ProxyState)
  : ProxyState * ProxyReply :=
  if decide (method = "OPTIONS"%string) then (s, proxy_next)
  else if denied then (s, proxy_denied)
  else
    let '(ls, d) := applyPrincipalRateLimit env subject method pathname now now (px_principal s) in
    if negb (prl_allowed d) then
      (mkProxy ls (px_ip s),
       proxy_limited (Z.max (prl_retryAfterSeconds d) 1) (prl_remaining d)
         (Z.max (ceil_seconds (prl_resetAtMs d - now)) 0))
    else
      let ip := cleanupExpiredBuckets windowMs now (px_ip s) in
      let key := clientKey forwardedFor realIp in
      let b := currentBucket windowMs key now (ip_buckets ip) in
      let b' := mkBucket (bkt_count b + 1) (bkt_resetAt b) in
      let s' := mkProxy ls (mkIp (<[key := b']> (ip_buckets ip)) (ip_lastCleanup ip)) in
      let remaining := Z.max (maxRequests - bkt_count b') 0 in
      let resetSeconds := ceil_seconds (bkt_resetAt b' - now) in
      if maxRequests <? bkt_count b'
      then (s', proxy_limited (Z.max resetSeconds 1) remaining (Z.max resetSeconds 0))
      else (s', proxy_allowed remaining (Z.max resetSeconds 0)).

Example route_classes :
  resolveRouteClass "post" "/api/runs/r1/replay" = "fuzz-trigger"%string /\
  resolveRouteClass "POST" "/api/runs//replay" = "default"%string /\
  resolveRouteClass "POST" "/api/runs/a/b/replay" = "default"%string /\
  resolveRouteClass "GET" "/api/runs" = "default"%string /\
  resolveRouteClass "PUT" "/api/artifacts/x" = "artifact-upload"%string /\
  readPositiveInt (Some " 45x"%string) 300 = 45 /\ readPositiveInt (Some "-4"%string) 300 = 300.
Proof. vm_compute. done. Qed.

(** ** The reference: one caller alone

    A single counter, without a map and without eviction. *)

Section Windows.
Context (limit windowMs : Z).

Definition take1 (t : Z) (b : option Bucket) : option Bucket * FixedWindowDecision :=
  let cur := if bucket_expired t b then mkBucket 0 (t + windowMs)
             else default (mkBucket 0 (t + windowMs)) b in
  let b' := mkBucket (bkt_count cur + 1) (bkt_resetAt cur) in
  let allowed := bkt_count b' <=? limit in
  (Some b', mkDecision allowed (Z.max (limit - bkt_count b') 0)
              (Z.max (ceil_seconds (bkt_resetAt b' - t)) (if allowed then 0 else 1))).
Fixpoint run1 (ts : list Z) (b : option Bucket) : list FixedWindowDecision :=
  match ts with
  | [] => []
  | t :: rest => let '(b', d) := take1 t b in d :: run1 rest b'
  end.
(** A sequence of calls by several callers. *)
Fixpoint run_takes (calls : list (string * Z)) (m : gmap string Bucket)
  : list (string * FixedWindowDecision) :=
  match calls with
  | [] => []
  | (key, t) :: rest =>
      let '(m', d) := limiter_take limit windowMs key t m in (key, d) :: run_takes rest m'
  end.
(** What concerns one caller. *)
Definition calls_of (key : string) (calls : list (string * Z)) : list Z :=
  snd <$> filter (fun c => c.1 = key) calls.
Definition decisions_of (key : string) (ds : list (string * FixedWindowDecision))
  : list FixedWindowDecision := snd <$> filter (fun d => d.1 = key) ds.

(** Two buckets are as good as one another at [t]: equal, or both over. *)
Definition same_bucket (t : Z) (b1 b2 : option Bucket) : Prop :=
  b1 = b2 \/ (bucket_expired t b1 = true /\ bucket_expired t b2 = true).
Lemma bucket_expired_later t t' b :
  t <= t' -> bucket_expired t b = true -> bucket_expired t' b = true.
Proof. destruct b as [b|]; simpl; [|done]. rewrite !Z.leb_le. lia. Qed.
Lemma same_bucket_later t t' b1 b2 : t <= t' -> same_bucket t b1 b2 -> same_bucket t' b1 b2.
Proof.
  intros Ht [->|[H1 H2]]; [by left|]. right. split; by eapply bucket_expired_later.
Qed.
Lemma take1_same t b1 b2 : same_bucket t b1 b2 -> take1 t b1 = take1 t b2.
Proof. intros [->|[H1 H2]]; [done|]. unfold take1. by rewrite H1, H2. Qed.

(** The map restricted to the caller behaves as the single counter. *)
Lemma take_own key t m :
  take1 t (m !! key) = ((limiter_take limit windowMs key t m).1 !! key, (limiter_take limit windowMs key t m).2).
Proof.
  unfold limiter_take, take1, bucket_expired. destruct (m !! key) as [b|]; [destruct (bkt_resetAt b <=? t)|];
    cbn [fst snd default bkt_count bkt_resetAt]; by rewrite lookup_insert_eq.
Qed.
Lemma take_other key key' t m :
  key <> key' -> same_bucket t (m !! key') ((limiter_take limit windowMs key t m).1 !! key').
Proof.
  intros Hne. unfold limiter_take.
  assert (Hf : same_bucket t (m !! key') ((filter (fun kb : string * Bucket => t < bkt_resetAt kb.2) m) !! key')).
  { destruct (m !! key') as [b|] eqn:E.
    - destruct (Z.leb_spec (bkt_resetAt b) t) as [Hb|Hb].
      + right. split; [by apply Z.leb_le|]. rewrite (proj2 (map_lookup_filter_None _ _ _)); [done|].
        right. intros b' Hb' Hlt. cbn in Hlt. assert (b' = b) by congruence. subst b'. lia.
      + left. symmetry. apply map_lookup_filter_Some. by split.
    - left. symmetry. apply map_lookup_filter_None. by left. }
  destruct (m !! key) as [b|]; [destruct (bkt_resetAt b <=? t)|]; cbn [fst];
    rewrite lookup_insert_ne by done; [exact Hf|by left|exact Hf].
Qed.

Lemma run_takes_own calls t0 key m b :
  StronglySorted (fun c c' => c.2 <= c'.2) calls -> (forall c, c ∈ calls -> t0 <= c.2) ->
  same_bucket t0 (m !! key) b ->
  decisions_of key (run_takes calls m) = run1 (calls_of key calls) b.
Proof.
  revert t0 m b. induction calls as [|[k t] calls IH]; intros t0 m b Hs Ht Hb; [done|].
  inversion_clear Hs as [|?? Hs' Hle]. rewrite Forall_forall in Hle.
  assert (Ht0 : t0 <= t) by (apply (Ht (k, t)), list_elem_of_here).
  assert (Hb' : same_bucket t (m !! key) b) by (by eapply same_bucket_later).
  cbn [run_takes]. destruct (limiter_take limit windowMs k t m) as [m' d] eqn:E.
  unfold decisions_of, calls_of. rewrite !filter_cons. cbn [fst].
  destruct (decide (k = key)) as [->|Hne].
  - cbn [fmap list_fmap run1]. pose proof (take_own key t m) as Ho. rewrite E in Ho. cbn [fst snd] in Ho.
    rewrite (take1_same _ _ _ Hb') in Ho. cbn [snd]. rewrite Ho. f_equal. apply (IH t).
    + done.
    + intros c Hc. by apply (Hle c).
    + by left.
  - apply (IH t); [done|intros c Hc; by apply (Hle c)|].
    pose proof (take_other k key t m Hne) as Ho. rewrite E in Ho. cbn [fst] in Ho.
    destruct Hb' as [<-|[H1 H2]]; [|right; split; [|done]].
    + destruct Ho as [Ho|[H1 H2]]; [by left|by right].
    + destruct Ho as [Ho|[_ Ho]]; [by rewrite <- Ho|done].
Qed.

(** ** How much one caller gets *)

Definition granted (ds : list FixedWindowDecision) : Z :=
  Z.of_nat (length (filter (fun d => dec_allowed d = true) ds)).
Lemma granted_cons d ds : granted (d :: ds) = (if dec_allowed d then 1 else 0) + granted ds.
Proof.
  unfold granted. rewrite filter_cons. destruct (dec_allowed d);
    [rewrite decide_True by done|rewrite decide_False by done]; cbn [length]; lia.
Qed.
(** While the bucket lasts, what is left of its limit. *)
Lemma granted_one_bucket ts b t1 :
  (forall t, t ∈ ts -> t < t1) -> t1 <= bkt_resetAt b ->
  granted (run1 ts (Some b)) <= Z.max 0 (limit - bkt_count b).
Proof.
  revert b. induction ts as [|t ts IH]; intros b Ht Hb; [unfold granted; simpl; lia|].
  assert (Htt : t < t1) by (apply Ht, list_elem_of_here). cbn [run1 take1 bucket_expired].
  rewrite (proj2 (Z.leb_gt (bkt_resetAt b) t)) by lia. cbn [default]. unfold id. rewrite granted_cons.
  cbn [dec_allowed]. specialize (IH (mkBucket (bkt_count b + 1) (bkt_resetAt b))
    ltac:(intros t' Ht'; apply Ht; by apply list_elem_of_further) ltac:(cbn; lia)).
  cbn [bkt_count] in *. destruct (Z.leb_spec (bkt_count b + 1) limit); lia.
Qed.
Lemma granted_interval ts b t0 :
  0 <= limit -> 0 <= windowMs ->
  (forall t, t ∈ ts -> t0 <= t < t0 + windowMs) -> (forall b', b = Some b' -> 0 <= bkt_count b') ->
  granted (run1 ts b) <= 2 * limit.
Proof.
  intros Hl Hw.
  (* before the bucket is over, at most what is left of it; then one fresh bucket *)
  assert (H : forall ts b, (forall t, t ∈ ts -> t0 <= t < t0 + windowMs) ->
    granted (run1 ts b) <= Z.max 0 (limit - match b with Some b => bkt_count b | None => limit end) + limit).
  { clear ts b. induction ts as [|t ts IH]; intros b Ht; [unfold granted; simpl; lia|].
    assert (Htt : t0 <= t < t0 + windowMs) by (apply Ht, list_elem_of_here).
    assert (Ht' : forall t, t ∈ ts -> t0 <= t < t0 + windowMs)
      by (intros; apply Ht; by apply list_elem_of_further).
    cbn [run1]. unfold take1. destruct (bucket_expired t b) eqn:E; rewrite granted_cons;
      cbn [dec_allowed bkt_count bkt_resetAt].
    - pose proof (granted_one_bucket ts (mkBucket (0 + 1) (t + windowMs)) (t0 + windowMs)
        ltac:(intros t' H'; by apply Ht') ltac:(cbn; lia)) as Hg. cbn [bkt_count] in Hg.
      destruct (Z.leb_spec (0 + 1) limit); lia.
    - destruct b as [b|]; [|done]. cbn [default]. unfold id.
      specialize (IH (Some (mkBucket (bkt_count b + 1) (bkt_resetAt b))) Ht'). cbn [bkt_count] in IH.
      destruct (Z.leb_spec (bkt_count b + 1) limit); lia. }
  intros Ht Hb. specialize (H ts b Ht). destruct b as [b|]; [specialize (Hb b eq_refl)|]; lia.
Qed.
End Windows.

Lemma take_times_succ n limit windowMs key t m :
  take_times (S n) limit windowMs key t m
  = limiter_take limit windowMs key t (take_times n limit windowMs key t m).1.
Proof.
  revert m. induction n as [|n IH]; intros m; [done|].
  change (take_times (S (S n)) limit windowMs key t m)
    with (take_times (S n) limit windowMs key t (limiter_take limit windowMs key t m).1). rewrite IH. done.
Qed.
(** The units [key] has used of the window open at [t]. *)
Definition units (t : Z) (key : string) (m : gmap string Bucket) : Z :=
  match m !! key with
  | Some b => if bkt_resetAt b <=? t then 0 else bkt_count b
  | None => 0
  end.
Lemma take_units limit windowMs key t m :
  0 < windowMs ->
  let r := limiter_take limit windowMs key t m in
  units t key r.1 = units t key m + 1 /\
  dec_allowed r.2 = (units t key m + 1 <=? limit) /\
  dec_remaining r.2 = Z.max (limit - (units t key m + 1)) 0.
Proof.
  intros Hw. unfold limiter_take, units. destruct (m !! key) as [b|];
    [destruct (Z.leb_spec (bkt_resetAt b) t) as [Hb|Hb]|]; cbn [fst snd];
    rewrite lookup_insert_eq; cbn [dec_allowed dec_remaining bkt_count bkt_resetAt];
    rewrite (proj2 (Z.leb_gt _ t)) by lia; done.
Qed.
Lemma take_units_other limit windowMs key key' t m :
  key <> key' -> units t key' (limiter_take limit windowMs key t m).1 = units t key' m.
Proof.
  intros Hne. pose proof (take_other limit windowMs key key' t m Hne) as H. unfold units.
  destruct H as [H|[H1 H2]]; [by rewrite H|]. unfold bucket_expired in *.
  destruct (m !! key') as [b|], ((limiter_take limit windowMs key t m).1 !! key') as [b'|];
    rewrite ?H1, ?H2; done.
Qed.
Lemma take_times_units n limit windowMs key t m :
  0 < windowMs ->
  let r := take_times n limit windowMs key t m in
  let u := units t key m + (Z.of_nat n + 1) in
  units t key r.1 = u /\ dec_allowed r.2 = (u <=? limit) /\ dec_remaining r.2 = Z.max (limit - u) 0 /\
  forall key', key <> key' -> units t key' r.1 = units t key' m.
Proof.
  intros Hw. cbn zeta. induction n as [|n (IH & _ & _ & IHo)].
  - cbn [take_times]. destruct (take_units limit windowMs key t m Hw) as (H1 & H2 & H3).
    replace (units t key m + (Z.of_nat 0 + 1)) with (units t key m + 1) by lia.
    split_and!; try done. intros key' Hne. by apply take_units_other.
  - rewrite take_times_succ. set (m' := (take_times n limit windowMs key t m).1) in *.
    destruct (take_units limit windowMs key t m' Hw) as (H1 & H2 & H3). rewrite IH in H1, H2, H3.
    replace (units t key m + (Z.of_nat (S n) + 1)) with (units t key m + (Z.of_nat n + 1) + 1) by lia.
    split_and!; try done. intros key' Hne. rewrite take_units_other by done. by apply IHo.
Qed.
Lemma policy_shape env c :
  pol_windowMs (getPolicyForClass env (Some c)) = 60000 /\ 1 <= pol_cost (getPolicyForClass env (Some c)) <= 3.
Proof.
  unfold getPolicyForClass, policy_named, RATE_LIMIT_POLICIES. case_decide; [cbn; lia|].
  rewrite !filter_cons. cbn [fst].
  repeat (case_decide; [cbn; lia|]). cbn. lia.
Qed.
Lemma run1_app limit windowMs ts ts' b :
  (forall b', b = Some b' -> 0 <= bkt_count b') ->
  exists b1, (forall b', b1 = Some b' -> 0 <= bkt_count b') /\
    run1 limit windowMs (ts ++ ts') b = run1 limit windowMs ts b ++ run1 limit windowMs ts' b1.
Proof.
  revert b. induction ts as [|t ts IH]; intros b Hb; [by exists b|]. cbn [app run1].
  destruct (take1 limit windowMs t b) as [b' d] eqn:E.
  destruct (IH b') as (b1 & Hb1 & E1).
  - intros b'' ->. unfold take1 in E. injection E as <- _. cbn [bkt_count].
    destruct (bucket_expired t b) eqn:Ee; [done|]. destruct b as [b|]; [|done]. cbn [default]. unfold id.
    specialize (Hb b eq_refl). lia.
  - exists b1. split; [done|]. by rewrite E1.
Qed.
Lemma run1_length limit windowMs ts b : length (run1 limit windowMs ts b) = length ts.
Proof.
  revert b. induction ts as [|t ts IH]; intros b; [done|]. cbn [run1].
  destruct (take1 limit windowMs t b) as [b' d]. cbn [length]. by rewrite IH.
Qed.

(** ** Properties *)

(** Callers do not share a budget, and each is bounded. In any sequence of
    calls at non-decreasing instants, the decisions one caller gets are those of a
    single counter that sees that caller alone: neither the other callers nor the
    eviction of expired buckets makes a difference. And in any interval as long
    as the window at most twice the limit is granted. *)
Theorem callers_isolated limit windowMs calls key :
  0 <= limit -> 0 <= windowMs -> StronglySorted (fun c c' => c.2 <= c'.2) calls ->
  let ds := decisions_of key (run_takes limit windowMs calls ∅) in
  ds = run1 limit windowMs (calls_of key calls) None /\
  forall before_ during after_ t0,
    calls_of key calls = before_ ++ during ++ after_ ->
    (forall t, t ∈ during -> t0 <= t < t0 + windowMs) ->
    granted (take (length during) (drop (length before_) ds)) <= 2 * limit.
Proof.
  intros Hl Hw Hs ds. assert (E : ds = run1 limit windowMs (calls_of key calls) None).
  { destruct calls as [|c calls]; [done|].
    apply (run_takes_own limit windowMs (c :: calls) c.2); [done| |by left].
    intros c' Hc. apply elem_of_cons in Hc as [->|Hc]; [lia|].
    inversion_clear Hs as [|?? _ Hle]. rewrite Forall_forall in Hle. by apply (Hle c'). }
  split; [exact E|]. intros before_ during after_ t0 Hc Hd. rewrite E, Hc.
  destruct (run1_app limit windowMs before_ (during ++ after_) None) as (b1 & Hb1 & ->); [done|].
  rewrite <- (run1_length limit windowMs before_ None) at 1. rewrite drop_app_length.
  destruct (run1_app limit windowMs during after_ b1 Hb1) as (b2 & _ & ->).
  rewrite <- (run1_length limit windowMs during b1) at 1. rewrite take_app_length.
  by apply (granted_interval limit windowMs during b1 t0).
Qed.
Lemma callers_isolated_witness :
  let calls := [("a", 0); ("b", 10); ("a", 20); ("b", 59999); ("a", 60000); ("b", 60001)]%string in
  decisions_of "b" (run_takes 1 60000 calls ∅) = run1 1 60000 [10; 59999; 60001] None /\
  dec_allowed <$> run1 1 60000 [10; 59999; 60001] None = [true; false; false].
Proof.
  assert (Hs : StronglySorted (fun c c' : string * Z => c.2 <= c'.2)
    [("a", 0); ("b", 10); ("a", 20); ("b", 59999); ("a", 60000); ("b", 60001)]%string)
    by (repeat constructor; vm_compute; discriminate).
  split; [|vm_compute; reflexivity].
  exact (proj1 (callers_isolated 1 60000 _ "b" ltac:(lia) ltac:(lia) Hs)).
Defined.

(** A request costs its class's units, all or nothing in effect: it is allowed
    exactly when the units the principal used in the open window plus the cost
    stay within the limit — so the fuzz-trigger class allows half of its limit
    in requests — and they are used up even when it is refused. Other principals
    and other classes keep what they have. *)
Theorem principal_budget env subject method pathname t now ls :
  let className := resolveRouteClass method pathname in
  let policy := getPolicyForClass env (Some className) in
  let used := units t subject (limiter_of className ls) in
  let '(ls', d) := applyPrincipalRateLimit env subject method pathname t now ls in
  prl_allowed d = (used + pol_cost policy <=? pol_limit policy) /\
  prl_remaining d = Z.max (pol_limit policy - (used + pol_cost policy)) 0 /\
  units t subject (limiter_of className ls') = used + pol_cost policy /\
  (forall subject', subject <> subject' ->
     units t subject' (limiter_of className ls') = units t subject' (limiter_of className ls)) /\
  (forall className', className <> className' -> limiter_of className' ls' = limiter_of className' ls).
Proof.
  intros className policy used. unfold applyPrincipalRateLimit. fold className. fold policy.
  destruct (policy_shape env className) as [Hw Hc]. fold policy in Hw, Hc.
  pose proof (take_times_units (Z.to_nat (pol_cost policy) - 1) (pol_limit policy) (pol_windowMs policy)
    subject t (limiter_of className ls) ltac:(lia)) as H. cbn zeta in H.
  replace (Z.of_nat (Z.to_nat (pol_cost policy) - 1) + 1) with (pol_cost policy) in H by lia.
  fold used in H. destruct (take_times _ _ _ _ _ _) as [m d]. cbn [fst snd] in H.
  destruct H as (H1 & H2 & H3 & H4). cbn [prl_allowed prl_remaining].
  assert (El : limiter_of className (<[className := m]> ls) = m)
    by (unfold limiter_of; by rewrite lookup_insert_eq).
  rewrite El. split; [exact H2|]. split; [exact H3|]. split; [exact H1|]. split; [exact H4|].
  intros c Hne. unfold limiter_of. by rewrite lookup_insert_ne.
Qed.
(** A fixed window lets a burst through at its boundary: more than the limit
    within three milliseconds. *)
Lemma boundary_spike :
  granted (drop 1 (run1 2 60000 [0; 59999; 60000; 60001] None)) = 3.
Proof. vm_compute. reflexivity. Qed.
(** A request refused by the principal layer never reaches the IP layer. *)
Lemma principal_refusal_skips_ip env windowMs maxRequests method pathname subject fwd ip now s :
  method <> "OPTIONS"%string ->
  prl_allowed (applyPrincipalRateLimit env subject method pathname now now (px_principal s)).2 = false ->
  px_ip (proxy env windowMs maxRequests method pathname subject false fwd ip now s).1 = px_ip s.
Proof.
  intros Hm Hd. unfold proxy. rewrite decide_False by done.
  destruct (applyPrincipalRateLimit env subject method pathname now now (px_principal s)) as [ls d].
  cbn [snd] in Hd. by rewrite Hd.
Qed.
