(* ===== verification/ReplayJob.v ===== *)
(** [lib/replay/job-state.ts], [lib/replay/job-store.ts] and the classification
    of [lib/replay/failure.ts]: the progress record of a replay, its transitions
    and events, and the bounded registry of jobs.

    Results, environments and environment checks are only carried along: their
    types are parameters.  A percentage is the double [m * 2 ^ e]. *)

From S2P Require Import Prelude JsDate JsString JsNumber JsValue CronParser RetryBackoff.
From stdpp Require Import base list sets fin_sets gmap strings numbers sorting.
From Stdlib Require Import ZArith Lia Ascii.
#[local] Open Scope Z_scope.

Inductive ReplayJobStatus : Type :=
  | rj_queued | rj_running | rj_succeeded | rj_mismatch | rj_failed | rj_cancelled.
#[export] Instance ReplayJobStatus_eq : EqDecision ReplayJobStatus.
Proof. solve_decision. Defined.
Definition TERMINAL_JOB_STATUSES : list ReplayJobStatus :=
  [rj_succeeded; rj_mismatch; rj_failed; rj_cancelled].
Definition isTerminalJobStatus (s : ReplayJobStatus) : bool :=
  bool_decide (s ∈ TERMINAL_JOB_STATUSES).
Inductive ReplayJobPhase : Type := ph_queued | ph_bundle | ph_runner | ph_verify | ph_done.
Inductive EventLevel : Type := lvl_info | lvl_warn | lvl_error.
Record ReplayJobEvent : Type := mkEvent
  { ev_seq : Z; ev_at : string; ev_phase : ReplayJobPhase; ev_message : string; ev_percent : Z;
    ev_level : EventLevel }.
Definition JOB_TRANSITIONS (s : ReplayJobStatus) : list ReplayJobStatus :=
  match s with
  | rj_queued => [rj_running; rj_failed; rj_cancelled]
  | rj_running => [rj_succeeded; rj_mismatch; rj_failed; rj_cancelled]
  | _ => []
  end.
Definition canTransitionJob (from to : ReplayJobStatus) : bool :=
  if decide (from = to) then negb (bool_decide (from ∈ TERMINAL_JOB_STATUSES))
  else bool_decide (to ∈ JOB_TRANSITIONS from).
Definition status_name (s : ReplayJobStatus) : string :=
  match s with
  | rj_queued => "queued" | rj_running => "running" | rj_succeeded => "succeeded"
  | rj_mismatch => "mismatch" | rj_failed => "failed" | rj_cancelled => "cancelled"
  end.

(** ** Failures *)

Inductive ReplayFailureReason : Type :=
  | bundle_missing | runner_unavailable | environment_mismatch | reason_mismatch | reason_timeout
  | reason_internal.
(** [title] and [guidance] are fixed by the reason. *)
Record ReplayFailure : Type := mkFailure
  { fail_reason : ReplayFailureReason; fail_message : string; fail_retryable : bool }.
Definition copy_message (r : ReplayFailureReason) : string :=
  match r with
  | bundle_missing => "The seed bundle for this crash could not be found, so there is nothing to replay."
  | runner_unavailable => "The selected runner is not installed or not reachable from this host."
  | environment_mismatch => "This host does not match the environment where the crash was recorded."
  | reason_mismatch => "The runner completed, but the failure signature differs from the original crash."
  | reason_timeout => "The runner did not finish within the allowed time."
  | reason_internal => "The runner exited with an unexpected error."
  end.
Definition copy_retryable (r : ReplayFailureReason) : bool :=
  match r with reason_timeout | reason_internal => true | _ => false end.
Definition describeReplayFailure (reason : ReplayFailureReason) (detail : option string)
  : ReplayFailure :=
  let d := trim (default ""%string detail) in
  mkFailure reason
    (if decide (d = ""%string) then copy_message reason else cat [copy_message reason; " "; d])
    (copy_retryable reason).
Record ReplayFailureInput : Type := mkFailureInput
  { fin_bundleMissing : bool; fin_runnerMissing : bool; fin_timedOut : bool;
    fin_environmentMismatch : bool; fin_stderr : option string; fin_exitCode : option Z }.
(** [/replay mismatch:|signature mismatch/i]. *)
Definition mentions_mismatch (stderr : string) : bool :=
  includes (to_lower stderr) "replay mismatch:" || includes (to_lower stderr) "signature mismatch".
Definition classifyReplayFailure (i : ReplayFailureInput) : option ReplayFailure :=
  if fin_environmentMismatch i then Some (describeReplayFailure environment_mismatch None)
  else if fin_bundleMissing i then Some (describeReplayFailure bundle_missing None)
  else if fin_runnerMissing i then Some (describeReplayFailure runner_unavailable None)
  else if fin_timedOut i then Some (describeReplayFailure reason_timeout None)
  else
    let stderr := default ""%string (fin_stderr i) in
    if mentions_mismatch stderr then Some (describeReplayFailure reason_mismatch None)
    else match fin_exitCode i with
         | Some c =>
             if c =? 0 then None
             else let head := String.substring 0 400 (trim stderr) in
                  Some (describeReplayFailure reason_internal
                    (Some (if decide (head = ""%string)
                           then cat ["Exit code "; num_to_string c; "."] else head)))
         | None => None
         end.

(** ** Jobs *)

Section Jobs.
Context {Env Check Result : Type}.

Record ReplayJob : Type := mkReplayJob
  { rj_id : string; rj_sourceRunId : string; rj_runner : string; rj_status : ReplayJobStatus;
    rj_createdAt : string; rj_updatedAt : string; rj_requestedBy : string;
    rj_environment : option Env; rj_environmentCheck : option Check;
    rj_events : list ReplayJobEvent; rj_result : option Result; rj_failure : option ReplayFailure }.

Record JobPatch : Type := mkPatch
  { jp_failure : option ReplayFailure; jp_result : option Result; jp_at : option string }.
(** [now] is the time used when the patch gives none; the error is the message. *)
Definition transitionJob (now : string) (job : ReplayJob) (to : ReplayJobStatus) (patch : JobPatch)
  : result string ReplayJob :=
  if negb (canTransitionJob (rj_status job) to) then
    Err (cat ["Cannot move replay job "; rj_id job; " from "; status_name (rj_status job); " to ";
              status_name to; "."])
  else
    Ok (mkReplayJob (rj_id job) (rj_sourceRunId job) (rj_runner job) to (rj_createdAt job)
          (default now (jp_at patch)) (rj_requestedBy job) (rj_environment job)
          (rj_environmentCheck job) (rj_events job)
          (match jp_result patch with Some r => Some r | None => rj_result job end)
          (match jp_failure patch with Some f => Some f | None => rj_failure job end)).

Record JobEventInput : Type := mkEventInput
  { evi_phase : ReplayJobPhase; evi_message : string; evi_percent : Z * Z;
    evi_level : option EventLevel; evi_at : option string }.
Definition MAX_JOB_EVENTS : nat := 200.
Definition next_event (now : string) (events : list ReplayJobEvent) (input : JobEventInput)
  : ReplayJobEvent :=
  mkEvent (from_option ev_seq 0 (last events) + 1) (default now (evi_at input)) (evi_phase input)
    (evi_message input)
    (Z.max (from_option ev_percent 0 (last events)) (Z.min 100 (Z.max 0 (math_round (evi_percent input)))))
    (default lvl_info (evi_level input)).
Definition with_events (events : list ReplayJobEvent) (at_ : string) (job : ReplayJob) : ReplayJob :=
  mkReplayJob (rj_id job) (rj_sourceRunId job) (rj_runner job) (rj_status job) (rj_createdAt job)
    at_ (rj_requestedBy job) (rj_environment job) (rj_environmentCheck job) events (rj_result job)
    (rj_failure job).
Definition appendJobEvent (now : string) (job : ReplayJob) (input : JobEventInput) : ReplayJob :=
  with_events (slice_last MAX_JOB_EVENTS (rj_events job ++ [next_event now (rj_events job) input]))
    (default now (evi_at input)) job.
Definition latestJobEvent (job : ReplayJob) : option ReplayJobEvent := last (rj_events job).
Definition eventsAfter (job : ReplayJob) (afterSeq : Z) : list ReplayJobEvent :=
  filter (fun e => afterSeq < ev_seq e) (rj_events job).

(** ** The registry: a [Map], in insertion order *)

Definition DEFAULT_JOB_TTL_MS : Z := 3600000.
Definition MAX_RETAINED_JOBS : nat := 200.
Record CreateJobInput : Type := mkCreate
  { cji_sourceRunId : string; cji_runner : string; cji_requestedBy : string;
    cji_environment : option Env; cji_environmentCheck : option Check; cji_now : option string }.
Fixpoint map_set (job : ReplayJob) (l : list ReplayJob) : list ReplayJob :=
  match l with
  | [] => [job]
  | j :: rest => if decide (rj_id j = rj_id job) then job :: rest else j :: map_set job rest
  end.
Definition map_get (id : string) (l : list ReplayJob) : option ReplayJob :=
  head (filter (fun j => rj_id j = id) l).
(** Kept by [prune]: not updated before the cutoff. *)
Definition fresh_enough (cutoff : Z) (j : ReplayJob) : bool :=
  match date_parse (rj_updatedAt j) with Some t => cutoff <=? t | None => true end.
Definition prune_jobs (ttlMs now : Z) (l : list ReplayJob) : list ReplayJob :=
  filter (fun j => fresh_enough (now - ttlMs) j = true) l.
Definition older_le (a b : ReplayJob) : bool := str_le (rj_createdAt a) (rj_createdAt b).
Definition enforceCapacity (maxJobs : nat) (l : list ReplayJob) : list ReplayJob :=
  if decide (length l <= maxJobs)%nat then l
  else
    let dropped := rj_id <$> take (length l - maxJobs) (sort_by older_le l) in
    filter (fun j => rj_id j ∉ dropped) l.
(** [uuid] is the fresh id of the job; the clock is read as [now]. *)
Definition create_job (ttlMs : Z) (maxJobs : nat) (uuid : string) (now : Z) (input : CreateJobInput)
    (l : list ReplayJob) : list ReplayJob * ReplayJob :=
  let at_ := default (to_iso_string now) (cji_now input) in
  let job := mkReplayJob (cat ["replay-job-"; uuid]) (cji_sourceRunId input) (cji_runner input) rj_queued
               at_ at_ (cji_requestedBy input) (cji_environment input) (cji_environmentCheck input) []
               None None in
  let queued := appendJobEvent at_ job (mkEventInput ph_queued "Replay queued." (0, 0) None (Some at_)) in
  (enforceCapacity maxJobs (map_set queued (prune_jobs ttlMs now l)), queued).
Definition get_job (ttlMs now : Z) (id : string) (l : list ReplayJob)
  : list ReplayJob * option ReplayJob :=
  let l' := prune_jobs ttlMs now l in (l', map_get id l').
Definition newer_le (a b : ReplayJob) : bool := str_le (rj_createdAt b) (rj_createdAt a).
Definition listBySource (ttlMs now : Z) (sourceRunId : string) (l : list ReplayJob)
  : list ReplayJob * list ReplayJob :=
  let l' := prune_jobs ttlMs now l in
  (l', sort_by newer_le (filter (fun j => rj_sourceRunId j = sourceRunId) l')).
Definition appendEvent (now : string) (id : string) (input : JobEventInput) (l : list ReplayJob)
  : list ReplayJob * option ReplayJob :=
  match map_get id l with
  | None => (l, None)
  | Some current => let next := appendJobEvent now current input in (map_set next l, Some next)
  end.
Definition transition_job (now : string) (id : string) (to : ReplayJobStatus) (patch : JobPatch)
    (l : list ReplayJob) : list ReplayJob * option ReplayJob :=
  match map_get id l with
  | None => (l, None)
  | Some current =>
      match transitionJob now current to patch with
      | Err _ => (l, Some current)
      | Ok job => (map_set job l, Some job)
      end
  end.
End Jobs.
Arguments ReplayJob : clear implicits.
Arguments JobPatch : clear implicits.
Arguments CreateJobInput : clear implicits.

Example classify_examples :
  (fail_reason <$> classifyReplayFailure
     (mkFailureInput false false false false (Some "Signature MISMATCH at 3"%string) (Some 1)))
  = Some reason_mismatch /\
  (fail_message <$> classifyReplayFailure (mkFailureInput false false false false None (Some 7)))
  = Some "The runner exited with an unexpected error. Exit code 7."%string.
Proof. vm_compute. done. Qed.

(** ** Events *)

(** Each event follows its predecessor: the next number, no smaller percentage. *)
Definition linked (es : list ReplayJobEvent) : Prop :=
  forall i e e', es !! i = Some e -> es !! S i = Some e' ->
    ev_seq e' = ev_seq e + 1 /\ ev_percent e <= ev_percent e'.
Definition events_ok (es : list ReplayJobEvent) : Prop :=
  linked es /\ Forall (fun e => 1 <= ev_seq e /\ 0 <= ev_percent e <= 100) es /\
  (length es <= MAX_JOB_EVENTS)%nat.

Lemma linked_drop n es : linked es -> linked (drop n es).
Proof.
  intros H i e e' H1 H2. rewrite lookup_drop in H1, H2. apply (H (n + i)%nat); [done|].
  by replace (S (n + i)) with (n + S i)%nat by lia.
Qed.
Lemma linked_snoc es e :
  linked es ->
  (forall e0, last es = Some e0 -> ev_seq e = ev_seq e0 + 1 /\ ev_percent e0 <= ev_percent e) ->
  linked (es ++ [e]).
Proof.
  intros H Hl i e1 e2 H1 H2. destruct (Nat.lt_ge_cases (S i) (length es)) as [Hi|Hi].
  - rewrite lookup_app_l in H1, H2 by lia. by apply (H i).
  - rewrite lookup_app_r in H2 by lia.
    assert (Ei : (S i - length es)%nat = 0%nat)
      by (destruct (S i - length es)%nat as [|k] eqn:Ek; [done|by rewrite lookup_cons_ne_0 in H2]).
    rewrite Ei in H2. injection H2 as <-. rewrite lookup_app_l in H1 by lia. apply Hl.
    rewrite last_lookup. by replace (Nat.pred (length es)) with i by lia.
Qed.
(** Numbers increase along linked events. *)
Lemma linked_seq es i j e e' :
  linked es -> es !! i = Some e -> es !! (i + j)%nat = Some e' -> ev_seq e' = ev_seq e + Z.of_nat j.
Proof.
  intros H He. revert e'. induction j as [|j IH]; intros e' He'.
  - rewrite Nat.add_0_r in He'. assert (e' = e) by congruence. subst e'. lia.
  - rewrite Nat.add_succ_r in He'. destruct (es !! (i + j)%nat) as [e1|] eqn:E.
    + destruct (H _ _ _ E He') as [-> _]. rewrite (IH e1 eq_refl). lia.
    + apply lookup_ge_None in E. apply lookup_lt_Some in He'. lia.
Qed.
Lemma linked_last_max es e e1 : linked es -> e ∈ es -> last es = Some e1 -> ev_seq e <= ev_seq e1.
Proof.
  intros H He Hl. apply list_elem_of_lookup in He as [i Hi]. rewrite last_lookup in Hl.
  pose proof (lookup_lt_Some _ _ _ Hi).
  rewrite (linked_seq es i (Nat.pred (length es) - i) e e1 H Hi); [lia|].
  by replace (i + (Nat.pred (length es) - i))%nat with (Nat.pred (length es)) by lia.
Qed.
Lemma next_event_ok now es input :
  events_ok es -> events_ok (slice_last MAX_JOB_EVENTS (es ++ [next_event now es input])).
Proof.
  intros (Hl & Hf & Hn). unfold slice_last. split; [|split].
  - apply linked_drop, linked_snoc; [done|]. intros e0 E. unfold next_event. rewrite E.
    cbn [from_option ev_seq ev_percent]. split; [done|lia].
  - apply Forall_drop, Forall_app. split; [done|]. apply Forall_singleton. unfold next_event.
    cbn [ev_seq ev_percent]. destruct (last es) as [e0|] eqn:E; cbn [from_option]; [|lia].
    apply last_Some_elem_of in E. rewrite Forall_forall in Hf. specialize (Hf e0 E). lia.
  - rewrite length_drop, length_app. simpl. lia.
Qed.

(** The events a sequence of appends makes of [es], before any trimming. *)
Fixpoint new_events (es : list ReplayJobEvent) (inputs : list (string * JobEventInput))
  : list ReplayJobEvent :=
  match inputs with
  | [] => []
  | (now, input) :: rest =>
      let e := next_event now es input in e :: new_events (es ++ [e]) rest
  end.
Lemma next_event_last now es es' input : last es = last es' -> next_event now es input = next_event now es' input.
Proof. intros H. unfold next_event. by rewrite H. Qed.
Lemma new_events_last es es' inputs : last es = last es' -> new_events es inputs = new_events es' inputs.
Proof.
  revert es es'. induction inputs as [|[now input] rest IH]; intros es es' H; [done|]. cbn [new_events].
  rewrite (next_event_last now es es' input H). f_equal. apply IH. by rewrite !last_snoc.
Qed.
Lemma slice_last_slice {A} n (l : list A) k :
  slice_last n (slice_last n l ++ k) = slice_last n (l ++ k).
Proof.
  unfold slice_last. rewrite !length_app, length_drop.
  destruct (Nat.le_gt_cases (length l) n) as [H|H].
  - replace (length l - n)%nat with 0%nat by lia. rewrite drop_0. f_equal. lia.
  - rewrite <- (drop_app_le l k (length l - n)) by lia. rewrite drop_drop. f_equal. lia.
Qed.
Lemma last_slice {A} n (l : list A) : (0 < n)%nat -> last (slice_last n l) = last l.
Proof.
  intros Hn. unfold slice_last. destruct (decide (length l = 0%nat)) as [E|E].
  - by apply nil_length_inv in E as ->.
  - rewrite !last_lookup, lookup_drop, length_drop. f_equal. lia.
Qed.
Lemma append_all_events {Env Check Result} (job : ReplayJob Env Check Result) inputs :
  (length (rj_events job) <= MAX_JOB_EVENTS)%nat ->
  rj_events (foldl (fun j i => appendJobEvent i.1 j i.2) job inputs)
  = slice_last MAX_JOB_EVENTS (rj_events job ++ new_events (rj_events job) inputs).
Proof.
  revert job. induction inputs as [|[now input] rest IH]; intros job Hl; cbn [foldl new_events].
  - unfold slice_last. rewrite app_nil_r. by replace (_ - _)%nat with 0%nat by lia.
  - rewrite IH.
    + cbn [appendJobEvent with_events rj_events fst snd].
      set (e := next_event now (rj_events job) input).
      rewrite (new_events_last (slice_last MAX_JOB_EVENTS (rj_events job ++ [e])) (rj_events job ++ [e]))
        by (apply last_slice; unfold MAX_JOB_EVENTS; lia).
      rewrite slice_last_slice, <- app_assoc. done.
    + cbn [appendJobEvent with_events rj_events]. unfold slice_last. rewrite length_drop. lia.
Qed.
Lemma new_events_seq es inputs n :
  from_option ev_seq 0 (last es) = n -> ev_seq <$> new_events es inputs = seqZ (n + 1) (Z.of_nat (length inputs)).
Proof.
  revert es n. induction inputs as [|[now input] rest IH]; intros es n Hn; [done|].
  cbn [new_events fmap list_fmap length]. rewrite (IH _ (n + 1)) by (rewrite last_snoc; cbn; by rewrite Hn).
  rewrite Nat2Z.inj_succ. rewrite (seqZ_cons (n + 1) (Z.succ _)) by lia. cbn [next_event ev_seq].
  rewrite Hn. f_equal. f_equal; lia.
Qed.

(** ** The registry over time

    [used] are the ids handed out so far: a [randomUUID] is never drawn twice. *)

Section Registry.
Context {Env Check Result : Type} (ttlMs : Z) (maxJobs : nat).
Notation job := (ReplayJob Env Check Result).
Notation rids l := (rj_id <$> (l : list job)).

Inductive registry_step : gset string * list job -> gset string * list job -> Prop :=
  | reg_create uuid now input used l :
      cat ["replay-job-"%string; uuid] ∉ used ->
      registry_step (used, l)
        ({[ cat ["replay-job-"%string; uuid] ]} ∪ used, (create_job ttlMs maxJobs uuid now input l).1)
  | reg_get now id used l : registry_step (used, l) (used, (get_job ttlMs now id l).1)
  | reg_append now id input used l : registry_step (used, l) (used, (appendEvent now id input l).1)
  | reg_transition now id to patch used l :
      registry_step (used, l) (used, (transition_job now id to patch l).1).

(** Where a job of the registry comes from after a step: it is new, or it is an
    old one, its events extended or its status moved along the table. *)
Definition evolves (j j' : job) : Prop :=
  rj_id j' = rj_id j /\
  (rj_status j' = rj_status j \/ rj_status j' ∈ JOB_TRANSITIONS (rj_status j)) /\
  (isTerminalJobStatus (rj_status j) = true ->
     rj_status j' = rj_status j /\ rj_result j' = rj_result j /\ rj_failure j' = rj_failure j).
Definition registry_inv (w : gset string * list job) : Prop :=
  NoDup (rids w.2) /\ (forall j, j ∈ w.2 -> rj_id j ∈ w.1) /\
  Forall (fun j => events_ok (rj_events j)) w.2 /\ (length w.2 <= maxJobs)%nat.

Lemma map_set_elem (u j : job) l : j ∈ map_set u l -> j = u \/ j ∈ l.
Proof.
  induction l as [|x l IH]; cbn [map_set]; [set_solver|]. case_decide; set_solver.
Qed.
Lemma map_set_ids (u : job) l :
  rids (map_set u l) = if decide (rj_id u ∈ rids l) then rids l else rids l ++ [rj_id u].
Proof.
  induction l as [|x l IH]; cbn [map_set]; [done|]. cbn [fmap list_fmap].
  destruct (decide (rj_id x = rj_id u)) as [E|E].
  - rewrite decide_True by (rewrite E; apply list_elem_of_here). cbn. by rewrite E.
  - cbn [fmap list_fmap]. rewrite IH. destruct (decide (rj_id u ∈ rids l)) as [Hu|Hu].
    + rewrite decide_True by (by apply list_elem_of_further). done.
    + rewrite decide_False; [done|]. intros [H|H]%elem_of_cons; [by apply E|by apply Hu].
Qed.
Lemma map_set_other (u j : job) l : NoDup (rids l) -> j ∈ map_set u l -> rj_id j = rj_id u -> j = u.
Proof.
  induction l as [|x l IH]; cbn [map_set]; intros Hn Hj E; [by apply list_elem_of_singleton in Hj|].
  cbn [fmap list_fmap] in Hn. apply NoDup_cons in Hn as [Hx Hn]. case_decide as Ex.
  - apply elem_of_cons in Hj as [->|Hj]; [done|]. exfalso. apply Hx. rewrite Ex, <- E.
    by apply list_elem_of_fmap_2.
  - apply elem_of_cons in Hj as [->|Hj]; [done|by apply IH].
Qed.
Lemma map_get_Some id (l : list job) j : map_get id l = Some j -> j ∈ l /\ rj_id j = id.
Proof. unfold map_get. intros H. apply head_Some_elem_of, list_elem_of_filter in H. tauto. Qed.
Lemma same_rid (l : list job) j j' :
  NoDup (rids l) -> j ∈ l -> j' ∈ l -> rj_id j = rj_id j' -> j = j'.
Proof.
  induction l as [|x l IH]; intros Hn Hj Hj' E; [by apply elem_of_nil in Hj|].
  cbn [fmap list_fmap] in Hn. apply NoDup_cons in Hn as [Hx Hn].
  apply elem_of_cons in Hj as [->|Hj]; apply elem_of_cons in Hj' as [->|Hj']; try done.
  - exfalso. apply Hx. rewrite E. by apply list_elem_of_fmap_2.
  - exfalso. apply Hx. rewrite <- E. by apply list_elem_of_fmap_2.
  - by apply IH.
Qed.
Lemma evolves_refl j : evolves j j.
Proof. split; [done|]. split; [by left|done]. Qed.
Lemma transition_evolves now (j j' : job) to patch :
  transitionJob now j to patch = Ok j' -> evolves j j' /\ rj_events j' = rj_events j.
Proof.
  unfold transitionJob. destruct (canTransitionJob (rj_status j) to) eqn:E; [|done]. intros [= <-].
  split; [|done]. split; [done|]. cbn [rj_status negb]. unfold canTransitionJob in E.
  case_decide as Ed; bools.
  - subst to. split; [by left|]. intros Ht. unfold isTerminalJobStatus in Ht.
    apply bool_decide_eq_true in Ht. done.
  - split; [by right|]. intros Ht. exfalso. destruct (rj_status j); cbn in E, Ht;
      try (by apply elem_of_nil in E); by vm_compute in Ht.
Qed.
Lemma append_evolves now (j : job) input : evolves j (appendJobEvent now j input).
Proof. split; [done|]. split; [by left|done]. Qed.
Lemma enforceCapacity_spec (l : list job) :
  NoDup (rids l) ->
  (forall j, j ∈ enforceCapacity maxJobs l -> j ∈ l) /\ NoDup (rids (enforceCapacity maxJobs l)) /\
  (length (enforceCapacity maxJobs l) <= maxJobs)%nat.
Proof.
  intros Hn. unfold enforceCapacity. case_decide as Hl; [done|].
  set (dropped := take (length l - maxJobs) (sort_by older_le l)). split; [|split].
  - intros j Hj. by apply list_elem_of_filter in Hj as [_ ?].
  - by apply NoDup_fmap_filter.
  - assert (Hp : sort_by older_le l ≡ₚ l) by apply sort_by_perm.
    assert (Hd : length dropped = (length l - maxJobs)%nat)
      by (unfold dropped; rewrite length_take, Hp; lia).
    assert (Hsub : forall x, x ∈ dropped -> x ∈ l).
    { intros x Hx. rewrite <- Hp. unfold dropped in Hx. eapply elem_of_submseteq; [exact Hx|].
      apply sublist_submseteq, sublist_take. }
    assert (Hnd : NoDup (rids dropped)).
    { unfold dropped. rewrite fmap_take. eapply sublist_NoDup; [|apply sublist_take]. by rewrite Hp. }
    assert (Hle : (length (rids dropped ++ rids (filter (fun j => rj_id j ∉ rids dropped) l))
                   <= length (rids l))%nat).
    { apply submseteq_length, NoDup_submseteq.
      - apply NoDup_app. split; [done|]. split; [|by apply NoDup_fmap_filter].
        intros x Hx (y & -> & Hy)%list_elem_of_fmap. by apply list_elem_of_filter in Hy as [? _].
      - intros x Hx. apply elem_of_app in Hx as [Hx|Hx]; apply list_elem_of_fmap in Hx as (y & -> & Hy);
          apply list_elem_of_fmap_2; [by apply Hsub|by apply list_elem_of_filter in Hy as [_ ?]]. }
    rewrite length_app, !length_fmap in Hle. lia.
Qed.
Lemma prune_elem now j (l : list job) : j ∈ prune_jobs ttlMs now l -> j ∈ l.
Proof. intros H. by apply list_elem_of_filter in H as [_ ?]. Qed.
Lemma prune_NoDup now (l : list job) : NoDup (rids l) -> NoDup (rids (prune_jobs ttlMs now l)).
Proof. apply NoDup_fmap_filter. Qed.

(** Replacing the job an id stands for by one it evolves into. *)
Lemma map_set_step used (l : list job) j j' :
  registry_inv (used, l) -> j ∈ l -> evolves j j' -> events_ok (rj_events j') ->
  registry_inv (used, map_set j' l) /\
  (forall x, x ∈ map_set j' l -> exists x0, x0 ∈ l /\ evolves x0 x).
Proof.
  intros (Hn & Hu & He & Hl) Hj Hev Hok. cbn [fst snd] in *. destruct Hev as [Eid Hev].
  assert (Hin : rj_id j' ∈ rids l) by (rewrite Eid; by apply list_elem_of_fmap_2).
  assert (Eids : rids (map_set j' l) = rids l) by (by rewrite map_set_ids, decide_True).
  split; [split; [|split; [|split]]|]; cbn [fst snd].
  - by rewrite Eids.
  - intros x Hx. apply map_set_elem in Hx as [->|Hx]; [rewrite Eid|]; by apply Hu.
  - rewrite Forall_forall in *. intros x Hx. apply map_set_elem in Hx as [->|Hx]; [done|by apply He].
  - by rewrite <- (length_fmap rj_id), Eids, length_fmap.
  - intros x Hx. destruct (map_set_elem _ _ _ Hx) as [->|Hx']; [by exists j|].
    exists x. split; [done|apply evolves_refl].
Qed.
Lemma prune_step used now (l : list job) :
  registry_inv (used, l) -> registry_inv (used, prune_jobs ttlMs now l).
Proof.
  intros (Hn & Hu & He & Hl). cbn [fst snd] in *. split; [|split; [|split]]; cbn [fst snd].
  - by apply prune_NoDup.
  - intros j Hj. by apply Hu, (prune_elem now).
  - rewrite Forall_forall in *. intros j Hj. by apply He, (prune_elem now).
  - etrans; [apply length_filter|done].
Qed.
Lemma registry_step_inv w w' :
  registry_inv w -> registry_step w w' ->
  registry_inv w' /\ w.1 ⊆ w'.1 /\
  forall j', j' ∈ w'.2 -> (exists j, j ∈ w.2 /\ evolves j j') \/ rj_id j' ∉ w.1.
Proof.
  intros Hi Hs. destruct Hs; cbn [fst snd].
  - pose proof (prune_step used now l Hi) as (Hn & Hu & He & Hl). cbn [fst snd] in *.
    unfold create_job. cbn [fst].
    match goal with |- context [map_set ?x _] => set (u := x) end.
    assert (Hnew : rj_id u ∉ rids (prune_jobs ttlMs now l)).
    { intros (x & Ex & Hx)%list_elem_of_fmap. apply H. change (rj_id u ∈ used). rewrite Ex. by apply Hu. }
    assert (Hn' : NoDup (rids (map_set u (prune_jobs ttlMs now l)))).
    { rewrite map_set_ids, decide_False by done. apply NoDup_app. split; [done|].
      split; [|apply NoDup_singleton]. by intros x Hx ->%list_elem_of_singleton. }
    destruct (enforceCapacity_spec _ Hn') as (H1 & H2 & H3).
    split; [split; [|split; [|split]]|split; [set_solver|]]; cbn [fst snd]; try done.
    + intros j Hj. apply H1, map_set_elem in Hj as [->|Hj]; [apply elem_of_union_l, elem_of_singleton; done|].
      apply elem_of_union_r. by apply Hu.
    + apply Forall_forall. intros j Hj. apply H1, map_set_elem in Hj as [->|Hj].
      * apply next_event_ok. split; [|split; [constructor|cbn; unfold MAX_JOB_EVENTS; lia]].
        intros i e e' Hlk. by destruct i.
      * rewrite Forall_forall in He. by apply He.
    + intros j Hj. apply H1, map_set_elem in Hj as [->|Hj]; [by right|]. left. exists j.
      split; [by apply (prune_elem now)|apply evolves_refl].
  - split; [by apply prune_step|]. split; [done|]. intros j Hj. left. exists j.
    split; [by apply (prune_elem now)|apply evolves_refl].
  - unfold appendEvent. destruct (map_get id l) as [j|] eqn:E; cbn [fst].
    + apply map_get_Some in E as [Hj _]. destruct (map_set_step used l j (appendJobEvent now j input)) as [H1 H2];
        [done|done|apply append_evolves| |].
      * apply next_event_ok. destruct Hi as (_ & _ & He & _). rewrite Forall_forall in He. by apply He.
      * split; [done|]. split; [done|]. intros x Hx. left. by apply H2.
    + split; [done|]. split; [done|]. intros x Hx. left. exists x. split; [done|apply evolves_refl].
  - unfold transition_job. destruct (map_get id l) as [j|] eqn:E; cbn [fst];
      [destruct (transitionJob now j to patch) as [j'|] eqn:Et; cbn [fst]|].
    + apply map_get_Some in E as [Hj _]. apply transition_evolves in Et as [Hev Hes].
      destruct (map_set_step used l j j') as [H1 H2]; [done|done|done| |].
      * rewrite Hes. destruct Hi as (_ & _ & He & _). rewrite Forall_forall in He. by apply He.
      * split; [done|]. split; [done|]. intros x Hx. left. by apply H2.
    + split; [done|]. split; [done|]. intros x Hx. left. exists x. split; [done|apply evolves_refl].
    + split; [done|]. split; [done|]. intros x Hx. left. exists x. split; [done|apply evolves_refl].
Qed.
Lemma registry_history w w' j' :
  registry_inv w -> rtc registry_step w w' -> j' ∈ w'.2 -> rj_id j' ∈ w.1 ->
  registry_inv w' /\ exists j, j ∈ w.2 /\ rtc evolves j j'.
Proof.
  intros Hi Hs. revert Hi. induction Hs as [w|w w1 w2 H _ IH]; intros Hi Hj Hid.
  - split; [done|]. exists j'. split; [done|apply rtc_refl].
  - destruct (registry_step_inv w w1 Hi H) as (Hi1 & Hsub & Hfrom).
    destruct (IH Hi1 Hj) as (Hi2 & j1 & Hj1 & Hr); [by apply Hsub|]. split; [done|].
    assert (E : rj_id j' = rj_id j1).
    { clear -Hr. induction Hr as [x|x y z Hxy _ IH]; [done|]. rewrite IH. by destruct Hxy. }
    destruct (Hfrom j1 Hj1) as [(j & Hjin & Hev)|Hno]; [|by rewrite <- E in Hno].
    exists j. split; [done|]. by eapply rtc_l.
Qed.
Lemma evolves_terminal j j' :
  rtc evolves j j' -> isTerminalJobStatus (rj_status j) = true ->
  rj_status j' = rj_status j /\ rj_result j' = rj_result j /\ rj_failure j' = rj_failure j.
Proof.
  induction 1 as [j|j j1 j2 H _ IH]; [done|]. intros Ht. destruct H as (_ & _ & H).
  destruct (H Ht) as (E1 & E2 & E3). rewrite <- E1, <- E2, <- E3. apply IH. by rewrite E1.
Qed.

(** C40. The registry of replay jobs, over any sequence of creations, reads, events
    and transitions: ids are distinct, at most [maxJobs] jobs are kept, and every
    job's events number on one by one with a percentage in 0..100 that never falls,
    at most 200 of them. A job that has ended never changes its status, result or
    failure while it is kept; before that it moves along the transition table. *)
Theorem registry_jobs_ok w w' :
  rtc registry_step (∅, []) w -> rtc registry_step w w' ->
  (NoDup (rids w.2) /\ (length w.2 <= maxJobs)%nat /\ Forall (fun j => events_ok (rj_events j)) w.2) /\
  forall j j', j ∈ w.2 -> j' ∈ w'.2 -> rj_id j' = rj_id j ->
    rtc (fun s s' => s = s' \/ s' ∈ JOB_TRANSITIONS s) (rj_status j) (rj_status j') /\
    (isTerminalJobStatus (rj_status j) = true ->
       rj_status j' = rj_status j /\ rj_result j' = rj_result j /\ rj_failure j' = rj_failure j).
Proof.
  intros H0 Hs. assert (Hi : registry_inv w).
  { assert (Hi0 : registry_inv (∅, [])) by (split; [constructor|split; [set_solver|split; [constructor|cbn; lia]]]).
    revert Hi0. apply (reachable_inv registry_step registry_inv); [|done].
    intros c c' H1 H2. by apply (registry_step_inv c c'). }
  split; [destruct Hi as (? & _ & ? & ?); done|]. intros j j' Hj Hj' Eid.
  destruct (registry_history w w' j' Hi Hs Hj') as (_ & j0 & Hj0 & Hr).
  { rewrite Eid. by apply Hi. }
  assert (E0 : rj_id j' = rj_id j0).
  { clear -Hr. induction Hr as [x|x y z Hxy _ IH]; [done|]. rewrite IH. by destruct Hxy. }
  assert (j0 = j) as -> by (apply (same_rid w.2); [apply Hi|done|done|congruence]).
  split; [|by apply evolves_terminal]. clear -Hr. induction Hr as [x|x y z Hxy _ IH]; [apply rtc_refl|].
  eapply rtc_l; [|exact IH]. destruct Hxy as (_ & [->|H] & _); [by left|by right].
Qed.
End Registry.

(** Reconnecting loses nothing: a client that has seen a job's events and asks
    for those after the last number it saw, after up to 200 more were appended,
    gets exactly the appended ones, in order, numbered on from there — although
    the older ones may have been trimmed. *)
Theorem reconnect_complete {Env Check Result} (job : ReplayJob Env Check Result) inputs :
  events_ok (rj_events job) -> (length inputs <= MAX_JOB_EVENTS)%nat ->
  let seen := from_option ev_seq 0 (last (rj_events job)) in
  let job' := foldl (fun j i => appendJobEvent i.1 j i.2) job inputs in
  eventsAfter job' seen = new_events (rj_events job) inputs /\
  ev_seq <$> eventsAfter job' seen = seqZ (seen + 1) (Z.of_nat (length inputs)).
Proof.
  intros (Hl & Hf & Hn) Hk seen job'.
  assert (E : eventsAfter job' seen = new_events (rj_events job) inputs).
  2:{ split; [done|]. rewrite E. by apply new_events_seq. }
  unfold eventsAfter, job'. rewrite append_all_events by done.
  pose proof (new_events_seq (rj_events job) inputs seen eq_refl) as Hseq.
  set (news := new_events (rj_events job) inputs) in *.
  assert (Hlen : length news = length inputs).
  { rewrite <- (length_fmap ev_seq), Hseq, length_seqZ. lia. }
  unfold slice_last. rewrite length_app, drop_app.
  replace (length (rj_events job) + length news - MAX_JOB_EVENTS - length (rj_events job))%nat with 0%nat by lia.
  rewrite drop_0, filter_app.
  replace (filter (fun e => seen < ev_seq e) (drop _ (rj_events job))) with ([] : list ReplayJobEvent).
  - cbn [app]. apply filter_all. intros e He.
    assert (Hin : ev_seq e ∈ ev_seq <$> news) by (by apply list_elem_of_fmap_2).
    rewrite Hseq in Hin. apply elem_of_seqZ in Hin. lia.
  - symmetry. apply filter_none. intros e He.
    assert (Hin : e ∈ rj_events job) by (eapply elem_of_submseteq; [exact He|]; apply sublist_submseteq, sublist_drop).
    subst seen. destruct (last (rj_events job)) as [e1|] eqn:El.
    + pose proof (linked_last_max _ _ _ Hl Hin El). cbn [from_option]. lia.
    + apply last_None in El. rewrite El in Hin. by apply elem_of_nil in Hin.
Qed.
Definition sample_create : CreateJobInput unit unit :=
  mkCreate "run-1" "mock" "github:a" None None None.
Definition sample_registry : list (ReplayJob unit unit unit) :=
  (create_job DEFAULT_JOB_TTL_MS 2 "u1" 1000 sample_create []).1.
Definition sample_event (pct : Z) : string * JobEventInput :=
  ("t"%string, mkEventInput ph_runner "Running." (pct, 0) None None).
Definition empty_patch : JobPatch unit := mkPatch None None None.
Lemma registry_jobs_ok_witness :
  let ended := (transition_job "t" "replay-job-u1" rj_failed empty_patch sample_registry).1 in
  let later := (transition_job "t" "replay-job-u1" rj_running empty_patch ended).1 in
  rj_status <$> later = [rj_failed] /\
  forall j j', j ∈ ended -> j' ∈ later -> rj_id j' = rj_id j ->
    isTerminalJobStatus (rj_status j) = true -> rj_status j' = rj_status j.
Proof.
  set (u := {[ "replay-job-u1"%string ]} ∪ ∅ : gset string).
  assert (H1 : rtc (registry_step DEFAULT_JOB_TTL_MS 2) (∅, []) (u, sample_registry)).
  { eapply rtc_l; [|apply rtc_refl]. apply (reg_create _ _ "u1" 1000 sample_create ∅ []). apply not_elem_of_empty. }
  set (ended := (transition_job "t" "replay-job-u1" rj_failed empty_patch sample_registry).1).
  set (later := (transition_job "t" "replay-job-u1" rj_running empty_patch ended).1).
  assert (H2 : rtc (registry_step DEFAULT_JOB_TTL_MS 2) (∅, []) (u, ended))
    by (eapply rtc_r; [exact H1|apply (reg_transition _ _ "t" "replay-job-u1" rj_failed empty_patch u sample_registry)]).
  assert (H3 : rtc (registry_step DEFAULT_JOB_TTL_MS 2) (u, ended) (u, later))
    by (eapply rtc_l; [apply (reg_transition _ _ "t" "replay-job-u1" rj_running empty_patch u ended)|apply rtc_refl]).
  split; [vm_compute; reflexivity|]. intros j j' Hj Hj' E Ht.
  exact (proj1 (proj2 (proj2 (registry_jobs_ok DEFAULT_JOB_TTL_MS 2 _ _ H2 H3) j j' Hj Hj' E) Ht)).
Defined.
Definition sample_replay_job : ReplayJob unit unit unit :=
  (create_job DEFAULT_JOB_TTL_MS 2 "u1" 1000 sample_create []).2.
Definition sample_inputs : list (string * JobEventInput) :=
  [sample_event 40; sample_event 30; sample_event 900].
Lemma reconnect_complete_witness :
  let job' := foldl (fun j i => appendJobEvent i.1 j i.2) sample_replay_job sample_inputs in
  ev_percent <$> eventsAfter job' 1 = [40; 40; 100] /\ ev_seq <$> eventsAfter job' 1 = [2; 3; 4].
Proof.
  assert (Hok : events_ok (rj_events sample_replay_job)).
  { split; [|split].
    - intros i e e' H1 H2. destruct i; discriminate.
    - apply Forall_singleton. vm_compute. split; [discriminate|split; discriminate].
    - vm_compute. lia. }
  assert (Hlen : (length sample_inputs <= MAX_JOB_EVENTS)%nat) by (vm_compute; lia).
  split; [vm_compute; reflexivity|].
  exact (proj2 (reconnect_complete sample_replay_job sample_inputs Hok Hlen)).
Defined.
