(* ===== verification/RouteCatalog.v ===== *)
(** [lib/route-catalog.ts] and the pure policies that read it: the roles of
    [lib/rbac.ts], the scopes and the CSRF guard of [lib/api-scope-enforcer.ts],
    and the client's mirror of capabilities in [lib/permissions.ts].

    The texts of [explainCapability] and [explainGate] and the React hook of
    [permissions.ts] are left out. *)

From S2P Require Import Prelude JsString CronParser Tenancy RateLimit.
From stdpp Require Import base list strings numbers.
From Stdlib Require Import ZArith Lia Ascii.
#[local] Open Scope Z_scope.

(** ** The catalog *)

Inductive ApiTokenScope : Type :=
  | webhook_read | webhook_write | runs_read | runs_write | settings_read | settings_write
  | ci_write | all_scopes.
#[export] Instance ApiTokenScope_eq_dec : EqDecision ApiTokenScope.
Proof. solve_decision. Defined.
#[export] Instance UserRole_eq_dec : EqDecision UserRole.
Proof. solve_decision. Defined.
Inductive AuthClass : Type := auth_public | auth_session | auth_token.
#[export] Instance AuthClass_eq_dec : EqDecision AuthClass.
Proof. solve_decision. Defined.
Inductive RateLimitClass : Type := rl_default | rl_strict | rl_lenient | rl_none.
(** Some read-only entries declare scopes without a role. *)
Record RouteCapability : Type := cap
  { rc_role : option UserRole; rc_scopes : option (list ApiTokenScope) }.
Record RouteCatalogEntry : Type := r
  { re_method : string; re_path : string; re_authClass : AuthClass;
    re_requiredCapability : option RouteCapability; re_rateLimitClass : RateLimitClass }.
Definition ROUTE_CATALOG : list RouteCatalogEntry :=
  [
    r "GET" "/api/artifacts" auth_session None rl_default;
    r "POST" "/api/artifacts" auth_session (Some (cap (Some analyst) None)) rl_default;
    r "DELETE" "/api/artifacts/[id]" auth_session (Some (cap (Some analyst) None)) rl_default;
    r "GET" "/api/artifacts/[id]" auth_session None rl_default;
    r "POST" "/api/artifacts/validate" auth_session (Some (cap (Some analyst) None)) rl_default;
    r "GET" "/api/audit" auth_session None rl_default;
    r "POST" "/api/audit/checkpoint" auth_session (Some (cap (Some analyst) None)) rl_default;
    r "GET" "/api/audit/export" auth_session None rl_default;
    r "GET" "/api/auth/github/callback" auth_public None rl_default;
    r "GET" "/api/auth/github/login" auth_public None rl_default;
    r "GET" "/api/auth/oidc/callback" auth_public None rl_default;
    r "GET" "/api/auth/oidc/start" auth_public None rl_default;
    r "POST" "/api/campaigns" auth_session (Some (cap (Some maintainer) None)) rl_default;
    r "GET" "/api/capacity" auth_public None rl_default;
    r "POST" "/api/capacity/usage" auth_token (Some (cap (Some analyst) None)) rl_default;
    r "GET" "/api/database/migrations" auth_session None rl_default;
    r "POST" "/api/database/migrations" auth_session (Some (cap (Some analyst) None)) rl_default;
    r "GET" "/api/health" auth_public None rl_none;
    r "GET" "/api/health/liveness" auth_public None rl_none;
    r "GET" "/api/health/metrics" auth_token None rl_none;
    r "GET" "/api/integrations/ci/results" auth_public None rl_default;
    r "POST" "/api/integrations/ci/results" auth_token (Some (cap (Some analyst) (Some [ci_write]))) rl_default;
    r "GET" "/api/integrations/datadog/metrics" auth_session None rl_default;
    r "POST" "/api/integrations/discord" auth_token (Some (cap (Some analyst) None)) rl_default;
    r "GET" "/api/integrations/github-actions" auth_session None rl_default;
    r "POST" "/api/integrations/github-actions" auth_token (Some (cap (Some analyst) None)) rl_default;
    r "GET" "/api/integrations/github-issue" auth_session None rl_default;
    r "GET" "/api/integrations/grafana/annotations" auth_session None rl_default;
    r "POST" "/api/integrations/grafana/annotations" auth_token (Some (cap (Some analyst) None)) rl_default;
    r "GET" "/api/integrations/grafana/config" auth_session None rl_default;
    r "POST" "/api/integrations/grafana/config" auth_token (Some (cap (Some maintainer) None)) rl_default;
    r "POST" "/api/integrations/grafana/test-connection" auth_token (Some (cap (Some maintainer) None)) rl_default;
    r "POST" "/api/integrations/jira" auth_token (Some (cap (Some analyst) None)) rl_default;
    r "GET" "/api/integrations/jira/[issueKey]" auth_session None rl_default;
    r "POST" "/api/integrations/jira/[issueKey]" auth_token (Some (cap (Some analyst) None)) rl_default;
    r "GET" "/api/integrations/linear/[issueId]" auth_session None rl_default;
    r "GET" "/api/integrations/pagerduty/alerts" auth_session None rl_default;
    r "POST" "/api/integrations/pagerduty/alerts" auth_token (Some (cap (Some analyst) None)) rl_default;
    r "GET" "/api/integrations/pagerduty/config" auth_session None rl_default;
    r "POST" "/api/integrations/pagerduty/config" auth_token (Some (cap (Some maintainer) None)) rl_default;
    r "POST" "/api/integrations/pagerduty/test-connection" auth_token (Some (cap (Some maintainer) None)) rl_default;
    r "POST" "/api/integrations/pagerduty/trigger" auth_token (Some (cap (Some analyst) None)) rl_default;
    r "POST" "/api/integrations/pagerduty/webhook" auth_token (Some (cap (Some analyst) None)) rl_default;
    r "GET" "/api/integrations/prometheus/health" auth_public None rl_default;
    r "POST" "/api/integrations/slack" auth_token (Some (cap (Some analyst) None)) rl_default;
    r "POST" "/api/integrations/slack/interactivity" auth_token (Some (cap (Some analyst) None)) rl_default;
    r "GET" "/api/integrations/smtp/config" auth_session None rl_default;
    r "POST" "/api/integrations/smtp/config" auth_token (Some (cap (Some maintainer) None)) rl_default;
    r "GET" "/api/integrations/smtp/history" auth_session None rl_default;
    r "POST" "/api/integrations/smtp/send" auth_token (Some (cap (Some analyst) None)) rl_default;
    r "POST" "/api/integrations/smtp/test-connection" auth_token (Some (cap (Some maintainer) None)) rl_default;
    r "GET" "/api/networks" auth_session None rl_default;
    r "POST" "/api/networks" auth_session (Some (cap (Some maintainer) None)) rl_default;
    r "DELETE" "/api/networks/[id]" auth_session (Some (cap (Some maintainer) None)) rl_default;
    r "GET" "/api/networks/active" auth_session None rl_default;
    r "PUT" "/api/networks/active" auth_session (Some (cap (Some maintainer) None)) rl_default;
    r "GET" "/api/notifications" auth_session None rl_default;
    r "GET" "/api/openapi" auth_public None rl_default;
    r "GET" "/api/runs" auth_session (Some (cap None (Some [runs_read]))) rl_default;
    r "POST" "/api/runs" auth_session (Some (cap (Some analyst) (Some [runs_write]))) rl_default;
    r "GET" "/api/runs/[id]" auth_session (Some (cap None (Some [runs_read]))) rl_default;
    r "DELETE" "/api/runs/[id]" auth_session (Some (cap (Some maintainer) (Some [runs_write]))) rl_default;
    r "DELETE" "/api/runs/[id]/annotations" auth_session (Some (cap (Some analyst) (Some [runs_write]))) rl_default;
    r "GET" "/api/runs/[id]/annotations" auth_session (Some (cap None (Some [runs_read]))) rl_default;
    r "POST" "/api/runs/[id]/annotations" auth_session (Some (cap (Some analyst) (Some [runs_write]))) rl_default;
    r "DELETE" "/api/runs/[id]/issues" auth_session (Some (cap (Some analyst) (Some [runs_write]))) rl_default;
    r "GET" "/api/runs/[id]/issues" auth_session (Some (cap None (Some [runs_read]))) rl_default;
    r "POST" "/api/runs/[id]/issues" auth_session (Some (cap (Some analyst) (Some [runs_write]))) rl_default;
    r "POST" "/api/runs/[id]/replay" auth_session (Some (cap (Some maintainer) (Some [runs_write]))) rl_default;
    r "GET" "/api/runs/[id]/replay-history" auth_session (Some (cap None (Some [runs_read]))) rl_default;
    r "GET" "/api/runs/[id]/stream" auth_session (Some (cap None (Some [runs_read]))) rl_default;
    r "DELETE" "/api/runs/[id]/tags" auth_session (Some (cap (Some analyst) (Some [runs_write]))) rl_default;
    r "GET" "/api/runs/[id]/tags" auth_session (Some (cap None (Some [runs_read]))) rl_default;
    r "POST" "/api/runs/[id]/tags" auth_session (Some (cap (Some analyst) (Some [runs_write]))) rl_default;
    r "GET" "/api/schedules" auth_session None rl_default;
    r "POST" "/api/schedules" auth_session (Some (cap (Some analyst) None)) rl_default;
    r "DELETE" "/api/schedules/[id]" auth_session (Some (cap (Some analyst) None)) rl_default;
    r "PUT" "/api/schedules/[id]" auth_session (Some (cap (Some analyst) None)) rl_default;
    r "POST" "/api/schedules/tick" auth_session (Some (cap (Some analyst) None)) rl_default;
    r "GET" "/api/sentry/config" auth_session None rl_default;
    r "POST" "/api/sentry/config" auth_session (Some (cap (Some maintainer) None)) rl_default;
    r "GET" "/api/sentry/reports" auth_session None rl_default;
    r "POST" "/api/sentry/test-connection" auth_session (Some (cap (Some maintainer) None)) rl_default;
    r "GET" "/api/settings/alerting" auth_session (Some (cap None (Some [settings_read]))) rl_default;
    r "PUT" "/api/settings/alerting" auth_session (Some (cap (Some maintainer) (Some [settings_write]))) rl_default;
    r "POST" "/api/settings/alerting" auth_session (Some (cap (Some maintainer) (Some [settings_write]))) rl_default;
    r "GET" "/api/settings/notifications" auth_session (Some (cap None (Some [settings_read]))) rl_default;
    r "POST" "/api/settings/notifications" auth_session (Some (cap (Some maintainer) (Some [settings_write]))) rl_default;
    r "DELETE" "/api/settings/roles" auth_session (Some (cap (Some maintainer) (Some [settings_write]))) rl_default;
    r "GET" "/api/settings/roles" auth_session (Some (cap None (Some [settings_read]))) rl_default;
    r "POST" "/api/settings/roles" auth_session (Some (cap (Some maintainer) (Some [settings_write]))) rl_default;
    r "GET" "/api/settings/roles/audit" auth_session (Some (cap None (Some [settings_read]))) rl_default;
    r "GET" "/api/settings/roles/me" auth_session (Some (cap None (Some [settings_read]))) rl_default;
    r "GET" "/api/settings/tokens" auth_session (Some (cap None (Some [settings_read]))) rl_default;
    r "POST" "/api/settings/tokens" auth_session (Some (cap (Some maintainer) (Some [settings_write]))) rl_default;
    r "POST" "/api/settings/tokens/[id]/revoke" auth_session (Some (cap (Some maintainer) (Some [settings_write]))) rl_default;
    r "POST" "/api/settings/tokens/[id]/rotate" auth_session (Some (cap (Some maintainer) (Some [settings_write]))) rl_default;
    r "GET" "/api/uploadthing" auth_token None rl_default;
    r "POST" "/api/uploadthing" auth_token (Some (cap (Some analyst) None)) rl_default;
    r "DELETE" "/api/webhooks" auth_token (Some (cap (Some maintainer) (Some [webhook_write]))) rl_default;
    r "GET" "/api/webhooks" auth_token (Some (cap None (Some [webhook_read]))) rl_default;
    r "PATCH" "/api/webhooks" auth_token (Some (cap (Some analyst) (Some [webhook_write]))) rl_default;
    r "POST" "/api/webhooks" auth_token (Some (cap (Some maintainer) (Some [webhook_write]))) rl_default;
    r "GET" "/api/webhooks/history" auth_token (Some (cap None (Some [webhook_read]))) rl_default;
    r "POST" "/api/webhooks/recovery" auth_token (Some (cap (Some maintainer) (Some [webhook_write]))) rl_default;
    r "POST" "/api/webhooks/retry" auth_token (Some (cap (Some maintainer) (Some [webhook_write]))) rl_default;
    r "GET" "/api/webhooks/signing-secrets" auth_token (Some (cap None (Some [webhook_read]))) rl_default;
    r "POST" "/api/webhooks/signing-secrets/[keyId]/revoke-grace" auth_token (Some (cap (Some maintainer) (Some [webhook_write]))) rl_default;
    r "POST" "/api/webhooks/signing-secrets/rotate" auth_token (Some (cap (Some maintainer) (Some [webhook_write]))) rl_default
  ]%string.

Definition is_param (part : string) : bool :=
  startsWith part "[" && bool_decide (String.get (String.length part - 1) part = Some "]"%char).
Definition part_matches (part segment : string) : bool :=
  if is_param part then negb (bool_decide (segment = EmptyString)) else bool_decide (part = segment).
Fixpoint parts_match (parts segments : list string) : bool :=
  match parts, segments with
  | [], [] => true
  | part :: parts', segment :: segments' => part_matches part segment && parts_match parts' segments'
  | _, _ => false
  end.
Definition routePathMatches (pattern pathname : string) : bool :=
  parts_match (split_on "/" pattern) (split_on "/" pathname).
Definition entry_matches (method pathname : string) (entry : RouteCatalogEntry) : bool :=
  bool_decide (re_method entry = to_upper method) && routePathMatches (re_path entry) pathname.
Definition matchRouteCatalogEntry (method pathname : string) : option RouteCatalogEntry :=
  List.find (entry_matches method pathname) ROUTE_CATALOG.

(** [entry?.requiredCapability?.field]. *)
Definition entry_capability {A} (method pathname : string) (field : RouteCapability -> option A)
  : option A :=
  entry ← matchRouteCatalogEntry method pathname;
  capability ← re_requiredCapability entry; field capability.

(** ** Roles *)

Definition hasRequiredRole (userRole requiredRole : UserRole) : bool :=
  match userRole with
  | maintainer => true
  | analyst => bool_decide (requiredRole = analyst)
  end.
Definition getRequiredRoleForRequest (method pathname : string) : option UserRole :=
  if bool_decide (to_upper method ∈ ["GET"; "HEAD"; "OPTIONS"]%string) then None
  else
    match entry_capability (to_upper method) pathname rc_role with
    | Some role => Some role
    | None => if startsWith pathname "/api/" then Some analyst else None
    end.

(** ** Token scopes *)

Definition SCOPE_RULES : list (list string * string * list ApiTokenScope) :=
  [ (["GET"], "/api/webhooks", [webhook_read; all_scopes]);
    (["POST"; "PUT"; "DELETE"], "/api/webhooks", [webhook_write; all_scopes]);
    (["GET"], "/api/runs", [runs_read; all_scopes]);
    (["POST"; "PUT"; "DELETE"], "/api/runs", [runs_write; all_scopes]);
    (["GET"], "/api/settings", [settings_read; all_scopes]);
    (["POST"; "PUT"; "DELETE"], "/api/settings", [settings_write; all_scopes]);
    (["POST"; "PUT"; "DELETE"], "/api/integrations/ci/", [ci_write; all_scopes]) ]%string.
Definition getRequiredScopesForRequest (method pathname : string) : option (list ApiTokenScope) :=
  match entry_capability (to_upper method) pathname rc_scopes with
  | Some scopes => Some scopes
  | None =>
      snd <$> List.find (fun rule => bool_decide (to_upper method ∈ rule.1.1) &&
                                     startsWith pathname rule.1.2) SCOPE_RULES
  end.
Definition hasSufficientScope (tokenScopes requiredScopes : list ApiTokenScope) : bool :=
  bool_decide (all_scopes ∈ tokenScopes) ||
  existsb (fun scope => bool_decide (scope ∈ tokenScopes)) requiredScopes.
Definition checkScopePermission (tokenScopes : list ApiTokenScope) (method pathname : string)
  : bool * option (list ApiTokenScope) :=
  match getRequiredScopesForRequest method pathname with
  | None => (true, None)
  | Some required => (hasSufficientScope tokenScopes required, Some required)
  end.
(** [headers.get(name)?.trim() || null]. *)
Definition requested_header (value : option string) : option string := truthy (trim <$> value).
Definition requestedTenantFromHeaders (org project : option string) : option string * option string :=
  (requested_header org, requested_header project).
Definition isResourceInTenantScope (orgId projectId resourceKey : string) : result TenancyError bool :=
  prefix ← tenantKeyPrefix orgId projectId; Ok (startsWith resourceKey prefix).

(** ** The CSRF guard *)

Inductive RouteAuthClass : Type := csrf_cookie | csrf_bearer | csrf_public.
Record MutatingRouteGuard : Type := mkGuard
  { mg_authClass : RouteAuthClass; mg_requireDoubleSubmit : bool }.
Definition MUTATING_ROUTE_INVENTORY : list (string * MutatingRouteGuard) :=
  [ ("/api/webhooks", mkGuard csrf_cookie false); ("/api/runs", mkGuard csrf_cookie false);
    ("/api/settings", mkGuard csrf_cookie true); ("/api/integrations/ci/", mkGuard csrf_bearer false) ]%string.
Definition getMutatingRouteGuard (method pathname : string) : option MutatingRouteGuard :=
  if negb (bool_decide (to_upper method ∈ ["POST"; "PUT"; "PATCH"; "DELETE"]%string)) then None
  else match List.find (fun entry => startsWith pathname entry.1) MUTATING_ROUTE_INVENTORY with
       | Some entry => Some entry.2
       | None => Some (mkGuard csrf_cookie false)
       end.
(** [{ ok }]; the request is not looked at. *)
Definition assertCsrfSafe (authClass : RouteAuthClass) (requireDoubleSubmit : bool) : bool :=
  match authClass with csrf_bearer | csrf_public => true | csrf_cookie => true end.
Definition enforceCsrfForRequest (method pathname : string) : bool :=
  match getMutatingRouteGuard method pathname with
  | None => true
  | Some guard => assertCsrfSafe (mg_authClass guard) (mg_requireDoubleSubmit guard)
  end.

(** ** The client's mirror *)

Record CapabilityDefinition : Type := mkCapability
  { cap_code : string; cap_label : string; cap_description : string; cap_whoToAsk : string;
    cap_routes : list string }.
Definition CAPABILITY_REGISTRY : list CapabilityDefinition :=
  [
    mkCapability "runs:create" "Start fuzzing runs" "Queue new fuzzing runs through the API."
      "a maintainer"
      ["POST /api/runs"];
    mkCapability "runs:annotate" "Annotate and triage runs" "Add annotations, issue links and tags to runs."
      "a maintainer"
      ["POST /api/runs/[id]/annotations"; "DELETE /api/runs/[id]/annotations"; "POST /api/runs/[id]/issues"; "DELETE /api/runs/[id]/issues"; "POST /api/runs/[id]/tags"; "DELETE /api/runs/[id]/tags"];
    mkCapability "runs:replay" "Replay crashes" "Trigger seed replays from a crash detail."
      "a maintainer"
      ["POST /api/runs/[id]/replay"];
    mkCapability "runs:delete" "Delete runs" "Remove runs, including bulk deletion from the runs table."
      "a maintainer"
      ["DELETE /api/runs/[id]"];
    mkCapability "campaigns:create" "Launch fuzzing campaigns" "Create new fuzzing campaigns from the Start flow."
      "a maintainer"
      ["POST /api/campaigns"];
    mkCapability "schedules:manage" "Manage schedules" "Create, edit, delete and tick run schedules."
      "a maintainer"
      ["POST /api/schedules"; "PUT /api/schedules/[id]"; "DELETE /api/schedules/[id]"; "POST /api/schedules/tick"];
    mkCapability "artifacts:manage" "Manage artifacts" "Upload, validate and remove run artifacts."
      "a maintainer"
      ["POST /api/artifacts"; "POST /api/artifacts/validate"; "DELETE /api/artifacts/[id]"];
    mkCapability "audit:checkpoint" "Record audit checkpoints" "Append integrity checkpoints to the audit trail."
      "a maintainer"
      ["POST /api/audit/checkpoint"];
    mkCapability "database:migrate" "Run database migrations" "Apply pending database migrations."
      "a maintainer"
      ["POST /api/database/migrations"];
    mkCapability "networks:manage" "Manage network endpoints" "Add, remove and switch Stellar RPC / Horizon endpoints."
      "a maintainer"
      ["POST /api/networks"; "DELETE /api/networks/[id]"; "PUT /api/networks/active"];
    mkCapability "settings:write" "Administer settings" "Change alerting, notification, Sentry and deployment settings."
      "a maintainer"
      ["PUT /api/settings/alerting"; "POST /api/settings/alerting"; "POST /api/settings/notifications"; "POST /api/sentry/config"; "POST /api/sentry/test-connection"];
    mkCapability "roles:manage" "Manage role assignments" "Assign and revoke analyst / maintainer roles for identities."
      "a maintainer"
      ["POST /api/settings/roles"; "DELETE /api/settings/roles"];
    mkCapability "tokens:manage" "Manage API tokens" "Create, rotate and revoke scoped API tokens."
      "a maintainer"
      ["POST /api/settings/tokens"; "POST /api/settings/tokens/[id]/rotate"; "POST /api/settings/tokens/[id]/revoke"]
  ]%string.
Definition CAPABILITY_CODES : list string := cap_code <$> CAPABILITY_REGISTRY.
(** [/^([A-Z]+) (\S+)$/]. *)
Definition splitSelector (selector : string) : option (string * string) :=
  match split_on " " selector with
  | [method; path] =>
      if bool_decide (method <> EmptyString) && all_chars (fun c => (65 <=? code c) && (code c <=? 90)) method
         && bool_decide (path <> EmptyString) && all_chars (fun c => negb (is_ws c)) path
      then Some (method, path) else None
  | _ => None
  end.
Definition getCapability (code : string) : option CapabilityDefinition :=
  List.find (fun c => bool_decide (cap_code c = code)) CAPABILITY_REGISTRY.
(** The role of the catalog entry a selector names. *)
Definition selector_role (selector : string) : option UserRole :=
  '(method, path) ← splitSelector selector;
  entry ← List.find (fun e => bool_decide (re_method e = method) && routePathMatches (re_path e) path)
            ROUTE_CATALOG;
  capability ← re_requiredCapability entry;
  rc_role capability.
Definition requiredRoleForCapability (code : string) : option UserRole :=
  definition ← getCapability code; head (omap selector_role (cap_routes definition)).
(** [can(role, code)]. *)
Definition can_use (role : option UserRole) (code : string) : bool :=
  match role, requiredRoleForCapability code with
  | Some role, Some required => hasRequiredRole role required
  | _, _ => false
  end.
Definition selector_matches (upper pathname selector : string) : bool :=
  match splitSelector selector with
  | Some (method, path) => bool_decide (method = upper) && routePathMatches path pathname
  | None => false
  end.
Definition capabilityForRoute (method pathname : string) : option string :=
  cap_code <$> List.find (fun c => existsb (selector_matches (to_upper method) pathname) (cap_routes c))
                 CAPABILITY_REGISTRY.

Example catalog_examples :
  length ROUTE_CATALOG = 109%nat /\ length CAPABILITY_REGISTRY = 13%nat /\
  (re_path <$> matchRouteCatalogEntry "get" "/api/runs/run-42") = Some "/api/runs/[id]"%string /\
  getRequiredRoleForRequest "DELETE" "/api/runs/run-42" = Some maintainer /\
  getRequiredRoleForRequest "POST" "/api/nowhere" = Some analyst /\
  getRequiredScopesForRequest "PUT" "/api/runs/x/y" = Some [runs_write; all_scopes] /\
  requiredRoleForCapability "runs:delete" = Some maintainer /\
  capabilityForRoute "delete" "/api/runs/7" = Some "runs:delete"%string.
Proof. vm_compute. split_and!; done. Qed.

(** ** The catalog is unambiguous *)

(** Two patterns a path could both match. *)
Fixpoint may_overlap (p q : list string) : bool :=
  match p, q with
  | [], [] => true
  | a :: p', b :: q' => (is_param a || is_param b || bool_decide (a = b)) && may_overlap p' q'
  | _, _ => false
  end.
Lemma parts_overlap p : forall q s,
  parts_match p s = true -> parts_match q s = true -> may_overlap p q = true.
Proof.
  induction p as [|a p IH]; intros [|b q] [|x s] Hp Hq; try done.
  cbn [parts_match may_overlap] in *. bools. rewrite (IH q s) by done. rewrite andb_true_r.
  unfold part_matches in *. destruct (is_param a), (is_param b); try done. bools. subst.
  by rewrite bool_decide_eq_true_2.
Qed.
Definition exclusive (e e' : RouteCatalogEntry) : bool :=
  negb (bool_decide (re_method e = re_method e') &&
        may_overlap (split_on "/" (re_path e)) (split_on "/" (re_path e'))).
Fixpoint pairwise {A} (f : A -> A -> bool) (l : list A) : bool :=
  match l with [] => true | x :: l' => forallb (f x) l' && pairwise f l' end.
Lemma catalog_exclusive : pairwise exclusive ROUTE_CATALOG = true.
Proof. by vm_compute. Qed.
Lemma exclusive_sym e e' : exclusive e e' = exclusive e' e.
Proof.
  unfold exclusive. do 2 f_equal.
  - apply bool_decide_ext. naive_solver.
  - generalize (split_on "/" (re_path e)) as p, (split_on "/" (re_path e')) as q.
    induction p as [|a p IH]; intros [|b q]; try done. cbn [may_overlap]. rewrite IH.
    rewrite (orb_comm (is_param a)). do 2 f_equal. apply bool_decide_ext. naive_solver.
Qed.
Lemma not_both method pathname e e' : entry_matches method pathname e = true ->
  entry_matches method pathname e' = true -> exclusive e e' = false.
Proof.
  unfold entry_matches, exclusive, routePathMatches. intros H H'. bools.
  apply negb_false_iff, andb_true_iff. split; [apply bool_decide_eq_true; congruence|].
  by eapply parts_overlap.
Qed.
(** In a list of exclusive entries the one that matches is found wherever it stands. *)
Lemma find_exclusive method pathname l e : pairwise exclusive l = true -> e ∈ l ->
  entry_matches method pathname e = true -> List.find (entry_matches method pathname) l = Some e.
Proof.
  induction l as [|x l IH]; intros Hl Hin He; [by apply not_elem_of_nil in Hin|].
  cbn [pairwise List.find] in *. bools. apply elem_of_cons in Hin as [->|Hin]; [by rewrite He|].
  destruct (entry_matches method pathname x) eqn:Ex; [|by apply IH].
  exfalso. rewrite forallb_forall in H. rewrite list_elem_of_In in Hin. apply H in Hin.
  by rewrite (not_both method pathname x e) in Hin.
Qed.
Lemma pairwise_perm {A} (f : A -> A -> bool) (l k : list A) :
  (forall x y, f x y = f y x) -> l ≡ₚ k -> pairwise f l = pairwise f k.
Proof.
  intros Hs. induction 1 as [|x l k Hp IH|x y l|]; cbn [pairwise]; [done| | |congruence].
  - rewrite IH. f_equal. apply eq_true_iff_eq. rewrite !forallb_forall.
    split; intros H z Hz; apply H; rewrite <- list_elem_of_In in *; by rewrite Hp in *.
  - cbn [forallb]. rewrite (Hs y x). destruct (f x y), (forallb (f x) l), (forallb (f y) l); done.
Qed.

(** The catalog answers the same in any order: no entry shadows another one. *)
Theorem catalog_order_irrelevant catalog method pathname : catalog ≡ₚ ROUTE_CATALOG ->
  List.find (entry_matches method pathname) catalog = matchRouteCatalogEntry method pathname.
Proof.
  intros Hp. unfold matchRouteCatalogEntry.
  destruct (List.find (entry_matches method pathname) catalog) as [e|] eqn:E.
  - apply List.find_some in E as [Hin He]. symmetry. apply find_exclusive; [apply catalog_exclusive| |done].
    rewrite <- list_elem_of_In in Hin. by rewrite <- Hp.
  - destruct (List.find _ ROUTE_CATALOG) as [e|] eqn:E'; [|done]. exfalso.
    apply List.find_some in E' as [Hin He]. rewrite <- list_elem_of_In, <- Hp, list_elem_of_In in Hin.
    by rewrite (List.find_none _ _ E e Hin) in He.
Qed.

(** ** The client mirrors the server *)

(** The catalog entry whose pattern is that of the selector, and its role. *)
Definition selector_ok (required : UserRole) (selector : string) : bool :=
  match splitSelector selector with
  | Some (method, path) =>
      bool_decide (to_upper method = method) &&
      negb (bool_decide (method ∈ ["GET"; "HEAD"; "OPTIONS"]%string)) &&
      existsb (fun e => bool_decide (re_method e = method) && bool_decide (re_path e = path) &&
                        bool_decide ((re_requiredCapability e ≫= rc_role) = Some required)) ROUTE_CATALOG
  | None => false
  end.
Lemma registry_ok : forallb (fun c => match requiredRoleForCapability (cap_code c) with
  | Some required => forallb (selector_ok required) (cap_routes c)
  | None => false
  end) CAPABILITY_REGISTRY = true.
Proof. by vm_compute. Qed.

(** The client shows a control exactly when the server would let its requests
    through: a role can use a capability iff it satisfies the role the server
    requires for every request the capability covers, whatever fills the
    parameters of the path. *)
Theorem capability_parity role code definition selector method path pathname :
  getCapability code = Some definition -> selector ∈ cap_routes definition ->
  splitSelector selector = Some (method, path) -> routePathMatches path pathname = true ->
  exists required, getRequiredRoleForRequest method pathname = Some required /\
    can_use (Some role) code = hasRequiredRole role required.
Proof.
  intros Hc Hsel Hsplit Hpath. pose proof registry_ok as Hok. rewrite forallb_forall in Hok.
  unfold getCapability in Hc. pose proof Hc as Hin. apply List.find_some in Hin as [Hin Hcode].
  apply bool_decide_eq_true in Hcode. apply Hok in Hin. rewrite Hcode in Hin. unfold can_use.
  destruct (requiredRoleForCapability code) as [required|]; [|done]. exists required. split; [|done].
  rewrite forallb_forall in Hin. rewrite list_elem_of_In in Hsel. apply Hin in Hsel.
  unfold selector_ok in Hsel. rewrite Hsplit in Hsel. bools. rename H into Hupper.
  apply existsb_exists in H0 as (e & He & Hm). bools.
  unfold getRequiredRoleForRequest. rewrite Hupper. rewrite bool_decide_eq_false_2 by done.
  assert (Hmatch : matchRouteCatalogEntry method pathname = Some e).
  { apply find_exclusive; [apply catalog_exclusive|by apply list_elem_of_In|].
    unfold entry_matches. rewrite Hupper. apply andb_true_iff. split; [by apply bool_decide_eq_true|].
    by subst path. }
  unfold entry_capability. rewrite Hmatch. cbn [mbind option_bind] in *.
  by destruct (re_requiredCapability e) as [c|]; cbn [mbind option_bind] in *; [rewrite H0|].
Qed.
Lemma capability_parity_witness :
  exists required, getRequiredRoleForRequest "DELETE" "/api/runs/run-7" = Some required /\
    can_use (Some analyst) "runs:delete" = hasRequiredRole analyst required.
Proof.
  eapply (capability_parity analyst "runs:delete" _ "DELETE /api/runs/[id]" "DELETE" "/api/runs/[id]").
  - reflexivity.
  - apply list_elem_of_here.
  - reflexivity.
  - reflexivity.
Defined.

(** The CSRF guard refuses nothing, although every unknown mutating route is
    declared protected. *)
Lemma csrf_never_refuses method pathname : enforceCsrfForRequest method pathname = true.
Proof. unfold enforceCsrfForRequest, assertCsrfSafe. by repeat case_goal. Qed.
(** A path outside the catalog only needs the lowest role, which everybody has. *)
Lemma undeclared_needs_analyst method pathname :
  to_upper method ∉ ["GET"; "HEAD"; "OPTIONS"]%string ->
  matchRouteCatalogEntry (to_upper method) pathname = None -> startsWith pathname "/api/" = true ->
  getRequiredRoleForRequest method pathname = Some analyst.
Proof.
  intros Hm Hn Ha. unfold getRequiredRoleForRequest, entry_capability.
  rewrite bool_decide_eq_false_2, Hn, Ha by done. done.
Qed.
