(* ===== verification/RoleStore.v ===== *)
(** [lib/storage/role-store.ts] over the in-memory driver of
    [lib/storage/record-driver.ts]: role assignments keyed by identity, the index
    that enumerates them, and the append-only log of changes.

    A record is a JSON text; one that [parseAssignment] rejects is [None].  The
    instants are milliseconds: the source writes them with [toISOString] and
    compares the texts, which for four-digit years is the order of the instants. *)

From S2P Require Import Prelude JsDate JsString CronParser Tenancy RouteCatalog.
From stdpp Require Import base list sets fin_sets gmap strings numbers sorting.
From Stdlib Require Import ZArith Lia Ascii.
#[local] Open Scope Z_scope.

(** ** The entry lists of the driver *)

(** [list.slice(start)] and [list.slice(start).reverse()]. *)
Definition slice_from {A} (start : Z) (l : list A) : list A :=
  let n := Z.of_nat (length l) in
  drop (Z.to_nat (if start <? 0 then Z.max (n + start) 0 else start)) l.
Definition DEFAULT_MAX_ENTRIES : Z := 10000.
Definition appendEntry {A} (maxEntries : Z) (entry : A) (l : list A) : list A :=
  let l' := l ++ [entry] in
  let cap := if 0 <? maxEntries then maxEntries else DEFAULT_MAX_ENTRIES in
  drop (Z.to_nat (Z.of_nat (length l') - cap)) l'.
Definition listEntries {A} (limit : Z) (l : list A) : list A :=
  let bounded := if 0 <? limit then limit else Z.of_nat (length l) in
  reverse (slice_from (Z.of_nat (length l) - bounded) l).
Definition trimEntries {A} (keep : Z) (l : list A) : list A :=
  if keep <=? 0 then [] else slice_from (Z.of_nat (length l) - keep) l.

(** ** Assignments *)

Inductive UserIdentity : Type := identity_github | identity_api_key | identity_oidc.
#[export] Instance UserIdentity_eq_dec : EqDecision UserIdentity.
Proof. solve_decision. Defined.
Definition identity_name (t : UserIdentity) : string :=
  match t with
  | identity_github => "github" | identity_api_key => "api-key" | identity_oidc => "oidc"
  end.
Record RoleAssignment : Type := mkAssignment
  { ra_id : string; ra_identityType : UserIdentity; ra_identityValue : string; ra_role : UserRole;
    ra_createdAt : Z; ra_updatedAt : Z; ra_createdBy : option string }.
Inductive RoleAction : Type := role_assign | role_revoke | role_update.
Record RoleAuditLog : Type := mkRoleLog
  { rl_id : string; rl_timestamp : Z; rl_action : RoleAction; rl_identityType : UserIdentity;
    rl_identityValue : string; rl_previousRole : option UserRole; rl_newRole : option UserRole;
    rl_performedBy : option string }.
Record RoleState : Type := mkRoles
  { rs_records : gmap string (option RoleAssignment); rs_index : list string;
    rs_audit : list RoleAuditLog }.
Definition no_roles : RoleState := mkRoles ∅ [] [].

Definition ROLE_RECORD_PREFIX : string := "rbac:role:".
Definition roleRecordKey (identityType : UserIdentity) (identityValue : string) : string :=
  cat [ROLE_RECORD_PREFIX; identity_name identityType; ":"; to_lower identityValue].
(** [Set.add], [Set.delete]. *)
Definition addToIndex (member : string) (l : list string) : list string :=
  if decide (member ∈ l) then l else l ++ [member].
Definition removeFromIndex (member : string) (l : list string) : list string :=
  filter (fun k => k <> member) l.

(** [maxEntries] is [ROLE_AUDIT_MAX_ENTRIES]; the ids are the draws of [randomId]. *)
Definition assignRole (maxEntries : Z) (identityType : UserIdentity) (value : string)
    (role : UserRole) (performedBy : option string) (now : Z) (roleId logId : string) (st : RoleState)
  : RoleState * RoleAssignment :=
  let key := roleRecordKey identityType value in
  let identityValue := trim value in
  let log action value previous :=
    appendEntry maxEntries
      (mkRoleLog logId now action identityType value previous (Some role) performedBy) (rs_audit st) in
  match rs_records st !! key with
  | Some (Some existing) =>
      let updated := mkAssignment (ra_id existing) (ra_identityType existing)
                       (if decide (ra_identityValue existing = EmptyString) then identityValue
                        else ra_identityValue existing)
                       role (ra_createdAt existing) now (ra_createdBy existing) in
      (mkRoles (<[key := Some updated]> (rs_records st)) (rs_index st)
         (log role_update (ra_identityValue updated) (Some (ra_role existing))), updated)
  | _ =>
      let assignment := mkAssignment roleId identityType identityValue role now now performedBy in
      (mkRoles (<[key := Some assignment]> (rs_records st)) (addToIndex key (rs_index st))
         (log role_assign identityValue None), assignment)
  end.
Definition revokeRole (maxEntries : Z) (identityType : UserIdentity) (value : string)
    (performedBy : option string) (now : Z) (logId : string) (st : RoleState) : RoleState * bool :=
  let key := roleRecordKey identityType value in
  match rs_records st !! key with
  | None => (st, false)
  | Some existing =>
      (mkRoles (delete key (rs_records st)) (removeFromIndex key (rs_index st))
         (appendEntry maxEntries
            (mkRoleLog logId now role_revoke identityType
               (default (trim value) (ra_identityValue <$> existing)) (ra_role <$> existing) None
               performedBy) (rs_audit st)), true)
  end.
Definition getRoleAssignment (identityType : UserIdentity) (value : string) (st : RoleState)
  : option RoleAssignment :=
  match rs_records st !! roleRecordKey identityType value with Some a => a | None => None end.
(** Members whose record is gone are dropped from the index. *)
Definition listRoleAssignments (st : RoleState) : RoleState * list RoleAssignment :=
  (mkRoles (rs_records st)
     (filter (fun key => is_Some (rs_records st !! key)) (rs_index st)) (rs_audit st),
   sort_on ra_createdAt (omap (fun key => match rs_records st !! key with Some a => a | None => None end)
                           (rs_index st))).
Definition countMaintainers (st : RoleState) : Z :=
  Z.of_nat (length (List.filter (fun a => match ra_role a with maintainer => true | analyst => false end)
                      (listRoleAssignments st).2)).
(** Newest first: a stable sort on the negated instant. *)
Definition listAuditLogs (limit : Z) (st : RoleState) : list RoleAuditLog :=
  take (Z.to_nat limit) (sort_on (fun entry => - rl_timestamp entry) (listEntries limit (rs_audit st))).
Definition getAuditLogsForIdentity (identityType : UserIdentity) (value : string) (limit : Z)
    (st : RoleState) : list RoleAuditLog :=
  let retained := Z.of_nat (length (rs_audit st)) in
  take (Z.to_nat limit)
    (List.filter (fun entry => bool_decide (rl_identityType entry = identityType) &&
                               bool_decide (rl_identityValue entry = value))
       (listAuditLogs (if 0 <? retained then retained else limit) st)).

(** [resetRoleStore]: the index is walked, so a record it does not list stays. *)
Definition resetRoleStore (st : RoleState) : RoleState :=
  mkRoles (foldl (fun m key => delete key m) (rs_records st) (rs_index st)) [] (trimEntries 0 (rs_audit st)).

Definition sample_time : Z := 1700000000000.
Example roles_by_hand :
  let st1 := (assignRole 1000 identity_github "Ada" maintainer (Some "root"%string) sample_time "r1" "l1" no_roles).1 in
  let st2 := (assignRole 1000 identity_github "ADA" analyst None (sample_time + 1) "r2" "l2" st1).1 in
  (ra_role <$> getRoleAssignment identity_github "ada" st2) = Some analyst /\
  (ra_id <$> getRoleAssignment identity_github "ada" st2) = Some "r1"%string /\
  countMaintainers st1 = 1 /\ countMaintainers st2 = 0 /\
  (rl_newRole <$> listAuditLogs 100 st2) = [Some analyst; Some maintainer] /\
  (revokeRole 1000 identity_github "ada" None sample_time "l3" st2).2 = true.
Proof. vm_compute. done. Qed.
(** Sixty retained entries and a limit of one hundred: forty come back. *)
Example window_larger_than_the_log :
  length (listEntries 100 (repeat 0 60)) = 40%nat /\ length (listEntries 120 (repeat 0 60)) = 60%nat.
Proof. vm_compute. done. Qed.
(** A value with surrounding spaces is stored under a key its trimmed form does
    not reach. *)
Example untrimmed_assignment_lost :
  getRoleAssignment identity_github "ada"
    (assignRole 1000 identity_github " ada" maintainer None sample_time "r1" "l1" no_roles).1 = None.
Proof. vm_compute. done. Qed.

(** ** The trail and the store *)

Inductive RoleOp : Type :=
  | op_assign (t : UserIdentity) (value : string) (role : UserRole) (by_ : option string) (now : Z)
      (roleId logId : string)
  | op_revoke (t : UserIdentity) (value : string) (by_ : option string) (now : Z) (logId : string).
Definition role_step (maxEntries : Z) (st : RoleState) (op : RoleOp) : RoleState :=
  match op with
  | op_assign t value role by_ now roleId logId =>
      (assignRole maxEntries t value role by_ now roleId logId st).1
  | op_revoke t value by_ now logId => (revokeRole maxEntries t value by_ now logId st).1
  end.
Definition op_value (op : RoleOp) : string :=
  match op with op_assign _ value _ _ _ _ _ => value | op_revoke _ value _ _ _ => value end.

Definition entry_key (e : RoleAuditLog) : string := roleRecordKey (rl_identityType e) (rl_identityValue e).
Definition latest (key : string) (log : list RoleAuditLog) : option RoleAuditLog :=
  last (filter (fun e => entry_key e = key) log).
Definition role_at (st : RoleState) (key : string) : option UserRole :=
  rs_records st !! key ≫= fun a => ra_role <$> a.

Record role_inv (st : RoleState) : Prop := mkRoleInv
  { ri_nodup : NoDup (rs_index st);
    ri_index : forall k, k ∈ rs_index st <-> is_Some (rs_records st !! k);
    ri_keys : forall k a, rs_records st !! k = Some a ->
              exists ra, a = Some ra /\ roleRecordKey (ra_identityType ra) (ra_identityValue ra) = k;
    ri_latest : forall k e, latest k (rs_audit st) = Some e -> role_at st k = rl_newRole e;
    ri_chain : forall i e e', rs_audit st !! i = Some e ->
               latest (entry_key e) (take i (rs_audit st)) = Some e' ->
               rl_previousRole e = rl_newRole e' }.

Lemma latest_app k l l' e : latest k l' = Some e -> latest k (l ++ l') = Some e.
Proof.
  unfold latest. rewrite filter_app. intros H.
  destruct (filter _ l') as [|x xs] eqn:E using rev_ind; [discriminate|].
  rewrite app_assoc, last_snoc. rewrite last_snoc in H. done.
Qed.
Lemma latest_snoc k l e :
  latest k (l ++ [e]) = if decide (entry_key e = k) then Some e else latest k l.
Proof.
  unfold latest. rewrite filter_app, filter_cons, filter_nil.
  case_decide; [by rewrite last_snoc | by rewrite app_nil_r].
Qed.
Lemma appendEntry_keeps {A} maxEntries (e : A) l :
  exists n, appendEntry maxEntries e l = drop n l ++ [e].
Proof.
  unfold appendEntry, DEFAULT_MAX_ENTRIES.
  set (cap := if 0 <? maxEntries then maxEntries else 10000).
  assert (0 < cap) by (subst cap; destruct (Z.ltb_spec 0 maxEntries); lia).
  exists (Z.to_nat (Z.of_nat (length (l ++ [e])) - cap)).
  apply drop_app_le. rewrite length_app. cbn. lia.
Qed.

Section Logged.
Context (st st' : RoleState) (maxEntries : Z) (e : RoleAuditLog).
Hypothesis Hinv : role_inv st.
Hypothesis Haudit : rs_audit st' = appendEntry maxEntries e (rs_audit st).
Hypothesis Hprev : rl_previousRole e = role_at st (entry_key e).
Hypothesis Hnew : role_at st' (entry_key e) = rl_newRole e.
Hypothesis Hother : forall k, k <> entry_key e -> role_at st' k = role_at st k.

Lemma latest_drop n k e' : latest k (drop n (rs_audit st)) = Some e' -> latest k (rs_audit st) = Some e'.
Proof.
  intros Hl. rewrite <- (take_drop n (rs_audit st)). by apply latest_app.
Qed.
Lemma logged_latest k e' : latest k (rs_audit st') = Some e' -> role_at st' k = rl_newRole e'.
Proof.
  rewrite Haudit. destruct (appendEntry_keeps maxEntries e (rs_audit st)) as [n ->].
  rewrite latest_snoc. case_decide as Hk; [intros [= <-]; by subst|].
  intros Hl%latest_drop. rewrite Hother by done. by apply (ri_latest st Hinv).
Qed.
Lemma logged_chain i e1 e2 : rs_audit st' !! i = Some e1 ->
  latest (entry_key e1) (take i (rs_audit st')) = Some e2 -> rl_previousRole e1 = rl_newRole e2.
Proof.
  rewrite Haudit. destruct (appendEntry_keeps maxEntries e (rs_audit st)) as [n ->].
  intros [Hi|[Hi Hl]]%lookup_app_Some.
  - rewrite take_app_le by (apply Nat.lt_le_incl; eapply lookup_lt_Some, Hi).
    rewrite lookup_drop in Hi. intros Hl. eapply (ri_chain st Hinv); [exact Hi|].
    rewrite <- take_take_drop. by apply latest_app.
  - destruct (i - _)%nat as [|j] eqn:Ei; [|by destruct j]. injection Hl as <-.
    rewrite take_app_ge, Ei by lia. cbn [take]. rewrite app_nil_r. intros Hl%latest_drop.
    rewrite Hprev. by apply (ri_latest st Hinv).
Qed.
End Logged.

Lemma roleRecordKey_inj t v t' v' : roleRecordKey t v = roleRecordKey t' v' ->
  t = t' /\ to_lower v = to_lower v'.
Proof.
  unfold roleRecordKey, cat. cbn [foldr]. rewrite !append_empty. intros H%append_inj_l.
  destruct t, t'; try discriminate; split; try done.
  all: cbn [identity_name] in H; do 2 apply append_inj_l in H; done.
Qed.
Lemma elem_of_addToIndex k key l : k ∈ addToIndex key l <-> k ∈ l \/ k = key.
Proof. unfold addToIndex. case_decide; set_solver. Qed.
Lemma addToIndex_nodup key l : NoDup l -> NoDup (addToIndex key l).
Proof.
  unfold addToIndex. case_decide; [done|]. intros Hl. apply NoDup_app. split_and!; [done| |].
  - set_solver.
  - apply NoDup_singleton.
Qed.
Lemma no_roles_inv : role_inv no_roles.
Proof.
  split; cbn; try done; [constructor|]. intros k. split; [set_solver|intros [? H]; done].
Qed.

(** Writing one record and logging it. *)
Lemma put_inv st maxEntries key a e : role_inv st ->
  roleRecordKey (ra_identityType a) (ra_identityValue a) = key -> entry_key e = key ->
  rl_previousRole e = role_at st key -> rl_newRole e = Some (ra_role a) ->
  role_inv (mkRoles (<[key := Some a]> (rs_records st)) (addToIndex key (rs_index st))
              (appendEntry maxEntries e (rs_audit st))).
Proof.
  intros I Ha He Hp Hn. set (st' := mkRoles _ _ _).
  assert (Hother : forall k, k <> entry_key e -> role_at st' k = role_at st k).
  { intros k Hk. unfold role_at. cbn. rewrite lookup_insert_ne; [done|congruence]. }
  assert (Hat : role_at st' (entry_key e) = rl_newRole e).
  { rewrite He, Hn. unfold role_at. cbn. by rewrite lookup_insert_eq. }
  rewrite <- He in Hp. split.
  - apply addToIndex_nodup, (ri_nodup st I).
  - intros k. cbn. rewrite elem_of_addToIndex, (ri_index st I k).
    destruct (decide (k = key)) as [->|Hne].
    + rewrite lookup_insert_eq. split; eauto.
    + rewrite lookup_insert_ne by done. split; [by intros [?|?]|eauto].
  - intros k b. cbn. destruct (decide (k = key)) as [->|Hne].
    + rewrite lookup_insert_eq. intros [= <-]. by eexists.
    + rewrite lookup_insert_ne by done. apply (ri_keys st I).
  - intros k e'. by apply (logged_latest st st' maxEntries e I eq_refl).
  - intros i e1 e2. by apply (logged_chain st st' maxEntries e I eq_refl).
Qed.
(** Deleting one record and logging it. *)
Lemma remove_inv st maxEntries key e : role_inv st -> entry_key e = key ->
  rl_previousRole e = role_at st key -> rl_newRole e = None ->
  role_inv (mkRoles (delete key (rs_records st)) (removeFromIndex key (rs_index st))
              (appendEntry maxEntries e (rs_audit st))).
Proof.
  intros I He Hp Hn. set (st' := mkRoles _ _ _).
  assert (Hother : forall k, k <> entry_key e -> role_at st' k = role_at st k).
  { intros k Hk. unfold role_at. cbn. rewrite lookup_delete_ne; [done|congruence]. }
  assert (Hat : role_at st' (entry_key e) = rl_newRole e).
  { rewrite He, Hn. unfold role_at. cbn. by rewrite lookup_delete_eq. }
  rewrite <- He in Hp. split.
  - apply NoDup_filter, (ri_nodup st I).
  - intros k. cbn. unfold removeFromIndex. rewrite list_elem_of_filter, (ri_index st I k).
    destruct (decide (k = key)) as [->|Hne].
    + rewrite lookup_delete_eq. split; [tauto|by intros []].
    + rewrite lookup_delete_ne by done. tauto.
  - intros k b. cbn. intros [_ Hk]%lookup_delete_Some. by apply (ri_keys st I).
  - intros k e'. by apply (logged_latest st st' maxEntries e I eq_refl).
  - intros i e1 e2. by apply (logged_chain st st' maxEntries e I eq_refl).
Qed.

(** The value an entry names reaches the record its operation wrote. *)
Lemma existing_key st t value ex : role_inv st -> rs_records st !! roleRecordKey t value = Some (Some ex) ->
  ra_identityType ex = t /\ roleRecordKey t (ra_identityValue ex) = roleRecordKey t value.
Proof.
  intros I E. destruct (ri_keys st I _ _ E) as (ra & [= <-] & Hk).
  destruct (roleRecordKey_inj _ _ _ _ Hk) as [Ht _]. by rewrite <- Hk, Ht.
Qed.
Lemma assign_inv maxEntries t value role by_ now roleId logId st : trim value = value -> role_inv st ->
  role_inv (assignRole maxEntries t value role by_ now roleId logId st).1.
Proof.
  intros Hv I. unfold assignRole. rewrite Hv.
  destruct (rs_records st !! roleRecordKey t value) as [[ex|]|] eqn:E.
  - destruct (existing_key _ _ _ _ I E) as [Ht Hk]. cbn [fst].
    assert (Hin : roleRecordKey t value ∈ rs_index st) by (apply (ri_index st I); eauto).
    assert (rs_index st = addToIndex (roleRecordKey t value) (rs_index st)) as ->
      by (unfold addToIndex; by rewrite decide_True).
    apply put_inv; [done| | | |done].
    + cbn [ra_identityType ra_identityValue]. rewrite Ht. by case_decide.
    + unfold entry_key. cbn [rl_identityType rl_identityValue ra_identityValue]. by case_decide.
    + unfold role_at. by rewrite E.
  - destruct (ri_keys st I _ _ E) as (ra & ? & _). discriminate.
  - apply put_inv; try done. unfold role_at. by rewrite E.
Qed.
Lemma revoke_inv maxEntries t value by_ now logId st : trim value = value -> role_inv st ->
  role_inv (revokeRole maxEntries t value by_ now logId st).1.
Proof.
  intros Hv I. unfold revokeRole.
  destruct (rs_records st !! roleRecordKey t value) as [[ex|]|] eqn:E; [| |done].
  - destruct (existing_key _ _ _ _ I E) as [Ht Hk].
    apply remove_inv; try done. unfold role_at. by rewrite E.
  - destruct (ri_keys st I _ _ E) as (ra & ? & _). discriminate.
Qed.
Lemma roles_inv maxEntries ops st : Forall (fun op => trim (op_value op) = op_value op) ops ->
  role_inv st -> role_inv (foldl (role_step maxEntries) st ops).
Proof.
  intros Hall. revert st. induction Hall as [|op ops Hop _ IH]; intros st I; [done|].
  apply IH. destruct op; [by apply assign_inv | by apply revoke_inv].
Qed.
(** Under the invariant listing keeps the index and answers every record. *)
Lemma omap_perm_dom st : role_inv st ->
  omap (fun key => match rs_records st !! key with Some a => a | None => None end) (rs_index st)
  ≡ₚ omap snd (map_to_list (rs_records st)).
Proof.
  intros I.
  assert (rs_index st ≡ₚ (map_to_list (rs_records st)).*1) as ->.
  { apply NoDup_Permutation; [apply (ri_nodup st I) | apply NoDup_fst_map_to_list|].
    intros k. rewrite (ri_index st I k), list_elem_of_fmap. split.
    - intros [a Ha]. exists (k, a). split; [done|]. by apply elem_of_map_to_list.
    - intros ([k' a] & -> & Ha%elem_of_map_to_list). by exists a. }
  assert (Hall : forall p, p ∈ map_to_list (rs_records st) -> rs_records st !! p.1 = Some p.2).
  { intros [k a]. by rewrite elem_of_map_to_list. }
  induction (map_to_list (rs_records st)) as [|p l IH]; [done|]. cbn.
  rewrite Hall by set_solver. destruct p.2; [constructor|]; apply IH; intros; apply Hall; set_solver.
Qed.

(** The change log accounts for the role store.  After any assignments and
    revocations of trimmed identities, from an empty store and whatever the cap
    on the log: the latest retained entry about an identity names the role the
    store holds for it now (or none); each retained entry gives as the previous
    role what the retained entry before it about the same identity granted; and
    the listing returns every stored assignment, once each. *)
Theorem role_trail_replays maxEntries ops :
  Forall (fun op => trim (op_value op) = op_value op) ops ->
  let st := foldl (role_step maxEntries) no_roles ops in
  (forall t value e, latest (roleRecordKey t value) (rs_audit st) = Some e ->
     ra_role <$> getRoleAssignment t value st = rl_newRole e) /\
  (forall i e e', rs_audit st !! i = Some e -> latest (entry_key e) (take i (rs_audit st)) = Some e' ->
     rl_previousRole e = rl_newRole e') /\
  (listRoleAssignments st).2 ≡ₚ omap snd (map_to_list (rs_records st)).
Proof.
  intros Hall st. pose proof (roles_inv maxEntries ops no_roles Hall no_roles_inv) as I. fold st in I.
  split_and!.
  - intros t value e He. rewrite <- (ri_latest st I _ _ He). unfold getRoleAssignment, role_at.
    by destruct (rs_records st !! _) as [[?|]|].
  - apply (ri_chain st I).
  - cbn [listRoleAssignments snd]. rewrite sort_on_perm. by apply omap_perm_dom.
Qed.
Definition sample_ops : list RoleOp :=
  [ op_assign identity_github "Ada" maintainer None sample_time "r1" "l1";
    op_assign identity_oidc "idp#61" analyst (Some "oidc-role-mapping"%string) (sample_time + 1) "r2" "l2";
    op_assign identity_github "ada" analyst None (sample_time + 2) "r3" "l3";
    op_revoke identity_oidc "IDP#61" None (sample_time + 3) "l4" ]%string.
Lemma role_trail_replays_witness :
  let st := foldl (role_step 3) no_roles sample_ops in
  ra_role <$> getRoleAssignment identity_github "ADA" st = Some analyst /\
  ra_role <$> getRoleAssignment identity_oidc "idp#61" st = None /\
  length (rs_audit st) = 3%nat.
Proof.
  assert (Hall : Forall (fun op => trim (op_value op) = op_value op) sample_ops) by (repeat constructor).
  intros st. destruct (role_trail_replays 3 sample_ops Hall) as (H & _ & _). split_and!.
  - rewrite (H _ _ (mkRoleLog "l3" (sample_time + 2) role_update identity_github "Ada" (Some maintainer)
                      (Some analyst) None)); [done|]. vm_compute. done.
  - rewrite (H _ _ (mkRoleLog "l4" (sample_time + 3) role_revoke identity_oidc "idp#61" (Some analyst)
                      None None)); [done|]. vm_compute. done.
  - vm_compute. done.
Defined.
