(* ===== verification/ApiTokens.v ===== *)
(** [lib/storage/api-token-store.ts], [lib/storage/token-principal-store.ts], the
    routes of [app/api/settings/tokens] and the checks of [lib/api-key-auth.ts].

    SHA-256 is a parameter, random identifiers and secrets are arguments given as
    their hexadecimal text, and instants are milliseconds: the store writes them
    with [toISOString] and reads them back with [new Date], which returns the same
    instant.  A [toISOString] outside the range of dates throws. *)

From S2P Require Import Prelude JsDate JsString JsValue CronParser AuditLog Tenancy RateLimit RouteCatalog RoleStore.
From stdpp Require Import base list sets fin_sets gmap strings numbers sorting.
From Stdlib Require Import ZArith Lia Ascii.
#[local] Open Scope Z_scope.

(** ** The token store *)

Record ApiTokenRecord : Type := mkToken
  { tk_id : string; tk_name : string; tk_sha256Hash : string; tk_scopes : list ApiTokenScope;
    tk_createdAt : Z; tk_expiresAt : option Z; tk_lastUsedAt : option Z; tk_revokedAt : option Z;
    tk_rotatedAt : option Z }.
Record ApiTokenPublic : Type := mkPublicToken
  { pt_id : string; pt_name : string; pt_prefixMasked : string; pt_scopes : list ApiTokenScope;
    pt_createdAt : Z; pt_expiresAt : option Z; pt_lastUsedAt : option Z; pt_revokedAt : option Z;
    pt_rotatedAt : option Z }.
Inductive ResolveTokenResult : Type :=
  | token_valid (token : ApiTokenRecord) | token_expired (token : ApiTokenRecord)
  | token_revoked (token : ApiTokenRecord) | token_invalid.
Inductive DateError : Type := invalid_time_value.

(** [parseInt(process.env.X || '90', 10) || 90]. *)
Definition env_count (value : option string) (fallback : Z) : Z :=
  match parse_int (default (num_to_string fallback) (truthy value)) with
  | Some n => if n =? 0 then fallback else n
  | None => fallback
  end.
Definition DEFAULT_TOKEN_TTL_MS (ttlDays : option string) : Z := env_count ttlDays 90 * 86400000.
Definition TOKEN_ROTATION_GRACE_MS (graceHours : option string) : Z := env_count graceHours 24 * 3600000.
Definition LAST_USED_THROTTLE_MS : Z := 60000.
(** [new Date(t).toISOString()], kept as the instant. *)
Definition iso_instant (t : Z) : result DateError Z :=
  match time_clip t with Some t' => Ok t' | None => Err invalid_time_value end.

(** The bytes of a text, padded with zeros; the strings hold their UTF-8 bytes. *)
Definition padded (n : nat) (s : string) : list ascii :=
  let bytes := String.list_ascii_of_string s in bytes ++ repeat Ascii.zero (n - length bytes).
Definition timingSafeHashEqual (a b : string) : bool :=
  let maxLen := Nat.max (String.length a) (String.length b) in
  bool_decide (padded maxLen a = padded maxLen b) && Nat.eqb (String.length a) (String.length b).
(** [s.slice(0, n)] and [s.slice(-n)]. *)
Definition slice_head (n : nat) (s : string) : string := String.substring 0 n s.
Definition slice_tail (n : nat) (s : string) : string :=
  String.substring (String.length s - n) n s.
Definition maskTokenSecret (secret : string) : string :=
  if js_length secret <=? 12 then cat [slice_head 4 secret; "..."]
  else cat [slice_head 8 secret; "..."; slice_tail 4 secret].
Definition public_of (prefixMasked : string) (r : ApiTokenRecord) : ApiTokenPublic :=
  mkPublicToken (tk_id r) (tk_name r) prefixMasked (tk_scopes r) (tk_createdAt r) (tk_expiresAt r)
    (tk_lastUsedAt r) (tk_revokedAt r) (tk_rotatedAt r).
Definition toPublicRecord (r : ApiTokenRecord) : ApiTokenPublic :=
  public_of (maskTokenSecret (tk_sha256Hash r)) r.
Definition listApiTokens (st : list ApiTokenRecord) : list ApiTokenPublic :=
  (fun r => public_of (cat ["scl_live_..."; slice_tail 4 (tk_sha256Hash r)]) r) <$> st.
Definition getApiTokenSecretHash (tokenId : string) (st : list ApiTokenRecord) : option string :=
  tk_sha256Hash <$> List.find (fun t => bool_decide (tk_id t = tokenId)) st.

(** The record [find] returns, written through its reference. *)
Fixpoint update_first {A} (p : A -> bool) (f : A -> A) (l : list A) : list A :=
  match l with
  | [] => []
  | x :: l' => if p x then f x :: l' else x :: update_first p f l'
  end.
Definition has_id (tokenId : string) (t : ApiTokenRecord) : bool := bool_decide (tk_id t = tokenId).
Definition set_rotated (now : Z) (t : ApiTokenRecord) : ApiTokenRecord :=
  mkToken (tk_id t) (tk_name t) (tk_sha256Hash t) (tk_scopes t) (tk_createdAt t) (tk_expiresAt t)
    (tk_lastUsedAt t) (tk_revokedAt t) (Some now).
Definition set_revoked (now : Z) (t : ApiTokenRecord) : ApiTokenRecord :=
  match tk_revokedAt t with
  | Some _ => t
  | None => mkToken (tk_id t) (tk_name t) (tk_sha256Hash t) (tk_scopes t) (tk_createdAt t)
              (tk_expiresAt t) (tk_lastUsedAt t) (Some now) (tk_rotatedAt t)
  end.
Definition touch_token (now : Z) (t : ApiTokenRecord) : ApiTokenRecord :=
  if LAST_USED_THROTTLE_MS <=? now - default 0 (tk_lastUsedAt t)
  then mkToken (tk_id t) (tk_name t) (tk_sha256Hash t) (tk_scopes t) (tk_createdAt t)
         (tk_expiresAt t) (Some now) (tk_revokedAt t) (tk_rotatedAt t)
  else t.

Section Tokens.
Context (sha256 : string -> string).
(** The two constants read from the environment. *)
Context (ttlMs graceMs : Z).

Definition hashApiToken (secret : string) : string := sha256 secret.
Definition createApiToken (name : string) (scopes : list ApiTokenScope) (expiresAt : option Z)
    (now : Z) (secretHex idHex : string) (st : list ApiTokenRecord)
  : result DateError (list ApiTokenRecord * (string * ApiTokenPublic)) :=
  let secret := cat ["scl_live_"; secretHex] in
  createdAt ← iso_instant now;
  expiry ← (match expiresAt with Some e => Ok e | None => iso_instant (now + ttlMs) end);
  let record := mkToken (cat ["tok_"; idHex]) (trim name) (hashApiToken secret) scopes createdAt
                  (Some expiry) None None None in
  Ok (st ++ [record], (secret, public_of (maskTokenSecret secret) record)).
(** [None] is an unknown id. *)
Definition rotateApiToken (tokenId : string) (now : Z) (secretHex idHex : string)
    (st : list ApiTokenRecord)
  : result DateError (option (list ApiTokenRecord * (string * ApiTokenPublic * string))) :=
  match List.find (has_id tokenId) st with
  | None => Ok None
  | Some existing =>
      created ← createApiToken (tk_name existing) (tk_scopes existing) None now secretHex idHex st;
      rotated ← iso_instant now;
      Ok (Some (update_first (has_id tokenId) (set_rotated rotated) created.1,
                (created.2.1, created.2.2, tk_id existing)))
  end.
Definition revokeApiToken (tokenId : string) (now : Z) (st : list ApiTokenRecord)
  : list ApiTokenRecord * bool :=
  match List.find (has_id tokenId) st with
  | None => (st, false)
  | Some _ => (update_first (has_id tokenId) (set_revoked now) st, true)
  end.
Definition hash_matches (hash : string) (t : ApiTokenRecord) : bool :=
  timingSafeHashEqual (tk_sha256Hash t) hash.
Definition past_grace (now : Z) (t : ApiTokenRecord) : bool :=
  match tk_rotatedAt t with Some at_ => at_ + graceMs <? now | None => false end.
Definition past_expiry (now : Z) (t : ApiTokenRecord) : bool :=
  match tk_expiresAt t with Some e => e <=? now | None => false end.
Definition resolveApiToken (secret : string) (now : Z) (st : list ApiTokenRecord)
  : list ApiTokenRecord * ResolveTokenResult :=
  let matches := hash_matches (hashApiToken secret) in
  match List.find matches st with
  | None => (st, token_invalid)
  | Some record =>
      if match tk_revokedAt record with Some _ => true | None => false end then (st, token_revoked record)
      else if past_grace now record then (st, token_revoked record)
      else if past_expiry now record then (st, token_expired record)
      else (update_first matches (touch_token now) st, token_valid (touch_token now record))
  end.

(** ** [api-key-auth.ts] *)

Definition extractBearerToken (authorization : option string) : option string :=
  header ← truthy authorization;
  match split_on " " header with
  | [scheme; value] =>
      if bool_decide (to_lower scheme = "bearer"%string) && negb (bool_decide (value = EmptyString))
      then Some value else None
  | _ => None
  end.
(** [getConfiguredApiKey] and [getMetricsScrapeToken] on the value of their variable. *)
Definition configured_key (value : option string) : option string := truthy (trim <$> value).
Definition is_flag_set (value : option string) : bool :=
  match value with Some v => bool_decide (v = "1"%string) || bool_decide (v = "true"%string) | None => false end.
Inductive KeyRefusal : Type :=
  | auth_not_configured | auth_required | auth_mismatch | TOKEN_REVOKED | TOKEN_EXPIRED | INVALID_TOKEN
  | INSUFFICIENT_SCOPE.
Definition refusal_status (why : KeyRefusal) : Z :=
  match why with auth_not_configured => 503 | INSUFFICIENT_SCOPE => 403 | _ => 401 end.
(** [None] lets the request pass. *)
Definition check_shared_key (authorization key : option string) (unconfigured : option KeyRefusal)
  : option KeyRefusal :=
  match configured_key key with
  | None => unconfigured
  | Some key =>
      match extractBearerToken authorization with
      | None => Some auth_required
      | Some token => if timingSafeHashEqual token key then None else Some auth_mismatch
      end
  end.
Definition validateWebhookApiKey (method : string) (authorization key allow : option string)
  : option KeyRefusal :=
  let isMutating := bool_decide (to_upper method ∈ ["POST"; "PUT"; "PATCH"; "DELETE"]%string) in
  check_shared_key authorization key
    (if isMutating && negb (is_flag_set allow) then Some auth_not_configured else None).
Definition validateMetricsScrapeAuth (authorization token allow : option string) : option KeyRefusal :=
  check_shared_key authorization token
    (if is_flag_set allow then None else Some auth_not_configured).
Definition satisfies_scope (tokenScopes : list ApiTokenScope) (required : option ApiTokenScope) : bool :=
  match required with
  | None => true
  | Some scope =>
      bool_decide (all_scopes ∈ tokenScopes) ||
      (negb (bool_decide (scope = all_scopes)) && bool_decide (scope ∈ tokenScopes))
  end.
Definition validateScopedApiToken (authorization key : option string) (required : option ApiTokenScope)
    (now : Z) (st : list ApiTokenRecord) : list ApiTokenRecord * option KeyRefusal :=
  match extractBearerToken authorization with
  | None => (st, Some auth_required)
  | Some token =>
      if match configured_key key with Some key => timingSafeHashEqual token key | None => false end
      then (st, None)
      else match resolveApiToken token now st with
           | (st', token_invalid) => (st', Some INVALID_TOKEN)
           | (st', token_revoked _) => (st', Some TOKEN_REVOKED)
           | (st', token_expired _) => (st', Some TOKEN_EXPIRED)
           | (st', token_valid record) =>
               (st', if satisfies_scope (tk_scopes record) required then None else Some INSUFFICIENT_SCOPE)
           end
  end.
End Tokens.

(** ** The principal index and the routes of the settings page

    Records of the index are read back as they were written; none expires. *)

Record TokenState : Type := mkTokens
  { ts_tokens : list ApiTokenRecord; ts_principals : gmap string string; ts_hashes : list string }.
Definition no_tokens : TokenState := mkTokens [] ∅ [].
Definition registerTokenPrincipal (tokenId hash : string) (s : TokenState) : TokenState :=
  mkTokens (ts_tokens s) (<[hash := tokenId]> (ts_principals s)) (addToIndex hash (ts_hashes s)).
Definition unregisterTokenPrincipal (hash : string) (s : TokenState) : TokenState :=
  mkTokens (ts_tokens s) (delete hash (ts_principals s)) (removeFromIndex hash (ts_hashes s)).
Definition resolveTokenPrincipalIdByHash (hash : string) (s : TokenState) : option string :=
  ts_principals s !! hash.
Definition with_tokens (l : list ApiTokenRecord) (s : TokenState) : TokenState :=
  mkTokens l (ts_principals s) (ts_hashes s).
(** [if (hash) await registerTokenPrincipal(...)] for a token of the store. *)
Definition register_created (tokenId : string) (s : TokenState) : TokenState :=
  match truthy (getApiTokenSecretHash tokenId (ts_tokens s)) with
  | Some hash => registerTokenPrincipal tokenId hash s
  | None => s
  end.

Definition scope_name (s : ApiTokenScope) : string :=
  match s with
  | webhook_read => "webhook:read" | webhook_write => "webhook:write" | runs_read => "runs:read"
  | runs_write => "runs:write" | settings_read => "settings:read" | settings_write => "settings:write"
  | ci_write => "ci:write" | all_scopes => "*"
  end.
Definition validScopeValues : list ApiTokenScope :=
  [webhook_read; webhook_write; runs_read; runs_write; settings_read; settings_write; ci_write; all_scopes].
Definition scope_of_json (v : json) : option ApiTokenScope :=
  match v with
  | JStr s => List.find (fun scope => bool_decide (scope_name scope = s)) validScopeValues
  | _ => None
  end.
Definition requested_token_scopes (scopes : option json) : list ApiTokenScope :=
  match scopes with
  | Some (JArr l) => match omap scope_of_json l with [] => [runs_read] | valid => valid end
  | _ => [runs_read]
  end.
Definition json_falsy (v : option json) : bool :=
  match v with
  | None | Some JNull | Some (JBool false) | Some (JNum 0) => true
  | Some (JStr s) => bool_decide (s = EmptyString)
  | _ => false
  end.

Inductive TokenReply : Type :=
  | token_created_201 (secret : string) (token : ApiTokenPublic)
  | token_rotated_200 (secret : string) (token : ApiTokenPublic) (previousTokenId : string)
  | token_revoked_200
  | token_error (status : Z) (message : string)
  | token_throws.

Section Routes.
Context (sha256 : string -> string) (ttlMs graceMs : Z).
(** [new Date(v).getTime()], [None] where it is [NaN]. *)
Context (date_of_json : json -> option Z).

(** [postHandler] of [settings/tokens/route.ts] on the parsed body; [None] is a
    body that is not JSON or is [null], and other values that are no object have
    no properties. *)
Definition post_token (body : option fields) (now : Z) (secretHex idHex : string) (s : TokenState)
  : TokenState * TokenReply :=
  let failed := (s, token_error 400 "Failed to process token creation request.") in
  match body with
  | None => failed
  | Some o =>
      match prop "name" o with
      | Some (JStr name) =>
          if bool_decide (trim name = EmptyString) then (s, token_error 400 "Token name is required.")
          else
            let tokenScopes := requested_token_scopes (prop "scopes" o) in
            let expiry := if json_falsy (prop "expiresAt" o) then Some None
                          else Some <$> (prop "expiresAt" o ≫= date_of_json) in
            match expiry with
            | None => (s, token_error 400 "Invalid expiry date format.")
            | Some validatedExpiry =>
                match createApiToken sha256 ttlMs (trim name) tokenScopes validatedExpiry now
                        secretHex idHex (ts_tokens s) with
                | Err _ => failed
                | Ok (tokens', (secret, token)) =>
                    (register_created (pt_id token) (with_tokens tokens' s),
                     token_created_201 secret token)
                end
            end
      | _ => (s, token_error 400 "Token name is required.")
      end
  end.
(** [settings/tokens/[id]/rotate/route.ts], with what it sends to the audit log. *)
Definition rotate_token_route (tokenId : string) (now : Z) (secretHex idHex : string) (s : TokenState)
  : TokenState * list AuditEntryInput * TokenReply :=
  if bool_decide (tokenId = EmptyString) then (s, [], token_error 400 "Token ID required.")
  else
    match rotateApiToken sha256 ttlMs tokenId now secretHex idHex (ts_tokens s) with
    | Err _ => (s, [], token_throws)
    | Ok None => (s, [], token_error 404 "Token not found.")
    | Ok (Some (tokens', (secret, token, previousTokenId))) =>
        (register_created (pt_id token) (with_tokens tokens' s),
         [mkEntryInput token_revoke tokenId None
            (Some [("rotated_to"%string, JStr (pt_id token))]) None],
         token_rotated_200 secret token previousTokenId)
    end.
(** [settings/tokens/[id]/revoke/route.ts]. *)
Definition revoke_token_route (tokenId : string) (now : Z) (s : TokenState)
  : TokenState * list AuditEntryInput * TokenReply :=
  if bool_decide (tokenId = EmptyString) then (s, [], token_error 400 "Token ID required.")
  else
    let hash := getApiTokenSecretHash tokenId (ts_tokens s) in
    match revokeApiToken tokenId now (ts_tokens s) with
    | (_, false) => (s, [], token_error 404 "Token not found.")
    | (tokens', true) =>
        let s' := with_tokens tokens' s in
        (match truthy hash with Some h => unregisterTokenPrincipal h s' | None => s' end,
         [mkEntryInput token_revoke tokenId None None None], token_revoked_200)
    end.
End Routes.

(** ** Comparison in constant time *)

Lemma list_ascii_inj a b : String.list_ascii_of_string a = String.list_ascii_of_string b -> a = b.
Proof.
  intros H. rewrite <- (String.string_of_list_ascii_of_string a), H.
  apply String.string_of_list_ascii_of_string.
Qed.
Lemma list_ascii_length s : length (String.list_ascii_of_string s) = String.length s.
Proof. induction s as [|c s IH]; cbn; [done|by rewrite IH]. Qed.
Lemma timingSafe_spec a b : timingSafeHashEqual a b = bool_decide (a = b).
Proof.
  unfold timingSafeHashEqual, padded. case_bool_decide as H; cbn.
  - rewrite !list_ascii_length in H. destruct (Nat.eqb_spec (String.length a) (String.length b)) as [E|E].
    + rewrite E, Nat.max_id, Nat.sub_diag, !app_nil_r in H. symmetry. apply bool_decide_true.
      by apply list_ascii_inj.
    + symmetry. apply bool_decide_false. by intros ->.
  - symmetry. apply bool_decide_false. intros ->. by apply H.
Qed.

(** ** One token through a history of the store *)

Inductive TokenOp : Type :=
  | tok_post (body : option fields) (now : Z) (secretHex idHex : string)
  | tok_rotate (tokenId : string) (now : Z) (secretHex idHex : string)
  | tok_revoke (tokenId : string) (now : Z)
  | tok_resolve (secret : string) (now : Z).

Section History.
Context (sha256 : string -> string) (ttlMs graceMs : Z) (date_of_json : json -> option Z).

Definition token_step (s : TokenState) (op : TokenOp) : TokenState :=
  match op with
  | tok_post body now secretHex idHex =>
      (post_token sha256 ttlMs date_of_json body now secretHex idHex s).1
  | tok_rotate tokenId now secretHex idHex =>
      (rotate_token_route sha256 ttlMs tokenId now secretHex idHex s).1.1
  | tok_revoke tokenId now => (revoke_token_route tokenId now s).1.1
  | tok_resolve secret now =>
      with_tokens (resolveApiToken sha256 graceMs secret now (ts_tokens s)).1 s
  end.
Definition run_tokens (s : TokenState) (ops : list TokenOp) : TokenState := foldl token_step s ops.

(** What a history says of a token: whether a request revoked it, and when the
    last request rotated it (one whose instants are no dates throws instead). *)
Definition revokes (tokenId : string) (op : TokenOp) : bool :=
  match op with tok_revoke i _ => bool_decide (i = tokenId) | _ => false end.
Definition rotation (tokenId : string) (op : TokenOp) : option Z :=
  match op with
  | tok_rotate i now _ _ =>
      if bool_decide (i = tokenId)
      then now' ← time_clip now; _ ← time_clip (now + ttlMs); Some now'
      else None
  | _ => None
  end.
Definition token_status_name (r : ResolveTokenResult) : string :=
  match r with
  | token_valid _ => "valid" | token_expired _ => "expired" | token_revoked _ => "revoked"
  | token_invalid => "invalid"
  end.
Definition lifetime_status (tokenId : string) (expiresAt : option Z) (history : list TokenOp) (now : Z)
  : string :=
  if existsb (revokes tokenId) history then "revoked"
  else if match last (omap (rotation tokenId) history) with
          | Some at_ => at_ + graceMs <? now | None => false end then "revoked"
  else if match expiresAt with Some e => e <=? now | None => false end then "expired"
  else "valid".

Section Slot.
Context (tokenId hash : string).
Definition elsewhere (t : ApiTokenRecord) : Prop := tk_id t <> tokenId /\ tk_sha256Hash t <> hash.
Record token_slot (l : list ApiTokenRecord) (r : ApiTokenRecord) : Prop := mkSlot
  { slot_split : exists l1 l2, l = l1 ++ r :: l2 /\ Forall elsewhere l1;
    slot_id : tk_id r = tokenId;
    slot_hash : tk_sha256Hash r = hash }.

Lemma find_slot (p : ApiTokenRecord -> bool) l r : token_slot l r -> p r = true ->
  (forall t, elsewhere t -> p t = false) -> List.find p l = Some r.
Proof.
  intros [(l1 & l2 & -> & Hall) _ _] Hr Hp. induction Hall as [|t l1 Ht _ IH]; cbn; [by rewrite Hr|].
  by rewrite (Hp t Ht).
Qed.
Lemma slot_of_find l r : List.find (has_id tokenId) l = Some r ->
  List.find (fun t => bool_decide (tk_sha256Hash t = hash)) l = Some r -> token_slot l r.
Proof.
  intros Hi Hh.
  pose proof (List.find_some _ _ Hi) as [_ E1%bool_decide_eq_true].
  pose proof (List.find_some _ _ Hh) as [_ E2%bool_decide_eq_true].
  split; [|done|done]. induction l as [|t l IH]; [done|]. cbn [List.find] in Hi, Hh.
  destruct (has_id tokenId t) eqn:D1; [injection Hi as ->; by exists [], l|].
  destruct (decide (tk_sha256Hash t = hash)) as [D2|D2].
  - rewrite bool_decide_true in Hh by done. injection Hh as ->.
    unfold has_id in D1. by rewrite bool_decide_true in D1.
  - rewrite bool_decide_false in Hh by done. apply bool_decide_eq_false in D1.
    destruct (IH Hi Hh) as (l1 & l2 & -> & Hall). exists (t :: l1), l2. split; [done|by constructor].
Qed.
Lemma slot_app l l' r : token_slot l r -> token_slot (l ++ l') r.
Proof.
  intros [(l1 & l2 & -> & Hall) Hi Hh]. split; [|done|done].
  exists l1, (l2 ++ l'). by rewrite <- app_assoc.
Qed.
(** A write that keeps ids and hashes changes the slot only if it is aimed at it. *)
Lemma slot_update p (f : ApiTokenRecord -> ApiTokenRecord) l r :
  (forall t, tk_id (f t) = tk_id t /\ tk_sha256Hash (f t) = tk_sha256Hash t) -> token_slot l r ->
  (p r = true -> forall t, elsewhere t -> p t = false) ->
  token_slot (update_first p f l) (if p r then f r else r).
Proof.
  intros Hf [(l1 & l2 & -> & Hall) Hi Hh] Hp.
  split; [| by case_match; [rewrite (proj1 (Hf r))|] | by case_match; [rewrite (proj2 (Hf r))|] ].
  induction Hall as [|t l1 Ht Hall IH]; cbn.
  - destruct (p r); [by exists [], l2 | by exists [], (update_first p f l2)].
  - destruct (p t) eqn:Et.
    + assert (p r = false) as ->.
      { destruct (p r) eqn:Er; [|done]. by rewrite (Hp eq_refl t Ht) in Et. }
      exists (f t :: l1), l2. split; [done|]. constructor; [|done].
      unfold elsewhere. by rewrite (proj1 (Hf t)), (proj2 (Hf t)).
    + destruct IH as (l1' & l2' & -> & Hall'). exists (t :: l1'), l2'. split; [done|by constructor].
Qed.
End Slot.

Section Described.
Context (tokenId hash : string) (expiresAt : option Z).
Hypothesis Hid : tokenId <> EmptyString.
Record described (history : list TokenOp) (r : ApiTokenRecord) : Prop := mkDescribed
  { ds_expires : tk_expiresAt r = expiresAt;
    ds_revoked : existsb (revokes tokenId) history = true <-> is_Some (tk_revokedAt r);
    ds_rotated : tk_rotatedAt r = last (omap (rotation tokenId) history) }.
Definition tracked (history : list TokenOp) (l : list ApiTokenRecord) : Prop :=
  exists r, token_slot tokenId hash l r /\ described history r.

Lemma described_other history op r : revokes tokenId op = false -> rotation tokenId op = None ->
  described history r -> described (history ++ [op]) r.
Proof.
  intros E1 E2 [H1 H2 H3]. split; [done| |].
  - by rewrite existsb_app, orb_true_iff, H2; cbn; rewrite E1; naive_solver.
  - rewrite omap_app. cbn. by rewrite E2, app_nil_r.
Qed.
Lemma tracked_other history op l : revokes tokenId op = false -> rotation tokenId op = None ->
  tracked history l -> tracked (history ++ [op]) l.
Proof. intros E1 E2 (r & Hs & Hd). exists r. split; [done|by apply described_other]. Qed.
Lemma tracked_app history l l' : tracked history l -> tracked history (l ++ l').
Proof. intros (r & Hs & Hd). exists r. split; [by apply slot_app|done]. Qed.
Lemma slot_found l r : token_slot tokenId hash l r -> List.find (has_id tokenId) l = Some r.
Proof.
  intros Hs. apply (find_slot tokenId hash _ l r Hs).
  - apply bool_decide_true, (slot_id _ _ _ _ Hs).
  - intros t [Ht _]. by apply bool_decide_false.
Qed.
(** Writing at one id: the token itself when the ids agree, another one otherwise. *)
Lemma tracked_id_write history history' i f l : (forall t, tk_id (f t) = tk_id t /\ tk_sha256Hash (f t) = tk_sha256Hash t) ->
  (forall r, described history r -> described history' (if decide (i = tokenId) then f r else r)) ->
  tracked history l -> tracked history' (update_first (has_id i) f l).
Proof.
  intros Hf Hd (r & Hs & Hr). specialize (Hd r Hr). exists (if has_id i r then f r else r). split.
  - apply slot_update; [done|done|]. intros Er%bool_decide_eq_true t [Ht _].
    apply bool_decide_false. intros E. apply Ht. by rewrite E, <- Er, (slot_id _ _ _ _ Hs).
  - unfold has_id. rewrite (slot_id _ _ _ _ Hs). case_bool_decide; case_decide; congruence || done.
Qed.

Lemma register_created_tokens i s : ts_tokens (register_created i s) = ts_tokens s.
Proof. unfold register_created. by case_match. Qed.
Lemma create_Ok name scopes e now secretHex idHex st st' secret token :
  createApiToken sha256 ttlMs name scopes e now secretHex idHex st = Ok (st', (secret, token)) ->
  exists now' e', time_clip now = Some now' /\
    match e with Some _ => Some e' = e | None => time_clip (now + ttlMs) = Some e' end /\
    pt_id token = cat ["tok_"; idHex] /\
    st' = st ++ [mkToken (cat ["tok_"; idHex]) (trim name) (sha256 secret) scopes now' (Some e')
                   None None None] /\ secret = cat ["scl_live_"; secretHex].
Proof.
  unfold createApiToken, iso_instant, hashApiToken.
  destruct (time_clip now) as [now'|]; [cbn|done].
  destruct e as [e|]; cbn; [|destruct (time_clip (now + ttlMs)) as [e'|]; [cbn|done]].
  all: intros [= <- <- <-]; by repeat eexists.
Qed.
Lemma post_tokens body now secretHex idHex s : exists l,
  ts_tokens (post_token sha256 ttlMs date_of_json body now secretHex idHex s).1 = ts_tokens s ++ l.
Proof.
  assert (Hsame : exists l, ts_tokens s = ts_tokens s ++ l) by (exists []; by rewrite app_nil_r).
  unfold post_token.
  destruct body as [o|]; [|done]. destruct (prop "name" o) as [[]|]; try done.
  case_bool_decide; [done|]. destruct (if json_falsy _ then _ else _) as [e|]; [|done].
  destruct (createApiToken _ _ _ _ _ _ _ _ _) as [[st' [secret token]]|] eqn:E; [|done].
  apply create_Ok in E as (now' & e' & _ & _ & _ & -> & _).
  cbn. rewrite register_created_tokens. by eexists.
Qed.
Lemma update_first_app {A} (p : A -> bool) f l x : List.find p l = Some x -> forall l',
  update_first p f (l ++ l') = update_first p f l ++ l'.
Proof.
  induction l as [|y l IH]; [done|]. cbn. intros H l'. destruct (p y); [done|]. cbn. by rewrite IH.
Qed.
Lemma rotate_tracked history i now secretHex idHex s : tracked history (ts_tokens s) ->
  let op := tok_rotate i now secretHex idHex in
  tracked (history ++ [op]) (ts_tokens (token_step s op)).
Proof.
  intros Ht. cbn. unfold rotate_token_route, rotateApiToken. case_bool_decide as Ei.
  { apply tracked_other; [done| |done]. cbn. rewrite bool_decide_false; [done|congruence]. }
  destruct (List.find (has_id i) (ts_tokens s)) as [ex|] eqn:Ef.
  2:{ apply tracked_other; [done| |done]. cbn. rewrite bool_decide_false; [done|].
      intros ->. destruct Ht as (r & Hs & _). by rewrite (slot_found _ _ Hs) in Ef. }
  destruct (createApiToken _ _ _ _ _ _ _ _ _) as [[st' [secret token]]|e] eqn:E.
  2:{ apply tracked_other; [done| |done]. unfold createApiToken, iso_instant in E. cbn.
    case_bool_decide; [|done]. destruct (time_clip now); [|done]. cbn in E |- *.
    by destruct (time_clip (now + ttlMs)). }
  - apply create_Ok in E as (now' & e' & E1 & E2 & _ & -> & _). cbn.
    unfold iso_instant. rewrite E1. cbn. rewrite register_created_tokens. cbn.
    rewrite (update_first_app _ _ _ _ Ef). apply tracked_app.
    eapply tracked_id_write; [by intros| |exact Ht].
    intros r Hr. case_decide as Hi.
    + destruct Hr as [H1 H2 H3]. split; [done| |].
      * by rewrite existsb_app, orb_true_iff, H2; cbn; naive_solver.
      * rewrite omap_app. cbn. rewrite bool_decide_true, E1 by done. cbn. rewrite E2. cbn.
        by rewrite last_snoc.
    + apply described_other; [done| |done]. cbn. by rewrite bool_decide_false.
Qed.
Lemma revoke_tracked history i now s : tracked history (ts_tokens s) ->
  tracked (history ++ [tok_revoke i now]) (ts_tokens (token_step s (tok_revoke i now))).
Proof.
  intros Ht. cbn. unfold revoke_token_route, revokeApiToken. case_bool_decide as Ei.
  { apply tracked_other; [|done|done]. cbn. rewrite bool_decide_false; [done|congruence]. }
  destruct (List.find (has_id i) (ts_tokens s)) as [ex|] eqn:Ef.
  2:{ apply tracked_other; [|done|done]. cbn. rewrite bool_decide_false; [done|].
      intros ->. destruct Ht as (r & Hs & _). by rewrite (slot_found _ _ Hs) in Ef. }
  assert (ts_tokens (match truthy (getApiTokenSecretHash i (ts_tokens s)) with
     | Some h => unregisterTokenPrincipal h (with_tokens (update_first (has_id i) (set_revoked now) (ts_tokens s)) s)
     | None => with_tokens (update_first (has_id i) (set_revoked now) (ts_tokens s)) s end)
     = update_first (has_id i) (set_revoked now) (ts_tokens s)) as E by by case_match.
  cbn. rewrite E.
  eapply tracked_id_write; [intros t; unfold set_revoked; by destruct (tk_revokedAt t)| |exact Ht].
  intros r Hr. case_decide as Hi; [|by apply described_other; [apply bool_decide_false| |]].
  destruct Hr as [H1 H2 H3]. unfold set_revoked. split.
  - by destruct (tk_revokedAt r).
  - rewrite existsb_app, orb_true_iff. cbn. rewrite bool_decide_true by done.
    destruct (tk_revokedAt r) eqn:Er; cbn; rewrite ?Er; naive_solver.
  - rewrite omap_app. cbn. rewrite app_nil_r. by destruct (tk_revokedAt r).
Qed.
Lemma touch_keeps now t : let t' := touch_token now t in
  tk_id t' = tk_id t /\ tk_sha256Hash t' = tk_sha256Hash t /\ tk_expiresAt t' = tk_expiresAt t /\
  tk_revokedAt t' = tk_revokedAt t /\ tk_rotatedAt t' = tk_rotatedAt t.
Proof. unfold touch_token. destruct (_ <=? _); done. Qed.
Lemma resolve_tracked history secret now s : tracked history (ts_tokens s) ->
  tracked (history ++ [tok_resolve secret now]) (ts_tokens (token_step s (tok_resolve secret now))).
Proof.
  intros Ht. apply tracked_other; [done|done|]. cbn. unfold resolveApiToken.
  case_match; [|done]. repeat (case_match; [done|]). cbn.
  destruct Ht as (r & Hs & Hr). eexists. split.
  - eapply (slot_update tokenId hash); [|exact Hs|].
    + intros t. by destruct (touch_keeps now t) as (? & ? & _).
    + unfold hash_matches. intros Er t [_ Hh]. rewrite timingSafe_spec in Er |- *.
      apply bool_decide_eq_true in Er. apply bool_decide_false. intros E.
      apply Hh. by rewrite E, <- Er, (slot_hash _ _ _ _ Hs).
  - destruct (hash_matches _ r); [|done]. destruct Hr as [H1' H2' H3'].
    destruct (touch_keeps now r) as (_ & _ & E1 & E2 & E3). split; by rewrite ?E1, ?E2, ?E3.
Qed.
Lemma run_tracked ops : forall history s, tracked history (ts_tokens s) ->
  tracked (history ++ ops) (ts_tokens (run_tokens s ops)).
Proof.
  induction ops as [|op ops IH]; intros history s Ht; [by rewrite app_nil_r|].
  change (op :: ops) with ([op] ++ ops). rewrite app_assoc. cbn. apply IH.
  destruct op; [|by apply rotate_tracked | by apply revoke_tracked | by apply resolve_tracked].
  apply tracked_other; [done|done|]. cbn.
  destruct (post_tokens body now secretHex idHex s) as [l ->]. by apply tracked_app.
Qed.
Lemma resolve_described history s secret now : sha256 secret = hash -> tracked history (ts_tokens s) ->
  token_status_name (resolveApiToken sha256 graceMs secret now (ts_tokens s)).2
  = lifetime_status tokenId expiresAt history now.
Proof.
  intros Hh (r & Hs & [H1 H2 H3]). unfold resolveApiToken, hashApiToken.
  rewrite (find_slot tokenId hash _ _ r Hs); cycle 1.
  - unfold hash_matches. rewrite timingSafe_spec. apply bool_decide_true. by rewrite (slot_hash _ _ _ _ Hs).
  - intros t [_ Ht]. unfold hash_matches. rewrite timingSafe_spec. apply bool_decide_false. congruence.
  - unfold lifetime_status, past_grace, past_expiry. rewrite <- H3, <- H1.
    destruct (existsb _ history) eqn:Ex, (tk_revokedAt r) as [v|] eqn:Er; try done.
    + by destruct (proj1 H2 eq_refl).
    + discriminate (proj2 H2 (mk_is_Some _ _ eq_refl)).
    + by repeat (case_match; try done).
Qed.
End Described.

(** C19. A token's lifetime.  Take a token that was neither revoked nor rotated
    and is the first record with its id and its hash.  After any requests to
    create, rotate, revoke and use tokens, in any order and at any times, its
    secret resolves as: revoked, if a request revoked it; else revoked, if its
    last rotation is more than the grace window ago; else expired from its
    expiry on; else valid.  In particular revocation is final, and using a token
    never extends it. *)
Theorem token_lifetime tokenId token secret ops now s :
  tokenId <> EmptyString ->
  List.find (has_id tokenId) (ts_tokens s) = Some token ->
  List.find (fun t => bool_decide (tk_sha256Hash t = sha256 secret)) (ts_tokens s) = Some token ->
  tk_revokedAt token = None -> tk_rotatedAt token = None ->
  token_status_name (resolveApiToken sha256 graceMs secret now (ts_tokens (run_tokens s ops))).2
  = lifetime_status tokenId (tk_expiresAt token) ops now.
Proof.
  intros Hne Hi Hh Hr Ho.
  assert (Ht : tracked tokenId (sha256 secret) (tk_expiresAt token) [] (ts_tokens s)).
  { exists token. split; [by apply slot_of_find|]. split; [done| |by rewrite Ho].
    rewrite Hr. split; [done|by intros []]. }
  apply (run_tracked tokenId (sha256 secret) _ Hne ops []) in Ht.
  exact (resolve_described _ _ _ _ _ secret now eq_refl Ht).
Qed.
End History.

Definition toy_hash (s : string) : string := cat ["h"; s].
Definition one_token : TokenState :=
  (post_token toy_hash 1000 (fun _ => None) (Some [("name", JStr "ci")]%string) 0 "aa" "01" no_tokens).1.
Definition token_history : list TokenOp :=
  [ tok_post (Some [("name", JStr "x")]%string) 5 "bb" "02"; tok_resolve "scl_live_aa" 6;
    tok_rotate "tok_01" 10 "cc" "03"; tok_rotate "tok_01" 40 "dd" "04"; tok_revoke "tok_02" 50 ]%string.
Lemma token_lifetime_witness :
  let status ops now := token_status_name (resolveApiToken toy_hash 100 "scl_live_aa" now
    (ts_tokens (run_tokens toy_hash 1000 100 (fun _ => None) one_token ops))).2 in
  status token_history 140 = "valid"%string /\ status token_history 141 = "revoked"%string /\
  status (token_history ++ [tok_revoke "tok_01" 60]) 61 = "revoked"%string /\
  status [] 1000 = "expired"%string.
Proof.
  intros status.
  assert (H : forall ops now, status ops now = lifetime_status 1000 100 "tok_01" (Some 1000) ops now).
  { intros ops now.
    apply (token_lifetime toy_hash 1000 100 (fun _ => None) "tok_01"
             (mkToken "tok_01" "ci" "hscl_live_aa" [runs_read] 0 (Some 1000) None None None)); done. }
  rewrite !H. vm_compute. done.
Defined.

(** ** The index is the set of tokens not revoked *)

Section Index.
Context (sha256 : string -> string) (ttlMs graceMs : Z) (date_of_json : json -> option Z).
Definition token_view (t : ApiTokenRecord) : string * string * bool :=
  (tk_id t, tk_sha256Hash t, match tk_revokedAt t with Some _ => true | None => false end).
Record index_inv (vs : list (string * string * bool)) (m : gmap string string) : Prop := mkIndexInv
  { ii_ids : NoDup (fst <$> (fst <$> vs));
    ii_hashes : NoDup (snd <$> (fst <$> vs));
    ii_nonempty : Forall (fun v => v.1.2 <> EmptyString) vs;
    ii_live : forall h i, m !! h = Some i <-> (i, h, false) ∈ vs }.
Definition tokens_inv (s : TokenState) : Prop := index_inv (token_view <$> ts_tokens s) (ts_principals s).

(** The identifiers and secrets drawn are new ones. *)
Definition fresh_draw (secretHex idHex : string) (s : TokenState) : Prop :=
  let hash := sha256 (cat ["scl_live_"; secretHex]) in
  Forall (fun t => tk_id t <> cat ["tok_"; idHex] /\ tk_sha256Hash t <> hash) (ts_tokens s) /\
  hash <> EmptyString.
Definition fresh_op (s : TokenState) (op : TokenOp) : Prop :=
  match op with
  | tok_post _ _ secretHex idHex | tok_rotate _ _ secretHex idHex => fresh_draw secretHex idHex s
  | _ => True
  end.
Fixpoint fresh_run (s : TokenState) (ops : list TokenOp) : Prop :=
  match ops with
  | [] => True
  | op :: ops' => fresh_op s op /\ fresh_run (token_step sha256 ttlMs graceMs date_of_json s op) ops'
  end.

Lemma index_add vs m i h : index_inv vs m -> Forall (fun v => v.1.1 <> i /\ v.1.2 <> h) vs ->
  h <> EmptyString -> index_inv (vs ++ [(i, h, false)]) (<[h := i]> m).
Proof.
  intros [H1 H2 H3 H4] Hf Hh. rewrite list.Forall_forall in Hf. split.
  - rewrite !fmap_app. apply NoDup_app. split_and!; [done| |apply NoDup_singleton].
    intros x (y & -> & (v & -> & Hv)%list_elem_of_fmap)%list_elem_of_fmap E%list_elem_of_singleton.
    by destruct (Hf v Hv).
  - rewrite !fmap_app. apply NoDup_app. split_and!; [done| |apply NoDup_singleton].
    intros x (y & -> & (v & -> & Hv)%list_elem_of_fmap)%list_elem_of_fmap E%list_elem_of_singleton.
    by destruct (Hf v Hv).
  - apply Forall_app. split; [done|by repeat constructor].
  - intros h' i'. rewrite elem_of_app, list_elem_of_singleton. destruct (decide (h' = h)) as [->|Hne].
    + rewrite lookup_insert_eq. split; [intros [= ->]; by right|].
      intros [Hv|[= ->]]; [|done]. by destruct (Hf _ Hv).
    + rewrite lookup_insert_ne, H4 by done. naive_solver.
Qed.
Lemma index_revoke v1 v2 i h b m : index_inv (v1 ++ (i, h, b) :: v2) m ->
  index_inv (v1 ++ (i, h, true) :: v2) (delete h m).
Proof.
  intros [H1 H2 H3 H4]. split.
  - rewrite !fmap_app in *. done.
  - rewrite !fmap_app in *. done.
  - rewrite Forall_app, Forall_cons in *. done.
  - intros h' i'. rewrite lookup_delete_Some, H4, !elem_of_app, !elem_of_cons.
    rewrite !fmap_app in H2. cbn in H2. apply NoDup_app in H2 as (_ & Hd & [Hd2 _]%NoDup_cons).
    assert (Hx : forall (x : string * string * bool) v, x ∈ v -> x.1.2 ∈ v.*1.*2).
    { intros x v Hv. apply list_elem_of_fmap. exists x.1. split; [done|].
      apply list_elem_of_fmap. by exists x. }
    split.
    + intros [Hne [H|[[= -> -> ->]|H]]]; tauto.
    + intros [H|[[=]|H]]; (split; [|tauto]); intros <-.
      * apply (Hd h); [by apply (Hx (i', h, false))|]. left.
      * apply Hd2. by apply (Hx (i', h, false)).
Qed.
Lemma view_update p f l : (forall t, token_view (f t) = token_view t) ->
  token_view <$> update_first p f l = token_view <$> l.
Proof.
  intros Hf. induction l as [|t l IH]; [done|]. cbn.
  destruct (p t); cbn; [by rewrite Hf | by rewrite IH].
Qed.
Lemma find_split {A} (p : A -> bool) l x : List.find p l = Some x ->
  exists l1 l2, l = l1 ++ x :: l2 /\ p x = true /\ forall f, update_first p f l = l1 ++ f x :: l2.
Proof.
  induction l as [|y l IH]; [done|]. cbn. destruct (p y) eqn:E.
  - intros [= ->]. exists [], l. done.
  - intros (l1 & l2 & -> & Hx & Hf)%IH. exists (y :: l1), l2. split_and!; [done|done|].
    intros f. by rewrite Hf.
Qed.
(** A new record at the end, the others as they were seen, and its registration. *)
Lemma created_inv s l secretHex idHex rec : tokens_inv s -> fresh_draw secretHex idHex s ->
  tk_id rec = cat ["tok_"; idHex]%string -> tk_sha256Hash rec = sha256 (cat ["scl_live_"; secretHex]) ->
  tk_revokedAt rec = None -> token_view <$> l = token_view <$> ts_tokens s ->
  tokens_inv (register_created (tk_id rec) (with_tokens (l ++ [rec]) s)).
Proof.
  intros I [Hf Hne] Hi Hh Hr Hl.
  assert (Hv : Forall (fun v => v.1.1 <> tk_id rec /\ v.1.2 <> tk_sha256Hash rec) (token_view <$> l)).
  { rewrite Hl, Hi, Hh. apply Forall_fmap. eapply Forall_impl; [exact Hf|]. done. }
  assert (Hg : getApiTokenSecretHash (tk_id rec) (l ++ [rec]) = Some (tk_sha256Hash rec)).
  { unfold getApiTokenSecretHash. clear -Hv. induction l as [|t l IH]; cbn.
    - by rewrite bool_decide_true.
    - cbn in Hv. apply Forall_cons in Hv as [[Ht _] Hv]. cbn in Ht.
      rewrite bool_decide_false by done. by apply IH. }
  unfold register_created, with_tokens. cbn [ts_tokens]. rewrite Hg. unfold truthy.
  rewrite <- Hh in Hne. destruct (decide (tk_sha256Hash rec = "")) as [|_]; [done|].
  unfold tokens_inv. cbn. rewrite fmap_app. cbn.
  unfold token_view at 2. rewrite Hr. apply index_add; [|done|done]. by rewrite Hl.
Qed.
Lemma token_step_inv s op : tokens_inv s -> fresh_op s op ->
  tokens_inv (token_step sha256 ttlMs graceMs date_of_json s op).
Proof.
  intros I Hf. destruct op as [body now secretHex idHex|i now secretHex idHex|i now|secret now]; cbn in Hf |- *.
  - unfold post_token. destruct body as [o|]; [|done]. destruct (prop "name" o) as [[]|]; try done.
    case_bool_decide; [done|]. destruct (if json_falsy _ then _ else _) as [e|]; [|done].
    destruct (createApiToken _ _ _ _ _ _ _ _ _) as [[st' [secret token]]|] eqn:E; [|done].
    apply create_Ok in E as (now' & e' & _ & _ & -> & -> & ->). cbn [fst].
    refine (created_inv s _ secretHex idHex (mkToken _ _ _ _ _ _ _ _ _) I Hf eq_refl eq_refl eq_refl eq_refl).
  - unfold rotate_token_route, rotateApiToken. case_bool_decide; [done|].
    destruct (List.find (has_id i) (ts_tokens s)) as [ex|] eqn:Ef; [|done].
    destruct (createApiToken _ _ _ _ _ _ _ _ _) as [[st' [secret token]]|e] eqn:E; [|done].
    apply create_Ok in E as (now' & e' & E1 & _ & Hp & -> & ->). cbn.
    unfold iso_instant. rewrite E1. cbn. rewrite Hp, (update_first_app _ _ _ _ Ef).
    refine (created_inv s _ secretHex idHex (mkToken _ _ _ _ _ _ _ _ _) I Hf eq_refl eq_refl eq_refl _).
    by apply view_update.
  - unfold revoke_token_route, revokeApiToken. case_bool_decide; [done|].
    unfold getApiTokenSecretHash. fold (has_id i).
    destruct (List.find (has_id i) (ts_tokens s)) as [ex|] eqn:Ef; [|done]. cbn.
    destruct (find_split _ _ _ Ef) as (l1 & l2 & Hl & _ & Hu). rewrite Hu.
    unfold tokens_inv in I. rewrite Hl, fmap_app in I. cbn in I.
    pose proof (ii_nonempty _ _ I) as Hne. rewrite Forall_app, Forall_cons in Hne. cbn in Hne.
    unfold truthy. destruct (decide (tk_sha256Hash ex = "")) as [|_]; [tauto|].
    unfold tokens_inv. cbn. rewrite fmap_app. cbn.
    assert (token_view (set_revoked now ex) = (tk_id ex, tk_sha256Hash ex, true)) as ->.
    { unfold token_view, set_revoked. by destruct (tk_revokedAt ex) eqn:Er; cbn; rewrite ?Er. }
    by eapply index_revoke.
  - unfold tokens_inv. cbn. unfold resolveApiToken. case_match; [|done].
    repeat (case_match; [done|]). cbn. rewrite view_update; [done|].
    intros t. unfold token_view. destruct (touch_keeps now t) as (-> & -> & _ & -> & _). done.
Qed.
Lemma fresh_run_inv ops : forall s, tokens_inv s -> fresh_run s ops ->
  tokens_inv (run_tokens sha256 ttlMs graceMs date_of_json s ops).
Proof.
  induction ops as [|op ops IH]; intros s I Hf; [done|]. destruct Hf as [Hop Hf].
  apply IH; [by apply token_step_inv | done].
Qed.
Lemma no_tokens_inv : tokens_inv no_tokens.
Proof. split; cbn; try constructor; [done|]. by intros ?%not_elem_of_nil. Qed.

(** The principal index is exactly the tokens not revoked: after any
    requests, whose draws are new identifiers and secrets, a digest resolves to
    an id if and only if the store has a token with this id and digest that no
    request revoked.  Neither expiry nor the end of a rotation's grace window
    removes one. *)
Theorem principals_are_unrevoked ops h i : fresh_run no_tokens ops ->
  let s := run_tokens sha256 ttlMs graceMs date_of_json no_tokens ops in
  resolveTokenPrincipalIdByHash h s = Some i <->
  exists t, t ∈ ts_tokens s /\ tk_id t = i /\ tk_sha256Hash t = h /\ tk_revokedAt t = None.
Proof.
  intros Hf s. pose proof (fresh_run_inv ops no_tokens no_tokens_inv Hf) as I. fold s in I.
  unfold resolveTokenPrincipalIdByHash. rewrite (ii_live _ _ I), list_elem_of_fmap. split.
  - intros (t & [= -> -> E] & Ht). exists t. split_and!; try done. by destruct (tk_revokedAt t).
  - intros (t & Ht & <- & <- & E). exists t. unfold token_view. by rewrite E.
Qed.
End Index.

Definition index_history : list TokenOp :=
  [ tok_post (Some [("name", JStr "ci")]%string) 0 "aa" "01"; tok_rotate "tok_01" 10 "cc" "03";
    tok_resolve "scl_live_aa" 20; tok_revoke "tok_03" 50 ]%string.
Lemma principals_are_unrevoked_witness :
  let s := run_tokens toy_hash 1000 100 (fun _ => None) no_tokens index_history in
  resolveTokenPrincipalIdByHash "hscl_live_aa" s = Some "tok_01"%string /\
  ~ resolveTokenPrincipalIdByHash "hscl_live_cc" s = Some "tok_03"%string.
Proof.
  assert (Hf : fresh_run toy_hash 1000 100 (fun _ => None) no_tokens index_history).
  { vm_compute. repeat split; repeat constructor; discriminate. }
  intros s. pose proof (fun h i => principals_are_unrevoked toy_hash 1000 100 (fun _ => None) index_history h i Hf) as H.
  split.
  - apply H. eexists. split; [left|done].
  - intros (t & Ht & Hi & _ & Hr)%H. vm_compute in Ht.
    repeat (apply elem_of_cons in Ht as [->|Ht]; [done|]). by apply not_elem_of_nil in Ht.
Defined.
(** The secret of an expired token still resolves to its id. *)
Example expired_token_still_a_principal :
  resolveTokenPrincipalIdByHash "hscl_live_aa" one_token = Some "tok_01"%string /\
  token_status_name (resolveApiToken toy_hash 100 "scl_live_aa" 5000 (ts_tokens one_token)).2 = "expired"%string.
Proof. vm_compute. done. Qed.
(** Rotating a revoked token mints a valid one. *)
Example rotating_revives :
  let revoked := (revoke_token_route "tok_01" 5 one_token).1.1 in
  let rotated := (rotate_token_route toy_hash 1000 "tok_01" 6 "bb" "02" revoked).1.1 in
  token_status_name (resolveApiToken toy_hash 100 "scl_live_bb" 7 (ts_tokens rotated)).2 = "valid"%string.
Proof. vm_compute. done. Qed.
(** The index outlives the process and the token store does not: afterwards the
    token cannot be revoked, and its secret still resolves to its id. *)
Example lost_token_cannot_be_revoked :
  let restarted := with_tokens [] one_token in
  (revoke_token_route "tok_01" 5 restarted).2 = token_error 404 "Token not found." /\
  resolveTokenPrincipalIdByHash "hscl_live_aa" (revoke_token_route "tok_01" 5 restarted).1.1
  = Some "tok_01"%string.
Proof. vm_compute. done. Qed.
