(* ===== verification/Sessions.v ===== *)
(** [lib/auth/server-session.ts], [lib/github-session.ts] and
    [lib/auth/oidc-session.ts]: browser sessions kept in the record store of
    [lib/storage/record-driver.ts], whose records expire.

    HMAC and SHA-256 are parameters giving hexadecimal text; the random bytes of a
    session are an argument, given in the base64url text [encode] makes of them. *)

From S2P Require Import Prelude JsString CronParser Quotas RateLimit.
From stdpp Require Import base list sets fin_sets gmap strings numbers sorting.
From Stdlib Require Import ZArith Lia Ascii.
#[local] Open Scope Z_scope.
#[local] Arguments String.append !_ _ / : simpl nomatch.

(** ** Records with a time to live *)

(** The value and the instant it expires at. *)
Notation RecordStore A := (gmap string (A * option Z)).

Section Records.
Context {A : Type}.
Definition getRecord (key : string) (now : Z) (m : RecordStore A) : RecordStore A * option A :=
  match m !! key with
  | Some (v, Some e) => if e <=? now then (delete key m, None) else (m, Some v)
  | Some (v, None) => (m, Some v)
  | None => (m, None)
  end.
Definition expiry_of (ttlSeconds : option Z) (now : Z) : option Z :=
  match ttlSeconds with
  | Some ttl => if 0 <? ttl then Some (now + ttl * 1000) else None
  | None => None
  end.
Definition putRecord (key : string) (value : A) (ttlSeconds : option Z) (now : Z) (m : RecordStore A)
  : RecordStore A := <[key := (value, expiry_of ttlSeconds now)]> m.
Definition updateRecordIfPresent (key : string) (value : A) (ttlSeconds : option Z) (now : Z)
    (m : RecordStore A) : RecordStore A * bool :=
  match m !! key with
  | None => (m, false)
  | Some (_, e) =>
      if match e with Some e => e <=? now | None => false end then (delete key m, false)
      else (<[key := (value, expiry_of ttlSeconds now)]> m, true)
  end.
Definition deleteRecord (key : string) (m : RecordStore A) : RecordStore A * bool :=
  (delete key m, match m !! key with Some _ => true | None => false end).
End Records.

(** ** Sessions *)

Definition SESSION_IDLE_TIMEOUT_MS : Z := 30 * 60 * 1000.
Definition SESSION_ABSOLUTE_TIMEOUT_MS : Z := 12 * 60 * 60 * 1000.
Inductive ServerSessionProvider : Type := session_github | session_oidc.
#[export] Instance ServerSessionProvider_eq_dec : EqDecision ServerSessionProvider.
Proof. solve_decision. Defined.
Record SessionRecord : Type := mkSession
  { se_provider : ServerSessionProvider; se_identity : string; se_userAgentHash : string;
    se_createdAt : Z; se_lastActivityAt : Z }.
Inductive DurableSessionStorageError : Type := session_storage_unavailable.

Definition is_base64url (c : ascii) : bool :=
  let n := code c in
  ((65 <=? n) && (n <=? 90)) || ((97 <=? n) && (n <=? 122)) || is_digit c || (n =? 45) || (n =? 95).
(** The number of bytes [decode] returns: [atob] refuses a length of 1 modulo 4
    and drops the bits of an incomplete byte. *)
Definition decoded_length (value : string) : option Z :=
  let n := js_length value in
  if bool_decide (value <> EmptyString) && all_chars is_base64url value && negb (n mod 4 =? 1)
  then Some (n * 3 / 4) else None.
Definition is_hex64 (s : string) : bool :=
  all_chars (fun c => is_digit c || ((97 <=? code c) && (code c <=? 102))) s && (js_length s =? 64).
(** The loop of [signaturesEqual] and of [constantTimeHexEqual]. *)
Fixpoint xor_difference (difference : Z) (a b : string) : Z :=
  match a, b with
  | String c a', String d b' => xor_difference (Z.lor difference (Z.lxor (code c) (code d))) a' b'
  | _, _ => difference
  end.
Definition constantTimeHexEqual (a b : string) : bool :=
  (js_length a =? js_length b) && (xor_difference 0 a b =? 0).
Definition signaturesEqual (a b : string) : bool :=
  is_hex64 a && (js_length a =? js_length b) && (xor_difference 0 a b =? 0).
(** [raw.slice(0, i)] and [raw.slice(i + 1)] for [i = raw.lastIndexOf('.')]. *)
Fixpoint split_last_dot (raw : string) : option (string * string) :=
  match raw with
  | EmptyString => None
  | String c rest =>
      match split_last_dot rest with
      | Some (a, b) => Some (String c a, b)
      | None => if bool_decide (c = "."%char) then Some (EmptyString, rest) else None
      end
  end.
(** [getGitHubSessionSecret], [getOidcSessionSecret]. *)
Definition session_secret (value : option string) : option string := truthy (trim <$> value).
Definition getGitHubSessionMaxAgeSeconds (ttl : option string) : Z :=
  match truthy ttl ≫= parse_int with
  | Some parsed => if 0 <? parsed then Z.min parsed (SESSION_ABSOLUTE_TIMEOUT_MS / 1000)
                   else SESSION_ABSOLUTE_TIMEOUT_MS / 1000
  | None => SESSION_ABSOLUTE_TIMEOUT_MS / 1000
  end.

Section Sessions.
(** The HMAC of a secret over a text, and SHA-256. *)
Context (hmac_sha256 : string -> string -> string) (sha256 : string -> string).
Definition provider_name (p : ServerSessionProvider) : string :=
  match p with session_github => "github" | session_oidc => "oidc" end.
Definition sessionKey (sessionId : string) : string := cat ["auth:session:"; sha256 sessionId].
Definition session_hmac (secret : string) (p : ServerSessionProvider) (sessionId : string) : string :=
  hmac_sha256 secret (cat [provider_name p; ":"; sessionId]).
Definition hashUserAgent (secret userAgent : string) : string :=
  hmac_sha256 secret (cat ["crashlab:session:user-agent:v1:"; userAgent]).

Definition parseCookie (raw secret : option string) (p : ServerSessionProvider) : option string :=
  secret ← truthy secret;
  raw ← truthy raw;
  '(sessionId, signature) ← split_last_dot raw;
  if bool_decide (sessionId = EmptyString) then None
  else if bool_decide (decoded_length sessionId = Some 32) &&
          signaturesEqual (session_hmac secret p sessionId) signature
  then Some sessionId else None.
(** What [parseRecord] asks of a stored record. *)
Definition record_ok (record : SessionRecord) : bool :=
  negb (bool_decide (se_identity record = EmptyString)) && is_hex64 (se_userAgentHash record).

(** [durable] tells whether the durable store is configured. *)
Definition issueServerSession (durable : bool) (p : ServerSessionProvider) (identity : string)
    (secret existingCookie : option string) (now : Z) (userAgent sessionId : string)
    (m : RecordStore SessionRecord)
  : RecordStore SessionRecord * result DurableSessionStorageError (option string) :=
  let normalised := trim identity in
  match truthy secret with
  | None => (m, Ok None)
  | Some key =>
      if bool_decide (normalised = EmptyString) then (m, Ok None)
      else if negb durable then (m, Err session_storage_unavailable)
      else
        let m1 := match parseCookie existingCookie secret p with
                  | Some previousId => (deleteRecord (sessionKey previousId) m).1
                  | None => m
                  end in
        let record := mkSession p (match p with session_github => to_lower normalised | _ => normalised end)
                        (hashUserAgent key userAgent) now now in
        (putRecord (sessionKey sessionId) record (Some (SESSION_ABSOLUTE_TIMEOUT_MS / 1000)) now m1,
         Ok (Some (cat [sessionId; "."; session_hmac key p sessionId])))
  end.
Definition within_timeouts (record : SessionRecord) (now : Z) : bool :=
  (se_createdAt record <=? now) && (se_lastActivityAt record <=? now) &&
  (now - se_createdAt record <? SESSION_ABSOLUTE_TIMEOUT_MS) &&
  (now - se_lastActivityAt record <? SESSION_IDLE_TIMEOUT_MS).
Definition verifyServerSession (durable : bool) (p : ServerSessionProvider)
    (raw secret : option string) (now : Z) (userAgent : string) (m : RecordStore SessionRecord)
  : RecordStore SessionRecord * option string :=
  match parseCookie raw secret p, truthy secret with
  | Some sessionId, Some key =>
      if negb durable then (m, None)
      else
        let rk := sessionKey sessionId in
        match getRecord rk now m with
        | (m1, Some record) =>
            if negb (record_ok record && bool_decide (se_provider record = p)) then (m1, None)
            else if negb (signaturesEqual (se_userAgentHash record) (hashUserAgent key userAgent))
            then (m1, None)
            else if negb (within_timeouts record now) then ((deleteRecord rk m1).1, None)
            else
              let record' := mkSession (se_provider record) (se_identity record)
                               (se_userAgentHash record) (se_createdAt record) now in
              let remaining := ceil_seconds (se_createdAt record + SESSION_ABSOLUTE_TIMEOUT_MS - now) in
              let '(m2, updated) := updateRecordIfPresent rk record' (Some remaining) now m1 in
              (m2, if updated then Some (se_identity record) else None)
        | (m1, None) => (m1, None)
        end
  | _, _ => (m, None)
  end.
Definition invalidateServerSession (durable : bool) (p : ServerSessionProvider)
    (raw secret : option string) (m : RecordStore SessionRecord)
  : RecordStore SessionRecord * result DurableSessionStorageError bool :=
  match truthy raw with
  | None => (m, Ok false)
  | Some _ =>
      match truthy secret with
      | None => (m, Err session_storage_unavailable)
      | Some _ =>
          match parseCookie raw secret p with
          | None => (m, Ok false)
          | Some sessionId =>
              if negb durable then (m, Err session_storage_unavailable)
              else let '(m', found) := deleteRecord (sessionKey sessionId) m in (m', Ok found)
          end
      end
  end.
End Sessions.

#[local] Arguments sessionKey _ _ : simpl never.

Lemma getRecord_other {A} key k now (m : RecordStore A) : k <> key ->
  (getRecord key now m).1 !! k = m !! k.
Proof.
  intros Hk. unfold getRecord. destruct (m !! key) as [[v [e|]]|]; [|done|done].
  destruct (e <=? now); [by apply lookup_delete_ne|done].
Qed.
Lemma updateRecord_other {A} key k v ttl now (m m' : RecordStore A) b : k <> key ->
  updateRecordIfPresent key v ttl now m = (m', b) -> m' !! k = m !! k.
Proof.
  intros Hk. unfold updateRecordIfPresent. destruct (m !! key) as [[w e]|]; [|by intros [= <- _]].
  destruct (match e with Some _ => _ | None => _ end); intros [= <- _];
    [by apply lookup_delete_ne | by apply lookup_insert_ne].
Qed.

(** ** Comparing signatures *)

Lemma code_inj c d : code c = code d -> c = d.
Proof. unfold code. intros H%N2Z.inj. by apply (f_equal ascii_of_N) in H; rewrite !ascii_N_embedding in H. Qed.
Lemma xor_difference_zero a : forall b acc, js_length a = js_length b ->
  xor_difference acc a b = 0 <-> acc = 0 /\ a = b.
Proof.
  unfold js_length. induction a as [|c a IH]; intros [|d b] acc Hl; cbn in Hl; try lia; cbn.
  - naive_solver.
  - rewrite IH by lia. rewrite Z.lor_eq_0_iff, Z.lxor_eq_0_iff. split.
    + intros [[-> H%code_inj] ->]. by subst.
    + by intros [-> [= -> ->]].
Qed.
Lemma constantTimeHexEqual_spec a b : constantTimeHexEqual a b = bool_decide (a = b).
Proof.
  unfold constantTimeHexEqual. destruct (Z.eqb_spec (js_length a) (js_length b)) as [E|E]; cbn.
  - symmetry. destruct (Z.eqb_spec (xor_difference 0 a b) 0) as [D|D].
    + apply bool_decide_true. by apply xor_difference_zero in D as [_ ?].
    + apply bool_decide_false. intros ->. apply D. by apply xor_difference_zero.
  - symmetry. apply bool_decide_false. by intros ->.
Qed.
Lemma signaturesEqual_spec a b : signaturesEqual a b = is_hex64 a && bool_decide (a = b).
Proof.
  rewrite <- constantTimeHexEqual_spec. unfold signaturesEqual, constantTimeHexEqual. by rewrite andb_assoc.
Qed.
Lemma split_last_dot_app a b : all_chars (fun c => negb (bool_decide (c = "."%char))) b = true ->
  split_last_dot (a ++ String "." b) = Some (a, b).
Proof.
  intros Hb. assert (Hn : split_last_dot b = None).
  { induction b as [|c b IH]; [done|]. cbn in Hb |- *. apply andb_true_iff in Hb as [Hc Hb].
    rewrite IH by done. by destruct (bool_decide _). }
  induction a as [|c a IH]; cbn; [by rewrite Hn | by rewrite IH].
Qed.
Lemma hex64_no_dot s : is_hex64 s = true -> all_chars (fun c => negb (bool_decide (c = "."%char))) s = true.
Proof.
  unfold is_hex64. rewrite andb_true_iff. intros [H _]. revert H. apply all_chars_impl.
  intros c Hc. apply negb_true_iff, bool_decide_false. by intros ->.
Qed.

(** ** A session through its life *)

Inductive SessionOp : Type :=
  | ses_issue (p : ServerSessionProvider) (identity : string) (existingCookie : option string) (now : Z)
      (userAgent sessionId : string)
  | ses_verify (p : ServerSessionProvider) (raw : option string) (now : Z) (userAgent : string)
  | ses_invalidate (p : ServerSessionProvider) (raw : option string).

Section Life.
Context (hmac_sha256 : string -> string -> string) (sha256 : string -> string).
Context (secrets : ServerSessionProvider -> option string).

Definition session_step (m : RecordStore SessionRecord) (op : SessionOp) : RecordStore SessionRecord :=
  match op with
  | ses_issue p identity existing now userAgent sessionId =>
      (issueServerSession hmac_sha256 sha256 true p identity (secrets p) existing now userAgent sessionId m).1
  | ses_verify p raw now userAgent =>
      (verifyServerSession hmac_sha256 sha256 true p raw (secrets p) now userAgent m).1
  | ses_invalidate p raw => (invalidateServerSession hmac_sha256 sha256 true p raw (secrets p) m).1
  end.
Definition op_time (clock : Z) (op : SessionOp) : Z :=
  match op with ses_issue _ _ _ now _ _ | ses_verify _ _ now _ => now | ses_invalidate _ _ => clock end.
(** The clock of the requests does not run backwards. *)
Fixpoint in_order (clock : Z) (ops : list SessionOp) : Prop :=
  match ops with
  | [] => True
  | op :: ops' => clock <= op_time clock op /\ in_order (op_time clock op) ops'
  end.
Definition last_time (clock : Z) (ops : list SessionOp) : Z := foldl op_time clock ops.

(** The contract, for the session of [sessionId] created at [t0] with the browser
    whose hash is [agent]: [Some last] while it lives, [last] its last use. *)
Section Contract.
Context (sessionId : string) (p0 : ServerSessionProvider) (key : string) (agent : string) (t0 : Z).
Definition presents (p : ServerSessionProvider) (raw : option string) : bool :=
  bool_decide (parseCookie hmac_sha256 raw (secrets p) p = Some sessionId).
Definition session_alive (last now : Z) : bool :=
  (now - t0 <? SESSION_ABSOLUTE_TIMEOUT_MS) && (now - last <? SESSION_IDLE_TIMEOUT_MS).
Definition life_step (life : option Z) (op : SessionOp) : option Z :=
  match life with
  | None => None
  | Some last =>
      match op with
      | ses_issue p identity existing _ _ _ =>
          if negb (bool_decide (trim identity = EmptyString)) && presents p existing then None else life
      | ses_invalidate p raw => if presents p raw then None else life
      | ses_verify p raw now userAgent =>
          if presents p raw && bool_decide (p = p0) &&
             bool_decide (hashUserAgent hmac_sha256 key userAgent = agent)
          then if session_alive last now then Some now else None
          else life
      end
  end.
End Contract.

Hypothesis hmac_hex : forall k text, is_hex64 (hmac_sha256 k text) = true.
Context (sessionId identity : string) (p0 : ServerSessionProvider) (key agent : string) (t0 : Z).
Hypothesis Hsecret : secrets p0 = Some key.
Hypothesis Hkey : key <> EmptyString.
Hypothesis Hsha : forall x, sha256 x = sha256 sessionId -> x = sessionId.
Hypothesis Hagent : is_hex64 agent = true.
Hypothesis Hidentity : identity <> EmptyString.

Definition session_record (last : Z) : SessionRecord := mkSession p0 identity agent t0 last.
(** The store agrees with the contract; a record the driver already dropped is
    past its absolute timeout. *)
Definition agrees (clock : Z) (life : option Z) (m : RecordStore SessionRecord) : Prop :=
  t0 <= clock /\
  match life with
  | None => m !! sessionKey sha256 sessionId = None
  | Some last =>
      t0 <= last <= clock /\
      ((exists e, m !! sessionKey sha256 sessionId = Some (session_record last, Some e) /\
                  t0 + SESSION_ABSOLUTE_TIMEOUT_MS <= e) \/
       (m !! sessionKey sha256 sessionId = None /\ t0 + SESSION_ABSOLUTE_TIMEOUT_MS <= clock))
  end.
Lemma sessionKey_inj x : sessionKey sha256 x = sessionKey sha256 sessionId -> x = sessionId.
Proof. unfold sessionKey, cat. cbn [foldr]. rewrite !append_empty. by intros ?%append_inj_l%Hsha. Qed.
Lemma agrees_later clock clock' life m : clock <= clock' -> agrees clock life m -> agrees clock' life m.
Proof.
  intros Hc [H0 H]. split; [lia|]. destruct life as [l|]; [|done].
  destruct H as [Hl [He|[Hn Hp]]]; (split; [lia|]); [by left|right; split; [done|lia]].
Qed.
Lemma agrees_same clock life m m' :
  m' !! sessionKey sha256 sessionId = m !! sessionKey sha256 sessionId -> agrees clock life m -> agrees clock life m'.
Proof. unfold agrees. intros E H. by destruct life; rewrite E. Qed.
Lemma agrees_deleted clock life m : agrees clock life m ->
  agrees clock None (delete (sessionKey sha256 sessionId) m).
Proof. intros [H0 _]. split; [done|]. by apply lookup_delete_eq. Qed.

Notation skey := (sessionKey sha256 sessionId).
Notation lives := (life_step sessionId p0 key agent t0).
Notation presented := (presents sessionId).
Lemma ceil_seconds_above x : x <= ceil_seconds x * 1000 /\ (0 < x -> 0 < ceil_seconds x).
Proof. unfold ceil_seconds. split; [|intros]; Z.to_euclidean_division_equations; lia. Qed.
Lemma other_key x : x <> sessionId -> skey <> sessionKey sha256 x.
Proof. intros Hx E. by apply Hx, sessionKey_inj. Qed.

(** Deleting the session a cookie presents. *)
Lemma agrees_delete clock life c m : agrees clock life m ->
  agrees clock (match life with None => None | _ => if bool_decide (c = Some sessionId) then None else life end)
    (match c with Some x => delete (sessionKey sha256 x) m | None => m end).
Proof.
  intros H. case_bool_decide as E.
  - rewrite E. assert (match life with None => None | _ => None end = @None Z) as -> by by destruct life.
    by eapply agrees_deleted.
  - assert (match life with None => None | _ => life end = life) as -> by by destruct life.
    destruct c as [x|]; [|done]. eapply agrees_same; [|exact H].
    apply lookup_delete_ne, not_eq_sym, other_key. congruence.
Qed.
Lemma issue_agrees clock life p who existing now userAgent x m : x <> sessionId ->
  agrees clock life m ->
  agrees clock (lives life (ses_issue p who existing now userAgent x))
    (session_step m (ses_issue p who existing now userAgent x)).
Proof.
  intros Hx H. cbn. unfold life_step, issueServerSession.
  destruct (truthy (secrets p)) as [k|] eqn:Ek.
  - case_bool_decide; [destruct life; exact H|]. cbn.
    eapply agrees_same; [apply lookup_insert_ne, not_eq_sym, other_key, Hx|].
    pose proof (agrees_delete clock life (parseCookie hmac_sha256 existing (secrets p) p) m H) as Hd.
    unfold presents. destruct life, (parseCookie _ existing _ _); exact Hd.
  - assert (presented p existing = false) as ->.
    { unfold presents, parseCookie. by rewrite Ek. }
    rewrite andb_false_r. by destruct life.
Qed.
Lemma invalidate_agrees clock life p raw m : agrees clock life m ->
  agrees clock (lives life (ses_invalidate p raw)) (session_step m (ses_invalidate p raw)).
Proof.
  intros H. cbn. unfold life_step, invalidateServerSession, presents.
  pose proof (agrees_delete clock life (parseCookie hmac_sha256 raw (secrets p) p) m H) as Hd.
  unfold parseCookie in *. destruct (truthy raw) as [r|], (truthy (secrets p)) as [k|]; cbn in *;
    try by destruct life.
  destruct (_ ≫= _) as [x|]; by destruct life.
Qed.

(** One use of the session's own cookie by its own browser. *)
Lemma verify_own clock last raw now userAgent m : agrees clock (Some last) m -> clock <= now ->
  presented p0 raw = true -> hashUserAgent hmac_sha256 key userAgent = agent ->
  let alive := session_alive t0 last now in
  let r := verifyServerSession hmac_sha256 sha256 true p0 raw (secrets p0) now userAgent m in
  r.2 = (if alive then Some identity else None) /\ agrees now (if alive then Some now else None) r.1.
Proof.
  intros [H0 [Hl Hm]] Hc Hp%bool_decide_eq_true Ha. cbn zeta. unfold verifyServerSession.
  rewrite Hp, Hsecret. unfold truthy. rewrite decide_False by done. cbn.
  unfold getRecord, session_alive. destruct Hm as [(e & Hm & He)|[Hm Hpast]]; rewrite Hm; cycle 1.
  { rewrite (proj2 (Z.ltb_ge (now - t0) _)) by lia. split; [done|]. split; [lia|done]. }
  destruct (Z.leb_spec e now) as [Hen|Hen].
  { rewrite (proj2 (Z.ltb_ge (now - t0) _)) by lia. split; [done|]. split; [lia|apply lookup_delete_eq]. }
  unfold record_ok. cbn. rewrite bool_decide_false, Hagent, bool_decide_true by done. cbn.
  rewrite signaturesEqual_spec, Hagent, Ha, bool_decide_true by done. cbn.
  unfold within_timeouts. cbn. rewrite (proj2 (Z.leb_le t0 now)), (proj2 (Z.leb_le last now)) by lia. cbn.
  destruct (Z.ltb_spec (now - t0) SESSION_ABSOLUTE_TIMEOUT_MS) as [Hab|Hab]; cbn.
  2:{ split; [done|]. split; [lia|apply lookup_delete_eq]. }
  destruct (now - last <? SESSION_IDLE_TIMEOUT_MS); cbn.
  2:{ split; [done|]. split; [lia|apply lookup_delete_eq]. }
  unfold updateRecordIfPresent. rewrite Hm. rewrite (proj2 (Z.leb_gt e now)) by lia. cbn.
  split; [done|]. split; [lia|]. split; [lia|]. left.
  destruct (ceil_seconds_above (t0 + SESSION_ABSOLUTE_TIMEOUT_MS - now)) as [Hce Hpos].
  unfold expiry_of. rewrite (proj2 (Z.ltb_lt 0 _)) by (apply Hpos; lia).
  eexists. rewrite lookup_insert_eq. split; [done|]. lia.
Qed.
(** A use with another cookie, provider or browser. *)
Lemma verify_other clock life p raw now userAgent m : agrees clock life m -> clock <= now ->
  (forall last, life = Some last ->
     presented p raw && bool_decide (p = p0) && bool_decide (hashUserAgent hmac_sha256 key userAgent = agent)
     = false) ->
  agrees now life (session_step m (ses_verify p raw now userAgent)).
Proof.
  intros H Hc Hno. pose proof (agrees_later _ _ _ _ Hc H) as Hn. cbn. unfold verifyServerSession.
  destruct (parseCookie hmac_sha256 raw (secrets p) p) as [x|] eqn:Ex; [|done].
  destruct (truthy (secrets p)) as [k|] eqn:Ek; [|done]. cbn [negb].
  destruct (decide (x = sessionId)) as [->|Hx]; cycle 1.
  { eapply agrees_same; [|exact Hn]. pose proof (other_key x Hx) as Hk.
    pose proof (getRecord_other (sessionKey sha256 x) skey now m Hk) as Hg.
    destruct (getRecord _ now m) as [m1 [record|]]; [|exact Hg]. cbn in Hg.
    destruct (negb (record_ok record && _)); [exact Hg|].
    destruct (negb (signaturesEqual _ _)); [exact Hg|].
    destruct (negb (within_timeouts record now)); [cbn; by rewrite lookup_delete_ne|].
    destruct (updateRecordIfPresent _ _ _ now m1) as [m2 b] eqn:E2. cbn.
    by rewrite (updateRecord_other _ _ _ _ _ _ _ _ Hk E2). }
  unfold getRecord. destruct life as [last|]; [|destruct Hn as [Ht Hm]; rewrite Hm; by split].
  specialize (Hno last eq_refl). unfold presents in Hno. rewrite bool_decide_true in Hno by done. cbn in Hno.
  destruct Hn as [Ht [Hl [(e & Hm & He)|[Hm Hpast]]]]; rewrite Hm; [|split; [done|]; split; [done|]; right; by split].
  destruct (Z.leb_spec e now) as [Hen|Hen].
  { split; [done|]. split; [done|]. right. split; [apply lookup_delete_eq|lia]. }
  assert (Hsame : agrees now (Some last) m) by (split; [done|]; split; [done|]; left; by exists e).
  unfold record_ok. cbn. rewrite bool_decide_false, Hagent by done. cbn.
  destruct (decide (p0 = p)) as [<-|Hp]; [|rewrite bool_decide_false by done; exact Hsame].
  rewrite bool_decide_true in Hno by done. rewrite bool_decide_true by done. cbn in Hno |- *.
  rewrite Hsecret in Ek. unfold truthy in Ek. rewrite decide_False in Ek by done. injection Ek as <-.
  apply bool_decide_eq_false in Hno.
  rewrite signaturesEqual_spec, Hagent, (bool_decide_false (agent = _)) by (intros E; apply Hno; symmetry; exact E). exact Hsame.
Qed.
Lemma step_agrees clock life op m : agrees clock life m -> clock <= op_time clock op ->
  (forall p who c now ua x, op = ses_issue p who c now ua x -> x <> sessionId) ->
  agrees (op_time clock op) (lives life op) (session_step m op).
Proof.
  intros H Hc Hf. destruct op as [p who c now ua x|p raw now ua|p raw].
  - apply issue_agrees; [by eapply Hf|]. by eapply agrees_later.
  - cbn [op_time] in *. unfold life_step. destruct life as [last|].
    2:{ by apply (verify_other clock). }
    destruct (presented p raw && _ && _) eqn:E.
    + rewrite !andb_true_iff, !bool_decide_eq_true in E. destruct E as [[E1 ->] E2].
      by apply (verify_own clock last raw now ua m H Hc E1 E2).
    + apply (verify_other clock); [done|done|]. intros l [= <-]. exact E.
  - by apply invalidate_agrees.
Qed.
Lemma run_agrees ops : forall clock life m, agrees clock life m -> in_order clock ops ->
  Forall (fun op => forall p who c now ua x, op = ses_issue p who c now ua x -> x <> sessionId) ops ->
  agrees (last_time clock ops) (foldl lives life ops) (foldl session_step m ops).
Proof.
  induction ops as [|op ops IH]; intros clock life m H [] Hf; [done|]. apply Forall_cons in Hf as [Hop Hf].
  apply IH; [|done|done]. by apply step_agrees.
Qed.
Lemma cookie_presents : decoded_length sessionId = Some 32 ->
  presented p0 (Some (cat [sessionId; "."; session_hmac hmac_sha256 key p0 sessionId])%string) = true.
Proof.
  intros Hd. apply bool_decide_true. unfold parseCookie. rewrite Hsecret.
  assert (Hne : sessionId <> EmptyString) by (intros E; by rewrite E in Hd).
  assert (truthy (Some key) = Some key) as -> by (cbn; by rewrite decide_False).
  assert (Hraw : forall s, truthy (Some (sessionId ++ String "." s)%string) = Some (sessionId ++ String "." s)%string).
  { intros s. cbn. rewrite decide_False; [done|]. intros E. destruct sessionId; [by destruct Hne|discriminate E]. }
  unfold cat. cbn [foldr]. rewrite append_empty.
  change ("." ++ session_hmac hmac_sha256 key p0 sessionId)%string
    with (String "." (session_hmac hmac_sha256 key p0 sessionId)).
  rewrite Hraw. cbn. rewrite split_last_dot_app by apply hex64_no_dot, hmac_hex. cbn.
  rewrite bool_decide_false, bool_decide_true by done. cbn.
  rewrite signaturesEqual_spec. unfold session_hmac. by rewrite hmac_hex, bool_decide_true.
Qed.
End Life.

Lemma to_lower_nonempty s : s <> EmptyString -> to_lower s <> EmptyString.
Proof. by destruct s. Qed.

(** C8. A browser session refines its contract.  Take a session issued at [t0],
    and any later requests in the order of their times that issue other sessions,
    verify or invalidate any cookies.  Presenting its cookie from its browser
    yields the identity it was issued for exactly when the contract says it
    lives: no request invalidated it or logged in over it, less than twelve hours
    passed since [t0], and less than thirty minutes since its last use, at every
    use up to this one.  HMAC gives 64 hexadecimal digits, and no other
    identifier has the SHA-256 of this one. *)
Theorem session_lifetime hmac_sha256 sha256 secrets p0 key who existing t0 userAgent sessionId m0 m1
    cookie ops now :
  (forall k text, is_hex64 (hmac_sha256 k text) = true) ->
  (forall x, sha256 x = sha256 sessionId -> x = sessionId) ->
  secrets p0 = Some key -> decoded_length sessionId = Some 32 ->
  issueServerSession hmac_sha256 sha256 true p0 who (secrets p0) existing t0 userAgent sessionId m0
  = (m1, Ok (Some cookie)) ->
  Forall (fun op => forall p who c now ua x, op = ses_issue p who c now ua x -> x <> sessionId) ops ->
  in_order t0 ops -> last_time t0 ops <= now ->
  let life := foldl (life_step hmac_sha256 secrets sessionId p0 key
                       (hashUserAgent hmac_sha256 key userAgent) t0) (Some t0) ops in
  (verifyServerSession hmac_sha256 sha256 true p0 (Some cookie) (secrets p0) now userAgent
     (foldl (session_step hmac_sha256 sha256 secrets) m1 ops)).2
  = match life with
    | Some last =>
        if session_alive t0 last now
        then Some (match p0 with session_github => to_lower (trim who) | session_oidc => trim who end)
        else None
    | None => None
    end.
Proof.
  intros Hhex Hsha Hs Hd Hissue Hfresh Hord Hnow life.
  set (identity := match p0 with session_github => to_lower (trim who) | session_oidc => trim who end).
  unfold issueServerSession in Hissue.
  destruct (truthy (secrets p0)) as [key'|] eqn:Hk; [|done].
  assert (key' = key /\ key <> EmptyString) as [-> Hkey].
  { rewrite Hs in Hk. unfold truthy in Hk. case_decide; [done|]. by injection Hk as <-. }
  case_bool_decide as Hwho; [done|]. cbn [negb] in Hissue. assert (Hc : cookie = cat [sessionId; "."; session_hmac hmac_sha256 key p0 sessionId]%string).
  { symmetry. exact (f_equal (fun r => match r.2 with Ok (Some c) => c | _ => cookie end) Hissue). }
  assert (Hm1 := f_equal fst Hissue). cbn [fst] in Hm1. clear Hissue. subst cookie.
  assert (Hid : identity <> EmptyString) by (unfold identity; destruct p0; [by apply to_lower_nonempty|done]).
  pose proof (cookie_presents hmac_sha256 sha256 secrets Hhex sessionId p0 key Hs Hkey Hsha Hd) as Hp.
  assert (H1 : agrees sha256 sessionId identity p0 (hashUserAgent hmac_sha256 key userAgent) t0 t0 (Some t0) m1).
  { split; [lia|]. split; [lia|]. left. rewrite <- Hm1. unfold putRecord.
    rewrite lookup_insert_eq. by eexists. }
  assert (Hag : is_hex64 (hashUserAgent hmac_sha256 key userAgent) = true) by apply Hhex.
  pose proof (run_agrees hmac_sha256 sha256 secrets sessionId identity p0 key _ t0 Hs Hkey Hsha Hag Hid
                ops t0 (Some t0) m1 H1 Hord Hfresh) as H2.
  fold life in H2. destruct life as [last|].
  - apply (verify_own hmac_sha256 sha256 secrets sessionId identity p0 key _ t0 Hs Hkey Hag Hid
             _ last _ now userAgent _ H2 Hnow Hp eq_refl).
  - destruct H2 as [_ Hnone]. unfold verifyServerSession.
    apply bool_decide_eq_true in Hp. rewrite Hp, Hk. cbn [negb]. unfold getRecord. by rewrite Hnone.
Qed.

(** *** Using sessions changes no verdict of the same instant *)

Section Verdicts.
Context (hmac_sha256 : string -> string -> string) (sha256 : string -> string).
Definition session_verdict (p : ServerSessionProvider) (key userAgent : string) (now : Z)
    (entry : option (SessionRecord * option Z)) : option string :=
  match entry with
  | None => None
  | Some (record, e) =>
      if match e with Some e => e <=? now | None => false end then None
      else if negb (record_ok record && bool_decide (se_provider record = p)) then None
      else if negb (signaturesEqual (se_userAgentHash record) (hashUserAgent hmac_sha256 key userAgent)) then None
      else if negb (within_timeouts record now) then None
      else Some (se_identity record)
  end.
Lemma verify_verdict durable p raw secret now ua m :
  (verifyServerSession hmac_sha256 sha256 durable p raw secret now ua m).2
  = match parseCookie hmac_sha256 raw secret p, truthy secret with
    | Some x, Some key => if durable then session_verdict p key ua now (m !! sessionKey sha256 x) else None
    | _, _ => None
    end.
Proof.
  unfold verifyServerSession, session_verdict. destruct (parseCookie _ _ _ _) as [x|]; [|done].
  destruct (truthy secret) as [key|]; [|done]. destruct durable; [|done]. cbn [negb].
  unfold getRecord. destruct (m !! sessionKey sha256 x) as [[rec e]|] eqn:Em; [|done].
  destruct e as [e|]; [destruct (e <=? now) eqn:Ee; [done|]|].
  all: destruct (negb (record_ok rec && _)); [done|]; destruct (negb (signaturesEqual _ _)); [done|];
    destruct (negb (within_timeouts rec now)); [done|];
    unfold updateRecordIfPresent; rewrite Em, ?Ee; done.
Qed.
(** The record a successful use leaves. *)
Lemma verdict_touched p key ua now rec e rem : within_timeouts rec now = true ->
  match e with Some e => e <=? now | None => false end = false ->
  rem = ceil_seconds (se_createdAt rec + SESSION_ABSOLUTE_TIMEOUT_MS - now) ->
  session_verdict p key ua now (Some (mkSession (se_provider rec) (se_identity rec) (se_userAgentHash rec)
                                (se_createdAt rec) now, expiry_of (Some rem) now))
  = session_verdict p key ua now (Some (rec, e)).
Proof.
  intros Hw He ->. unfold session_verdict. rewrite He, Hw. unfold within_timeouts in Hw |- *.
  rewrite !andb_true_iff, !Z.leb_le, !Z.ltb_lt in Hw. destruct Hw as [[[H1 H2] H3] H4].
  unfold expiry_of. set (rem := ceil_seconds _).
  assert (0 < rem) by (unfold rem, ceil_seconds; Z.to_euclidean_division_equations; lia).
  rewrite (proj2 (Z.ltb_lt 0 rem)) by lia. rewrite (proj2 (Z.leb_gt _ now)) by lia.
  unfold record_ok. cbn. rewrite (proj2 (Z.leb_le (se_createdAt rec) now)), (Z.leb_refl now) by lia.
  rewrite (proj2 (Z.ltb_lt (now - se_createdAt rec) _)), (proj2 (Z.ltb_lt (now - now) _)) by
    (unfold SESSION_IDLE_TIMEOUT_MS; lia). done.
Qed.
Lemma verify_keeps_verdict durable p raw secret now ua m p' key' ua' k :
  session_verdict p' key' ua' now ((verifyServerSession hmac_sha256 sha256 durable p raw secret now ua m).1 !! k)
  = session_verdict p' key' ua' now (m !! k).
Proof.
  unfold verifyServerSession. destruct (parseCookie _ _ _ _) as [x|]; [|done].
  destruct (truthy secret) as [key|]; [|done]. destruct durable; [|done]. cbn [negb].
  destruct (decide (k = sessionKey sha256 x)) as [->|Hk].
  - unfold getRecord. destruct (m !! sessionKey sha256 x) as [[rec e]|] eqn:Em; [|cbn [fst]; by rewrite Em].
    destruct (match e with Some e => e <=? now | None => false end) eqn:Ee.
    { destruct e as [e|]; [|done]. rewrite Ee. cbn [fst]. rewrite lookup_delete_eq. cbn. by rewrite Ee. }
    assert ((match e with
             | Some e => if e <=? now then (delete (sessionKey sha256 x) m, None) else (m, Some rec)
             | None => (m, Some rec) end) = (m, Some rec)) as -> by (destruct e; [by rewrite Ee|done]).
    destruct (negb (record_ok rec && _)); [cbn [fst]; by rewrite Em|].
    destruct (negb (signaturesEqual _ _)); [cbn [fst]; by rewrite Em|].
    destruct (within_timeouts rec now) eqn:Ew; cbn [negb].
    + unfold updateRecordIfPresent. rewrite Em, Ee. cbn [fst]. rewrite lookup_insert_eq.
      by apply verdict_touched.
    + cbn. rewrite lookup_delete_eq. unfold session_verdict. rewrite Ee, Ew. by repeat case_match.
  - pose proof (getRecord_other (sessionKey sha256 x) k now m Hk) as Hg.
    destruct (getRecord _ now m) as [m1 [rec|]]; cbn [fst] in Hg; [|cbn [fst]; by rewrite Hg].
    destruct (negb (record_ok rec && _)); [cbn [fst]; by rewrite Hg|].
    destruct (negb (signaturesEqual _ _)); [cbn [fst]; by rewrite Hg|].
    destruct (negb (within_timeouts rec now)); [cbn; by rewrite lookup_delete_ne, Hg|].
    destruct (updateRecordIfPresent _ _ _ now m1) as [m2 b] eqn:E2. cbn.
    by rewrite (updateRecord_other _ _ _ _ _ _ _ _ Hk E2), Hg.
Qed.
(** So one verification does not change the answer of another one. *)
Lemma verify_after_verify durable p raw secret now ua m p' raw' secret' ua' :
  (verifyServerSession hmac_sha256 sha256 durable p' raw' secret' now ua'
     (verifyServerSession hmac_sha256 sha256 durable p raw secret now ua m).1).2
  = (verifyServerSession hmac_sha256 sha256 durable p' raw' secret' now ua' m).2.
Proof.
  rewrite !verify_verdict. destruct (parseCookie _ _ _ p'); [|done]. destruct (truthy secret'); [|done].
  destruct durable; [|done]. by rewrite verify_keeps_verdict.
Qed.
End Verdicts.

(** A concrete HMAC and digest for the witness. *)
Definition toy_session_hmac (k text : string) : string := String.string_of_list_ascii (repeat "a"%char 64).
Definition toy_session_id : string := String.string_of_list_ascii (repeat "A"%char 43).
Definition toy_secrets (p : ServerSessionProvider) : option string := Some "s"%string.
Definition toy_cookie : string := cat [toy_session_id; "."; toy_session_hmac "" ""].
Definition toy_session_ops : list SessionOp :=
  [ ses_verify session_github (Some toy_cookie) 1000 "ua"; ses_invalidate session_github (Some "x"%string);
    ses_verify session_github (Some toy_cookie) 1801000 "ua" ]%string.
Lemma session_lifetime_witness :
  let m1 := (issueServerSession toy_session_hmac (fun x => x) true session_github " Ada" (Some "s"%string) None 0
               "ua" toy_session_id ∅).1 in
  let verify ops now := (verifyServerSession toy_session_hmac (fun x => x) true session_github (Some toy_cookie)
    (Some "s"%string) now "ua" (foldl (session_step toy_session_hmac (fun x => x) toy_secrets) m1 ops)).2 in
  verify (take 1 toy_session_ops) 1800999 = Some "ada"%string /\ verify toy_session_ops 1801001 = None.
Proof.
  assert (Hf : forall ops, Forall (fun op => match op with ses_issue _ _ _ _ _ _ => False | _ => True end) ops ->
    Forall (fun op => forall p who c now ua x, op = ses_issue p who c now ua x -> x <> toy_session_id) ops).
  { intros ops H. eapply Forall_impl; [exact H|]. by intros []. }
  intros m1 verify.
  split.
  - refine (eq_trans (session_lifetime toy_session_hmac (fun x => x) toy_secrets session_github "s" " Ada" None 0 "ua"
              toy_session_id ∅ m1 toy_cookie (take 1 toy_session_ops) 1800999 _ _ _ _ _ (Hf _ _) _ _) _);
      try done; repeat constructor.
  - refine (eq_trans (session_lifetime toy_session_hmac (fun x => x) toy_secrets session_github "s" " Ada" None 0 "ua"
              toy_session_id ∅ m1 toy_cookie toy_session_ops 1801001 _ _ _ _ _ (Hf _ _) _ _) _);
      try done; repeat constructor.
Defined.
