(* ===== verification/Oidc.v ===== *)
(** External sign-in: [lib/auth/oidc.ts] with [oidc-discovery.ts], [oidc-jwks.ts],
    [oidc-token.ts], [oidc-role-mapping.ts] and [oidc-runtime.ts].

    The URL parser, base64url with JSON, key import and signature verification are
    parameters; random texts and the answers of the identity provider are
    arguments.  A login is one step: the source consumes the pending record before
    its first await, so interleaved callbacks find the same record once. *)

From S2P Require Import Prelude JsString JsValue CronParser WasmWalker AuditLog Tenancy RouteCatalog RoleStore.
From stdpp Require Import base list sets fin_sets gmap strings numbers sorting.
From Stdlib Require Import ZArith Lia Ascii.
#[local] Open Scope Z_scope.

(** ** Errors, discovery *)

(** The codes of [OidcError]; [internal_error] is any other exception. *)
Inductive OidcError : Type :=
  | discovery_invalid | discovery_unavailable | issuer_mismatch | unknown_kid | jwks_unavailable
  | malformed_token | alg_not_allowed | bad_signature | claims_invalid | audience_mismatch
  | token_expired_error | nonce_mismatch | state_mismatch | state_unknown | missing_code
  | token_exchange_failed | mapping_denied | internal_error.
Definition oidc_error_code (e : OidcError) : string :=
  match e with
  | discovery_invalid => "discovery_invalid" | discovery_unavailable => "discovery_unavailable"
  | issuer_mismatch => "issuer_mismatch" | unknown_kid => "unknown_kid"
  | jwks_unavailable => "jwks_unavailable" | malformed_token => "malformed_token"
  | alg_not_allowed => "alg_not_allowed" | bad_signature => "bad_signature"
  | claims_invalid => "claims_invalid" | audience_mismatch => "audience_mismatch"
  | token_expired_error => "token_expired" | nonce_mismatch => "nonce_mismatch"
  | state_mismatch => "state_mismatch" | state_unknown => "state_unknown"
  | missing_code => "missing_code" | token_exchange_failed => "token_exchange_failed"
  | mapping_denied => "mapping_denied" | internal_error => "internal_error"
  end.
Definition guard_oidc (ok : bool) (e : OidcError) : result OidcError unit := if ok then Ok tt else Err e.

Record OidcDiscovery : Type := mkDiscovery
  { di_issuer : string; di_authorization_endpoint : string; di_token_endpoint : string; di_jwks_uri : string }.
Section Discovery.
(** [new URL(value).protocol], [None] where it throws. *)
Context (url_protocol : string -> option string).
Definition requireHttps (value : option json) : result OidcError string :=
  match value with
  | Some (JStr s) =>
      match url_protocol s with
      | Some protocol => if bool_decide (protocol = "https:"%string) then Ok s else Err discovery_invalid
      | None => Err discovery_invalid
      end
  | _ => Err discovery_invalid
  end.
Definition json_is_object (v : json) : bool :=
  match v with JObj _ | JArr _ => true | _ => false end.
Definition validateDiscovery (pinnedIssuer : string) (document : json) : result OidcError OidcDiscovery :=
  _ ← guard_oidc (json_is_object document) discovery_invalid;
  let doc := object_fields document in
  _ ← guard_oidc (bool_decide (prop "issuer" doc = Some (JStr pinnedIssuer))) issuer_mismatch;
  _ ← guard_oidc (match prop "code_challenge_methods_supported" doc with
                  | Some (JArr methods) => bool_decide (JStr "S256" ∈ methods)
                  | _ => true
                  end) discovery_invalid;
  authorization ← requireHttps (prop "authorization_endpoint" doc);
  token ← requireHttps (prop "token_endpoint" doc);
  jwks ← requireHttps (prop "jwks_uri" doc);
  Ok (mkDiscovery pinnedIssuer authorization token jwks).
End Discovery.

(** ** Signing keys *)

Record Jwk : Type := mkJwk
  { jwk_kid : option string; jwk_kty : string; jwk_alg : option string; jwk_use : option string;
    jwk_crv : option string }.
Record JwksCache : Type := mkJwks { jc_keys : gmap string Jwk; jc_lastRefresh : option Z }.
Definition empty_jwks : JwksCache := mkJwks ∅ None.
Definition MIN_REFRESH_INTERVAL_MS : Z := 30000.
Inductive JwksAnswer : Type := jwks_body (keys : list Jwk) | jwks_not_ok | jwks_throws.

Section Jwks.
(** Whether [createPublicKey] accepts the key. *)
Context (importable : Jwk -> bool).
Definition load_key (next : gmap string Jwk) (jwk : Jwk) : gmap string Jwk :=
  match truthy (jwk_kid jwk) with
  | None => next
  | Some kid =>
      if match truthy (jwk_use jwk) with Some u => negb (bool_decide (u = "sig"%string)) | None => false end
      then next
      else if bool_decide (jwk_kty jwk = "oct"%string) then next
      else if importable jwk then <[kid := jwk]> next else next
  end.
Definition load_jwks (answer : JwksAnswer) (now : Z) (c : JwksCache) : JwksCache * result OidcError unit :=
  match answer with
  | jwks_body keys => (mkJwks (foldl load_key ∅ keys) (Some now), Ok tt)
  | jwks_not_ok => (mkJwks (jc_keys c) (Some now), Err jwks_unavailable)
  | jwks_throws => (mkJwks (jc_keys c) (Some now), Err internal_error)
  end.
Definition getKey (kid : string) (answer : JwksAnswer) (now : Z) (c : JwksCache)
  : JwksCache * result OidcError Jwk :=
  match jc_keys c !! kid with
  | Some jwk => (c, Ok jwk)
  | None =>
      if match jc_lastRefresh c with Some t => MIN_REFRESH_INTERVAL_MS <=? now - t | None => true end
      then let '(c', loaded) := load_jwks answer now c in
           (c', match loaded with
                | Err e => Err e
                | Ok _ => match jc_keys c' !! kid with Some jwk => Ok jwk | None => Err unknown_kid end
                end)
      else (c, Err unknown_kid)
  end.
End Jwks.

(** ** ID tokens *)

Inductive IdTokenAlg : Type := RS256 | RS384 | RS512 | PS256 | PS384 | PS512 | ES256 | ES384 | EdDSA.
Definition ALLOWED_ID_TOKEN_ALGS : list (string * IdTokenAlg) :=
  [("RS256", RS256); ("RS384", RS384); ("RS512", RS512); ("PS256", PS256); ("PS384", PS384);
   ("PS512", PS512); ("ES256", ES256); ("ES384", ES384); ("EdDSA", EdDSA)]%string.
Definition KEY_TYPE_FOR_ALG (alg : IdTokenAlg) : string * option string :=
  match alg with
  | RS256 | RS384 | RS512 | PS256 | PS384 | PS512 => ("RSA", None)
  | ES256 => ("EC", Some "P-256") | ES384 => ("EC", Some "P-384") | EdDSA => ("OKP", Some "Ed25519")
  end%string.
Definition DEFAULT_CLOCK_SKEW_SECONDS : Z := 60.
Record IdTokenExpectations : Type := mkExpect
  { ex_issuer : string; ex_clientId : string; ex_nonce : string; ex_clockSkewSeconds : Z; ex_now : Z }.
(** A number of a claim, as a fraction. *)
Definition claim_number (v : option json) : option (Z * Z) :=
  match v with Some (JNum n) => Some (n, 1) | Some (JFrac n d) => Some (n, Zpos d) | _ => None end.
Definition key_fits (alg : IdTokenAlg) (jwk : Jwk) (name : string) : bool :=
  bool_decide (jwk_kty jwk = (KEY_TYPE_FOR_ALG alg).1) &&
  match (KEY_TYPE_FOR_ALG alg).2 with Some crv => bool_decide (jwk_crv jwk = Some crv) | None => true end &&
  match jwk_alg jwk with Some a => bool_decide (a = name) | None => true end.
Definition claim_audiences (claims : fields) : list (option json) :=
  match prop "aud" claims with Some (JArr l) => Some <$> l | v => [v] end.
Definition check_claims (claims : fields) (expected : IdTokenExpectations) : result OidcError unit :=
  let skew := ex_clockSkewSeconds expected in
  let now := ex_now expected in
  let audiences := claim_audiences claims in
  let client := Some (JStr (ex_clientId expected)) in
  _ ← guard_oidc (bool_decide (prop "iss" claims = Some (JStr (ex_issuer expected)))) issuer_mismatch;
  _ ← guard_oidc (match prop "sub" claims with
                  | Some (JStr s) => negb (bool_decide (s = EmptyString)) | _ => false end) claims_invalid;
  _ ← guard_oidc (bool_decide (client ∈ audiences)) audience_mismatch;
  _ ← guard_oidc (negb (1 <? Z.of_nat (length audiences)) || bool_decide (prop "azp" claims <> None))
        audience_mismatch;
  _ ← guard_oidc (match prop "azp" claims with Some a => bool_decide (Some a = client) | None => true end)
        audience_mismatch;
  match claim_number (prop "exp" claims), claim_number (prop "iat" claims) with
  | Some (en, ed), Some (im, id_) =>
      _ ← guard_oidc (negb (en <=? (now - skew) * ed)) token_expired_error;
      _ ← guard_oidc (negb ((now + skew) * id_ <? im)) claims_invalid;
      _ ← guard_oidc (match claim_number (prop "nbf" claims) with
                      | Some (n, d) => negb ((now + skew) * d <? n) | None => true end) claims_invalid;
      guard_oidc (bool_decide (prop "nonce" claims = Some (JStr (ex_nonce expected)))) nonce_mismatch
  | _, _ => Err claims_invalid
  end.

Section IdToken.
Context (importable : Jwk -> bool).
(** A segment decoded as base64url and parsed; [None] where it is not JSON. *)
Context (decode_segment : string -> option json).
(** [verify] of the algorithm, over the signing input and the encoded signature. *)
Context (verifySignature : IdTokenAlg -> Jwk -> string -> string -> bool).
(** Property reads of a decoded value throw on [null]. *)
Definition decoded_fields (segment : string) : result OidcError fields :=
  match decode_segment segment with
  | None => Err malformed_token
  | Some JNull => Err internal_error
  | Some v => Ok (object_fields v)
  end.
Definition validateIdToken (idToken : string) (answer : JwksAnswer) (nowMs : Z) (c : JwksCache)
    (expected : IdTokenExpectations) : JwksCache * result OidcError fields :=
  match split_on "." idToken with
  | [encodedHeader; encodedPayload; encodedSignature] =>
      match decoded_fields encodedHeader with
      | Err e => (c, Err e)
      | Ok header =>
          match match prop "alg" header with
                | Some (JStr a) => List.find (fun p => bool_decide (p.1 = a)) ALLOWED_ID_TOKEN_ALGS
                | _ => None end with
          | None => (c, Err alg_not_allowed)
          | Some (name, alg) =>
              match prop "crit" header with
              | Some _ => (c, Err alg_not_allowed)
              | None =>
                  match truthy (match prop "kid" header with Some (JStr k) => Some k | _ => None end) with
                  | None => (c, Err unknown_kid)
                  | Some kid =>
                      let '(c', found) := getKey importable kid answer nowMs c in
                      (c', jwk ← found;
                           _ ← guard_oidc (key_fits alg jwk name) alg_not_allowed;
                           _ ← guard_oidc (verifySignature alg jwk (cat [encodedHeader; "."; encodedPayload])
                                             encodedSignature) bad_signature;
                           claims ← decoded_fields encodedPayload;
                           _ ← check_claims claims expected; Ok claims)
                  end
              end
          end
      end
  | _ => (c, Err malformed_token)
  end.
End IdToken.

(** ** Roles from claims *)

Record RoleMapping : Type := mkMapping
  { rm_claim : string; rm_rules : list (string * UserRole); rm_requireVerifiedEmail : bool }.
Inductive RoleMappingResult : Type :=
  | mapping_allowed (role : UserRole) (matched : list string) | mapping_refused (reason : string).
Definition RANK (role : UserRole) : Z := match role with analyst => 1 | maintainer => 2 end.
Definition claim_values (raw : option json) : list string :=
  match raw with
  | Some (JArr l) => omap (fun v => match v with JStr s => Some s | _ => None end) l
  | Some (JStr s) => [s]
  | _ => []
  end.
Definition mapClaimsToRole (claims : fields) (mapping : RoleMapping) : RoleMappingResult :=
  if rm_requireVerifiedEmail mapping && negb (bool_decide (prop "email_verified" claims = Some (JBool true)))
  then mapping_refused "email is not verified"
  else
    let values := claim_values (prop (rm_claim mapping) claims) in
    match List.filter (fun rule => bool_decide (rule.1 ∈ values)) (rm_rules mapping) with
    | [] => mapping_refused (cat ["no mapping rule matches claim "; dq; rm_claim mapping; dq])
    | matched =>
        mapping_allowed
          (foldl (fun best rule => if RANK best <? RANK rule.2 then rule.2 else best) analyst matched)
          (fst <$> matched)
    end.

(** ** The client *)

Record OidcConfig : Type := mkOidcConfig
  { oc_issuer : string; oc_clientId : string; oc_clockSkewSeconds : Z; oc_roleMapping : RoleMapping }.
Definition PENDING_LOGIN_TTL_MS : Z := 10 * 60000.
Record PendingLogin : Type := mkPending { pl_nonce : string; pl_verifier : string; pl_expiresAt : Z }.
Record OidcState : Type := mkOidcState
  { os_pending : gmap string PendingLogin; os_jwks : JwksCache; os_roles : RoleState;
    os_audit : list AuditEntryInput }.
Definition with_jwks (c : JwksCache) (s : OidcState) : OidcState :=
  mkOidcState (os_pending s) c (os_roles s) (os_audit s).
Definition audited (entry : AuditEntryInput) (s : OidcState) : OidcState :=
  mkOidcState (os_pending s) (os_jwks s) (os_roles s) (os_audit s ++ [entry]).
Definition sweep_pending (now : Z) (m : gmap string PendingLogin) : gmap string PendingLogin :=
  filter (fun kp => now < pl_expiresAt kp.2) m.
(** [discovery] is what [getDiscovery] answered. *)
Definition oidc_start (now : Z) (discovery : result OidcError OidcDiscovery) (loginState nonce verifier : string)
    (s : OidcState) : OidcState * result OidcError (OidcDiscovery * string) :=
  match discovery with
  | Err e => (s, Err e)
  | Ok d =>
      (mkOidcState (<[loginState := mkPending nonce verifier (now + PENDING_LOGIN_TTL_MS)]>
                      (sweep_pending now (os_pending s))) (os_jwks s) (os_roles s) (os_audit s), Ok (d, loginState))
  end.

(** [Buffer.from(sub, 'utf8').toString('hex')]; the strings hold their UTF-8 bytes. *)
Fixpoint hex_text (s : string) : string :=
  match s with
  | EmptyString => EmptyString
  | String c s' => String (hex_digit (code c / 16)) (String (hex_digit (code c mod 16)) (hex_text s'))
  end.
Definition oidcIdentity (issuer sub : string) : string := cat [issuer; "#"; hex_text sub].
Definition claim_text (v : option json) : string := match v with Some (JStr s) => s | _ => EmptyString end.
Definition SYSTEM_GRANTOR : string := "oidc-role-mapping".
(** The [grantRole] of [oidc-runtime.ts]. *)
Definition grantRole (maxEntries : Z) (identity : string) (role : UserRole) (now : Z)
    (roleId logId : string) (st : RoleState) : RoleState * option UserRole :=
  let previous := ra_role <$> getRoleAssignment identity_oidc identity st in
  (if bool_decide (previous = Some role) then st
   else (assignRole maxEntries identity_oidc identity role (Some SYSTEM_GRANTOR) now roleId logId st).1,
   previous).
Definition role_name (role : UserRole) : string :=
  match role with analyst => "analyst" | maintainer => "maintainer" end.
Definition role_json (role : option UserRole) : json :=
  match role with Some r' => JStr (role_name r') | None => JNull end.

(** The token endpoint's answer: its [id_token], or why there is none. *)
Inductive TokenAnswer : Type := token_body (id_token : option json) | token_not_ok | token_unreachable.
Record OidcLoginSuccess : Type := mkLogin { lg_identity : string; lg_role : UserRole; lg_claims : fields }.
(** One callback and what the provider answers to it. *)
Record Callback : Type := mkCallback
  { cb_code : option string; cb_state : option string; cb_cookieState : option string; cb_now : Z;
    cb_discovery : result OidcError OidcDiscovery; cb_token : TokenAnswer; cb_jwks : JwksAnswer;
    cb_roleId : string; cb_logId : string }.

Section Client.
Context (importable : Jwk -> bool) (decode_segment : string -> option json).
Context (verifySignature : IdTokenAlg -> Jwk -> string -> string -> bool).
Context (config : OidcConfig) (maxEntries : Z).

Definition token_of (answer : TokenAnswer) : result OidcError string :=
  match answer with
  | token_body (Some (JStr t)) => Ok t
  | token_body _ | token_not_ok => Err token_exchange_failed
  | token_unreachable => Err internal_error
  end.
(** After the pending login was consumed. *)
Definition finish_login (cb : Callback) (pending : PendingLogin) (s : OidcState)
  : OidcState * result OidcError OidcLoginSuccess :=
  match cb_discovery cb, token_of (cb_token cb) with
  | Err e, _ | _, Err e => (s, Err e)
  | Ok _, Ok idToken =>
      let expected := mkExpect (oc_issuer config) (oc_clientId config) (pl_nonce pending)
                        (oc_clockSkewSeconds config) (cb_now cb / 1000) in
      let '(c, checked) := validateIdToken importable decode_segment verifySignature idToken
                             (cb_jwks cb) (cb_now cb) (os_jwks s) expected in
      let s1 := with_jwks c s in
      match checked with
      | Err e => (s1, Err e)
      | Ok claims =>
          let identity := oidcIdentity (claim_text (prop "iss" claims)) (claim_text (prop "sub" claims)) in
          match mapClaimsToRole claims (oc_roleMapping config) with
          | mapping_refused _ => (s1, Err mapping_denied)
          | mapping_allowed role matched =>
              let '(roles, previous) := grantRole maxEntries identity role (cb_now cb) (cb_roleId cb)
                                          (cb_logId cb) (os_roles s1) in
              let s2 := mkOidcState (os_pending s1) (os_jwks s1) roles (os_audit s1) in
              let s3 := if bool_decide (previous = Some role) then s2
                        else audited (mkEntryInput auth_role_grant identity (Some SYSTEM_GRANTOR)
                               (Some [("previousRole", role_json previous); ("role", JStr (role_name role));
                                      ("matched", JArr (JStr <$> matched))]%string) None) s2 in
              (audited (mkEntryInput auth_login (cat ["oidc:"; oc_issuer config]) (Some identity)
                          (Some [("role", JStr (role_name role))]%string) None) s3,
               Ok (mkLogin identity role claims))
          end
      end
  end.
Definition completeUnaudited (cb : Callback) (s : OidcState) : OidcState * result OidcError OidcLoginSuccess :=
  match truthy (cb_state cb), truthy (cb_cookieState cb) with
  | Some st, Some cookie =>
      if negb (bool_decide (st = cookie)) then (s, Err state_mismatch)
      else
        let pending := os_pending s !! st in
        let s1 := mkOidcState (delete st (os_pending s)) (os_jwks s) (os_roles s) (os_audit s) in
        match pending with
        | None => (s1, Err state_unknown)
        | Some p =>
            if pl_expiresAt p <=? cb_now cb then (s1, Err state_unknown)
            else match truthy (cb_code cb) with
                 | None => (s1, Err missing_code)
                 | Some _ => finish_login cb p s1
                 end
        end
  | _, _ => (s, Err state_mismatch)
  end.
Definition complete (cb : Callback) (s : OidcState) : OidcState * result OidcError OidcLoginSuccess :=
  match completeUnaudited cb s with
  | (s', Ok login) => (s', Ok login)
  | (s', Err e) =>
      (audited (mkEntryInput auth_login_denied (cat ["oidc:"; oc_issuer config]) None
                  (Some [("reason", JStr (oidc_error_code e))]%string) None) s', Err e)
  end.
End Client.

(** ** A login is what its checks say *)

Lemma guard_oidc_Ok ok e u : guard_oidc ok e = Ok u -> ok = true.
Proof. by destruct ok. Qed.
Ltac oidc_inv H :=
  repeat match type of H with
  | (guard_oidc _ _ ≫= _) = Ok _ =>
      let u := fresh "u" in let G := fresh "G" in
      apply bind_Ok in H as (u & G%guard_oidc_Ok & H)
  end.

(** What [check_claims] has verified of a token's claims. *)
Record claims_good (claims : fields) (expected : IdTokenExpectations) : Prop := mkGood
  { cg_iss : prop "iss" claims = Some (JStr (ex_issuer expected));
    cg_sub : exists s, prop "sub" claims = Some (JStr s) /\ s <> EmptyString;
    cg_aud : Some (JStr (ex_clientId expected)) ∈ claim_audiences claims;
    cg_azp : forall a, prop "azp" claims = Some a -> a = JStr (ex_clientId expected);
    cg_exp : exists n d, claim_number (prop "exp" claims) = Some (n, d) /\
             (ex_now expected - ex_clockSkewSeconds expected) * d < n;
    cg_iat : exists n d, claim_number (prop "iat" claims) = Some (n, d) /\
             n <= (ex_now expected + ex_clockSkewSeconds expected) * d;
    cg_nonce : prop "nonce" claims = Some (JStr (ex_nonce expected)) }.
Lemma check_claims_good claims expected u : check_claims claims expected = Ok u -> claims_good claims expected.
Proof.
  unfold check_claims. intros H. oidc_inv H.
  destruct (claim_number (prop "exp" claims)) as [[en ed]|] eqn:Ee; [|done].
  destruct (claim_number (prop "iat" claims)) as [[im id_]|] eqn:Ei; [|done].
  oidc_inv H. apply guard_oidc_Ok in H.
  split.
  - by eapply bool_decide_eq_true.
  - destruct (prop "sub" claims) as [[]|]; try done. eexists. split; [done|].
    by apply negb_true_iff, bool_decide_eq_false in G0.
  - by eapply bool_decide_eq_true.
  - intros a Ha. rewrite Ha in G3. apply bool_decide_eq_true in G3. by injection G3.
  - exists en, ed. split; [done|]. by apply negb_true_iff, Z.leb_gt in G4.
  - exists im, id_. split; [done|]. by apply negb_true_iff, Z.ltb_ge in G5.
  - by apply bool_decide_eq_true in H.
Qed.

(** The highest role of the matching rules. *)
Definition top_role (mapping : RoleMapping) (claims : fields) (role : UserRole) : Prop :=
  (exists rule, rule ∈ rm_rules mapping /\ rule.1 ∈ claim_values (prop (rm_claim mapping) claims) /\
                rule.2 = role) /\
  (forall rule, rule ∈ rm_rules mapping -> rule.1 ∈ claim_values (prop (rm_claim mapping) claims) ->
                RANK rule.2 <= RANK role) /\
  (rm_requireVerifiedEmail mapping = true -> prop "email_verified" claims = Some (JBool true)).
Lemma best_role (l : list (string * UserRole)) : forall best,
  let role := foldl (fun best rule => if RANK best <? RANK rule.2 then rule.2 else best) best l in
  (role = best \/ exists rule, rule ∈ l /\ rule.2 = role) /\ RANK best <= RANK role /\
  (forall rule, rule ∈ l -> RANK rule.2 <= RANK role).
Proof.
  induction l as [|x l IH]; intros best; cbn.
  - split_and!; [by left|lia|by intros ? ?%not_elem_of_nil].
  - destruct (IH (if RANK best <? RANK x.2 then x.2 else best)) as (H1 & H2 & H3).
    split_and!.
    + destruct H1 as [->|(y & Hy & Hr)]; [|right; exists y; set_solver].
      destruct (RANK best <? RANK x.2); [right; exists x; set_solver|by left].
    + destruct (Z.ltb_spec (RANK best) (RANK x.2)); lia.
    + intros y [->|Hy]%elem_of_cons; [|by apply H3].
      destruct (Z.ltb_spec (RANK best) (RANK x.2)); lia.
Qed.
Lemma elem_of_List_filter {A} (f : A -> bool) x l : x ∈ List.filter f l <-> x ∈ l /\ f x = true.
Proof. rewrite !list_elem_of_In. apply List.filter_In. Qed.
Lemma mapClaims_top claims mapping role matched :
  mapClaimsToRole claims mapping = mapping_allowed role matched -> top_role mapping claims role.
Proof.
  unfold mapClaimsToRole. destruct (rm_requireVerifiedEmail mapping && _) eqn:Ev; [done|].
  set (values := claim_values _).
  destruct (List.filter (fun rule => bool_decide (rule.1 ∈ values)) (rm_rules mapping)) as [|x l] eqn:El; [done|].
  rewrite <- El. intros [= Hrole _].
  assert (Hin : forall y, y ∈ List.filter (fun rule => bool_decide (rule.1 ∈ values)) (rm_rules mapping) <->
                          y ∈ rm_rules mapping /\ y.1 ∈ values).
  { intros y. by rewrite elem_of_List_filter, bool_decide_eq_true. }
  pose proof (best_role (List.filter (fun rule => bool_decide (rule.1 ∈ values)) (rm_rules mapping)) analyst)
    as (H1 & _ & H3). cbn zeta in *. rewrite Hrole in H1, H3. split_and!.
  - destruct H1 as [->|(y & Hy & Hr)].
    + assert (Hx : x ∈ x :: l) by left. rewrite <- El in Hx.
      exists x. split_and!; [by apply Hin..|]. specialize (H3 x Hx). by destruct x.2.
    + exists y. split_and!; [by apply Hin..|done].
  - intros y Hy Hv. apply H3. by apply Hin.
  - intros Hq. rewrite Hq in Ev. cbn in Ev. by apply negb_false_iff, bool_decide_eq_true in Ev.
Qed.

Section Sound.
Context (importable : Jwk -> bool) (decode_segment : string -> option json).
Context (verifySignature : IdTokenAlg -> Jwk -> string -> string -> bool).
Context (config : OidcConfig) (maxEntries : Z).
Notation complete_login := (complete importable decode_segment verifySignature config maxEntries).

(** The token carries these claims under a signature that verifies with a key of
    the set, of the kind its algorithm needs. *)
Definition signed_claims (idToken : string) (c : JwksCache) (claims : fields) : Prop :=
  exists header payload signature name alg jwk v,
    split_on "." idToken = [header; payload; signature] /\
    (name, alg) ∈ ALLOWED_ID_TOKEN_ALGS /\ (exists kid, jc_keys c !! kid = Some jwk) /\
    key_fits alg jwk name = true /\
    verifySignature alg jwk (cat [header; "."; payload]) signature = true /\
    decode_segment payload = Some v /\ claims = object_fields v.
Lemma getKey_found kid answer now c c' jwk : getKey importable kid answer now c = (c', Ok jwk) ->
  jc_keys c' !! kid = Some jwk.
Proof.
  unfold getKey. destruct (jc_keys c !! kid) as [j|] eqn:E; [by intros [= <- <-]|].
  destruct (match jc_lastRefresh c with Some t => _ | None => _ end); [|done].
  destruct (load_jwks importable answer now c) as [c'' [u|e]]; [|done].
  destruct (jc_keys c'' !! kid) as [j|] eqn:E'; [|done]. by intros [= <- <-].
Qed.
Lemma validateIdToken_good idToken answer now c expected c' claims :
  validateIdToken importable decode_segment verifySignature idToken answer now c expected = (c', Ok claims) ->
  signed_claims idToken c' claims /\ claims_good claims expected.
Proof.
  unfold validateIdToken.
  destruct (split_on "." idToken) as [|header [|payload [|signature []]]] eqn:Es; try done.
  destruct (decoded_fields decode_segment header) as [h|]; [|done].
  destruct (match prop "alg" h with Some (JStr _) => _ | _ => None end) as [[name alg]|] eqn:Ea; [|done].
  destruct (prop "crit" h); [done|].
  destruct (truthy _) as [kid|]; [|done].
  destruct (getKey importable kid answer now c) as [c1 found] eqn:Eg. intros [= -> H].
  apply bind_Ok in H as (jwk & -> & H). oidc_inv H.
  apply bind_Ok in H as (cl & Hd & H). apply bind_Ok in H as (w & Hc & [= ->]).
  split; [|by eapply check_claims_good].
  unfold decoded_fields in Hd. destruct (decode_segment payload) as [v|] eqn:Ev; [|done].
  exists header, payload, signature, name, alg, jwk, v. split_and!; try done.
  - destruct (prop "alg" h) as [[]|]; try done. apply List.find_some in Ea as [Ea _].
    by apply list_elem_of_In.
  - exists kid. by eapply getKey_found.
  - by destruct v; simplify_eq/=.
Qed.
Lemma grantRole_grants identity role now roleId logId st st' previous :
  grantRole maxEntries identity role now roleId logId st = (st', previous) ->
  ra_role <$> getRoleAssignment identity_oidc identity st' = Some role.
Proof.
  unfold grantRole. intros [= <- _].
  case_bool_decide as E; [done|]. unfold assignRole, getRoleAssignment.
  destruct (rs_records st !! _) as [[ex|]|]; cbn; by rewrite lookup_insert_eq.
Qed.

Lemma finish_pending cb p s :
  os_pending (finish_login importable decode_segment verifySignature config maxEntries cb p s).1 = os_pending s.
Proof.
  unfold finish_login. destruct (cb_discovery cb), (token_of (cb_token cb)); try done.
  destruct (validateIdToken _ _ _ _ _ _ _ _) as [c [claims|]]; [|done].
  destruct (mapClaimsToRole _ _); [|done]. destruct (grantRole _ _ _ _ _ _ _). by case_bool_decide.
Qed.
Lemma grantRole_role_at identity role now roleId logId st k :
  let st' := (grantRole maxEntries identity role now roleId logId st).1 in
  role_at st' k = role_at st k \/ role_at st' k = Some role.
Proof.
  unfold grantRole. cbn [fst]. case_bool_decide; [by left|].
  destruct (decide (k = roleRecordKey identity_oidc identity)) as [->|Hk].
  - right. unfold assignRole, role_at. destruct (rs_records st !! _) as [[ex|]|]; cbn; by rewrite lookup_insert_eq.
  - left. unfold assignRole, role_at.
    destruct (rs_records st !! roleRecordKey _ _) as [[ex|]|]; cbn; by rewrite lookup_insert_ne.
Qed.
(** A callback gives no identity a role that no rule of the mapping gives. *)
Lemma complete_role_at cb s k :
  let s' := (complete_login cb s).1 in
  role_at (os_roles s') k = role_at (os_roles s) k \/
  exists rule, rule ∈ rm_rules (oc_roleMapping config) /\ role_at (os_roles s') k = Some rule.2.
Proof.
  assert (Hf : forall p s0, os_roles s0 = os_roles s ->
    let s' := (finish_login importable decode_segment verifySignature config maxEntries cb p s0).1 in
    role_at (os_roles s') k = role_at (os_roles s) k \/
    exists rule, rule ∈ rm_rules (oc_roleMapping config) /\ role_at (os_roles s') k = Some rule.2).
  { intros p s0 Hs0. unfold finish_login. rewrite <- Hs0.
    destruct (cb_discovery cb), (token_of (cb_token cb)); try by left.
    destruct (validateIdToken _ _ _ _ _ _ _ _) as [c [claims|]]; [|by left].
    destruct (mapClaimsToRole claims _) as [role matched|] eqn:Em; [|by left].
    destruct (grantRole _ _ _ _ _ _ _) as [roles previous] eqn:Eg.
    apply mapClaims_top in Em as ((rule & Hr & _ & <-) & _).
    assert (Hg := f_equal fst Eg). cbn [fst] in Hg.
    assert (role_at roles k = role_at (os_roles s0) k \/ role_at roles k = Some rule.2) as [H|H].
    { rewrite <- Hg. apply grantRole_role_at. }
    - left. by case_bool_decide.
    - right. exists rule. split; [done|]. by case_bool_decide. }
  unfold complete.
  assert (Hu : let s' := (completeUnaudited importable decode_segment verifySignature config maxEntries cb s).1 in
    role_at (os_roles s') k = role_at (os_roles s) k \/
    exists rule, rule ∈ rm_rules (oc_roleMapping config) /\ role_at (os_roles s') k = Some rule.2).
  { unfold completeUnaudited. destruct (truthy _) as [st|]; [|by left]. destruct (truthy _) as [ck|]; [|by left].
    case_bool_decide; [|by left]. cbn [negb].
    destruct (os_pending s !! st) as [p|]; [|by left]. destruct (pl_expiresAt p <=? cb_now cb); [by left|].
    destruct (truthy _); [by apply Hf|by left]. }
  by destruct (completeUnaudited _ _ _ _ _ cb s) as [s' [l|e]].
Qed.
(** A success went through its own pending login, which it consumed. *)
Lemma complete_consumes cb s s' login : complete_login cb s = (s', Ok login) ->
  exists st p,
    cb_state cb = Some st /\ cb_cookieState cb = Some st /\ os_pending s !! st = Some p /\
    cb_now cb < pl_expiresAt p /\ os_pending s' !! st = None /\
    finish_login importable decode_segment verifySignature config maxEntries cb p
      (mkOidcState (delete st (os_pending s)) (os_jwks s) (os_roles s) (os_audit s)) = (s', Ok login).
Proof.
  unfold complete. destruct (completeUnaudited _ _ _ _ _ cb s) as [s1 [lg|e]] eqn:E; [|done].
  intros [= -> ->]. unfold completeUnaudited in E.
  destruct (truthy (cb_state cb)) as [st|] eqn:E1; [|done].
  destruct (truthy (cb_cookieState cb)) as [ck|] eqn:E2; [|done].
  assert (Ht : forall v x, truthy v = Some x -> v = Some x).
  { unfold truthy. intros [v|] x H; [|done]. destruct (decide (v = EmptyString)); [done|exact H]. }
  apply Ht in E1, E2. case_bool_decide as Ec; [|done]. subst ck. cbn [negb] in E.
  destruct (os_pending s !! st) as [p|] eqn:Ep; [|done].
  destruct (Z.leb_spec (pl_expiresAt p) (cb_now cb)) as [|Hexp]; [done|].
  destruct (truthy (cb_code cb)); [|done].
  exists st, p. split_and!; try done.
  pose proof (finish_pending cb p (mkOidcState (delete st (os_pending s)) (os_jwks s) (os_roles s) (os_audit s))) as Hf.
  rewrite E in Hf. cbn in Hf. rewrite Hf. apply lookup_delete_eq.
Qed.

(** C20. A login that succeeds was proved.  The callback returned the state of its
    own browser, this state named a pending login not yet expired, which is gone
    afterwards; the token is signed by a key of the provider's set that fits its
    algorithm, names the pinned issuer and this client, is in its time window
    and carries this login's nonce; the role is the highest one of the mapping's
    rules that match its claims, and the role store holds it for the identity. *)
Theorem login_sound cb s s' login :
  complete_login cb s = (s', Ok login) ->
  exists st pending,
    cb_state cb = Some st /\ cb_cookieState cb = Some st /\
    os_pending s !! st = Some pending /\ cb_now cb < pl_expiresAt pending /\ os_pending s' !! st = None /\
    (exists idToken, token_of (cb_token cb) = Ok idToken /\ signed_claims idToken (os_jwks s') (lg_claims login)) /\
    claims_good (lg_claims login)
      (mkExpect (oc_issuer config) (oc_clientId config) (pl_nonce pending) (oc_clockSkewSeconds config)
         (cb_now cb / 1000)) /\
    top_role (oc_roleMapping config) (lg_claims login) (lg_role login) /\
    (exists sub, prop "sub" (lg_claims login) = Some (JStr sub) /\
       lg_identity login = oidcIdentity (oc_issuer config) sub) /\
    ra_role <$> getRoleAssignment identity_oidc (lg_identity login) (os_roles s') = Some (lg_role login).
Proof.
  intros H. destruct (complete_consumes _ _ _ _ H) as (st & p & E1 & E2 & Ep & Hexp & Hn & E). clear H.
  unfold finish_login in E. destruct (cb_discovery cb) as [d|]; [|done].
  destruct (token_of (cb_token cb)) as [idToken|] eqn:Et; [|done].
  destruct (validateIdToken _ _ _ _ _ _ _ _) as [c [claims|]] eqn:Ev; [|done].
  destruct (mapClaimsToRole claims (oc_roleMapping config)) as [role matched|] eqn:Em; [|done].
  destruct (grantRole maxEntries _ role _ _ _ _) as [roles previous] eqn:Eg.
  injection E as <- <-. apply validateIdToken_good in Ev as [Hsig Hgood].
  exists st, p. split_and!; try done.
  - exists idToken. split; [done|]. by case_bool_decide.
  - by apply mapClaims_top in Em.
  - destruct (cg_sub _ _ Hgood) as (sub & Hs & _). exists sub. split; [done|]. cbn.
    by rewrite Hs, (cg_iss _ _ Hgood).
  - case_bool_decide; cbn; eapply grantRole_grants; done.
Qed.
End Sound.

(** ** Single use *)

Inductive LoginOp : Type :=
  | lop_start (now : Z) (discovery : result OidcError OidcDiscovery) (loginState nonce verifier : string)
  | lop_complete (cb : Callback).
Section Once.
Context (importable : Jwk -> bool) (decode_segment : string -> option json).
Context (verifySignature : IdTokenAlg -> Jwk -> string -> string -> bool).
Context (config : OidcConfig) (maxEntries : Z).
Notation complete_login := (complete importable decode_segment verifySignature config maxEntries).

Definition login_step (s : OidcState) (op : LoginOp) : OidcState :=
  match op with
  | lop_start now discovery st nonce verifier => (oidc_start now discovery st nonce verifier s).1
  | lop_complete cb => (complete_login cb s).1
  end.
Definition starts_state (st : string) (op : LoginOp) : Z :=
  match op with
  | lop_start _ (Ok _) st' _ _ => if bool_decide (st' = st) then 1 else 0
  | _ => 0
  end.
(** Callbacks with the state that sign somebody in. *)
Fixpoint sign_ins (st : string) (ops : list LoginOp) (s : OidcState) : Z :=
  match ops with
  | [] => 0
  | op :: ops' =>
      match op with
      | lop_complete cb =>
          if bool_decide (cb_state cb = Some st)
          then match (complete_login cb s).2 with Ok _ => 1 | Err _ => 0 end else 0
      | _ => 0
      end + sign_ins st ops' (login_step s op)
  end.
Definition waiting (st : string) (s : OidcState) : Z :=
  match os_pending s !! st with Some _ => 1 | None => 0 end.
Lemma complete_waiting cb s st :
  waiting st (complete_login cb s).1 <= waiting st s.
Proof.
  unfold complete. assert (H : forall k v, os_pending (completeUnaudited importable decode_segment
    verifySignature config maxEntries cb s).1 !! k = Some v -> os_pending s !! k = Some v).
  { intros k v. unfold completeUnaudited. destruct (truthy _) as [x|]; [|done]. destruct (truthy _); [|done].
    case_bool_decide; [|done]. cbn [negb].
    destruct (os_pending s !! x) as [p|]; [destruct (pl_expiresAt p <=? cb_now cb); [|destruct (truthy _)]|];
      rewrite ?finish_pending; cbn; by intros [_ ?]%lookup_delete_Some. }
  specialize (H st). destruct (completeUnaudited _ _ _ _ _ cb s) as [s' [l|e]]; unfold waiting; cbn in *.
  all: destruct (os_pending s' !! st) as [v|]; [by rewrite (H v eq_refl)|case_match; lia].
Qed.
Lemma login_once_aux st ops : forall s,
  sign_ins st ops s <= waiting st s + foldr (fun op n => starts_state st op + n) 0 ops.
Proof.
  induction ops as [|op ops IH]; intros s; cbn.
  { unfold waiting. case_match; lia. }
  specialize (IH (login_step s op)). destruct op as [now d st' nonce verifier|cb]; cbn in *.
  - enough (waiting st (oidc_start now d st' nonce verifier s).1
            <= waiting st s + match d with Ok _ => if bool_decide (st' = st) then 1 else 0 | Err _ => 0 end) by lia.
    destruct d as [d|]; [|cbn; lia]. unfold waiting. cbn. case_bool_decide as E.
    + subst. rewrite lookup_insert_eq. case_match; lia.
    + rewrite lookup_insert_ne by done. unfold sweep_pending.
      destruct (filter _ (os_pending s) !! st) as [v|] eqn:Ef; [|case_match; lia].
      apply map_lookup_filter_Some in Ef as [-> _]. lia.
  - enough ((if bool_decide (cb_state cb = Some st)
             then match (complete_login cb s).2 with Ok _ => 1 | Err _ => 0 end else 0)
            + waiting st (complete_login cb s).1 <= waiting st s) by lia.
    pose proof (complete_waiting cb s st) as Hw.
    case_bool_decide as E; [|lia].
    destruct (complete_login cb s) as [s' [login|e]] eqn:El; [|cbn in *; lia].
    apply complete_consumes in El as (st0 & p & E0 & _ & Ep & _ & Hn & _).
    rewrite E in E0. injection E0 as <-. unfold waiting. cbn. rewrite Ep, Hn. lia.
Qed.
(** A login state is used once: over any starts and callbacks, in any order,
    the callbacks that sign somebody in with a state are at most as many as the
    times this state was drawn; so a replayed callback is always refused. *)
Theorem login_once st ops s : os_pending s !! st = None ->
  sign_ins st ops s <= foldr (fun op n => starts_state st op + n) 0 ops.
Proof. intros Hn. pose proof (login_once_aux st ops s) as H. unfold waiting in H. rewrite Hn in H. lia. Qed.
End Once.

(** *** A sign-in by hand *)

Definition sample_config : OidcConfig :=
  mkOidcConfig "https://idp" "app" 60 (mkMapping "groups" [("dev", analyst); ("ops", maintainer)]%string false).
Definition sample_payload (nonce : string) : json :=
  JObj [("iss", JStr "https://idp"); ("sub", JStr "Ab"); ("aud", JStr "app"); ("exp", JNum 100);
        ("iat", JNum 1); ("nonce", JStr nonce); ("groups", JArr [JStr "dev"; JStr "ops"])]%string.
Definition sample_decode (segment : string) : option json :=
  if bool_decide (segment = "h"%string) then Some (JObj [("alg", JStr "RS256"); ("kid", JStr "k1")]%string)
  else Some (sample_payload segment).
Definition sample_discovery : OidcDiscovery := mkDiscovery "https://idp" "https://a" "https://t" "https://j".
Definition sample_callback : Callback :=
  mkCallback (Some "code") (Some "st") (Some "st") 5000 (Ok sample_discovery) (token_body (Some (JStr "h.n1.sig")))
    (jwks_body [mkJwk (Some "k1") "RSA" None (Some "sig") None]) "r1" "l1".
Definition sample_login_ops : list LoginOp :=
  [ lop_start 0 (Ok sample_discovery) "st" "n1" "v"; lop_complete sample_callback; lop_complete sample_callback ].
Definition no_logins : OidcState := mkOidcState ∅ empty_jwks no_roles [].
Definition always_verifies (alg : IdTokenAlg) (jwk : Jwk) (text signature : string) : bool := true.
Notation sample_complete := (complete (fun _ => true) sample_decode always_verifies sample_config 100).
Definition started : OidcState := (oidc_start 0 (Ok sample_discovery) "st" "n1" "v" no_logins).1.
Lemma login_sound_witness : exists login,
  (sample_complete sample_callback started).2 = Ok login /\ lg_role login = maintainer /\
  top_role (oc_roleMapping sample_config) (lg_claims login) maintainer.
Proof.
  destruct (sample_complete sample_callback started) as [s' r1] eqn:E.
  assert (Hr : exists login, r1 = Ok login /\ lg_role login = maintainer).
  { pose proof (f_equal snd E) as E2. cbn [snd] in E2. rewrite <- E2. eexists. split; vm_compute; done. }
  destruct Hr as (login & -> & Hrole). exists login. split_and!; [done|done|].
  rewrite <- Hrole. destruct (login_sound _ _ _ _ _ _ _ _ _ E) as (st & p & H). apply H.
Defined.
Lemma login_once_witness :
  sign_ins (fun _ => true) sample_decode always_verifies sample_config 100 "st" sample_login_ops no_logins = 1 /\
  sign_ins (fun _ => true) sample_decode always_verifies sample_config 100 "st" sample_login_ops no_logins <= 1.
Proof.
  split; [vm_compute; done|].
  exact (login_once (fun _ => true) sample_decode always_verifies sample_config 100 "st" sample_login_ops
           no_logins eq_refl).
Defined.
