(* ===== verification/AccessControl.v ===== *)
(** Who may do what: [lib/rbac.ts], [lib/route-guard.ts], the routes of
    [app/api/settings/roles] and [app/api/settings/tokens] behind the proxy of
    [src/rate-limit.ts].

    The role store, the tokens, the sessions and the limiter are the components
    modelled in their own files; HMAC and SHA-256 are parameters. *)

From S2P Require Import Prelude JsDate JsString JsValue CronParser AuditLog Tenancy RateLimit RouteCatalog RoleStore ApiTokens Sessions Oidc.
From stdpp Require Import base list sets fin_sets gmap strings numbers sorting.
From Stdlib Require Import ZArith Lia Ascii.
#[local] Open Scope Z_scope.

(** ** Principals *)

Inductive PrincipalIdentity : Type := known_identity (t : UserIdentity) | identity_anonymous.
#[export] Instance PrincipalIdentity_eq_dec : EqDecision PrincipalIdentity.
Proof. solve_decision. Defined.
Record RbacPrincipal : Type := mkPrincipal
  { pr_identityType : PrincipalIdentity; pr_identityValue : string; pr_subject : string;
    pr_authenticated : bool }.
Definition ANONYMOUS_PRINCIPAL : RbacPrincipal :=
  mkPrincipal identity_anonymous "anonymous" "anonymous" false.
Definition ENV_API_KEY_IDENTITY : string := "env:CRASHLAB_WEBHOOK_API_KEY".
Definition principal_of (t : UserIdentity) (value : string) : RbacPrincipal :=
  mkPrincipal (known_identity t) value (cat [identity_name t; ":"; value]) true.
Definition DEFAULT_PRINCIPAL_ROLE : UserRole := analyst.

Inductive RbacOutcome : Type := rbac_allowed | rbac_denied.
Record RbacAuditEntry : Type := mkRbacEntry
  { rb_timestamp : Z; rb_principalSubject : string; rb_principalRole : UserRole; rb_action : string;
    rb_path : string; rb_requiredRole : UserRole; rb_outcome : RbacOutcome }.
Record AccessState : Type := mkAccess
  { ac_roles : RoleState; ac_tokens : TokenState; ac_sessions : RecordStore SessionRecord;
    ac_rbacAudit : list RbacAuditEntry; ac_auditEvents : list AuditEntryInput }.
Definition with_sessions (m : RecordStore SessionRecord) (s : AccessState) : AccessState :=
  mkAccess (ac_roles s) (ac_tokens s) m (ac_rbacAudit s) (ac_auditEvents s).
Definition with_roles (st : RoleState) (s : AccessState) : AccessState :=
  mkAccess st (ac_tokens s) (ac_sessions s) (ac_rbacAudit s) (ac_auditEvents s).
Definition with_token_state (t : TokenState) (events : list AuditEntryInput) (s : AccessState) : AccessState :=
  mkAccess (ac_roles s) t (ac_sessions s) (ac_rbacAudit s) (ac_auditEvents s ++ events).

(** A request; the bodies of the role routes come at their declared type, which the
    handlers assume without a check. *)
Record ApiRequest : Type := mkRequest
  { rq_method : string; rq_path : string; rq_authorization : option string;
    rq_githubCookie : option string; rq_oidcCookie : option string; rq_userAgent : option string;
    rq_body : option fields; rq_roleBody : option (option UserIdentity * string * option UserRole);
    rq_sizeOk : bool; rq_now : Z }.

Section Access.
Context (hmac_sha256 : string -> string -> string) (sha256 : string -> string).
Context (secrets : ServerSessionProvider -> option string) (durable : bool).
(** [CRASHLAB_WEBHOOK_API_KEY], and the caps of the two logs. *)
Context (envKey : option string) (roleAuditCap rbacAuditCap : Z).

Definition resolvePrincipal (rq : ApiRequest) (s : AccessState) : AccessState * RbacPrincipal :=
  match extractBearerToken (rq_authorization rq) with
  | Some bearer =>
      (s,
       if match configured_key envKey with
          | Some key => constantTimeHexEqual (sha256 key) (sha256 bearer)
          | None => false end
       then principal_of identity_api_key ENV_API_KEY_IDENTITY
       else match truthy (resolveTokenPrincipalIdByHash (sha256 bearer) (ac_tokens s)) with
            | Some tokenId => principal_of identity_api_key tokenId
            | None => ANONYMOUS_PRINCIPAL
            end)
  | None =>
      let userAgent := default EmptyString (rq_userAgent rq) in
      let verify p cookie := verifyServerSession hmac_sha256 sha256 durable p cookie (secrets p)
                               (rq_now rq) userAgent in
      let '(m1, login) := verify session_github (rq_githubCookie rq) (ac_sessions s) in
      match truthy login with
      | Some login => (with_sessions m1 s, principal_of identity_github login)
      | None =>
          let '(m2, identity) := verify session_oidc (rq_oidcCookie rq) m1 in
          (with_sessions m2 s,
           match truthy identity with
           | Some identity => principal_of identity_oidc identity
           | None => ANONYMOUS_PRINCIPAL
           end)
      end
  end.
Definition resolveRoleForPrincipal (principal : RbacPrincipal) (st : RoleState) : UserRole :=
  match pr_identityType principal with
  | identity_anonymous => DEFAULT_PRINCIPAL_ROLE
  | known_identity t =>
      default DEFAULT_PRINCIPAL_ROLE (ra_role <$> getRoleAssignment t (pr_identityValue principal) st)
  end.
Definition describePrincipal (rq : ApiRequest) (s : AccessState) : AccessState * (RbacPrincipal * UserRole) :=
  let '(s', principal) := resolvePrincipal rq s in
  (s', (principal, resolveRoleForPrincipal principal (ac_roles s'))).

(** ** Decisions and their log *)

Definition logRbacAudit (entry : RbacAuditEntry) (s : AccessState) : AccessState :=
  mkAccess (ac_roles s) (ac_tokens s) (ac_sessions s) (appendEntry rbacAuditCap entry (ac_rbacAudit s))
    (ac_auditEvents s).
Definition getRbacAuditLogs (retentionDays limit now : Z) (s : AccessState) : list RbacAuditEntry :=
  let retained := Z.of_nat (length (ac_rbacAudit s)) in
  let window := Z.max 1 (Z.min limit (if 0 <? retained then retained else limit)) in
  List.filter (fun entry => now - retentionDays * 86400000 <=? rb_timestamp entry)
    (listEntries window (ac_rbacAudit s)).
Record RbacDenial : Type := mkDenial
  { dn_requiredRole : UserRole; dn_currentRole : UserRole; dn_principal : string }.
Definition checkRbacPermission (rq : ApiRequest) (s : AccessState) : AccessState * option RbacDenial :=
  match getRequiredRoleForRequest (rq_method rq) (rq_path rq) with
  | None => (s, None)
  | Some requiredRole =>
      let '(s1, (principal, principalRole)) := describePrincipal rq s in
      let granted := hasRequiredRole principalRole requiredRole in
      (logRbacAudit
         (mkRbacEntry (rq_now rq) (pr_subject principal) principalRole
            (cat [rq_method rq; " "; rq_path rq]) (rq_path rq) requiredRole
            (if granted then rbac_allowed else rbac_denied)) s1,
       if granted then None else Some (mkDenial requiredRole principalRole (pr_subject principal)))
  end.

Inductive RouteDecision : Type := route_undeclared | route_denied (d : RbacDenial) | route_allowed.
(** [enforceRouteAuthorization] of [route-guard.ts]. *)
Definition enforceRouteAuthorization (rq : ApiRequest) (s : AccessState) : AccessState * RouteDecision :=
  match matchRouteCatalogEntry (rq_method rq) (rq_path rq) with
  | None => (s, route_undeclared)
  | Some entry =>
      if bool_decide (re_authClass entry = auth_public) then (s, route_allowed)
      else match checkRbacPermission rq s with
           | (s', Some d) => (s', route_denied d)
           | (s', None) => (s', route_allowed)
           end
  end.

(** ** The routes *)

Inductive SettingsReply : Type :=
  | reply_denied (d : RbacDenial) | reply_too_large | reply_status (status : Z)
  | reply_assignment (a : RoleAssignment) | reply_assignments (l : list RoleAssignment)
  | reply_logs (l : list RoleAuditLog) | reply_me (p : RbacPrincipal) (role : UserRole) (maintainers : Z)
  | reply_token (r : TokenReply) | reply_tokens (l : list ApiTokenPublic)
  | reply_limited (r : ProxyReply) | reply_elsewhere.
(** Each handler of the role routes checks the permission again. *)
Definition permitted (rq : ApiRequest) (s : AccessState)
    (handle : AccessState -> AccessState * SettingsReply) : AccessState * SettingsReply :=
  match checkRbacPermission rq s with
  | (s1, Some d) => (s1, reply_denied d)
  | (s1, None) => handle s1
  end.
Definition get_roles (rq : ApiRequest) (s : AccessState) : AccessState * SettingsReply :=
  permitted rq s (fun s1 =>
    let '(st, l) := listRoleAssignments (ac_roles s1) in (with_roles st s1, reply_assignments l)).
Definition get_role_logs (rq : ApiRequest) (s : AccessState) : AccessState * SettingsReply :=
  permitted rq s (fun s1 => (s1, reply_logs (listAuditLogs 100 (ac_roles s1)))).
Definition get_me (rq : ApiRequest) (s : AccessState) : AccessState * SettingsReply :=
  let '(s1, (principal, role)) := describePrincipal rq s in
  (with_roles (listRoleAssignments (ac_roles s1)).1 s1,
   reply_me principal role (countMaintainers (ac_roles s1))).
(** The ids are the draws of [randomId]. *)
Definition post_role (rq : ApiRequest) (roleId logId : string) (s : AccessState) : AccessState * SettingsReply :=
  permitted rq s (fun s1 =>
    if negb (rq_sizeOk rq) then (s1, reply_too_large)
    else match rq_roleBody rq with
         | None => (s1, reply_status 500)
         | Some (Some t, value, Some role) =>
             if bool_decide (value = EmptyString) then (s1, reply_status 400)
             else
               let '(s2, (principal, _)) := describePrincipal rq s1 in
               let '(st, assignment) := assignRole roleAuditCap t value role (Some (pr_subject principal))
                                          (rq_now rq) roleId logId (ac_roles s2) in
               (with_roles st s2, reply_assignment assignment)
         | Some _ => (s1, reply_status 400)
         end).
Definition delete_role (rq : ApiRequest) (logId : string) (s : AccessState) : AccessState * SettingsReply :=
  permitted rq s (fun s1 =>
    if negb (rq_sizeOk rq) then (s1, reply_too_large)
    else match rq_roleBody rq with
         | None => (s1, reply_status 500)
         | Some (Some t, value, _) =>
             if bool_decide (value = EmptyString) then (s1, reply_status 400)
             else
               let '(s2, (principal, _)) := describePrincipal rq s1 in
               let '(st, found) := revokeRole roleAuditCap t value (Some (pr_subject principal))
                                     (rq_now rq) logId (ac_roles s2) in
               (with_roles st s2, reply_status (if found then 200 else 404))
         | Some _ => (s1, reply_status 400)
         end).

Context (ttlMs : Z) (date_of_json : json -> option Z).
(** The draws a request makes, whatever its route. *)
Record Draws : Type := mkDraws { dw_first : string; dw_second : string }.
Inductive TokenRoute : Type := tr_list | tr_create | tr_rotate (tokenId : string) | tr_revoke (tokenId : string).
Definition token_routes (rq : ApiRequest) (route : TokenRoute) (d : Draws) (s : AccessState)
  : AccessState * SettingsReply :=
  match route with
  | tr_create =>
      if negb (rq_sizeOk rq) then (s, reply_too_large)
      else let '(t, r') := post_token sha256 ttlMs date_of_json (rq_body rq) (rq_now rq) (dw_first d)
                             (dw_second d) (ac_tokens s) in
           (with_token_state t [] s, reply_token r')
  | tr_rotate tokenId =>
      let '(t, events, r') := rotate_token_route sha256 ttlMs tokenId (rq_now rq) (dw_first d) (dw_second d)
                                (ac_tokens s) in
      (with_token_state t events s, reply_token r')
  | tr_revoke tokenId =>
      let '(t, events, r') := revoke_token_route tokenId (rq_now rq) (ac_tokens s) in
      (with_token_state t events s, reply_token r')
  | tr_list => (s, reply_tokens (listApiTokens (ts_tokens (ac_tokens s))))
  end.
(** The handler of a path, where the files under [app/api/settings] put it; other
    handlers are not part of this component. *)
Inductive SettingsPath : Type :=
  | path_roles | path_roles_me | path_roles_audit | path_tokens | path_rotate (tokenId : string)
  | path_revoke (tokenId : string) | path_other.
Definition settings_path (segments : list string) : SettingsPath :=
  if bool_decide (segments = [""; "api"; "settings"; "roles"]%string) then path_roles
  else if bool_decide (segments = [""; "api"; "settings"; "roles"; "me"]%string) then path_roles_me
  else if bool_decide (segments = [""; "api"; "settings"; "roles"; "audit"]%string) then path_roles_audit
  else if bool_decide (segments = [""; "api"; "settings"; "tokens"]%string) then path_tokens
  else
    let tokenId := nth 4 segments EmptyString in
    if bool_decide (tokenId = EmptyString) then path_other
    else if bool_decide (segments = [""; "api"; "settings"; "tokens"; tokenId; "rotate"]%string)
    then path_rotate tokenId
    else if bool_decide (segments = [""; "api"; "settings"; "tokens"; tokenId; "revoke"]%string)
    then path_revoke tokenId
    else path_other.
Definition settings_route (rq : ApiRequest) (d : Draws) (s : AccessState) : AccessState * SettingsReply :=
  let is_method m := bool_decide (rq_method rq = m) in
  let no_method := (s, reply_status 405) in
  match settings_path (split_on "/" (rq_path rq)) with
  | path_roles =>
      if is_method "GET"%string then get_roles rq s
      else if is_method "POST"%string then post_role rq (dw_first d) (dw_second d) s
      else if is_method "DELETE"%string then delete_role rq (dw_first d) s
      else no_method
  | path_roles_me => if is_method "GET"%string then get_me rq s else no_method
  | path_roles_audit => if is_method "GET"%string then get_role_logs rq s else no_method
  | path_tokens =>
      if is_method "GET"%string then token_routes rq tr_list d s
      else if is_method "POST"%string then token_routes rq tr_create d s
      else no_method
  | path_rotate tokenId =>
      if is_method "POST"%string then token_routes rq (tr_rotate tokenId) d s else no_method
  | path_revoke tokenId =>
      if is_method "POST"%string then token_routes rq (tr_revoke tokenId) d s else no_method
  | path_other => (s, reply_elsewhere)
  end.

(** [proxy]: the principal is resolved, the permission checked, then both limits
    are charged, and the request reaches its handler. *)
Context (rateEnv : RateEnv) (windowMs maxRequests : Z).
Definition api_request (rq : ApiRequest) (forwardedFor realIp : option string) (d : Draws)
    (s : AccessState) (px : ProxyState) : AccessState * ProxyState * SettingsReply :=
  let '(s1, subject, denial) :=
    if bool_decide (rq_method rq = "OPTIONS"%string) then (s, EmptyString, None)
    else let '(s1, principal) := resolvePrincipal rq s in
         let '(s2, denial) := checkRbacPermission rq s1 in (s2, pr_subject principal, denial) in
  let denied := match denial with Some _ => true | None => false end in
  let '(px', reply) := proxy rateEnv windowMs maxRequests (rq_method rq) (rq_path rq) subject denied
                         forwardedFor realIp (rq_now rq) px in
  match reply, denial with
  | proxy_denied, Some why => (s1, px', reply_denied why)
  | proxy_limited _ _ _, _ => (s1, px', reply_limited reply)
  | _, _ => let '(s2, r') := settings_route rq d s1 in (s2, px', r')
  end.
End Access.

(** ** What a request leaves alone *)

Section Steps.
Context (hmac_sha256 : string -> string -> string) (sha256 : string -> string).
Context (secrets : ServerSessionProvider -> option string) (durable : bool).
Context (envKey : option string) (roleAuditCap rbacAuditCap : Z).
Notation resolve := (resolvePrincipal hmac_sha256 sha256 secrets durable envKey).
Notation check := (checkRbacPermission hmac_sha256 sha256 secrets durable envKey rbacAuditCap).
Definition role_of (rq : ApiRequest) (s : AccessState) : UserRole :=
  resolveRoleForPrincipal (resolve rq s).2 (ac_roles s).

(** Same assignments, change log and tokens; only sessions and the log of
    decisions may differ, and the index of roles that listing prunes. *)
Definition same_security (s s' : AccessState) : Prop :=
  rs_records (ac_roles s') = rs_records (ac_roles s) /\ rs_audit (ac_roles s') = rs_audit (ac_roles s) /\
  ac_tokens s' = ac_tokens s.
#[global] Instance same_security_preorder : PreOrder same_security.
Proof.
  split; [by intros s|]. intros a b c (H1 & H2 & H3) (H4 & H5 & H6). split_and!; congruence.
Qed.
Lemma role_of_records p st st' : rs_records st' = rs_records st ->
  resolveRoleForPrincipal p st' = resolveRoleForPrincipal p st.
Proof. intros H. unfold resolveRoleForPrincipal, getRoleAssignment. by rewrite H. Qed.

Lemma resolve_same rq s : same_security s (resolve rq s).1 /\ ac_roles (resolve rq s).1 = ac_roles s /\
  ac_rbacAudit (resolve rq s).1 = ac_rbacAudit s.
Proof.
  unfold resolvePrincipal. destruct (extractBearerToken _); [done|].
  destruct (verifyServerSession _ _ _ session_github _ _ _ _ _) as [m1 login].
  destruct (truthy login); [done|].
  by destruct (verifyServerSession _ _ _ session_oidc _ _ _ _ _) as [m2 identity].
Qed.
Definition cookie_verdict (p : ServerSessionProvider) (rq : ApiRequest) (m : RecordStore SessionRecord)
  : RecordStore SessionRecord * option string :=
  verifyServerSession hmac_sha256 sha256 durable p
    (match p with session_github => rq_githubCookie rq | session_oidc => rq_oidcCookie rq end) (secrets p)
    (rq_now rq) (default EmptyString (rq_userAgent rq)) m.
Lemma cookie_verdict_stable p p' rq m :
  (cookie_verdict p rq (cookie_verdict p' rq m).1).2 = (cookie_verdict p rq m).2.
Proof. apply verify_after_verify. Qed.
Lemma resolve_cookies rq s : extractBearerToken (rq_authorization rq) = None ->
  let github := cookie_verdict session_github rq (ac_sessions s) in
  let oidc := cookie_verdict session_oidc rq github.1 in
  (resolve rq s).2 = match truthy github.2, truthy oidc.2 with
                     | Some login, _ => principal_of identity_github login
                     | None, Some identity => principal_of identity_oidc identity
                     | None, None => ANONYMOUS_PRINCIPAL
                     end /\
  ac_sessions (resolve rq s).1 = match truthy github.2 with Some _ => github.1 | None => oidc.1 end.
Proof.
  intros Hb. unfold resolvePrincipal. rewrite Hb. cbn zeta.
  fold (cookie_verdict session_github rq (ac_sessions s)).
  destruct (cookie_verdict session_github rq (ac_sessions s)) as [m1 login]. cbn [fst snd].
  fold (cookie_verdict session_oidc rq m1).
  destruct (truthy login); [done|]. by destruct (cookie_verdict session_oidc rq m1) as [m2 identity].
Qed.
(** Resolving again at the same instant names the same principal. *)
Lemma resolve_again rq s s' : ac_tokens s' = ac_tokens s -> ac_sessions s' = ac_sessions (resolve rq s).1 ->
  (resolve rq s').2 = (resolve rq s).2.
Proof.
  intros Ht Hs. destruct (extractBearerToken (rq_authorization rq)) as [b|] eqn:Hb.
  { unfold resolvePrincipal. by rewrite Hb, Ht. }
  destruct (resolve_cookies rq s Hb) as [-> Hs1], (resolve_cookies rq s' Hb) as [-> _].
  rewrite Hs, Hs1. destruct (truthy (cookie_verdict session_github rq (ac_sessions s)).2) as [l|] eqn:El;
    by rewrite !cookie_verdict_stable, El.
Qed.
Lemma check_spec rq s required : getRequiredRoleForRequest (rq_method rq) (rq_path rq) = Some required ->
  let '(s', denial) := check rq s in
  same_security s s' /\ ac_sessions s' = ac_sessions (resolve rq s).1 /\
  (denial = None <-> hasRequiredRole (role_of rq s) required = true).
Proof.
  intros Hr. unfold checkRbacPermission, describePrincipal, role_of. rewrite Hr.
  destruct (resolve_same rq s) as (H1 & H2 & _). destruct (resolve rq s) as [s1 p]. cbn in *.
  rewrite H2. destruct (hasRequiredRole _ _); cbn; by split_and!; try done; apply H1.
Qed.
Lemma check_same rq s : same_security s (check rq s).1.
Proof.
  unfold checkRbacPermission. destruct (getRequiredRoleForRequest _ _) as [required|]; [|done].
  unfold describePrincipal. destruct (resolve_same rq s) as (H1 & _). destruct (resolve rq s) as [s1 p].
  exact H1.
Qed.

(** ** Only maintainers administer *)

Context (ttlMs : Z) (date_of_json : json -> option Z).
Context (rateEnv : RateEnv) (windowMs maxRequests : Z).
Notation request := (api_request hmac_sha256 sha256 secrets durable envKey roleAuditCap rbacAuditCap ttlMs
                       date_of_json rateEnv windowMs maxRequests).
Notation route := (settings_route hmac_sha256 sha256 secrets durable envKey roleAuditCap rbacAuditCap ttlMs
                     date_of_json).

(** The catalog protects every handler of the settings pages that writes. *)
Lemma role_required method path segments e : e ∈ ROUTE_CATALOG ->
  split_on "/" path = segments -> parts_match (split_on "/" (re_path e)) segments = true ->
  re_method e = method -> to_upper method = method ->
  method ∉ ["GET"; "HEAD"; "OPTIONS"]%string -> (re_requiredCapability e ≫= rc_role) = Some maintainer ->
  getRequiredRoleForRequest method path = Some maintainer.
Proof.
  intros He Hs Hp Hm Hu Hg Hr. unfold getRequiredRoleForRequest. rewrite Hu, bool_decide_eq_false_2 by done.
  assert (Hmatch : matchRouteCatalogEntry method path = Some e).
  { apply find_exclusive; [apply catalog_exclusive|done|].
    unfold entry_matches, routePathMatches. rewrite Hu, Hs, Hp, andb_true_r. by apply bool_decide_true. }
  unfold entry_capability. rewrite Hmatch. cbn [mbind option_bind] in *.
  by destruct (re_requiredCapability e) as [c|]; cbn [mbind option_bind] in *; [rewrite Hr|].
Qed.
Definition settings_entry (method path : string) : option RouteCatalogEntry :=
  List.find (fun e => bool_decide (re_method e = method) && bool_decide (re_path e = path)) ROUTE_CATALOG.
Lemma settings_role method path pattern segments :
  match settings_entry method pattern with
  | Some e => bool_decide ((re_requiredCapability e ≫= rc_role) = Some maintainer) &&
              bool_decide (to_upper method = method) &&
              negb (bool_decide (method ∈ ["GET"; "HEAD"; "OPTIONS"]%string))
  | None => false
  end = true ->
  split_on "/" path = segments -> parts_match (split_on "/" pattern) segments = true ->
  getRequiredRoleForRequest method path = Some maintainer.
Proof.
  destruct (settings_entry method pattern) as [e|] eqn:E; [|done]. intros H Hs Hp. bools.
  apply List.find_some in E as [Hin HE]. bools. subst pattern.
  eapply role_required; [by apply list_elem_of_In|done..].
Qed.

Lemma settings_path_spec segments : match settings_path segments with
  | path_roles => segments = [""; "api"; "settings"; "roles"]%string
  | path_tokens => segments = [""; "api"; "settings"; "tokens"]%string
  | path_rotate i => i <> EmptyString /\ segments = [""; "api"; "settings"; "tokens"; i; "rotate"]%string
  | path_revoke i => i <> EmptyString /\ segments = [""; "api"; "settings"; "tokens"; i; "revoke"]%string
  | _ => True
  end.
Proof. unfold settings_path. repeat case_bool_decide; done. Qed.

Lemma permitted_same rq s handle : (forall s1, same_security s1 (handle s1).1) ->
  same_security s (permitted hmac_sha256 sha256 secrets durable envKey rbacAuditCap rq s handle).1.
Proof.
  intros H. unfold permitted. pose proof (check_same rq s) as Hc.
  destruct (check rq s) as [s1 [d|]]; [exact Hc|]. cbn in Hc. by etransitivity.
Qed.
Lemma get_me_same rq s :
  same_security s (get_me hmac_sha256 sha256 secrets durable envKey rq s).1.
Proof.
  unfold get_me, describePrincipal. destruct (resolve_same rq s) as (H & _).
  by destruct (resolve rq s) as [s1 p].
Qed.
Lemma id_segment i action : i <> EmptyString -> action ∈ ["rotate"; "revoke"]%string ->
  parts_match (split_on "/" (cat ["/api/settings/tokens/[id]/"; action]))
    [""; "api"; "settings"; "tokens"; i; action]%string = true.
Proof.
  intros Hi Ha.
  assert (Hm : part_matches "[id]" i = true).
  { unfold part_matches. replace (is_param "[id]") with true by (vm_compute; reflexivity).
    by rewrite bool_decide_false. }
  assert (Hs : action ∈ ["rotate"; "revoke"]%string ->
    split_on "/" (cat ["/api/settings/tokens/[id]/"; action]) =
    [""; "api"; "settings"; "tokens"; "[id]"; action]%string /\ part_matches action action = true).
  { intros [->|[->|[]%not_elem_of_nil]%elem_of_cons]%elem_of_cons; vm_compute; done. }
  destruct (Hs Ha) as [-> Hact]. cbn [parts_match]. rewrite Hm, Hact. vm_compute. done.
Qed.
(** A settings request that writes is one the catalog keeps for maintainers. *)
Lemma route_protected rq d s : same_security s (route rq d s).1 \/
  getRequiredRoleForRequest (rq_method rq) (rq_path rq) = Some maintainer.
Proof.
  unfold settings_route. pose proof (settings_path_spec (split_on "/" (rq_path rq))) as Hp.
  destruct (settings_path _) as [| | | |i|i|].
  - case_bool_decide as Em; [left; by apply permitted_same|].
    case_bool_decide as Em2.
    { right. rewrite Em2. eapply (settings_role "POST" _ "/api/settings/roles"); [now vm_compute|exact Hp|now vm_compute]. }
    case_bool_decide as Em3; [|by left].
    right. rewrite Em3. eapply (settings_role "DELETE" _ "/api/settings/roles"); [now vm_compute|exact Hp|now vm_compute].
  - case_bool_decide; [|by left]. left. apply get_me_same.
  - case_bool_decide; [|by left]. left. by apply permitted_same.
  - case_bool_decide as Em; [by left|]. case_bool_decide as Em2; [|by left].
    right. rewrite Em2. eapply (settings_role "POST" _ "/api/settings/tokens"); [now vm_compute|exact Hp|now vm_compute].
  - case_bool_decide as Em; [|by left]. right. rewrite Em. destruct Hp as [Hi Hp].
    eapply (settings_role "POST" _ "/api/settings/tokens/[id]/rotate"); [now vm_compute|exact Hp|].
    apply (id_segment i "rotate" Hi). set_solver.
  - case_bool_decide as Em; [|by left]. right. rewrite Em. destruct Hp as [Hi Hp].
    eapply (settings_role "POST" _ "/api/settings/tokens/[id]/revoke"); [now vm_compute|exact Hp|].
    apply (id_segment i "revoke" Hi). set_solver.
  - by left.
Qed.
Lemma role_of_resolved rq s : role_of rq (resolve rq s).1 = role_of rq s.
Proof.
  unfold role_of. destruct (resolve_same rq s) as ((_ & _ & Ht) & Hr & _).
  by rewrite (resolve_again rq s _ Ht eq_refl), Hr.
Qed.
Lemma request_protected rq fwd ip d s px s' px' reply : request rq fwd ip d s px = (s', px', reply) ->
  same_security s s' \/ role_of rq s = maintainer.
Proof.
  unfold api_request. case_bool_decide as Ho.
  - destruct (proxy _ _ _ _ _ _ _ _ _ _ _) as [px1 rp].
    assert (Hroute : same_security s (route rq d s).1).
    { destruct (route_protected rq d s) as [H|H]; [done|]. by rewrite Ho in H. }
    destruct rp; try (intros [= <- <- <-]; by left).
    all: destruct (route rq d s) as [s2 r2]; intros [= <- <- <-]; by left.
  - destruct (resolve rq s) as [s1 p] eqn:E1.
    destruct (resolve_same rq s) as (H1 & _). pose proof (role_of_resolved rq s) as Hrole.
    rewrite E1 in H1, Hrole. cbn in H1, Hrole.
    pose proof (check_same rq s1) as H2. destruct (check rq s1) as [s2 denial] eqn:E2. cbn in H2.
    assert (H12 : same_security s s2) by by etransitivity.
    unfold proxy. rewrite decide_False by done.
    destruct denial as [why|]; [intros [= <- _ _]; by left|].
    destruct (applyPrincipalRateLimit _ _ _ _ _ _ _) as [ls dec].
    destruct (negb (prl_allowed dec)); [intros [= <- _ _]; by left|].
    destruct (maxRequests <? _); [intros [= <- _ _]; by left|].
    destruct (route_protected rq d s2) as [H3|Hreq].
    + destruct (route rq d s2) as [s3 r3]. intros [= <- _ _]. left. cbn in H3. by etransitivity.
    + intros _. right. rewrite <- Hrole. pose proof (check_spec rq s1 maintainer Hreq) as Hc.
      rewrite E2 in Hc. destruct Hc as (_ & _ & Hc). pose proof (proj1 Hc eq_refl) as Hg.
      by destruct (role_of rq s1).
Qed.
Lemma role_of_maintainer rq s : role_of rq s = maintainer -> exists t value a,
  (resolve rq s).2 = principal_of t value /\ getRoleAssignment t value (ac_roles s) = Some a /\
  ra_role a = maintainer.
Proof.
  assert (Hp : (resolve rq s).2 = ANONYMOUS_PRINCIPAL \/ exists t value, (resolve rq s).2 = principal_of t value).
  { destruct (extractBearerToken (rq_authorization rq)) as [b|] eqn:Hb.
    - unfold resolvePrincipal. rewrite Hb. cbn [snd].
      destruct (match configured_key envKey with Some _ => _ | None => _ end); [right; by eexists _, _|].
      destruct (truthy _); [right; by eexists _, _|by left].
    - destruct (resolve_cookies rq s Hb) as [-> _].
      destruct (truthy _); [right; by eexists _, _|]. destruct (truthy _); [right; by eexists _, _|by left]. }
  unfold role_of, resolveRoleForPrincipal. destruct Hp as [->|(t & value & ->)]; [done|].
  cbn. destruct (getRoleAssignment t value (ac_roles s)) as [a|] eqn:Ea; [|done].
  intros Ha. by exists t, value, a.
Qed.


(** ** Requests and sign-ins *)

Context (importable : Jwk -> bool) (decode_segment : string -> option json).
Context (verifySignature : IdTokenAlg -> Jwk -> string -> string -> bool) (config : OidcConfig).
Record SystemState : Type := mkSystem
  { sy_access : AccessState; sy_proxy : ProxyState; sy_pending : gmap string PendingLogin; sy_jwks : JwksCache }.
Inductive CallbackReply : Type := signed_in (cookie : string) | sign_in_unavailable | sign_in_denied.
(** [app/api/auth/oidc/callback/route.ts]: the redirect target and the cookies'
    attributes are left out. *)
Definition oidc_callback (cb : Callback) (existingCookie userAgent : option string) (sessionId : string)
    (sy : SystemState) : SystemState * CallbackReply :=
  let s := sy_access sy in
  let '(o, r') := complete importable decode_segment verifySignature config roleAuditCap cb
                    (mkOidcState (sy_pending sy) (sy_jwks sy) (ac_roles s) []) in
  let s1 := mkAccess (os_roles o) (ac_tokens s) (ac_sessions s) (ac_rbacAudit s)
              (ac_auditEvents s ++ os_audit o) in
  match r' with
  | Err _ => (mkSystem s1 (sy_proxy sy) (os_pending o) (os_jwks o), sign_in_denied)
  | Ok login =>
      let '(m, issued) := issueServerSession hmac_sha256 sha256 durable session_oidc (lg_identity login)
                            (secrets session_oidc) existingCookie (cb_now cb)
                            (default EmptyString userAgent) sessionId (ac_sessions s1) in
      (mkSystem (with_sessions m s1) (sy_proxy sy) (os_pending o) (os_jwks o),
       match issued with Ok (Some cookie) => signed_in cookie | _ => sign_in_unavailable end)
  end.
Inductive SystemOp : Type :=
  | sys_request (rq : ApiRequest) (forwardedFor realIp : option string) (d : Draws)
  | sys_start (now : Z) (discovery : result OidcError OidcDiscovery) (loginState nonce verifier : string)
  | sys_callback (cb : Callback) (existingCookie userAgent : option string) (sessionId : string).
Definition system_step (sy : SystemState) (op : SystemOp) : SystemState :=
  match op with
  | sys_request rq fwd ip d =>
      let '(s', px', _) := request rq fwd ip d (sy_access sy) (sy_proxy sy) in
      mkSystem s' px' (sy_pending sy) (sy_jwks sy)
  | sys_start now discovery st nonce verifier =>
      let o := (oidc_start now discovery st nonce verifier
                  (mkOidcState (sy_pending sy) (sy_jwks sy) (ac_roles (sy_access sy)) [])).1 in
      mkSystem (sy_access sy) (sy_proxy sy) (os_pending o) (os_jwks o)
  | sys_callback cb existing userAgent sessionId => (oidc_callback cb existing userAgent sessionId sy).1
  end.
Definition no_maintainer (st : RoleState) : Prop := forall k, role_at st k <> Some maintainer.
Lemma no_maintainer_role rq s : no_maintainer (ac_roles s) -> role_of rq s <> maintainer.
Proof.
  intros Hn (t & value & a & _ & Ha & Hm)%role_of_maintainer. apply (Hn (roleRecordKey t value)).
  unfold role_at. unfold getRoleAssignment in Ha. destruct (rs_records _ !! _) as [[b|]|]; try done.
  cbn. injection Ha as ->. by rewrite Hm.
Qed.
Lemma step_no_maintainer sy op : Forall (fun rule => rule.2 = analyst) (rm_rules (oc_roleMapping config)) ->
  no_maintainer (ac_roles (sy_access sy)) ->
  no_maintainer (ac_roles (sy_access (system_step sy op))) /\
  ac_tokens (sy_access (system_step sy op)) = ac_tokens (sy_access sy).
Proof.
  intros Hrules Hn. destruct op as [rq fwd ip d|now di st nonce verifier|cb ex ua sid]; cbn; [| done|].
  - destruct (request rq fwd ip d _ _) as [[s' px'] reply] eqn:E. cbn.
    destruct (request_protected _ _ _ _ _ _ _ _ _ E) as [(H1 & _ & H3)|Hm].
    + split; [|done]. intros k. unfold role_at. rewrite H1. apply Hn.
    + by apply no_maintainer_role in Hm.
  - unfold oidc_callback.
    pose proof (complete_role_at importable decode_segment verifySignature config roleAuditCap cb
      (mkOidcState (sy_pending sy) (sy_jwks sy) (ac_roles (sy_access sy)) [])) as Hr.
    destruct (complete _ _ _ _ _ cb _) as [o r']. cbn in Hr.
    assert (Ho : no_maintainer (os_roles o)).
    { intros k Hk. destruct (Hr k) as [H|(rule & Hin & H)]; rewrite H in Hk; [by apply (Hn k)|].
      rewrite list.Forall_forall in Hrules. by rewrite (Hrules rule Hin) in Hk. }
    destruct r' as [login|e]; [|done].
    by destruct (issueServerSession _ _ _ _ _ _ _ _ _ _ _) as [m issued].
Qed.

End Steps.

(** ** Concrete runs *)

Definition toy_sha (s : string) : string := cat ["h"; s].
Definition sample_env : RateEnv := no_rate_env.
Definition no_access : AccessState := mkAccess no_roles no_tokens ∅ [] [].
Definition idle_proxy : ProxyState := mkProxy ∅ (mkIp ∅ 0).
(** The deployment key is a maintainer. *)
Definition first_access : AccessState :=
  with_roles (assignRole 1000 identity_api_key ENV_API_KEY_IDENTITY maintainer None 0 "r0" "l0" no_roles).1 no_access.
Definition sample_api_request (method path bearer : string) (roleBody : option (option UserIdentity * string * option UserRole))
  : ApiRequest :=
  mkRequest method path (Some (cat ["Bearer "; bearer])) None None None
    (Some [("name", JStr "ci")]%string) roleBody true 1000.
Notation sample_api := (api_request toy_session_hmac toy_sha toy_secrets true (Some "key"%string) 1000 10000 1000
                          (fun _ => None) sample_env 60000 120).
Notation sample_resolve := (resolvePrincipal toy_session_hmac toy_sha toy_secrets true (Some "key"%string)).
Definition grant_request (bearer : string) : ApiRequest :=
  sample_api_request "POST" "/api/settings/roles" bearer (Some (Some identity_github, "ada"%string, Some maintainer)).
Definition sample_draws : Draws := mkDraws "aa" "01".
Definition quiet_system : SystemState := mkSystem no_access idle_proxy ∅ empty_jwks.
Definition analyst_config : OidcConfig :=
  mkOidcConfig "https://idp" "app" 60 (mkMapping "groups" [("dev", analyst)]%string false).
Definition sample_system_ops : list SystemOp :=
  [ sys_request (grant_request "key") None None sample_draws;
    sys_start 0 (Ok sample_discovery) "st" "n1" "v";
    sys_callback sample_callback None None toy_session_id;
    sys_request (sample_api_request "POST" "/api/settings/tokens" "guess" None) None None sample_draws ].

(** An expired token keeps the authority of the role its id was given. *)
Definition token_access : AccessState :=
  mkAccess (assignRole 1000 identity_api_key "tok_01" maintainer None 0 "r0" "l0" no_roles).1
    (post_token toy_sha 1000 (fun _ => None) (Some [("name", JStr "ci")]%string) 0 "aa" "01" no_tokens).1 ∅ [] [].
Definition late_grant : ApiRequest :=
  mkRequest "POST" "/api/settings/roles" (Some "Bearer scl_live_aa"%string) None None None None
    (Some (Some identity_github, "ada"%string, Some maintainer)) true 5000.
Example expired_token_administers :
  token_status_name (resolveApiToken toy_sha 1000 "scl_live_aa" 5000 (ts_tokens (ac_tokens token_access))).2
  = "expired"%string /\
  match (sample_api late_grant None None sample_draws token_access idle_proxy).2 with
  | reply_assignment a => ra_role a = maintainer
  | _ => False
  end.
Proof. vm_compute. done. Qed.
(** The successor of a rotated token does not hold the role of its id. *)
Example rotation_loses_the_role :
  let rotated := with_token_state (rotate_token_route toy_sha 1000 "tok_01" 10 "bb" "02" (ac_tokens token_access)).1.1
                   [] token_access in
  role_of toy_session_hmac toy_sha toy_secrets true None (sample_api_request "GET" "/" "scl_live_aa" None) rotated = maintainer /\
  role_of toy_session_hmac toy_sha toy_secrets true None (sample_api_request "GET" "/" "scl_live_bb" None) rotated = analyst.
Proof. vm_compute. done. Qed.
(** The guard denies an undeclared route; the check the proxy runs lets it pass. *)
Example guard_and_proxy_differ :
  let rq := sample_api_request "POST" "/api/not-declared" "nobody" None in
  (enforceRouteAuthorization toy_session_hmac toy_sha toy_secrets true None 100 rq no_access).2 = route_undeclared /\
  (checkRbacPermission toy_session_hmac toy_sha toy_secrets true None 100 rq no_access).2 = None.
Proof. vm_compute. done. Qed.
