(* ===== verification/Alerts.v ===== *)
(** [lib/notifications/alert-policy.ts] and [alert-dispatcher.ts]: which route an
    alert takes, and the life of an incident.

    Instants are milliseconds, generated ids are arguments.  Every handler is
    written up to its [await]s, where only messages leave; what the handlers do to
    the incidents between two awaits is one step, and the calls of [notify] are
    kept in a log, whether or not a channel is down. *)

From S2P Require Import Prelude JsDate JsString CronParser.
From stdpp Require Import base list sets gmap strings numbers sorting.
From Stdlib Require Import ZArith Lia Ascii.
#[local] Open Scope Z_scope.

(** ** The policy *)

Inductive AlertSeverity : Type := sev_critical | sev_error | sev_warning | sev_info.
Definition ALERT_SEVERITIES : list AlertSeverity := [sev_critical; sev_error; sev_warning; sev_info].
Inductive AlertChannel : Type := ch_pagerduty | ch_slack | ch_email.
Inductive DedupKeyField : Type := key_source | key_severity | key_fingerprint.
#[export] Instance AlertSeverity_eq_dec : EqDecision AlertSeverity.
Proof. solve_decision. Defined.
#[export] Instance AlertChannel_eq_dec : EqDecision AlertChannel.
Proof. solve_decision. Defined.
Definition severity_name (s : AlertSeverity) : string :=
  match s with
  | sev_critical => "critical" | sev_error => "error" | sev_warning => "warning" | sev_info => "info"
  end.
Record EscalationStep : Type := mkStep { es_afterMinutes : Z; es_channels : list AlertChannel }.
Record AlertRoute : Type := mkRoute
  { rt_id : string; rt_source : string; rt_severity : list AlertSeverity; rt_channels : list AlertChannel;
    rt_dedupKey : list DedupKeyField; rt_dedupWindowMinutes : option Z; rt_ackSlaMinutes : option Z;
    rt_respectQuietHours : bool; rt_escalation : list EscalationStep }.
Record AlertPolicy : Type := mkAlertPolicy
  { po_dedupWindowMinutes : Z; po_ackSlaMinutes : Z; po_quietHours : option (string * string);
    po_routes : list AlertRoute }.
Record AlertEvent : Type := mkEvent
  { ev_source : string; ev_severity : AlertSeverity; ev_fingerprint : string; ev_summary : string }.

Definition ack_sla (policy : AlertPolicy) (route : AlertRoute) : Z :=
  default (po_ackSlaMinutes policy) (rt_ackSlaMinutes route).
(** [previous] is the minute of the step before. *)
Fixpoint steps_increase (previous : Z) (steps : list EscalationStep) : bool :=
  match steps with
  | [] => true
  | step :: rest => (previous <? es_afterMinutes step) && steps_increase (es_afterMinutes step) rest
  end.
Definition route_ok (policy : AlertPolicy) (route : AlertRoute) : bool :=
  match rt_escalation route with
  | [] => true
  | step :: _ => ack_sla policy route <=? es_afterMinutes step
  end && steps_increase 0 (rt_escalation route).
(** The [superRefine] of the schema raises no issue. *)
Definition policy_ok (policy : AlertPolicy) : bool :=
  bool_decide (NoDup (rt_id <$> po_routes policy)) &&
  forallb (route_ok policy) (po_routes policy) &&
  match last (po_routes policy) with
  | None => true
  | Some route => bool_decide (rt_source route = "*"%string) &&
                  Nat.eqb (length (rt_severity route)) (length ALERT_SEVERITIES)
  end.

Definition field_text (event : AlertEvent) (field : DedupKeyField) : string :=
  match field with
  | key_source => ev_source event
  | key_severity => severity_name (ev_severity event)
  | key_fingerprint => ev_fingerprint event
  end.
Definition buildDedupKey (route : AlertRoute) (event : AlertEvent) : string :=
  join_with ":" (rt_id route :: (field_text event <$> rt_dedupKey route)).
(** On the texts [HH_MM] accepts. *)
Definition minutesOfDay (hhmm : string) : Z :=
  match split_on ":" hhmm with
  | [hours; minutes] => default 0 (parse_digits hours) * 60 + default 0 (parse_digits minutes)
  | _ => 0
  end.
Definition isWithinQuietHours (policy : AlertPolicy) (now : Z) : bool :=
  match po_quietHours policy with
  | None => false
  | Some (start_, end_) =>
      let s := minutesOfDay start_ in
      let e := minutesOfDay end_ in
      let current := get_utc_hours now * 60 + get_utc_minutes now in
      if s =? e then false
      else if s <? e then (s <=? current) && (current <? e) else (s <=? current) || (current <? e)
  end.
Definition route_matches (event : AlertEvent) (candidate : AlertRoute) : bool :=
  (bool_decide (rt_source candidate = "*"%string) || bool_decide (rt_source candidate = ev_source event)) &&
  bool_decide (ev_severity event ∈ rt_severity candidate).
Record RoutingDecision : Type := mkRouting
  { rd_route : AlertRoute; rd_dedupKey : string; rd_dedupWindowMinutes : Z; rd_ackSlaMinutes : Z;
    rd_held : bool }.
Inductive AlertError : Type := no_route | unknown_incident | route_gone.
Definition resolveRoute (policy : AlertPolicy) (event : AlertEvent) (now : Z)
  : result AlertError RoutingDecision :=
  match List.find (route_matches event) (po_routes policy) with
  | None => Err no_route
  | Some route =>
      Ok (mkRouting route (buildDedupKey route event)
            (default (po_dedupWindowMinutes policy) (rt_dedupWindowMinutes route))
            (ack_sla policy route) (rt_respectQuietHours route && isWithinQuietHours policy now))
  end.

(** ** Incidents *)

Inductive IncidentStatus : Type := inc_triggered | inc_acknowledged | inc_resolved.
#[export] Instance IncidentStatus_eq_dec : EqDecision IncidentStatus.
Proof. solve_decision. Defined.
Inductive LifecycleAction : Type := act_trigger | act_escalate | act_acknowledge | act_resolve.
#[export] Instance LifecycleAction_eq_dec : EqDecision LifecycleAction.
Proof. solve_decision. Defined.
Inductive LifecycleOrigin : Type := from_dashboard | from_pagerduty | from_auto.
Record Incident : Type := mkIncident
  { in_id : string; in_dedupKey : string; in_routeId : string; in_event : AlertEvent;
    in_status : IncidentStatus; in_occurrences : Z; in_createdAt : Z; in_lastSeenAt : Z;
    in_notifiedAt : option Z; in_acknowledged : option (Z * string); in_resolved : option (Z * string);
    in_resolutionNote : option string; in_escalationLevel : nat }.
(** A call of [notify]: the distinct channels, the action, the incident then. *)
Record NotifyCall : Type := mkNotify
  { nc_at : Z; nc_channels : list AlertChannel; nc_action : LifecycleAction; nc_incident : Incident }.
(** The [Map] in insertion order, and the log. *)
Record AlertState : Type := mkAlerts { al_incidents : list Incident; al_log : list NotifyCall }.
Definition MINUTE_MS : Z := 60000.

Definition find_incident (incidentId : string) (l : list Incident) : option Incident :=
  List.find (fun i => bool_decide (in_id i = incidentId)) l.
(** [incidents.set]: an id already there keeps its place. *)
Fixpoint set_incident (i : Incident) (l : list Incident) : list Incident :=
  match l with
  | [] => [i]
  | j :: l' => if bool_decide (in_id j = in_id i) then i :: l' else j :: set_incident i l'
  end.
Definition findOpen (dedupKey : string) (l : list Incident) : option Incident :=
  List.find (fun i => bool_decide (in_dedupKey i = dedupKey) && negb (bool_decide (in_status i = inc_resolved))) l.
Definition policy_route (policy : AlertPolicy) (routeId : string) : option AlertRoute :=
  List.find (fun r => bool_decide (rt_id r = routeId)) (po_routes policy).
(** [new Set(channels)]. *)
Definition distinct_channels (l : list AlertChannel) : list AlertChannel :=
  foldl (fun acc c => if bool_decide (c ∈ acc) then acc else acc ++ [c]) [] l.
Definition notify (now : Z) (channels : list AlertChannel) (action : LifecycleAction) (i : Incident)
    (s : AlertState) : AlertState :=
  mkAlerts (al_incidents s) (al_log s ++ [mkNotify now (distinct_channels channels) action i]).
Definition put_incident (i : Incident) (s : AlertState) : AlertState :=
  mkAlerts (set_incident i (al_incidents s)) (al_log s).

Definition seen_again (now : Z) (i : Incident) : Incident :=
  mkIncident (in_id i) (in_dedupKey i) (in_routeId i) (in_event i) (in_status i) (in_occurrences i + 1)
    (in_createdAt i) now (in_notifiedAt i) (in_acknowledged i) (in_resolved i) (in_resolutionNote i)
    (in_escalationLevel i).
Definition set_notified (now : Z) (i : Incident) : Incident :=
  mkIncident (in_id i) (in_dedupKey i) (in_routeId i) (in_event i) (in_status i) (in_occurrences i)
    (in_createdAt i) (in_lastSeenAt i) (Some now) (in_acknowledged i) (in_resolved i) (in_resolutionNote i)
    (in_escalationLevel i).
Definition escalated (i : Incident) : Incident :=
  mkIncident (in_id i) (in_dedupKey i) (in_routeId i) (in_event i) (in_status i) (in_occurrences i)
    (in_createdAt i) (in_lastSeenAt i) (in_notifiedAt i) (in_acknowledged i) (in_resolved i)
    (in_resolutionNote i) (S (in_escalationLevel i)).
(** What [transition] writes; an empty note is not kept. *)
Definition moved_to (status : IncidentStatus) (now : Z) (actor : string) (note : option string) (i : Incident)
  : Incident :=
  mkIncident (in_id i) (in_dedupKey i) (in_routeId i) (in_event i) status (in_occurrences i)
    (in_createdAt i) (in_lastSeenAt i) (in_notifiedAt i)
    (match status with inc_acknowledged => Some (now, actor) | _ => in_acknowledged i end)
    (match status with inc_acknowledged => in_resolved i | _ => Some (now, actor) end)
    (match status with
     | inc_acknowledged => in_resolutionNote i
     | _ => match truthy note with Some n => Some n | None => in_resolutionNote i end
     end) (in_escalationLevel i).

(** ** The dispatcher *)

Section Dispatcher.
Context (policy : AlertPolicy).

Inductive IngestOutcome : Type := outcome_created | outcome_deduplicated.
Definition ingest (event : AlertEvent) (now : Z) (newId : string) (s : AlertState)
  : AlertState * result AlertError (Incident * IngestOutcome) :=
  match resolveRoute policy event now with
  | Err e => (s, Err e)
  | Ok decision =>
      let create :=
        let incident := mkIncident newId (rd_dedupKey decision) (rt_id (rd_route decision)) event
                          inc_triggered 1 now now (if rd_held decision then None else Some now)
                          None None None 0 in
        let s' := put_incident incident s in
        (if rd_held decision then s' else notify now (rt_channels (rd_route decision)) act_trigger incident s',
         Ok (incident, outcome_created)) in
      match findOpen (rd_dedupKey decision) (al_incidents s) with
      | Some open =>
          if now - in_lastSeenAt open <? rd_dedupWindowMinutes decision * MINUTE_MS
          then let open' := seen_again now open in
               (put_incident open' s, Ok (open', outcome_deduplicated))
          else create
      | None => create
      end
  end.
Definition transition (incidentId : string) (status : IncidentStatus) (actor : string)
    (origin : LifecycleOrigin) (note : option string) (now : Z) (s : AlertState)
  : AlertState * result AlertError Incident :=
  match find_incident incidentId (al_incidents s) with
  | None => (s, Err unknown_incident)
  | Some i =>
      if bool_decide (in_status i = inc_resolved) || bool_decide (in_status i = status) then (s, Ok i)
      else
        let i' := moved_to status now actor note i in
        let s' := put_incident i' s in
        match in_notifiedAt i with
        | None => (s', Ok i')
        | Some _ =>
            match policy_route policy (in_routeId i) with
            | None => (s', Err route_gone)
            | Some route =>
                let channels := match origin with
                                | from_pagerduty => filter (fun c => c <> ch_pagerduty) (rt_channels route)
                                | _ => rt_channels route end in
                (notify now channels (match status with inc_acknowledged => act_acknowledge | _ => act_resolve end)
                   i' s', Ok i')
            end
        end
  end.
Definition acknowledge (incidentId actor : string) (now : Z) (s : AlertState) :=
  transition incidentId inc_acknowledged actor from_dashboard None now s.
Definition resolve_incident (incidentId actor : string) (note : option string) (now : Z) (s : AlertState) :=
  transition incidentId inc_resolved actor from_dashboard note now s.
(** [None] where nothing is open under the key. *)
Definition on_open (dedupKey : string) (act : string -> AlertState * result AlertError Incident) (s : AlertState)
  : AlertState * option (result AlertError Incident) :=
  match findOpen dedupKey (al_incidents s) with
  | None => (s, None)
  | Some open => let '(s', r) := act (in_id open) in (s', Some r)
  end.
Definition applyRemoteStatus (dedupKey : string) (status : IncidentStatus) (actor : string) (now : Z)
    (s : AlertState) :=
  on_open dedupKey (fun i => transition i status actor from_pagerduty None now s) s.
Definition clear (dedupKey recoveryNote : string) (now : Z) (s : AlertState) :=
  on_open dedupKey
    (fun i => transition i inc_resolved "system" from_auto (Some (cat ["Recovered: "; recoveryNote])) now s) s.

(** One turn of the escalation loop of [tick]: true when it waits at the [await]
    of a step and goes on afterwards. *)
Definition tick_loop (now : Z) (incidentId : string) (s : AlertState) : AlertState * bool :=
  match find_incident incidentId (al_incidents s) with
  | None => (s, false)
  | Some i =>
      match in_notifiedAt i, policy_route policy (in_routeId i) with
      | Some n, Some route =>
          match rt_escalation route !! in_escalationLevel i with
          | None => (s, false)
          | Some step =>
              if now - n <? es_afterMinutes step * MINUTE_MS then (s, false)
              else let i' := escalated i in
                   (notify now (es_channels step) act_escalate i' (put_incident i' s), true)
          end
      | _, _ => (s, false)
      end
  end.
(** [tick] coming to an incident; a route the policy has lost throws. *)
Definition tick_visit (now : Z) (incidentId : string) (s : AlertState)
  : AlertState * result AlertError bool :=
  match find_incident incidentId (al_incidents s) with
  | None => (s, Ok false)
  | Some i =>
      if negb (bool_decide (in_status i = inc_triggered)) then (s, Ok false)
      else match policy_route policy (in_routeId i) with
           | None => (s, Err route_gone)
           | Some route =>
               match in_notifiedAt i with
               | None =>
                   if isWithinQuietHours policy now then (s, Ok false)
                   else let i' := set_notified now i in
                        (notify now (rt_channels route) act_trigger i' (put_incident i' s), Ok false)
               | Some _ => let '(s', more) := tick_loop now incidentId s in (s', Ok more)
               end
           end
  end.
(** The loop to its end, one turn per step of the route at most. *)
Fixpoint tick_turns (fuel : nat) (now : Z) (incidentId : string) (s : AlertState) (more : bool) : AlertState :=
  match fuel, more with
  | S fuel', true => let '(s', more') := tick_loop now incidentId s in tick_turns fuel' now incidentId s' more'
  | _, _ => s
  end.
Definition max_steps : nat := foldr (fun r n => Nat.max (length (rt_escalation r)) n) 0%nat (po_routes policy).
Fixpoint tick_over (now : Z) (ids : list string) (s : AlertState) : AlertState * result AlertError unit :=
  match ids with
  | [] => (s, Ok tt)
  | i :: ids' =>
      match tick_visit now i s with
      | (s', Err e) => (s', Err e)
      | (s', Ok more) => tick_over now ids' (tick_turns (S max_steps) now i s' more)
      end
  end.
(** A [tick] nothing interleaves with. *)
Definition tick (now : Z) (s : AlertState) : AlertState * result AlertError unit :=
  tick_over now (in_id <$> al_incidents s) s.

Definition isSlaBreached (i : Incident) (now : Z) : result AlertError bool :=
  match in_notifiedAt i with
  | Some n =>
      if negb (bool_decide (in_status i = inc_triggered)) then Ok false
      else match policy_route policy (in_routeId i) with
           | None => Err route_gone
           | Some route => Ok (ack_sla policy route * MINUTE_MS <=? now - n)
           end
  | None => Ok false
  end.
(** Newest first: a stable sort on the negated instant. *)
Definition list_incidents (s : AlertState) : list Incident :=
  sort_on (fun i => - in_createdAt i) (al_incidents s).

(** ** Every interleaving

    [aw_loops] are the escalation loops waiting at an [await]: the instant their
    tick read and their incident. *)
Record AlertWorld : Type := mkAlertWorld { aw_alerts : AlertState; aw_loops : list (Z * string) }.
Definition waiting_loop (now : Z) (i : string) (b : bool) : list (Z * string) := if b then [(now, i)] else [].
Definition visit_waits (out : result AlertError bool) : bool := match out with Ok b => b | Err _ => false end.
Inductive alert_step : AlertWorld -> AlertWorld -> Prop :=
  | step_ingest event now newId s loops :
      newId ∉ in_id <$> al_incidents s ->
      alert_step (mkAlertWorld s loops) (mkAlertWorld (ingest event now newId s).1 loops)
  | step_transition i status actor origin note now s loops :
      status <> inc_triggered ->
      alert_step (mkAlertWorld s loops) (mkAlertWorld (transition i status actor origin note now s).1 loops)
  | step_visit now i s loops :
      alert_step (mkAlertWorld s loops)
        (mkAlertWorld (tick_visit now i s).1 (loops ++ waiting_loop now i (visit_waits (tick_visit now i s).2)))
  | step_loop now i s l1 l2 :
      alert_step (mkAlertWorld s (l1 ++ (now, i) :: l2))
        (mkAlertWorld (tick_loop now i s).1 (l1 ++ l2 ++ waiting_loop now i (tick_loop now i s).2)).
Definition no_alerts : AlertWorld := mkAlertWorld (mkAlerts [] []) [].
End Dispatcher.

(** *** By hand *)

Definition page : AlertRoute :=
  mkRoute "page" "slo" [sev_critical] [ch_pagerduty; ch_slack] [key_source; key_fingerprint] None None false
    [mkStep 15 [ch_slack]; mkStep 30 [ch_pagerduty; ch_email]].
Definition rest_route : AlertRoute :=
  mkRoute "rest" "*" ALERT_SEVERITIES [ch_slack] [key_fingerprint] (Some 5) None true [].
Definition sample_policy : AlertPolicy := mkAlertPolicy 60 15 (Some ("22:00", "07:00")%string) [page; rest_route].
Definition burn : AlertEvent := mkEvent "slo" sev_critical "api" "burning".
Definition minutes (n : Z) : Z := n * MINUTE_MS.
Definition after_ingest : AlertState := (ingest sample_policy burn 0 "i1" (mkAlerts [] [])).1.
Example alerts_by_hand :
  policy_ok sample_policy = true /\
  (in_occurrences <$> al_incidents (ingest sample_policy burn (minutes 59) "i2" after_ingest).1) = [2] /\
  (in_escalationLevel <$> al_incidents (tick sample_policy (minutes 40) after_ingest).1) = [2%nat] /\
  length (al_log (tick sample_policy (minutes 40) after_ingest).1) = 3%nat /\
  (in_escalationLevel <$> al_incidents (tick sample_policy (minutes 40)
     (acknowledge sample_policy "i1" "ada" (minutes 1) after_ingest).1).1) = [0%nat] /\
  isWithinQuietHours sample_policy (minutes 1379) = true /\
  in_notifiedAt <$> al_incidents
    (ingest sample_policy (mkEvent "x" sev_info "f" "s") 0 "i3" (mkAlerts [] [])).1 = [None].
Proof. vm_compute. split_and!; done. Qed.
(** Once an open incident's window has lapsed, every further event opens another
    one: the lookup finds the oldest, whose last sighting no longer moves. *)
Example lapsed_window_floods :
  let at_ n s := (ingest sample_policy burn (minutes (61 + n)) (num_to_string n) s).1 in
  length (al_incidents (at_ 3 (at_ 2 (at_ 1 after_ingest)))) = 4%nat.
Proof. vm_compute. done. Qed.
(** A recovery resolves one of them. *)
Example clear_leaves_the_rest :
  let two := (ingest sample_policy burn (minutes 61) "i2" after_ingest).1 in
  (in_status <$> al_incidents (clear sample_policy "page:slo:api" "ok" (minutes 62) two).1)
  = [inc_resolved; inc_triggered].
Proof. vm_compute. done. Qed.
(** An acknowledgement that arrives while the first step is being sent does not
    stop the second one. *)
Example escalates_after_acknowledgement :
  let '(s1, more) := tick_visit sample_policy (minutes 40) "i1" after_ingest in
  let s2 := (acknowledge sample_policy "i1" "ada" (minutes 40) s1).1 in
  let '(s3, _) := tick_loop sample_policy (minutes 40) "i1" s2 in
  more = Ok true /\ (in_status <$> al_incidents s3) = [inc_acknowledged] /\
  (nc_action <$> al_log s3) = [act_trigger; act_escalate; act_acknowledge; act_escalate].
Proof. vm_compute. done. Qed.
(** A last route that repeats one severity four times passes for a catch-all. *)
Example false_catch_all :
  let narrow := mkRoute "narrow" "*" (repeat sev_info 4) [ch_slack] [key_source] None None false [] in
  let policy := mkAlertPolicy 60 15 None [narrow] in
  policy_ok policy = true /\ resolveRoute policy burn 0 = Err no_route.
Proof. vm_compute. done. Qed.

(** ** What the log says of an incident *)

Definition alert_calls_of (incidentId : string) (log : list NotifyCall) : list NotifyCall :=
  filter (fun c => in_id (nc_incident c) = incidentId) log.
Definition calls_with (action : LifecycleAction) (calls : list NotifyCall) : list NotifyCall :=
  filter (fun c => nc_action c = action) calls.
(** A call that fires [step] of an incident first notified at [n]. *)
Definition fires (n : Z) (c : NotifyCall) (step : EscalationStep) : Prop :=
  nc_channels c = distinct_channels (es_channels step) /\ n + es_afterMinutes step * MINUTE_MS <= nc_at c.
Definition status_ok (i : Incident) : Prop :=
  match in_status i with
  | inc_triggered => in_acknowledged i = None /\ in_resolved i = None
  | inc_acknowledged => is_Some (in_acknowledged i) /\ in_resolved i = None
  | inc_resolved => is_Some (in_resolved i)
  end.
Record notified_ok (policy : AlertPolicy) (route : AlertRoute) (n : Z) (i : Incident)
    (calls : list NotifyCall) : Prop := mkNotifiedOk
  { no_first : exists c, head calls = Some c /\ calls_with act_trigger calls = [c] /\
                         nc_at c = n /\ nc_channels c = distinct_channels (rt_channels route);
    no_level : (in_escalationLevel i <= length (rt_escalation route))%nat;
    no_steps : Forall2 (fires n) (calls_with act_escalate calls)
                 (take (in_escalationLevel i) (rt_escalation route));
    no_sla : Forall (fun c => n + ack_sla policy route * MINUTE_MS <= nc_at c) (calls_with act_escalate calls);
    no_acks : nc_at <$> calls_with act_acknowledge calls = option_list (fst <$> in_acknowledged i);
    no_resolves : nc_at <$> calls_with act_resolve calls = option_list (fst <$> in_resolved i) }.
Record incident_ok (policy : AlertPolicy) (i : Incident) (calls : list NotifyCall) : Prop := mkIncidentOk
  { io_status : status_ok i;
    io_route : exists route,
      policy_route policy (in_routeId i) = Some route /\ route_matches (in_event i) route = true /\
      in_dedupKey i = buildDedupKey route (in_event i) /\
      match in_notifiedAt i with
      | None => calls = [] /\ in_escalationLevel i = 0%nat
      | Some n => notified_ok policy route n i calls
      end }.
Record alerts_ok (policy : AlertPolicy) (s : AlertState) : Prop := mkAlertsOk
  { ao_ids : NoDup (in_id <$> al_incidents s);
    ao_calls : Forall (fun c => in_id (nc_incident c) ∈ in_id <$> al_incidents s) (al_log s);
    ao_each : forall i, i ∈ al_incidents s -> incident_ok policy i (alert_calls_of (in_id i) (al_log s)) }.

(** ** The store *)

Lemma find_incident_Some (i : string) (l : list Incident) (x : Incident) :
  find_incident i l = Some x -> x ∈ l /\ in_id x = i.
Proof.
  intros H. apply List.find_some in H as [? ?%bool_decide_eq_true]. split; [by apply list_elem_of_In|done].
Qed.

Lemma find_incident_elem (l : list Incident) (x : Incident) :
  NoDup (in_id <$> l) -> x ∈ l -> find_incident (in_id x) l = Some x.
Proof.
  induction l as [|y l IH]; intros Hnd Hx; [by apply elem_of_nil in Hx|].
  rewrite fmap_cons in Hnd. apply NoDup_cons in Hnd as [Hy Hnd]. cbn.
  apply elem_of_cons in Hx as [->|Hx]; [by rewrite bool_decide_true|].
  rewrite bool_decide_false; [by apply IH|]. intros E. apply Hy. rewrite E. by apply list_elem_of_fmap_2.
Qed.

Lemma findOpen_Some (key : string) (l : list Incident) (x : Incident) :
  findOpen key l = Some x -> x ∈ l /\ in_dedupKey x = key /\ in_status x <> inc_resolved.
Proof.
  intros H. apply List.find_some in H as [? H]. apply andb_true_iff in H as [?%bool_decide_eq_true H].
  apply negb_true_iff, bool_decide_eq_false in H. split; [by apply list_elem_of_In|done].
Qed.

Lemma set_incident_ids (x : Incident) (l : list Incident) :
  in_id x ∈ in_id <$> l -> in_id <$> set_incident x l = in_id <$> l.
Proof.
  induction l as [|y l IH]; cbn; intros H; [by apply elem_of_nil in H|].
  destruct (bool_decide_reflect (in_id y = in_id x)) as [E|E]; cbn; [by rewrite E|].
  f_equal. apply IH. apply elem_of_cons in H as [H|H]; [congruence|done].
Qed.

Lemma set_incident_fresh (x : Incident) (l : list Incident) :
  in_id x ∉ in_id <$> l -> set_incident x l = l ++ [x].
Proof.
  induction l as [|y l IH]; cbn; intros H; [done|]. apply not_elem_of_cons in H as [H1 H2].
  rewrite bool_decide_false by congruence. f_equal. by apply IH.
Qed.

Lemma elem_of_set_incident (x y : Incident) (l : list Incident) :
  NoDup (in_id <$> l) -> y ∈ set_incident x l -> y = x \/ y ∈ l /\ in_id y <> in_id x.
Proof.
  induction l as [|z l IH]; cbn; intros Hnd; [intros ?%list_elem_of_singleton; by left|].
  apply NoDup_cons in Hnd as [Hz Hnd].
  destruct (bool_decide_reflect (in_id z = in_id x)) as [E|E]; intros [->|H]%elem_of_cons.
  - by left.
  - right. split; [by right|]. intros E'. apply Hz. rewrite E, <- E'. by apply list_elem_of_fmap_2.
  - right. split; [by left|done].
  - destruct (IH Hnd H) as [->|[? ?]]; [by left|right; split; [by right|done]].
Qed.

Lemma alert_calls_of_app (i : string) (l k : list NotifyCall) : alert_calls_of i (l ++ k) = alert_calls_of i l ++ alert_calls_of i k.
Proof. apply filter_app. Qed.
Lemma calls_with_app (a : LifecycleAction) (l k : list NotifyCall) :
  calls_with a (l ++ k) = calls_with a l ++ calls_with a k.
Proof. apply filter_app. Qed.

Lemma alert_calls_of_own (i : string) (l : list NotifyCall) :
  Forall (fun c => in_id (nc_incident c) = i) l -> alert_calls_of i l = l.
Proof. induction 1; cbn; [done|]. unfold alert_calls_of in *. cbn. rewrite decide_True by done. by f_equal. Qed.
Lemma alert_calls_of_other (i j : string) (l : list NotifyCall) :
  i <> j -> Forall (fun c => in_id (nc_incident c) = i) l -> alert_calls_of j l = [].
Proof.
  intros Hij. induction 1; cbn; [done|]. unfold alert_calls_of in *. cbn. rewrite decide_False by congruence. done.
Qed.

#[local] Arguments alert_calls_of : simpl never.

(** An operation writes one incident and appends calls about it. *)
Definition write (i : Incident) (calls : list NotifyCall) (s : AlertState) : AlertState :=
  mkAlerts (set_incident i (al_incidents s)) (al_log s ++ calls).

Lemma notify_put (now : Z) (ch : list AlertChannel) (a : LifecycleAction) (i : Incident) (s : AlertState) :
  notify now ch a i (put_incident i s) = write i [mkNotify now (distinct_channels ch) a i] s.
Proof. done. Qed.
Lemma put_write (i : Incident) (s : AlertState) : put_incident i s = write i [] s.
Proof. unfold put_incident, write. by rewrite app_nil_r. Qed.

Section Invariant.
Context (policy : AlertPolicy).

Lemma write_old (x x' : Incident) (calls : list NotifyCall) (s : AlertState) :
  alerts_ok policy s -> x ∈ al_incidents s -> in_id x' = in_id x ->
  Forall (fun c => in_id (nc_incident c) = in_id x) calls ->
  (incident_ok policy x (alert_calls_of (in_id x) (al_log s)) ->
   incident_ok policy x' (alert_calls_of (in_id x) (al_log s) ++ calls)) ->
  alerts_ok policy (write x' calls s).
Proof.
  intros [Hids Hcalls Heach] Hx Hid Hown Hok.
  assert (Hin : in_id x ∈ in_id <$> al_incidents s) by by apply list_elem_of_fmap_2.
  assert (Hsame : in_id <$> set_incident x' (al_incidents s) = in_id <$> al_incidents s)
    by (apply set_incident_ids; by rewrite Hid).
  split; cbn; rewrite ?Hsame; [done| |].
  - apply Forall_app. split; [done|]. eapply Forall_impl; [exact Hown|]. cbn. by intros c ->.
  - intros y [->|[Hy Hne]]%elem_of_set_incident; [| |done].
    + rewrite Hid, alert_calls_of_app, (alert_calls_of_own _ calls) by done. by apply Hok, Heach.
    + rewrite alert_calls_of_app, (alert_calls_of_other (in_id x) (in_id y) calls), app_nil_r; [by apply Heach|congruence|done].
Qed.

Lemma write_new (x : Incident) (calls : list NotifyCall) (s : AlertState) :
  alerts_ok policy s -> in_id x ∉ in_id <$> al_incidents s ->
  Forall (fun c => in_id (nc_incident c) = in_id x) calls -> incident_ok policy x calls ->
  alerts_ok policy (write x calls s).
Proof.
  intros [Hids Hcalls Heach] Hx Hown Hok.
  assert (Hold : alert_calls_of (in_id x) (al_log s) = []).
  { clear Heach. induction Hcalls as [|c l Hc Hl IH]; [done|]. unfold alert_calls_of in *. cbn.
    rewrite decide_False; [done|]. intros E. by rewrite E in Hc. }
  unfold write. rewrite set_incident_fresh by done. split; cbn; rewrite ?fmap_app.
  - apply NoDup_app. split; [done|]. split; [|apply NoDup_singleton].
    intros y Hy ->%list_elem_of_singleton. done.
  - apply Forall_app. split; eapply Forall_impl; [exact Hcalls| |exact Hown|]; cbn; intros c Hc;
      apply elem_of_app; [by left|right; rewrite Hc; by left].
  - intros y [Hy| ->%list_elem_of_singleton]%elem_of_app; rewrite alert_calls_of_app.
    + rewrite (alert_calls_of_other (in_id x) _ calls), app_nil_r; [by apply Heach| |done].
      intros E. apply Hx. rewrite E. by apply list_elem_of_fmap_2.
    + by rewrite Hold, alert_calls_of_own.
Qed.

(** *** What a policy that parses promises *)

Lemma policy_ok_inv :
  policy_ok policy = true ->
  NoDup (rt_id <$> po_routes policy) /\ forall route, route ∈ po_routes policy -> route_ok policy route = true.
Proof.
  intros H. apply andb_true_iff in H as [H _]. apply andb_true_iff in H as [H1%bool_decide_eq_true H2].
  split; [done|]. intros route Hr. rewrite forallb_forall in H2. by apply H2, list_elem_of_In.
Qed.

Lemma policy_route_Some (id : string) (route : AlertRoute) :
  policy_route policy id = Some route -> route ∈ po_routes policy /\ rt_id route = id.
Proof.
  intros H. apply List.find_some in H as [? ?%bool_decide_eq_true]. split; [by apply list_elem_of_In|done].
Qed.

Lemma policy_route_elem (route : AlertRoute) :
  policy_ok policy = true -> route ∈ po_routes policy -> policy_route policy (rt_id route) = Some route.
Proof.
  intros [Hnd _]%policy_ok_inv. unfold policy_route. revert Hnd.
  induction (po_routes policy) as [|q l IH]; cbn; intros Hnd Hr; [by apply elem_of_nil in Hr|].
  apply NoDup_cons in Hnd as [Hq Hnd]. apply elem_of_cons in Hr as [->|Hr]; [by rewrite bool_decide_true|].
  rewrite bool_decide_false; [by apply IH|]. intros E. apply Hq. rewrite E. by apply list_elem_of_fmap_2.
Qed.

Lemma steps_increase_later (steps : list EscalationStep) : forall (p : Z) (k : nat) (step : EscalationStep),
  steps_increase p steps = true -> steps !! k = Some step -> p < es_afterMinutes step.
Proof.
  induction steps as [|s steps IH]; intros p k step Hs Hk; [done|]. cbn in Hs.
  apply andb_true_iff in Hs as [Hp%Z.ltb_lt Hs]. destruct k as [|k]; cbn in Hk.
  - by injection Hk as <-.
  - specialize (IH _ _ _ Hs Hk). lia.
Qed.

Lemma step_not_early (route : AlertRoute) (k : nat) (step : EscalationStep) :
  route_ok policy route = true -> rt_escalation route !! k = Some step ->
  0 < es_afterMinutes step /\ ack_sla policy route <= es_afterMinutes step.
Proof.
  unfold route_ok. intros [H1 H2]%andb_true_iff Hk. split; [by eapply steps_increase_later|].
  destruct (rt_escalation route) as [|first rest]; [done|]. apply Z.leb_le in H1. cbn in H2.
  apply andb_true_iff in H2 as [_ H2]. destruct k as [|k]; cbn in Hk.
  - by injection Hk as <-.
  - pose proof (steps_increase_later _ _ _ _ H2 Hk). lia.
Qed.

(** *** One incident *)

Context (Hpolicy : policy_ok policy = true).

Lemma seen_again_ok (now : Z) (i : Incident) (calls : list NotifyCall) :
  incident_ok policy i calls -> incident_ok policy (seen_again now i) (calls ++ []).
Proof.
  rewrite app_nil_r. intros [Hs (route & ? & ? & ? & Hn)]. split; [done|]. exists route. split_and!; try done.
  cbn. destruct (in_notifiedAt i) as [n|]; [|done]. by destruct Hn.
Qed.

Lemma set_notified_ok (now : Z) (i i' : Incident) (route : AlertRoute) (calls : list NotifyCall) :
  in_status i = inc_triggered -> in_notifiedAt i = None -> policy_route policy (in_routeId i) = Some route ->
  incident_ok policy i calls ->
  incident_ok policy (set_notified now i)
    (calls ++ [mkNotify now (distinct_channels (rt_channels route)) act_trigger i']).
Proof.
  intros Hst Hn Hr [Hs (route' & Hr' & ? & ? & Hok)]. rewrite Hn in Hok. destruct Hok as [-> Hl].
  rewrite Hr in Hr'. injection Hr' as <-. split; [done|]. exists route. split_and!; try done. cbn.
  unfold status_ok in Hs. rewrite Hst in Hs. destruct Hs as [Ha Hz].
  split; cbn; rewrite ?Hl, ?Ha, ?Hz; cbn; try done; [|lia]. by eexists.
Qed.

Lemma escalated_ok (now n : Z) (i i' : Incident) (route : AlertRoute) (step : EscalationStep)
    (calls : list NotifyCall) :
  in_notifiedAt i = Some n -> policy_route policy (in_routeId i) = Some route ->
  rt_escalation route !! in_escalationLevel i = Some step -> es_afterMinutes step * MINUTE_MS <= now - n ->
  incident_ok policy i calls ->
  incident_ok policy (escalated i)
    (calls ++ [mkNotify now (distinct_channels (es_channels step)) act_escalate i']).
Proof.
  intros Hn Hr Hstep Hdue [Hs (route' & Hr' & ? & ? & Hok)]. rewrite Hn in Hok. rewrite Hr in Hr'.
  injection Hr' as <-. split; [done|]. exists route. split_and!; try done. cbn. rewrite Hn.
  pose proof (policy_route_Some _ _ Hr) as [Hin _]. apply policy_ok_inv in Hpolicy as [_ Hroutes].
  destruct (step_not_early _ _ _ (Hroutes _ Hin) Hstep) as [_ Hsla].
  destruct Hok as [(c & Hc & Ht & Hat & Hch) Hl Hsteps Hs' Ha Hz].
  split; rewrite ?calls_with_app; cbn; rewrite ?app_nil_r; try done.
  - exists c. split_and!; [|done..]. by destruct calls.
  - by apply lookup_lt_Some in Hstep.
  - rewrite (take_S_r _ _ step) by done. apply Forall2_app; [done|]. constructor; [|done].
    split; [done|]. cbn. lia.
  - apply Forall_app. split; [done|]. constructor; [|done]. cbn. unfold MINUTE_MS in *. nia.
Qed.

Lemma moved_to_ok (status : IncidentStatus) (now : Z) (actor : string) (note : option string)
    (i : Incident) (calls more : list NotifyCall) :
  status <> inc_triggered -> in_status i <> inc_resolved -> in_status i <> status ->
  match in_notifiedAt i with
  | None => more = []
  | Some _ => exists ch i',
      more = [mkNotify now ch (match status with inc_acknowledged => act_acknowledge | _ => act_resolve end) i']
  end ->
  incident_ok policy i calls -> incident_ok policy (moved_to status now actor note i) (calls ++ more).
Proof.
  intros H1 H2 H3 Hmore [Hs (route & ? & ? & ? & Hok)]. unfold status_ok in Hs. split.
  { unfold status_ok. destruct status, (in_status i) eqn:E; cbn; try done; by destruct_and?. }
  exists route. split_and!; try done. cbn. destruct (in_notifiedAt i) as [n|].
  2: { subst more. by rewrite app_nil_r. }
  destruct Hmore as (ch & i' & ->). destruct Hok as [(c & Hc & Ht & Hat & Hch) Hl Hsteps Hsl Ha Hz].
  assert (Hr : in_resolved i = None) by by (destruct (in_status i); destruct_and?).
  assert (Hack : status = inc_acknowledged -> in_acknowledged i = None)
    by (destruct status, (in_status i); intros; destruct_and?; done).
  destruct status; [done| |]; (split; rewrite ?calls_with_app, ?fmap_app; cbn; rewrite ?app_nil_r; try done;
    [exists c; split_and!; [by destruct calls|done..]|]).
  - rewrite Ha, Hack by done. done.
  - rewrite Hz, Hr. done.
Qed.

(** *** The handlers *)

Lemma ingest_ok (event : AlertEvent) (now : Z) (newId : string) (s : AlertState) :
  newId ∉ in_id <$> al_incidents s -> alerts_ok policy s -> alerts_ok policy (ingest policy event now newId s).1.
Proof.
  intros Hfresh Hs. unfold ingest, resolveRoute.
  destruct (List.find _ _) as [route|] eqn:Hroute; [|done]. apply List.find_some in Hroute as [Hin Hmatch].
  apply list_elem_of_In in Hin. cbn [rd_dedupKey rd_dedupWindowMinutes rd_held rd_route].
  set (create := (if _ && _ then put_incident _ s else _, _)).
  assert (Hc : alerts_ok policy create.1).
  { subst create. cbn [fst]. rewrite notify_put, put_write.
    destruct (rt_respectQuietHours route && isWithinQuietHours policy now); apply write_new; cbn; try done.
    - split; [done|]. exists route. split_and!; try done. by apply policy_route_elem.
    - by repeat constructor.
    - split; [done|]. exists route. split_and!; try done; [by apply policy_route_elem|]. cbn.
      split; cbn; try done; [by eexists|lia]. }
  destruct (findOpen _ _) as [open|] eqn:Hopen; [|done]. destruct (_ <? _); [|done]. cbn [fst].
  apply findOpen_Some in Hopen as [Hopen _]. rewrite put_write.
  eapply write_old; [done|exact Hopen|done|by constructor|]. apply seen_again_ok.
Qed.

Lemma transition_ok (i : string) (status : IncidentStatus) (actor : string) (origin : LifecycleOrigin)
    (note : option string) (now : Z) (s : AlertState) :
  status <> inc_triggered -> alerts_ok policy s ->
  alerts_ok policy (transition policy i status actor origin note now s).1.
Proof.
  intros Hstatus Hs. unfold transition. destruct (find_incident i _) as [x|] eqn:Hx; [|done].
  apply find_incident_Some in Hx as [Hx _].
  destruct (bool_decide_reflect (in_status x = inc_resolved)); [done|].
  destruct (bool_decide_reflect (in_status x = status)); [done|]. cbn [orb].
  destruct (io_route _ _ _ (ao_each _ _ Hs x Hx)) as (route & Hroute & _).
  destruct (in_notifiedAt x) as [m|] eqn:Hn; cbn [fst]; rewrite ?Hroute, ?notify_put, ?put_write; cbn [fst];
    (eapply write_old; [done|exact Hx|done|by repeat constructor|]; apply moved_to_ok; try done);
    rewrite Hn; eauto.
Qed.

Lemma tick_loop_ok (now : Z) (i : string) (s : AlertState) :
  alerts_ok policy s -> alerts_ok policy (tick_loop policy now i s).1.
Proof.
  intros Hs. unfold tick_loop. destruct (find_incident i _) as [x|] eqn:Hx; [|done].
  apply find_incident_Some in Hx as [Hx _].
  destruct (in_notifiedAt x) as [n|] eqn:Hn; [|done].
  destruct (policy_route policy _) as [route|] eqn:Hroute; [|done].
  destruct (rt_escalation route !! _) as [step|] eqn:Hstep; [|done].
  destruct (Z.ltb_spec (now - n) (es_afterMinutes step * MINUTE_MS)); [done|]. cbn [fst]. rewrite notify_put.
  eapply write_old; [done|exact Hx|done|by repeat constructor|]. by eapply escalated_ok.
Qed.

Lemma tick_visit_ok (now : Z) (i : string) (s : AlertState) :
  alerts_ok policy s -> alerts_ok policy (tick_visit policy now i s).1.
Proof.
  intros Hs. unfold tick_visit. destruct (find_incident i _) as [x|] eqn:Hx; [|done].
  destruct (bool_decide_reflect (in_status x = inc_triggered)); [cbn [negb]|done].
  destruct (policy_route policy _) as [route|] eqn:Hroute; [|done].
  destruct (in_notifiedAt x) as [n|] eqn:Hn.
  - pose proof (tick_loop_ok now i s Hs). by destruct (tick_loop policy now i s).
  - destruct (isWithinQuietHours policy now); [done|]. cbn [fst]. rewrite notify_put.
    apply find_incident_Some in Hx as [Hx _].
    eapply write_old; [done|exact Hx|done|by repeat constructor|]. by apply set_notified_ok.
Qed.

Lemma no_alerts_ok : alerts_ok policy (aw_alerts no_alerts).
Proof. split; [constructor|constructor|]. by intros i ?%elem_of_nil. Qed.

Lemma reachable_ok (w : AlertWorld) :
  rtc (alert_step policy) no_alerts w -> alerts_ok policy (aw_alerts w).
Proof.
  intros H. pose proof no_alerts_ok as H0. induction H as [|w w' w'' Hstep _ IH]; [done|]. apply IH.
  destruct Hstep; cbn in *; [by apply ingest_ok|by apply transition_ok|by apply tick_visit_ok|by apply tick_loop_ok].
Qed.

(** *** A whole tick *)

Lemma find_set_incident (x : Incident) (j : string) (l : list Incident) :
  find_incident j (set_incident x l) = if decide (j = in_id x) then Some x else find_incident j l.
Proof.
  induction l as [|y l IH]; cbn.
  - destruct (decide _) as [->|]; [by rewrite bool_decide_true|by rewrite bool_decide_false by congruence].
  - destruct (bool_decide_reflect (in_id y = in_id x)) as [E|E]; cbn.
    + destruct (decide _) as [->|]; [by rewrite bool_decide_true|].
      by rewrite !bool_decide_false by congruence.
    + fold (find_incident j (set_incident x l)). rewrite IH.
      destruct (bool_decide_reflect (in_id y = j)) as [<-|]; [by rewrite decide_False|done].
Qed.

#[local] Arguments find_incident : simpl never.

(** [s'] differs from [s] in the incident [i] at most. *)
Definition only_touches (i : string) (s s' : AlertState) : Prop :=
  in_id <$> al_incidents s' = in_id <$> al_incidents s /\
  forall j, j <> i -> find_incident j (al_incidents s') = find_incident j (al_incidents s).

Lemma only_touches_refl (i : string) (s : AlertState) : only_touches i s s.
Proof. done. Qed.
Lemma only_touches_trans (i : string) (s1 s2 s3 : AlertState) :
  only_touches i s1 s2 -> only_touches i s2 s3 -> only_touches i s1 s3.
Proof. intros [H1 H2] [H3 H4]. split; [congruence|]. intros j Hj. by rewrite H4, H2. Qed.

Lemma write_touches (x y : Incident) (calls : list NotifyCall) (s : AlertState) :
  find_incident (in_id y) (al_incidents s) = Some x -> only_touches (in_id y) s (write y calls s).
Proof.
  intros [Hx Hid]%find_incident_Some. split; cbn.
  - apply set_incident_ids. rewrite <- Hid. by apply list_elem_of_fmap_2.
  - intros j Hj. by rewrite find_set_incident, decide_False.
Qed.

Lemma tick_loop_touches (now : Z) (i : string) (s : AlertState) : only_touches i s (tick_loop policy now i s).1.
Proof.
  unfold tick_loop. destruct (find_incident i _) as [x|] eqn:Hx; [|done].
  destruct (in_notifiedAt x), (policy_route policy (in_routeId x)) as [route|]; try done.
  destruct (rt_escalation route !! _) as [step|]; [|done]. destruct (_ <? _); [done|].
  pose proof (find_incident_Some _ _ _ Hx) as [_ Hid]. subst i. cbn [fst]. rewrite notify_put.
  apply (write_touches x (escalated x)). exact Hx.
Qed.

Lemma tick_visit_touches (now : Z) (i : string) (s : AlertState) : only_touches i s (tick_visit policy now i s).1.
Proof.
  unfold tick_visit. destruct (find_incident i _) as [x|] eqn:Hx; [|done]. destruct (negb _); [done|].
  destruct (policy_route policy _) as [route|]; [|done]. destruct (in_notifiedAt x).
  - pose proof (tick_loop_touches now i s). by destruct (tick_loop policy now i s).
  - destruct (isWithinQuietHours policy now); [done|].
    pose proof (find_incident_Some _ _ _ Hx) as [_ Hid]. subst i. cbn [fst]. rewrite notify_put.
    apply (write_touches x (set_notified now x)). exact Hx.
Qed.

(** Nothing of the incident's escalation is due. *)
Definition nothing_due (now : Z) (x : Incident) : Prop :=
  forall n route step, in_notifiedAt x = Some n -> policy_route policy (in_routeId x) = Some route ->
    rt_escalation route !! in_escalationLevel x = Some step -> now - n < es_afterMinutes step * MINUTE_MS.
Definition tick_settled (now : Z) (x : Incident) : Prop :=
  in_status x = inc_triggered ->
  nothing_due now x /\ (in_notifiedAt x = None -> isWithinQuietHours policy now = true).

Lemma tick_loop_spec (now : Z) (i : string) (s : AlertState) (x : Incident) (n : Z) (route : AlertRoute) :
  find_incident i (al_incidents s) = Some x -> in_notifiedAt x = Some n ->
  policy_route policy (in_routeId x) = Some route ->
  match tick_loop policy now i s with
  | (s', true) => find_incident i (al_incidents s') = Some (escalated x) /\
                  (in_escalationLevel x < length (rt_escalation route))%nat
  | (s', false) => s' = s /\ nothing_due now x
  end.
Proof.
  intros Hx Hn Hr. unfold tick_loop. rewrite Hx, Hn, Hr.
  destruct (rt_escalation route !! _) as [step|] eqn:Hstep.
  - destruct (Z.ltb_spec (now - n) (es_afterMinutes step * MINUTE_MS)).
    + split; [done|]. intros n' route' step' ???. by simplify_eq.
    + split; [|by apply lookup_lt_Some in Hstep]. cbn. rewrite find_set_incident.
      apply find_incident_Some in Hx as [_ <-]. by rewrite decide_True.
  - split; [done|]. intros n' route' step' ???. by simplify_eq.
Qed.

Lemma tick_turns_spec (now : Z) (i : string) (n : Z) (route : AlertRoute) (fuel : nat) :
  forall (s : AlertState) (more : bool) (x : Incident),
  find_incident i (al_incidents s) = Some x -> in_notifiedAt x = Some n ->
  policy_route policy (in_routeId x) = Some route ->
  (if more then length (rt_escalation route) - in_escalationLevel x < fuel else nothing_due now x)%nat ->
  exists x', find_incident i (al_incidents (tick_turns policy fuel now i s more)) = Some x' /\
             nothing_due now x' /\ in_notifiedAt x' = Some n.
Proof.
  induction fuel as [|fuel IH]; intros s more x Hx Hn Hr Hmore.
  { destruct more; [lia|]. by exists x. }
  destruct more; cbn; [|by exists x].
  pose proof (tick_loop_spec now i s x n route Hx Hn Hr) as H.
  destruct (tick_loop policy now i s) as [s' more']. destruct more'.
  - destruct H as [H Hl]. apply (IH s' true (escalated x)); cbn; [done..|lia].
  - destruct H as [-> H]. by apply (IH s false x).
Qed.

Lemma tick_turns_touches (now : Z) (i : string) (fuel : nat) : forall (s : AlertState) (more : bool),
  only_touches i s (tick_turns policy fuel now i s more).
Proof.
  induction fuel as [|fuel IH]; intros s [|]; cbn; try done.
  pose proof (tick_loop_touches now i s). destruct (tick_loop policy now i s) as [s' more'].
  by eapply only_touches_trans.
Qed.

Lemma tick_turns_ok (now : Z) (i : string) (fuel : nat) : forall (s : AlertState) (more : bool),
  alerts_ok policy s -> alerts_ok policy (tick_turns policy fuel now i s more).
Proof.
  induction fuel as [|fuel IH]; intros s [|] Hs; cbn; try done.
  pose proof (tick_loop_ok now i s Hs). destruct (tick_loop policy now i s) as [s' more']. by apply IH.
Qed.

Lemma max_steps_bound (id : string) (route : AlertRoute) :
  policy_route policy id = Some route -> (length (rt_escalation route) <= max_steps policy)%nat.
Proof.
  intros [Hin _]%policy_route_Some. unfold max_steps. clear Hpolicy.
  induction Hin as [r l|r r' l _ IH]; cbn; lia.
Qed.

(** What one incident's turn in a tick leaves. *)
Record visited (now : Z) (i : string) (s s' : AlertState) : Prop := mkVisited
  { vi_ok : alerts_ok policy s';
    vi_only : only_touches i s s';
    vi_settled : forall x, find_incident i (al_incidents s') = Some x -> tick_settled now x;
    vi_quiet : forall x, find_incident i (al_incidents s) = Some x -> in_status x <> inc_triggered ->
                 find_incident i (al_incidents s') = Some x }.

Lemma visit_spec (now : Z) (i : string) (s : AlertState) :
  alerts_ok policy s ->
  exists s' more, tick_visit policy now i s = (s', Ok more) /\
    visited now i s (tick_turns policy (S (max_steps policy)) now i s' more).
Proof.
  intros Hs. pose proof (tick_visit_ok now i s Hs) as Hok. pose proof (tick_visit_touches now i s) as Ht.
  unfold tick_visit in *. destruct (find_incident i _) as [x|] eqn:Hx.
  2: { exists s, false. split; [done|]. split; [done..| |]; cbn; intros y; by rewrite Hx. }
  destruct (bool_decide_reflect (in_status x = inc_triggered)) as [Hst|Hst]; cbn [negb] in *.
  2: { exists s, false. split; [done|]. split; [done..| |]; cbn; intros y; rewrite Hx; intros [= <-]; [|done].
       by intros ?. }
  pose proof (find_incident_Some _ _ _ Hx) as [Hin Hid].
  destruct (io_route _ _ _ (ao_each _ _ Hs x Hin)) as (route & Hr & _). rewrite Hr in *.
  destruct (in_notifiedAt x) as [n|] eqn:Hn.
  - pose proof (tick_loop_spec now i s x n route Hx Hn Hr) as Hl.
    destruct (tick_loop policy now i s) as [s' more] eqn:El. exists s', more. split; [done|]. cbn [fst] in *.
    assert (Hend : exists x', find_incident i (al_incidents (tick_turns policy (S (max_steps policy)) now i s' more))
                              = Some x' /\ nothing_due now x' /\ in_notifiedAt x' = Some n).
    { destruct more.
      - destruct Hl as [Hl ?]. pose proof (max_steps_bound _ _ Hr).
        apply (tick_turns_spec now i n route _ s' true (escalated x)); cbn; [done..|lia].
      - destruct Hl as [-> Hl]. by apply (tick_turns_spec now i n route _ s false x). }
    destruct Hend as (x' & Hx' & Hdue & Hn'). split.
    + by apply tick_turns_ok.
    + eapply only_touches_trans; [exact Ht|]. apply tick_turns_touches.
    + intros y. rewrite Hx'. intros [= <-] _. split; [done|]. by rewrite Hn'.
    + intros y Hy Hne. rewrite Hx in Hy. by injection Hy as <-.
  - destruct (isWithinQuietHours policy now) eqn:Hq.
    + exists s, false. split; [done|]. split; [done..| |]; cbn; intros y; rewrite Hx; intros [= <-]; [|done].
      intros _. split; [|done]. intros ??? Hn2. congruence.
    + eexists _, false. split; [done|]. cbn [fst tick_turns] in *. split; [done..| |].
      * intros y. cbn. rewrite find_set_incident, decide_True by done. intros [= <-] _. split; [|done].
        intros n' route' step [= <-] Hr' Hstep. cbn in *. rewrite Hr in Hr'. injection Hr' as <-.
        pose proof (policy_route_Some _ _ Hr) as [Hrin _].
        apply policy_ok_inv in Hpolicy as [_ Hroutes].
        destruct (step_not_early _ _ _ (Hroutes _ Hrin) Hstep) as [? _]. unfold MINUTE_MS. lia.
      * intros y Hy Hne. rewrite Hx in Hy. by injection Hy as <-.
Qed.

Lemma tick_over_spec (now : Z) (ids : list string) : forall s : AlertState,
  alerts_ok policy s -> NoDup ids ->
  exists s', tick_over policy now ids s = (s', Ok tt) /\ alerts_ok policy s' /\
    in_id <$> al_incidents s' = in_id <$> al_incidents s /\
    (forall i x, i ∈ ids -> find_incident i (al_incidents s') = Some x -> tick_settled now x) /\
    (forall i x, find_incident i (al_incidents s) = Some x -> in_status x <> inc_triggered ->
       find_incident i (al_incidents s') = Some x) /\
    (forall i, i ∉ ids -> find_incident i (al_incidents s') = find_incident i (al_incidents s)).
Proof.
  induction ids as [|i ids IH]; intros s Hs Hnd; cbn [tick_over].
  { exists s. split_and!; try done. by intros i x ?%elem_of_nil. }
  apply NoDup_cons in Hnd as [Hi Hnd].
  destruct (visit_spec now i s Hs) as (s1 & more & -> & [Hok [Hids Honly] Hset Hq]).
  destruct (IH _ Hok Hnd) as (s' & -> & Hok' & Hids' & Hset' & Hq' & Hother). exists s'. split_and!; try done.
  - congruence.
  - intros j x [->|Hj]%elem_of_cons Hx; [|by eapply Hset']. rewrite Hother in Hx by done. by apply Hset.
  - intros j x Hx Hne. apply Hq'; [|done]. destruct (decide (j = i)) as [->|Hji]; [by apply Hq|by rewrite Honly].
  - intros j [Hj1 Hj2]%not_elem_of_cons. rewrite Hother by done. by apply Honly.
Qed.
End Invariant.

(** Where the last route names four different severities, every event has a route. *)
Lemma resolveRoute_total (policy : AlertPolicy) (route : AlertRoute) (event : AlertEvent) (now : Z) :
  policy_ok policy = true -> last (po_routes policy) = Some route -> NoDup (rt_severity route) ->
  exists decision, resolveRoute policy event now = Ok decision /\
    rd_route decision ∈ po_routes policy /\ route_matches event (rd_route decision) = true.
Proof.
  intros Hok Hlast Hnd. unfold resolveRoute.
  destruct (List.find (route_matches event) (po_routes policy)) as [found|] eqn:E.
  { apply List.find_some in E as [? ?]. eexists. split_and!; [done| |done]. by apply list_elem_of_In. }
  exfalso. unfold policy_ok in Hok. rewrite Hlast in Hok.
  apply andb_true_iff in Hok as [_ [Hsrc%bool_decide_eq_true Hlen%Nat.eqb_eq]%andb_true_iff].
  pose proof (List.find_none _ _ E route) as Hno. unfold route_matches in Hno.
  rewrite Hsrc, bool_decide_true in Hno by done. cbn in Hno.
  rewrite bool_decide_true in Hno; [discriminate Hno; by apply list_elem_of_In, last_Some_elem_of|].
  assert (Hperm : rt_severity route ≡ₚ ALERT_SEVERITIES).
  { apply submseteq_length_Permutation; [|by rewrite Hlen].
    apply NoDup_submseteq; [done|]. intros []; unfold ALERT_SEVERITIES; set_solver. }
  rewrite Hperm. destruct (ev_severity event); unfold ALERT_SEVERITIES; set_solver.
Qed.


Definition sample_world : AlertWorld :=
  mkAlertWorld (acknowledge sample_policy "i1" "ada" (minutes 40)
                  (tick_visit sample_policy (minutes 40) "i1" after_ingest).1).1
    [(minutes 40, "i1"%string)].
Lemma sample_world_reached : rtc (alert_step sample_policy) no_alerts sample_world.
Proof.
  eapply rtc_l; [exact (step_ingest _ burn 0 "i1" (mkAlerts [] []) [] (not_elem_of_nil _))|].
  eapply rtc_l; [exact (step_visit _ (minutes 40) "i1" _ [])|].
  eapply rtc_l; [exact (step_transition _ "i1" inc_acknowledged "ada" from_dashboard None (minutes 40) _ _ ltac:(done))|].
  exact (rtc_refl _ sample_world).
Qed.

(** C34. A whole tick leaves nothing due.  From any reachable state a tick that nothing
    interleaves with returns, keeps the incidents in their order, leaves every
    incident that is not triggered as it is, and leaves each triggered one either
    held, because the quiet hours cover this instant, or notified and with no
    escalation step whose minute has come. *)
Theorem tick_complete (policy : AlertPolicy) (w : AlertWorld) (now : Z) :
  policy_ok policy = true -> rtc (alert_step policy) no_alerts w ->
  exists s', tick policy now (aw_alerts w) = (s', Ok tt) /\
    in_id <$> al_incidents s' = in_id <$> al_incidents (aw_alerts w) /\
    (forall i, i ∈ al_incidents s' -> tick_settled policy now i) /\
    (forall i, i ∈ al_incidents (aw_alerts w) -> in_status i <> inc_triggered -> i ∈ al_incidents s').
Proof.
  intros Hok Hw. apply (reachable_ok policy Hok) in Hw. pose proof (ao_ids _ _ Hw) as Hnd.
  destruct (tick_over_spec policy Hok now _ _ Hw Hnd) as (s' & Ht & Hs' & Hids & Hset & Hq & _).
  exists s'. split_and!; [done|done| |].
  - intros i Hi. eapply (Hset (in_id i)).
    + rewrite <- Hids. by apply list_elem_of_fmap_2.
    + apply find_incident_elem; [|done]. apply (ao_ids _ _ Hs').
  - intros i Hi Hne. apply (find_incident_Some (in_id i)). apply Hq; [|done]. by apply find_incident_elem.
Qed.
Lemma tick_complete_witness :
  exists s', tick sample_policy (minutes 50) (aw_alerts sample_world) = (s', Ok tt) /\
    in_id <$> al_incidents s' = ["i1"%string].
Proof.
  destruct (tick_complete sample_policy sample_world (minutes 50)) as (s' & H1 & H2 & _);
    [by vm_compute|apply sample_world_reached|]. exists s'. split; [exact H1|]. rewrite H2. reflexivity.
Defined.
