(* ===== verification/Migrations.v ===== *)
(** [lib/database/migration-runner.ts], [migrations.ts], [migrations/] and
    [app/api/database/migrations/route.ts]: the ordered migration runner.

    A store is the state it holds: both stores copy on [load] and [save], and a
    missing file reads as the empty state.  A migration is a function of the driver
    and the state it is handed, which it may change, and answers the message it
    throws, if it throws.  A [checksumSource] is its UTF-8 bytes, which the digest
    reads. *)

From S2P Require Import Prelude JsString.
From stdpp Require Import base list sets gmap strings numbers sorting.
From Stdlib Require Import ZArith Lia Ascii.
#[local] Open Scope Z_scope.

Inductive MigrationDriver : Type := drv_sqlite | drv_postgres | drv_vercel_postgres | drv_kv | drv_memory.
Record AppliedMigration : Type := mkApplied
  { am_id : string; am_name : string; am_checksum : string; am_appliedAt : Z }.
Record MigrationState : Type := mkMigrationState
  { ms_schemaVersion : Z; ms_applied : list AppliedMigration; ms_kvRevisions : gmap string string }.
(** The state after the body ran, and what it threw. *)
Definition MigrationBody : Type := MigrationDriver -> MigrationState -> MigrationState * option string.
Record Migration : Type := mkMigration
  { mg_id : string; mg_name : string; mg_checksumSource : string; mg_up : MigrationBody;
    mg_down : option MigrationBody }.
Inductive MigrationError : Type :=
  | not_ascending | duplicate_migration (id : string) | checksum_mismatch (id stored current : string)
  | prior_missing (id : string) | no_rollback (id : string) | migration_failed (message : string).

Definition emptyMigrationState : MigrationState := mkMigrationState (-1) [] ∅.

(** ** Versions *)

Fixpoint leading_digits (s : string) : string :=
  match s with
  | EmptyString => EmptyString
  | String c s' => if is_digit c then String c (leading_digits s') else EmptyString
  end.
(** [Number.parseInt(id, 10) || 0]. *)
Definition version_of (id : string) : Z :=
  match trim_start id with
  | String "-" s => - default 0 (parse_digits (leading_digits s))
  | String "+" s => default 0 (parse_digits (leading_digits s))
  | s => default 0 (parse_digits (leading_digits s))
  end.
(** [Math.max] of the versions of a list that is not empty. *)
Fixpoint max_version (ids : list string) : Z :=
  match ids with [] => -1 | [id] => version_of id | id :: rest => Z.max (version_of id) (max_version rest) end.

(** ** The registry *)

Fixpoint first_duplicate (seen ids : list string) : option string :=
  match ids with
  | [] => None
  | id :: rest => if bool_decide (id ∈ seen) then Some id else first_duplicate (id :: seen) rest
  end.
Definition new_runner (migrations : list Migration) : result MigrationError (list Migration) :=
  let ids := mg_id <$> migrations in
  if negb (bool_decide (join_with "," ids = join_with "," (sort_by str_le ids))) then Err not_ascending
  else match first_duplicate [] ids with
       | Some id => Err (duplicate_migration id)
       | None => Ok migrations
       end.

Section Runner.
Context (sha256_hex : string -> string).

Definition checksumOf (source : string) : string := String.substring 0 16 (sha256_hex source).
Definition applied_as (m : Migration) (at_ : Z) : AppliedMigration :=
  mkApplied (mg_id m) (mg_name m) (checksumOf (mg_checksumSource m)) at_.
Definition is_pending (state : MigrationState) (m : Migration) : bool :=
  negb (bool_decide (mg_id m ∈ am_id <$> ms_applied state)).
Definition migration_status (migrations : list Migration) (store : MigrationState)
  : MigrationState * list Migration :=
  (store, List.filter (is_pending store) migrations).

Definition record_applied (m : Migration) (at_ : Z) (state : MigrationState) : MigrationState :=
  mkMigrationState (Z.max (ms_schemaVersion state) (version_of (mg_id m)))
    (ms_applied state ++ [applied_as m at_]) (ms_kvRevisions state).
(** The loop of [up]: the store and the state in hand.  [clock n] is the instant at
    which the n-th record is written. *)
Fixpoint up_loop (driver : MigrationDriver) (clock : nat -> Z) (appliedIds : list string)
    (migrations : list Migration) (state store : MigrationState)
  : MigrationState * result MigrationError MigrationState :=
  match migrations with
  | [] => (store, Ok state)
  | m :: rest =>
      if bool_decide (mg_id m ∈ appliedIds) then
        match List.find (fun a => bool_decide (am_id a = mg_id m)) (ms_applied state) with
        | None => (store, Err (prior_missing (mg_id m)))
        | Some prior =>
            let expected := checksumOf (mg_checksumSource m) in
            if bool_decide (am_checksum prior = expected)
            then up_loop driver clock appliedIds rest state store
            else (store, Err (checksum_mismatch (mg_id m) (am_checksum prior) expected))
        end
      else
        match mg_up m driver state with
        | (_, Some e) => (store, Err (migration_failed e))
        | (state', None) =>
            let state'' := record_applied m (clock (length (ms_applied state'))) state' in
            up_loop driver clock appliedIds rest state'' state''
        end
  end.
Definition migrate_up (migrations : list Migration) (driver : MigrationDriver) (clock : nat -> Z)
    (store : MigrationState) : MigrationState * result MigrationError MigrationState :=
  up_loop driver clock (am_id <$> ms_applied store) migrations store store.
Definition pop_applied (state : MigrationState) : MigrationState :=
  let applied := take (length (ms_applied state) - 1) (ms_applied state) in
  mkMigrationState (max_version (am_id <$> applied)) applied (ms_kvRevisions state).
Definition migrate_down (migrations : list Migration) (driver : MigrationDriver) (store : MigrationState)
  : MigrationState * result MigrationError MigrationState :=
  match last (ms_applied store) with
  | None => (store, Ok store)
  | Some newest =>
      match List.find (fun m => bool_decide (mg_id m = am_id newest)) migrations with
      | None => (store, Err (no_rollback (am_id newest)))
      | Some m =>
          match mg_down m with
          | None => (store, Err (no_rollback (am_id newest)))
          | Some body =>
              match body driver store with
              | (_, Some e) => (store, Err (migration_failed e))
              | (state', None) => (pop_applied state', Ok (pop_applied state'))
              end
          end
      end
  end.
End Runner.

(** ** The shipped migrations *)

Definition on_revisions (f : gmap string string -> gmap string string) : MigrationBody :=
  fun _ state => (mkMigrationState (ms_schemaVersion state) (ms_applied state) (f (ms_kvRevisions state)), None).
Definition keep_or (family revision : string) (kv : gmap string string) : gmap string string :=
  <[family := default revision (kv !! family)]> kv.
Definition baseline_families : list string := ["runs"; "notifications"; "api-tokens"; "idempotency"]%string.
Definition MIGRATION_000_BASELINE : Migration :=
  mkMigration "000" "baseline-current-schemas"
    (join_with (String (ascii_of_nat 10) EmptyString)
       ["schema:case-bundle=2"; "schema:run-metadata=1"; "schema:config-bundle=1"; "kv:runs=v1";
        "kv:notifications=v1"; "kv:api-tokens=v1"])
    (on_revisions (fun kv => foldl (fun acc family => keep_or family "v1" acc) kv baseline_families))
    (Some (on_revisions (fun kv => foldl (fun acc family => delete family acc) kv baseline_families))).
Definition MIGRATION_001_KV_RUNS_V2 : Migration :=
  mkMigration "001" "kv-runs-revision-v2" "kv:runs v1→v2; add schema field default 2 on run envelopes"
    (on_revisions (fun kv => if bool_decide (kv !! "runs"%string = Some "v2"%string) then kv
                             else <["runs"%string := "v2"%string]> kv))
    (Some (on_revisions (fun kv => <["runs"%string := "v1"%string]> kv))).
Definition ALL_MIGRATIONS : list Migration := [MIGRATION_000_BASELINE; MIGRATION_001_KV_RUNS_V2].

(** ** Boot and the route *)

(** What the type of the database becomes for the migrations. *)
Inductive DatabaseType : Type := db_sqlite | db_postgres | db_vercel_postgres.
Definition boot_driver (type : option DatabaseType) : MigrationDriver :=
  match type with
  | Some db_postgres => drv_postgres | Some db_vercel_postgres => drv_vercel_postgres
  | Some db_sqlite => drv_sqlite | None => drv_memory
  end.
(** The runner for [type] keeps its state in the file beside the database, or in a
    store of its own that starts empty. *)
Definition runner_store (type : option DatabaseType) (sidecar : MigrationState) : MigrationState :=
  match type with None | Some db_sqlite => sidecar | _ => emptyMigrationState end.
Definition runBootMigrations (sha256_hex : string -> string) (type : option DatabaseType) (clock : nat -> Z)
    (sidecar : MigrationState) : MigrationState * result MigrationError MigrationState :=
  let '(store, out) := migrate_up sha256_hex ALL_MIGRATIONS (boot_driver type) clock (runner_store type sidecar) in
  (match type with None | Some db_sqlite => store | _ => sidecar end, out).
Record MigrationView : Type := mkMigrationView
  { mv_schemaVersion : Z; mv_applied : list AppliedMigration; mv_pending : list (string * string);
    mv_kvRevisions : gmap string string }.
Definition view_of (state : MigrationState) (pending : list Migration) : MigrationView :=
  mkMigrationView (ms_schemaVersion state) (ms_applied state) ((fun m => (mg_id m, mg_name m)) <$> pending)
    (ms_kvRevisions state).
Definition migrations_get (sidecar : MigrationState) : MigrationView :=
  let '(state, pending) := migration_status ALL_MIGRATIONS sidecar in view_of state pending.
Definition migrations_post (sha256_hex : string -> string) (clock : nat -> Z) (sidecar : MigrationState)
  : MigrationState * result MigrationError MigrationView :=
  match migrate_up sha256_hex ALL_MIGRATIONS drv_sqlite clock sidecar with
  | (store, Err e) => (store, Err e)
  | (store, Ok state) => (store, Ok (view_of state (migration_status ALL_MIGRATIONS store).2))
  end.

(** ** The history of a store *)

Inductive migration_op : Type :=
  | op_up (driver : MigrationDriver) (clock : nat -> Z)
  | op_down (driver : MigrationDriver).
Definition run_op (sha256_hex : string -> string) (migrations : list Migration) (store : MigrationState)
    (op : migration_op) : MigrationState :=
  match op with
  | op_up driver clock => (migrate_up sha256_hex migrations driver clock store).1
  | op_down driver => (migrate_down migrations driver store).1
  end.

(** A body leaves the records and the version to the runner. *)
Definition body_keeps (body : MigrationBody) : Prop :=
  forall driver state,
    ms_applied (body driver state).1 = ms_applied state /\
    ms_schemaVersion (body driver state).1 = ms_schemaVersion state.
Definition migration_keeps (m : Migration) : Prop :=
  body_keeps (mg_up m) /\ (forall body, mg_down m = Some body -> body_keeps body) /\ 0 <= version_of (mg_id m).

Section History.
Context (sha256_hex : string -> string) (migrations : list Migration).
Context (Hreg : new_runner migrations = Ok migrations) (Hkeeps : Forall migration_keeps migrations).

Definition record_for (m : Migration) (a : AppliedMigration) : Prop :=
  am_id a = mg_id m /\ am_name a = mg_name m /\ am_checksum a = checksumOf sha256_hex (mg_checksumSource m).
(** The store holds the records of the first [k] migrations. *)
Record at_version (k : nat) (store : MigrationState) : Prop := mkAtVersion
  { av_bound : (k <= length migrations)%nat;
    av_records : Forall2 record_for (take k migrations) (ms_applied store);
    av_version : ms_schemaVersion store = max_version (mg_id <$> take k migrations) }.
(** The given migrations, each once and in order, each on the state the one before left. *)
Definition apply_all (driver : MigrationDriver) (clock : nat -> Z) (ms : list Migration)
    (store : MigrationState) : MigrationState :=
  foldl (fun s m => record_applied sha256_hex m (clock (length (ms_applied s))) (mg_up m driver s).1) store ms.

Lemma first_duplicate_None (ids : list string) : forall seen,
  first_duplicate seen ids = None -> NoDup ids /\ forall id, id ∈ ids -> id ∉ seen.
Proof.
  induction ids as [|id ids IH]; cbn; intros seen H; [split; [constructor|by intros ? ?%elem_of_nil]|].
  destruct (bool_decide_reflect (id ∈ seen)) as [|Hid]; [done|]. apply IH in H as [H1 H2]. split.
  - constructor; [|done]. intros Hin. apply (H2 id Hin). by left.
  - intros id' [->|Hin]%elem_of_cons; [done|]. intros Hs. apply (H2 id' Hin). by right.
Qed.

Lemma registered_ids : NoDup (mg_id <$> migrations).
Proof.
  revert Hreg. unfold new_runner. destruct (negb _); [done|].
  destruct (first_duplicate [] _) eqn:E; [done|]. intros _. by apply first_duplicate_None in E as [? _].
Qed.

Lemma max_version_snoc (ids : list string) (id : string) :
  0 <= version_of id -> max_version (ids ++ [id]) = Z.max (max_version ids) (version_of id).
Proof.
  intros Hid. induction ids as [|x ids IH]; cbn; [lia|]. destruct ids as [|y ids]; [done|].
  cbn [app] in *. rewrite IH. lia.
Qed.

Lemma take_snoc_ids (k : nat) (m : Migration) :
  migrations !! k = Some m -> take (S k) migrations = take k migrations ++ [m].
Proof. apply take_S_r. Qed.

Lemma applied_ids (k : nat) (store : MigrationState) :
  at_version k store -> am_id <$> ms_applied store = mg_id <$> take k migrations.
Proof.
  intros [_ H _]. induction H as [|m a ms l (E & _) _ IH]; [done|]. rewrite !fmap_cons, E. by f_equal.
Qed.

Lemma applied_length (k : nat) (store : MigrationState) : at_version k store -> length (ms_applied store) = k.
Proof. intros [Hk H _]. apply Forall2_length in H. rewrite length_take in H. lia. Qed.

Lemma pending_not_applied (k j : nat) (m : Migration) :
  (k <= j)%nat -> migrations !! j = Some m -> mg_id m ∉ mg_id <$> take k migrations.
Proof.
  intros Hkj Hm (m' & E & Hin)%list_elem_of_fmap. apply list_elem_of_lookup in Hin as [i Hi].
  apply lookup_take_Some in Hi as [Hi Hlt]. pose proof registered_ids as Hnd.
  assert (i = j); [|lia]. eapply NoDup_lookup; [exact Hnd| |]; rewrite list_lookup_fmap.
  - by rewrite Hi.
  - rewrite Hm. cbn. by rewrite E.
Qed.

Lemma keeps_at (k : nat) (m : Migration) : migrations !! k = Some m -> migration_keeps m.
Proof. intros H. by eapply Forall_lookup_1. Qed.

Lemma record_at_version (k : nat) (m : Migration) (driver : MigrationDriver) (at_ : Z) (store : MigrationState) :
  at_version k store -> migrations !! k = Some m ->
  at_version (S k) (record_applied sha256_hex m at_ (mg_up m driver store).1).
Proof.
  intros [Hk Hr Hv] Hm. pose proof (keeps_at _ _ Hm) as (Hup & _ & Hid). destruct (Hup driver store) as [E1 E2].
  split.
  - by apply lookup_lt_Some in Hm.
  - rewrite (take_snoc_ids _ _ Hm). cbn. rewrite E1. apply Forall2_app; [done|]. by constructor.
  - rewrite (take_snoc_ids _ _ Hm), fmap_app. cbn. by rewrite max_version_snoc, E2, Hv.
Qed.

(** *** Up *)

Lemma skip_applied (driver : MigrationDriver) (clock : nat -> Z) (ids : list string) (rest ms : list Migration)
    (state store : MigrationState) :
  Forall (fun m => mg_id m ∈ ids /\ exists a,
    List.find (fun a => bool_decide (am_id a = mg_id m)) (ms_applied state) = Some a /\ record_for m a) ms ->
  up_loop sha256_hex driver clock ids (ms ++ rest) state store
  = up_loop sha256_hex driver clock ids rest state store.
Proof.
  induction 1 as [|m ms (Hin & a & Ha & _ & _ & Hsum) _ IH]; [done|]. cbn.
  rewrite bool_decide_true by done. rewrite Ha, Hsum. by rewrite bool_decide_true.
Qed.

Lemma find_record (ms : list Migration) (l : list AppliedMigration) :
  Forall2 record_for ms l -> NoDup (mg_id <$> ms) ->
  Forall (fun m => exists a, List.find (fun a => bool_decide (am_id a = mg_id m)) l = Some a /\ record_for m a) ms.
Proof.
  induction 1 as [|m a ms l Hr _ IH]; intros Hnd; [done|].
  rewrite fmap_cons in Hnd. apply NoDup_cons in Hnd as [Hm Hnd]. constructor.
  - exists a. cbn. by rewrite bool_decide_true by apply Hr.
  - specialize (IH Hnd). apply Forall_forall. intros m' Hm'. eapply Forall_forall in IH as (a' & Ha' & ?); [|done].
    exists a'. split; [|done]. cbn. rewrite bool_decide_false; [done|]. intros E. apply Hm.
    destruct Hr as (Er & _). rewrite <- Er, E. by apply list_elem_of_fmap_2.
Qed.

(** How an [up] from version [k] ends: [ran] migrations later, at the last one, or at
    the one that throws on exactly the stored state. *)
Definition up_outcome (driver : MigrationDriver) (clock : nat -> Z) (k : nat) (store : MigrationState)
    (out : MigrationState * result MigrationError MigrationState) : Prop :=
  exists ran, out.1 = apply_all driver clock (take ran (drop k migrations)) store /\
    at_version (k + ran) out.1 /\
    match out.2 with
    | Ok state => state = out.1 /\ (k + ran = length migrations)%nat
    | Err e => exists m message, migrations !! (k + ran)%nat = Some m /\ e = migration_failed message /\
                 (mg_up m driver out.1).2 = Some message
    end.

Lemma run_pending (driver : MigrationDriver) (clock : nat -> Z) (ids : list string) (rest : list Migration) :
  forall (k : nat) (store : MigrationState),
  at_version k store -> rest = drop k migrations ->
  (forall m, m ∈ rest -> mg_id m ∉ ids) ->
  up_outcome driver clock k store (up_loop sha256_hex driver clock ids rest store store).
Proof.
  induction rest as [|m rest IH]; intros k store Hk Hrest Hids.
  - exists 0%nat. rewrite Nat.add_0_r. cbn. split_and!; try done.
    pose proof (av_bound _ _ Hk). apply (f_equal length) in Hrest. rewrite length_drop in Hrest. cbn in Hrest. lia.
  - assert (Hm : migrations !! k = Some m) by by rewrite <- (Nat.add_0_r k), <- lookup_drop, <- Hrest.
    assert (Hrest' : rest = drop (S k) migrations) by by rewrite <- Nat.add_1_r, <- drop_drop, <- Hrest.
    cbn [up_loop]. rewrite bool_decide_false by (apply Hids; by left).
    pose proof (record_at_version k m driver (clock (length (ms_applied store))) store Hk Hm) as Hnext.
    pose proof (keeps_at _ _ Hm) as (Hup & _). destruct (Hup driver store) as [E1 _].
    destruct (mg_up m driver store) as [state' [e|]] eqn:Eup.
    + exists 0%nat. rewrite Nat.add_0_r. cbn. split_and!; try done. exists m, e. by rewrite Eup.
    + cbn [fst] in *. rewrite <- E1 in Hnext.
      destruct (IH (S k) _ Hnext Hrest') as (ran & Hstore & Hver & Hout).
      { intros m' Hm'. apply Hids. by right. }
      rewrite Nat.add_succ_comm in Hver, Hout. exists (S ran). split_and!; [|done|done].
      rewrite Hstore, <- Hrest, <- Hrest'. cbn. by rewrite Eup, E1.
Qed.

Lemma migrate_up_spec (driver : MigrationDriver) (clock : nat -> Z) (k : nat) (store : MigrationState) :
  at_version k store -> up_outcome driver clock k store (migrate_up sha256_hex migrations driver clock store).
Proof.
  intros Hk. unfold migrate_up. rewrite (applied_ids _ _ Hk). remember (mg_id <$> take k migrations) as ids eqn:Eids.
  rewrite <- (take_drop k migrations), skip_applied; subst ids.
  - apply run_pending; [done|done|]. intros m Hm. apply list_elem_of_lookup in Hm as [j Hj].
    rewrite lookup_drop in Hj. eapply pending_not_applied; [|exact Hj]. lia.
  - pose proof (find_record _ _ (av_records _ _ Hk)) as Hf. rewrite fmap_take in Hf.
    specialize (Hf (sublist_NoDup _ _ registered_ids (sublist_take _ _))).
    apply Forall_forall. intros m Hm. split; [by apply list_elem_of_fmap_2|]. by eapply Forall_forall in Hf.
Qed.

Lemma status_at (k : nat) (store : MigrationState) :
  at_version k store -> migration_status migrations store = (store, drop k migrations).
Proof.
  intros Hk. unfold migration_status, is_pending. f_equal. rewrite (applied_ids _ _ Hk).
  remember (mg_id <$> take k migrations) as ids eqn:Eids.
  rewrite <- (take_drop k migrations) at 1. rewrite List.filter_app.
  assert (H1 : forall m, m ∈ take k migrations -> negb (bool_decide (mg_id m ∈ ids)) = false).
  { intros m Hm. subst ids. rewrite bool_decide_true; [done|]. by apply list_elem_of_fmap_2. }
  assert (H2 : forall m, m ∈ drop k migrations -> negb (bool_decide (mg_id m ∈ ids)) = true).
  { intros m Hm. subst ids. rewrite bool_decide_false; [done|]. apply list_elem_of_lookup in Hm as [j Hj].
    rewrite lookup_drop in Hj. eapply pending_not_applied; [|exact Hj]. lia. }
  rewrite (keep_none _ _ H1), (keep_all _ _ H2). done.
Qed.

Lemma up_to_date (driver : MigrationDriver) (clock : nat -> Z) (store : MigrationState) :
  at_version (length migrations) store ->
  migrate_up sha256_hex migrations driver clock store = (store, Ok store).
Proof.
  intros Hk. destruct (migrate_up_spec driver clock _ _ Hk) as (ran & Hstore & Hver & Hout).
  pose proof (av_bound _ _ Hver). assert (ran = 0%nat) by lia. subst ran.
  destruct (migrate_up _ _ _ _ _) as [st [st'|e]]; cbn in *; rewrite take_0 in Hstore; cbn in Hstore; subst st.
  - destruct Hout as [-> _]. done.
  - destruct Hout as (m & message & Hm & _). apply lookup_lt_Some in Hm. lia.
Qed.

(** *** Down, and histories *)

Lemma migrate_down_at (driver : MigrationDriver) (k : nat) (store : MigrationState) :
  at_version k store ->
  let '(store', out) := migrate_down migrations driver store in
  match out with
  | Ok state => state = store' /\ at_version (k - 1) store'
  | Err _ => store' = store
  end.
Proof.
  intros Hk. unfold migrate_down. pose proof (applied_length _ _ Hk) as Hlen.
  destruct (last (ms_applied store)) as [newest|] eqn:Hlast.
  2: { apply last_None in Hlast. rewrite Hlast in Hlen. cbn in Hlen. subst k. done. }
  destruct (List.find _ migrations) as [m|] eqn:Hm; [|done].
  destruct (mg_down m) as [body|] eqn:Hbody; [|done].
  destruct (body driver store) as [state' [e|]] eqn:Hrun; [done|]. split; [done|].
  apply List.find_some in Hm as [Hin _]. apply list_elem_of_In in Hin.
  pose proof (proj1 (Forall_forall _ _) Hkeeps m Hin) as (_ & Hdown & _).
  destruct (Hdown _ Hbody driver store) as [E1 _]. rewrite Hrun in E1. cbn in E1.
  destruct Hk as [Hb Hr Hv]. unfold pop_applied. rewrite E1, Hlen.
  assert (Hr' : Forall2 record_for (take (k - 1) migrations) (take (k - 1) (ms_applied store))).
  { apply (Forall2_take _ _ _ (k - 1)) in Hr. by rewrite take_take, Nat.min_l in Hr by lia. }
  split; cbn; [lia|done|]. f_equal.
  clear -Hr'. induction Hr' as [|x a ms l (E & _) _ IH]; [done|]. rewrite !fmap_cons, E. by f_equal.
Qed.

Lemma empty_at : at_version 0 emptyMigrationState.
Proof. split; cbn; [lia|constructor|done]. Qed.

Lemma run_ops_at (ops : list migration_op) :
  exists k, at_version k (foldl (run_op sha256_hex migrations) emptyMigrationState ops).
Proof.
  induction ops as [|op ops IH] using rev_ind; [exists 0%nat; apply empty_at|].
  destruct IH as [k Hk]. rewrite foldl_app. cbn. destruct op as [driver clock|driver]; cbn.
  - destruct (migrate_up_spec driver clock k _ Hk) as (ran & _ & H & _). by eexists.
  - pose proof (migrate_down_at driver k _ Hk) as H.
    destruct (migrate_down migrations driver _) as [store' [|]]; cbn; [by exists (k - 1)%nat; apply H|by exists k; subst].
Qed.

(** Where the last migration's [down] undoes its [up], a [down] after an [up] that
    applied it alone gives the store back. *)
Lemma down_undoes_up (driver : MigrationDriver) (clock : nat -> Z) (m : Migration) (body : MigrationBody)
    (store : MigrationState) :
  at_version (length migrations - 1) store -> last migrations = Some m -> mg_down m = Some body ->
  (mg_up m driver store).2 = None ->
  (forall state, ms_kvRevisions state = ms_kvRevisions (mg_up m driver store).1 ->
     (body driver state).2 = None /\ ms_kvRevisions (body driver state).1 = ms_kvRevisions store) ->
  (migrate_down migrations driver (migrate_up sha256_hex migrations driver clock store).1).1 = store.
Proof.
  intros Hk Hlast Hbody Hup Hinv. rewrite last_lookup, <- Nat.sub_1_r in Hlast.
  pose proof (lookup_lt_Some _ _ _ Hlast) as Hlt.
  destruct (migrate_up_spec driver clock _ _ Hk) as (ran & Hstore & Hver & Hout).
  set (out := migrate_up sha256_hex migrations driver clock store) in *.
  assert (Hran : ran = 1%nat).
  { destruct out as [st [st'|e]]; cbn in *; [lia|]. destruct Hout as (m' & message & Hm' & _ & Hthrow).
    pose proof (lookup_lt_Some _ _ _ Hm'). assert (ran = 0%nat) by lia. subst ran.
    rewrite take_0 in Hstore. cbn in Hstore. subst st. rewrite Nat.add_0_r, Hlast in Hm'. congruence. }
  subst ran. rewrite (drop_S _ _ _ Hlast), firstn_cons, take_0 in Hstore. cbn in Hstore.
  pose proof (keeps_at _ _ Hlast) as (Hkeep & Hkeepd & _). destruct (Hkeep driver store) as [E1 E2].
  pose proof (applied_length _ _ Hk) as Hlen. pose proof (applied_ids _ _ Hk) as Hids.
  unfold migrate_down. rewrite Hstore at 1. cbn. rewrite last_snoc. cbn.
  assert (Hfind : List.find (fun m' => bool_decide (mg_id m' = mg_id m)) migrations = Some m).
  { destruct (List.find _ migrations) as [m'|] eqn:E.
    - apply List.find_some in E as [Hin E%bool_decide_eq_true]. apply list_elem_of_In, list_elem_of_lookup in Hin.
      destruct Hin as [i Hi]. f_equal. enough (i = (length migrations - 1)%nat) as -> by (rewrite Hlast in Hi; by injection Hi).
      eapply NoDup_lookup; [exact registered_ids| |]; rewrite list_lookup_fmap; [by rewrite Hi|].
      rewrite Hlast. cbn. by rewrite E.
    - pose proof (List.find_none _ _ E m) as E'. cbn in E'. rewrite bool_decide_true in E' by done.
      discriminate E'. by eapply list_elem_of_In, list_elem_of_lookup_2. }
  rewrite Hfind, Hbody. destruct (Hinv out.1) as [Hok Hkv]; [by rewrite Hstore|].
  destruct (Hkeepd _ Hbody driver out.1) as [E3 _].
  destruct (body driver out.1) as [state' [e|]]; cbn in Hok, Hkv, E3; [done|]. cbn.
  unfold pop_applied. rewrite E3, Hstore. cbn. rewrite E1, length_app. cbn. rewrite Nat.add_sub, take_app_length, Hids.
  destruct Hk as [_ _ Hv]. rewrite Hkv, <- Hv. by destruct store.
Qed.
End History.

Lemma all_migrations_keep : Forall migration_keeps ALL_MIGRATIONS.
Proof.
  constructor; [|constructor; [|constructor]];
    (split_and!; [by intros driver state|intros body [= <-]; by intros driver state|by vm_compute]).
Qed.

(** The store follows the registry.  After any sequence of [up]s, failed ones
    included, and of [down]s, for a registered list of migrations whose bodies leave
    the records to the runner: the store records a prefix of the list, with the names
    and checksums of the source and the version of the prefix; [status] reports the
    rest as pending; the next [up] runs exactly the rest, once each and in order, each
    on the state the one before left, to the end or to the first that throws, and then
    the store is what that one was handed; and where nothing is pending it changes
    nothing. *)
Theorem migrations_in_order (sha256_hex : string -> string) (migrations : list Migration)
    (ops : list migration_op) (driver : MigrationDriver) (clock : nat -> Z) :
  new_runner migrations = Ok migrations -> Forall migration_keeps migrations ->
  let store := foldl (run_op sha256_hex migrations) emptyMigrationState ops in
  exists k, at_version sha256_hex migrations k store /\
    migration_status migrations store = (store, drop k migrations) /\
    up_outcome sha256_hex migrations driver clock k store
      (migrate_up sha256_hex migrations driver clock store) /\
    (k = length migrations -> migrate_up sha256_hex migrations driver clock store = (store, Ok store)).
Proof.
  intros Hreg Hkeeps store. destruct (run_ops_at sha256_hex migrations Hreg Hkeeps ops) as [k Hk].
  exists k. split_and!; [exact Hk| | |].
  - by eapply status_at.
  - by apply migrate_up_spec.
  - intros ->. by apply up_to_date.
Qed.
Definition boot_clock (n : nat) : Z := Z.of_nat n.
Lemma migrations_in_order_witness :
  let ops := [op_up drv_sqlite boot_clock; op_down drv_sqlite; op_down drv_sqlite; op_up drv_sqlite boot_clock] in
  let store := foldl (run_op (fun s => s) ALL_MIGRATIONS) emptyMigrationState ops in
  migrate_up (fun s => s) ALL_MIGRATIONS drv_sqlite boot_clock store = (store, Ok store) /\
  ms_schemaVersion store = 1 /\ ms_kvRevisions store !! "runs"%string = Some "v2"%string.
Proof.
  intros ops store. split; [|by vm_compute].
  destruct (migrations_in_order (fun s => s) ALL_MIGRATIONS ops drv_sqlite boot_clock)
    as (k & Hat & Hpending & _ & Hdone); [reflexivity|apply all_migrations_keep|]. apply Hdone.
  assert (Hlen : (migration_status ALL_MIGRATIONS store).2 = []) by (vm_compute; reflexivity).
  fold store in Hpending. rewrite Hpending in Hlen. cbn [snd] in Hlen.
  apply (f_equal length) in Hlen. rewrite length_drop in Hlen.
  pose proof (av_bound _ _ _ _ Hat) as Hk. clear -Hlen Hk. cbn [length] in Hlen. lia.
Defined.
