(* ===== verification/RequestDedup.v ===== *)
(** [lib/request-dedup.ts]: concurrent GETs of one URL share one request.

    A request is identified by the number of the entry object that holds its
    promise.  [fetch] is the network's: what an attempt came to is an argument.  The
    code runs to completion between the arrival of a call, the end of an attempt and
    the firing of a timer, which are the steps. *)

From S2P Require Import Prelude JsValue.
From stdpp Require Import base list sets gmap strings numbers sorting.
From Stdlib Require Import ZArith Lia Ascii.
#[local] Open Scope Z_scope.

Definition SETTLED_GRACE_MS : Z := 30000.
Definition API_FETCH_TIMEOUT_MS : Z := 10000.
Record FetchPolicy : Type := mkFetchPolicy { fp_timeoutMs : Z; fp_maxAttempts : Z; fp_retryJitterMs : Z }.
Definition DEFAULT_FETCH_POLICY : FetchPolicy := mkFetchPolicy API_FETCH_TIMEOUT_MS 2 0.
Definition NO_RETRY_FETCH_POLICY : FetchPolicy := mkFetchPolicy API_FETCH_TIMEOUT_MS 1 0.

(** ** One attempt *)

(** What [fetch] and [res.json()] came to: a response with its body ([None]: not
    JSON), or an error with its [name]. *)
Inductive RawOutcome : Type :=
  | raw_response (ok : bool) (status : Z) (body : option json)
  | raw_rejected (name : string).
Inductive FetchError : Type :=
  | err_http (status : Z) | err_syntax | err_timeout (url : string) (timeoutMs : Z)
  | err_network (url cause : string) | err_rethrown (name : string) | err_undefined.

(** The envelope [{ data, total }] is opened. *)
Definition unwrap_envelope (j : json) : json :=
  match j with
  | JObj envelope =>
      match prop "data" envelope with
      | None => j
      | Some data =>
          match data, prop "total" envelope with
          | JObj inner, Some total =>
              match prop "total" inner with
              | None => JObj (spread inner [("total"%string, total)])
              | Some _ => data
              end
          | _, _ => data
          end
      end
  | _ => j
  end.
(** [timedOut] and [callerAborted] are the [aborted] flags of the two signals when the
    error is caught. *)
Definition fetchAttempt (url : string) (policy : FetchPolicy) (timedOut callerAborted : bool) (raw : RawOutcome)
  : result FetchError json :=
  match raw with
  | raw_response true _ (Some body) => Ok (unwrap_envelope body)
  | raw_response true _ None => Err err_syntax
  | raw_response false status _ => Err (err_http status)
  | raw_rejected name =>
      if bool_decide (name = "SyntaxError"%string) then Err err_syntax
      else if bool_decide (name = "AbortError"%string) && timedOut then Err (err_timeout url (fp_timeoutMs policy))
      else if callerAborted then Err (err_rethrown name)
      else Err (err_network url name)
  end.
Definition isRetryable (e : FetchError) : bool :=
  match e with err_timeout _ _ | err_network _ _ => true | _ => false end.
(** The whole of [fetchWithRetry] on the outcomes of its attempts: its result and the
    number of attempts made. *)
Fixpoint fetch_loop (left : nat) (attempt : Z) (maxAttempts : Z) (attempts : Z -> result FetchError json)
  : result FetchError json * Z :=
  match left with
  | O => (Err err_undefined, attempt - 1)
  | S left' =>
      match attempts attempt with
      | Ok body => (Ok body, attempt)
      | Err e =>
          if (attempt <? maxAttempts) && isRetryable e
          then fetch_loop left' (attempt + 1) maxAttempts attempts
          else (Err e, attempt)
      end
  end.
Definition fetchWithRetry (policy : FetchPolicy) (attempts : Z -> result FetchError json)
  : result FetchError json * Z :=
  fetch_loop (Z.to_nat (fp_maxAttempts policy)) 1 (fp_maxAttempts policy) attempts.

(** ** The table of requests *)

(** [rq_settled]: when, and with what.  [rq_timer]: the instant the eviction is due. *)
Record GetRequest : Type := mkGetRequest
  { rq_url : string; rq_policy : FetchPolicy; rq_attempt : Z;
    rq_settled : option (Z * result FetchError json); rq_timer : option Z }.
(** [dd_calls]: the calls answered so far, with their instant, URL and request. *)
Record DedupState : Type := mkDedup
  { dd_now : Z; dd_entries : gmap string nat; dd_requests : gmap nat GetRequest;
    dd_calls : list (Z * string * nat) }.

Definition forget (url : string) (entries : gmap string nat) : gmap string nat := delete url entries.
Definition dedupedFetchJson (url : string) (policy : FetchPolicy) (newId : nat) (s : DedupState)
  : DedupState * nat :=
  match dd_entries s !! url with
  | Some e => (mkDedup (dd_now s) (dd_entries s) (dd_requests s) (dd_calls s ++ [(dd_now s, url, e)]), e)
  | None =>
      (mkDedup (dd_now s) (<[url := newId]> (dd_entries s))
         (<[newId := mkGetRequest url policy 1 None None]> (dd_requests s))
         (dd_calls s ++ [(dd_now s, url, newId)]), newId)
  end.
(** The handlers behind [request.then]. *)
Definition settle_request (e : nat) (rq : GetRequest) (out : result FetchError json) (s : DedupState) : DedupState :=
  let mine := bool_decide (dd_entries s !! rq_url rq = Some e) in
  let timer := if mine then match out with Ok _ => Some (dd_now s + SETTLED_GRACE_MS) | Err _ => None end
               else None in
  let entries := match out with
                 | Err _ => if mine then forget (rq_url rq) (dd_entries s) else dd_entries s
                 | Ok _ => dd_entries s end in
  mkDedup (dd_now s) entries
    (<[e := mkGetRequest (rq_url rq) (rq_policy rq) (rq_attempt rq) (Some (dd_now s, out)) timer]> (dd_requests s))
    (dd_calls s).
(** One turn of [fetchWithRetry]'s loop: the current attempt has come to [out]. *)
Definition attempt_ends (e : nat) (out : result FetchError json) (s : DedupState) : DedupState :=
  match dd_requests s !! e with
  | Some rq =>
      match rq_settled rq with
      | Some _ => s
      | None =>
          if fp_maxAttempts (rq_policy rq) <? 1 then settle_request e rq (Err err_undefined) s
          else match out with
               | Ok body => settle_request e rq (Ok body) s
               | Err err =>
                   if (rq_attempt rq <? fp_maxAttempts (rq_policy rq)) && isRetryable err
                   then mkDedup (dd_now s) (dd_entries s)
                          (<[e := mkGetRequest (rq_url rq) (rq_policy rq) (rq_attempt rq + 1) None (rq_timer rq)]>
                             (dd_requests s)) (dd_calls s)
                   else settle_request e rq (Err err) s
               end
      end
  | None => s
  end.
(** The callback of the eviction timer. *)
Definition timer_fires (e : nat) (s : DedupState) : DedupState :=
  match dd_requests s !! e with
  | Some rq =>
      match rq_timer rq with
      | Some due =>
          if due <=? dd_now s then
            mkDedup (dd_now s)
              (if bool_decide (dd_entries s !! rq_url rq = Some e) then delete (rq_url rq) (dd_entries s)
               else dd_entries s)
              (<[e := mkGetRequest (rq_url rq) (rq_policy rq) (rq_attempt rq) (rq_settled rq) None]> (dd_requests s))
              (dd_calls s)
          else s
      | None => s
      end
  | None => s
  end.
Definition dedupeEntryCount (s : DedupState) : nat := size (dd_entries s).

(** Time passes; a timer that is due runs within [lateness]. *)
Definition advance (now : Z) (s : DedupState) : DedupState :=
  mkDedup now (dd_entries s) (dd_requests s) (dd_calls s).
Definition timers_run (lateness now : Z) (s : DedupState) : Prop :=
  forall e rq due, dd_requests s !! e = Some rq -> rq_timer rq = Some due -> now <= due + lateness.
Inductive dedup_step (lateness : Z) : DedupState -> DedupState -> Prop :=
  | step_call url policy newId s :
      dd_requests s !! newId = None ->
      dedup_step lateness s (dedupedFetchJson url policy newId s).1
  | step_attempt e out s : dedup_step lateness s (attempt_ends e out s)
  | step_timer e s : dedup_step lateness s (timer_fires e s)
  | step_clock now s :
      dd_now s <= now -> timers_run lateness now s -> dedup_step lateness s (advance now s).
Definition no_requests (now : Z) : DedupState := mkDedup now ∅ ∅ [].

(** *** By hand *)

Example envelope_by_hand :
  unwrap_envelope (JObj [("data", JObj [("runs", JArr [])]); ("total", JNum 3)]%string)
    = JObj [("runs", JArr []); ("total", JNum 3)]%string /\
  unwrap_envelope (JObj [("data", JArr []); ("total", JNum 3)]%string) = JArr [] /\
  unwrap_envelope (JObj [("runs", JArr [])]%string) = JObj [("runs", JArr [])]%string.
Proof. done. Qed.
(** The timeout aborts with a [TimeoutError] as its reason, and [fetch] rejects with
    the reason of its signal, whose name is not the one the classification looks for:
    a timeout is reported as a network error. *)
Example timeout_is_network_error (url : string) :
  fetchAttempt url DEFAULT_FETCH_POLICY true false (raw_rejected "TimeoutError") = Err (err_network url "TimeoutError").
Proof. done. Qed.
(** The signal of the caller that started the request aborts it for the others: a
    remount that joins it gets the error of the unmounted caller. *)
Example abort_fails_the_remount :
  let '(s1, first) := dedupedFetchJson "/api/runs" DEFAULT_FETCH_POLICY 0 (no_requests 0) in
  let '(s2, second) := dedupedFetchJson "/api/runs" DEFAULT_FETCH_POLICY 1 s1 in
  let aborted := fetchAttempt "/api/runs" DEFAULT_FETCH_POLICY false true (raw_rejected "AbortError") in
  let s3 := attempt_ends first aborted s2 in
  second = first /\ rq_settled <$> dd_requests s3 !! first = Some (Some (0, Err (err_rethrown "AbortError"))).
Proof. done. Qed.
Example grace_by_hand :
  let s1 := (dedupedFetchJson "/a" DEFAULT_FETCH_POLICY 0 (no_requests 0)).1 in
  let s2 := attempt_ends 0 (Err (err_network "/a" "x")) s1 in
  let s3 := attempt_ends 0 (Ok JNull) (advance 5 s2) in
  let s4 := advance 30005 s3 in
  (dedupedFetchJson "/a" DEFAULT_FETCH_POLICY 1 s4).2 = 0%nat /\
  (dedupedFetchJson "/a" DEFAULT_FETCH_POLICY 1 (timer_fires 0 s4)).2 = 1%nat /\
  dedupeEntryCount (timer_fires 0 s4) = 0%nat.
Proof. vm_compute. done. Qed.

(** ** Sharing *)

(** What an entry of the table stands for at [now]. *)
Definition entry_ok (lateness now : Z) (url : string) (rq : GetRequest) : Prop :=
  rq_url rq = url /\
  match rq_settled rq with
  | None => rq_timer rq = None
  | Some (t, out) => is_Ok out /\ rq_timer rq = Some (t + SETTLED_GRACE_MS) /\
                     t <= now <= t + SETTLED_GRACE_MS + lateness
  end.
(** A call of [url] at [t] was answered with [rq] in flight, or with its success
    within the grace window. *)
Definition call_ok (lateness t : Z) (url : string) (rq : GetRequest) : Prop :=
  rq_url rq = url /\
  match rq_settled rq with
  | None => True
  | Some (t0, out) => t <= t0 \/ is_Ok out /\ t <= t0 + SETTLED_GRACE_MS + lateness
  end.
Record dedup_ok (lateness : Z) (s : DedupState) : Prop := mkDedupOk
  { do_flight : forall e rq, dd_requests s !! e = Some rq -> rq_settled rq = None ->
                  dd_entries s !! rq_url rq = Some e;
    do_entries : forall url e, dd_entries s !! url = Some e ->
                   exists rq, dd_requests s !! e = Some rq /\ entry_ok lateness (dd_now s) url rq;
    do_attempts : forall e rq, dd_requests s !! e = Some rq ->
                    1 <= rq_attempt rq <= Z.max 1 (fp_maxAttempts (rq_policy rq));
    do_calls : forall t url e, (t, url, e) ∈ dd_calls s ->
                 t <= dd_now s /\ exists rq, dd_requests s !! e = Some rq /\ call_ok lateness t url rq }.

Section Sharing.
Context (lateness : Z) (Hlate : 0 <= lateness).

Lemma entry_call_ok (now : Z) (url : string) (rq : GetRequest) :
  entry_ok lateness now url rq -> call_ok lateness now url rq.
Proof. intros [? H]. split; [done|]. destruct (rq_settled rq) as [[t out]|]; [|done]. right. by destruct H as (? & _ & ? & ?). Qed.

Lemma call_ok_dedup (url : string) (policy : FetchPolicy) (newId : nat) (s : DedupState) :
  dd_requests s !! newId = None -> dedup_ok lateness s ->
  dedup_ok lateness (dedupedFetchJson url policy newId s).1.
Proof.
  intros Hfresh [Hf He Ha Hc]. unfold dedupedFetchJson.
  destruct (dd_entries s !! url) as [e|] eqn:Hurl; cbn [fst].
  - split; cbn; try done. intros t u e' [?|E]%elem_of_app; [by apply Hc|].
    apply list_elem_of_singleton in E. injection E as -> -> ->. split; [lia|].
    destruct (He _ _ Hurl) as (rq & ? & ?). exists rq. split; [done|]. by apply entry_call_ok.
  - assert (Hne : forall u e, dd_entries s !! u = Some e -> e <> newId).
    { intros u e Hu ->. destruct (He _ _ Hu) as (rq & ? & _). congruence. }
    split; cbn.
    + intros e rq [[<- <-]|[Hne' Hrq]]%lookup_insert_Some; intros Hs; [by rewrite lookup_insert_eq|].
      rewrite lookup_insert_ne; [by apply Hf|]. intros E. pose proof (Hf _ _ Hrq Hs). congruence.
    + intros u e [[<- <-]|[Hu He']]%lookup_insert_Some.
      * eexists. by rewrite lookup_insert_eq.
      * destruct (He _ _ He') as (rq & ? & ?). exists rq. rewrite lookup_insert_ne; [done|].
        apply not_eq_sym. by eapply Hne.
    + intros e rq [[<- <-]|[_ Hrq]]%lookup_insert_Some; [cbn; lia|by eapply Ha].
    + intros t u e [Hin|E]%elem_of_app.
      * destruct (Hc _ _ _ Hin) as (? & rq & ? & ?). split; [done|]. exists rq.
        rewrite lookup_insert_ne; [done|congruence].
      * apply list_elem_of_singleton in E. injection E as -> -> ->. split; [lia|].
        eexists. by rewrite lookup_insert_eq.
Qed.

(** The request [e] is replaced; the entries stay, or lose the one of [e]. *)
Lemma replace_request (e : nat) (rq rq' : GetRequest) (entries : gmap string nat) (s : DedupState) :
  dedup_ok lateness s -> dd_requests s !! e = Some rq -> rq_url rq' = rq_url rq ->
  rq_policy rq' = rq_policy rq -> 1 <= rq_attempt rq' <= Z.max 1 (fp_maxAttempts (rq_policy rq)) ->
  (entries = dd_entries s /\ (rq_settled rq' = None -> rq_settled rq = None) /\
     (dd_entries s !! rq_url rq = Some e -> entry_ok lateness (dd_now s) (rq_url rq) rq') \/
   entries = delete (rq_url rq) (dd_entries s) /\ dd_entries s !! rq_url rq = Some e /\ rq_settled rq' <> None) ->
  (forall t, t <= dd_now s -> call_ok lateness t (rq_url rq) rq -> call_ok lateness t (rq_url rq) rq') ->
  dedup_ok lateness (mkDedup (dd_now s) entries (<[e := rq']> (dd_requests s)) (dd_calls s)).
Proof.
  intros [Hf He Ha Hc] Hrq Hurl Hpol Hatt Hent Hcall. split; cbn.
  - intros e' q [[<- <-]|[Hne Hq]]%lookup_insert_Some Hs.
    + destruct Hent as [(-> & Hback & _)|(_ & _ & Hne)]; [|done]. rewrite Hurl. by apply Hf; [|apply Hback].
    + pose proof (Hf _ _ Hq Hs). destruct Hent as [(-> & _)|(-> & Hmine & _)]; [done|].
      rewrite lookup_delete_ne; [done|congruence].
  - intros u e' Hu. assert (Hu' : dd_entries s !! u = Some e').
    { destruct Hent as [(-> & _)|(-> & _)]; [done|]. by apply lookup_delete_Some in Hu as [_ ?]. }
    destruct (He _ _ Hu') as (q & Hq & Hok). destruct (decide (e = e')) as [<-|Hne].
    + exists rq'. rewrite lookup_insert_eq. split; [done|]. rewrite Hrq in Hq. injection Hq as <-.
      destruct Hok as [<- _]. destruct Hent as [(-> & _ & Hent)|(-> & _)]; [by apply Hent|].
      by rewrite lookup_delete_eq in Hu.
    + exists q. by rewrite lookup_insert_ne.
  - intros e' q [[<- <-]|[_ Hq]]%lookup_insert_Some; [by rewrite Hpol|by eapply Ha].
  - intros t u e' Hin. destruct (Hc _ _ _ Hin) as (Ht & q & Hq & Hok). split; [done|].
    destruct (decide (e = e')) as [<-|Hne].
    + exists rq'. rewrite lookup_insert_eq. split; [done|]. rewrite Hrq in Hq. injection Hq as <-.
      pose proof Hok as [<- _]. by apply Hcall.
    + exists q. by rewrite lookup_insert_ne.
Qed.

Lemma settle_ok (e : nat) (rq : GetRequest) (out : result FetchError json) (s : DedupState) :
  dedup_ok lateness s -> dd_requests s !! e = Some rq -> rq_settled rq = None ->
  dedup_ok lateness (settle_request e rq out s).
Proof.
  intros Hs Hrq Hp. pose proof (do_flight _ _ Hs _ _ Hrq Hp) as Hmine. pose proof (do_attempts _ _ Hs _ _ Hrq).
  unfold settle_request, forget. rewrite bool_decide_true by done.
  apply (replace_request e rq); cbn; try done.
  - destruct out as [body|err]; [left|right; done]. split_and!; [done|done|].
    intros _. split; [done|]. cbn. unfold SETTLED_GRACE_MS. split_and!; [by eexists|done|lia|lia].
  - intros t Ht _. split; [done|]. cbn. by left.
Qed.

Lemma attempt_ends_ok (e : nat) (out : result FetchError json) (s : DedupState) :
  dedup_ok lateness s -> dedup_ok lateness (attempt_ends e out s).
Proof.
  intros Hs. unfold attempt_ends. destruct (dd_requests s !! e) as [rq|] eqn:Hrq; [|done].
  destruct (rq_settled rq) as [|] eqn:Hp; [done|].
  destruct (Z.ltb_spec (fp_maxAttempts (rq_policy rq)) 1); [by apply settle_ok|].
  destruct out as [body|err]; [by apply settle_ok|].
  destruct (Z.ltb_spec (rq_attempt rq) (fp_maxAttempts (rq_policy rq))); [|by apply settle_ok].
  destruct (isRetryable err); cbn [andb]; [|by apply settle_ok].
  pose proof (do_attempts _ _ Hs _ _ Hrq). apply (replace_request e rq); cbn; try done; [lia|].
  left. split_and!; [done|done|]. intros Hm. destruct (do_entries _ _ Hs _ _ Hm) as (q & Hq & Hok).
  rewrite Hrq in Hq. injection Hq as <-. split; [done|]. cbn. destruct Hok as [_ Hok]. by rewrite Hp in Hok.
Qed.

Lemma timer_fires_ok (e : nat) (s : DedupState) : dedup_ok lateness s -> dedup_ok lateness (timer_fires e s).
Proof.
  intros Hs. unfold timer_fires. destruct (dd_requests s !! e) as [rq|] eqn:Hrq; [|done].
  destruct (rq_timer rq) as [due|] eqn:Hdue; [|done]. destruct (due <=? dd_now s); [|done].
  pose proof (do_attempts _ _ Hs _ _ Hrq).
  assert (Hset : dd_entries s !! rq_url rq = Some e -> rq_settled rq <> None).
  { intros Hm Hn. destruct (do_entries _ _ Hs _ _ Hm) as (q & Hq & _ & Hok).
    rewrite Hrq in Hq. injection Hq as <-. rewrite Hn in Hok. congruence. }
  destruct (bool_decide_reflect (dd_entries s !! rq_url rq = Some e)) as [Hm|Hm];
    apply (replace_request e rq); cbn; try done; [right|left]; split_and!; try done; by apply Hset.
Qed.

Lemma advance_ok (now : Z) (s : DedupState) :
  dd_now s <= now -> timers_run lateness now s -> dedup_ok lateness s -> dedup_ok lateness (advance now s).
Proof.
  intros Hnow Htimers [Hf He Ha Hc]. split; cbn; try done.
  - intros u e Hu. destruct (He _ _ Hu) as (rq & Hrq & E & Hok). exists rq. split; [done|]. split; [done|].
    destruct (rq_settled rq) as [[t out]|]; [|done]. destruct Hok as (? & Hdue & ?).
    pose proof (Htimers _ _ _ Hrq Hdue). split_and!; [done|done|lia|lia].
  - intros t u e Hin. destruct (Hc _ _ _ Hin) as (? & ?). split; [lia|done].
Qed.

Lemma no_requests_ok (now : Z) : dedup_ok lateness (no_requests now).
Proof.
  split; cbn.
  - intros e rq H. by rewrite lookup_empty in H.
  - intros u e H. by rewrite lookup_empty in H.
  - intros e rq H. by rewrite lookup_empty in H.
  - by intros t u e ?%elem_of_nil.
Qed.

Lemma dedup_reachable_ok (start : Z) (s : DedupState) :
  rtc (dedup_step lateness) (no_requests start) s -> dedup_ok lateness s.
Proof.
  intros H. pose proof (no_requests_ok start) as H0. induction H as [|s s' s'' Hstep _ IH]; [done|]. apply IH.
  destruct Hstep; [by apply call_ok_dedup|by apply attempt_ends_ok|by apply timer_fires_ok|by apply advance_ok].
Qed.
End Sharing.

(** ** The retry loop *)

(** The attempts [attempt], [attempt + 1], ... end one after the other. *)
Fixpoint feed (e : nat) (n : nat) (attempt : Z) (attempts : Z -> result FetchError json) (s : DedupState)
  : DedupState :=
  match n with
  | O => s
  | S n' => feed e n' (attempt + 1) attempts (attempt_ends e (attempts attempt) s)
  end.

Lemma settle_lookup (e : nat) (rq : GetRequest) (out : result FetchError json) (s : DedupState) :
  exists timer, dd_requests (settle_request e rq out s) !! e =
    Some (mkGetRequest (rq_url rq) (rq_policy rq) (rq_attempt rq) (Some (dd_now s, out)) timer).
Proof. unfold settle_request. cbn. rewrite lookup_insert_eq. by eexists. Qed.

(** Step by step the request settles with what [fetchWithRetry] answers, after as many
    attempts. *)
Lemma feed_fetch_loop (e : nat) (attempts : Z -> result FetchError json) (left : nat) :
  forall (rq : GetRequest) (s : DedupState),
  dd_requests s !! e = Some rq -> rq_settled rq = None ->
  Z.of_nat left = fp_maxAttempts (rq_policy rq) - rq_attempt rq + 1 -> 1 <= rq_attempt rq -> (0 < left)%nat ->
  let '(out, n) := fetch_loop left (rq_attempt rq) (fp_maxAttempts (rq_policy rq)) attempts in
  rq_attempt rq <= n <= fp_maxAttempts (rq_policy rq) /\ attempts n = out /\
  (forall k, rq_attempt rq <= k < n -> exists err, attempts k = Err err /\ isRetryable err = true) /\
  exists rq', dd_requests (feed e (Z.to_nat (n - rq_attempt rq + 1)) (rq_attempt rq) attempts s) !! e = Some rq' /\
    rq_settled rq' = Some (dd_now s, out) /\ rq_attempt rq' = n.
Proof.
  induction left as [|left IH]; intros rq s Hrq Hp Hleft Ha Hpos; [lia|]. cbn [fetch_loop].
  assert (Hone : forall out, attempts (rq_attempt rq) = out ->
    attempt_ends e out s = settle_request e rq out s ->
    exists rq', dd_requests (feed e (Z.to_nat (rq_attempt rq - rq_attempt rq + 1)) (rq_attempt rq) attempts s) !! e
                = Some rq' /\ rq_settled rq' = Some (dd_now s, out) /\ rq_attempt rq' = rq_attempt rq).
  { intros out Hout Hset. replace (Z.to_nat _) with 1%nat by lia. cbn [feed]. rewrite Hout, Hset.
    destruct (settle_lookup e rq out s) as [timer ->]. by eexists. }
  unfold attempt_ends in Hone. rewrite Hrq, Hp in Hone.
  destruct (Z.ltb_spec (fp_maxAttempts (rq_policy rq)) 1); [lia|].
  destruct (attempts (rq_attempt rq)) as [body|err] eqn:Eout.
  { split_and!; try done; [lia..| |by apply Hone]. intros k Hk. lia. }
  destruct (Z.ltb_spec (rq_attempt rq) (fp_maxAttempts (rq_policy rq))) as [Hlt|Hge]; cbn [andb].
  2: { split_and!; try done; [lia..| |]; [intros k Hk; lia|]. apply Hone; [done|].
       destruct (Z.ltb_spec (rq_attempt rq) (fp_maxAttempts (rq_policy rq))); [lia|done]. }
  destruct (isRetryable err) eqn:Er.
  2: { split_and!; try done; [lia..| |]; [intros k Hk; lia|]. apply Hone; [done|].
       by rewrite Er, andb_false_r. }
  set (s' := attempt_ends e (Err err) s).
  set (rq1 := mkGetRequest (rq_url rq) (rq_policy rq) (rq_attempt rq + 1) None (rq_timer rq)).
  assert (Hs' : dd_requests s' !! e = Some rq1 /\ dd_now s' = dd_now s).
  { subst s'. unfold attempt_ends. rewrite Hrq, Hp, Er.
    destruct (Z.ltb_spec (fp_maxAttempts (rq_policy rq)) 1); [lia|].
    destruct (Z.ltb_spec (rq_attempt rq) (fp_maxAttempts (rq_policy rq))); [|lia]. cbn. by rewrite lookup_insert_eq. }
  destruct Hs' as [Hs' Hnow]. specialize (IH rq1 s' Hs' eq_refl). cbn [rq_policy rq_attempt rq1] in IH.
  specialize (IH ltac:(lia) ltac:(lia) ltac:(lia)).
  destruct (fetch_loop left (rq_attempt rq + 1) _ attempts) as [out n].
  destruct IH as (Hn & Hout & Hk & rq' & Hrq' & Hset & Hatt). split_and!; [lia|lia|done| |].
  - intros k Hk'. destruct (decide (k = rq_attempt rq)) as [->|]; [by eexists|]. apply Hk. lia.
  - exists rq'. rewrite Hnow in Hset. split_and!; [|done..]. rewrite <- Hrq'. f_equal.
    replace (Z.to_nat (n - rq_attempt rq + 1)) with (S (Z.to_nat (n - (rq_attempt rq + 1) + 1))) by lia.
    cbn [feed]. by rewrite Eout.
Qed.

(** A request made under a policy of one attempt or more settles, after [n] attempts
    that failed with a timeout or a network error but for the last, with what the last
    one came to. *)
Lemma request_settles (url : string) (policy : FetchPolicy) (newId : nat) (s : DedupState)
    (attempts : Z -> result FetchError json) :
  dd_entries s !! url = None -> 1 <= fp_maxAttempts policy ->
  let s1 := (dedupedFetchJson url policy newId s).1 in
  let '(out, n) := fetchWithRetry policy attempts in
  1 <= n <= fp_maxAttempts policy /\ attempts n = out /\
  (forall k, 1 <= k < n -> exists err, attempts k = Err err /\ isRetryable err = true) /\
  exists rq', dd_requests (feed newId (Z.to_nat n) 1 attempts s1) !! newId = Some rq' /\
    rq_settled rq' = Some (dd_now s, out).
Proof.
  intros Hurl Hmax s1. subst s1. unfold dedupedFetchJson. rewrite Hurl. cbn [fst].
  match goal with |- context [feed _ _ _ _ ?S] => set (s1 := S) end.
  pose proof (feed_fetch_loop newId attempts (Z.to_nat (fp_maxAttempts policy)) (mkGetRequest url policy 1 None None) s1)
    as H. cbn [rq_attempt rq_policy] in H. unfold fetchWithRetry.
  specialize (H (lookup_insert_eq _ _ _) eq_refl ltac:(lia) ltac:(lia) ltac:(lia)).
  destruct (fetch_loop _ 1 _ attempts) as [out n]. destruct H as (? & ? & ? & rq' & Hrq' & ? & _).
  split_and!; try done; [lia..|]. exists rq'. split; [|done]. by replace (n - 1 + 1) with n in Hrq' by lia.
Qed.

(** One request at a time.  Whatever calls, ends of attempts and timers come in
    whatever order, when timers run at most [lateness] late: two requests in flight are
    for different URLs; an entry of the table is in flight, or a success no older than
    the grace window (a failure is never kept); no request makes more attempts than its
    policy says; and every call is answered by a request for its URL which was in
    flight at that moment or whose success was within the window. *)
Theorem one_request_per_url (lateness start : Z) (s : DedupState) :
  0 <= lateness -> rtc (dedup_step lateness) (no_requests start) s ->
  dedup_ok lateness s /\
  (forall e e' rq rq', dd_requests s !! e = Some rq -> dd_requests s !! e' = Some rq' ->
     rq_settled rq = None -> rq_settled rq' = None -> rq_url rq = rq_url rq' -> e = e').
Proof.
  intros Hl Hs. apply (dedup_reachable_ok lateness Hl) in Hs. split; [done|].
  intros e e' rq rq' H H' Hp Hp' E. pose proof (do_flight _ _ Hs _ _ H Hp) as F.
  pose proof (do_flight _ _ Hs _ _ H' Hp') as F'. congruence.
Qed.
Definition burst : DedupState :=
  let s1 := (dedupedFetchJson "/api/runs" DEFAULT_FETCH_POLICY 0 (no_requests 0)).1 in
  let s2 := (dedupedFetchJson "/api/runs" DEFAULT_FETCH_POLICY 1 s1).1 in
  let s3 := attempt_ends 0 (Ok JNull) (advance 40 s2) in
  timer_fires 0 (advance 30040 s3).
Definition timer_within (lateness now : Z) (rq : GetRequest) : bool :=
  match rq_timer rq with Some due => now <=? due + lateness | None => true end.
Lemma timers_run_check (lateness now : Z) (s : DedupState) :
  forallb (fun kv => timer_within lateness now kv.2) (map_to_list (dd_requests s)) = true ->
  timers_run lateness now s.
Proof.
  intros H e rq due Hrq Hdue. rewrite forallb_forall in H.
  specialize (H (e, rq)). unfold timer_within in H. cbn in H. rewrite Hdue in H. apply Z.leb_le, H.
  by apply list_elem_of_In, elem_of_map_to_list.
Qed.
Lemma burst_reached : rtc (dedup_step 10) (no_requests 0) burst.
Proof.
  eapply rtc_l; [by apply (step_call _ "/api/runs" DEFAULT_FETCH_POLICY 0%nat)|].
  eapply rtc_l; [by apply (step_call _ "/api/runs" DEFAULT_FETCH_POLICY 1%nat); vm_compute|].
  eapply rtc_l; [apply (step_clock _ 40); [by vm_compute|by apply timers_run_check; vm_compute]|].
  eapply rtc_l; [apply (step_attempt _ 0%nat (Ok JNull))|].
  eapply rtc_l; [apply (step_clock _ 30040); [by vm_compute|by apply timers_run_check; vm_compute]|].
  eapply rtc_l; [apply (step_timer _ 0%nat)|]. apply rtc_refl.
Qed.
Lemma one_request_per_url_witness : dedup_ok 10 burst /\ dedupeEntryCount burst = 0%nat.
Proof.
  split; [|by vm_compute]. apply (one_request_per_url 10 0); [done|apply burst_reached].
Defined.
