(* ===== verification/SignatureNorm.v ===== *)
(** [lib/failure-clustering.ts], the first half: the normal form of a crash
    signature.

    A text is the list of its code units.  The global replacements are a scanner over
    that list; each regular expression is written the way it matches at a position,
    after the unit before it, longest digits first.  How far [Math.log10] is exact is
    left to the engine: [log10_floor] stands for [Math.floor(Math.log10(n))]. *)

From S2P Require Import Prelude JsString CronParser.
From stdpp Require Import base list sets gmap strings numbers sorting.
From Stdlib Require Import ZArith Lia Ascii.
#[local] Open Scope Z_scope.

Definition text : Type := list ascii.
Definition text_of (s : string) : text := String.list_ascii_of_string s.
Definition string_of (t : text) : string := String.string_of_list_ascii t.

(** ** Character classes *)

Definition between (lo hi : Z) (c : ascii) : bool := (lo <=? code c) && (code c <=? hi).
(** [\w]. *)
Definition word_char (c : ascii) : bool :=
  is_digit c || between 65 90 c || between 97 122 c || (code c =? 95).
Definition hex_char (c : ascii) : bool := is_digit c || between 97 102 c || between 65 70 c.
Definition strkey_char (c : ascii) : bool := between 65 90 c || between 50 55 c.
Definition word_here (t : text) : bool := match t with c :: _ => word_char c | [] => false end.
Definition word_before (prev : option ascii) : bool := match prev with Some c => word_char c | None => false end.
(** [\b] between [prev] and what follows. *)
Definition word_edge (prev : option ascii) (t : text) : bool := xorb (word_before prev) (word_here t).
(** [\b] after a unit of a word. *)
Definition word_ends (t : text) : bool := negb (word_here t).

(** [\[class\]{n}]: what follows. *)
Fixpoint class_times (p : ascii -> bool) (n : nat) (t : text) : option text :=
  match n, t with
  | O, _ => Some t
  | S n', c :: t' => if p c then class_times p n' t' else None
  | S _, [] => None
  end.
Fixpoint strip_text (p t : text) : option text :=
  match p, t with
  | [], _ => Some t
  | a :: p', b :: t' => if decide (a = b) then strip_text p' t' else None
  | _ :: _, [] => None
  end.
Fixpoint run_of (p : ascii -> bool) (t : text) : text :=
  match t with c :: t' => if p c then c :: run_of p t' else [] | [] => [] end.

(** ** The expressions: how many units match *)

Definition Matcher : Type := option ascii -> text -> option nat.
Definition zero_x : text := ["0"; "x"]%char.
(** [n] units of the class after [prefix], then [\b]. *)
Definition word_of (prefix : text) (p : ascii -> bool) (n : nat) (t : text) : option nat :=
  match strip_text prefix t with
  | None => None
  | Some t' =>
      match class_times p n t' with
      | Some rest => if word_ends rest then Some (length prefix + n)%nat else None
      | None => None
      end
  end.
Definition or_match (a b : option nat) : option nat := match a with Some n => Some n | None => b end.
Definition HASH_RE : Matcher := fun prev t =>
  if word_edge prev t then or_match (word_of zero_x hex_char 64 t) (word_of [] hex_char 64 t) else None.
Definition ADDRESS_RE : Matcher := fun prev t =>
  if word_edge prev t then
    or_match (word_of zero_x hex_char 40 t)
      (or_match (word_of ["G"%char] strkey_char 55 t) (word_of ["C"%char] strkey_char 55 t))
  else None.
(** [\d+\b]: fewer digits than there are end at no boundary. *)
Definition digits_then_edge (t : text) : option nat :=
  let digits := run_of is_digit t in
  if (0 <? length digits)%nat && word_ends (drop (length digits) t) then Some (length digits) else None.
Definition BARE_AMOUNT_RE : Matcher := fun prev t =>
  if word_edge prev t then digits_then_edge t else None.
Definition typed_prefixes : list text := [text_of "i128"; text_of "u128"].
Definition typed_amount (prefix : text) (t : text) : option nat :=
  match strip_text (prefix ++ [":"%char]) t with
  | Some t' => match digits_then_edge t' with Some n => Some (5 + n)%nat | None => None end
  | None => None
  end.
Definition TYPED_AMOUNT_RE : Matcher := fun prev t =>
  if word_edge prev t then or_match (typed_amount (text_of "i128") t) (typed_amount (text_of "u128") t) else None.

(** [input.replace(re, f)] with the flag [g], where [f] may keep a state: [skip] units
    of the current match are still to pass. *)
Fixpoint scan {St} (m : Matcher) (f : St -> text -> text * St) (st : St) (prev : option ascii) (skip : nat)
    (t : text) : text :=
  match t with
  | [] => []
  | c :: t' =>
      match skip with
      | S k => scan m f st (Some c) k t'
      | O =>
          match m prev t with
          | Some (S n) => let '(out, st') := f st (take (S n) t) in out ++ scan m f st' (Some c) n t'
          | _ => c :: scan m f st (Some c) 0 t'
          end
      end
  end.
Definition replace_all {St} (m : Matcher) (f : St -> text -> text * St) (st : St) (t : text) : text :=
  scan m f st None 0 t.

(** ** Masks *)

Record NormalizationRules : Type := mkRules
  { nr_rulesVersion : Z; nr_taxonomyVersion : Z; nr_maskAddresses : bool; nr_maskAmounts : bool;
    nr_maskHashes : bool; nr_amountMinDigits : Z }.
Definition NORMALIZATION_RULES_VERSION : Z := 1.
Definition TAXONOMY_VERSION : Z := 1.
Definition DEFAULT_AMOUNT_MIN_DIGITS : Z := 7.
Definition defaultNormalizationRules : NormalizationRules :=
  mkRules NORMALIZATION_RULES_VERSION TAXONOMY_VERSION true true true DEFAULT_AMOUNT_MIN_DIGITS.

(** The position of a match among the matches seen so far, which are in the order of
    their first appearance. *)
Fixpoint ordinal_in (w : text) (seen : list text) : option nat :=
  match seen with
  | [] => None
  | v :: seen' => if decide (v = w) then Some 0%nat else S <$> ordinal_in w seen'
  end.
Definition label_text (label : text) (ordinal : nat) : text :=
  label ++ "@"%char :: text_of (num_to_string (Z.of_nat ordinal)).
Definition give_ordinal (label : text) (seen : list text) (w : text) : text * list text :=
  match ordinal_in w seen with
  | Some k => (label_text label k, seen)
  | None => (label_text label (length seen), seen ++ [w])
  end.
Definition maskOrdinals (input : text) (re : Matcher) (label : text) : text :=
  replace_all re (give_ordinal label) [] input.

Section Amounts.
Context (log10_floor : Z -> Z).

Definition digits_value (digits : text) : Z := default 0 (parse_digits (string_of digits)).
(** [Number(digits)] is infinite from 2^1024 on. *)
Definition magnitudeBucket (value : Z) : Z :=
  let v := to_double value in
  if (2 ^ 1024 <=? v) || (v <? 1) then 0 else log10_floor v.
Definition bucketDigits (prefix digits : text) : text :=
  prefix ++ text_of ":1e" ++ text_of (num_to_string (magnitudeBucket (digits_value digits))) ++
  text_of "-magnitude-bucket".
Definition bucket_typed (st : unit) (w : text) : text * unit := (bucketDigits (take 4 w) (drop 5 w), st).
Definition bucket_bare (minDigits : Z) (st : unit) (w : text) : text * unit :=
  (if minDigits <=? Z.of_nat (length w) then bucketDigits (text_of "i128") w else w, st).

Definition mask_text (rules : NormalizationRules) (raw : text) : text :=
  let text1 := if nr_maskHashes rules then maskOrdinals raw HASH_RE (text_of "Hash") else raw in
  let text2 := if nr_maskAddresses rules then maskOrdinals text1 ADDRESS_RE (text_of "Address") else text1 in
  if nr_maskAmounts rules then
    replace_all BARE_AMOUNT_RE (bucket_bare (nr_amountMinDigits rules)) tt
      (replace_all TYPED_AMOUNT_RE bucket_typed tt text2)
  else text2.
Record NormalizedSignature : Type := mkNormalized { ns_text : string; ns_rulesVersion : Z }.
Definition normalizeSignaturePreimage (raw : string) (rules : NormalizationRules) : NormalizedSignature :=
  mkNormalized (string_of (mask_text rules (text_of raw))) (nr_rulesVersion rules).
End Amounts.

(** *** By hand *)

(** For the instances: exact, as on small values. *)
Definition digits_floor (v : Z) : Z := Z.of_nat (String.length (num_to_string v)) - 1.
Definition sample_hash : string := string_of (repeat "a"%char 64).
Definition sample_account : string := string_of ("G"%char :: repeat "A"%char 55).
Definition sample_contract : string := string_of ("C"%char :: repeat "B"%char 55).
Example normalize_by_hand :
  let norm s := ns_text (normalizeSignaturePreimage digits_floor s defaultNormalizationRules) in
  norm (cat ["pay "; sample_account; "->"; sample_contract; "/"; sample_account; " i128:12345678 x 42 9999999"])
    = "pay Address@0->Address@1/Address@0 i128:1e7-magnitude-bucket x 42 i128:1e6-magnitude-bucket"%string /\
  norm (cat ["h:"; sample_hash; " 0x"; sample_hash; " x"; sample_hash]) = cat ["h:Hash@0 Hash@1 x"; sample_hash] /\
  norm "i128:12 u128:000 i128:7a ai128:7 12345678_"%string
    = "i128:1e1-magnitude-bucket u128:1e0-magnitude-bucket i128:7a ai128:7 12345678_"%string.
Proof. vm_compute. done. Qed.

(** ** Words *)

Inductive chunk : Type := Sep (c : ascii) | Word (w : text).
(** Maximal runs of word units, and the units between them. *)
Fixpoint chunks (t : text) : list chunk :=
  match t with
  | [] => []
  | c :: t' =>
      if word_char c then
        match chunks t' with Word w :: rest => Word (c :: w) :: rest | rest => Word [c] :: rest end
      else Sep c :: chunks t'
  end.
Definition chunk_text (k : chunk) : text := match k with Sep c => [c] | Word w => w end.
Definition flatten (l : list chunk) : text := concat (chunk_text <$> l).
Definition starts_word (l : list chunk) : bool := match l with Word _ :: _ => true | _ => false end.
(** Separators are no word units, words are not empty, and no two are side by side. *)
Fixpoint chunks_ok (l : list chunk) : Prop :=
  match l with
  | [] => True
  | Sep c :: l' => word_char c = false /\ chunks_ok l'
  | Word w :: l' => w <> [] /\ Forall (fun c => word_char c = true) w /\ starts_word l' = false /\ chunks_ok l'
  end.

#[local] Arguments flatten : simpl never.
Lemma flatten_cons (k : chunk) (l : list chunk) : flatten (k :: l) = chunk_text k ++ flatten l.
Proof. done. Qed.
Lemma flatten_app (l k : list chunk) : flatten (l ++ k) = flatten l ++ flatten k.
Proof. unfold flatten. by rewrite fmap_app, concat_app. Qed.

Lemma flatten_chunks (t : text) : flatten (chunks t) = t.
Proof.
  induction t as [|c t IH]; [done|]. cbn. destruct (word_char c).
  - destruct (chunks t) as [|[d|w] l]; rewrite flatten_cons; cbn; f_equal; exact IH.
  - rewrite flatten_cons. cbn. by f_equal.
Qed.

Lemma chunks_wf (t : text) : chunks_ok (chunks t).
Proof.
  induction t as [|c t IH]; [done|]. cbn. destruct (word_char c) eqn:E; [|done].
  destruct (chunks t) as [|[d|w] l]; cbn in *; split_and!; try done; try by repeat constructor.
  - by destruct IH.
  - by destruct IH.
  - destruct IH as (_ & IH & _). by constructor.
  - by destruct IH as (_ & _ & ? & _).
  - by destruct IH as (_ & _ & _ & ?).
Qed.

Lemma chunks_flatten (l : list chunk) : chunks_ok l -> chunks (flatten l) = l.
Proof.
  induction l as [|[c|w] l IH]; intros H; [done| |].
  - destruct H as [Hc H]. rewrite flatten_cons. cbn. rewrite Hc. f_equal. by apply IH.
  - destruct H as (Hne & Hw & Hl & H). rewrite flatten_cons. cbn [chunk_text].
    specialize (IH H). clear H. induction Hw as [|c w Hc Hw IHw]; [done|]. cbn. rewrite Hc.
    destruct w as [|d w]; cbn [app].
    + rewrite IH. by destruct l as [|[?|?] l].
    + cbn [app] in IHw. by rewrite IHw.
Qed.

Lemma word_here_flatten (l : list chunk) : chunks_ok l -> word_here (flatten l) = starts_word l.
Proof.
  destruct l as [|[c|w] l]; [done| |]; intros H; cbn in *; [by destruct H|].
  destruct H as (? & H & _). by destruct H.
Qed.

(** ** The scanner works word by word *)

(** [m] matches exactly the whole words [P] accepts. *)
Definition matches_words (m : Matcher) (P : text -> bool) : Prop :=
  forall prev l, chunks_ok l ->
    m prev (flatten l) =
      match l with
      | Word w :: _ => if negb (word_before prev) && P w then Some (length w) else None
      | _ => None
      end.
Fixpoint subst_words {St} (P : text -> bool) (f : St -> text -> text * St) (st : St) (l : list chunk) : text :=
  match l with
  | [] => []
  | Sep c :: l' => c :: subst_words P f st l'
  | Word w :: l' =>
      if P w then let '(out, st') := f st w in out ++ subst_words P f st' l'
      else w ++ subst_words P f st l'
  end.

Section Scanner.
Context {St : Type} (m : Matcher) (f : St -> text -> text * St).

Lemma scan_skip (st : St) (w rest : text) : forall prev,
  scan m f st prev (length w) (w ++ rest) = scan m f st (match last w with Some c => Some c | None => prev end) 0 rest.
Proof.
  induction w as [|c w IH]; intros prev; [by destruct rest|]. cbn [length app scan]. rewrite IH.
  rewrite last_cons. by destruct (last w).
Qed.

Context (P : text -> bool) (Hm : matches_words m P).

(** Inside a word nothing matches. *)
Lemma scan_inside (st : St) (w : text) (l : list chunk) : forall prev,
  Forall (fun c => word_char c = true) w -> chunks_ok l -> starts_word l = false ->
  word_before prev = true ->
  scan m f st prev 0 (w ++ flatten l) =
    w ++ scan m f st (match last w with Some c => Some c | None => prev end) 0 (flatten l).
Proof.
  induction w as [|c w IH]; intros prev Hw Hl Hs Hp; [done|].
  apply Forall_cons in Hw as [Hc Hw]. cbn [app scan].
  assert (Hno : m prev (c :: w ++ flatten l) = None).
  { change (c :: w ++ flatten l) with (flatten (Word (c :: w) :: l)). rewrite Hm; [|by split_and!; [|constructor| |]].
    by rewrite Hp. }
  rewrite Hno. f_equal. rewrite IH by done. rewrite last_cons. by destruct (last w).
Qed.

Lemma last_word (w : text) (prev : option ascii) :
  w <> [] -> Forall (fun c => word_char c = true) w ->
  word_before (match last w with Some c => Some c | None => prev end) = true.
Proof.
  intros Hne Hw. destruct (last w) as [c|] eqn:E; [|by apply last_None in E].
  cbn. rewrite Forall_forall in Hw. apply Hw. by apply last_Some_elem_of.
Qed.

Lemma scan_words (l : list chunk) : forall (st : St) (prev : option ascii),
  chunks_ok l -> (starts_word l = true -> word_before prev = false) ->
  scan m f st prev 0 (flatten l) = subst_words P f st l.
Proof.
  induction l as [|[c|w] l IH]; intros st prev Hl Hp; [done| |].
  - pose proof (Hm prev _ Hl) as Hno. destruct Hl as [Hc Hl]. rewrite flatten_cons in *. cbn in *. rewrite Hno.
    f_equal. by apply IH.
  - pose proof (Hm prev _ Hl) as Hw. specialize (Hp eq_refl). rewrite Hp in Hw. destruct Hl as (Hne & Hwd & Hs & Hl).
    rewrite flatten_cons in *. cbn [chunk_text negb andb subst_words] in *.
    destruct w as [|c w]; [done|]. cbn [app scan] in *. rewrite Hw. destruct (P (c :: w)) eqn:EP.
    + cbn [length]. change (c :: w ++ flatten l) with ((c :: w) ++ flatten l).
      change (S (length w)) with (length (c :: w)). rewrite take_app_length.
      destruct (f st (c :: w)) as [out st']. f_equal. rewrite scan_skip. apply IH; [done|]. by rewrite Hs.
    + cbn [app]. f_equal. apply Forall_cons in Hwd as [Hc Hwd].
      rewrite scan_inside by done. f_equal. apply IH; [done|]. by rewrite Hs.
Qed.

Lemma replace_all_words (st : St) (t : text) : replace_all m f st t = subst_words P f st (chunks t).
Proof.
  unfold replace_all. rewrite <- (flatten_chunks t) at 1. apply scan_words; [apply chunks_wf|done].
Qed.
End Scanner.

(** ** The words each expression takes *)

Definition is_word_of (prefix : text) (p : ascii -> bool) (n : nat) (w : text) : bool :=
  match strip_text prefix w with Some r => Nat.eqb (length r) n && forallb p r | None => false end.
Definition hash_word (w : text) : bool := is_word_of zero_x hex_char 64 w || is_word_of [] hex_char 64 w.
Definition address_word (w : text) : bool :=
  is_word_of zero_x hex_char 40 w || (is_word_of ["G"%char] strkey_char 55 w || is_word_of ["C"%char] strkey_char 55 w).
Definition digits_word (w : text) : bool := (0 <? length w)%nat && forallb is_digit w.

Lemma hex_is_word (c : ascii) : hex_char c = true -> word_char c = true.
Proof. unfold hex_char, word_char, between. intros H. destruct (is_digit c); [done|]. bools; lia. Qed.
Lemma base32_is_word (c : ascii) : strkey_char c = true -> word_char c = true.
Proof. unfold strkey_char, word_char, is_digit, between. intros H. bools; lia. Qed.
Lemma digit_is_word (c : ascii) : is_digit c = true -> word_char c = true.
Proof. unfold word_char. by intros ->. Qed.

Section Words.
Context (rest : text) (Hrest : word_here rest = false).

Lemma strip_text_word (prefix w : text) :
  Forall (fun c => word_char c = true) prefix ->
  strip_text prefix (w ++ rest) = (.++ rest) <$> strip_text prefix w.
Proof.
  intros Hp. revert w. induction Hp as [|a prefix Ha Hp IH]; intros w; [done|].
  destruct w as [|b w]; cbn; [|destruct (decide (a = b)); [apply IH|done]].
  destruct rest as [|c t]; [done|]. cbn in Hrest. rewrite decide_False; [done|]. intros ->. congruence.
Qed.

Lemma class_times_word (p : ascii -> bool) (Hp : forall c, p c = true -> word_char c = true) (n : nat) :
  forall r, Forall (fun c => word_char c = true) r ->
  match class_times p n (r ++ rest) with Some t => word_ends t | None => false end
  = Nat.eqb (length r) n && forallb p r.
Proof.
  unfold word_ends. induction n as [|n IH]; intros r Hr; cbn.
  - destruct r as [|c r]; cbn; [by rewrite Hrest|]. apply Forall_cons in Hr as [Hc _]. by rewrite Hc.
  - destruct r as [|c r]; cbn.
    + destruct rest as [|c t]; [done|]. cbn in Hrest. destruct (p c) eqn:E; [|done]. apply Hp in E. congruence.
    + apply Forall_cons in Hr as [_ Hr]. destruct (p c); [by apply IH|by rewrite andb_false_r].
Qed.

Lemma run_of_word (p : ascii -> bool) (Hp : forall c, p c = true -> word_char c = true) (w : text) :
  run_of p (w ++ rest) = run_of p w.
Proof.
  induction w as [|c w IH]; cbn; [|destruct (p c); [by rewrite IH|done]].
  destruct rest as [|c t]; [done|]. cbn in *. destruct (p c) eqn:E; [|done]. apply Hp in E. congruence.
Qed.
End Words.

Lemma strip_text_Some (prefix w r : text) : strip_text prefix w = Some r -> w = prefix ++ r.
Proof.
  revert w. induction prefix as [|a prefix IH]; intros w; cbn; [by intros [= ->]|].
  destruct w as [|b w]; [done|]. destruct (decide (a = b)) as [->|]; [|done]. intros H. by rewrite (IH _ H).
Qed.

Lemma word_of_words (prefix : text) (p : ascii -> bool) (n : nat) (l : list chunk) :
  (forall c, p c = true -> word_char c = true) -> Forall (fun c => word_char c = true) prefix ->
  (0 < n)%nat -> chunks_ok l ->
  word_of prefix p n (flatten l) =
    match l with Word w :: _ => if is_word_of prefix p n w then Some (length w) else None | _ => None end.
Proof.
  intros Hp Hpre Hn Hl. unfold word_of, is_word_of.
  assert (Hno : forall t, word_here t = false ->
    match strip_text prefix t with
    | Some t' => match class_times p n t' with
                 | Some rest => if word_ends rest then Some (length prefix + n)%nat else None
                 | None => None end
    | None => None end = None).
  { intros t Ht. pose proof (strip_text_word t Ht prefix [] Hpre) as E. cbn [app] in E. rewrite E.
    destruct prefix; [|done]. cbn. pose proof (class_times_word t Ht p Hp n [] (Forall_nil_2 _)) as E'.
    cbn [app length forallb] in E'. destruct n as [|n]; [lia|].
    destruct (class_times p (S n) t); [|done]. by rewrite E'. }
  destruct l as [|[c|w] l]; [by apply (Hno [])|apply Hno; by destruct Hl|].
  destruct Hl as (Hne & Hw & Hs & Hl). rewrite flatten_cons. cbn [chunk_text].
  assert (Hrest : word_here (flatten l) = false) by by rewrite word_here_flatten.
  rewrite strip_text_word by done. destruct (strip_text prefix w) as [r|] eqn:Er; [cbn|done].
  apply strip_text_Some in Er. subst w. apply Forall_app in Hw as [_ Hr].
  pose proof (class_times_word (flatten l) Hrest p Hp n r Hr) as E.
  destruct (class_times p n (r ++ flatten l)) as [t|]; rewrite <- E; [|done].
  destruct (word_ends t); [|done]. symmetry in E. apply andb_true_iff in E as [E%Nat.eqb_eq _].
  by rewrite length_app, E.
Qed.

Lemma zero_x_word : Forall (fun c => word_char c = true) zero_x.
Proof. by repeat constructor. Qed.
Lemma edge_words (prev : option ascii) (w : text) (l : list chunk) :
  chunks_ok (Word w :: l) -> word_edge prev (flatten (Word w :: l)) = negb (word_before prev).
Proof. intros H. unfold word_edge. rewrite word_here_flatten by done. cbn. by destruct (word_before prev). Qed.

Lemma hash_words : matches_words HASH_RE hash_word.
Proof.
  intros prev l Hl. unfold HASH_RE, hash_word.
  rewrite (word_of_words zero_x) by (done || apply hex_is_word || apply zero_x_word || lia).
  rewrite (word_of_words []) by (done || apply hex_is_word || lia).
  destruct l as [|[c|w] l]; [by destruct (word_edge _ _)..|]. rewrite edge_words by done.
  destruct (negb _); [|done]. cbn [andb]. by destruct (is_word_of zero_x _ _ w), (is_word_of [] _ _ w).
Qed.
Lemma address_words : matches_words ADDRESS_RE address_word.
Proof.
  intros prev l Hl. unfold ADDRESS_RE, address_word.
  rewrite (word_of_words zero_x) by (done || apply hex_is_word || apply zero_x_word || lia).
  rewrite !word_of_words by (done || apply base32_is_word || (by repeat constructor) || lia).
  destruct l as [|[c|w] l]; [by destruct (word_edge _ _)..|]. rewrite edge_words by done.
  destruct (negb _); [|done]. cbn [andb].
  by destruct (is_word_of zero_x _ _ w), (is_word_of ["G"%char] _ _ w), (is_word_of ["C"%char] _ _ w).
Qed.

Lemma run_of_all (p : ascii -> bool) (w : text) : forallb p w = true -> run_of p w = w.
Proof. induction w as [|c w IH]; cbn; [done|]. intros [-> H]%andb_true_iff. by rewrite IH. Qed.
Lemma run_of_part (p : ascii -> bool) (w : text) :
  forallb p w = false -> exists c t, drop (length (run_of p w)) w = c :: t.
Proof.
  induction w as [|c w IH]; cbn; [done|]. destruct (p c); cbn; [|by eauto]. intros H. by apply IH.
Qed.

Lemma digits_edge_word (w : text) (l : list chunk) :
  Forall (fun c => word_char c = true) w -> chunks_ok l -> starts_word l = false ->
  digits_then_edge (w ++ flatten l) = if digits_word w then Some (length w) else None.
Proof.
  intros Hw Hl Hs. assert (Hrest : word_here (flatten l) = false) by by rewrite word_here_flatten.
  unfold digits_then_edge, digits_word, word_ends.
  rewrite (run_of_word _ Hrest is_digit digit_is_word). destruct (forallb is_digit w) eqn:E.
  - rewrite (run_of_all _ _ E), drop_app_length, Hrest. destruct w; done.
  - destruct (run_of_part _ _ E) as (c & t & Ed). rewrite andb_false_r.
    assert (Hlen : (length (run_of is_digit w) <= length w)%nat).
    { clear. induction w as [|c w IH]; cbn; [lia|]. destruct (is_digit c); cbn; lia. }
    rewrite drop_app_le by done. rewrite Ed. cbn.
    assert (Hc : word_char c = true).
    { rewrite Forall_forall in Hw. apply Hw. rewrite <- (take_drop (length (run_of is_digit w)) w), Ed.
      apply elem_of_app. right. by left. }
    rewrite Hc, andb_false_r. done.
Qed.

Lemma bare_words : matches_words BARE_AMOUNT_RE digits_word.
Proof.
  intros prev l Hl. unfold BARE_AMOUNT_RE. destruct l as [|[c|w] l].
  - by destruct (word_edge _ _).
  - destruct Hl as [Hc Hl]. rewrite flatten_cons. cbn [chunk_text app]. unfold digits_then_edge. cbn.
    assert (is_digit c = false) as ->; [|by destruct (word_edge _ _)].
    destruct (is_digit c) eqn:E; [|done]. apply digit_is_word in E. congruence.
  - rewrite edge_words by done. destruct Hl as (_ & Hw & Hs & Hl). rewrite flatten_cons. cbn [chunk_text].
    rewrite digits_edge_word by done. by destruct (negb _).
Qed.

(** ** Masks on words *)

Definition is_wordy (w : text) : Prop := w <> [] /\ Forall (fun c => word_char c = true) w.
Definition ordinal_text (k : nat) : text := text_of (num_to_string (Z.of_nat k)).
Definition label_chunks (label : text) (k : nat) : list chunk := [Word label; Sep "@"%char; Word (ordinal_text k)].
Fixpoint mask_chunks (P : text -> bool) (label : text) (seen : list text) (l : list chunk) : list chunk :=
  match l with
  | [] => []
  | Sep c :: l' => Sep c :: mask_chunks P label seen l'
  | Word w :: l' =>
      if P w then
        match ordinal_in w seen with
        | Some k => label_chunks label k ++ mask_chunks P label seen l'
        | None => label_chunks label (length seen) ++ mask_chunks P label (seen ++ [w]) l'
        end
      else Word w :: mask_chunks P label seen l'
  end.

Lemma ordinal_wordy (k : nat) : is_wordy (ordinal_text k).
Proof.
  unfold ordinal_text, text_of. split.
  - intros E. apply (num_to_string_ne (Z.of_nat k)); [lia|].
    rewrite <- (String.string_of_list_ascii_of_string (num_to_string _)), E. done.
  - assert (H : forall s, all_chars is_digit s = true ->
      Forall (fun c => word_char c = true) (String.list_ascii_of_string s)).
    { induction s as [|c s IH]; cbn; [by constructor|]. intros [Hc Hs]%andb_true_iff.
      constructor; [by apply digit_is_word|by apply IH]. }
    apply H, num_to_string_digits. lia.
Qed.

Lemma mask_chunks_text (P : text -> bool) (label : text) (l : list chunk) : forall seen,
  flatten (mask_chunks P label seen l) = subst_words P (give_ordinal label) seen l.
Proof.
  induction l as [|[c|w] l IH]; intros seen; [done| |].
  - cbn. rewrite flatten_cons, IH. done.
  - cbn. unfold give_ordinal. destruct (P w); [|by rewrite flatten_cons, IH].
    destruct (ordinal_in w seen); cbn; rewrite !flatten_cons, IH; cbn; unfold label_text, ordinal_text;
      by rewrite <- app_assoc.
Qed.

Lemma mask_chunks_starts (P : text -> bool) (label : text) (seen : list text) (l : list chunk) :
  starts_word (mask_chunks P label seen l) = starts_word l.
Proof. destruct l as [|[c|w] l]; cbn; [done..|]. destruct (P w); [|done]. by destruct (ordinal_in w seen). Qed.

Lemma mask_chunks_wf (P : text -> bool) (label : text) (l : list chunk) :
  is_wordy label -> chunks_ok l -> forall seen, chunks_ok (mask_chunks P label seen l).
Proof.
  intros [Hne Hlab]. induction l as [|[c|w] l IH]; intros Hl seen; [done| |].
  - destruct Hl as [? Hl]. cbn. split; [done|]. by apply IH.
  - destruct Hl as (? & ? & Hs & Hl). cbn.
    destruct (P w); [destruct (ordinal_in w seen) as [k|]|]; cbn; split_and!; try done;
      rewrite ?mask_chunks_starts; try done; try apply ordinal_wordy; by apply IH.
Qed.

Lemma maskOrdinals_chunks (re : Matcher) (P : text -> bool) (label : text) (l : list chunk) :
  matches_words re P -> is_wordy label -> chunks_ok l ->
  maskOrdinals (flatten l) re label = flatten (mask_chunks P label [] l).
Proof.
  intros Hre Hlab Hl. unfold maskOrdinals. rewrite (replace_all_words _ _ P Hre).
  rewrite mask_chunks_text. by rewrite chunks_flatten.
Qed.

(** *** Alike lists of words *)

Inductive alike (R : text -> text -> Prop) : chunk -> chunk -> Prop :=
  | alike_sep c : alike R (Sep c) (Sep c)
  | alike_word w w' : R w w' -> alike R (Word w) (Word w').

Lemma alike_same (R : text -> text -> Prop) (HR : forall w, R w w) (k : chunk) : alike R k k.
Proof. destruct k; constructor. done. Qed.

(** Masking what [g] renames injectively gives the same labels. *)
Lemma mask_alike (P : text -> bool) (label : text) (R R' : text -> text -> Prop) (g : text -> text)
    (l l' : list chunk) :
  Forall2 (alike R) l l' ->
  (forall w w', R w w' -> P w' = P w) ->
  (forall w w', R w w' -> P w = true -> w' = g w) ->
  (forall v w, P v = true -> P w = true -> g v = g w -> v = w) ->
  (forall w w', R w w' -> P w = false -> R' w w') -> R' label label -> (forall k, R' (ordinal_text k) (ordinal_text k)) ->
  forall seen, Forall (fun v => P v = true) seen ->
  Forall2 (alike R') (mask_chunks P label seen l) (mask_chunks P label (g <$> seen) l').
Proof.
  intros Hl HP Hg Hinj HR' Hlab Hord.
  assert (Hfind : forall w seen, P w = true -> Forall (fun v => P v = true) seen ->
    ordinal_in (g w) (g <$> seen) = ordinal_in w seen).
  { intros w seen Hw. induction 1 as [|v seen Hv _ IH]; [done|]. cbn.
    destruct (decide (v = w)) as [->|Hne]; [by rewrite decide_True|].
    rewrite decide_False; [by rewrite IH|]. intros E. apply Hne. by apply Hinj. }
  assert (Hlc : forall k, Forall2 (alike R') (label_chunks label k) (label_chunks label k)).
  { intros k. constructor; [by constructor|]. constructor; [by constructor|]. constructor; [|done]. by constructor. }
  induction Hl as [|k k' l l' Hk _ IH]; intros seen Hseen; [done|].
  destruct Hk as [c|w w' Hw]; cbn [mask_chunks]; [constructor; [by constructor|by apply IH]|].
  rewrite (HP _ _ Hw). destruct (P w) eqn:EP.
  - rewrite (Hg _ _ Hw EP), (Hfind w seen EP Hseen). destruct (ordinal_in w seen) as [k|].
    + apply Forall2_app; [apply Hlc|by apply IH].
    + rewrite length_fmap. apply Forall2_app; [apply Hlc|].
      assert (g <$> seen ++ [w] = (g <$> seen) ++ [g w]) as <- by by rewrite fmap_app.
      apply IH. apply Forall_app. split; [done|]. by constructor.
  - constructor; [constructor; by apply HR'|by apply IH].
Qed.

(** ** Typed amounts on words *)

Section TypedAmounts.
Context (log10_floor : Z -> Z).

(** A tagged amount is three chunks; what replaces it is cut into words again. *)
Fixpoint typed_chunks (l : list chunk) : list chunk :=
  match l with
  | [] => []
  | Sep c :: l' => Sep c :: typed_chunks l'
  | Word p :: ((Sep c :: Word d :: l'') as l') =>
      if bool_decide (p ∈ typed_prefixes) && bool_decide (c = ":"%char) && digits_word d
      then chunks (bucketDigits log10_floor p d) ++ typed_chunks l''
      else Word p :: typed_chunks l'
  | Word p :: l' => Word p :: typed_chunks l'
  end.

Lemma typed_amount_words (prefix w : text) (l : list chunk) :
  prefix ∈ typed_prefixes -> chunks_ok (Word w :: l) ->
  typed_amount prefix (flatten (Word w :: l)) =
    match l with
    | Sep c :: Word d :: _ =>
        if bool_decide (w = prefix) && bool_decide (c = ":"%char) && digits_word d
        then Some (5 + length d)%nat else None
    | _ => None
    end.
Proof.
  intros Hpre (Hne & Hw & Hs & Hl).
  assert (Hpw : Forall (fun c => word_char c = true) prefix /\ length prefix = 4%nat).
  { apply elem_of_cons in Hpre as [->| ->%list_elem_of_singleton]; by repeat constructor. }
  destruct Hpw as [Hpw Hlen]. unfold typed_amount. rewrite flatten_cons. cbn [chunk_text].
  assert (Hrest : word_here (flatten l) = false) by by rewrite word_here_flatten.
  assert (Hstrip : strip_text (prefix ++ [":"%char]) (w ++ flatten l) =
    if bool_decide (w = prefix) then strip_text [":"%char] (flatten l) else None).
  { clear Hpre Hlen Hne. revert w Hw. induction Hpw as [|a prefix Ha Hpw IH]; intros w Hw.
    - destruct w as [|b w]; [done|]. apply Forall_cons in Hw as [Hb _]. cbn. rewrite decide_False; [done|].
      intros <-. done.
    - destruct w as [|b w]; cbn.
      + destruct (flatten l) as [|c t]; [done|]. cbn in Hrest. rewrite decide_False; [done|]. congruence.
      + apply Forall_cons in Hw as [_ Hw]. destruct (decide (a = b)) as [->|Hab].
        * rewrite IH by done. destruct (bool_decide_reflect (w = prefix)) as [->|];
            [by rewrite !bool_decide_true by done|].
          by rewrite !bool_decide_false by congruence.
        * rewrite bool_decide_false; [done|congruence]. }
  rewrite Hstrip. destruct (bool_decide_reflect (w = prefix)); cbn [andb].
  2: by destruct l as [|[c|d] [|[c'|d'] l]].
  destruct l as [|[c|v] l]; [done| |done]. destruct Hl as [Hc Hl]. rewrite flatten_cons. cbn.
  destruct (decide (":"%char = c)) as [<-|Hne'].
  2: { destruct l as [|[c'|d'] l]; [done..|]. rewrite bool_decide_false by congruence. done. }
  destruct l as [|[c'|d] l]; [done| |].
  - destruct Hl as [Hc' _]. rewrite flatten_cons. unfold digits_then_edge. cbn.
    destruct (is_digit c') eqn:E; [|done]. apply digit_is_word in E. congruence.
  - destruct Hl as (_ & Hd & Hs' & Hl). rewrite flatten_cons. cbn [chunk_text].
    rewrite digits_edge_word by done. by destruct (digits_word d).
Qed.

Lemma typed_prefix_or (w : text) :
  bool_decide (w ∈ typed_prefixes) = bool_decide (w = text_of "i128") || bool_decide (w = text_of "u128").
Proof.
  destruct (bool_decide_reflect (w = text_of "i128")) as [->|H1]; [by apply bool_decide_eq_true; left|].
  destruct (bool_decide_reflect (w = text_of "u128")) as [->|H2]; [by apply bool_decide_eq_true; right; left|].
  apply bool_decide_eq_false. by intros [?|[?|?%elem_of_nil]%elem_of_cons]%elem_of_cons.
Qed.

Lemma typed_at_word (prev : option ascii) (w : text) (l : list chunk) :
  chunks_ok (Word w :: l) -> word_before prev = false ->
  TYPED_AMOUNT_RE prev (flatten (Word w :: l)) =
    match l with
    | Sep c :: Word d :: _ =>
        if bool_decide (w ∈ typed_prefixes) && bool_decide (c = ":"%char) && digits_word d
        then Some (5 + length d)%nat else None
    | _ => None
    end.
Proof.
  intros Hl Hp. unfold TYPED_AMOUNT_RE. rewrite edge_words, Hp by done. cbn [negb].
  rewrite !typed_amount_words by (done || by left || by right; left).
  destruct l as [|[c|v] [|[c'|d] l]]; try done. rewrite typed_prefix_or.
  destruct (bool_decide (w = _)), (bool_decide (w = _)), (bool_decide (c = _)), (digits_word d); done.
Qed.

Lemma typed_inside (w : text) (l : list chunk) : forall prev,
  Forall (fun c => word_char c = true) w -> word_before prev = true ->
  scan TYPED_AMOUNT_RE (bucket_typed log10_floor) tt prev 0 (w ++ flatten l) =
  w ++ scan TYPED_AMOUNT_RE (bucket_typed log10_floor) tt (match last w with Some c => Some c | None => prev end)
         0 (flatten l).
Proof.
  induction w as [|c w IH]; intros prev Hw Hp; [done|]. apply Forall_cons in Hw as [Hc Hw]. cbn [app scan].
  assert (TYPED_AMOUNT_RE prev (c :: w ++ flatten l) = None) as ->.
  { unfold TYPED_AMOUNT_RE, word_edge. cbn. by rewrite Hp, Hc. }
  f_equal. rewrite IH by done. rewrite last_cons. by destruct (last w).
Qed.

(** A word that does not match is passed. *)
Lemma typed_pass_word (prev : option ascii) (w : text) (l : list chunk) :
  chunks_ok (Word w :: l) -> TYPED_AMOUNT_RE prev (flatten (Word w :: l)) = None ->
  scan TYPED_AMOUNT_RE (bucket_typed log10_floor) tt prev 0 (flatten (Word w :: l)) =
  w ++ scan TYPED_AMOUNT_RE (bucket_typed log10_floor) tt (last w) 0 (flatten l).
Proof.
  intros (Hne & Hw & _) Hno. rewrite flatten_cons in *. cbn [chunk_text] in *. destruct w as [|c w]; [done|].
  apply Forall_cons in Hw as [Hc Hw]. cbn [app scan] in *. rewrite Hno. f_equal.
  rewrite typed_inside by done. rewrite last_cons. by destruct (last w).
Qed.

(** A tagged amount is replaced. *)
Lemma typed_take_amount (prev : option ascii) (w d : text) (l : list chunk) :
  length w = 4%nat ->
  TYPED_AMOUNT_RE prev (flatten (Word w :: Sep ":"%char :: Word d :: l)) = Some (5 + length d)%nat ->
  exists prev', scan TYPED_AMOUNT_RE (bucket_typed log10_floor) tt prev 0
      (flatten (Word w :: Sep ":"%char :: Word d :: l)) =
    bucketDigits log10_floor w d ++ scan TYPED_AMOUNT_RE (bucket_typed log10_floor) tt prev' 0 (flatten l).
Proof.
  intros Hlen Hm. rewrite !flatten_cons in *. cbn [chunk_text] in *. rewrite !app_assoc in *.
  set (tok := (w ++ [":"%char]) ++ d) in *.
  assert (Htok : length tok = (5 + length d)%nat) by (subst tok; rewrite !length_app, Hlen; cbn; lia).
  assert (Hw : take 4 tok = w) by (subst tok; rewrite <- app_assoc, take_app_length'; done).
  assert (Hd : drop 5 tok = d) by (subst tok; rewrite drop_app_length'; [done|rewrite length_app, Hlen; done]).
  destruct tok as [|c0 tok'] eqn:Etok; [done|]. cbn [app scan] in *. rewrite Hm. cbn [plus].
  assert (Hk : length tok' = (4 + length d)%nat) by (cbn in Htok; lia).
  assert (take (5 + length d) (c0 :: tok' ++ flatten l) = c0 :: tok') as Htake.
  { change (c0 :: tok' ++ flatten l) with ((c0 :: tok') ++ flatten l). rewrite take_app_length'; [done|].
    by rewrite <- Htok. }
  cbn [plus] in Htake. rewrite Htake. unfold bucket_typed at 1. rewrite Hw, Hd. cbn [plus] in Hk. rewrite <- Hk.
  eexists. f_equal. apply scan_skip.
Qed.

Lemma scan_typed (n : nat) : forall (l : list chunk) (prev : option ascii),
  (length l < n)%nat -> chunks_ok l -> (starts_word l = true -> word_before prev = false) ->
  scan TYPED_AMOUNT_RE (bucket_typed log10_floor) tt prev 0 (flatten l) = flatten (typed_chunks l).
Proof.
  induction n as [|n IH]; intros l prev Hn Hl Hp; [lia|]. destruct l as [|[c|w] l]; [done| |].
  - destruct Hl as [Hc Hl]. rewrite flatten_cons. cbn [chunk_text app scan typed_chunks].
    assert (TYPED_AMOUNT_RE prev (c :: flatten l) = None) as ->.
    { unfold TYPED_AMOUNT_RE. destruct (word_edge _ _); [|done]. unfold typed_amount. cbn.
      destruct (decide ("i"%char = c)) as [<-|]; [done|]. destruct (decide ("u"%char = c)) as [<-|]; done. }
    rewrite flatten_cons. cbn [chunk_text app]. f_equal. apply IH; cbn in *; [lia|done|done].
  - specialize (Hp eq_refl). pose proof (typed_at_word prev w l Hl Hp) as Hm.
    pose proof Hl as (_ & _ & Hs & Hl').
    assert (Hpass : TYPED_AMOUNT_RE prev (flatten (Word w :: l)) = None ->
      scan TYPED_AMOUNT_RE (bucket_typed log10_floor) tt prev 0 (flatten (Word w :: l))
      = flatten (Word w :: typed_chunks l)).
    { intros Hno. rewrite typed_pass_word by done. rewrite (flatten_cons (Word w)). cbn [chunk_text]. f_equal.
      apply IH; [cbn in *; lia|done|]. by rewrite Hs. }
    destruct l as [|[c|v] [|[c'|d] l]]; try (by apply Hpass); try done. cbn [typed_chunks] in *.
    destruct (bool_decide (w ∈ typed_prefixes) && bool_decide (c = ":"%char) && digits_word d) eqn:E;
      [|by apply Hpass].
    apply andb_true_iff in E as [E _]. apply andb_true_iff in E as [Ew%bool_decide_eq_true Ec%bool_decide_eq_true].
    assert (Hlen : length w = 4%nat) by by apply elem_of_cons in Ew as [->| ->%list_elem_of_singleton].
    subst c. destruct (typed_take_amount prev w d l Hlen Hm) as [prev' ->].
    rewrite flatten_app, flatten_chunks. f_equal.
    destruct Hl' as (_ & _ & _ & Hs' & Hl''). apply IH; [cbn in *; lia|done|]. by rewrite Hs'.
Qed.

Lemma chunks_ok_app (a b : list chunk) :
  chunks_ok a -> chunks_ok b -> starts_word b = false -> chunks_ok (a ++ b).
Proof.
  intros Ha Hb Hs. induction a as [|[c|w] a IH]; [done| |]; cbn in *.
  - destruct Ha as [? Ha]. split; [done|by apply IH].
  - destruct Ha as (? & ? & Ha' & Ha). split_and!; [done|done| |by apply IH]. by destruct a.
Qed.

Lemma typed_chunks_starts (l : list chunk) :
  chunks_ok l -> starts_word (typed_chunks l) = starts_word l.
Proof.
  destruct l as [|[c|w] [|[c'|v] [|[c''|d] l]]]; try done. intros (_ & Hw & _). cbn [typed_chunks].
  destruct (_ && _) eqn:E; [|done].
  assert (Hb : starts_word (chunks (bucketDigits log10_floor w d)) = true).
  { apply andb_true_iff in E as [[E%bool_decide_eq_true _]%andb_true_iff _].
    rewrite <- word_here_flatten by apply chunks_wf. rewrite flatten_chunks.
    by apply elem_of_cons in E as [->| ->%list_elem_of_singleton]. }
  by destruct (chunks (bucketDigits log10_floor w d)).
Qed.

Lemma typed_chunks_wf (n : nat) : forall l : list chunk,
  (length l < n)%nat -> chunks_ok l -> chunks_ok (typed_chunks l).
Proof.
  induction n as [|n IH]; intros l Hn Hl; [lia|]. destruct l as [|[c|w] l]; [done| |].
  - destruct Hl as [? Hl]. split; [done|]. apply IH; [cbn in Hn; lia|done].
  - destruct Hl as (Hne & Hw & Hs & Hl).
    assert (Hkeep : chunks_ok (Word w :: typed_chunks l)).
    { split_and!; [done|done|by rewrite typed_chunks_starts|]. apply IH; [cbn in Hn; lia|done]. }
    destruct l as [|[c|v] [|[c'|d] l]]; try done. cbn [typed_chunks] in *.
    destruct (_ && _); [|done]. destruct Hl as (_ & _ & _ & Hs' & Hl). apply chunks_ok_app.
    + apply chunks_wf.
    + apply IH; [cbn in Hn; lia|done].
    + by rewrite typed_chunks_starts.
Qed.
End TypedAmounts.

(** ** Renaming what varies *)

Section Renaming.
Context (log10_floor : Z -> Z) (minDigits : Z).

(** Two amounts that the bare rule masks alike. *)
Definition amounts_alike (w w' : text) : Prop :=
  digits_word w = true /\ digits_word w' = true /\
  minDigits <= Z.of_nat (length w) /\ minDigits <= Z.of_nat (length w') /\
  magnitudeBucket log10_floor (digits_value w) = magnitudeBucket log10_floor (digits_value w').
(** [g] maps hashes to hashes and addresses to addresses, different ones to different
    ones, amounts to amounts of their magnitude, and leaves every other word. *)
Record renaming (g : text -> text) : Prop := mkRenaming
  { rn_hash : forall w, hash_word (g w) = hash_word w;
    rn_address : forall w, address_word (g w) = address_word w;
    rn_hash_inj : forall v w, hash_word v = true -> hash_word w = true -> g v = g w -> v = w;
    rn_address_inj : forall v w, address_word v = true -> address_word w = true -> g v = g w -> v = w;
    rn_other : forall w, hash_word w = false -> address_word w = false -> g w = w \/ amounts_alike w (g w) }.
Definition rename_chunk (g : text -> text) (k : chunk) : chunk :=
  match k with Sep c => Sep c | Word w => Word (g w) end.
Definition rename (g : text -> text) (t : text) : text := flatten (rename_chunk g <$> chunks t).

Definition same_or_amount (w w' : text) : Prop := w = w' \/ amounts_alike w w'.

Lemma is_word_of_wordy (prefix : text) (p : ascii -> bool) (n : nat) (w : text) :
  (forall c, p c = true -> word_char c = true) -> Forall (fun c => word_char c = true) prefix -> (0 < n)%nat ->
  is_word_of prefix p n w = true -> is_wordy w.
Proof.
  intros Hp Hpre Hn H. unfold is_word_of in H. destruct (strip_text prefix w) as [r|] eqn:E; [|done].
  apply strip_text_Some in E. subst w. apply andb_true_iff in H as [Hlen%Nat.eqb_eq Hall]. split.
  - destruct r; [cbn in Hlen; lia|]. by destruct prefix.
  - apply Forall_app. split; [done|]. rewrite forallb_forall in Hall. apply Forall_forall.
    intros c Hc. apply Hp, Hall. by apply list_elem_of_In.
Qed.
Lemma hash_wordy (w : text) : hash_word w = true -> is_wordy w.
Proof.
  intros [H|H]%orb_true_iff; (eapply is_word_of_wordy; [apply hex_is_word| | |exact H]; [|lia]);
    [apply zero_x_word|done].
Qed.
Lemma address_wordy (w : text) : address_word w = true -> is_wordy w.
Proof.
  intros [H|[H|H]%orb_true_iff]%orb_true_iff;
    (eapply is_word_of_wordy; [| | |exact H]; [apply hex_is_word || apply base32_is_word| |lia]);
    by repeat constructor.
Qed.
Lemma digits_wordy (w : text) : digits_word w = true -> is_wordy w.
Proof.
  unfold digits_word. intros [Hlen Hall]%andb_true_iff. split; [by destruct w|].
  rewrite forallb_forall in Hall. apply Forall_forall. intros c Hc. apply digit_is_word, Hall.
  by apply list_elem_of_In.
Qed.

Lemma renamed_wordy (g : text -> text) (w : text) : renaming g -> is_wordy w -> is_wordy (g w).
Proof.
  intros Hg Hw. destruct (hash_word w) eqn:Eh; [apply hash_wordy; by rewrite rn_hash|].
  destruct (address_word w) eqn:Ea; [apply address_wordy; by rewrite rn_address|].
  destruct (rn_other _ Hg w Eh Ea) as [->|(_ & H & _)]; [done|by apply digits_wordy].
Qed.
Lemma renamed_wf (g : text -> text) (l : list chunk) :
  renaming g -> chunks_ok l -> chunks_ok (rename_chunk g <$> l).
Proof.
  intros Hg. induction l as [|[c|w] l IH]; intros Hl; [done| |]; cbn in *.
  - destruct Hl as [? Hl]. split; [done|by apply IH].
  - destruct Hl as (Hne & Hw & Hs & Hl). destruct (renamed_wordy g w Hg (conj Hne Hw)).
    split_and!; [done|done| |by apply IH]. by destruct l as [|[?|?] l].
Qed.

(** After the hashes only addresses and amounts still differ. *)
Definition past_hashes (g : text -> text) (w w' : text) : Prop :=
  w = w' /\ address_word w = false \/ w' = g w /\ hash_word w = false.

Lemma label_not_address (k : nat) : address_word (ordinal_text k) = false.
Proof.
  assert (Hd : forallb is_digit (ordinal_text k) = true).
  { unfold ordinal_text, text_of. pose proof (num_to_string_digits (Z.of_nat k) ltac:(lia)) as H. revert H.
    generalize (num_to_string (Z.of_nat k)). intros s. induction s as [|c s IH]; cbn; [done|].
    intros [-> H]%andb_true_iff. by apply IH. }
  unfold address_word, is_word_of. destruct (ordinal_text k) as [|a [|b w]]; cbn; [done| |]; cbn in Hd.
  - repeat (destruct (decide _) as [<-|]; [done|]). done.
  - apply andb_true_iff in Hd as [Ha [Hb _]%andb_true_iff]. destruct (decide ("0"%char = a)) as [<-|].
    + destruct (decide ("x"%char = b)) as [<-|]; [done|]. done.
    + cbn. destruct (decide ("G"%char = a)) as [<-|]; [done|]. by destruct (decide ("C"%char = a)) as [<-|].
Qed.

Lemma masks_alike (g : text -> text) (l : list chunk) :
  renaming g ->
  Forall2 (alike same_or_amount)
    (mask_chunks address_word (text_of "Address") [] (mask_chunks hash_word (text_of "Hash") [] l))
    (mask_chunks address_word (text_of "Address") []
       (mask_chunks hash_word (text_of "Hash") [] (rename_chunk g <$> l))).
Proof.
  intros Hg. apply (mask_alike _ _ (past_hashes g) same_or_amount g).
  - apply (mask_alike _ _ (fun w w' => w' = g w) (past_hashes g) g).
    + induction l as [|[c|w] l IH]; constructor; try done; by constructor.
    + intros w w' ->. by apply rn_hash.
    + by intros w w' -> _.
    + apply (rn_hash_inj _ Hg).
    + intros w w' -> Hw. by right.
    + by left.
    + intros k. left. split; [done|]. apply label_not_address.
    + done.
  - intros w w' [[<- _]|[-> _]]; [done|by apply rn_address].
  - intros w w' [[<- ?]|[-> _]] ?; [congruence|done].
  - apply (rn_address_inj _ Hg).
  - intros w w' [[<- _]|[-> Hh]] Ha; [by left|]. destruct (rn_other _ Hg w Hh Ha) as [->|?]; [by left|by right].
  - by left.
  - by left.
  - done.
Qed.

Lemma amount_digits (w w' : text) : same_or_amount w w' -> digits_word w' = digits_word w.
Proof. intros [<-|(H1 & H2 & _)]; congruence. Qed.
Lemma amount_bucket (w w' : text) (p : text) :
  same_or_amount w w' -> bucketDigits log10_floor p w' = bucketDigits log10_floor p w.
Proof. intros [<-|(_ & _ & _ & _ & H)]; [done|]. unfold bucketDigits. by rewrite H. Qed.
Lemma tag_same (w w' : text) : same_or_amount w w' -> bool_decide (w' ∈ typed_prefixes) = bool_decide (w ∈ typed_prefixes) /\
  (w ∈ typed_prefixes -> w' = w).
Proof.
  intros [<-|(H1 & H2 & _)]; [done|].
  assert (Hno : forall v, digits_word v = true -> v ∉ typed_prefixes).
  { intros v Hv [->| ->%list_elem_of_singleton]%elem_of_cons; done. }
  split; [by rewrite !bool_decide_false by by apply Hno|]. intros H. by destruct (Hno _ H1).
Qed.

Lemma typed_alike (n : nat) : forall l l' : list chunk,
  (length l < n)%nat -> Forall2 (alike same_or_amount) l l' ->
  Forall2 (alike same_or_amount) (typed_chunks log10_floor l) (typed_chunks log10_floor l').
Proof.
  induction n as [|n IH]; intros l l' Hn Hl; [lia|].
  destruct Hl as [|k k' l l' Hk Hl]; [done|]. cbn [length] in Hn.
  pose proof (IH l l' ltac:(lia) Hl) as IHl.
  destruct Hk as [c|p p' Hp]; [cbn; constructor; [by constructor|done]|].
  destruct Hl as [|k2 k2' l l' Hk2 Hl]; [constructor; [by constructor|done]|].
  destruct Hk2 as [c|v v' Hv]; [|cbn [typed_chunks] in *; constructor; [by constructor|done]].
  destruct Hl as [|k3 k3' l l' Hk3 Hl]; [cbn [typed_chunks] in *; constructor; [by constructor|done]|].
  destruct Hk3 as [c'|d d' Hd]; [cbn [typed_chunks] in *; constructor; [by constructor|done]|].
  cbn [typed_chunks] in *. destruct (tag_same _ _ Hp) as [-> Hpp]. rewrite (amount_digits _ _ Hd).
  destruct (_ && _) eqn:E; [|constructor; [by constructor|done]].
  apply andb_true_iff in E as [[E%bool_decide_eq_true _]%andb_true_iff _].
  rewrite (Hpp E), (amount_bucket _ _ _ Hd). apply Forall2_app.
  - apply Forall_Forall2_diag, Forall_true. intros k. apply alike_same. by left.
  - apply IH; [cbn [length] in *; lia|done].
Qed.

Lemma bare_alike (l l' : list chunk) (st : unit) :
  Forall2 (alike same_or_amount) l l' ->
  subst_words digits_word (bucket_bare log10_floor minDigits) st l
  = subst_words digits_word (bucket_bare log10_floor minDigits) st l'.
Proof.
  intros Hl. revert st. induction Hl as [|k k' l l' Hk _ IH]; intros st; [done|].
  destruct Hk as [c|w w' Hw]; cbn; [by rewrite IH|]. rewrite (amount_digits _ _ Hw).
  destruct Hw as [<-|(H1 & H2 & H3 & H4 & H5)]; [by rewrite !IH|]. rewrite H1, IH.
  rewrite !(proj2 (Z.leb_le _ _)) by done. f_equal. unfold bucketDigits. by rewrite H5.
Qed.

Lemma masked_text (t : text) :
  let masked := mask_chunks address_word (text_of "Address") [] (mask_chunks hash_word (text_of "Hash") [] (chunks t)) in
  chunks_ok masked /\
  maskOrdinals (maskOrdinals t HASH_RE (text_of "Hash")) ADDRESS_RE (text_of "Address") = flatten masked.
Proof.
  assert (H1 : is_wordy (text_of "Hash")) by (split; [done|by repeat constructor]).
  assert (H2 : is_wordy (text_of "Address")) by (split; [done|by repeat constructor]).
  pose proof (chunks_wf t) as Hl. intros masked.
  split; [by apply mask_chunks_wf; [|apply mask_chunks_wf]|].
  rewrite <- (flatten_chunks t) at 1.
  rewrite (maskOrdinals_chunks _ _ _ _ hash_words) by done.
  apply (maskOrdinals_chunks _ _ _ _ address_words); [done|]. by apply mask_chunks_wf.
Qed.

Lemma masked_amounts (l : list chunk) :
  chunks_ok l ->
  replace_all BARE_AMOUNT_RE (bucket_bare log10_floor minDigits) tt
    (replace_all TYPED_AMOUNT_RE (bucket_typed log10_floor) tt (flatten l))
  = subst_words digits_word (bucket_bare log10_floor minDigits) tt (typed_chunks log10_floor l).
Proof.
  intros Hl. rewrite (replace_all_words _ _ _ bare_words). unfold replace_all.
  rewrite (scan_typed log10_floor (S (length l))) by (done || lia).
  rewrite chunks_flatten; [done|]. apply (typed_chunks_wf log10_floor (S (length l))); [lia|done].
Qed.

Lemma mask_text_renamed (g : text -> text) (rulesVersion taxonomyVersion : Z) (t : text) :
  renaming g ->
  mask_text log10_floor (mkRules rulesVersion taxonomyVersion true true true minDigits) (rename g t)
  = mask_text log10_floor (mkRules rulesVersion taxonomyVersion true true true minDigits) t.
Proof.
  intros Hg. unfold mask_text. cbn [nr_maskHashes nr_maskAddresses nr_maskAmounts nr_amountMinDigits].
  destruct (masked_text t) as [Hwf ->].
  destruct (masked_text (rename g t)) as [Hwf' ->]. rewrite !masked_amounts by done. symmetry.
  apply bare_alike. eapply typed_alike; [apply Nat.lt_succ_diag_r|].
  unfold rename. rewrite chunks_flatten by (apply renamed_wf; [done|apply chunks_wf]). by apply masks_alike.
Qed.
End Renaming.

(** C30. What varies does not matter.  Where a signature's hashes are renamed to other
    hashes, its addresses to other addresses (different ones to different ones) and
    its amounts to amounts of the same magnitude, and nothing else is touched, the
    normal form is the same. *)
Theorem normal_form_renamed (log10_floor : Z -> Z) (g : text -> text) (raw raw' : string) :
  renaming log10_floor DEFAULT_AMOUNT_MIN_DIGITS g -> text_of raw' = rename g (text_of raw) ->
  normalizeSignaturePreimage log10_floor raw' defaultNormalizationRules
  = normalizeSignaturePreimage log10_floor raw defaultNormalizationRules.
Proof. intros Hg E. unfold normalizeSignaturePreimage, defaultNormalizationRules. rewrite E. by rewrite mask_text_renamed. Qed.
(** Two accounts changed for one another, an amount for another. *)
Definition swap_accounts (w : text) : text :=
  if decide (w = text_of sample_account) then text_of sample_contract
  else if decide (w = text_of sample_contract) then text_of sample_account
  else if decide (w = text_of "12345678") then text_of "87654321" else w.
Lemma swap_accounts_renames : renaming digits_floor DEFAULT_AMOUNT_MIN_DIGITS swap_accounts.
Proof.
  assert (Hcases : forall w, swap_accounts w = w \/
    (w, swap_accounts w) ∈ [(text_of sample_account, text_of sample_contract);
                            (text_of sample_contract, text_of sample_account);
                            (text_of "12345678", text_of "87654321")]).
  { intros w. unfold swap_accounts. destruct (decide _) as [->|]; [by right; left|].
    destruct (decide _) as [->|]; [by right; right; left|]. destruct (decide _) as [->|]; [|by left].
    by right; right; right; left. }
  assert (Hinj : forall v w, address_word v = true -> address_word w = true ->
    swap_accounts v = swap_accounts w -> v = w).
  { intros v w Hv Hw. unfold swap_accounts.
    repeat (destruct (decide _) as [?|?]; subst; try done; try congruence). }
  split.
  - intros w. destruct (Hcases w) as [->|H]; [done|]. revert H.
    rewrite !elem_of_cons. intros [H|[H|[H|H]]]; [injection H as H1 H2; rewrite H2, H1; by vm_compute..|].
    by apply elem_of_nil in H.
  - intros w. destruct (Hcases w) as [->|H]; [done|]. revert H.
    rewrite !elem_of_cons. intros [H|[H|[H|H]]]; [injection H as H1 H2; rewrite H2, H1; by vm_compute..|].
    by apply elem_of_nil in H.
  - intros v w Hv Hw. unfold swap_accounts.
    repeat (destruct (decide _) as [?|?]; subst; try done; try congruence).
  - exact Hinj.
  - intros w Hh Ha. destruct (Hcases w) as [->|H]; [by left|]. right. revert H.
    rewrite !elem_of_cons. intros [H|[H|[H|H]]]; [injection H as H1 H2; rewrite H1 in Ha; by vm_compute in Ha..| |].
    + injection H as H1 H2. rewrite H2, H1. by vm_compute.
    + by apply elem_of_nil in H.
Qed.
Lemma normal_form_renamed_witness :
  let raw a b n := cat ["transfer "; a; "->"; b; " i128:"; n; " code 42"] in
  normalizeSignaturePreimage digits_floor (raw sample_contract sample_account "87654321") defaultNormalizationRules
  = normalizeSignaturePreimage digits_floor (raw sample_account sample_contract "12345678") defaultNormalizationRules.
Proof.
  intros raw. apply (normal_form_renamed digits_floor swap_accounts); [apply swap_accounts_renames|].
  vm_compute. reflexivity.
Defined.
