(* ===== verification/FailureClustering.v ===== *)
(** [lib/failure-clustering.ts], the second half: crash observations aggregated into
    clusters by class and normal form.

    The [Map] of clusters is the list of its entries in insertion order.  The collation
    [localeCompare], [Date.parse] and [log10_floor] (see [SignatureNorm]) are
    arguments. *)

From S2P Require Import Prelude JsString WasmWalker SignatureNorm.
From stdpp Require Import base list sets gmap strings numbers sorting.
From Stdlib Require Import ZArith Lia Ascii.
#[local] Open Scope Z_scope.
#[local] Arguments String.append !_ _ / : simpl nomatch.

Record FailureObservation : Type := mkObservation
  { fo_taxonomyClass : string; fo_rawSignature : string; fo_seedId : Z; fo_seedPayloadLen : Z;
    fo_observedAt : Z; fo_runId : option string }.
Record ClusterMember : Type := mkMember
  { cm_seedId : Z; cm_seedPayloadLen : Z; cm_rawSignature : string; cm_observedAt : Z; cm_runId : option string }.
Record FailureCluster : Type := mkCluster
  { fc_id : string; fc_taxonomyClass : string; fc_normalizedSignature : string; fc_rulesVersion : Z;
    fc_count : Z; fc_exemplarSeedId : Z; fc_exemplarPayloadLen : Z; fc_exemplarRawSignature : string;
    fc_exemplarRunId : option string; fc_firstSeen : Z; fc_lastSeen : Z; fc_members : list ClusterMember }.

(** ** Identifiers *)

(** [Math.imul], and [x >>> 0]. *)
Definition imul (a b : Z) : Z := to_int32 (to_int32 a * to_int32 b).
Definition to_uint32 (z : Z) : Z := z mod 4294967296.
Definition fnv_step (hash : Z) (c : ascii) : Z := to_uint32 (imul (to_int32 (Z.lxor (to_int32 hash) (code c))) 16777619).
(** [n] hexadecimal digits. *)
Fixpoint hex_digits (n : nat) (z : Z) (rest : string) : string :=
  match n with
  | O => rest
  | S n' => hex_digits n' (z / 16) (String (hex_digit (z mod 16)) rest)
  end.
Definition fnv1aHex (input : string) : string :=
  hex_digits 8 (foldl fnv_step 2166136261 (String.list_ascii_of_string input)) EmptyString.
Definition nul : string := String Ascii.zero EmptyString.
Definition clusterId (taxonomyClass normalized : string) (rulesVersion : Z) : string :=
  (taxonomyClass ++ ":" ++ fnv1aHex (taxonomyClass ++ nul ++ normalized) ++ ":v" ++ num_to_string rulesVersion)%string.

(** ** Aggregation *)

Section Clustering.
Context (log10_floor : Z -> Z) (rules : NormalizationRules).

Definition normalized_of (obs : FailureObservation) : NormalizedSignature :=
  normalizeSignaturePreimage log10_floor (fo_rawSignature obs) rules.
Definition cluster_key (obs : FailureObservation) : string :=
  (fo_taxonomyClass obs ++ nul ++ num_to_string (ns_rulesVersion (normalized_of obs)) ++ nul ++
   ns_text (normalized_of obs))%string.
Definition member_of (obs : FailureObservation) : ClusterMember :=
  mkMember (fo_seedId obs) (fo_seedPayloadLen obs) (fo_rawSignature obs) (fo_observedAt obs) (fo_runId obs).
Definition beatsExemplar (obs : FailureObservation) (cluster : FailureCluster) : bool :=
  if negb (fo_seedPayloadLen obs =? fc_exemplarPayloadLen cluster)
  then fo_seedPayloadLen obs <? fc_exemplarPayloadLen cluster
  else fo_seedId obs <? fc_exemplarSeedId cluster.
Definition new_cluster (obs : FailureObservation) : FailureCluster :=
  let normalized := normalized_of obs in
  mkCluster (clusterId (fo_taxonomyClass obs) (ns_text normalized) (ns_rulesVersion normalized))
    (fo_taxonomyClass obs) (ns_text normalized) (ns_rulesVersion normalized) 1
    (fo_seedId obs) (fo_seedPayloadLen obs) (fo_rawSignature obs) (fo_runId obs)
    (fo_observedAt obs) (fo_observedAt obs) [member_of obs].
Definition join_cluster (obs : FailureObservation) (c : FailureCluster) : FailureCluster :=
  let better := beatsExemplar obs c in
  mkCluster (fc_id c) (fc_taxonomyClass c) (fc_normalizedSignature c) (fc_rulesVersion c) (fc_count c + 1)
    (if better then fo_seedId obs else fc_exemplarSeedId c)
    (if better then fo_seedPayloadLen obs else fc_exemplarPayloadLen c)
    (if better then fo_rawSignature obs else fc_exemplarRawSignature c)
    (if better then fo_runId obs else fc_exemplarRunId c)
    (Z.min (fc_firstSeen c) (fo_observedAt obs)) (Z.max (fc_lastSeen c) (fo_observedAt obs))
    (fc_members c ++ [member_of obs]).
(** One observation into the [Map]. *)
Fixpoint add_observation (obs : FailureObservation) (clusters : list (string * FailureCluster))
  : list (string * FailureCluster) :=
  match clusters with
  | [] => [(cluster_key obs, new_cluster obs)]
  | (k, c) :: rest =>
      if bool_decide (k = cluster_key obs) then (k, join_cluster obs c) :: rest
      else (k, c) :: add_observation obs rest
  end.
(** The comparator: the first of the three that is not zero. *)
Definition cluster_compare (locale_compare : string -> string -> Z) (a b : FailureCluster) : Z :=
  if negb (fc_count b - fc_count a =? 0) then fc_count b - fc_count a
  else if negb (locale_compare (fc_normalizedSignature a) (fc_normalizedSignature b) =? 0)
  then locale_compare (fc_normalizedSignature a) (fc_normalizedSignature b)
  else locale_compare (fc_taxonomyClass a) (fc_taxonomyClass b).
Definition clusterObservations (locale_compare : string -> string -> Z) (observations : list FailureObservation)
  : list FailureCluster :=
  sort_by (fun a b => cluster_compare locale_compare a b <=? 0)
    (foldl (fun clusters obs => add_observation obs clusters) [] observations).*2.

(** ** From runs *)

Record ClusterRun : Type := mkClusterRun
  { cr_id : string; cr_status : string; cr_area : string; cr_seedCount : Z; cr_queuedAt : option string;
    cr_startedAt : option string; cr_crashDetail : option (string * string * string) }.
Definition parseNumericSeedId (runId : string) : Z :=
  let digits := String.string_of_list_ascii (List.filter is_digit (String.list_ascii_of_string runId)) in
  to_double (default 0 (parse_digits digits)).
Definition observationFromRun (parse_date : string -> option Z) (run : ClusterRun) : option FailureObservation :=
  if negb (bool_decide (cr_status run = "failed"%string)) then None
  else match cr_crashDetail run with
       | None => None
       | Some (failureCategory, signature, payload) =>
           let at_ := match cr_queuedAt run with
                      | Some t => t
                      | None => default EmptyString (cr_startedAt run) end in
           Some (mkObservation (cr_area run) (failureCategory ++ ":" ++ signature ++ ":" ++ payload)%string
                   (parseNumericSeedId (cr_id run)) (cr_seedCount run) (default 0 (parse_date at_)) (Some (cr_id run)))
       end.
Definition buildHierarchicalClustersFromRuns (locale_compare : string -> string -> Z)
    (parse_date : string -> option Z) (runs : list ClusterRun) : list FailureCluster :=
  clusterObservations locale_compare (omap (observationFromRun parse_date) runs).
Definition findClusterForRun (locale_compare : string -> string -> Z) (parse_date : string -> option Z)
    (runs : list ClusterRun) (runId : string) : option FailureCluster :=
  List.find (fun c => existsb (fun m => bool_decide (cm_runId m = Some runId)) (fc_members c))
    (buildHierarchicalClustersFromRuns locale_compare parse_date runs).
End Clustering.

(** *** By hand *)

Definition code_compare (a b : string) : Z :=
  match String.compare a b with Lt => -1 | Eq => 0 | Gt => 1 end.
Definition seen (raw : string) (seedId len at_ : Z) : FailureObservation :=
  mkObservation "auth" raw seedId len at_ None.
Example cluster_by_hand :
  let out := clusterObservations digits_floor defaultNormalizationRules code_compare
               [seen "panic:x:7" 5 10 100; seen "fee 1234567" 6 9 101; seen "fee 7654321" 7 9 99;
                seen "fee 1000000" 4 9 102] in
  (fun c => (fc_normalizedSignature c, fc_count c, fc_exemplarSeedId c, fc_firstSeen c, fc_lastSeen c)) <$> out
  = [("fee i128:1e6-magnitude-bucket"%string, 3, 4, 99, 102); ("panic:x:7"%string, 1, 5, 100, 100)].
Proof. vm_compute. done. Qed.
(** The identifier of a cluster is a 32-bit digest: two clusters can share it. *)
Example cluster_ids_collide :
  let out := clusterObservations digits_floor defaultNormalizationRules code_compare
               [seen "Panic:s500749:" 1 1 1; seen "Panic:s1222000:" 2 1 1] in
  length out = 2%nat /\ (fc_id <$> out) = ["auth:7dbca556:v1"; "auth:7dbca556:v1"]%string.
Proof. vm_compute. done. Qed.

(** ** What a cluster is *)

(** [e] is the exemplar of [own]: shortest payload, then smallest seed, then first. *)
Definition better (a b : FailureObservation) : Prop :=
  fo_seedPayloadLen a < fo_seedPayloadLen b \/
  fo_seedPayloadLen a = fo_seedPayloadLen b /\ fo_seedId a < fo_seedId b.
Definition exemplar_of (e : FailureObservation) (own : list FailureObservation) : Prop :=
  exists before after, own = before ++ e :: after /\ Forall (better e) before /\
    Forall (fun o => ~ better o e) after.
Definition least (x : Z) (l : list Z) : Prop := x ∈ l /\ Forall (fun y => x <= y) l.
Definition greatest (x : Z) (l : list Z) : Prop := x ∈ l /\ Forall (fun y => y <= x) l.

Section Clusters.
Context (log10_floor : Z -> Z) (rules : NormalizationRules).

(** [c] summarises the observations [own]. *)
Record summarises (c : FailureCluster) (own : list FailureObservation) : Prop := mkSummarises
  { su_class : Forall (fun o => fo_taxonomyClass o = fc_taxonomyClass c /\
                 normalized_of log10_floor rules o = mkNormalized (fc_normalizedSignature c) (fc_rulesVersion c)) own;
    su_id : fc_id c = clusterId (fc_taxonomyClass c) (fc_normalizedSignature c) (fc_rulesVersion c);
    su_count : fc_count c = Z.of_nat (length own);
    su_members : fc_members c = member_of <$> own;
    su_first : least (fc_firstSeen c) (fo_observedAt <$> own);
    su_last : greatest (fc_lastSeen c) (fo_observedAt <$> own);
    su_exemplar : exists e, exemplar_of e own /\ fc_exemplarSeedId c = fo_seedId e /\
      fc_exemplarPayloadLen c = fo_seedPayloadLen e /\ fc_exemplarRawSignature c = fo_rawSignature e /\
      fc_exemplarRunId c = fo_runId e }.

Lemma new_summarises (obs : FailureObservation) : summarises (new_cluster log10_floor rules obs) [obs].
Proof.
  split; cbn; try done.
  - constructor; [|done]. by split.
  - split; [by left|by constructor].
  - split; [by left|by constructor].
  - exists obs. split; [|done]. by exists [], [].
Qed.

Lemma beats_better (obs e : FailureObservation) (c : FailureCluster) :
  fc_exemplarSeedId c = fo_seedId e -> fc_exemplarPayloadLen c = fo_seedPayloadLen e ->
  beatsExemplar obs c = true <-> better obs e.
Proof.
  intros E1 E2. unfold beatsExemplar, better. rewrite E1, E2.
  destruct (Z.eqb_spec (fo_seedPayloadLen obs) (fo_seedPayloadLen e)); cbn; rewrite Z.ltb_lt; lia.
Qed.

Lemma join_summarises (obs : FailureObservation) (c : FailureCluster) (own : list FailureObservation) :
  summarises c own -> fo_taxonomyClass obs = fc_taxonomyClass c ->
  normalized_of log10_floor rules obs = mkNormalized (fc_normalizedSignature c) (fc_rulesVersion c) ->
  summarises (join_cluster obs c) (own ++ [obs]).
Proof.
  intros [Hcl Hid Hcount Hmem [Hf1 Hf2] [Hl1 Hl2] (e & (b & a & Hown & Hb & Ha) & E1 & E2 & E3 & E4)] Hc Hn.
  pose proof (beats_better obs e c E1 E2) as Hbeat.
  split; cbn; rewrite ?fmap_app; cbn.
  - apply Forall_app. split; [done|]. by constructor.
  - done.
  - rewrite length_app. cbn. lia.
  - by rewrite Hmem.
  - split.
    + destruct (Z.min_spec (fc_firstSeen c) (fo_observedAt obs)) as [[_ ->]|[_ ->]]; apply elem_of_app;
        [by left|right; by left].
    + apply Forall_app. split; [|constructor; [lia|done]]. eapply Forall_impl; [exact Hf2|]. cbn. lia.
  - split.
    + destruct (Z.max_spec (fc_lastSeen c) (fo_observedAt obs)) as [[_ ->]|[_ ->]]; apply elem_of_app;
        [right; by left|by left].
    + apply Forall_app. split; [|constructor; [lia|done]]. eapply Forall_impl; [exact Hl2|]. cbn. lia.
  - destruct (beatsExemplar obs c).
    + exists obs. split; [|done]. exists own, []. split; [done|]. split; [|done]. subst own.
      assert (Hoe : better obs e) by by apply Hbeat. unfold better in *.
      apply Forall_app. split; [eapply Forall_impl; [exact Hb|]; cbn; lia|].
      constructor; [done|]. eapply Forall_impl; [exact Ha|]. cbn. lia.
    + exists e. split; [|done]. exists b, (a ++ [obs]). split; [by rewrite Hown, <- app_assoc|]. split; [done|].
      apply Forall_app. split; [done|]. constructor; [|done]. intros H. apply Hbeat in H. done.
Qed.

(** ** The keys *)

Definition no_nul (s : string) : Prop := all_chars (fun c => negb (bool_decide (c = Ascii.zero))) s = true.

Lemma split_at_nul (a b r r' : string) :
  no_nul a -> no_nul b -> (a ++ nul ++ r)%string = (b ++ nul ++ r')%string -> a = b /\ r = r'.
Proof.
  unfold no_nul. revert b. induction a as [|c a IH]; intros [|d b]; cbn; intros Ha Hb H.
  - by injection H.
  - injection H as <- _. by apply andb_true_iff in Hb as [Hb _].
  - injection H as -> _. by apply andb_true_iff in Ha as [Ha _].
  - injection H as -> H. apply andb_true_iff in Ha as [_ Ha]. apply andb_true_iff in Hb as [_ Hb].
    by destruct (IH _ Ha Hb H) as [-> ->].
Qed.

Lemma num_no_nul (z : Z) : 0 <= z -> no_nul (num_to_string z).
Proof.
  intros Hz. pose proof (num_to_string_digits z Hz) as H. revert H. unfold no_nul. generalize (num_to_string z).
  induction s as [|c s IH]; cbn; [done|]. intros [Hc Hs]%andb_true_iff. rewrite IH, andb_true_r by done.
  apply negb_true_iff, bool_decide_eq_false. by intros ->.
Qed.

(** Observations share a key iff they share class and normal form. *)
Lemma same_key (a b : FailureObservation) :
  no_nul (fo_taxonomyClass a) -> no_nul (fo_taxonomyClass b) -> 0 <= nr_rulesVersion rules ->
  cluster_key log10_floor rules a = cluster_key log10_floor rules b <->
  fo_taxonomyClass a = fo_taxonomyClass b /\ normalized_of log10_floor rules a = normalized_of log10_floor rules b.
Proof.
  intros Ha Hb Hv. unfold cluster_key. split; [|by intros [-> ->]].
  intros H. apply split_at_nul in H as [Hc H]; [|done|done].
  apply split_at_nul in H as [_ H]; [|by apply num_no_nul..]. split; [done|].
  unfold normalized_of, normalizeSignaturePreimage in *. cbn in H. by rewrite H.
Qed.

(** ** The table *)

(** The table after [observations]: one entry per key, summarising its observations. *)
Record table_ok (observations : list FailureObservation) (t : list (string * FailureCluster)) : Prop := mkTableOk
  { tk_keys : NoDup t.*1;
    tk_each : forall k c, (k, c) ∈ t ->
      summarises c (filter (fun o => cluster_key log10_floor rules o = k) observations);
    tk_all : forall o, o ∈ observations -> cluster_key log10_floor rules o ∈ t.*1 }.

Lemma add_keys (obs : FailureObservation) (t : list (string * FailureCluster)) :
  (add_observation log10_floor rules obs t).*1 =
    if decide (cluster_key log10_floor rules obs ∈ t.*1) then t.*1 else t.*1 ++ [cluster_key log10_floor rules obs].
Proof.
  induction t as [|[k c] t IH]; [done|]. cbn.
  destruct (bool_decide_reflect (k = cluster_key log10_floor rules obs)) as [->|Hne]; cbn.
  - rewrite decide_True by by left. done.
  - rewrite IH. destruct (decide (_ ∈ t.*1)) as [Hin|Hin].
    + rewrite decide_True by by right. done.
    + rewrite decide_False; [done|]. intros [E|?]%elem_of_cons; [congruence|done].
Qed.

Lemma add_entries (obs : FailureObservation) (t : list (string * FailureCluster)) (k : string) (c : FailureCluster) :
  NoDup t.*1 -> (k, c) ∈ add_observation log10_floor rules obs t ->
  (k <> cluster_key log10_floor rules obs /\ (k, c) ∈ t) \/
  (k = cluster_key log10_floor rules obs /\
   ((exists c0, (k, c0) ∈ t /\ c = join_cluster obs c0) \/
    (k ∉ t.*1 /\ c = new_cluster log10_floor rules obs))).
Proof.
  induction t as [|[k0 c0] t IH]; cbn; intros Hnd H.
  - apply list_elem_of_singleton in H. injection H as -> ->. right. split; [done|]. right. split; [|done].
    apply not_elem_of_nil.
  - apply NoDup_cons in Hnd as [Hk0 Hnd].
    destruct (bool_decide_reflect (k0 = cluster_key log10_floor rules obs)) as [->|Hne];
      apply elem_of_cons in H as [E|H].
    + injection E as -> ->. right. split; [done|]. left. exists c0. split; [by left|done].
    + left. split; [|by right]. intros ->. apply Hk0. by apply (list_elem_of_fmap_2 fst) in H.
    + injection E as -> ->. left. split; [done|by left].
    + destruct (IH Hnd H) as [[? ?]|[-> [(c1 & ? & ->)|[Hnk ->]]]].
      * left. split; [done|by right].
      * right. split; [done|]. left. exists c1. split; [by right|done].
      * right. split; [done|]. right. split; [|done]. intros [E|?]%elem_of_cons; [congruence|done].
Qed.

Lemma table_summary (observations : list FailureObservation) :
  Forall (fun o => no_nul (fo_taxonomyClass o)) observations -> 0 <= nr_rulesVersion rules ->
  table_ok observations (foldl (fun t o => add_observation log10_floor rules o t) [] observations).
Proof.
  intros Hnul Hv. induction observations as [|obs l IH] using rev_ind.
  { split; [constructor|by intros ?? ?%elem_of_nil|by intros ? ?%elem_of_nil]. }
  apply Forall_app in Hnul as [Hl Ho]. apply Forall_cons in Ho as [Ho _].
  specialize (IH Hl). rewrite foldl_app. cbn. set (t := foldl _ [] l) in *. destruct IH as [Hk He Ha].
  split.
  - rewrite add_keys. destruct (decide _); [done|]. apply NoDup_app. split; [done|]. split; [|apply NoDup_singleton].
    by intros x Hx ->%list_elem_of_singleton.
  - intros k c H. rewrite filter_app. destruct (add_entries _ _ _ _ Hk H) as [[Hne Hin]|[-> [(c0 & Hin & ->)|[Hnk ->]]]].
    + rewrite (filter_none _ _ [obs]), app_nil_r; [by apply He|]. by intros x ->%list_elem_of_singleton.
    + rewrite (filter_all _ _ [obs]) by by intros x ->%list_elem_of_singleton.
      pose proof (He _ _ Hin) as Hsum. destruct (su_exemplar _ _ Hsum) as (e & (b & a & Hown & _) & _).
      assert (Hein : e ∈ filter (fun o => cluster_key log10_floor rules o = cluster_key log10_floor rules obs) l)
        by (rewrite Hown; apply elem_of_app; right; by left).
      pose proof (proj1 (Forall_forall _ _) (su_class _ _ Hsum) e Hein) as [Hec Hen].
      apply list_elem_of_filter in Hein as [Hek Hel].
      apply same_key in Hek as [Hec' Hen']; [|by apply (proj1 (Forall_forall _ _) Hl)|done|done].
      apply join_summarises; congruence.
    + rewrite (filter_all _ _ [obs]) by by intros x ->%list_elem_of_singleton.
      rewrite (filter_none _ _ l); [apply new_summarises|]. intros x Hx E. apply Hnk. rewrite <- E. by apply Ha.
  - intros o Hin. rewrite add_keys. apply elem_of_app in Hin as [Hin| ->%list_elem_of_singleton].
    + specialize (Ha _ Hin). destruct (decide _); [done|]. apply elem_of_app. by left.
    + destruct (decide _); [done|]. apply elem_of_app. right. by left.
Qed.
End Clusters.

(** ** The order *)

(** What a collation is relied on for. *)
Record collation (locale_compare : string -> string -> Z) : Prop := mkCollation
  { co_opp : forall a b, Z.sgn (locale_compare b a) = - Z.sgn (locale_compare a b);
    co_trans : forall a b c, locale_compare a b <= 0 -> locale_compare b c <= 0 -> locale_compare a c <= 0 }.

Section Order.
Context (locale_compare : string -> string -> Z) (Hco : collation locale_compare).

Lemma collation_swap (a b : string) :
  (locale_compare a b < 0 <-> 0 < locale_compare b a) /\ (locale_compare a b = 0 <-> locale_compare b a = 0).
Proof. pose proof (co_opp _ Hco a b). lia. Qed.
Lemma collation_lt_le (a b c : string) :
  locale_compare a b < 0 -> locale_compare b c <= 0 -> locale_compare a c < 0.
Proof.
  intros H1 H2. pose proof (co_trans _ Hco a b c ltac:(lia) H2).
  destruct (Z.eq_dec (locale_compare a c) 0) as [E|]; [|lia].
  apply collation_swap in E. pose proof (co_trans _ Hco b c a H2 ltac:(lia)).
  pose proof (collation_swap a b). lia.
Qed.
Lemma collation_le_lt (a b c : string) :
  locale_compare a b <= 0 -> locale_compare b c < 0 -> locale_compare a c < 0.
Proof.
  intros H1 H2. pose proof (co_trans _ Hco a b c H1 ltac:(lia)).
  destruct (Z.eq_dec (locale_compare a c) 0) as [E|]; [|lia].
  apply collation_swap in E. pose proof (co_trans _ Hco c a b ltac:(lia) H1).
  pose proof (collation_swap b c). lia.
Qed.

(** The comparator is the lexicographic order of its three keys. *)
Lemma cluster_compare_le (a b : FailureCluster) :
  (cluster_compare locale_compare a b <=? 0) = true <->
  fc_count b < fc_count a \/
  fc_count b = fc_count a /\
    (locale_compare (fc_normalizedSignature a) (fc_normalizedSignature b) < 0 \/
     locale_compare (fc_normalizedSignature a) (fc_normalizedSignature b) = 0 /\
       locale_compare (fc_taxonomyClass a) (fc_taxonomyClass b) <= 0).
Proof.
  unfold cluster_compare. rewrite Z.leb_le.
  destruct (Z.eqb_spec (fc_count b - fc_count a) 0); cbn; [|lia].
  destruct (Z.eqb_spec (locale_compare (fc_normalizedSignature a) (fc_normalizedSignature b)) 0); cbn; lia.
Qed.

Lemma cluster_le_total (a b : FailureCluster) :
  (cluster_compare locale_compare a b <=? 0) = true \/ (cluster_compare locale_compare b a <=? 0) = true.
Proof.
  rewrite !cluster_compare_le. pose proof (collation_swap (fc_normalizedSignature a) (fc_normalizedSignature b)).
  pose proof (collation_swap (fc_normalizedSignature b) (fc_normalizedSignature a)).
  pose proof (collation_swap (fc_taxonomyClass a) (fc_taxonomyClass b)). lia.
Qed.

Lemma cluster_le_trans (a b c : FailureCluster) :
  (cluster_compare locale_compare a b <=? 0) = true -> (cluster_compare locale_compare b c <=? 0) = true ->
  (cluster_compare locale_compare a c <=? 0) = true.
Proof.
  rewrite !cluster_compare_le. intros [H1|(E1 & H1)] [H2|(E2 & H2)]; [lia..|]. right. split; [lia|].
  destruct H1 as [H1|[Z1 T1]], H2 as [H2|[Z2 T2]].
  - left. by apply (collation_lt_le _ (fc_normalizedSignature b)); [|lia].
  - left. by apply (collation_lt_le _ (fc_normalizedSignature b)); [|lia].
  - left. by apply (collation_le_lt _ (fc_normalizedSignature b)); [lia|].
  - right. split; [|by eapply (co_trans _ Hco)].
    pose proof (co_trans _ Hco (fc_normalizedSignature a) (fc_normalizedSignature b) (fc_normalizedSignature c)
                  ltac:(lia) ltac:(lia)).
    apply collation_swap in Z1, Z2.
    pose proof (co_trans _ Hco (fc_normalizedSignature c) (fc_normalizedSignature b) (fc_normalizedSignature a)
                  ltac:(lia) ltac:(lia)).
    pose proof (collation_swap (fc_normalizedSignature a) (fc_normalizedSignature c)). lia.
Qed.
End Order.

Lemma code_compare_collation : collation code_compare.
Proof.
  assert (Hle : forall a b, code_compare a b <= 0 <-> str_le a b = true).
  { intros a b. unfold code_compare, str_le. destruct (String.compare a b); split; done || lia. }
  split.
  - intros a b. unfold code_compare. rewrite String.compare_antisym. by destruct (String.compare a b).
  - intros a b c. rewrite !Hle. apply str_le_trans.
Qed.

Lemma keys_functional {A B} (t : list (A * B)) (k : A) (c c' : B) :
  NoDup t.*1 -> (k, c) ∈ t -> (k, c') ∈ t -> c = c'.
Proof.
  intros Hk Hin Hin'. induction t as [|[k0 c0] t IH]; [by apply elem_of_nil in Hin|]. cbn in Hk.
  apply NoDup_cons in Hk as [Hk0 Hk].
  apply elem_of_cons in Hin as [E|Hin], Hin' as [E'|Hin']; [congruence| | |by apply IH].
  - injection E as -> ->. by apply (list_elem_of_fmap_2 fst) in Hin'.
  - injection E' as -> ->. by apply (list_elem_of_fmap_2 fst) in Hin.
Qed.

(** [o] has the class and the normal form of [c]. *)
Definition belongs (log10_floor : Z -> Z) (rules : NormalizationRules) (c : FailureCluster) (o : FailureObservation)
  : Prop :=
  fo_taxonomyClass o = fc_taxonomyClass c /\
  ns_text (normalized_of log10_floor rules o) = fc_normalizedSignature c.

(** The observations under an entry's key are those that belong to its cluster. *)
Lemma entry_owns (log10_floor : Z -> Z) (rules : NormalizationRules) (observations : list FailureObservation)
    (t : list (string * FailureCluster)) (k : string) (c : FailureCluster) :
  Forall (fun o => no_nul (fo_taxonomyClass o)) observations -> 0 <= nr_rulesVersion rules ->
  table_ok log10_floor rules observations t -> (k, c) ∈ t ->
  exists e, e ∈ observations /\ cluster_key log10_floor rules e = k /\ belongs log10_floor rules c e /\
    forall o, o ∈ observations -> cluster_key log10_floor rules o = k <-> belongs log10_floor rules c o.
Proof.
  intros Hnul Hv [_ He _] Hin. pose proof (He _ _ Hin) as Hs.
  destruct (su_exemplar _ _ _ _ Hs) as (e & (b & a & Hlist & _) & _).
  assert (Hein : e ∈ filter (fun o => cluster_key log10_floor rules o = k) observations)
    by (rewrite Hlist; apply elem_of_app; right; by left).
  pose proof (proj1 (Forall_forall _ _) (su_class _ _ _ _ Hs) e Hein) as [Hec Hen].
  apply list_elem_of_filter in Hein as [Hek Hel]. exists e. split_and!; [done|done| |].
  - split; [done|]. by rewrite Hen.
  - intros o Ho. rewrite <- Hek. rewrite same_key;
      [|by apply (proj1 (Forall_forall _ _) Hnul)|by apply (proj1 (Forall_forall _ _) Hnul)|done].
    rewrite Hec, Hen. split; [intros [? Hn]; split; [done|by rewrite Hn]|]. intros [? Hn]. split; [done|].
    unfold normalized_of, normalizeSignaturePreimage in *. cbn in *. rewrite Hn. by injection Hen as _ <-.
Qed.


Definition sample_observations : list FailureObservation :=
  [seen "panic:x:7" 5 10 100; seen "fee 1234567" 6 9 101; seen "fee 7654321" 7 9 99; seen "fee 1000000" 4 9 102].
