(* ===== verification/CampaignTimeline.v ===== *)
(** [lib/campaigns/campaign-timeline.ts]: progress samples of a campaign folded into a
    bounded number of buckets.

    Counts are integers ([None]: not a finite number), instants are milliseconds, and
    the quotients are the rounded doubles of the source.  [Date.parse] and the clock are
    arguments; [toISOString] is total on the instants [Date.parse] returns. *)

From S2P Require Import Prelude JsDate JsString JsNumber.
From stdpp Require Import base list sets gmap strings numbers sorting.
From Stdlib Require Import ZArith Lia Ascii.
#[local] Open Scope Z_scope.

Definition DEFAULT_TIMELINE_BUCKETS : Z := 240.
Definition MAX_TIMELINE_BUCKETS : Z := 500.
Definition MIN_TIMELINE_BUCKET_MS : Z := 1000.
Definition MAX_BUCKET_SIGNATURES : nat := 20.

Inductive TimelineMarkerKind : Type :=
  | campaign_start | campaign_pause | campaign_resume | campaign_cancel | checkpoint | worker_join
  | worker_leave | dictionary_change.
Record TimelineCrash : Type := mkTimelineCrash
  { tc_id : option string; tc_signature : string; tc_runId : option string; tc_severity : option string }.
Record TimelineSample : Type := mkTimelineSample
  { ts_at : string; ts_seeds : option Z; ts_failures : option Z; ts_signatures : list string;
    ts_crashes : option (list TimelineCrash) }.
Record TimelineMarker : Type := mkTimelineMarker
  { tm_id : string; tm_kind : TimelineMarkerKind; tm_at : string; tm_label : string;
    tm_detail : option string; tm_runId : option string }.
Record TimelineFailure : Type := mkTimelineFailure
  { tf_id : string; tf_at : string; tf_signature : string; tf_runId : option string; tf_severity : option string }.
Record TimelineBucket : Type := mkTimelineBucket
  { tb_start : string; tb_end : string; tb_seeds : Z; tb_failures : Z; tb_failureRate : Z * Z;
    tb_signatureCount : Z; tb_signatures : list string }.
Record TimelineSummary : Type := mkTimelineSummary
  { tu_seeds : Z; tu_failures : Z; tu_failureRate : Z * Z; tu_distinctSignatures : Z }.
Record TimelineSeries : Type := mkTimelineSeries
  { tl_campaignId : string; tl_start : string; tl_end : string; tl_bucketCount : Z; tl_bucketWidthMs : Z;
    tl_sampledPoints : Z; tl_downsampled : bool; tl_requestedBuckets : Z; tl_buckets : list TimelineBucket;
    tl_markers : list TimelineMarker; tl_failures : list TimelineFailure; tl_summary : TimelineSummary }.
(** A requested number of buckets: absent, not finite, or [n / d]. *)
Inductive BucketRequest : Type := req_undefined | req_not_finite | req_number (n : Z) (d : positive).
Record TimelineInput : Type := mkTimelineInput
  { tn_campaignId : string; tn_samples : list TimelineSample; tn_markers : list TimelineMarker;
    tn_failures : list TimelineFailure; tn_rangeStart : option string; tn_rangeEnd : option string;
    tn_buckets : BucketRequest; tn_now : Z }.

Definition nonNegative (value : option Z) : Z := match value with Some v => if 0 <? v then v else 0 | None => 0 end.
(** [Set.add], in insertion order. *)
Definition add_distinct (seen : list string) (s : string) : list string :=
  if bool_decide (s ∈ seen) then seen else seen ++ [s].
Definition present_signatures (l : list string) : list string :=
  List.filter (fun s => negb (bool_decide (s = EmptyString))) l.
Definition uniqueSignatures (signatures : list string) : list string :=
  sort_by str_le (foldl add_distinct [] (present_signatures signatures)).
Definition clampBucketCount (requested : BucketRequest) : Z :=
  match requested with
  | req_number n d => Z.min MAX_TIMELINE_BUCKETS (Z.max 1 (n / Zpos d))
  | _ => DEFAULT_TIMELINE_BUCKETS
  end.
Definition over_cap (requested : BucketRequest) : bool :=
  match requested with req_number n d => MAX_TIMELINE_BUCKETS * Zpos d <? n | _ => false end.
Record RawSample : Type := mkRaw { rs_at : Z; rs_seeds : Z; rs_failures : Z; rs_signatures : list string }.
(** [Math.min(...times)] of a list that is not empty. *)
Definition least_time (t : Z) (times : list Z) : Z := foldl Z.min t times.
Definition greatest_time (t : Z) (times : list Z) : Z := foldl Z.max t times.
(** What a bucket has gathered. *)
Record BucketSums : Type := mkSums { bs_seeds : Z; bs_failures : Z; bs_signatures : list string }.
Definition no_sums : BucketSums := mkSums 0 0 [].
Definition add_sample (sample : RawSample) (b : BucketSums) : BucketSums :=
  mkSums (bs_seeds b + rs_seeds sample) (bs_failures b + rs_failures sample)
    (foldl add_distinct (bs_signatures b) (rs_signatures sample)).
Definition rate (failures seeds : Z) : Z * Z := if 0 <? seeds then double_ratio failures seeds else (0, 0).

Section Timeline.
Context (parse_date : string -> option Z).

Definition parseTime (value : string) : option Z := if bool_decide (value = EmptyString) then None else parse_date value.
Definition raw_sample (sample : TimelineSample) : option RawSample :=
  at_ ← parseTime (ts_at sample);
  Some (mkRaw at_ (nonNegative (ts_seeds sample)) (nonNegative (ts_failures sample))
          (uniqueSignatures (ts_signatures sample))).
Definition raw_samples (input : TimelineInput) : list RawSample := sort_on rs_at (omap raw_sample (tn_samples input)).
(** An entry with its instant. *)
Definition timed {A} (at_of : A -> string) (a : A) : option (Z * A) := at_ ← parseTime (at_of a); Some (at_, a).
Definition data_times (input : TimelineInput) : list Z :=
  (rs_at <$> raw_samples input) ++ (omap (timed tm_at) (tn_markers input)).*1 ++ (omap (timed tf_at) (tn_failures input)).*1.
Definition timeline_range (input : TimelineInput) : Z * Z :=
  let '(dataMin, dataMax) := match data_times input with
                             | [] => (tn_now input, tn_now input)
                             | t :: times => (least_time t times, greatest_time t times) end in
  let start := default dataMin (tn_rangeStart input ≫= parseTime) in
  let end_ := default dataMax (tn_rangeEnd input ≫= parseTime) in
  (start, if end_ <=? start then start + 1 else end_).
Definition bucket_width (rangeMs requested : Z) : Z :=
  Z.max MIN_TIMELINE_BUCKET_MS (ceil_double (double_ratio rangeMs requested)).
Definition bucket_count (rangeMs width : Z) : Z := Z.max 1 (ceil_double (double_ratio rangeMs width)).
Definition bucketIndex (start end_ width count at_ : Z) : option Z :=
  if (at_ <? start) || (end_ <? at_) then None
  else Some (Z.min (count - 1) (Z.max 0 (floor_double (double_ratio (at_ - start) width)))).
Definition fold_sample (index_of : Z -> option Z) (acc : list BucketSums) (sample : RawSample) : list BucketSums :=
  match index_of (rs_at sample) with
  | None => acc
  | Some i => alter (add_sample sample) (Z.to_nat i) acc
  end.
Definition finish_bucket (start end_ width : Z) (index : nat) (b : BucketSums) : TimelineBucket :=
  let bucketStart := start + Z.of_nat index * width in
  let signatures := sort_by str_le (bs_signatures b) in
  mkTimelineBucket (to_iso_string bucketStart) (to_iso_string (Z.min end_ (bucketStart + width)))
    (bs_seeds b) (bs_failures b) (rate (bs_failures b) (bs_seeds b)) (Z.of_nat (length signatures))
    (take MAX_BUCKET_SIGNATURES signatures).
(** The entries inside the range, in order of time. *)
Definition entries_within {A} (index_of : Z -> option Z) (entries : list (Z * A)) : list A :=
  (sort_on fst (List.filter (fun e => match index_of e.1 with Some _ => true | None => false end) entries)).*2.
Definition total (index_of : Z -> option Z) (f : RawSample -> Z) (samples : list RawSample) : Z :=
  foldl (fun sum s => sum + match index_of (rs_at s) with None => 0 | Some _ => f s end) 0 samples.
Definition countDistinctSignatures (samples : list (list string)) (failures : list TimelineFailure) : Z :=
  Z.of_nat (length (foldl (fun seen l => foldl add_distinct seen (present_signatures l))
                      (foldl add_distinct [] (tf_signature <$> failures)) samples)).
Definition buildCampaignTimeline (input : TimelineInput) : TimelineSeries :=
  let requestedBuckets := clampBucketCount (tn_buckets input) in
  let samples := raw_samples input in
  let '(start, end_) := timeline_range input in
  let width := bucket_width (end_ - start) requestedBuckets in
  let count := bucket_count (end_ - start) width in
  let index_of := bucketIndex start end_ width count in
  let sums := foldl (fold_sample index_of) (repeat no_sums (Z.to_nat count)) samples in
  let sampledPoints := total index_of (fun _ => 1) samples in
  let failures := entries_within index_of (omap (timed tf_at) (tn_failures input)) in
  let seeds := total index_of rs_seeds samples in
  let totalFailures := total index_of rs_failures samples in
  mkTimelineSeries (tn_campaignId input) (to_iso_string start) (to_iso_string end_) count width sampledPoints
    (over_cap (tn_buckets input) || (count <? sampledPoints)) requestedBuckets
    (imap (finish_bucket start end_ width) sums)
    (entries_within index_of (omap (timed tm_at) (tn_markers input))) failures
    (mkTimelineSummary seeds totalFailures (rate totalFailures seeds)
       (countDistinctSignatures (rs_signatures <$> samples) failures)).
End Timeline.

(** *** By hand *)

Definition sample_at (t seeds failures : Z) (signatures : list string) : TimelineSample :=
  mkTimelineSample (to_iso_string t) (Some seeds) (Some failures) signatures None.
Definition sample_input (range : option (Z * Z)) (buckets : BucketRequest) : TimelineInput :=
  mkTimelineInput "c1" [sample_at 9500 4 1 ["b"; "a"]%string; sample_at 0 10 0 []; sample_at 2500 5 2 ["a"]%string] [] []
    (to_iso_string ∘ fst <$> range) (to_iso_string ∘ snd <$> range) buckets 0.
Example timeline_by_hand :
  let out := buildCampaignTimeline date_parse (sample_input None (req_number 4 1)) in
  tl_bucketCount out = 4 /\ tl_bucketWidthMs out = 2375 /\ tb_seeds <$> tl_buckets out = [10; 5; 0; 4] /\
  tb_signatures <$> tl_buckets out = [[]; ["a"]; []; ["a"; "b"]]%string /\
  tu_seeds (tl_summary out) = 19 /\ tu_distinctSignatures (tl_summary out) = 2 /\ tl_sampledPoints out = 3.
Proof. vm_compute. done. Qed.
(** A request of zero or less gives one bucket, not the default. *)
Example clamp_zero : clampBucketCount (req_number 0 1) = 1 /\ clampBucketCount (req_number (-3) 1) = 1.
Proof. done. Qed.
(** The summary counts the signatures of samples outside the range. *)
Example distinct_outside_range :
  let out := buildCampaignTimeline date_parse (sample_input (Some (0, 1000)) req_undefined) in
  tl_sampledPoints out = 1 /\ concat (tb_signatures <$> tl_buckets out) = [] /\
  tu_distinctSignatures (tl_summary out) = 2.
Proof. vm_compute. done. Qed.
(** Two samples folded into one bucket are not reported as downsampled where there are
    buckets enough. *)
Example folded_not_downsampled :
  let out := buildCampaignTimeline date_parse
    (mkTimelineInput "c1" [sample_at 0 1 0 []; sample_at 1 1 0 []; sample_at 5000 1 0 []] [] [] None None req_undefined 0) in
  tl_downsampled out = false /\ tb_seeds <$> tl_buckets out = [2; 0; 0; 0; 1].
Proof. vm_compute. done. Qed.

(** ** Buckets *)

Lemma ceil_bounds (n d : Z) : 0 < d -> d * (- ((- n) / d) - 1) < n <= d * - ((- n) / d).
Proof.
  intros Hd. pose proof (Z.div_mod (- n) d ltac:(lia)). pose proof (Z.mod_pos_bound (- n) d Hd). nia.
Qed.

Section Range.
Context (start end_ requested : Z) (Hrange : 0 < end_ - start < 2 ^ 53) (Hreq : 1 <= requested <= MAX_TIMELINE_BUCKETS).

Let range := end_ - start.
Let width := bucket_width range requested.
Let count := bucket_count range width.

Lemma width_bounds : MIN_TIMELINE_BUCKET_MS <= width < 2 ^ 53 /\ range <= requested * width.
Proof.
  unfold width, bucket_width, MAX_TIMELINE_BUCKETS, MIN_TIMELINE_BUCKET_MS in *.
  rewrite ceil_quotient by (unfold range; lia). pose proof (ceil_bounds range requested ltac:(lia)).
  split; [|nia]. split; [lia|]. apply Z.max_lub_lt; [lia|]. unfold range in *. nia.
Qed.

(** The buckets cover the range, and the last one is needed. *)
Lemma count_bounds : 1 <= count <= requested /\ (count - 1) * width < range <= count * width.
Proof.
  pose proof width_bounds as [Hw Hr]. unfold MIN_TIMELINE_BUCKET_MS in Hw.
  unfold count, bucket_count. rewrite ceil_quotient by (unfold range in *; lia).
  pose proof (ceil_bounds range width ltac:(lia)). unfold range in *.
  rewrite Z.max_r by nia. split; [|nia]. split; nia.
Qed.

(** An instant of the range falls into the bucket that contains it; the end of the
    range into the last one. *)
Lemma bucketIndex_spec (at_ : Z) :
  match bucketIndex start end_ width count at_ with
  | None => at_ < start \/ end_ < at_
  | Some i => start <= at_ <= end_ /\ 0 <= i < count /\ start + i * width <= at_ /\
              (at_ < start + (i + 1) * width \/ i = count - 1)
  end.
Proof.
  pose proof width_bounds as [Hw _]. pose proof count_bounds as [Hc Hc']. unfold MIN_TIMELINE_BUCKET_MS in Hw.
  unfold bucketIndex.
  destruct (Z.ltb_spec at_ start); cbn; [by left|]. destruct (Z.ltb_spec end_ at_); cbn; [by right|].
  rewrite floor_quotient by (unfold range in *; lia).
  pose proof (Z.div_pos (at_ - start) width ltac:(lia) ltac:(lia)).
  pose proof (Z.div_mod (at_ - start) width ltac:(lia)). pose proof (Z.mod_pos_bound (at_ - start) width ltac:(lia)).
  rewrite Z.max_r by lia. set (q := (at_ - start) / width) in *.
  destruct (Z.min_spec (count - 1) q) as [[? ->]|[? ->]]; (split; [lia|]; split; [lia|]; split; [nia|]);
    [by right|left; nia].
Qed.
End Range.

(** ** Totals *)

Lemma foldl_sum {A} (f : A -> Z) (l : list A) : forall s, foldl (fun s x => s + f x) s l = s + foldl (fun s x => s + f x) 0 l.
Proof. induction l as [|x l IH]; intros s; cbn [foldl]; [lia|]. rewrite (IH (s + f x)), (IH (0 + f x)). lia. Qed.

Definition sum_of {A} (f : A -> Z) (l : list A) : Z := foldl (fun s x => s + f x) 0 l.
#[local] Arguments sum_of : simpl never.
Lemma sum_of_cons {A} (f : A -> Z) (x : A) (l : list A) : sum_of f (x :: l) = f x + sum_of f l.
Proof. unfold sum_of. cbn [foldl]. rewrite foldl_sum. lia. Qed.
Lemma sum_of_alter {A} (f : A -> Z) (g : A -> A) (d : Z) (i : nat) (l : list A) :
  (i < length l)%nat -> (forall x, f (g x) = f x + d) -> sum_of f (alter g i l) = sum_of f l + d.
Proof.
  intros Hi Hg. revert i Hi. induction l as [|x l IH]; intros [|i] Hi; cbn in Hi; [lia|lia| |].
  - change (alter g 0%nat (x :: l)) with (g x :: l). rewrite !sum_of_cons, Hg. lia.
  - change (alter g (S i) (x :: l)) with (x :: alter g i l). rewrite !sum_of_cons, IH by lia. lia.
Qed.

Section Totals.
Context (index_of : Z -> option Z) (count : nat).
Context (Hindex : forall at_ i, index_of at_ = Some i -> 0 <= i < Z.of_nat count).

Lemma fold_sample_length (samples : list RawSample) : forall acc,
  length (foldl (fold_sample index_of) acc samples) = length acc.
Proof.
  induction samples as [|s samples IH]; intros acc; cbn; [done|]. rewrite IH. unfold fold_sample.
  destruct (index_of (rs_at s)); [by rewrite length_alter|done].
Qed.

Lemma total_cons (g : RawSample -> Z) (s : RawSample) (l : list RawSample) :
  total index_of g (s :: l) = match index_of (rs_at s) with None => 0 | Some _ => g s end + total index_of g l.
Proof.
  unfold total.
  exact (sum_of_cons (fun s => match index_of (rs_at s) with None => 0 | Some _ => g s end) s l).
Qed.

Lemma fold_sample_total (f : BucketSums -> Z) (g : RawSample -> Z) (samples : list RawSample) : forall acc,
  length acc = count -> (forall s b, f (add_sample s b) = f b + g s) ->
  sum_of f (foldl (fold_sample index_of) acc samples) = sum_of f acc + total index_of g samples.
Proof.
  intros acc Hlen Hf. revert acc Hlen. induction samples as [|s samples IH]; intros acc Hlen; cbn [foldl].
  { unfold total. cbn [foldl]. lia. }
  rewrite IH. 2: { unfold fold_sample. destruct (index_of (rs_at s)); [by rewrite length_alter|done]. }
  rewrite total_cons. unfold fold_sample. destruct (index_of (rs_at s)) as [i|] eqn:E; [|lia].
  pose proof (Hindex _ _ E). rewrite (sum_of_alter f _ (g s)); [lia|lia|]. intros b. apply Hf.
Qed.

(** The samples of bucket [i]. *)
Definition samples_of (i : nat) (samples : list RawSample) : list RawSample :=
  List.filter (fun s => bool_decide (index_of (rs_at s) = Some (Z.of_nat i))) samples.

Lemma fold_sample_lookup (i : nat) (samples : list RawSample) : forall acc b,
  acc !! i = Some b ->
  foldl (fold_sample index_of) acc samples !! i = Some (foldl (fun b s => add_sample s b) b (samples_of i samples)).
Proof.
  induction samples as [|s samples IH]; intros acc b Hb; cbn; [done|]. unfold fold_sample at 2.
  destruct (index_of (rs_at s)) as [j|] eqn:E; [|by apply IH].
  pose proof (Hindex _ _ E). destruct (bool_decide_reflect (Some j = Some (Z.of_nat i))) as [Ej|Ej]; cbn.
  - injection Ej as ->. rewrite Nat2Z.id. apply IH. by rewrite list_lookup_alter_eq, Hb.
  - apply IH. rewrite list_lookup_alter_ne; [done|]. intros E'. apply Ej. f_equal. lia.
Qed.
End Totals.

(** ** Distinct signatures *)

Lemma add_distinct_nodup (seen : list string) (s : string) : NoDup seen -> NoDup (add_distinct seen s).
Proof.
  intros H. unfold add_distinct. destruct (bool_decide_reflect (s ∈ seen)); [done|].
  apply NoDup_app. split; [done|]. split; [by intros x Hx ->%list_elem_of_singleton|apply NoDup_singleton].
Qed.
Lemma elem_of_add_distinct (seen : list string) (s x : string) : x ∈ add_distinct seen s <-> x ∈ seen \/ x = s.
Proof.
  unfold add_distinct. destruct (bool_decide_reflect (s ∈ seen)).
  - split; [by left|]. by intros [?| ->].
  - by rewrite elem_of_app, list_elem_of_singleton.
Qed.
Lemma add_all_distinct (l : list string) : forall seen,
  (NoDup seen -> NoDup (foldl add_distinct seen l)) /\
  forall x, x ∈ foldl add_distinct seen l <-> x ∈ seen \/ x ∈ l.
Proof.
  induction l as [|s l IH]; intros seen; cbn.
  - split; [done|]. intros x. pose proof (not_elem_of_nil x). tauto.
  - destruct (IH (add_distinct seen s)) as [H1 H2]. split; [intros H; by apply H1, add_distinct_nodup|].
    intros x. rewrite H2, elem_of_add_distinct, elem_of_cons. tauto.
Qed.

Lemma gathered (l : list RawSample) : forall b,
  let out := foldl (fun b s => add_sample s b) b l in
  bs_seeds out = bs_seeds b + sum_of rs_seeds l /\ bs_failures out = bs_failures b + sum_of rs_failures l /\
  (NoDup (bs_signatures b) -> NoDup (bs_signatures out)) /\
  forall x, x ∈ bs_signatures out <-> x ∈ bs_signatures b \/ exists s, s ∈ l /\ x ∈ rs_signatures s.
Proof.
  induction l as [|s l IH]; intros b; cbn.
  - unfold sum_of. cbn. split_and!; try lia; [done|]. intros x. split; [by left|].
    intros [?|(? & []%elem_of_nil & _)]. done.
  - destruct (IH (add_sample s b)) as (H1 & H2 & H3 & H4). cbn in *. rewrite !sum_of_cons, H1, H2.
    destruct (add_all_distinct (rs_signatures s) (bs_signatures b)) as [D1 D2].
    split_and!; [lia|lia|auto|]. intros x. rewrite H4, D2. split.
    + intros [[?|?]|(s' & ? & ?)]; [by left| |]; right; [exists s|exists s']; (split; [|done]); [by left|by right].
    + intros [?|(s' & [->|?]%elem_of_cons & ?)]; [by left; left|by left; right|right; by exists s'].
Qed.

(** ** The series *)

Lemma clamp_bounds (requested : BucketRequest) : 1 <= clampBucketCount requested <= MAX_TIMELINE_BUCKETS.
Proof. unfold clampBucketCount, DEFAULT_TIMELINE_BUCKETS, MAX_TIMELINE_BUCKETS. destruct requested; lia. Qed.

Lemma range_positive (parse_date : string -> option Z) (input : TimelineInput) (start end_ : Z) :
  timeline_range parse_date input = (start, end_) -> start < end_.
Proof.
  unfold timeline_range. destruct (match data_times parse_date input with [] => _ | _ => _ end) as [lo hi].
  intros [= <- <-]. destruct (Z.leb_spec (default hi (tn_rangeEnd input ≫= parseTime parse_date))
    (default lo (tn_rangeStart input ≫= parseTime parse_date))); lia.
Qed.

(** A finished bucket shows what it gathered, its signatures sorted and cut. *)
Definition shows (start end_ width : Z) (i : nat) (own : list RawSample) (b : TimelineBucket) : Prop :=
  tb_start b = to_iso_string (start + Z.of_nat i * width) /\
  tb_end b = to_iso_string (Z.min end_ (start + Z.of_nat i * width + width)) /\
  tb_seeds b = sum_of rs_seeds own /\ tb_failures b = sum_of rs_failures own /\
  tb_failureRate b = rate (sum_of rs_failures own) (sum_of rs_seeds own) /\
  exists signatures, NoDup signatures /\ StronglySorted (fun x y => str_le x y = true) signatures /\
    (forall x, x ∈ signatures <-> exists s, s ∈ own /\ x ∈ rs_signatures s) /\
    tb_signatureCount b = Z.of_nat (length signatures) /\
    tb_signatures b = take MAX_BUCKET_SIGNATURES signatures.

Lemma finish_shows (start end_ width : Z) (i : nat) (own : list RawSample) :
  shows start end_ width i own (finish_bucket start end_ width i (foldl (fun b s => add_sample s b) no_sums own)).
Proof.
  destruct (gathered own no_sums) as (H1 & H2 & H3 & H4). unfold finish_bucket, shows. cbn in *.
  rewrite H1, H2. split_and!; try done. exists (sort_by str_le (bs_signatures (foldl (fun b s => add_sample s b) no_sums own))).
  split_and!; try done.
  - rewrite sort_by_perm. apply H3. constructor.
  - apply sort_by_sorted; [intros; apply str_le_total|intros ? ? ?; apply str_le_trans].
  - intros x. rewrite elem_of_sort_by, H4. split; [by intros [?%elem_of_nil|?]|by right].
Qed.

Lemma sum_finished (f : BucketSums -> Z) (g : TimelineBucket -> Z) (start end_ width : Z) (l : list BucketSums) : forall k,
  (forall i b, g (finish_bucket start end_ width i b) = f b) ->
  sum_of g (imap (fun i => finish_bucket start end_ width (k + i)) l) = sum_of f l.
Proof.
  induction l as [|b l IH]; intros k Hg; [done|]. rewrite imap_cons, !sum_of_cons, Hg. f_equal.
  rewrite <- (IH (S k) Hg). f_equal. apply imap_ext. intros i x _. cbn. by rewrite Nat.add_succ_r.
Qed.

Lemma sum_no_sums (f : BucketSums -> Z) (n : nat) : f no_sums = 0 -> sum_of f (repeat no_sums n) = 0.
Proof. intros Hf. induction n as [|n IH]; [done|]. cbn [repeat]. rewrite sum_of_cons, Hf, IH. done. Qed.

