(* ===== verification/CampaignRegistry.v ===== *)
(** [lib/campaigns/campaign-registry.ts]: the in-memory registry of campaigns.

    The [Map] is the list of its records in insertion order, whose ids are distinct.
    [Date.parse] and the clock are arguments. *)

From S2P Require Import Prelude JsDate JsString JsNumber CampaignTimeline.
From stdpp Require Import base list sets gmap strings numbers sorting.
From Stdlib Require Import ZArith Lia Ascii.
#[local] Open Scope Z_scope.
#[local] Arguments String.append !_ _ / : simpl nomatch.

Definition MAX_STORED_CAMPAIGNS : nat := 1000.
Definition MAX_STORED_SAMPLES : nat := Z.to_nat 20000.
Definition MAX_STORED_FAILURES : nat := Z.to_nat 5000.
Definition MAX_STORED_MARKERS : nat := 1000.

Inductive CampaignStatus : Type :=
  | cs_queued | cs_running | cs_paused | cs_completed | cs_cancelled | cs_failed.
#[export] Instance CampaignStatus_eq_dec : EqDecision CampaignStatus.
Proof. solve_decision. Defined.
Record CampaignTarget : Type := mkTarget
  { ct_area : option string; ct_preset : option string; ct_seeds : option Z; ct_workers : option Z }.
Record CampaignRecord : Type := mkCampaignRecord
  { ca_id : string; ca_name : option string; ca_status : CampaignStatus; ca_createdAt : string;
    ca_startedAt : option string; ca_finishedAt : option string; ca_target : option CampaignTarget;
    ca_samples : list TimelineSample; ca_markers : list TimelineMarker; ca_failures : list TimelineFailure;
    ca_lastSampleAt : option string }.
Record RegisterCampaignInput : Type := mkRegisterInput
  { ri_id : string; ri_name : option string; ri_status : option CampaignStatus; ri_createdAt : option string;
    ri_startedAt : option string; ri_finishedAt : option string; ri_target : option CampaignTarget }.
Definition START_LABEL : string := "Campaign started".

Definition prefer {A} (new old : option A) : option A := match new with Some a => Some a | None => old end.
(** [{ ...old, ...new }], where [new] carries no [undefined]. *)
Definition merge_target (old : option CampaignTarget) (new : CampaignTarget) : CampaignTarget :=
  match old with
  | None => new
  | Some o => mkTarget (prefer (ct_area new) (ct_area o)) (prefer (ct_preset new) (ct_preset o))
                (prefer (ct_seeds new) (ct_seeds o)) (prefer (ct_workers new) (ct_workers o))
  end.

Definition find_campaign (id : string) (l : list CampaignRecord) : option CampaignRecord :=
  List.find (fun r => bool_decide (ca_id r = id)) l.
(** The record under [id], changed in place. *)
Definition update_campaign (id : string) (f : CampaignRecord -> CampaignRecord) (l : list CampaignRecord)
  : list CampaignRecord :=
  (fun r => if bool_decide (ca_id r = id) then f r else r) <$> l.

Section Registry.
Context (parse_date : string -> option Z).

Definition isoOrNull (value : option string) : option string :=
  match value with
  | Some v => match parseTime parse_date v with Some t => Some (to_iso_string t) | None => None end
  | None => None
  end.
(** The newest entries, sorted, when there are more than [max]. *)
Definition trimOldest {A} (entries : list A) (max : nat) (at_of : A -> string) : list A :=
  if (length entries <=? max)%nat then entries
  else drop (length entries - max) (sort_on (fun a => default 0 (parseTime parse_date (at_of a))) entries).
(** The first of the records with the least instant of creation; one that cannot be
    read counts as infinitely late. *)
Fixpoint oldest (best : option (Z * string)) (l : list CampaignRecord) : option (Z * string) :=
  match l with
  | [] => best
  | r :: l' =>
      match parseTime parse_date (ca_createdAt r), best with
      | None, _ => oldest best l'
      | Some t, None => oldest (Some (t, ca_id r)) l'
      | Some t, Some (b, _) => oldest (if t <? b then Some (t, ca_id r) else best) l'
      end
  end.
Definition evictOldestCampaignIfNeeded (l : list CampaignRecord) : list CampaignRecord :=
  if (length l <=? MAX_STORED_CAMPAIGNS)%nat then l
  else match oldest None l with
       | None => l
       | Some (_, id) => List.filter (fun r => negb (bool_decide (ca_id r = id))) l
       end.

Definition refresh (input : RegisterCampaignInput) (r : CampaignRecord) : CampaignRecord :=
  mkCampaignRecord (ca_id r) (prefer (ri_name input) (ca_name r)) (default (ca_status r) (ri_status input))
    (ca_createdAt r) (prefer (isoOrNull (ri_startedAt input)) (ca_startedAt r))
    (prefer (isoOrNull (ri_finishedAt input)) (ca_finishedAt r))
    (match ri_target input with Some t => Some (merge_target (ca_target r) t) | None => ca_target r end)
    (ca_samples r) (ca_markers r) (ca_failures r) (ca_lastSampleAt r).
Definition registerCampaign (input : RegisterCampaignInput) (now : Z) (l : list CampaignRecord)
  : list CampaignRecord * option CampaignRecord :=
  let id := trim (ri_id input) in
  if bool_decide (id = EmptyString) then (l, None)
  else
    let createdAt := default (to_iso_string now) (isoOrNull (ri_createdAt input)) in
    match find_campaign id l with
    | Some existing => (update_campaign id (refresh input) l, Some (refresh input existing))
    | None =>
        let record := mkCampaignRecord id (ri_name input) (default cs_queued (ri_status input)) createdAt
          (isoOrNull (ri_startedAt input)) (isoOrNull (ri_finishedAt input)) (ri_target input) []
          [mkTimelineMarker (id ++ "-start")%string campaign_start createdAt START_LABEL (truthy (ri_name input)) None]
          [] None in
        (evictOldestCampaignIfNeeded (l ++ [record]), Some record)
    end.

Definition with_failures (r : CampaignRecord) (failures : list TimelineFailure) : CampaignRecord :=
  mkCampaignRecord (ca_id r) (ca_name r) (ca_status r) (ca_createdAt r) (ca_startedAt r) (ca_finishedAt r)
    (ca_target r) (ca_samples r) (ca_markers r) failures (ca_lastSampleAt r).
Definition with_markers (r : CampaignRecord) (markers : list TimelineMarker) : CampaignRecord :=
  mkCampaignRecord (ca_id r) (ca_name r) (ca_status r) (ca_createdAt r) (ca_startedAt r) (ca_finishedAt r)
    (ca_target r) (ca_samples r) markers (ca_failures r) (ca_lastSampleAt r).
Definition with_samples (r : CampaignRecord) (samples : list TimelineSample) (lastSampleAt : option string)
  : CampaignRecord :=
  mkCampaignRecord (ca_id r) (ca_name r) (ca_status r) (ca_createdAt r) (ca_startedAt r) (ca_finishedAt r)
    (ca_target r) samples (ca_markers r) (ca_failures r) lastSampleAt.

Definition pushFailure (at_ : string) (crash : TimelineCrash) (r : CampaignRecord) : CampaignRecord :=
  if bool_decide (tc_signature crash = EmptyString) then r
  else
    let id := match truthy (tc_id crash) with
              | Some id => id
              | None => (ca_id r ++ "-" ++ at_ ++ "-" ++ tc_signature crash)%string end in
    if existsb (fun f => bool_decide (tf_id f = id)) (ca_failures r) then r
    else with_failures r
           (trimOldest (ca_failures r ++ [mkTimelineFailure id at_ (tc_signature crash) (truthy (tc_runId crash))
                                            (truthy (tc_severity crash))]) MAX_STORED_FAILURES tf_at).
Definition bare_crash (signature : string) : TimelineCrash := mkTimelineCrash None signature None None.
Definition add_sample_to (at_ : string) (sample : TimelineSample) (r : CampaignRecord) : CampaignRecord :=
  let signatures := uniqueSignatures (ts_signatures sample) in
  let stored := mkTimelineSample at_ (Some (nonNegative (ts_seeds sample))) (Some (nonNegative (ts_failures sample)))
                  signatures (ts_crashes sample) in
  let samples := trimOldest (ca_samples r ++ [stored]) MAX_STORED_SAMPLES ts_at in
  let time v := default 0 (parseTime parse_date v) in
  let lastSampleAt := match ca_lastSampleAt r with
                      | None => at_
                      | Some last => if time last <=? time at_ then at_ else last end in
  let r' := with_samples r samples (Some lastSampleAt) in
  match ts_crashes sample with
  | Some (c :: crashes) => foldl (fun r c => pushFailure at_ c r) r' (c :: crashes)
  | _ => foldl (fun r s => pushFailure at_ (bare_crash s) r) r' signatures
  end.
Definition recordCampaignSample (campaignId : string) (sample : TimelineSample) (l : list CampaignRecord)
  : list CampaignRecord * option CampaignRecord :=
  match find_campaign campaignId l, isoOrNull (Some (ts_at sample)) with
  | Some r, Some at_ => (update_campaign campaignId (add_sample_to at_ sample) l, Some (add_sample_to at_ sample r))
  | _, _ => (l, None)
  end.

Definition kind_name (k : TimelineMarkerKind) : string :=
  match k with
  | campaign_start => "campaign_start" | campaign_pause => "campaign_pause" | campaign_resume => "campaign_resume"
  | campaign_cancel => "campaign_cancel" | checkpoint => "checkpoint" | worker_join => "worker_join"
  | worker_leave => "worker_leave" | dictionary_change => "dictionary_change"
  end.
Definition add_marker (markerId : option string) (kind : TimelineMarkerKind) (at_ label : string)
    (detail runId : option string) (r : CampaignRecord) : CampaignRecord :=
  let id := default (ca_id r ++ "-" ++ kind_name kind ++ "-" ++ at_)%string markerId in
  if existsb (fun m => bool_decide (tm_id m = id)) (ca_markers r) then r
  else with_markers r (trimOldest (ca_markers r ++ [mkTimelineMarker id kind at_ label (truthy detail) (truthy runId)])
                         MAX_STORED_MARKERS tm_at).
Definition recordCampaignMarker (campaignId : string) (markerId : option string) (kind : TimelineMarkerKind)
    (at_ label : string) (detail runId : option string) (l : list CampaignRecord)
  : list CampaignRecord * option CampaignRecord :=
  match find_campaign campaignId l, isoOrNull (Some at_) with
  | Some r, Some iso => (update_campaign campaignId (add_marker markerId kind iso label detail runId) l,
                         Some (add_marker markerId kind iso label detail runId r))
  | _, _ => (l, None)
  end.
Definition recordCampaignFailure (campaignId at_ : string) (crash : TimelineCrash) (l : list CampaignRecord)
  : list CampaignRecord * option CampaignRecord :=
  match find_campaign campaignId l, isoOrNull (Some at_) with
  | Some r, Some iso => (update_campaign campaignId (pushFailure iso crash) l, Some (pushFailure iso crash r))
  | _, _ => (l, None)
  end.

Definition set_status (status : CampaignStatus) (at_ : string) (r : CampaignRecord) : CampaignRecord :=
  mkCampaignRecord (ca_id r) (ca_name r) status (ca_createdAt r)
    (match status, ca_startedAt r with cs_running, None => Some at_ | _, s => s end)
    (match status with cs_completed | cs_cancelled | cs_failed => Some at_ | _ => ca_finishedAt r end)
    (ca_target r) (ca_samples r) (ca_markers r) (ca_failures r) (ca_lastSampleAt r).
Definition status_marker (status : CampaignStatus) : option (TimelineMarkerKind * string) :=
  match status with
  | cs_paused => Some (campaign_pause, "Campaign paused"%string)
  | cs_running => Some (campaign_resume, "Campaign resumed"%string)
  | cs_cancelled => Some (campaign_cancel, "Campaign cancelled"%string)
  | _ => None
  end.
Definition markCampaignStatus (campaignId : string) (status : CampaignStatus) (at_ : string)
    (l : list CampaignRecord) : list CampaignRecord * option CampaignRecord :=
  match find_campaign campaignId l with
  | None => (l, None)
  | Some _ =>
      let l1 := update_campaign campaignId (set_status status at_) l in
      let l2 := match status_marker status with
                | Some (kind, label) => (recordCampaignMarker campaignId None kind at_ label None None l1).1
                | None => l1 end in
      (l2, find_campaign campaignId l2)
  end.
(** The series of a campaign with its heading: id, name, status, createdAt, startedAt
    and finishedAt. *)
Definition buildCampaignTimelineFor (campaignId : string) (rangeStart rangeEnd : option string)
    (buckets : BucketRequest) (now : Z) (l : list CampaignRecord) : option (TimelineSeries * CampaignRecord) :=
  r ← find_campaign campaignId l;
  Some (buildCampaignTimeline parse_date
          (mkTimelineInput campaignId (ca_samples r) (ca_markers r) (ca_failures r) rangeStart rangeEnd buckets now), r).

(** ** Histories *)

Inductive campaign_op : Type :=
  | op_register (input : RegisterCampaignInput) (now : Z)
  | op_sample (campaignId : string) (sample : TimelineSample)
  | op_marker (campaignId : string) (markerId : option string) (kind : TimelineMarkerKind) (at_ label : string)
      (detail runId : option string)
  | op_failure (campaignId at_ : string) (crash : TimelineCrash)
  | op_status (campaignId : string) (status : CampaignStatus) (at_ : string).
Definition run_campaign_op (l : list CampaignRecord) (op : campaign_op) : list CampaignRecord :=
  match op with
  | op_register input now => (registerCampaign input now l).1
  | op_sample id sample => (recordCampaignSample id sample l).1
  | op_marker id markerId kind at_ label detail runId => (recordCampaignMarker id markerId kind at_ label detail runId l).1
  | op_failure id at_ crash => (recordCampaignFailure id at_ crash l).1
  | op_status id status at_ => (markCampaignStatus id status at_ l).1
  end.
End Registry.

(** *** By hand *)

Definition register_plain (id : string) (createdAt : option string) : campaign_op :=
  op_register (mkRegisterInput id (Some "n"%string) None createdAt None None None) 5000.
Example registry_by_hand :
  let l := foldl (run_campaign_op date_parse) []
    [register_plain " c1 " None; op_status "c1" cs_running (to_iso_string 7000);
     op_sample "c1" (mkTimelineSample (to_iso_string 8000) (Some 3) None ["x"; ""; "x"]%string None);
     op_sample "c1" (mkTimelineSample (to_iso_string 8000) (Some (-3)) (Some 1) [] (Some [bare_crash "y"; bare_crash "y"]));
     op_sample "c1" (mkTimelineSample "soon" (Some 3) None [] None); op_status "c1" cs_completed "later"] in
  (fun r => (ca_id r, ca_status r, ca_finishedAt r, length (ca_samples r), length (ca_markers r),
             tf_signature <$> ca_failures r)) <$> l
  = [("c1"%string, cs_completed, Some "later"%string, 2%nat, 2%nat, ["x"; "y"]%string)].
Proof. vm_compute. done. Qed.

(** ** Bounded lists *)

Section Trim.
Context {A : Type} (time : A -> Z).

(** What is dropped is no newer than anything kept. *)
Definition newest_of (entries kept : list A) (max : nat) : Prop :=
  exists dropped, entries ≡ₚ dropped ++ kept /\ length dropped = (length entries - max)%nat /\
    forall a b, a ∈ dropped -> b ∈ kept -> time a <= time b.

Lemma newest_all (entries : list A) (max : nat) : (length entries <= max)%nat -> newest_of entries entries max.
Proof. intros H. exists []. split; [done|]. split; [cbn; lia|]. by intros a b ?%elem_of_nil. Qed.
Lemma newest_length (entries kept : list A) (max : nat) :
  newest_of entries kept max -> length kept = Nat.min (length entries) max.
Proof. intros (d & Hp & Hd & _). apply Permutation_length in Hp. rewrite length_app in Hp. lia. Qed.
Lemma newest_nodup {B} (f : A -> B) (entries kept : list A) (max : nat) :
  newest_of entries kept max -> NoDup (f <$> entries) -> NoDup (f <$> kept).
Proof. intros (d & Hp & _) Hn. rewrite Hp, fmap_app in Hn. by apply NoDup_app in Hn as (_ & _ & Hn). Qed.
Lemma newest_forall (P : A -> Prop) (entries kept : list A) (max : nat) :
  newest_of entries kept max -> Forall P entries -> Forall P kept.
Proof. intros (d & Hp & _) Hn. rewrite Hp in Hn. by apply Forall_app in Hn as [_ Hn]. Qed.
End Trim.

Section Registry_proofs.
Context (parse_date : string -> option Z).

Definition instant (value : string) : Z := default 0 (parseTime parse_date value).

Lemma trimOldest_newest {A} (at_of : A -> string) (entries : list A) (max : nat) :
  newest_of (fun a => instant (at_of a)) entries (trimOldest parse_date entries max at_of) max.
Proof.
  unfold trimOldest. destruct (Nat.leb_spec (length entries) max); [by apply newest_all|].
  set (time := fun a => instant (at_of a)). set (sorted := sort_on _ entries). set (n := (length entries - max)%nat).
  pose proof (sort_on_perm time entries) as Hp. pose proof (sort_on_sorted time entries) as Hs.
  change (sort_on time entries) with sorted in *. exists (take n sorted). split_and!.
  - by rewrite take_drop.
  - rewrite length_take, (Permutation_length Hp). lia.
  - intros a b Ha Hb. rewrite <- (take_drop n sorted) in Hs.
    exact (StronglySorted_app_1_elem_of _ _ _ _ _ Hs Ha Hb).
Qed.

(** ** Records *)

Definition created (r : CampaignRecord) (t : Z) : Prop := parseTime parse_date (ca_createdAt r) = Some t.
Definition counted (s : TimelineSample) : Prop :=
  exists seeds failures, ts_seeds s = Some seeds /\ ts_failures s = Some failures /\ 0 <= seeds /\ 0 <= failures.
(** The well-formedness of a record. *)
Record campaign_ok (r : CampaignRecord) : Prop := mkCampaignOk
  { ok_id : ca_id r <> EmptyString; ok_created : exists t, created r t;
    ok_samples : (length (ca_samples r) <= MAX_STORED_SAMPLES)%nat; ok_counts : Forall counted (ca_samples r);
    ok_failures : (length (ca_failures r) <= MAX_STORED_FAILURES)%nat;
    ok_failure_ids : NoDup (tf_id <$> ca_failures r);
    ok_signatures : Forall (fun f => tf_signature f <> EmptyString) (ca_failures r);
    ok_markers : (length (ca_markers r) <= MAX_STORED_MARKERS)%nat;
    ok_marker_ids : NoDup (tm_id <$> ca_markers r) }.
(** An update that keeps the identity and the instant of creation. *)
Definition keeps (f : CampaignRecord -> CampaignRecord) : Prop :=
  forall r, ca_id (f r) = ca_id r /\ ca_createdAt (f r) = ca_createdAt r /\ (campaign_ok r -> campaign_ok (f r)).

Lemma refresh_keeps (input : RegisterCampaignInput) : keeps (refresh parse_date input).
Proof. intros r. split_and!; [done..|]. intros []. by constructor. Qed.
Lemma set_status_keeps (status : CampaignStatus) (at_ : string) : keeps (set_status status at_).
Proof. intros r. split_and!; [done..|]. intros []. by constructor. Qed.

Lemma fresh_nodup {A} (id_of : A -> string) (l : list A) (a : A) :
  existsb (fun b => bool_decide (id_of b = id_of a)) l = false -> NoDup (id_of <$> l) -> NoDup (id_of <$> l ++ [a]).
Proof.
  intros Hf Hn. rewrite fmap_app. apply NoDup_app. split; [done|]. split; [|apply NoDup_singleton].
  intros x (b & -> & Hb)%list_elem_of_fmap Ea%list_elem_of_singleton.
  apply Bool.not_true_iff_false in Hf. apply Hf, existsb_exists. exists b.
  split; [by apply list_elem_of_In|by apply bool_decide_eq_true].
Qed.

Lemma pushFailure_keeps (at_ : string) (crash : TimelineCrash) : keeps (pushFailure parse_date at_ crash).
Proof.
  intros r. unfold pushFailure. destruct (bool_decide_reflect (tc_signature crash = EmptyString)) as [|Hs]; [done|].
  set (id := match truthy (tc_id crash) with Some id => id | None => _ end).
  destruct (existsb _ (ca_failures r)) eqn:E; [done|]. split_and!; [done..|]. intros [].
  pose proof (trimOldest_newest tf_at (ca_failures r ++ [mkTimelineFailure id at_ (tc_signature crash)
    (truthy (tc_runId crash)) (truthy (tc_severity crash))]) MAX_STORED_FAILURES) as Ht.
  constructor; cbn [ca_id ca_createdAt ca_samples ca_failures ca_markers with_failures]; try done.
  - rewrite (newest_length _ _ _ _ Ht). lia.
  - eapply newest_nodup; [exact Ht|]. by apply fresh_nodup.
  - eapply newest_forall; [exact Ht|]. apply Forall_app. split; [done|]. by constructor.
Qed.

Lemma add_marker_keeps (markerId : option string) (kind : TimelineMarkerKind) (at_ label : string)
    (detail runId : option string) : keeps (add_marker parse_date markerId kind at_ label detail runId).
Proof.
  intros r. unfold add_marker. set (id := default _ markerId).
  destruct (existsb _ (ca_markers r)) eqn:E; [done|]. split_and!; [done..|]. intros [].
  pose proof (trimOldest_newest tm_at (ca_markers r ++ [mkTimelineMarker id kind at_ label (truthy detail)
    (truthy runId)]) MAX_STORED_MARKERS) as Ht.
  constructor; cbn [ca_id ca_createdAt ca_samples ca_failures ca_markers with_markers]; try done.
  - rewrite (newest_length _ _ _ _ Ht). lia.
  - eapply newest_nodup; [exact Ht|]. by apply fresh_nodup.
Qed.

Lemma keeps_fold {B} (f : CampaignRecord -> B -> CampaignRecord) (l : list B) :
  (forall b, keeps (fun r => f r b)) -> keeps (fun r => foldl f r l).
Proof.
  intros Hf. induction l as [|b l IH]; intros r; cbn; [done|].
  destruct (IH (f r b)) as (-> & -> & H). destruct (Hf b r) as (-> & -> & H'). auto.
Qed.

Definition stored_sample (at_ : string) (sample : TimelineSample) : TimelineSample :=
  mkTimelineSample at_ (Some (nonNegative (ts_seeds sample))) (Some (nonNegative (ts_failures sample)))
    (uniqueSignatures (ts_signatures sample)) (ts_crashes sample).

Lemma stored_keeps (at_ : string) (sample : TimelineSample) (last : CampaignRecord -> option string) :
  keeps (fun r => with_samples r (trimOldest parse_date (ca_samples r ++ [stored_sample at_ sample])
                                    MAX_STORED_SAMPLES ts_at) (last r)).
Proof.
  intros r. split_and!; [done..|]. intros [].
  pose proof (trimOldest_newest ts_at (ca_samples r ++ [stored_sample at_ sample]) MAX_STORED_SAMPLES) as Ht.
  constructor; cbn [ca_id ca_createdAt ca_samples ca_failures ca_markers with_samples]; try done.
  - rewrite (newest_length _ _ _ _ Ht). lia.
  - eapply newest_forall; [exact Ht|]. apply Forall_app. split; [done|]. constructor; [|done].
    exists (nonNegative (ts_seeds sample)), (nonNegative (ts_failures sample)). split_and!; [done..| |];
      unfold nonNegative; repeat case_match; lia.
Qed.

Lemma add_sample_keeps (at_ : string) (sample : TimelineSample) : keeps (add_sample_to parse_date at_ sample).
Proof.
  intros r. pose proof (stored_keeps at_ sample (fun r => Some (match ca_lastSampleAt r with
    | None => at_ | Some last => if instant last <=? instant at_ then at_ else last end)) r) as (Hi & Hc & Hk).
  cbv beta in Hk. unfold add_sample_to. cbv zeta. fold (stored_sample at_ sample). unfold instant in Hk.
  set (r' := with_samples _ _ _) in *.
  assert (Hgo : forall g, keeps g -> ca_id (g r') = ca_id r /\ ca_createdAt (g r') = ca_createdAt r /\
            (campaign_ok r -> campaign_ok (g r'))).
  { intros g Hg. destruct (Hg r') as (-> & -> & H). auto. }
  assert (Hs : forall l, keeps (fun r => foldl (fun r s => pushFailure parse_date at_ (bare_crash s) r) r l)).
  { intros l. apply keeps_fold. intros s. apply pushFailure_keeps. }
  destruct (ts_crashes sample) as [[|c crashes]|]; [exact (Hgo _ (Hs _))| |exact (Hgo _ (Hs _))].
  refine (Hgo (fun r => foldl (fun r c => pushFailure parse_date at_ c r) r (c :: crashes)) _).
  apply keeps_fold. intros b. apply pushFailure_keeps.
Qed.
End Registry_proofs.

(** ** Lists with a key *)

Section Keyed.
Context {A : Type} (key : A -> string).

Lemma keep_nodup (p : A -> bool) (l : list A) : NoDup (key <$> l) -> NoDup (key <$> List.filter p l).
Proof.
  induction l as [|x l IH]; [done|]. cbn. intros [Hx Hn]%NoDup_cons. destruct (p x); cbn; [|by apply IH].
  apply NoDup_cons. split; [|by apply IH]. intros (y & E & Hy)%list_elem_of_fmap. apply Hx. rewrite E.
  apply list_elem_of_fmap_2. apply list_elem_of_In in Hy. apply filter_In in Hy as [Hy _]. by apply list_elem_of_In.
Qed.
Lemma nodup_key (l : list A) (x y : A) : NoDup (key <$> l) -> x ∈ l -> y ∈ l -> key x = key y -> x = y.
Proof.
  induction l as [|z l IH]; [by intros _ ?%elem_of_nil|]. cbn.
  intros [Hz Hn]%NoDup_cons [->|Hx]%elem_of_cons [->|Hy]%elem_of_cons E; [done| | |by apply IH].
  - destruct Hz. rewrite E. by apply list_elem_of_fmap_2.
  - destruct Hz. rewrite <- E. by apply list_elem_of_fmap_2.
Qed.
Lemma drop_one_length (id : string) (l : list A) :
  NoDup (key <$> l) -> (exists x, x ∈ l /\ key x = id) ->
  length l = S (length (List.filter (fun x => negb (bool_decide (key x = id))) l)).
Proof.
  induction l as [|z l IH]; [by intros _ (? & ?%elem_of_nil & _)|]. cbn. intros [Hz Hn]%NoDup_cons (x & Hx & E).
  apply elem_of_cons in Hx. destruct (bool_decide_reflect (key z = id)) as [Ez|Ez]; cbn.
  - rewrite keep_all; [done|]. intros y Hy. rewrite bool_decide_eq_false_2; [done|]. intros E'.
    apply Hz. rewrite Ez, <- E'. by apply list_elem_of_fmap_2.
  - f_equal. apply IH; [done|]. destruct Hx as [->|Hx]; [done|]. by exists x.
Qed.
End Keyed.

(** ** The registry *)

Section Registry_invariant.
Context (parse_date : string -> option Z).
Context (Hiso : forall t, iso_range t -> parse_date (to_iso_string t) = Some t).

Record campaigns_ok (l : list CampaignRecord) : Prop := mkCampaignsOk
  { ok_size : (length l <= MAX_STORED_CAMPAIGNS)%nat; ok_ids : NoDup (ca_id <$> l);
    ok_records : Forall (campaign_ok parse_date) l }.
(** Instants of creation have a year of four digits. *)
Definition op_ok (op : campaign_op) : Prop :=
  match op with
  | op_register input now => iso_range now /\
      forall v t, ri_createdAt input = Some v -> parseTime parse_date v = Some t -> iso_range t
  | _ => True
  end.

(** Records changed in place. *)
Definition touched : list CampaignRecord -> list CampaignRecord -> Prop :=
  Forall2 (fun r r' => ca_id r' = ca_id r /\ ca_createdAt r' = ca_createdAt r /\
                       (campaign_ok parse_date r -> campaign_ok parse_date r')).

Lemma touched_refl (l : list CampaignRecord) : touched l l.
Proof. by induction l; constructor. Qed.
Lemma touched_trans (l1 l2 l3 : list CampaignRecord) : touched l1 l2 -> touched l2 l3 -> touched l1 l3.
Proof.
  intros H. revert l3. induction H as [|r1 r2 l1 l2 (E1 & E2 & E3) _ IH]; intros l3 H; inversion_clear H; constructor.
  - destruct H0 as (-> & -> & ?). auto.
  - by apply IH.
Qed.
Lemma touched_update (id : string) (f : CampaignRecord -> CampaignRecord) (l : list CampaignRecord) :
  keeps parse_date f -> touched l (update_campaign id f l).
Proof.
  intros Hf. induction l as [|r l IH]; constructor; [|exact IH].
  destruct (bool_decide (ca_id r = id)); [apply Hf|done].
Qed.
Lemma touched_ids (l l' : list CampaignRecord) : touched l l' -> ca_id <$> l' = ca_id <$> l.
Proof. induction 1 as [|r r' l l' (E & _) _ IH]; [done|]. cbn. by rewrite E, IH. Qed.
Lemma touched_ok (l l' : list CampaignRecord) : touched l l' -> campaigns_ok l -> campaigns_ok l'.
Proof.
  intros H [Hs Hi Hr]. constructor.
  - by rewrite <- (Forall2_length _ _ _ H).
  - by rewrite (touched_ids _ _ H).
  - clear Hs Hi. induction H as [|r r' l l' (_ & _ & E) _ IH]; inversion_clear Hr; constructor; auto.
Qed.

Lemma find_campaign_spec (id : string) (l : list CampaignRecord) :
  match find_campaign id l with
  | Some r => r ∈ l /\ ca_id r = id
  | None => id ∉ ca_id <$> l
  end.
Proof.
  unfold find_campaign. destruct (List.find _ l) as [r|] eqn:E.
  - apply find_some in E as [Hr E]. split; [by apply list_elem_of_In|by apply bool_decide_eq_true in E].
  - intros (r & -> & Hr)%list_elem_of_fmap. apply list_elem_of_In in Hr.
    pose proof (find_none _ _ E _ Hr) as F. cbn in F. by apply bool_decide_eq_false in F.
Qed.
Lemma find_update (id : string) (f : CampaignRecord -> CampaignRecord) (l : list CampaignRecord) :
  (forall r, ca_id (f r) = ca_id r) -> find_campaign id (update_campaign id f l) = f <$> find_campaign id l.
Proof.
  intros Hf. induction l as [|r l IH]; [done|]. unfold find_campaign, update_campaign in *. cbn.
  destruct (bool_decide (ca_id r = id)) eqn:E.
  - by rewrite Hf, E.
  - by rewrite E.
Qed.

(** *** Registration *)

Lemma oldest_spec (l : list CampaignRecord) : forall best,
  Forall (fun r => exists t, created parse_date r t) l -> best <> None \/ l <> [] ->
  exists t id, oldest parse_date best l = Some (t, id) /\
    (best = Some (t, id) \/ exists r, r ∈ l /\ ca_id r = id /\ created parse_date r t) /\
    (forall b id', best = Some (b, id') -> t <= b) /\
    forall r t', r ∈ l -> created parse_date r t' -> t <= t'.
Proof.
  induction l as [|r l IH]; intros best Hc Hne; cbn [oldest].
  { destruct best as [[b id]|]; [|by destruct Hne]. exists b, id. split_and!; [done|by left|naive_solver lia|].
    by intros ? ? ?%elem_of_nil. }
  inversion_clear Hc as [|? ? [t Ht] Hl]. unfold created in Ht. rewrite Ht.
  set (best' := match best with None => Some (t, ca_id r) | Some (b, _) => if t <? b then Some (t, ca_id r) else best end).
  assert (Hb : exists b id, best' = Some (b, id) /\ b <= t /\ (best' = Some (t, ca_id r) \/ best' = best) /\
            forall b' id', best = Some (b', id') -> b <= b').
  { unfold best'. destruct best as [[b i]|]; [destruct (Z.ltb_spec t b)|]; eexists _, _; split_and!; try done;
      try lia; try (by left); try (by right); intros ? ? [= -> ->]; lia. }
  destruct Hb as (b & i & Eb & Hbt & Hor & Hle). destruct (IH best' Hl) as (u & id & Ho & Hsrc & Hub & Hall).
  { left. by rewrite Eb. }
  exists u, id. specialize (Hub b i Eb). split_and!.
  - rewrite <- Ho. unfold best'. by destruct best as [[? ?]|].
  - destruct Hsrc as [Hs|(r' & ? & ? & ?)]; [|right; exists r'; split; [by right|done]].
    destruct Hor as [E|E]; rewrite E in Hs; [|by left].
    injection Hs as <- <-. right. exists r. split; [by left|]. done.
  - intros b' id' E. specialize (Hle b' id' E). lia.
  - intros r' t' [->|Hr]%elem_of_cons Hc; [|by apply (Hall r')].
    unfold created in Hc. rewrite Ht in Hc. injection Hc as <-. lia.
Qed.

(** An eviction takes a campaign that is no newer than any that stays. *)
Definition evicted (l l' : list CampaignRecord) : Prop :=
  forall r r', r ∈ l -> ca_id r ∉ ca_id <$> l' -> r' ∈ l' ->
    instant parse_date (ca_createdAt r) <= instant parse_date (ca_createdAt r').

Lemma evict_ok (l : list CampaignRecord) :
  (length l <= S MAX_STORED_CAMPAIGNS)%nat -> NoDup (ca_id <$> l) -> Forall (campaign_ok parse_date) l ->
  let l' := evictOldestCampaignIfNeeded parse_date l in
  campaigns_ok l' /\ evicted l l' /\ (length l <= S (length l'))%nat.
Proof.
  intros Hlen Hn Hr. unfold evictOldestCampaignIfNeeded. destruct (Nat.leb_spec (length l) MAX_STORED_CAMPAIGNS) as [H|H].
  { split_and!; [by constructor| |lia]. intros r r' Hin Hout _. by destruct Hout; apply list_elem_of_fmap_2. }
  assert (Hc : Forall (fun r => exists t, created parse_date r t) l) by (eapply Forall_impl; [exact Hr|intros r []; done]).
  destruct (oldest_spec l None Hc) as (t & id & -> & Hsrc & _ & Hmin).
  { right. intros ->. cbn in H. lia. }
  destruct Hsrc as [?|(r0 & Hr0 & Hid & Ht)]; [done|].
  assert (Hsub : forall r, r ∈ List.filter (fun r => negb (bool_decide (ca_id r = id))) l <-> r ∈ l /\ ca_id r <> id).
  { intros r. rewrite list_elem_of_In, filter_In, <- list_elem_of_In, Bool.negb_true_iff.
    by rewrite bool_decide_eq_false. }
  pose proof (drop_one_length ca_id id l Hn (ex_intro _ r0 (conj Hr0 Hid))) as Hone.
  split_and!; [constructor| |lia].
  - lia.
  - by apply keep_nodup.
  - apply Forall_forall. intros r [Hin _]%Hsub. rewrite Forall_forall in Hr. by apply Hr.
  - intros r r' Hin Hout [Hin' _]%Hsub. destruct (decide (ca_id r = id)) as [E|E].
    2: { destruct Hout. apply list_elem_of_fmap_2, Hsub. done. }
    rewrite Forall_forall in Hr. destruct (ok_created _ _ (Hr _ Hin)) as [u Hu], (ok_created _ _ (Hr _ Hin')) as [u' Hu'].
    assert (r = r0) as -> by (eapply nodup_key; [exact Hn|done|done|congruence]).
    pose proof (Hmin r' u' Hin' Hu'). unfold created, instant in *. rewrite Ht, Hu'. cbn. lia.
Qed.

Lemma parse_iso (t : Z) : iso_range t -> parseTime parse_date (to_iso_string t) = Some t.
Proof. intros H. unfold parseTime. rewrite bool_decide_eq_false_2 by apply to_iso_nonempty. by apply Hiso. Qed.

Lemma register_ok (input : RegisterCampaignInput) (now : Z) (l : list CampaignRecord) :
  op_ok (op_register input now) -> campaigns_ok l ->
  let l' := (registerCampaign parse_date input now l).1 in
  campaigns_ok l' /\ evicted l l' /\ (length l <= length l')%nat.
Proof.
  intros [Hnow Hat] Hl. unfold registerCampaign. cbv zeta.
  assert (Hsame : forall l', touched l l' -> campaigns_ok l' /\ evicted l l' /\ (length l <= length l')%nat).
  { intros l' H. split_and!; [by apply (touched_ok l)| |by rewrite (Forall2_length _ _ _ H)].
    intros r r' Hin Hout _. destruct Hout. rewrite (touched_ids _ _ H). by apply list_elem_of_fmap_2. }
  destruct (bool_decide_reflect (trim (ri_id input) = EmptyString)) as [|Hid]; [by apply Hsame, touched_refl|].
  pose proof (find_campaign_spec (trim (ri_id input)) l) as Hf. destruct (find_campaign _ l) as [old|]; cbn [fst].
  { apply Hsame, touched_update, refresh_keeps. }
  set (createdAt := default _ (isoOrNull _ _)).
  assert (Hc : exists t, parseTime parse_date createdAt = Some t).
  { unfold createdAt, isoOrNull. destruct (ri_createdAt input) as [v|]; [|exists now; by apply parse_iso].
    destruct (parseTime parse_date v) as [t|] eqn:E; [|exists now; by apply parse_iso].
    exists t. apply parse_iso. by apply (Hat v). }
  set (record := mkCampaignRecord _ _ _ _ _ _ _ _ _ _ _).
  destruct Hl as [Hs Hn Hr]. destruct (evict_ok (l ++ [record])) as (H1 & H2 & H3).
  - rewrite length_app. cbn. lia.
  - rewrite fmap_app. apply NoDup_app. split; [done|]. split; [|apply NoDup_singleton].
    by intros x Hx ->%list_elem_of_singleton.
  - apply Forall_app. split; [done|]. constructor; [|done]. constructor; [done|done|apply Nat.le_0_l|done|apply Nat.le_0_l|constructor|done| |apply NoDup_singleton].
    by apply Nat.leb_le.
  - rewrite length_app in H3. cbn in H3. split_and!; [done| |lia].
    intros r r' Hin. apply H2. apply elem_of_app. by left.
Qed.

(** *** Every operation *)

Lemma marker_touched (campaignId : string) (markerId : option string) (kind : TimelineMarkerKind) (at_ label : string)
    (detail runId : option string) (l : list CampaignRecord) :
  touched l (recordCampaignMarker parse_date campaignId markerId kind at_ label detail runId l).1.
Proof.
  unfold recordCampaignMarker. destruct (find_campaign _ _); [|apply touched_refl].
  destruct (isoOrNull _ _); [|apply touched_refl]. apply touched_update, add_marker_keeps.
Qed.
Lemma op_touched (l : list CampaignRecord) (op : campaign_op) :
  match op with op_register _ _ => True | _ => touched l (run_campaign_op parse_date l op) end.
Proof.
  destruct op as [|id sample|id markerId kind at_ label detail runId|id at_ crash|id status at_]; [done|..]; cbn [run_campaign_op].
  - unfold recordCampaignSample. destruct (find_campaign _ _); [|apply touched_refl].
    destruct (isoOrNull _ _); [|apply touched_refl]. apply touched_update, add_sample_keeps.
  - apply marker_touched.
  - unfold recordCampaignFailure. destruct (find_campaign _ _); [|apply touched_refl].
    destruct (isoOrNull _ _); [|apply touched_refl]. apply touched_update, pushFailure_keeps.
  - unfold markCampaignStatus. destruct (find_campaign _ _); [|apply touched_refl]. cbn [fst].
    eapply touched_trans; [apply touched_update, set_status_keeps|].
    destruct (status_marker status) as [[kind label]|]; [apply marker_touched|apply touched_refl].
Qed.
Lemma op_preserves (l : list CampaignRecord) (op : campaign_op) :
  op_ok op -> campaigns_ok l ->
  let l' := run_campaign_op parse_date l op in
  campaigns_ok l' /\ evicted l l' /\ (length l <= length l')%nat.
Proof.
  intros Hop Hl. pose proof (op_touched l op) as Ht.
  destruct op; [by apply register_ok|..];
    (split_and!; [exact (touched_ok _ _ Ht Hl)| |by rewrite (Forall2_length _ _ _ Ht)];
     intros r r' Hin Hout _; destruct Hout; rewrite (touched_ids _ _ Ht); by apply list_elem_of_fmap_2).
Qed.
Lemma history_ok (ops : list campaign_op) : forall l,
  Forall op_ok ops -> campaigns_ok l -> campaigns_ok (foldl (run_campaign_op parse_date) l ops).
Proof.
  induction ops as [|op ops IH]; intros l Ho Hl; [done|]. inversion_clear Ho. cbn. apply IH; [done|].
  by apply op_preserves.
Qed.
Lemma no_campaigns_ok : campaigns_ok [].
Proof. constructor; [cbn; lia|constructor|done]. Qed.

Lemma pushed_samples {B} (f : CampaignRecord -> B -> CampaignRecord) (l : list B) (r : CampaignRecord) :
  (forall r b, ca_samples (f r b) = ca_samples r) -> ca_samples (foldl f r l) = ca_samples r.
Proof. intros Hf. revert r. induction l as [|b l IH]; intros r; cbn; [done|]. by rewrite IH. Qed.
Lemma pushFailure_samples (at_ : string) (crash : TimelineCrash) (r : CampaignRecord) :
  ca_samples (pushFailure parse_date at_ crash r) = ca_samples r.
Proof. unfold pushFailure. destruct (bool_decide _); [done|]. cbv zeta. by destruct (existsb _ _). Qed.
Lemma add_sample_samples (at_ : string) (sample : TimelineSample) (r : CampaignRecord) :
  ca_samples (add_sample_to parse_date at_ sample r)
  = trimOldest parse_date (ca_samples r ++ [stored_sample at_ sample]) MAX_STORED_SAMPLES ts_at.
Proof.
  unfold add_sample_to. cbv zeta. fold (stored_sample at_ sample). destruct (ts_crashes sample) as [[|c crashes]|];
    (rewrite pushed_samples by (intros; apply pushFailure_samples)); reflexivity.
Qed.

End Registry_invariant.

(** ** The bounds *)

(** The registry stays bounded and keeps the newest.  Over every history of
    registrations, samples, markers, failures and status changes (instants of creation
    with years of four digits): there are at most a thousand campaigns, under distinct
    ids that are not empty; each has at most 20000 samples, 5000 failures and 1000
    markers, failures and markers have distinct ids, no failure has an empty signature
    and no stored count is negative.  The next operation drops a campaign only if it is
    no newer than every one that stays, and never leaves fewer; and the samples it drops
    from a campaign are no newer than those it keeps. *)
Theorem registry_bounded (parse_date : string -> option Z) (ops : list campaign_op) (op : campaign_op) :
  (forall t, iso_range t -> parse_date (to_iso_string t) = Some t) ->
  Forall (op_ok parse_date) ops -> op_ok parse_date op ->
  let l := foldl (run_campaign_op parse_date) [] ops in
  let l' := run_campaign_op parse_date l op in
  campaigns_ok parse_date l' /\ evicted parse_date l l' /\ (length l <= length l')%nat /\
  forall campaignId sample r at_, op = op_sample campaignId sample -> find_campaign campaignId l = Some r ->
    isoOrNull parse_date (Some (ts_at sample)) = Some at_ ->
    exists r', find_campaign campaignId l' = Some r' /\
      newest_of (fun s => instant parse_date (ts_at s)) (ca_samples r ++ [stored_sample at_ sample]) (ca_samples r')
        MAX_STORED_SAMPLES.
Proof.
  intros Hiso Hops Hop l. pose proof (history_ok parse_date Hiso ops [] Hops (no_campaigns_ok _)) as Hl. fold l in Hl.
  pose proof (op_preserves parse_date Hiso l op Hop Hl) as (H1 & H2 & H3). split_and!; [done..|].
  intros id sample r at_ -> Hf Hat. cbn [run_campaign_op]. unfold recordCampaignSample. rewrite Hf, Hat. cbn [fst].
  rewrite find_update by (intros r0; apply add_sample_keeps). rewrite Hf. eexists. split; [done|].
  rewrite add_sample_samples. apply trimOldest_newest.
Qed.

Definition campaign_ops : list campaign_op :=
  [register_plain " c1 " None; register_plain "c2" (Some (to_iso_string 4000)); register_plain " " None;
   op_sample "c1" (mkTimelineSample (to_iso_string 8000) (Some 3) None ["x"]%string None)].
Lemma registry_bounded_witness :
  let op := op_sample "c1" (mkTimelineSample (to_iso_string 7000) (Some 1) (Some (-2)) ["y"]%string None) in
  let l := foldl (run_campaign_op date_parse) [] campaign_ops in
  let l' := run_campaign_op date_parse l op in
  (ca_id <$> l') = ["c1"; "c2"]%string /\ campaigns_ok date_parse l' /\
  exists r r', find_campaign "c1" l = Some r /\ find_campaign "c1" l' = Some r' /\ length (ca_samples r') = 2%nat /\
    newest_of (fun s => instant date_parse (ts_at s))
      (ca_samples r ++ [stored_sample (to_iso_string 7000) (mkTimelineSample (to_iso_string 7000) (Some 1) (Some (-2)) ["y"]%string None)])
      (ca_samples r') MAX_STORED_SAMPLES.
Proof.
  set (op := op_sample _ _). assert (Hr : iso_range 5000) by (unfold iso_range; lia).
  assert (Hops : Forall (op_ok date_parse) campaign_ops).
  { assert (Hplain : forall id, op_ok date_parse (register_plain id None)) by (intros id; split; [exact Hr|done]).
    apply Forall_cons. split; [apply Hplain|]. apply Forall_cons. split.
    - split; [exact Hr|]. intros v t [= <-] E. vm_compute in E. injection E as <-. unfold iso_range. lia.
    - apply Forall_cons. split; [apply Hplain|]. by repeat constructor. }
  destruct (registry_bounded date_parse campaign_ops op date_parse_iso Hops I) as (H1 & _ & _ & H4).
  split; [vm_compute; done|]. split; [exact H1|].
  destruct (find_campaign "c1" (foldl (run_campaign_op date_parse) [] campaign_ops)) as [r|] eqn:E; [|vm_compute in E; done].
  exists r. destruct (H4 "c1"%string _ r (to_iso_string 7000) eq_refl E) as (r' & E' & H).
  { vm_compute. done. }
  exists r'. split; [done|]. split; [exact E'|]. split; [|exact H].
  assert (length (ca_samples r) = 1%nat) as Hlen by (vm_compute in E; injection E as <-; done).
  apply newest_length in H. rewrite H, length_app, Hlen. unfold MAX_STORED_SAMPLES. cbn [length]. lia.
Defined.
