(* ===== verification/CampaignTimelineRoute.v ===== *)
(** [GET /api/campaigns/[id]/timeline] ([app/api/campaigns/[id]/timeline/route.ts]) and
    the registration that [POST /api/campaigns] makes for it: the admission of
    [CreateCampaign] and the registry of [CampaignRegistry], composed as the two routes
    compose them. *)

From S2P Require Import Prelude JsDate JsString JsNumber JsValue CronParser CronNextRun Quotas CapacityLedger Idempotency CreateCampaign QueryCompiler CampaignTimeline CampaignRegistry.
From stdpp Require Import base list sets fin_sets gmap strings numbers sorting.
From Stdlib Require Import ZArith Lia Ascii.
#[local] Open Scope Z_scope.

(** ** The registration *)

Definition string_field (key : string) (payload : fields) : option string :=
  match prop key payload with Some (JStr s) => Some s | _ => None end.
Definition registration_of (payload : fields) (r : CampaignResponse) : RegisterCampaignInput :=
  mkRegisterInput (campaign_id (campaign r))
    (match string_field "name" payload with
     | Some name => if 0 <? js_length (trim name) then Some (trim name) else None
     | None => None end)
    (Some cs_queued) (string_field "createdAt" (campaign r)) None None
    (Some (mkTarget (string_field "area" payload) (string_field "preset" payload)
             (Some (req_seeds (cr_resources (capacity r)))) (Some (req_workers (cr_resources (capacity r)))))).

Inductive TimelineReply : Type :=
  | tr_error (status : Z) (message : string)
  | tr_series (series : TimelineSeries) (record : CampaignRecord).

Section Route.
Context (parse_date : string -> option Z).
Context (digest : json -> string) (limits : QuotaLimits) (windows : SchedulingWindows).

(** The last segment of an admitted request also registers its campaign. *)
Definition registering_step (w : World) (l : list CampaignRecord) (rq : Request) (p : Phase) (now : Z)
  : World * list CampaignRecord * Phase :=
  let '(w', p') := request_step digest limits windows w rq p now in
  (w', match p with
       | PStored _ r _ => (registerCampaign parse_date (registration_of (rq_payload rq) r) now l).1
       | _ => l end, p').
Definition createAndRegister (w : World) (l : list CampaignRecord) (rq : Request) (now : Z)
  : World * list CampaignRecord * Phase :=
  let step := fun s : World * list CampaignRecord * Phase => registering_step s.1.1 s.1.2 rq s.2 now in
  step (step (step (step (w, l, PStart)))).

(** ** The query *)

(** [None]: not a timestamp. *)
Definition parseIsoQuery (value : option string) : option (option Z) :=
  match value with
  | None => Some None
  | Some v => if bool_decide (trim v = EmptyString) then Some None
              else match parse_date v with Some t => Some (Some t) | None => None end
  end.
(** A finite double that is an integer. *)
Definition integer_of (d : Double) : option Z := if floor_double d =? ceil_double d then Some (floor_double d) else None.
Definition parseBucketsQuery (value : option string) : option Z :=
  match value with
  | None => Some DEFAULT_TIMELINE_BUCKETS
  | Some v =>
      if bool_decide (trim v = EmptyString) then Some DEFAULT_TIMELINE_BUCKETS
      else match finite_number v with
           | None => None
           | Some d => match integer_of d with
                       | None => None
                       | Some n => if n <? 1 then None else Some (Z.min n MAX_TIMELINE_BUCKETS) end
           end
  end.
Definition inverted (from to_ : option Z) : bool := match from, to_ with Some a, Some b => b <? a | _, _ => false end.
Definition getTimeline (id : string) (from to_ buckets : option string) (now : Z) (l : list CampaignRecord)
  : TimelineReply :=
  if bool_decide (id = EmptyString) then tr_error 400 "Campaign id is required."
  else match parseIsoQuery from, parseIsoQuery to_ with
  | None, _ => tr_error 400 (cat [quoted "from"; " must be an ISO-8601 timestamp."])
  | _, None => tr_error 400 (cat [quoted "to"; " must be an ISO-8601 timestamp."])
  | Some start, Some end_ =>
      if inverted start end_ then tr_error 400 (cat [quoted "from"; " must not be after "; quoted "to"; "."])
      else match parseBucketsQuery buckets with
      | None => tr_error 400 (cat [quoted "buckets"; " must be a positive integer."])
      | Some n =>
          match buildCampaignTimelineFor parse_date id (to_iso_string <$> start) (to_iso_string <$> end_)
                  (req_number n 1) now l with
          | None => tr_error 404 "Campaign not found."
          | Some (series, record) => tr_series series record
          end
      end
  end.
End Route.

(** *** By hand *)

Definition posted : World * list CampaignRecord * Phase :=
  createAndRegister date_parse (fun _ => "d"%string) limit8 no_windows (mkWorld empty_ledger ∅ []) []
    (sample_rq None "c1" 3) 1609459200000.
Definition reply_code (r : TimelineReply) : Z := match r with tr_error code _ => code | tr_series _ _ => 200 end.
Example routes_by_hand :
  let l := posted.1.2 in
  reply_code (getTimeline date_parse "c1" None (Some " "%string) (Some "12"%string) 5 l) = 200 /\
  reply_code (getTimeline date_parse "c1" None None (Some "1.5"%string) 5 l) = 400 /\
  reply_code (getTimeline date_parse "c1" (Some "1970-01-02"%string) (Some "1970-01-01"%string) None 5 l) = 400 /\
  reply_code (getTimeline date_parse "c2" None None None 5 l) = 404.
Proof. vm_compute. done. Qed.

(** ** Registration happens exactly on creation *)

Section Composition.
Context (parse_date : string -> option Z) (Hiso : forall t, iso_range t -> parse_date (to_iso_string t) = Some t).
Context (digest : json -> string) (limits : QuotaLimits) (windows : SchedulingWindows).

(** The registry after a request that started from [l]. *)
Definition registered (rq : Request) (now : Z) (l : list CampaignRecord) (p : Phase) : list CampaignRecord :=
  match p with
  | PDone (Created r) => (registerCampaign parse_date (registration_of (rq_payload rq) r) now l).1
  | _ => l
  end.
Definition not_created (p : Phase) : Prop := match p with PDone (Created _) => False | _ => True end.

Lemma rejected_not_created (w : World) (rq : Request) (key : option string) (resources : CampaignResourceRequest)
    (reason : option string) (reply : Reply) (now : Z) :
  not_created (PDone reply) -> not_created (rejected_segment w rq key resources reason reply now).2.
Proof. intros H. unfold rejected_segment. destruct reason; [|done]. by destruct (rq_maintainer rq). Qed.
Lemma replay_not_created (rec : IdempotencyRecord CampaignResponse) (payload : fields) :
  not_created (PDone (replayOrReject digest rec payload)).
Proof. unfold replayOrReject. by case_decide. Qed.

(** Only the last segment creates. *)
Lemma step_created (w : World) (rq : Request) (p : Phase) (now : Z) :
  match p with
  | PStored _ r _ => (request_step digest limits windows w rq p now).2 = PDone (Created r)
  | PDone reply => request_step digest limits windows w rq p now = (w, PDone reply)
  | _ => not_created (request_step digest limits windows w rq p now).2
  end.
Proof.
  destruct p as [|key|key resources who checked|key r who|reply]; cbn [request_step]; [| | |done|done].
  - unfold lookup_segment. destruct (parseIdempotencyKey _) as [[key|]|]; [|done|done].
    destruct (store_get _ _ _ _) as [store' [existing|]]; [apply replay_not_created|done].
  - unfold check_segment. destruct (deriveCampaignRequest _) as [res|]; [|done].
    destruct (parseOverrideReason _) as [reason|]; [|done].
    destruct (evaluateCampaignAdmission _ _ _ _ _); [done|by apply rejected_not_created..].
  - unfold put_segment. cbv zeta. destruct key as [k|]; [|done].
    destruct (putIfAbsent _ _ _) as [[store' winner] [|]]; [done|apply replay_not_created].
Qed.

Lemma registering_once (rq : Request) (now : Z) (w : World) (l : list CampaignRecord) (p : Phase) :
  let s := registering_step parse_date digest limits windows w (registered rq now l p) rq p now in
  s.1.2 = registered rq now l s.2 /\ (s.1.1, s.2) = request_step digest limits windows w rq p now.
Proof.
  pose proof (step_created w rq p now) as H. unfold registering_step.
  destruct (request_step digest limits windows w rq p now) as [w' p'] eqn:E. cbn [fst snd].
  split; [|done]. destruct p as [|key|key resources who checked|key r who|reply]; cbn [snd] in H.
  4: { cbn in H. subst p'. done. }
  4: { injection H as -> ->. done. }
  all: destruct p' as [| | | |[]]; done.
Qed.

Lemma createAndRegister_spec (w : World) (l : list CampaignRecord) (rq : Request) (now : Z) :
  let s := createAndRegister parse_date digest limits windows w l rq now in
  s.1.2 = registered rq now l s.2 /\ (s.1.1, s.2) = createCampaign digest limits windows w rq now.
Proof.
  set (step := fun s : World * list CampaignRecord * Phase =>
    registering_step parse_date digest limits windows s.1.1 s.1.2 rq s.2 now).
  set (bare := fun wp : World * Phase => request_step digest limits windows wp.1 rq wp.2 now).
  assert (Hstep : forall s wp, s.1.2 = registered rq now l s.2 -> (s.1.1, s.2) = wp ->
    (step s).1.2 = registered rq now l (step s).2 /\ ((step s).1.1, (step s).2) = bare wp).
  { intros [[w0 l0] p0] wp Hl <-. cbn [fst snd] in Hl. subst l0. apply registering_once. }
  destruct (Hstep (w, l, PStart) (w, PStart) eq_refl eq_refl) as [H1 E1].
  destruct (Hstep _ _ H1 E1) as [H2 E2]. destruct (Hstep _ _ H2 E2) as [H3 E3]. exact (Hstep _ _ H3 E3).
Qed.

(** What a registration leaves under its id while there is room. *)
Lemma register_find (input : RegisterCampaignInput) (now : Z) (l : list CampaignRecord) :
  trim (ri_id input) <> EmptyString -> (length l < MAX_STORED_CAMPAIGNS)%nat ->
  exists r, find_campaign (trim (ri_id input)) (registerCampaign parse_date input now l).1 = Some r /\
    ca_id r = trim (ri_id input) /\
    match find_campaign (trim (ri_id input)) l with
    | Some old => r = refresh parse_date input old
    | None => ca_status r = default cs_queued (ri_status input) /\ ca_samples r = [] /\ ca_failures r = [] /\
              tm_kind <$> ca_markers r = [campaign_start]
    end.
Proof.
  intros Hid Hlen. unfold registerCampaign. cbv zeta. destruct (bool_decide_reflect (trim (ri_id input) = EmptyString)); [done|].
  pose proof (find_campaign_spec (trim (ri_id input)) l) as Hf.
  destruct (find_campaign (trim (ri_id input)) l) as [old|] eqn:E; cbn [fst].
  - rewrite find_update, E by done. eexists. split; [done|]. split; [apply Hf|done].
  - set (record := mkCampaignRecord _ _ _ _ _ _ _ _ _ _ _). exists record.
    unfold evictOldestCampaignIfNeeded. rewrite length_app. cbn [length].
    rewrite (proj2 (Nat.leb_le _ _)) by lia. split; [|by split_and!].
    unfold find_campaign in *. revert E. clear. induction l as [|r l IH]; cbn [List.find app].
    + intros _. by rewrite bool_decide_eq_true_2 by done.
    + destruct (bool_decide (ca_id r = trim (ri_id input))); [done|exact IH].
Qed.
End Composition.

(** ** The two routes *)


Lemma buckets_query_bounds (value : option string) (n : Z) :
  parseBucketsQuery value = Some n -> 1 <= n <= MAX_TIMELINE_BUCKETS.
Proof.
  unfold parseBucketsQuery, DEFAULT_TIMELINE_BUCKETS, MAX_TIMELINE_BUCKETS. destruct value as [v|]; [|intros [= <-]; lia].
  destruct (bool_decide _); [intros [= <-]; lia|]. destruct (finite_number v) as [d|]; [|done].
  destruct (integer_of d) as [k|]; [|done]. destruct (Z.ltb_spec k 1); [done|]. intros [= <-]. lia.
Qed.
(** A request within the cap is kept, and is not reported as clamped. *)
Lemma build_requested (parse_date : string -> option Z) (input : TimelineInput) (n : Z) :
  tn_buckets input = req_number n 1 -> 1 <= n <= MAX_TIMELINE_BUCKETS ->
  let out := buildCampaignTimeline parse_date input in
  tl_campaignId out = tn_campaignId input /\ tl_requestedBuckets out = n /\
  tl_downsampled out = (tl_bucketCount out <? tl_sampledPoints out).
Proof.
  intros Hn Hb. unfold buildCampaignTimeline. destruct (timeline_range parse_date input) as [start end_]. cbv zeta.
  cbn [tl_campaignId tl_requestedBuckets tl_downsampled tl_bucketCount tl_sampledPoints]. rewrite Hn.
  unfold over_cap. rewrite (proj2 (Z.ltb_ge _ _)) by lia. split_and!; [done| |done].
  unfold clampBucketCount. rewrite Z.div_1_r. lia.
Qed.

(** The timeline route answers every request, and says what is wrong with it: 400
    exactly for an empty id, a bound that is not a timestamp, bounds in the wrong order or a
    number of buckets that is not a positive integer; 404 for an id that is not
    registered; and otherwise the series over the stored samples, markers and failures
    of that campaign, for the requested bounds and for the requested number of buckets,
    cut to 500.  Such a cut is never reported as downsampling. *)
Theorem timeline_route_spec (parse_date : string -> option Z) (id : string) (from to_ buckets : option string)
    (now : Z) (l : list CampaignRecord) :
  let bad := id = EmptyString \/ parseIsoQuery parse_date from = None \/ parseIsoQuery parse_date to_ = None \/
    (exists a b, parseIsoQuery parse_date from = Some (Some a) /\ parseIsoQuery parse_date to_ = Some (Some b) /\ b < a) \/
    parseBucketsQuery buckets = None in
  match getTimeline parse_date id from to_ buckets now l with
  | tr_error code _ => (code = 400 /\ bad) \/ (code = 404 /\ ~ bad /\ id ∉ ca_id <$> l)
  | tr_series series record =>
      ~ bad /\ record ∈ l /\ ca_id record = id /\
      exists start end_ n, parseIsoQuery parse_date from = Some start /\ parseIsoQuery parse_date to_ = Some end_ /\
        parseBucketsQuery buckets = Some n /\ 1 <= n <= MAX_TIMELINE_BUCKETS /\
        series = buildCampaignTimeline parse_date
          (mkTimelineInput id (ca_samples record) (ca_markers record) (ca_failures record)
             (to_iso_string <$> start) (to_iso_string <$> end_) (req_number n 1) now) /\
        tl_campaignId series = id /\ tl_requestedBuckets series = n /\
        tl_downsampled series = (tl_bucketCount series <? tl_sampledPoints series)
  end.
Proof.
  intros bad. unfold getTimeline. destruct (bool_decide_reflect (id = EmptyString)) as [|Hid]; [left; split; [done|by left]|].
  destruct (parseIsoQuery parse_date from) as [start|] eqn:Ef; [|left; split; [done|by right; left]].
  destruct (parseIsoQuery parse_date to_) as [end_|] eqn:Et; [|left; split; [done|by right; right; left]].
  destruct (inverted start end_) eqn:Ei.
  { left. split; [done|]. right; right; right; left. destruct start as [a|], end_ as [b|]; try done.
    exists a, b. split_and!; [done..|]. by apply Z.ltb_lt. }
  destruct (parseBucketsQuery buckets) as [n|] eqn:En; [|left; split; [done|by do 4 right]].
  assert (Hgood : ~ bad).
  { intros [?|[?|[?|[(a & b & [= ->] & [= ->] & Hlt)|?]]]]; try done. cbn in Ei. apply Z.ltb_ge in Ei. lia. }
  pose proof (find_campaign_spec id l) as Hf. unfold buildCampaignTimelineFor.
  destruct (find_campaign id l) as [record|]; [|by right]. destruct Hf as [Hin Hrid].
  pose proof (buckets_query_bounds buckets n En) as Hn. cbn [mbind option_bind].
  set (input := mkTimelineInput _ _ _ _ _ _ _ _).
  destruct (build_requested parse_date input n eq_refl Hn) as (H1 & H2 & H3).
  split; [exact Hgood|]. split; [exact Hin|]. split; [exact Hrid|]. exists start, end_, n.
  split_and!; [done|done|done|apply Hn|apply Hn|reflexivity|exact H1|exact H2|exact H3].
Qed.
