(* ===== verification/FailureClusters.v ===== *)
(** [app/failureClusters.ts]: failed runs grouped by their exact cluster key, at once
    and through hash buckets.

    A [Map] is the list of its entries in insertion order.  The collation
    [localeCompare] is an argument. *)

From S2P Require Import Prelude JsString CampaignTimeline FailureClustering.
From stdpp Require Import base list sets gmap strings numbers sorting.
From Stdlib Require Import ZArith Lia Ascii.
#[local] Open Scope Z_scope.
#[local] Arguments String.append !_ _ / : simpl nomatch.

(** The fields of a [FuzzingRun] the clusters read; the crash is its signature and its
    category. *)
Record ClusteredRun : Type := mkClusteredRun
  { fr_id : string; fr_failed : bool; fr_area : string; fr_severity : string; fr_crash : option (string * string) }.
Record RunCluster : Type := mkRunCluster
  { rc_id : string; rc_signature : string; rc_failureCategory : string; rc_area : string; rc_severity : string;
    rc_count : Z; rc_representativeRunId : string; rc_relatedRunIds : list string }.

Definition key_of_crash (signature failureCategory area severity : string) : string :=
  (signature ++ "::" ++ failureCategory ++ "::" ++ area ++ "::" ++ severity)%string.
Definition buildClusterKey (run : ClusteredRun) : option string :=
  match fr_crash run with
  | None => None
  | Some (signature, failureCategory) => Some (key_of_crash signature failureCategory (fr_area run) (fr_severity run))
  end.
(** The key of a run that is grouped: failed, with a crash. *)
Definition grouping_key (run : ClusteredRun) : option string := if fr_failed run then buildClusterKey run else None.

Definition djb2_step (h : Z) (c : ascii) : Z := to_int32 (to_int32 (h * 32) + h + code c).
Fixpoint base36 (n : nat) (z : Z) (rest : string) : string :=
  match n with
  | O => rest
  | S n' =>
      let d := z mod 36 in
      let rest' := String (ascii_of_nat (Z.to_nat (if d <? 10 then 48 + d else 87 + d))) rest in
      if z <? 36 then rest' else base36 n' (z / 36) rest'
  end.
(** Seven digits hold every 32-bit integer. *)
Definition hashBucketKey (input : string) : string :=
  String "b" (base36 7 (to_uint32 (foldl djb2_step 5381 (String.list_ascii_of_string input))) EmptyString).

(** ** Aggregation *)

Definition cluster_from (key : string) (run : ClusteredRun) : RunCluster :=
  mkRunCluster key (default EmptyString (fst <$> fr_crash run)) (default EmptyString (snd <$> fr_crash run))
    (fr_area run) (fr_severity run) 1 (fr_id run) [fr_id run].
Definition count_run (run : ClusteredRun) (c : RunCluster) : RunCluster :=
  mkRunCluster (rc_id c) (rc_signature c) (rc_failureCategory c) (rc_area c) (rc_severity c) (rc_count c + 1)
    (rc_representativeRunId c) (rc_relatedRunIds c ++ [fr_id run]).
Definition aggregate_run (clusters : list RunCluster) (run : ClusteredRun) : list RunCluster :=
  match grouping_key run with
  | None => clusters
  | Some key =>
      if existsb (fun c => bool_decide (rc_id c = key)) clusters
      then (fun c => if bool_decide (rc_id c = key) then count_run run c else c) <$> clusters
      else clusters ++ [cluster_from key run]
  end.
Definition aggregateClusters (runs : list ClusteredRun) : list RunCluster := foldl aggregate_run [] runs.

Section Build.
Context (locale_compare : string -> string -> Z).

Definition compare_clusters (left right : RunCluster) : Z :=
  if negb (rc_count right =? rc_count left) then rc_count right - rc_count left
  else locale_compare (rc_signature left) (rc_signature right).
Definition sortClusters (clusters : list RunCluster) : list RunCluster :=
  sort_by (fun a b => compare_clusters a b <=? 0) clusters.
Definition buildFailureClustersLegacy (runs : list ClusteredRun) : list RunCluster := sortClusters (aggregateClusters runs).

Definition bucket_run (buckets : list (string * list ClusteredRun)) (run : ClusteredRun) : list (string * list ClusteredRun) :=
  match grouping_key run with
  | None => buckets
  | Some key =>
      let bucketKey := hashBucketKey key in
      if existsb (fun b => bool_decide (b.1 = bucketKey)) buckets
      then (fun b => if bool_decide (b.1 = bucketKey) then (b.1, b.2 ++ [run]) else b) <$> buckets
      else buckets ++ [(bucketKey, [run])]
  end.
Definition buildFailureClusters (runs : list ClusteredRun) : list RunCluster :=
  let buckets := foldl bucket_run [] runs in
  sortClusters (concat ((fun b => aggregateClusters b.2) <$> buckets)).
End Build.

Definition upper_first (s : string) : string :=
  match s with
  | String c s' => String (if (97 <=? code c) && (code c <=? 122) then ascii_of_nat (Z.to_nat (code c - 32)) else c) s'
  | EmptyString => EmptyString
  end.
Definition formatAreaLabel (area : string) : string := upper_first area.
Definition describeFailureCluster (cluster : RunCluster) : string :=
  (rc_failureCategory cluster ++ " in " ++ formatAreaLabel (rc_area cluster) ++ " (" ++ rc_severity cluster ++ ")")%string.

(** *** By hand *)

Definition failed_run (id signature category : string) : ClusteredRun :=
  mkClusteredRun id true "auth" "high" (Some (signature, category)).
Example clusters_by_hand :
  (fun c => (rc_count c, rc_relatedRunIds c, describeFailureCluster c)) <$>
    buildFailureClusters code_compare
      [failed_run "r1" "b" "Panic"; failed_run "r2" "a" "Panic"; mkClusteredRun "r3" false "auth" "high" (Some ("b", "Panic"));
       failed_run "r4" "b" "Panic"; failed_run "r5" "A" "Panic"]%string
  = [(2, ["r1"; "r4"], "Panic in Auth (high)"); (1, ["r5"], "Panic in Auth (high)"); (1, ["r2"], "Panic in Auth (high)")]%string.
Proof. vm_compute. done. Qed.
(** Two categories whose keys share a bucket, and a third between them: equal counts and
    signatures come out in another order. *)
Example buckets_reorder_ties :
  let runs := [failed_run "r1" "s" "ab"; failed_run "r2" "s" "zz"; failed_run "r3" "s" "bA"]%string in
  rc_failureCategory <$> buildFailureClustersLegacy code_compare runs = ["ab"; "zz"; "bA"]%string /\
  rc_failureCategory <$> buildFailureClusters code_compare runs = ["ab"; "bA"; "zz"]%string.
Proof. vm_compute. done. Qed.
(** The separator can occur in a signature: two crashes, one cluster. *)
Example keys_ambiguous :
  length (buildFailureClusters code_compare [failed_run "r1" "a::b" "c"; failed_run "r2" "a" "b::c"]) = 1%nat.
Proof. vm_compute. done. Qed.

(** ** Keys in order of their first appearance *)

Definition firsts (l : list string) : list string := foldl add_distinct [] l.

Lemma firsts_snoc (l : list string) (k : string) :
  firsts (l ++ [k]) = if bool_decide (k ∈ l) then firsts l else firsts l ++ [k].
Proof.
  unfold firsts. rewrite foldl_app. cbn. unfold add_distinct at 1.
  rewrite (bool_decide_ext _ (k ∈ l)); [done|]. destruct (add_all_distinct l []) as [_ H]. rewrite H.
  pose proof (not_elem_of_nil k). tauto.
Qed.
Lemma elem_of_firsts (l : list string) (k : string) : k ∈ firsts l <-> k ∈ l.
Proof. destruct (add_all_distinct l []) as [_ H]. unfold firsts. rewrite H. pose proof (not_elem_of_nil k). tauto. Qed.
Lemma firsts_nodup (l : list string) : NoDup (firsts l).
Proof. apply (add_all_distinct l []). constructor. Qed.
Lemma firsts_filter (p : string -> bool) (l : list string) : firsts (List.filter p l) = List.filter p (firsts l).
Proof.
  induction l as [|k l IH] using rev_ind; [done|]. rewrite List.filter_app, firsts_snoc. cbn.
  destruct (p k) eqn:E.
  - rewrite firsts_snoc, IH. assert (Hiff : k ∈ List.filter p l <-> k ∈ l).
    { rewrite !list_elem_of_In, filter_In. tauto. }
    rewrite (bool_decide_ext _ _ Hiff). case_bool_decide; [done|]. rewrite List.filter_app. cbn. by rewrite E.
  - rewrite app_nil_r, IH. case_bool_decide; [done|]. rewrite List.filter_app. cbn. by rewrite E, app_nil_r.
Qed.
Lemma firsts_map (f : string -> string) (l : list string) :
  (forall a b, a ∈ l -> b ∈ l -> f a = f b -> a = b) -> firsts (f <$> l) = f <$> firsts l.
Proof.
  induction l as [|k l IH] using rev_ind; intros Hinj; [done|].
  rewrite fmap_app. cbn [fmap list_fmap]. rewrite !firsts_snoc, IH.
  2: { intros a b Ha Hb. apply Hinj; apply elem_of_app; by left. }
  assert (Hiff : f k ∈ f <$> l <-> k ∈ l).
  { split; [|apply list_elem_of_fmap_2]. intros (a & E & Ha)%list_elem_of_fmap.
    apply Hinj in E as ->; [done|apply elem_of_app; right; by left|apply elem_of_app; by left]. }
  rewrite (bool_decide_ext _ _ Hiff). case_bool_decide; [done|]. by rewrite fmap_app.
Qed.

(** A table kept in insertion order: the entry of a key is a function of its own items. *)
Section Table.
Context {R E : Type} (key : R -> option string) (id_of : E -> string) (fresh : string -> R -> E) (join : R -> E -> E).
Hypothesis fresh_id : forall k r, id_of (fresh k r) = k.
Hypothesis join_id : forall r e, id_of (join r e) = id_of e.

Definition table_add (t : list E) (r : R) : list E :=
  match key r with
  | None => t
  | Some k =>
      if existsb (fun e => bool_decide (id_of e = k)) t
      then (fun e => if bool_decide (id_of e = k) then join r e else e) <$> t
      else t ++ [fresh k r]
  end.
Definition own (k : string) (rs : list R) : list R := List.filter (fun r => bool_decide (key r = Some k)) rs.
Definition entry (k : string) (rs : list R) : option E :=
  match own k rs with [] => None | r :: rs' => Some (foldl (fun e r => join r e) (fresh k r) rs') end.
Definition entries (rs : list R) : list E := omap (fun k => entry k rs) (firsts (omap key rs)).

Lemma entry_id (k : string) (rs : list R) (e : E) : entry k rs = Some e -> id_of e = k.
Proof.
  assert (Hfold : forall l e0, id_of (foldl (fun e r => join r e) e0 l) = id_of e0).
  { induction l as [|r' l IH]; intros e0; cbn; [done|]. by rewrite IH, join_id. }
  unfold entry. destruct (own k rs) as [|r own_rs]; [done|]. intros [= <-]. by rewrite Hfold.
Qed.
Lemma own_snoc (k : string) (rs : list R) (r : R) :
  own k (rs ++ [r]) = own k rs ++ (if bool_decide (key r = Some k) then [r] else []).
Proof. unfold own. rewrite List.filter_app. cbn. by destruct (bool_decide (key r = Some k)). Qed.
Lemma entry_other (k : string) (rs : list R) (r : R) : key r <> Some k -> entry k (rs ++ [r]) = entry k rs.
Proof. intros H. unfold entry. by rewrite own_snoc, bool_decide_eq_false_2, app_nil_r. Qed.
Lemma entry_same (k : string) (rs : list R) (r : R) : key r = Some k ->
  entry k (rs ++ [r]) = match entry k rs with None => Some (fresh k r) | Some e => Some (join r e) end.
Proof.
  intros H. unfold entry. rewrite own_snoc, bool_decide_eq_true_2 by done. destruct (own k rs) as [|r0 l]; cbn; [done|].
  by rewrite foldl_app.
Qed.
Lemma entry_some (k : string) (rs : list R) : k ∈ omap key rs <-> is_Some (entry k rs).
Proof.
  unfold entry. rewrite list_elem_of_omap. split.
  - intros (r & Hr & Hk). destruct (own k rs) as [|r0 l] eqn:Ho; [|by eexists].
    assert (Hin : In r (own k rs)).
    { apply filter_In. split; [by apply list_elem_of_In|by apply bool_decide_eq_true]. }
    rewrite Ho in Hin. destruct Hin.
  - destruct (own k rs) as [|r0 l] eqn:Ho; [by intros [? ?]|]. intros _. exists r0.
    assert (Hin : In r0 (own k rs)) by (rewrite Ho; by left). apply filter_In in Hin as [Hin Hk].
    apply bool_decide_eq_true in Hk. split; [by apply list_elem_of_In|done].
Qed.
Lemma omap_update (k : string) (rs : list R) (r : R) (ks : list string) : key r = Some k ->
  (forall k', k' ∈ ks -> is_Some (entry k' rs)) ->
  (fun e => if bool_decide (id_of e = k) then join r e else e) <$> omap (fun k' => entry k' rs) ks
  = omap (fun k' => entry k' (rs ++ [r])) ks.
Proof.
  intros Hk. induction ks as [|k' ks IH]; intros Hall; [done|]. rewrite !omap_step, fmap_app, IH.
  2: { intros k'' H. apply Hall. by right. }
  f_equal. destruct (Hall k' ltac:(by left)) as [e He]. rewrite He. cbn. rewrite (entry_id _ _ _ He).
  destruct (bool_decide_reflect (k' = k)) as [->|Hne].
  - by rewrite (entry_same _ _ _ Hk), He.
  - rewrite entry_other by congruence. by rewrite He.
Qed.
Lemma table_entries (rs : list R) : foldl table_add [] rs = entries rs.
Proof.
  induction rs as [|r rs IH] using rev_ind; [done|]. rewrite foldl_app. cbn. rewrite IH. unfold table_add, entries.
  rewrite omap_app. cbn. destruct (key r) as [k|] eqn:Hk; cbn.
  2: { rewrite app_nil_r. apply list_omap_ext, Forall_Forall2_diag, Forall_forall.
       intros k' _. by rewrite entry_other by congruence. }
  assert (Hex : existsb (fun e => bool_decide (id_of e = k)) (omap (fun k' => entry k' rs) (firsts (omap key rs)))
                = bool_decide (k ∈ omap key rs)).
  { apply Bool.eq_iff_eq_true. rewrite existsb_exists, bool_decide_eq_true, entry_some. split.
    - intros (e & He & Eid). apply bool_decide_eq_true in Eid. apply list_elem_of_In, list_elem_of_omap in He as (k' & _ & He).
      rewrite (entry_id _ _ _ He) in Eid. subst k'. by eexists.
    - intros [e He]. exists e. rewrite (entry_id _ _ _ He). split; [|by apply bool_decide_eq_true].
      apply list_elem_of_In, list_elem_of_omap. exists k. split; [|done]. apply elem_of_firsts, entry_some. by eexists. }
  rewrite Hex, firsts_snoc. case_bool_decide as Hin.
  - apply omap_update; [done|]. intros k' H. rewrite elem_of_firsts in H. exact (proj1 (entry_some k' rs) H).
  - rewrite omap_app. cbn. rewrite (entry_same _ _ _ Hk).
    destruct (entry k rs) eqn:Ee; [exfalso; apply Hin, entry_some; by eexists|]. cbn. f_equal.
    apply list_omap_ext, Forall_Forall2_diag, Forall_forall. intros k' H. rewrite elem_of_firsts in H.
    rewrite entry_other; [done|]. intros E'. rewrite Hk in E'. injection E' as ->. done.
Qed.
End Table.

(** A table that lists a value of each item under its key. *)
Lemma entry_pairs {R B} (key : R -> option string) (f : R -> B) (b : string) (rs : list R) :
  b ∈ omap key rs ->
  entry key (fun b r => (b, [f r])) (fun r e => (e.1, e.2 ++ [f r])) b rs = Some (b, f <$> own key b rs).
Proof.
  intros Hb. apply (entry_some key (fun b r => (b, [f r])) (fun r e => (e.1, e.2 ++ [f r]))) in Hb as [e He].
  rewrite He. unfold entry in He. destruct (own key b rs) as [|r l]; [done|]. injection He as <-. f_equal.
  assert (H : forall l p (acc : list B), foldl (fun e r => (e.1, e.2 ++ [f r])) (p, acc) l = (p : string, acc ++ (f <$> l))).
  { induction l0 as [|x l0 IH]; intros p acc; cbn; [by rewrite app_nil_r|]. by rewrite IH, <- app_assoc. }
  by rewrite H.
Qed.

(** ** Buckets *)

Definition bucket_key (run : ClusteredRun) : option string := hashBucketKey <$> grouping_key run.
Definition own_runs (key : string) (runs : list ClusteredRun) : list ClusteredRun := own grouping_key key runs.
Definition cluster_of (runs : list ClusteredRun) (key : string) : option RunCluster :=
  entry grouping_key cluster_from count_run key runs.
Definition cluster_keys (runs : list ClusteredRun) : list string := firsts (omap grouping_key runs).
Definition in_bucket (b k : string) : bool := bool_decide (hashBucketKey k = b).

Lemma aggregate_entries (runs : list ClusteredRun) : aggregateClusters runs = omap (cluster_of runs) (cluster_keys runs).
Proof. exact (table_entries grouping_key rc_id cluster_from count_run (fun k r => eq_refl) (fun r e => eq_refl) runs). Qed.
Lemma buckets_of (runs : list ClusteredRun) :
  (fun b => aggregateClusters b.2) <$> foldl bucket_run [] runs
  = (fun b => aggregateClusters (own bucket_key b runs)) <$> firsts (omap bucket_key runs).
Proof.
  assert (H : foldl bucket_run [] runs =
    foldl (table_add bucket_key fst (fun b r => (b, [r])) (fun r e => (e.1, e.2 ++ [r]))) [] runs).
  { generalize (@nil (string * list ClusteredRun)). induction runs as [|r runs IH]; intros t; [done|]. cbn [foldl].
    rewrite IH. f_equal. unfold bucket_run, table_add, bucket_key. by destruct (grouping_key r). }
  rewrite H, table_entries by done. unfold entries.
  assert (Hin : forall b, b ∈ firsts (omap bucket_key runs) -> b ∈ omap bucket_key runs).
  { intros b Hb. by rewrite elem_of_firsts in Hb. }
  revert Hin. generalize (firsts (omap bucket_key runs)). induction l as [|b l IH]; intros Hin; [done|].
  rewrite omap_step. pose proof (entry_pairs bucket_key id b runs (Hin b ltac:(by left))) as He. rewrite list_fmap_id in He.
  cbn [id] in He. rewrite He. cbn. f_equal. apply IH. intros b' Hb'. apply Hin. by right.
Qed.

Lemma keys_in_bucket (runs : list ClusteredRun) (b : string) :
  omap grouping_key (own bucket_key b runs) = List.filter (in_bucket b) (omap grouping_key runs).
Proof.
  induction runs as [|r runs IH]; [done|]. unfold own in *. cbn [List.filter]. rewrite omap_step, List.filter_app, <- IH.
  assert (Eb : bool_decide (bucket_key r = Some b) = match grouping_key r with Some k => in_bucket b k | None => false end).
  { unfold bucket_key, in_bucket. destruct (grouping_key r) as [k|]; [|done]. apply bool_decide_ext. cbn. naive_solver. }
  rewrite Eb. destruct (grouping_key r) as [k|] eqn:E; [|done]. cbn. destruct (in_bucket b k); [|done].
  by rewrite omap_step, E.
Qed.
Lemma filter_twice {A} (p q : A -> bool) (l : list A) :
  (forall x, p x = true -> q x = true) -> List.filter p (List.filter q l) = List.filter p l.
Proof.
  intros H. induction l as [|x l IH]; [done|]. cbn. destruct (p x) eqn:Ep.
  - rewrite (H x Ep). cbn. by rewrite Ep, IH.
  - destruct (q x); cbn; [by rewrite Ep, IH|exact IH].
Qed.
Lemma cluster_in_bucket (runs : list ClusteredRun) (k : string) :
  cluster_of (own bucket_key (hashBucketKey k) runs) k = cluster_of runs k.
Proof.
  unfold cluster_of, entry, own. rewrite filter_twice; [done|]. intros r E. apply bool_decide_eq_true in E.
  apply bool_decide_eq_true. unfold bucket_key. by rewrite E.
Qed.
(** The clusters before the sort, bucket by bucket. *)
Lemma merged_entries (runs : list ClusteredRun) :
  concat ((fun b => aggregateClusters b.2) <$> foldl bucket_run [] runs)
  = omap (cluster_of runs)
      (concat ((fun b => List.filter (in_bucket b) (cluster_keys runs)) <$> firsts (hashBucketKey <$> omap grouping_key runs))).
Proof.
  rewrite buckets_of. assert (E : omap bucket_key runs = hashBucketKey <$> omap grouping_key runs).
  { induction runs as [|r runs IH]; [done|]. rewrite !omap_step, fmap_app, IH. unfold bucket_key. by destruct (grouping_key r). }
  rewrite E. generalize (firsts (hashBucketKey <$> omap grouping_key runs)). induction l as [|b l IH]; [done|].
  cbn [fmap list_fmap concat]. rewrite omap_app, IH. f_equal.
  rewrite aggregate_entries. unfold cluster_keys at 1. rewrite keys_in_bucket, firsts_filter. fold (cluster_keys runs).
  apply list_omap_ext, Forall_Forall2_diag, Forall_forall. intros k Hk%list_elem_of_In.
  apply filter_In in Hk as [_ Hk]. apply bool_decide_eq_true in Hk. subst b. apply cluster_in_bucket.
Qed.

Section Spread.
Context (h : string -> string).
Let part (ks : list string) (b : string) : list string := List.filter (fun k => bool_decide (h k = b)) ks.

Lemma part_cons (k : string) (ks bs : list string) : NoDup bs ->
  concat (part (k :: ks) <$> bs) ≡ₚ (if bool_decide (h k ∈ bs) then [k] else []) ++ concat (part ks <$> bs).
Proof.
  induction 1 as [|b bs Hb _ IH]; [done|]. cbn [fmap list_fmap concat]. rewrite IH. unfold part at 1. cbn [List.filter].
  fold (part ks b). destruct (bool_decide_reflect (h k = b)) as [->|Hne].
  - rewrite (bool_decide_eq_true_2 (b ∈ b :: bs)) by by left. rewrite bool_decide_eq_false_2 by done. done.
  - rewrite (bool_decide_ext (h k ∈ b :: bs) (h k ∈ bs)).
    2: { rewrite elem_of_cons. naive_solver. }
    case_bool_decide; [|done]. cbn. by rewrite Permutation_middle.
Qed.
Lemma parts_perm (ks bs : list string) : NoDup bs -> (forall k, k ∈ ks -> h k ∈ bs) -> concat (part ks <$> bs) ≡ₚ ks.
Proof.
  intros Hn. induction ks as [|k ks IH]; intros Hall.
  - clear. induction bs as [|b bs IH]; [done|exact IH].
  - rewrite part_cons by done. rewrite bool_decide_eq_true_2 by (apply Hall; by left). cbn. constructor.
    apply IH. intros k' Hk'. apply Hall. by right.
Qed.
Lemma parts_apart (ks : list string) :
  NoDup ks -> (forall a b, a ∈ ks -> b ∈ ks -> h a = h b -> a = b) -> concat (part ks <$> (h <$> ks)) = ks.
Proof.
  intros Hn Hinj. assert (Hone : forall k, k ∈ ks -> part ks (h k) = [k]).
  { intros k Hk. unfold part. clear -Hn Hinj Hk.
    assert (Hf : forall l, NoDup l -> (forall x, x ∈ l -> x ∈ ks) ->
      List.filter (fun k0 => bool_decide (h k0 = h k)) l = if bool_decide (k ∈ l) then [k] else []).
    { induction 1 as [|x l Hx _ IH]; intros Hsub; [done|]. cbn [List.filter].
      rewrite IH by (intros y Hy; apply Hsub; by right). rewrite (bool_decide_ext (h x = h k) (x = k)).
      2: { split; [|by intros ->]. intros E. apply Hinj; [apply Hsub; by left|done|done]. }
      destruct (bool_decide_reflect (x = k)) as [->|Hne].
      - rewrite bool_decide_eq_false_2 by done. by rewrite bool_decide_eq_true_2 by by left.
      - rewrite (bool_decide_ext (k ∈ x :: l) (k ∈ l)); [done|]. rewrite elem_of_cons. naive_solver. }
    rewrite (Hf ks Hn) by done. by rewrite bool_decide_eq_true_2. }
  clear Hinj. revert Hone. generalize (part ks) as g. intros g. induction Hn as [|k ks _ _ IH]; intros Hone; [done|].
  cbn. rewrite (Hone k) by by left. cbn. f_equal. apply IH. intros k' Hk'. apply Hone. by right.
Qed.
End Spread.

(** ** The order *)

Section Order.
Context (locale_compare : string -> string -> Z) (Hco : collation locale_compare).

Lemma compare_clusters_le (a b : RunCluster) :
  (compare_clusters locale_compare a b <=? 0) = true <->
  rc_count b < rc_count a \/ rc_count b = rc_count a /\ locale_compare (rc_signature a) (rc_signature b) <= 0.
Proof.
  unfold compare_clusters. rewrite Z.leb_le. destruct (Z.eqb_spec (rc_count b) (rc_count a)); cbn; lia.
Qed.
Lemma compare_clusters_total (a b : RunCluster) :
  (compare_clusters locale_compare a b <=? 0) = true \/ (compare_clusters locale_compare b a <=? 0) = true.
Proof.
  rewrite !compare_clusters_le. pose proof (collation_swap _ Hco (rc_signature a) (rc_signature b)).
  pose proof (collation_swap _ Hco (rc_signature b) (rc_signature a)). lia.
Qed.
Lemma compare_clusters_trans (a b c : RunCluster) :
  (compare_clusters locale_compare a b <=? 0) = true -> (compare_clusters locale_compare b c <=? 0) = true ->
  (compare_clusters locale_compare a c <=? 0) = true.
Proof.
  rewrite !compare_clusters_le. intros [H1|[E1 H1]] [H2|[E2 H2]]; [lia..|]. right. split; [lia|].
  by eapply (co_trans _ Hco).
Qed.
(** No two clusters compare equal. *)
Definition no_ties (clusters : list RunCluster) : Prop :=
  forall a b, a ∈ clusters -> b ∈ clusters -> rc_count a = rc_count b ->
    locale_compare (rc_signature a) (rc_signature b) = 0 -> a = b.
Lemma sort_unique (l1 l2 : list RunCluster) :
  no_ties l1 -> l1 ≡ₚ l2 -> sortClusters locale_compare l1 = sortClusters locale_compare l2.
Proof.
  intros Ht Hp. unfold sortClusters. eapply StronglySorted_unique_strong.
  2, 3: apply sort_by_sorted; [apply compare_clusters_total|apply compare_clusters_trans].
  2: by rewrite !sort_by_perm.
  intros a b Ha Hb Hab Hba. rewrite elem_of_sort_by in Ha, Hb. rewrite <- Hp in Hb.
  apply compare_clusters_le in Hab, Hba. pose proof (collation_swap _ Hco (rc_signature a) (rc_signature b)).
  apply Ht; [done|done|lia|lia].
Qed.
End Order.

Lemma keys_not_nil (runs : list ClusteredRun) (k : string) (c : RunCluster) :
  cluster_of runs k = Some c ->
  rc_id c = k /\ own_runs k runs <> [] /\ rc_count c = Z.of_nat (length (own_runs k runs)) /\
  rc_relatedRunIds c = fr_id <$> own_runs k runs /\ head (rc_relatedRunIds c) = Some (rc_representativeRunId c) /\
  exists r, head (own_runs k runs) = Some r /\ fr_crash r = Some (rc_signature c, rc_failureCategory c) /\
            fr_area r = rc_area c /\ fr_severity r = rc_severity c.
Proof.
  unfold cluster_of, entry, own_runs. destruct (own grouping_key k runs) as [|r l] eqn:Ho; [done|]. intros [= <-].
  assert (Hin : In r (own grouping_key k runs)) by (rewrite Ho; by left). apply filter_In in Hin as [_ Hk].
  apply bool_decide_eq_true in Hk. unfold grouping_key, buildClusterKey in Hk. destruct (fr_failed r); [|done].
  destruct (fr_crash r) as [[signature category]|] eqn:Ec; [|done].
  assert (H : forall l c, let c' := foldl (fun e r => count_run r e) c l in
    rc_id c' = rc_id c /\ rc_count c' = rc_count c + Z.of_nat (length l) /\
    rc_relatedRunIds c' = rc_relatedRunIds c ++ (fr_id <$> l) /\ rc_representativeRunId c' = rc_representativeRunId c /\
    rc_signature c' = rc_signature c /\ rc_failureCategory c' = rc_failureCategory c /\
    rc_area c' = rc_area c /\ rc_severity c' = rc_severity c).
  { clear. induction l as [|x l IH]; intros c; cbn; [split_and!; [done|lia|by rewrite app_nil_r|done..]|].
    destruct (IH (count_run x c)) as (-> & -> & -> & -> & -> & -> & -> & ->). cbn. rewrite <- app_assoc.
    split_and!; try done. lia. }
  destruct (H l (cluster_from k r)) as (-> & -> & -> & -> & -> & -> & -> & ->). cbn. rewrite Ec.
  split_and!; try done; [lia|]. by exists r.
Qed.

Lemma clusters_before_sort (runs : list ClusteredRun) :
  concat ((fun b => aggregateClusters b.2) <$> foldl bucket_run [] runs) ≡ₚ aggregateClusters runs /\
  ((forall a b, a ∈ omap grouping_key runs -> b ∈ omap grouping_key runs -> hashBucketKey a = hashBucketKey b -> a = b) ->
   concat ((fun b => aggregateClusters b.2) <$> foldl bucket_run [] runs) = aggregateClusters runs).
Proof.
  rewrite merged_entries, aggregate_entries. split.
  - apply omap_Permutation, (parts_perm hashBucketKey); [apply firsts_nodup|].
    intros k Hk. rewrite elem_of_firsts. apply list_elem_of_fmap_2. unfold cluster_keys in Hk. by rewrite elem_of_firsts in Hk.
  - intros Hinj. f_equal. rewrite firsts_map by done. apply (parts_apart hashBucketKey); [apply firsts_nodup|].
    intros a b Ha Hb. unfold cluster_keys in *. rewrite elem_of_firsts in Ha, Hb. by apply Hinj.
Qed.

(** C38. Hash buckets do not change the clusters.  On any runs the bucketed pipeline gives
    the clusters of the direct one, each the same, up to order; it gives the same list
    when no two keys share a bucket, or when no two clusters compare equal.  There is
    exactly one cluster per key of a failed run with a crash; it counts and lists the
    runs of its key in order, the first as its representative. *)
Theorem incremental_equals_legacy (locale_compare : string -> string -> Z) (runs : list ClusteredRun) :
  let clusters := buildFailureClusters locale_compare runs in
  let legacy := buildFailureClustersLegacy locale_compare runs in
  clusters ≡ₚ legacy /\
  ((forall a b, a ∈ omap grouping_key runs -> b ∈ omap grouping_key runs -> hashBucketKey a = hashBucketKey b -> a = b) ->
   clusters = legacy) /\
  (collation locale_compare -> no_ties locale_compare legacy -> clusters = legacy) /\
  (rc_id <$> clusters ≡ₚ firsts (omap grouping_key runs)) /\
  forall c, c ∈ clusters ->
    let own := own_runs (rc_id c) runs in
    rc_count c = Z.of_nat (length own) /\ rc_relatedRunIds c = fr_id <$> own /\
    head (rc_relatedRunIds c) = Some (rc_representativeRunId c).
Proof.
  cbv zeta. unfold buildFailureClusters, buildFailureClustersLegacy. destruct (clusters_before_sort runs) as [Hp He].
  set (merged := concat ((fun b => aggregateClusters b.2) <$> foldl bucket_run [] runs)) in *.
  assert (Hperm : sortClusters locale_compare merged ≡ₚ aggregateClusters runs) by (etrans; [apply sort_by_perm|exact Hp]).
  split_and!.
  - etrans; [exact Hperm|]. symmetry. apply sort_by_perm.
  - intros Hinj. by rewrite He.
  - intros Hco Ht. apply (sort_unique locale_compare Hco); [|done]. intros a b Ha Hb. apply Ht;
      (unfold sortClusters; rewrite elem_of_sort_by, <- Hp; done).
  - rewrite Hperm, aggregate_entries.
    assert (Hall : forall l, (forall k, k ∈ l -> k ∈ omap grouping_key runs) -> (rc_id <$> (omap (cluster_of runs) l : list RunCluster)) = l).
    { induction l as [|k l IH]; intros Hin; [done|]. rewrite omap_step, fmap_app, IH by (intros; apply Hin; by right).
      destruct (proj1 (entry_some grouping_key cluster_from count_run k runs) (Hin k ltac:(by left))) as [c Hc].
      unfold cluster_of. rewrite Hc. cbn. f_equal. by apply keys_not_nil in Hc as [-> _]. }
    unfold cluster_keys. rewrite Hall; [done|]. intros k Hk. by rewrite elem_of_firsts in Hk.
  - intros c Hc. rewrite Hperm, aggregate_entries in Hc. apply list_elem_of_omap in Hc as (k & _ & Hc).
    by apply keys_not_nil in Hc as (-> & _ & ? & ? & ? & _).
Qed.
(** Colliding keys, but no ties. *)
Definition untied_runs : list ClusteredRun :=
  [failed_run "r1" "s" "ab"; failed_run "r2" "s" "zz"; failed_run "r3" "s" "bA"; failed_run "r4" "s" "zz";
   failed_run "r5" "t" "zz"; failed_run "r6" "s" "bA"; failed_run "r7" "s" "bA"]%string.
Lemma incremental_equals_legacy_witness :
  hashBucketKey (key_of_crash "s" "ab" "auth" "high") = hashBucketKey (key_of_crash "s" "bA" "auth" "high") /\
  buildFailureClusters code_compare untied_runs = buildFailureClustersLegacy code_compare untied_runs /\
  rc_count <$> buildFailureClusters code_compare untied_runs = [3; 2; 1; 1].
Proof.
  split; [by vm_compute|]. split; [|by vm_compute].
  apply (incremental_equals_legacy code_compare untied_runs); [apply code_compare_collation|].
  assert (E : buildFailureClustersLegacy code_compare untied_runs
              = ltac:(let v := eval vm_compute in (buildFailureClustersLegacy code_compare untied_runs) in exact v)) by by vm_compute.
  rewrite E. intros a b Ha%list_elem_of_In Hb%list_elem_of_In Hc Hs. cbn [In] in Ha, Hb.
  destruct Ha as [<-|[<-|[<-|[<-|[]]]]], Hb as [<-|[<-|[<-|[<-|[]]]]]; first [reflexivity|discriminate Hc|discriminate Hs].
Defined.
