(* ===== verification/UnionFind.v ===== *)
(** The union-find structures of [app/failure-fingerprint.ts] (the class [UnionFind],
    with ranks) and of [app/failureClusterMerge.ts] (the local [find] and [union],
    without).

    A forest is its [parent] map.  [find] recurses to the root and compresses the path;
    its fuel, one more than the number of nodes, is enough ([find_in_spec]): a path
    visits no node twice. *)

From S2P Require Import Prelude.
From stdpp Require Import base list sets fin_sets gmap strings relations.
From Stdlib Require Import ZArith Lia.
#[local] Open Scope Z_scope.

#[local] Notation Forest := (gmap string string).

Fixpoint find_in (fuel : nat) (parent : Forest) (x : string) : Forest * string :=
  match fuel with
  | O => (parent, x)
  | S fuel' =>
      let parent1 := match parent !! x with None => <[x := x]> parent | Some _ => parent end in
      let p := default x (parent1 !! x) in
      if bool_decide (p = x) then (parent1, x)
      else let '(parent2, root) := find_in fuel' parent1 p in (<[x := root]> parent2, root)
  end.
Definition find (parent : Forest) (x : string) : Forest * string := find_in (S (size parent)) parent x.
(** The local [union]. *)
Definition union_plain (parent : Forest) (a b : string) : Forest :=
  let '(parent1, ra) := find parent a in
  let '(parent2, rb) := find parent1 b in
  if bool_decide (ra = rb) then parent2 else <[ra := rb]> parent2.

(** ** The class *)

Record UnionFind : Type := mkUnionFind { uf_parent : Forest; uf_rank : gmap string Z }.
Definition new_union_find : UnionFind := mkUnionFind ∅ ∅.
Definition uf_find (s : UnionFind) (x : string) : UnionFind * string :=
  let '(parent, root) := find (uf_parent s) x in
  (mkUnionFind parent (match uf_parent s !! x with None => <[x := 0]> (uf_rank s) | Some _ => uf_rank s end), root).
Definition uf_union (s : UnionFind) (a b : string) : UnionFind :=
  let '(s1, ra) := uf_find s a in
  let '(s2, rb) := uf_find s1 b in
  if bool_decide (ra = rb) then s2
  else
    let rankA := default 0 (uf_rank s2 !! ra) in
    let rankB := default 0 (uf_rank s2 !! rb) in
    if rankA <? rankB then mkUnionFind (<[ra := rb]> (uf_parent s2)) (uf_rank s2)
    else if rankB <? rankA then mkUnionFind (<[rb := ra]> (uf_parent s2)) (uf_rank s2)
    else mkUnionFind (<[rb := ra]> (uf_parent s2)) (<[ra := rankA + 1]> (uf_rank s2)).
(** A use of the class. *)
Inductive uf_op : Type := uf_ask (x : string) | uf_join (a b : string).
Definition uf_step (s : UnionFind) (op : uf_op) : UnionFind :=
  match op with uf_ask x => (uf_find s x).1 | uf_join a b => uf_union s a b end.

Example union_find_by_hand :
  let s := foldl uf_step new_union_find [uf_join "a" "b"; uf_join "c" "d"; uf_ask "e"; uf_join "d" "b"]%string in
  (uf_find s "a").2 = "c"%string /\ (uf_find s "b").2 = "c"%string /\ (uf_find s "e").2 = "e"%string /\
  (find (union_plain (union_plain ∅ "a" "b") "b" "c") "a").2 = "c"%string.
Proof. vm_compute. done. Qed.

(** ** Representatives *)

(** [rep] is the root of every node, and [h] falls along every edge. *)
Record represents (parent : Forest) (rep : string -> string) (h : string -> nat) : Prop := mkRepresents
  { re_edge : forall x y, parent !! x = Some y -> y <> x -> (h y < h x)%nat /\ is_Some (parent !! y) /\ rep y = rep x;
    re_root : forall x, parent !! x = Some x -> rep x = x;
    re_out : forall x, parent !! x = None -> rep x = x }.

Lemma represents_empty : represents ∅ id (fun _ => 0%nat).
Proof. split; [|by intros x ?%lookup_empty_Some|done]. by intros x y ?%lookup_empty_Some. Qed.
Lemma rep_is_root (parent : Forest) (rep : string -> string) (h : string -> nat) (x : string) :
  represents parent rep h -> is_Some (parent !! x) -> parent !! rep x = Some (rep x).
Proof.
  intros Hr. remember (h x) as n eqn:En. revert x En. induction (lt_wf n) as [n _ IH]. intros x -> [y Hy].
  destruct (decide (y = x)) as [->|Hne]; [by rewrite (re_root _ _ _ Hr x Hy)|].
  destruct (re_edge _ _ _ Hr x y Hy Hne) as (Hlt & Hin & <-). by apply (IH (h y) Hlt y).
Qed.
Lemma represents_new (parent : Forest) (rep : string -> string) (h : string -> nat) (x : string) :
  represents parent rep h -> parent !! x = None -> represents (<[x := x]> parent) rep h.
Proof.
  intros Hr Hx. split.
  - intros a b. destruct (decide (a = x)) as [->|Hne]; [rewrite lookup_insert_eq; by intros [= ->]|].
    rewrite lookup_insert_ne by done. intros Hab Hne'. destruct (re_edge _ _ _ Hr a b Hab Hne') as (H1 & H2 & H3).
    split_and!; [done| |done]. rewrite lookup_insert_ne; [done|]. intros ->. rewrite Hx in H2. by destruct H2.
  - intros a. destruct (decide (a = x)) as [->|Hne]; [intros _; by apply (re_out _ _ _ Hr)|].
    rewrite lookup_insert_ne by done. apply (re_root _ _ _ Hr).
  - intros a. destruct (decide (a = x)) as [->|Hne]; [by rewrite lookup_insert_eq|].
    rewrite lookup_insert_ne by done. apply (re_out _ _ _ Hr).
Qed.
(** Compression: an edge to the root. *)
Lemma represents_compress (parent : Forest) (rep : string -> string) (h : string -> nat) (x : string) :
  represents parent rep h -> is_Some (parent !! x) -> (rep x <> x -> (h (rep x) < h x)%nat) ->
  represents (<[x := rep x]> parent) rep h.
Proof.
  intros Hr Hx Hh. pose proof (rep_is_root _ _ _ x Hr Hx) as Hroot.
  assert (Hsome : forall y, is_Some (parent !! y) -> is_Some (<[x := rep x]> parent !! y)).
  { intros y Hy. destruct (decide (y = x)) as [->|Hne]; [rewrite lookup_insert_eq; by eexists|].
    by rewrite lookup_insert_ne by done. }
  split.
  - intros a b. destruct (decide (a = x)) as [->|Hne].
    + rewrite lookup_insert_eq. intros [= <-] Hne. split_and!; [by apply Hh|apply Hsome; by eexists|].
      by apply (re_root _ _ _ Hr).
    + rewrite lookup_insert_ne by done. intros Hab Hne'. destruct (re_edge _ _ _ Hr a b Hab Hne') as (H1 & H2 & H3).
      split_and!; [done|by apply Hsome|done].
  - intros a. destruct (decide (a = x)) as [->|Hne]; [rewrite lookup_insert_eq; congruence|].
    rewrite lookup_insert_ne by done. apply (re_root _ _ _ Hr).
  - intros a. destruct (decide (a = x)) as [->|Hne]; [by rewrite lookup_insert_eq|].
    rewrite lookup_insert_ne by done. apply (re_out _ _ _ Hr).
Qed.

(** How many nodes a path from [x] can visit. *)
Definition depth (nodes : gset string) (h : string -> nat) (x : string) : nat :=
  size (filter (fun z => (h z <= h x)%nat) nodes).
Lemma depth_edge (nodes : gset string) (h : string -> nat) (x y : string) :
  x ∈ nodes -> (h y < h x)%nat -> (depth nodes h y < depth nodes h x)%nat.
Proof.
  intros Hx Hlt. apply subset_size. split.
  - intros z. rewrite !elem_of_filter. intros [? ?]. split; [lia|done].
  - intros Hsub. assert (Hin : x ∈ filter (fun z => (h z <= h x)%nat) nodes) by (apply elem_of_filter; split; [lia|done]).
    apply Hsub, elem_of_filter in Hin as [? _]. lia.
Qed.
Lemma rep_lower (parent : Forest) (rep : string -> string) (h : string -> nat) (x : string) :
  represents parent rep h -> is_Some (parent !! x) -> rep x = x \/ (h (rep x) < h x)%nat.
Proof.
  intros Hr. remember (h x) as n eqn:En. revert x En. induction (lt_wf n) as [n _ IH]. intros x -> [y Hy].
  destruct (decide (y = x)) as [->|Hne]; [left; by apply (re_root _ _ _ Hr)|].
  destruct (re_edge _ _ _ Hr x y Hy Hne) as (Hlt & Hin & <-). right.
  destruct (IH (h y) Hlt y eq_refl Hin) as [->|]; [done|lia].
Qed.

Lemma find_in_spec (rep : string -> string) (h : string -> nat) (fuel : nat) : forall (parent : Forest) (x : string),
  represents parent rep h -> is_Some (parent !! x) -> (depth (dom parent) h x <= fuel)%nat ->
  (find_in fuel parent x).2 = rep x /\ represents (find_in fuel parent x).1 rep h /\
  dom (find_in fuel parent x).1 = dom parent.
Proof.
  induction fuel as [|fuel IH]; intros parent x Hr Hx Hd.
  { exfalso. assert (Hin : x ∈ filter (fun z => (h z <= h x)%nat) (dom parent)).
    { apply elem_of_filter. split; [lia|by apply elem_of_dom]. }
    unfold depth in Hd. apply Nat.le_0_r, size_empty_inv in Hd. set_solver. }
  cbn [find_in]. destruct Hx as [y Hy]. rewrite Hy. cbv zeta. rewrite Hy. cbn [default from_option id].
  destruct (bool_decide_reflect (y = x)) as [->|Hne].
  { cbn. split_and!; [by rewrite (re_root _ _ _ Hr x Hy)|done|done]. }
  destruct (re_edge _ _ _ Hr x y Hy Hne) as (Hlt & Hin & Hrep).
  pose proof (depth_edge (dom parent) h x y ltac:(apply elem_of_dom; by eexists) Hlt) as Hd'.
  destruct (IH parent y Hr Hin ltac:(lia)) as (H1 & H2 & H3). destruct (find_in fuel parent y) as [parent2 root].
  cbn [fst snd] in *. subst root. rewrite Hrep.
  assert (Hx2 : is_Some (parent2 !! x)) by (apply elem_of_dom; rewrite H3; apply elem_of_dom; by eexists).
  split_and!; [done| |].
  - apply represents_compress; [done|done|]. intros Hne2. by destruct (rep_lower _ _ _ x H2 Hx2).
  - rewrite dom_insert_L, H3. assert (x ∈ dom parent) by (apply elem_of_dom; by eexists). set_solver.
Qed.
Lemma find_spec (parent : Forest) (rep : string -> string) (h : string -> nat) (x : string) :
  represents parent rep h ->
  (find parent x).2 = rep x /\ represents (find parent x).1 rep h /\ dom (find parent x).1 = dom parent ∪ {[ x ]}.
Proof.
  intros Hr. unfold find. destruct (parent !! x) as [y|] eqn:Hx.
  - destruct (find_in_spec rep h (S (size parent)) parent x Hr ltac:(by eexists)) as (H1 & H2 & H3).
    { unfold depth. assert (Hsub : filter (fun z => (h z <= h x)%nat) (dom parent) ⊆ dom parent).
      { intros z Hz. by apply elem_of_filter in Hz as [_ Hz]. }
      apply subseteq_size in Hsub. rewrite size_dom in Hsub. lia. }
    split_and!; [done|done|]. rewrite H3. assert (x ∈ dom parent) by (apply elem_of_dom; by eexists). set_solver.
  - cbn [find_in]. rewrite Hx, lookup_insert_eq. cbn. rewrite bool_decide_eq_true_2 by done. cbn.
    split_and!; [by rewrite (re_out _ _ _ Hr x Hx)|by apply represents_new|]. rewrite dom_insert_L. set_solver.
Qed.

(** ** Classes *)

(** [x] and [y] are connected by the pairs joined so far. *)
Definition joined (pairs : list (string * string)) : string -> string -> Prop := rtsc (fun a b => (a, b) ∈ pairs).
#[export] Instance joined_equivalence (pairs : list (string * string)) : Equivalence (joined pairs).
Proof. apply rtsc_equivalence. Qed.

(** The representatives after the root [r1] is hung under the root [r2]. *)
Definition relabel (rep : string -> string) (r1 r2 x : string) : string := if bool_decide (rep x = r1) then r2 else rep x.

Lemma represents_link (parent : Forest) (rep : string -> string) (h : string -> nat) (r1 r2 : string) :
  represents parent rep h -> parent !! r1 = Some r1 -> parent !! r2 = Some r2 -> r1 <> r2 ->
  represents (<[r1 := r2]> parent) (relabel rep r1 r2)
    (fun x => if bool_decide (rep x = r1) then (h x + S (h r2))%nat else h x).
Proof.
  intros Hr H1 H2 Hne. pose proof (re_root _ _ _ Hr r1 H1) as R1. pose proof (re_root _ _ _ Hr r2 H2) as R2.
  assert (Hsome : forall y, is_Some (parent !! y) -> is_Some (<[r1 := r2]> parent !! y)).
  { intros y Hy. destruct (decide (y = r1)) as [->|Hy1]; [rewrite lookup_insert_eq; by eexists|].
    by rewrite lookup_insert_ne by done. }
  unfold relabel. split.
  - intros x y. destruct (decide (x = r1)) as [->|Hx].
    + rewrite lookup_insert_eq. intros [= <-] _. rewrite R1, R2. rewrite (bool_decide_eq_true_2 (r1 = r1)) by done.
      rewrite bool_decide_eq_false_2 by done. split_and!; [lia|apply Hsome; by eexists|done].
    + rewrite lookup_insert_ne by done. intros Hxy Hyx. destruct (re_edge _ _ _ Hr x y Hxy Hyx) as (Hlt & Hin & ->).
      split_and!; [|by apply Hsome|done]. case_bool_decide; lia.
  - intros x. destruct (decide (x = r1)) as [->|Hx]; [rewrite lookup_insert_eq; congruence|].
    rewrite lookup_insert_ne by done. intros Hxx. rewrite (re_root _ _ _ Hr x Hxx). by rewrite bool_decide_eq_false_2.
  - intros x. destruct (decide (x = r1)) as [->|Hx]; [by rewrite lookup_insert_eq|].
    rewrite lookup_insert_ne by done. intros Hx'. rewrite (re_out _ _ _ Hr x Hx'). by rewrite bool_decide_eq_false_2.
Qed.

Section Classes.
Context (pairs : list (string * string)) (rep : string -> string).
Hypothesis Hrep : forall x y, rep x = rep y <-> joined pairs x y.

Lemma joined_more (a b x y : string) : joined pairs x y -> joined (pairs ++ [(a, b)]) x y.
Proof.
  intros H. unfold joined in *. refine (rtsc_congruence id _ x y _ H). intros c d Hcd. apply elem_of_app. by left.
Qed.
Lemma joined_pair (a b : string) : joined (pairs ++ [(a, b)]) a b.
Proof. apply rtsc_lr, elem_of_app. right. by left. Qed.
Lemma joined_step (rep' : string -> string) (a b : string) :
  (forall x y, rep x = rep y -> rep' x = rep' y) -> rep' a = rep' b ->
  forall x y, joined (pairs ++ [(a, b)]) x y -> rep' x = rep' y.
Proof.
  intros Hold Hab x y H. induction H as [x|x y z Hxy _ IH]; [done|]. rewrite <- IH.
  assert (Hone : forall c d, (c, d) ∈ pairs ++ [(a, b)] -> rep' c = rep' d).
  { intros c d [Hin|Hin%list_elem_of_singleton]%elem_of_app; [|by injection Hin as -> ->].
    apply Hold, Hrep. by apply rtsc_lr. }
  destruct Hxy as [Hxy|Hxy]; [by apply Hone|symmetry; by apply Hone].
Qed.
(** A pair of one class changes nothing. *)
Lemma classes_same (a b : string) :
  rep a = rep b -> forall x y, rep x = rep y <-> joined (pairs ++ [(a, b)]) x y.
Proof.
  intros Hab x y. split; [by intros H%Hrep; apply joined_more|]. by apply joined_step.
Qed.
(** Two classes become one, whichever root is hung under the other. *)
Lemma classes_link (a b r1 r2 : string) :
  (r1 = rep a /\ r2 = rep b) \/ (r1 = rep b /\ r2 = rep a) -> r1 <> r2 ->
  forall x y, relabel rep r1 r2 x = relabel rep r1 r2 y <-> joined (pairs ++ [(a, b)]) x y.
Proof.
  intros Hends Hne x y. split.
  - assert (Hmeet : forall u v, rep u = r1 -> rep v = r2 -> joined (pairs ++ [(a, b)]) u v).
    { intros u v Hu Hv. destruct Hends as [[E1 E2]|[E1 E2]].
      - transitivity a; [apply joined_more, Hrep; congruence|]. transitivity b; [apply joined_pair|].
        apply joined_more, Hrep. congruence.
      - transitivity b; [apply joined_more, Hrep; congruence|]. transitivity a; [symmetry; apply joined_pair|].
        apply joined_more, Hrep. congruence. }
    unfold relabel. do 2 case_bool_decide; intros E.
    + apply joined_more, Hrep. congruence.
    + by apply Hmeet.
    + symmetry. by apply Hmeet.
    + by apply joined_more, Hrep.
  - apply joined_step; unfold relabel; [by intros u v ->|].
    destruct Hends as [[-> ->]|[-> ->]]; [rewrite bool_decide_eq_true_2 by done; by rewrite bool_decide_eq_false_2|].
    rewrite (bool_decide_eq_true_2 (rep b = rep b)) by done. rewrite bool_decide_eq_false_2; [done|]. congruence.
Qed.
End Classes.

(** A forest whose classes are those of the pairs joined so far. *)
Definition classes (parent : Forest) (pairs : list (string * string)) : Prop :=
  exists rep h, represents parent rep h /\ forall x y, rep x = rep y <-> joined pairs x y.

Lemma classes_empty : classes ∅ [].
Proof.
  exists id, (fun _ => 0%nat). split; [apply represents_empty|]. intros x y. cbn. split; [by intros ->|].
  intros H. unfold joined in H. induction H as [|x y z [H|H] _ _]; [done|..]; by apply elem_of_nil in H.
Qed.
Lemma find_classes (parent : Forest) (pairs : list (string * string)) (x y : string) :
  classes parent pairs ->
  classes (find parent x).1 pairs /\ ((find parent x).2 = (find parent y).2 <-> joined pairs x y) /\
  ((find (find parent x).1 y).2 = (find parent y).2).
Proof.
  intros (rep & h & Hr & Hj). destruct (find_spec parent rep h x Hr) as (E & Hr1 & _).
  destruct (find_spec parent rep h y Hr) as (Ey & _ & _). destruct (find_spec _ rep h y Hr1) as (Ey1 & _ & _).
  rewrite E, Ey, Ey1. split_and!; [by exists rep, h|apply Hj|done].
Qed.
(** Hanging one root under the other joins their classes. *)
Lemma link_classes (parent : gmap string string) (pairs : list (string * string)) (rep : string -> string)
    (h : string -> nat) (a b r1 r2 : string) :
  represents parent rep h -> (forall x y, rep x = rep y <-> joined pairs x y) ->
  is_Some (parent !! a) -> is_Some (parent !! b) -> rep a <> rep b ->
  (r1 = rep a /\ r2 = rep b) \/ (r1 = rep b /\ r2 = rep a) ->
  classes (<[r1 := r2]> parent) (pairs ++ [(a, b)]).
Proof.
  intros Hr Hj Ha Hb Hne Hends. pose proof (rep_is_root _ _ _ a Hr Ha) as Ra. pose proof (rep_is_root _ _ _ b Hr Hb) as Rb.
  eexists _, _. split.
  - apply represents_link; [exact Hr|destruct Hends as [[-> ->]|[-> ->]]; done..|destruct Hends as [[-> ->]|[-> ->]]; congruence].
  - apply (classes_link pairs rep Hj a b); [done|]. destruct Hends as [[-> ->]|[-> ->]]; congruence.
Qed.
Lemma two_finds (parent : gmap string string) (rep : string -> string) (h : string -> nat) (a b : string) :
  represents parent rep h ->
  let p1 := (find parent a).1 in let p2 := (find p1 b).1 in
  (find parent a).2 = rep a /\ (find p1 b).2 = rep b /\ represents p2 rep h /\ is_Some (p2 !! a) /\ is_Some (p2 !! b).
Proof.
  intros Hr p1 p2. destruct (find_spec parent rep h a Hr) as (E1 & H1 & D1). fold p1 in H1, D1.
  destruct (find_spec p1 rep h b H1) as (E2 & H2 & D2). fold p2 in H2, D2.
  split_and!; [done|done|done| |]; apply elem_of_dom; rewrite D2, ?D1, !elem_of_union, !elem_of_singleton; tauto.
Qed.

Lemma union_plain_classes (parent : gmap string string) (pairs : list (string * string)) (a b : string) :
  classes parent pairs -> classes (union_plain parent a b) (pairs ++ [(a, b)]).
Proof.
  intros (rep & h & Hr & Hj). destruct (two_finds parent rep h a b Hr) as (Ea & Eb & H2 & Ha & Hb).
  unfold union_plain. destruct (find parent a) as [p1 ra]. cbn [fst snd] in *. destruct (find p1 b) as [p2 rb].
  cbn [fst snd] in *. subst ra rb. destruct (bool_decide_reflect (rep a = rep b)) as [E|E].
  - exists rep, h. split; [done|]. by apply classes_same.
  - by apply (link_classes p2 pairs rep h a b); [..|left].
Qed.
Lemma uf_union_classes (s : UnionFind) (pairs : list (string * string)) (a b : string) :
  classes (uf_parent s) pairs -> classes (uf_parent (uf_union s a b)) (pairs ++ [(a, b)]).
Proof.
  intros (rep & h & Hr & Hj). destruct (two_finds (uf_parent s) rep h a b Hr) as (Ea & Eb & H2 & Ha & Hb).
  unfold uf_union, uf_find. destruct (find (uf_parent s) a) as [p1 ra]. cbn [fst snd uf_parent] in *.
  destruct (find p1 b) as [p2 rb]. cbn [fst snd uf_parent uf_rank] in *. subst ra rb.
  destruct (bool_decide_reflect (rep a = rep b)) as [E|E]; cbn [uf_parent].
  - exists rep, h. split; [done|]. by apply classes_same.
  - destruct (_ <? _); [|destruct (_ <? _)]; cbn [uf_parent].
    + by apply (link_classes p2 pairs rep h a b); [..|left].
    + by apply (link_classes p2 pairs rep h a b); [..|right].
    + by apply (link_classes p2 pairs rep h a b); [..|right].
Qed.

Definition joins (ops : list uf_op) : list (string * string) :=
  omap (fun op => match op with uf_join a b => Some (a, b) | uf_ask _ => None end) ops.
Lemma uf_run_classes (ops : list uf_op) : classes (uf_parent (foldl uf_step new_union_find ops)) (joins ops).
Proof.
  induction ops as [|op ops IH] using rev_ind; [apply classes_empty|]. rewrite foldl_app. unfold joins. rewrite omap_app.
  fold (joins ops). cbn. destruct op as [x|a b]; cbn.
  - rewrite app_nil_r. unfold uf_find. destruct (find_classes _ _ x x IH) as [H _].
    by destruct (find (uf_parent (foldl uf_step new_union_find ops)) x).
  - by apply uf_union_classes.
Qed.

(** Union-find computes connected components.  After any finds and unions, in any
    order, two elements have the same root exactly when a chain of united pairs connects
    them; [find] always reaches the root, and answers the same when it is asked again,
    whatever is asked in between. *)
Theorem union_find_components (ops : list uf_op) (x y z : string) :
  let s := foldl uf_step new_union_find ops in
  ((uf_find s x).2 = (uf_find s y).2 <-> joined (joins ops) x y) /\
  (uf_find (uf_find s z).1 x).2 = (uf_find s x).2 /\
  uf_parent (uf_find s x).1 !! (uf_find s x).2 = Some (uf_find s x).2.
Proof.
  intros s. pose proof (uf_run_classes ops) as Hc. fold s in Hc.
  assert (E : forall t v, (uf_find t v).2 = (find (uf_parent t) v).2 /\ uf_parent (uf_find t v).1 = (find (uf_parent t) v).1).
  { intros t v. unfold uf_find. by destruct (find (uf_parent t) v). }
  rewrite !(proj1 (E _ _)), !(proj2 (E _ _)). destruct (find_classes _ _ x y Hc) as (_ & H & _).
  destruct (find_classes _ _ z x Hc) as (_ & _ & H'). split_and!; [exact H|exact H'|].
  destruct Hc as (rep & h & Hr & _). destruct (find_spec (uf_parent s) rep h x Hr) as (-> & H1 & D).
  apply (rep_is_root _ _ _ x H1). apply elem_of_dom. rewrite D, elem_of_union, elem_of_singleton. by right.
Qed.
