(* ===== verification/ClusterMerge.v ===== *)
(** [app/failure-fingerprint.ts] and [app/failureClusterMerge.ts]: fingerprints of crash
    signatures, their similarity, and the overlay of semantic groups over the exact
    clusters of [FailureClusters], with its audit trail.

    A [Map] is the list of its entries in insertion order.  The SHA-256 digest, the
    collation and the timestamps are arguments; the descriptions of audit entries are
    display text and left out.  The fingerprint cache of the source only saves work. *)

From S2P Require Import Prelude JsString JsNumber CronParser QueryCompiler CampaignTimeline SignatureNorm FailureClustering FailureClusters UnionFind.
From stdpp Require Import base list sets fin_sets gmap strings numbers sorting relations.
From Stdlib Require Import ZArith Lia Ascii.
#[local] Open Scope Z_scope.
#[local] Arguments String.append !_ _ / : simpl nomatch.
#[local] Arguments sum_of : simpl never.

Record Fingerprint : Type := mkFingerprint { fp_hash : string; fp_components : list string; fp_normalised : string }.

(** ** The normal form *)

Definition HEX_OFFSET_RE : Matcher := fun _ t =>
  match strip_text (text_of "+0x") t with
  | None => None
  | Some t' =>
      let digits := run_of hex_char t' in
      if (0 <? length digits)%nat && word_ends (drop (length digits) t') then Some (3 + length digits)%nat else None
  end.
Definition HEX_ADDRESS_RE : Matcher := fun prev t =>
  if word_edge prev t then
    match strip_text zero_x t with
    | None => None
    | Some t' =>
        let digits := run_of hex_char t' in
        if (4 <=? length digits)%nat && word_ends (drop (length digits) t') then Some (2 + length digits)%nat else None
    end
  else None.
(** [:\d+]: how many units. *)
Definition colon_digits (t : text) : option nat :=
  match t with
  | c :: t' =>
      if bool_decide (c = ":"%char) && (0 <? length (run_of is_digit t'))%nat
      then Some (1 + length (run_of is_digit t'))%nat else None
  | [] => None
  end.
Definition LINE_COL_RE : Matcher := fun _ t =>
  match t with
  | c :: t' =>
      let word := run_of word_char t' in
      if bool_decide (c = "."%char) && (0 <? length word)%nat then
        let rest := drop (length word) t' in
        match colon_digits rest with
        | None => None
        | Some n => match colon_digits (drop n rest) with
                    | None => None
                    | Some m => Some (1 + length word + n + m)%nat end
        end
      else None
  | [] => None
  end.
Definition BARE_LINE_RE : Matcher := fun _ t =>
  match t with
  | c :: t' =>
      let digits := run_of is_digit t' in
      if bool_decide (c = ":"%char) && (0 <? length digits)%nat && (length digits <=? 6)%nat
         && word_ends (drop (length digits) t')
      then Some (1 + length digits)%nat else None
  | [] => None
  end.
Definition SPACES_RE : Matcher := fun _ t => let n := length (run_of is_ws t) in if (0 <? n)%nat then Some n else None.
(** [s.slice(0, s.lastIndexOf(':'))], where there is a colon. *)
Fixpoint before_last_colon (t : text) : option text :=
  match t with
  | [] => None
  | c :: t' => match before_last_colon t' with
               | Some u => Some (c :: u)
               | None => if bool_decide (c = ":"%char) then Some [] else None end
  end.
Definition strip_line_col (m : text) : text :=
  let withoutCol := default m (before_last_colon m) in default withoutCol (before_last_colon withoutCol).
Definition constantly (out : text) (_ : unit) (_ : text) : text * unit := (out, tt).
Definition normaliseWhitespace (t : text) : string :=
  to_lower (trim (string_of (replace_all SPACES_RE (constantly [" "%char]) tt t))).
Definition normaliseSignature (raw : string) : string :=
  let s := replace_all HEX_OFFSET_RE (constantly (text_of "+<OFFSET>")) tt (text_of raw) in
  let s := replace_all HEX_ADDRESS_RE (constantly (text_of "<ADDR>")) tt s in
  let s := replace_all LINE_COL_RE (fun (_ : unit) m => (strip_line_col m, tt)) tt s in
  let s := replace_all BARE_LINE_RE (constantly []) tt s in
  normaliseWhitespace s.

(** [/[:/\-_\s]/]. *)
Definition delimiter (c : ascii) : bool :=
  bool_decide (c = ":"%char \/ c = "/"%char \/ c = "-"%char \/ c = "_"%char) || is_ws c.
(** The pieces between the delimiters that are not empty; [word] is the piece read so far. *)
Fixpoint word_pieces (word : text) (t : text) : list string :=
  match t with
  | [] => match word with [] => [] | _ => [string_of word] end
  | c :: t' =>
      if delimiter c then match word with [] => word_pieces [] t' | _ => string_of word :: word_pieces [] t' end
      else word_pieces (word ++ [c]) t'
  end.
Definition tokenise (normalised : string) : list string := sort_by str_le (firsts (word_pieces [] (text_of normalised))).

(** [new Set(components)], and the Jaccard similarity as a rounded quotient. *)
Definition similarity (a b : Fingerprint) : Double :=
  let setA := firsts (fp_components a) in
  let setB := firsts (fp_components b) in
  let intersection := Z.of_nat (length (List.filter (fun c => bool_decide (c ∈ setB)) setA)) in
  let union := Z.of_nat (length setA) + Z.of_nat (length setB) - intersection in
  if union =? 0 then (0, 0) else double_ratio intersection union.
Definition meets_threshold (threshold sim : Double) : bool := match compare_double sim threshold with Lt => false | _ => true end.

Section Fingerprints.
Context (digest : string -> string).

Definition fingerprint (rawSignature : string) : Fingerprint :=
  let normalised := normaliseSignature rawSignature in
  let components := tokenise normalised in
  mkFingerprint (digest (join_with nul components)) components normalised.
Definition add_to_bucket (buckets : list (string * list string)) (signature : string) : list (string * list string) :=
  let hash := fp_hash (fingerprint signature) in
  if existsb (fun b => bool_decide (b.1 = hash)) buckets
  then (fun b => if bool_decide (b.1 = hash) then (b.1, b.2 ++ [signature]) else b) <$> buckets
  else buckets ++ [(hash, [signature])].
Definition bucketByFingerprint (signatures : list string) : list (string * list string) := foldl add_to_bucket [] signatures.
(** Every pair, the earlier element first. *)
Fixpoint pairs_of {A} (l : list A) : list (A * A) :=
  match l with [] => [] | a :: l' => ((fun b => (a, b)) <$> l') ++ pairs_of l' end.
Definition bucket_print (b : string * list string) : Fingerprint := fingerprint (default EmptyString (head b.2)).
Definition findSimilarPairs (buckets : list (string * list string)) (threshold : Double) : list (string * string) :=
  omap (fun p => if meets_threshold threshold (similarity (bucket_print p.1) (bucket_print p.2)) then Some (p.1.1, p.2.1) else None)
    (pairs_of buckets).

(** ** The overlay *)

Inductive MergeAction : Type := act_merge | act_split.
Record MergeAuditEntry : Type := mkMergeEntry
  { ma_seq : Z; ma_action : MergeAction; ma_timestamp : string; ma_actor : string; ma_clusterIds : list string;
    ma_groupId : string }.
Record MergeOverlay : Type := mkOverlay
  { mo_groupMap : list (string * string); mo_auditLog : list MergeAuditEntry; mo_nextSeq : Z }.
Definition createOverlay : MergeOverlay := mkOverlay [] [] 1.

Definition map_delete (k : string) (m : list (string * string)) : list (string * string) :=
  List.filter (fun e => negb (bool_decide (e.1 = k))) m.
Definition set_all (groupId : string) (ids : list string) (m : list (string * string)) : list (string * string) :=
  foldl (fun m id => assoc_set id groupId m) m ids.
(** A change of the map and its audit entry. *)
Definition record_merge (action : MergeAction) (now actor : string) (clusterIds : list string) (groupId : string)
    (groupMap : list (string * string)) (overlay : MergeOverlay) : MergeOverlay :=
  mkOverlay groupMap
    (mo_auditLog overlay ++ [mkMergeEntry (mo_nextSeq overlay) action now actor clusterIds groupId]) (mo_nextSeq overlay + 1).

Record Candidate : Type := mkCandidate { cd_id : string; cd_fp : Fingerprint }.
Definition clusterFingerprint (cluster : RunCluster) : Fingerprint := fingerprint (rc_signature cluster).
Definition candidates (clusters : list RunCluster) (overlay : MergeOverlay) : list Candidate :=
  omap (fun c => match assoc_get (rc_id c) (mo_groupMap overlay) with
                 | Some _ => None
                 | None => Some (mkCandidate (rc_id c) (clusterFingerprint c)) end) clusters.
Definition similar_pairs (threshold : Double) (l : list Candidate) : list (string * string) :=
  omap (fun p => if meets_threshold threshold (similarity (cd_fp p.1) (cd_fp p.2)) then Some (cd_id p.1, cd_id p.2) else None)
    (pairs_of l).
Definition collect_group (s : gmap string string * list (string * list string)) (c : Candidate)
  : gmap string string * list (string * list string) :=
  let '(parent, groups) := s in
  let '(parent', root) := UnionFind.find parent (cd_id c) in
  (parent', if existsb (fun g => bool_decide (g.1 = root)) groups
            then (fun g => if bool_decide (g.1 = root) then (g.1, g.2 ++ [cd_id c]) else g) <$> groups
            else groups ++ [(root, [cd_id c])]).
Definition semantic_name (memberIds : list string) : string := ("sem:" ++ join_with ":" (sort_by str_le memberIds))%string.
Definition apply_group (now : string) (overlay : MergeOverlay) (group : string * list string) : MergeOverlay :=
  if (length group.2 <? 2)%nat then overlay
  else
    let memberIds := sort_by str_le group.2 in
    let groupId := ("sem:" ++ join_with ":" memberIds)%string in
    record_merge act_merge now "system" memberIds groupId (set_all groupId memberIds (mo_groupMap overlay)) overlay.
Definition autoMergeBySimilarity (clusters : list RunCluster) (threshold : Double) (now : string) (overlay : MergeOverlay)
  : MergeOverlay :=
  let l := candidates clusters overlay in
  let forest := foldl (fun parent p => union_plain parent p.1 p.2) ∅ (similar_pairs threshold l) in
  let groups := (foldl collect_group (forest, []) l).2 in
  foldl (apply_group now) overlay groups.
(** Without a name, the caller's array is sorted in place. *)
Definition manualMerge (clusterIds : list string) (actor : string) (groupId : option string) (now : string)
    (overlay : MergeOverlay) : MergeOverlay :=
  if (length clusterIds <? 2)%nat then overlay
  else
    let '(ids, resolvedId) := match groupId with
                              | Some g => (clusterIds, g)
                              | None => (sort_by str_le clusterIds,
                                         ("manual:" ++ join_with ":" (sort_by str_le clusterIds))%string) end in
    record_merge act_merge now actor ids resolvedId (set_all resolvedId ids (mo_groupMap overlay)) overlay.
Definition splitGroup (groupId actor now : string) (overlay : MergeOverlay) : MergeOverlay :=
  let clusterIds := (List.filter (fun e => bool_decide (e.2 = groupId)) (mo_groupMap overlay)).*1 in
  let groupMap := List.filter (fun e => negb (bool_decide (e.2 = groupId))) (mo_groupMap overlay) in
  if (0 <? length clusterIds)%nat then record_merge act_split now actor clusterIds groupId groupMap overlay else overlay.

(** ** Groups *)

Record MergedClusterGroup : Type := mkGroup
  { mg_groupId : string; mg_clusters : list RunCluster; mg_fingerprint : Fingerprint; mg_totalCount : Z }.
Definition resolved_id (overlay : MergeOverlay) (c : RunCluster) : string :=
  default (rc_id c) (assoc_get (rc_id c) (mo_groupMap overlay)).
Definition new_group (groupId : string) (c : RunCluster) : MergedClusterGroup :=
  mkGroup groupId [c] (clusterFingerprint c) (rc_count c).
Definition join_group (c : RunCluster) (g : MergedClusterGroup) : MergedClusterGroup :=
  mkGroup (mg_groupId g) (mg_clusters g ++ [c]) (mg_fingerprint g) (mg_totalCount g + rc_count c).
Definition resolve_step (overlay : MergeOverlay) (groups : list MergedClusterGroup) (c : RunCluster)
  : list MergedClusterGroup :=
  let groupId := resolved_id overlay c in
  if existsb (fun g => bool_decide (mg_groupId g = groupId)) groups
  then (fun g => if bool_decide (mg_groupId g = groupId) then join_group c g else g) <$> groups
  else groups ++ [new_group groupId c].
Definition resolveGroups (locale_compare : string -> string -> Z) (clusters : list RunCluster) (overlay : MergeOverlay)
  : list MergedClusterGroup :=
  sort_by (fun a b => (if negb (mg_totalCount b =? mg_totalCount a) then mg_totalCount b - mg_totalCount a
                       else locale_compare (mg_groupId a) (mg_groupId b)) <=? 0)
    (foldl (resolve_step overlay) [] clusters).
End Fingerprints.

(** *** By hand *)

Example normalise_by_hand :
  normaliseSignature "Panic at 0x1A2B3C4D+0x1f in src/lib.rs:42:10  id:7 x:1234567" = "panic at <addr>+<offset> in src/lib.rs id x:1234567"%string /\
  tokenise "panic: at lib_rs-at" = ["at"; "lib"; "panic"; "rs"]%string.
Proof. vm_compute. done. Qed.
Definition three_quarters : Double := double_ratio 3 4.
Definition cluster_named (id signature : string) (count : Z) : RunCluster :=
  mkRunCluster id signature "c" "auth" "low" count "r" ["r"]%string.
Definition similar_clusters : list RunCluster :=
  [cluster_named "k1" "panic a b c" 1; cluster_named "k2" "trap z" 5; cluster_named "k3" "panic a b c d" 2;
   cluster_named "k4" "panic a b c d e" 3; cluster_named "k5" "panic q" 1]%string.
(** k1 and k4 are not similar enough, but k3 is similar to both. *)
Example merge_by_hand :
  let o := autoMergeBySimilarity id similar_clusters (double_ratio 4 5) "t" createOverlay in
  mo_groupMap o = [("k1", "sem:k1:k3:k4"); ("k3", "sem:k1:k3:k4"); ("k4", "sem:k1:k3:k4")]%string /\
  (fun g => (mg_groupId g, mg_totalCount g)) <$> resolveGroups id code_compare similar_clusters o
    = [("sem:k1:k3:k4", 6); ("k2", 5); ("k5", 1)]%string /\
  mo_groupMap (splitGroup "sem:k1:k3:k4" "me" "t" o) = [] /\ mo_nextSeq (splitGroup "sem:k1:k3:k4" "me" "t" o) = 3.
Proof. vm_compute. done. Qed.
(** Two components whose sorted members read the same share a group. *)
Example semantic_names_collide :
  let o := autoMergeBySimilarity id
    [cluster_named "a" "panic x" 1; cluster_named "b:c" "panic x" 1; cluster_named "a:b" "trap y" 1; cluster_named "c" "trap y" 1]%string
    three_quarters "t" createOverlay in
  mo_groupMap o = [("a", "sem:a:b:c"); ("b:c", "sem:a:b:c"); ("a:b", "sem:a:b:c"); ("c", "sem:a:b:c")]%string.
Proof. vm_compute. done. Qed.

(** ** The map *)

Lemma group_of_set_all (g x : string) (ids : list string) : forall m,
  assoc_get x (set_all g ids m) = if bool_decide (x ∈ ids) then Some g else assoc_get x m.
Proof.
  unfold set_all. induction ids as [|id ids IH]; intros m; cbn [foldl].
  { by rewrite bool_decide_eq_false_2 by apply not_elem_of_nil. }
  rewrite IH, assoc_get_set. rewrite (bool_decide_ext (x ∈ id :: ids) (x = id \/ x ∈ ids)) by apply elem_of_cons.
  destruct (bool_decide_reflect (x ∈ ids)), (bool_decide_reflect (x = id));
    (rewrite bool_decide_eq_true_2 by tauto; done) || (rewrite bool_decide_eq_false_2 by tauto; done).
Qed.
Lemma set_all_keys (g : string) (ids : list string) : forall m, NoDup m.*1 -> NoDup (set_all g ids m).*1.
Proof.
  unfold set_all. induction ids as [|id ids IH]; intros m Hm; cbn; [done|]. apply IH. by apply assoc_set_keys.
Qed.

(** ** Automatic merging *)

Lemma pairs_classes (pairs : list (string * string)) :
  classes (foldl (fun parent p => union_plain parent p.1 p.2) ∅ pairs) pairs.
Proof.
  induction pairs as [|[a b] pairs IH] using rev_ind; [apply classes_empty|]. rewrite foldl_app. cbn.
  by apply union_plain_classes.
Qed.

Section Groups.
Context (rep : string -> string) (h : string -> nat).

Definition root_key (c : Candidate) : option string := Some (rep (cd_id c)).
Definition members (l : list Candidate) (root : string) : list string := cd_id <$> own root_key root l.

Lemma collect_table (l : list Candidate) : forall parent groups, represents parent rep h ->
  (foldl collect_group (parent, groups) l).2
  = foldl (table_add root_key fst (fun k c => (k, [cd_id c])) (fun c g => (g.1, g.2 ++ [cd_id c]))) groups l.
Proof.
  induction l as [|c l IH]; intros parent groups Hr; [done|]. cbn [foldl]. unfold collect_group at 2.
  destruct (find_spec parent rep h (cd_id c) Hr) as (Hroot & Hr' & _).
  destruct (UnionFind.find parent (cd_id c)) as [parent' root]. cbn [fst snd] in *. subst root. by rewrite IH.
Qed.
Lemma collected (l : list Candidate) (parent : gmap string string) : represents parent rep h ->
  (foldl collect_group (parent, []) l).2 = (fun root => (root, members l root)) <$> firsts (rep <$> (cd_id <$> l)).
Proof.
  intros Hr. rewrite (collect_table l parent [] Hr), table_entries by done. unfold entries.
  assert (E : omap root_key l = rep <$> (cd_id <$> l)).
  { clear. induction l as [|c l IH]; [done|]. rewrite omap_step, IH. done. }
  rewrite E. assert (Hin : forall k, k ∈ firsts (rep <$> (cd_id <$> l)) -> k ∈ omap root_key l).
  { intros k Hk. rewrite elem_of_firsts in Hk. by rewrite E. }
  revert Hin. generalize (firsts (rep <$> (cd_id <$> l))). induction l0 as [|k ks IH]; intros Hin; [done|].
  rewrite omap_step, (entry_pairs root_key cd_id k l (Hin k ltac:(by left))). cbn. f_equal. apply IH.
  intros k' Hk'. apply Hin. by right.
Qed.
Lemma elem_of_members (l : list Candidate) (root id : string) :
  id ∈ members l root <-> id ∈ cd_id <$> l /\ rep id = root.
Proof.
  unfold members, own. rewrite !list_elem_of_fmap. split.
  - intros (c & -> & Hc). apply list_elem_of_In, filter_In in Hc as [Hc E]. apply bool_decide_eq_true in E.
    injection E as E. split; [|done]. exists c. split; [done|by apply list_elem_of_In].
  - intros [(c & -> & Hc) E]. exists c. split; [done|]. apply list_elem_of_In, filter_In. split; [by apply list_elem_of_In|].
    apply bool_decide_eq_true. unfold root_key. by rewrite E.
Qed.
Lemma members_nodup (l : list Candidate) (root : string) : NoDup (cd_id <$> l) -> NoDup (members l root).
Proof.
  unfold members, own. induction l as [|c l IH]; [done|]. cbn. intros [Hc Hn]%NoDup_cons.
  destruct (bool_decide _); cbn; [|by apply IH]. apply NoDup_cons. split; [|by apply IH].
  intros (c' & E & Hc')%list_elem_of_fmap. apply Hc. rewrite E. apply list_elem_of_fmap_2.
  apply list_elem_of_In, filter_In in Hc' as [Hc' _]. by apply list_elem_of_In.
Qed.

(** What the groups do to one entry of the map. *)
Lemma apply_groups (now : string) (l : list Candidate) (id : string) (roots : list string) : forall overlay,
  NoDup roots ->
  assoc_get id (mo_groupMap (foldl (apply_group now) overlay ((fun root => (root, members l root)) <$> roots)))
  = if bool_decide (rep id ∈ roots /\ id ∈ cd_id <$> l) && (2 <=? length (members l (rep id)))%nat
    then Some (semantic_name (members l (rep id))) else assoc_get id (mo_groupMap overlay).
Proof.
  induction roots as [|root roots IH]; intros overlay Hn; cbn [fmap list_fmap foldl].
  { rewrite bool_decide_eq_false_2; [done|]. intros [H%elem_of_nil _]. done. }
  apply NoDup_cons in Hn as [Hroot Hn]. rewrite IH by done. unfold apply_group at 1. cbn [snd].
  rewrite (bool_decide_ext (rep id ∈ root :: roots /\ id ∈ cd_id <$> l)
             ((rep id = root \/ rep id ∈ roots) /\ id ∈ cd_id <$> l)) by (by rewrite elem_of_cons).
  assert (Hset : forall g, assoc_get id (set_all g (sort_by str_le (members l root)) (mo_groupMap overlay))
                 = if bool_decide (id ∈ cd_id <$> l /\ rep id = root) then Some g else assoc_get id (mo_groupMap overlay)).
  { intros g. rewrite group_of_set_all. rewrite (bool_decide_ext _ (id ∈ cd_id <$> l /\ rep id = root)); [done|].
    rewrite elem_of_sort_by. apply elem_of_members. }
  destruct (decide (id ∈ cd_id <$> l)) as [Hid|Hid].
  - destruct (decide (rep id = root)) as [Er|Er].
    + rewrite Er in *. rewrite (bool_decide_eq_false_2 (root ∈ roots /\ _)) by tauto.
      rewrite (bool_decide_eq_true_2 ((root = root \/ _) /\ _)) by tauto. cbn [andb].
      destruct (Nat.ltb_spec (length (members l root)) 2); [by rewrite (proj2 (Nat.leb_gt _ _)) by lia|].
      rewrite (proj2 (Nat.leb_le _ _)) by lia. cbn [record_merge mo_groupMap]. rewrite Hset. by rewrite bool_decide_eq_true_2.
    + rewrite (bool_decide_ext ((rep id = root \/ rep id ∈ roots) /\ id ∈ cd_id <$> l) (rep id ∈ roots /\ id ∈ cd_id <$> l)) by tauto.
      destruct (_ && _); [done|]. destruct (_ <? _)%nat; [done|]. cbn [record_merge mo_groupMap]. rewrite Hset.
      by rewrite bool_decide_eq_false_2 by tauto.
  - rewrite !(bool_decide_eq_false_2 (_ /\ id ∈ cd_id <$> l)) by tauto. cbn [andb].
    destruct (_ <? _)%nat; [done|]. cbn [record_merge mo_groupMap]. rewrite Hset. by rewrite bool_decide_eq_false_2 by tauto.
Qed.
End Groups.

Section Candidates.
Context (digest : string -> string).

Lemma candidate_ids (clusters : list RunCluster) (overlay : MergeOverlay) :
  NoDup (rc_id <$> clusters) ->
  NoDup (cd_id <$> candidates digest clusters overlay) /\
  forall id, id ∈ cd_id <$> candidates digest clusters overlay <->
    id ∈ rc_id <$> clusters /\ assoc_get id (mo_groupMap overlay) = None.
Proof.
  unfold candidates. induction clusters as [|c clusters IH].
  { intros _. split; [constructor|]. intros id. pose proof (not_elem_of_nil id). cbn. tauto. }
  rewrite omap_step, fmap_app, fmap_cons. intros [Hc Hn]%NoDup_cons. destruct (IH Hn) as [H1 H2]. revert H1 H2.
  generalize (cd_id <$> omap (fun c => match assoc_get (rc_id c) (mo_groupMap overlay) with
    | Some _ => None | None => Some (mkCandidate (rc_id c) (clusterFingerprint digest c)) end) clusters) as rest.
  intros rest H1 H2. destruct (assoc_get (rc_id c) (mo_groupMap overlay)) as [g|] eqn:Eg; cbn.
  - split; [done|]. intros id. rewrite H2, elem_of_cons. split; [tauto|]. intros [[->|?] E]; [congruence|done].
  - split.
    + apply NoDup_cons. split; [|done]. rewrite H2. tauto.
    + intros id. rewrite !elem_of_cons, H2. cbn. split; [intros [->|?]; tauto|tauto].
Qed.
End Candidates.


(** ** The audit trail *)

Inductive overlay_op : Type :=
  | ov_auto (clusters : list RunCluster) (threshold : Double) (now : string)
  | ov_merge (clusterIds : list string) (actor : string) (groupId : option string) (now : string)
  | ov_split (groupId actor now : string).
Definition overlay_step (digest : string -> string) (overlay : MergeOverlay) (op : overlay_op) : MergeOverlay :=
  match op with
  | ov_auto clusters threshold now => autoMergeBySimilarity digest clusters threshold now overlay
  | ov_merge clusterIds actor groupId now => manualMerge clusterIds actor groupId now overlay
  | ov_split groupId actor now => splitGroup groupId actor now overlay
  end.
(** What an audit entry says was done. *)
Definition replay_merge_entry (m : list (string * string)) (e : MergeAuditEntry) : list (string * string) :=
  match ma_action e with
  | act_merge => set_all (ma_groupId e) (ma_clusterIds e) m
  | act_split => foldl (fun m id => map_delete id m) m (ma_clusterIds e)
  end.
Record overlay_ok (overlay : MergeOverlay) : Prop := mkOverlayOk
  { oo_keys : NoDup (mo_groupMap overlay).*1;
    oo_replay : foldl replay_merge_entry [] (mo_auditLog overlay) = mo_groupMap overlay;
    oo_seqs : ma_seq <$> mo_auditLog overlay = seqZ 1 (Z.of_nat (length (mo_auditLog overlay)));
    oo_next : mo_nextSeq overlay = Z.of_nat (length (mo_auditLog overlay)) + 1 }.

Lemma record_merge_ok (action : MergeAction) (now actor : string) (clusterIds : list string) (groupId : string)
    (groupMap : list (string * string)) (overlay : MergeOverlay) :
  overlay_ok overlay -> NoDup groupMap.*1 ->
  replay_merge_entry (mo_groupMap overlay) (mkMergeEntry (mo_nextSeq overlay) action now actor clusterIds groupId) = groupMap ->
  overlay_ok (record_merge action now actor clusterIds groupId groupMap overlay).
Proof.
  intros [Hk Hr Hs Hn] Hk' Hr'. unfold record_merge. split; cbn [mo_groupMap mo_auditLog mo_nextSeq].
  - done.
  - by rewrite foldl_app, Hr.
  - rewrite fmap_app, Hs, length_app, Hn. cbn. rewrite Nat2Z.inj_add, seqZ_app by lia. cbn.
    f_equal. change (Z.of_nat 1) with 1. rewrite seqZ_cons by lia. cbn. f_equal. lia.
  - rewrite length_app. cbn. lia.
Qed.
Lemma delete_all (ids : list string) : forall m,
  foldl (fun m id => map_delete id m) m ids = List.filter (fun e => negb (bool_decide (e.1 ∈ ids))) m.
Proof.
  induction ids as [|id ids IH]; intros m; cbn [foldl].
  { rewrite keep_all; [done|]. intros e _. by rewrite bool_decide_eq_false_2 by apply not_elem_of_nil. }
  rewrite IH. unfold map_delete. induction m as [|e m IHm]; [done|]. cbn [List.filter].
  rewrite (bool_decide_ext (e.1 ∈ id :: ids) (e.1 = id \/ e.1 ∈ ids)) by apply elem_of_cons.
  destruct (bool_decide_reflect (e.1 = id)) as [E|E]; cbn [negb].
  - rewrite bool_decide_eq_true_2 by tauto. exact IHm.
  - cbn [List.filter]. rewrite (bool_decide_ext (e.1 = id \/ e.1 ∈ ids) (e.1 ∈ ids)) by tauto.
    destruct (negb _); [by rewrite IHm|exact IHm].
Qed.
Lemma keep_keys (p : string * string -> bool) (m : list (string * string)) : NoDup m.*1 -> NoDup (List.filter p m).*1.
Proof.
  induction m as [|e m IH]; [done|]. cbn. intros [He Hn]%NoDup_cons. destruct (p e); cbn; [|by apply IH].
  apply NoDup_cons. split; [|by apply IH]. intros (e' & E & Hin)%list_elem_of_fmap. apply He. rewrite E.
  apply list_elem_of_fmap_2. apply list_elem_of_In, filter_In in Hin as [Hin _]. by apply list_elem_of_In.
Qed.
Lemma keys_apart (m : list (string * string)) (a b : string * string) :
  NoDup m.*1 -> a ∈ m -> b ∈ m -> a.1 = b.1 -> a = b.
Proof.
  induction m as [|e m IH]; [by intros _ ?%elem_of_nil|]. cbn.
  intros [He Hn]%NoDup_cons [->|Ha]%elem_of_cons [->|Hb]%elem_of_cons E; [done| | |by apply IH].
  - destruct He. rewrite E. by apply list_elem_of_fmap_2.
  - destruct He. rewrite <- E. by apply list_elem_of_fmap_2.
Qed.
(** Deleting the keys of a group deletes exactly its entries. *)
Lemma delete_group (g : string) (m : list (string * string)) : NoDup m.*1 ->
  foldl (fun m id => map_delete id m) m (List.filter (fun e => bool_decide (e.2 = g)) m).*1
  = List.filter (fun e => negb (bool_decide (e.2 = g))) m.
Proof.
  intros Hn. rewrite delete_all. apply List.filter_ext_in. intros e He. f_equal. apply bool_decide_ext. split.
  - intros (e' & E & Hin)%list_elem_of_fmap. apply list_elem_of_In, filter_In in Hin as [Hin Hg].
    apply bool_decide_eq_true in Hg. apply list_elem_of_In in He, Hin. by rewrite (keys_apart m e e' Hn He Hin E).
  - intros Hg. apply list_elem_of_fmap_2, list_elem_of_In, filter_In. split; [done|by apply bool_decide_eq_true].
Qed.

Lemma overlay_step_ok (digest : string -> string) (overlay : MergeOverlay) (op : overlay_op) :
  overlay_ok overlay -> overlay_ok (overlay_step digest overlay op).
Proof.
  intros Ho. destruct op as [clusters threshold now|ids actor groupId now|g actor now]; cbn [overlay_step].
  - unfold autoMergeBySimilarity. cbv zeta. set (groups := (foldl collect_group _ _).2). clearbody groups.
    revert overlay Ho. induction groups as [|group groups IH]; intros overlay Ho; cbn; [done|]. apply IH.
    unfold apply_group. destruct (_ <? _)%nat; [done|]. cbv zeta. apply record_merge_ok; [done|apply set_all_keys, Ho|done].
  - unfold manualMerge. destruct (_ <? _)%nat; [done|].
    destruct groupId as [g|]; (apply record_merge_ok; [done|apply set_all_keys, Ho|done]).
  - unfold splitGroup. cbv zeta. destruct (_ <? _)%nat; [|done].
    apply record_merge_ok; [done|apply keep_keys, Ho|]. apply delete_group, Ho.
Qed.

Lemma group_of_kept (p : string * string -> bool) (id : string) (m : list (string * string)) : NoDup m.*1 ->
  assoc_get id (List.filter p m) = match assoc_get id m with Some g => if p (id, g) then Some g else None | None => None end.
Proof.
  induction m as [|[k v] m IH]; [done|]. cbn. intros [Hk Hn]%NoDup_cons. specialize (IH Hn).
  destruct (decide (k = id)) as [->|Hne].
  - destruct (p (id, v)) eqn:E; cbn; [by rewrite decide_True|]. rewrite IH.
    destruct (assoc_get id m) as [g|] eqn:Eg; [|done]. exfalso. apply Hk. clear -Eg. induction m as [|[k w] m IH]; [done|].
    cbn in *. destruct (decide (k = id)) as [->|]; [by left|right; by apply IH].
  - destruct (p (k, v)); cbn; [by rewrite decide_False|exact IH].
Qed.

(** The audit trail of the overlay tells the whole story.  After any automatic merges,
    manual merges and splits, replaying the log from nothing, each merge and each split
    by the clusters it names, gives exactly the map of groups; the entries are numbered
    1, 2, 3, ...; and a further split of a group leaves no cluster in it and every other
    cluster where it was. *)
Theorem overlay_replays (digest : string -> string) (ops : list overlay_op) (g actor now : string) :
  let overlay := foldl (overlay_step digest) createOverlay ops in
  foldl replay_merge_entry [] (mo_auditLog overlay) = mo_groupMap overlay /\
  ma_seq <$> mo_auditLog overlay = seqZ 1 (Z.of_nat (length (mo_auditLog overlay))) /\
  mo_nextSeq overlay = Z.of_nat (length (mo_auditLog overlay)) + 1 /\
  forall id, assoc_get id (mo_groupMap (splitGroup g actor now overlay))
    = if bool_decide (assoc_get id (mo_groupMap overlay) = Some g) then None else assoc_get id (mo_groupMap overlay).
Proof.
  intros overlay. assert (Ho : overlay_ok overlay).
  { unfold overlay. assert (H0 : overlay_ok createOverlay) by (split; [constructor|done|done|done]). revert H0.
    generalize createOverlay. induction ops as [|op ops IH]; intros o H; cbn; [done|]. by apply IH, overlay_step_ok. }
  destruct Ho as [Hk Hr Hs Hn]. split_and!; [done|done|done|]. intros id.
  pose proof (group_of_kept (fun e => negb (bool_decide (e.2 = g))) id (mo_groupMap overlay) Hk) as Hkept.
  assert (Hsplit : mo_groupMap (splitGroup g actor now overlay) = List.filter (fun e => negb (bool_decide (e.2 = g))) (mo_groupMap overlay)).
  { unfold splitGroup. cbv zeta. destruct (Nat.ltb_spec 0 (length (List.filter (fun e => bool_decide (e.2 = g)) (mo_groupMap overlay)).*1)) as [|H0]; [done|].
    rewrite length_fmap in H0. symmetry. apply keep_all. intros e He. apply negb_true_iff, bool_decide_eq_false.
    intros E. assert (Hin : In e (List.filter (fun e => bool_decide (e.2 = g)) (mo_groupMap overlay))).
    { apply filter_In. split; [by apply list_elem_of_In|by apply bool_decide_eq_true]. }
    destruct (List.filter (fun e => bool_decide (e.2 = g)) (mo_groupMap overlay)); [destruct Hin|cbn in H0; lia]. }
  rewrite Hsplit, Hkept. destruct (assoc_get id (mo_groupMap overlay)) as [g'|]; cbn; [|by rewrite bool_decide_eq_false_2].
  rewrite (bool_decide_ext (Some g' = Some g) (g' = g)) by naive_solver. by destruct (bool_decide (g' = g)).
Qed.

(** ** Resolution *)

Lemma resolve_entry (digest : string -> string) (overlay : MergeOverlay) (clusters : list RunCluster) (k : string)
    (g : MergedClusterGroup) :
  entry (fun c => Some (resolved_id overlay c)) (new_group digest) join_group k clusters = Some g ->
  mg_groupId g = k /\ mg_clusters g = own (fun c => Some (resolved_id overlay c)) k clusters /\
  mg_totalCount g = sum_of rc_count (mg_clusters g).
Proof.
  unfold entry. destruct (own _ k clusters) as [|c l]; [done|]. intros [= <-].
  assert (H : forall l g, let g' := foldl (fun g c => join_group c g) g l in
    mg_groupId g' = mg_groupId g /\ mg_clusters g' = mg_clusters g ++ l /\
    mg_totalCount g' = mg_totalCount g + sum_of rc_count l).
  { clear. induction l as [|x l IH]; intros g; cbn [foldl]; cbv zeta.
    - rewrite app_nil_r. unfold sum_of. cbn. split_and!; [done|done|lia].
    - destruct (IH (join_group x g)) as (-> & -> & ->). cbn. rewrite <- app_assoc, sum_of_cons. split_and!; [done|done|lia]. }
  destruct (H l (new_group digest k c)) as (-> & -> & ->). cbn [new_group mg_groupId mg_clusters mg_totalCount app].
  rewrite sum_of_cons. done.
Qed.

(** The groups shown partition the clusters.  There is one group per resolved name;
    it holds exactly the clusters of that name, in order, and the sum of their counts. *)
Theorem resolve_partition (digest : string -> string) (locale_compare : string -> string -> Z)
    (clusters : list RunCluster) (overlay : MergeOverlay) :
  let groups := resolveGroups digest locale_compare clusters overlay in
  mg_groupId <$> groups ≡ₚ firsts (resolved_id overlay <$> clusters) /\
  forall g, g ∈ groups ->
    mg_clusters g = List.filter (fun c => bool_decide (resolved_id overlay c = mg_groupId g)) clusters /\
    mg_totalCount g = sum_of rc_count (mg_clusters g).
Proof.
  intros groups. set (key := fun c => Some (resolved_id overlay c)).
  assert (Hp : groups ≡ₚ entries key (new_group digest) join_group clusters).
  { unfold groups, resolveGroups. rewrite sort_by_perm.
    by rewrite <- (table_entries key mg_groupId (new_group digest) join_group). }
  assert (Ekey : omap key clusters = resolved_id overlay <$> clusters).
  { clear. induction clusters as [|c l IH]; [done|]. by rewrite omap_step, IH. }
  split.
  - rewrite Hp. unfold entries. rewrite Ekey.
    assert (Hall : forall l, (forall k, k ∈ l -> k ∈ omap key clusters) ->
      mg_groupId <$> (omap (fun k => entry key (new_group digest) join_group k clusters) l : list MergedClusterGroup) = l).
    { induction l as [|k l IH]; intros Hin; [done|]. rewrite omap_step, fmap_app, IH by (intros; apply Hin; by right).
      destruct (proj1 (entry_some key (new_group digest) join_group k clusters) (Hin k ltac:(by left))) as [g Hg].
      rewrite Hg. cbn. f_equal. by apply resolve_entry in Hg as [-> _]. }
    rewrite Hall; [done|]. intros k Hk. rewrite elem_of_firsts in Hk. by rewrite Ekey.
  - intros g Hg. rewrite Hp in Hg. apply list_elem_of_omap in Hg as (k & _ & Hg).
    apply resolve_entry in Hg as (-> & -> & Ht). split; [|exact Ht]. unfold own. apply List.filter_ext. intros c.
    apply bool_decide_ext. naive_solver.
Qed.
