(* ===== verification/TimelineSync.v ===== *)
(** [lib/timeline-sync/index.ts]: log entries correlated with the frames of a sequence
    diagram, and the navigation between them.

    Timestamps and orders are integers.  A [Map] is the list of its entries in insertion
    order; the loop of the search is bounded by the number of logs. *)

From S2P Require Import Prelude JsString JsNumber.
From stdpp Require Import base list sets fin_sets gmap strings numbers sorting.
From Stdlib Require Import ZArith Lia.
#[local] Open Scope Z_scope.

Inductive LogLevel : Type := lv_debug | lv_info | lv_warn | lv_error.
Record LogEntry : Type := mkLog
  { lg_id : string; lg_timestamp : Z; lg_level : LogLevel; lg_message : string; lg_runId : string;
    lg_stepId : option string; lg_sequenceOrder : option Z }.
Inductive FrameStatus : Type := fs_ok | fs_error | fs_pending.
Record SequenceFrame : Type := mkFrame
  { sf_id : string; sf_order : Z; sf_caller : string; sf_callee : string; sf_method : string; sf_status : FrameStatus;
    sf_durationMs : Z; sf_timestamp : option Z }.
(** [logToSequence] and [sequenceToLogs]. *)
Record Links : Type := mkLinks { lk_frame : list (string * string); lk_logs : list (string * list string) }.
Record TimelineIndex : Type := mkIndex
  { ti_logEntries : list (string * LogEntry); ti_sequenceFrames : list (string * SequenceFrame); ti_links : Links;
    ti_orderedLogIds : list string; ti_orderedSequenceIds : list string }.
Record CorrelationConfig : Type := mkConfig { cc_epsilonMs : Z; cc_useSequenceOrder : bool }.
Definition DEFAULT_CORRELATION_CONFIG : CorrelationConfig := mkConfig 100 true.

Definition link (logId frameId : string) (l : Links) : Links :=
  mkLinks (assoc_set logId frameId (lk_frame l))
    (assoc_set frameId (default [] (assoc_get frameId (lk_logs l)) ++ [logId]) (lk_logs l)).
Definition linked_log (l : Links) (e : LogEntry) : bool := bool_decide (is_Some (assoc_get (lg_id e) (lk_frame l))).

(** First pass: the step or the order a log names. *)
Definition explicit_frame (frames : list (string * SequenceFrame)) (sorted : list SequenceFrame) (e : LogEntry) : option string :=
  match truthy (lg_stepId e) with
  | Some stepId =>
      if bool_decide (is_Some (assoc_get stepId frames)) then Some stepId
      else match lg_sequenceOrder e with
           | Some order => sf_id <$> List.find (fun f => sf_order f =? order) sorted
           | None => None end
  | None => match lg_sequenceOrder e with
            | Some order => sf_id <$> List.find (fun f => sf_order f =? order) sorted
            | None => None end
  end.
Definition link_to (frame_of : LogEntry -> option string) (l : Links) (e : LogEntry) : Links :=
  match frame_of e with Some frameId => link (lg_id e) frameId l | None => l end.

(** Second pass: the closest frame with a timestamp, no further than epsilon. *)
Definition closer (epsilon at_ : Z) (acc : option string * Z) (f : SequenceFrame) : option string * Z :=
  match sf_timestamp f with
  | None => acc
  | Some t =>
      if t =? 0 then acc
      else let diff := Z.abs (at_ - t) in
           if (diff <? acc.2) && (diff <=? epsilon) then (Some (sf_id f), diff) else acc
  end.
Definition closest_frame (epsilon : Z) (sorted : list SequenceFrame) (e : LogEntry) : option string :=
  (foldl (closer epsilon (lg_timestamp e)) (None, epsilon + 1) sorted).1.

(** Third pass: [Math.floor((i / n) * frames)], cut to the last frame. *)
Definition scaled_index (i n frames : Z) : Z :=
  let '(m, e) := double_ratio i n in
  Z.min (floor_double (double_ratio (m * frames * 2 ^ Z.max 0 e) (2 ^ Z.max 0 (- e)))) (frames - 1).
Definition spread_link (sorted : list SequenceFrame) (n : Z) (s : Z * Links) (e : LogEntry) : Z * Links :=
  let '(i, l) := s in
  (i + 1, match sorted !! Z.to_nat (scaled_index i n (Z.of_nat (length sorted))) with
          | Some frame => link (lg_id e) (sf_id frame) l
          | None => l end).

Definition sorted_frames (frames : list SequenceFrame) : list SequenceFrame := sort_on sf_order frames.
Definition frame_map (frames : list SequenceFrame) : list (string * SequenceFrame) :=
  foldl (fun m f => assoc_set (sf_id f) f m) [] frames.
Definition unlinked (l : Links) (logs : list LogEntry) : list LogEntry := List.filter (fun e => negb (linked_log l e)) logs.
Definition first_pass (logs : list LogEntry) (frames : list SequenceFrame) : Links :=
  foldl (link_to (explicit_frame (frame_map frames) (sorted_frames frames))) (mkLinks [] []) logs.
Definition second_pass (unmatched : list LogEntry) (frames : list SequenceFrame) (config : CorrelationConfig) (l : Links) : Links :=
  foldl (link_to (closest_frame (cc_epsilonMs config) (sorted_frames frames))) l unmatched.
Definition third_pass (stillUnmatched : list LogEntry) (frames : list SequenceFrame) (config : CorrelationConfig) (l : Links) : Links :=
  let sorted := sorted_frames frames in
  if cc_useSequenceOrder config && (0 <? length stillUnmatched)%nat && (0 <? length sorted)%nat
  then (foldl (spread_link sorted (Z.of_nat (length stillUnmatched))) (0, l) stillUnmatched).2
  else l.
Definition correlate (logs : list LogEntry) (frames : list SequenceFrame) (config : CorrelationConfig) : Links :=
  let l1 := first_pass logs frames in
  let unmatched := unlinked l1 logs in
  let l2 := second_pass unmatched frames config l1 in
  third_pass (unlinked l2 unmatched) frames config l2.
Definition buildTimelineIndex (logs : list LogEntry) (frames : list SequenceFrame) (config : CorrelationConfig)
  : TimelineIndex :=
  mkIndex (foldl (fun m e => assoc_set (lg_id e) e m) [] logs) (frame_map frames)
    (correlate logs frames config) (lg_id <$> sort_on lg_timestamp logs) (sf_id <$> sorted_frames frames).

(** ** Navigation *)

Definition getCorrelatedFrame (index : TimelineIndex) (logEntryId : string) : option SequenceFrame :=
  match truthy (assoc_get logEntryId (lk_frame (ti_links index))) with
  | None => None
  | Some frameId => assoc_get frameId (ti_sequenceFrames index)
  end.
Definition getCorrelatedLogs (index : TimelineIndex) (frameId : string) : list LogEntry :=
  omap (fun id => assoc_get id (ti_logEntries index)) (default [] (assoc_get frameId (lk_logs (ti_links index)))).

(** The log at a position of the timeline. *)
Definition log_at (index : TimelineIndex) (i : Z) : option LogEntry :=
  match ti_orderedLogIds index !! Z.to_nat i with Some id => assoc_get id (ti_logEntries index) | None => None end.
Fixpoint search_log (fuel : nat) (index : TimelineIndex) (timestamp left right : Z) (best : LogEntry) (bestDiff : Z)
  : option LogEntry :=
  match fuel with
  | O => Some best
  | S fuel' =>
      if right <? left then Some best
      else
        let mid := (left + right) / 2 in
        match log_at index mid with
        | None => None
        | Some entry =>
            let diff := Z.abs (lg_timestamp entry - timestamp) in
            let '(best', bestDiff') := if diff <? bestDiff then (entry, diff) else (best, bestDiff) in
            if lg_timestamp entry <? timestamp then search_log fuel' index timestamp (mid + 1) right best' bestDiff'
            else if timestamp <? lg_timestamp entry then search_log fuel' index timestamp left (mid - 1) best' bestDiff'
            else Some entry
        end
  end.
Definition findLogByTimestamp (index : TimelineIndex) (timestamp : Z) : option LogEntry :=
  match log_at index 0 with
  | None => None
  | Some first =>
      search_log (length (ti_orderedLogIds index)) index timestamp 0 (Z.of_nat (length (ti_orderedLogIds index)) - 1)
        first (Z.abs (lg_timestamp first - timestamp))
  end.
Definition findFrameByOrder (index : TimelineIndex) (order : Z) : option SequenceFrame :=
  List.find (fun f => sf_order f =? order) (ti_sequenceFrames index).*2.

Fixpoint index_of_id (id : string) (l : list string) : option nat :=
  match l with [] => None | x :: l' => if decide (x = id) then Some 0%nat else S <$> index_of_id id l' end.
Inductive Direction : Type := dir_next | dir_prev.
(** The id before or after one. *)
Definition adjacent_id (ids : list string) (id : string) (direction : Direction) : option string :=
  match index_of_id id ids, direction with
  | None, _ => None
  | Some i, dir_next => ids !! S i
  | Some O, dir_prev => None
  | Some (S i), dir_prev => ids !! i
  end.
Definition getAdjacentLog (index : TimelineIndex) (logEntryId : string) (direction : Direction) : option LogEntry :=
  match adjacent_id (ti_orderedLogIds index) logEntryId direction with
  | Some id => assoc_get id (ti_logEntries index) | None => None end.
Definition getAdjacentFrame (index : TimelineIndex) (frameId : string) (direction : Direction) : option SequenceFrame :=
  match adjacent_id (ti_orderedSequenceIds index) frameId direction with
  | Some id => assoc_get id (ti_sequenceFrames index) | None => None end.
Definition isFrameMappingAmbiguous (index : TimelineIndex) (frameId : string) : bool :=
  (1 <? length (default [] (assoc_get frameId (lk_logs (ti_links index)))))%nat.
Definition isMappingAmbiguous (index : TimelineIndex) (logEntryId : string) : bool :=
  match truthy (assoc_get logEntryId (lk_frame (ti_links index))) with
  | None => false
  | Some frameId => isFrameMappingAmbiguous index frameId
  end.

(** *** By hand *)

Definition log_named (id : string) (t : Z) (stepId : option string) (order : option Z) : LogEntry :=
  mkLog id t lv_info "m" "run" stepId order.
Definition frame_of_order (id : string) (order : Z) (t : option Z) : SequenceFrame :=
  mkFrame id order "a" "b" "m" fs_ok 5 t.
Definition demo_index : TimelineIndex :=
  buildTimelineIndex
    [log_named "l3" 350 None None; log_named "l1" 110 None None; log_named "l2" 190 (Some "s1") None; log_named "l4" 900 None None;
     log_named "l5" 40 (Some "none") (Some 2)]%string
    [frame_of_order "s2" 2 (Some 200); frame_of_order "s1" 1 (Some 100); frame_of_order "s3" 3 (Some 300)]%string
    DEFAULT_CORRELATION_CONFIG.
Example index_by_hand :
  lk_frame (ti_links demo_index) = [("l2", "s1"); ("l5", "s2"); ("l3", "s3"); ("l1", "s1"); ("l4", "s1")]%string /\
  ti_orderedLogIds demo_index = ["l5"; "l1"; "l2"; "l3"; "l4"]%string /\
  lg_id <$> findLogByTimestamp demo_index 260 = Some "l2"%string /\
  lg_id <$> getAdjacentLog demo_index "l1" dir_prev = Some "l5"%string /\
  isMappingAmbiguous demo_index "l4" = true /\ isMappingAmbiguous demo_index "l3" = false.
Proof. vm_compute. done. Qed.

(** ** Links *)

Definition frame_of (l : Links) (id : string) : option string := assoc_get id (lk_frame l).
Definition logs_of (l : Links) (f : string) : list string := default [] (assoc_get f (lk_logs l)).
(** The two maps are inverse to each other. *)
Record links_ok (l : Links) : Prop := mkLinksOk
  { lo_inverse : forall id f, frame_of l id = Some f <-> id ∈ logs_of l f;
    lo_once : forall f, NoDup (logs_of l f) }.

Lemma no_links_ok : links_ok (mkLinks [] []).
Proof.
  split; [|intros f; constructor]. intros id f. split; [done|]. intros H. by apply elem_of_nil in H.
Qed.
Lemma frame_of_link (l : Links) (id f x : string) :
  frame_of (link id f l) x = if bool_decide (x = id) then Some f else frame_of l x.
Proof. apply assoc_get_set. Qed.
Lemma logs_of_link (l : Links) (id f g : string) :
  logs_of (link id f l) g = if bool_decide (g = f) then logs_of l f ++ [id] else logs_of l g.
Proof. unfold logs_of, link. cbn [lk_logs]. rewrite assoc_get_set. destruct (bool_decide (g = f)); reflexivity. Qed.
Lemma link_ok (l : Links) (id f : string) : links_ok l -> frame_of l id = None -> links_ok (link id f l).
Proof.
  intros [Hi Ho] Hid. assert (Hnone : forall g, id ∉ logs_of l g) by (intros g Hg%Hi; congruence).
  split.
  - intros x g. rewrite frame_of_link, logs_of_link. destruct (bool_decide_reflect (x = id)) as [->|Hx].
    + destruct (bool_decide_reflect (g = f)) as [->|Hg].
      * split; [intros _|done]. apply elem_of_app. right. by left.
      * split; [congruence|]. intros H. by destruct (Hnone g).
    + rewrite Hi. destruct (bool_decide_reflect (g = f)) as [->|Hg]; [|done].
      rewrite elem_of_app, list_elem_of_singleton. tauto.
  - intros g. rewrite logs_of_link. destruct (bool_decide_reflect (g = f)) as [->|Hg]; [|done].
    apply NoDup_app. split; [done|]. split; [|apply NoDup_singleton].
    intros x Hx ->%list_elem_of_singleton. by destruct (Hnone f).
Qed.

(** One pass: each log to its frame, if it has one. *)
Definition link_opt (l : Links) (p : string * option string) : Links :=
  match p.2 with Some f => link p.1 f l | None => l end.
Lemma pass_spec (ps : list (string * option string)) : forall l,
  NoDup ps.*1 -> (forall id, id ∈ ps.*1 -> frame_of l id = None) -> links_ok l ->
  let l' := foldl link_opt l ps in
  links_ok l' /\ (forall id o, (id, o) ∈ ps -> frame_of l' id = o) /\
  forall id, id ∉ ps.*1 -> frame_of l' id = frame_of l id.
Proof.
  induction ps as [|[id o] ps IH]; intros l Hn Hun Hl; cbn [foldl].
  { split_and!; [done| |done]. intros id o H. by apply elem_of_nil in H. }
  cbn in Hn. apply NoDup_cons in Hn as [Hid Hn]. set (l1 := link_opt l (id, o)).
  assert (H1 : frame_of l1 id = o /\ (forall x, x <> id -> frame_of l1 x = frame_of l x) /\ links_ok l1).
  { unfold l1, link_opt. cbn. destruct o as [f|].
    - split_and!; [rewrite frame_of_link; by rewrite bool_decide_eq_true_2|intros x Hx; rewrite frame_of_link; by rewrite bool_decide_eq_false_2|].
      apply link_ok; [done|]. apply Hun. by left.
    - split_and!; [|done|done]. apply Hun. by left. }
  destruct H1 as (E1 & E2 & Hl1). destruct (IH l1 Hn) as (H1 & H2 & H3).
  - intros x Hx. rewrite E2; [|by intros ->]. apply Hun. by right.
  - done.
  - split_and!; [done| |].
    + intros x p [E|Hin]%elem_of_cons; [|by apply H2]. injection E as -> ->. by rewrite H3.
    + intros x Hx. cbn in Hx. rewrite not_elem_of_cons in Hx. destruct Hx as [Hx Hx']. rewrite H3 by done. by apply E2.
Qed.

Lemma link_to_pass (target : LogEntry -> option string) (es : list LogEntry) : forall l,
  foldl (link_to target) l es = foldl link_opt l ((fun e => (lg_id e, target e)) <$> es).
Proof. induction es as [|e es IH]; intros l; [done|]. cbn. by rewrite IH. Qed.
Definition spread_target (sorted : list SequenceFrame) (n i : Z) : option string :=
  sf_id <$> sorted !! Z.to_nat (scaled_index i n (Z.of_nat (length sorted))).
Lemma spread_pass (sorted : list SequenceFrame) (n : Z) (es : list LogEntry) : forall i l,
  (foldl (spread_link sorted n) (i, l) es).2
  = foldl link_opt l (imap (fun k e => (lg_id e, spread_target sorted n (i + Z.of_nat k))) es).
Proof.
  induction es as [|e es IH]; intros i l; [done|]. rewrite imap_cons. cbn [foldl]. unfold spread_link at 2. rewrite IH. f_equal.
  - unfold link_opt, spread_target. cbn. rewrite Z.add_0_r. by destruct (sorted !! _).
  - apply imap_ext. intros k x _. unfold compose.
    replace (i + 1 + Z.of_nat k) with (i + Z.of_nat (S k)) by lia. reflexivity.
Qed.

Lemma double_ratio_nonneg (n d : Z) : 0 <= n -> 0 < d -> 0 <= (double_ratio n d).1.
Proof.
  intros Hn Hd. unfold double_ratio. destruct (Z.eqb_spec n 0); [done|]. cbv zeta.
  set (e := Z.max (-1074) _). cbn [fst]. pose proof (Z.pow_pos_nonneg 2 (Z.max 0 (- e)) ltac:(lia) ltac:(lia)).
  pose proof (Z.pow_pos_nonneg 2 (Z.max 0 e) ltac:(lia) ltac:(lia)).
  assert (Hp : 0 <= n * 2 ^ Z.max 0 (- e)) by (apply Z.mul_nonneg_nonneg; lia).
  assert (Hq : 0 < d * 2 ^ Z.max 0 e) by (apply Z.mul_pos_pos; lia).
  pose proof (round_half_even_bounds _ _ Hp Hq) as [Hb _]. pose proof (Z.div_pos _ _ Hp Hq). lia.
Qed.
Lemma floor_double_nonneg (x : Z * Z) : 0 <= x.1 -> 0 <= floor_double x.
Proof.
  destruct x as [m e]. cbn. intros Hm. destruct (Z.leb_spec 0 e).
  - pose proof (Z.pow_nonneg 2 e ltac:(lia)). nia.
  - apply Z.div_pos; [lia|]. apply Z.pow_pos_nonneg; lia.
Qed.
Lemma scaled_index_bounds (i n frames : Z) : 0 <= i -> 0 < n -> 0 < frames -> 0 <= scaled_index i n frames < frames.
Proof.
  intros Hi Hn Hf. unfold scaled_index. pose proof (double_ratio_nonneg i n Hi Hn) as Hm.
  destruct (double_ratio i n) as [m e]. cbn in Hm.
  assert (H : 0 <= floor_double (double_ratio (m * frames * 2 ^ Z.max 0 e) (2 ^ Z.max 0 (- e)))).
  { apply floor_double_nonneg, double_ratio_nonneg; [|apply Z.pow_pos_nonneg; lia].
    pose proof (Z.pow_nonneg 2 (Z.max 0 e) ltac:(lia)). nia. }
  lia.
Qed.

(** ** The closest frame *)

Definition dated (f : SequenceFrame) (t : Z) : Prop := sf_timestamp f = Some t /\ t <> 0.
Lemma closest_spec (epsilon : Z) (sorted : list SequenceFrame) (e : LogEntry) : 0 <= epsilon ->
  match closest_frame epsilon sorted e with
  | Some id => exists f t, f ∈ sorted /\ sf_id f = id /\ dated f t /\ Z.abs (lg_timestamp e - t) <= epsilon /\
      forall g u, g ∈ sorted -> dated g u -> Z.abs (lg_timestamp e - t) <= Z.abs (lg_timestamp e - u)
  | None => forall g u, g ∈ sorted -> dated g u -> epsilon < Z.abs (lg_timestamp e - u)
  end.
Proof.
  intros He. unfold closest_frame. set (at_ := lg_timestamp e).
  assert (H : forall l, let acc := foldl (closer epsilon at_) (None, epsilon + 1) l in
    (forall g u, g ∈ l -> dated g u -> Z.min acc.2 (epsilon + 1) <= Z.abs (at_ - u) \/ epsilon < Z.abs (at_ - u)) /\
    match acc.1 with
    | Some id => exists f t, f ∈ l /\ sf_id f = id /\ dated f t /\ acc.2 = Z.abs (at_ - t) /\ acc.2 <= epsilon
    | None => acc.2 = epsilon + 1
    end).
  { induction l as [|f l IH] using rev_ind; cbv zeta; [split; [by intros ? ? ?%elem_of_nil|done]|].
    cbv zeta in IH. rewrite foldl_app. cbn [foldl]. set (acc := foldl (closer epsilon at_) (None, epsilon + 1) l) in *.
    destruct IH as [H1 H2].
    assert (Hkeep : match acc.1 with
      | Some id => exists f0 t, f0 ∈ l ++ [f] /\ sf_id f0 = id /\ dated f0 t /\ acc.2 = Z.abs (at_ - t) /\ acc.2 <= epsilon
      | None => acc.2 = epsilon + 1 end).
    { destruct acc.1; [|done]. destruct H2 as (g & t & Hg & H2). exists g, t. split; [|done]. apply elem_of_app. by left. }
    unfold closer. destruct (sf_timestamp f) as [t|] eqn:Et.
    2: { split; [|exact Hkeep]. intros g u [Hg|Hg%list_elem_of_singleton]%elem_of_app; [exact (H1 g u Hg)|]. subst g. intros [E _]. congruence. }
    destruct (Z.eqb_spec t 0) as [Hz|Hz].
    { split; [|exact Hkeep]. intros g u [Hg|Hg%list_elem_of_singleton]%elem_of_app; [exact (H1 g u Hg)|]. subst g. intros [E Hu]. congruence. }
    destruct (Z.ltb_spec (Z.abs (at_ - t)) acc.2) as [Hlt|Hge]; cbn [andb];
      [destruct (Z.leb_spec (Z.abs (at_ - t)) epsilon) as [Hle|Hgt]|]; cbn [fst snd].
    - split.
      + intros g u [Hg|Hg%list_elem_of_singleton]%elem_of_app Hd; [destruct (H1 g u Hg Hd); lia|].
        subst g. destruct Hd as [E _]. rewrite Et in E. injection E as <-. lia.
      + exists f, t. split; [apply elem_of_app; right; by left|done].
    - split; [|exact Hkeep]. intros g u [Hg|Hg%list_elem_of_singleton]%elem_of_app Hd; [exact (H1 g u Hg Hd)|].
      subst g. destruct Hd as [E _]. rewrite Et in E. injection E as <-. lia.
    - split; [|exact Hkeep]. intros g u [Hg|Hg%list_elem_of_singleton]%elem_of_app Hd; [exact (H1 g u Hg Hd)|].
      subst g. destruct Hd as [E _]. rewrite Et in E. injection E as <-. lia. }
  destruct (H sorted) as [H1 H2]. cbv zeta in H1, H2. set (acc := foldl _ _ sorted) in *.
  destruct acc.1 as [id|] eqn:Ea.
  - destruct H2 as (f & t & Hf & Hid & Hd & E & Hle). exists f, t. split_and!; [done|done|exact Hd|lia|].
    intros g u Hg Hu. destruct (H1 g u Hg Hu); lia.
  - intros g u Hg Hu. destruct (H1 g u Hg Hu); lia.
Qed.

(** ** The index *)

(** Where a log ends up. *)
Definition destination (logs : list LogEntry) (frames : list SequenceFrame) (config : CorrelationConfig) (e : LogEntry)
    (o : option string) : Prop :=
  match explicit_frame (frame_map frames) (sorted_frames frames) e with
  | Some f => o = Some f
  | None =>
      match closest_frame (cc_epsilonMs config) (sorted_frames frames) e with
      | Some f => o = Some f
      | None => if cc_useSequenceOrder config && (0 <? length frames)%nat
                then exists frame, frame ∈ frames /\ o = Some (sf_id frame) else o = None
      end
  end.

Lemma log_ids_apart (logs : list LogEntry) (a b : LogEntry) :
  NoDup (lg_id <$> logs) -> a ∈ logs -> b ∈ logs -> lg_id a = lg_id b -> a = b.
Proof.
  induction logs as [|e logs IH]; [by intros _ ?%elem_of_nil|]. cbn.
  intros [He Hn]%NoDup_cons [->|Ha]%elem_of_cons [->|Hb]%elem_of_cons E; [done| | |by apply IH].
  - destruct He. rewrite E. by apply list_elem_of_fmap_2.
  - destruct He. rewrite <- E. by apply list_elem_of_fmap_2.
Qed.
Lemma unlinked_ids (l : Links) (es : list LogEntry) : NoDup (lg_id <$> es) -> NoDup (lg_id <$> unlinked l es).
Proof.
  unfold unlinked. induction es as [|e es IH]; [done|]. cbn. intros [He Hn]%NoDup_cons.
  destruct (negb (linked_log l e)); cbn; [|by apply IH].
  apply NoDup_cons. split; [|by apply IH]. intros (x & E & Hx)%list_elem_of_fmap. apply He. rewrite E.
  apply list_elem_of_fmap_2. apply list_elem_of_In, filter_In in Hx as [Hx _]. by apply list_elem_of_In.
Qed.
(** A pass over logs that are not linked yet. *)
Lemma pass_over (target : LogEntry -> option string) (es : list LogEntry) (l : Links) :
  NoDup (lg_id <$> es) -> (forall e, e ∈ es -> frame_of l (lg_id e) = None) -> links_ok l ->
  let l' := foldl (link_to target) l es in
  links_ok l' /\ (forall e, e ∈ es -> frame_of l' (lg_id e) = target e) /\
  forall id, id ∉ lg_id <$> es -> frame_of l' id = frame_of l id.
Proof.
  intros Hn Hun Hl. cbv zeta. rewrite link_to_pass.
  assert (E : ((fun e => (lg_id e, target e)) <$> es).*1 = lg_id <$> es) by (rewrite <- list_fmap_compose; done).
  destruct (pass_spec ((fun e => (lg_id e, target e)) <$> es) l) as (H1 & H2 & H3).
  - by rewrite E.
  - rewrite E. intros id (e & -> & He)%list_elem_of_fmap. by apply Hun.
  - done.
  - rewrite E in H3. split_and!; [done| |done]. intros e He. apply H2.
    exact (list_elem_of_fmap_2 (fun e => (lg_id e, target e)) es e He).
Qed.
Lemma not_linked (l : Links) (e : LogEntry) : negb (linked_log l e) = true <-> frame_of l (lg_id e) = None.
Proof.
  unfold linked_log, frame_of. rewrite negb_true_iff, bool_decide_eq_false. destruct (assoc_get _ _); split; try done.
  intros H. destruct H. by eexists.
Qed.
Lemma elem_of_unlinked (l : Links) (es : list LogEntry) (e : LogEntry) :
  e ∈ unlinked l es <-> e ∈ es /\ frame_of l (lg_id e) = None.
Proof. unfold unlinked. rewrite !list_elem_of_In, filter_In, not_linked. done. Qed.
Lemma imap_fst {A B} (f : A -> string) (g : nat -> A -> B) (l : list A) :
  (imap (fun k e => (f e, g k e)) l).*1 = f <$> l.
Proof. revert g. induction l as [|a l IH]; intros g; [done|]. rewrite imap_cons. cbn. f_equal. apply (IH (fun k => g (S k))). Qed.

Lemma spread_over (sorted : list SequenceFrame) (es : list LogEntry) (l : Links) :
  NoDup (lg_id <$> es) -> (forall e, e ∈ es -> frame_of l (lg_id e) = None) -> links_ok l -> (0 < length sorted)%nat ->
  let l' := (foldl (spread_link sorted (Z.of_nat (length es))) (0, l) es).2 in
  links_ok l' /\ (forall e, e ∈ es -> exists frame, frame ∈ sorted /\ frame_of l' (lg_id e) = Some (sf_id frame)) /\
  forall id, id ∉ lg_id <$> es -> frame_of l' id = frame_of l id.
Proof.
  intros Hn Hun Hl Hs. cbv zeta. rewrite spread_pass. set (target := fun (k : nat) (_ : LogEntry) =>
    spread_target sorted (Z.of_nat (length es)) (0 + Z.of_nat k)).
  assert (E : (imap (fun k e => (lg_id e, target k e)) es).*1 = lg_id <$> es) by apply imap_fst.
  destruct (pass_spec (imap (fun k e => (lg_id e, target k e)) es) l) as (H1 & H2 & H3).
  - by rewrite E.
  - rewrite E. intros id (e & -> & He)%list_elem_of_fmap. by apply Hun.
  - done.
  - rewrite E in H3. split_and!; [exact H1| |exact H3]. intros e He. apply list_elem_of_lookup in He as [i Hi].
    pose proof (lookup_lt_Some _ _ _ Hi) as Hlt.
    pose proof (scaled_index_bounds (0 + Z.of_nat i) (Z.of_nat (length es)) (Z.of_nat (length sorted)) ltac:(lia) ltac:(lia) ltac:(lia)) as Hb.
    destruct (lookup_lt_is_Some_2 sorted (Z.to_nat (scaled_index (0 + Z.of_nat i) (Z.of_nat (length es)) (Z.of_nat (length sorted))))
      ltac:(lia)) as [frame Hframe].
    exists frame. split; [by eapply list_elem_of_lookup_2|]. apply H2. apply list_elem_of_lookup. exists i.
    rewrite list_lookup_imap, Hi. cbn [fmap option_fmap option_map]. unfold target, spread_target. by rewrite Hframe.
Qed.

(** The third pass, run or not. *)
Lemma third_pass_spec (still : list LogEntry) (frames : list SequenceFrame) (config : CorrelationConfig) (l : Links) :
  NoDup (lg_id <$> still) -> (forall e, e ∈ still -> frame_of l (lg_id e) = None) -> links_ok l ->
  let l' := third_pass still frames config l in
  links_ok l' /\
  (forall e, e ∈ still -> if cc_useSequenceOrder config && (0 <? length frames)%nat
     then exists frame, frame ∈ frames /\ frame_of l' (lg_id e) = Some (sf_id frame) else frame_of l' (lg_id e) = None) /\
  forall id, id ∉ lg_id <$> still -> frame_of l' id = frame_of l id.
Proof.
  intros Hn Hun Hl. unfold third_pass. cbv zeta.
  assert (Hlen : length (sorted_frames frames) = length frames) by apply sort_by_length. rewrite Hlen.
  destruct (cc_useSequenceOrder config && (0 <? length still)%nat && (0 <? length frames)%nat) eqn:Eb.
  - apply andb_true_iff in Eb as [[-> _]%andb_true_iff Ef]. rewrite Ef. cbn [andb].
    destruct (spread_over (sorted_frames frames) still l Hn Hun Hl) as (O3 & E3 & K3); [rewrite Hlen; by apply Nat.ltb_lt|].
    split_and!; [exact O3| |exact K3]. intros e He. destruct (E3 e He) as (frame & Hfr & E). exists frame. split; [|done].
    unfold sorted_frames in Hfr. by rewrite sort_on_perm in Hfr.
  - split_and!; [done| |done]. intros e He.
    destruct (cc_useSequenceOrder config && (0 <? length frames)%nat) eqn:Ec; [|by apply Hun].
    exfalso. apply andb_true_iff in Ec as [Eu Ef]. rewrite Eu, Ef in Eb. destruct still; [by apply elem_of_nil in He|done].
Qed.

(** The correlation is a two-way index.  For logs with distinct ids: the map from logs
    to frames and the map from frames to logs are inverse to each other, and no log is
    listed twice; a log goes to the frame of the step it names, else to the one of the
    order it names, else to the frame closest in time within epsilon, and else, if the
    order is used and there are frames, to some frame of the diagram: then no log is
    left out. *)
Theorem timeline_links (logs : list LogEntry) (frames : list SequenceFrame) (config : CorrelationConfig) :
  NoDup (lg_id <$> logs) ->
  let links := ti_links (buildTimelineIndex logs frames config) in
  (forall id f, frame_of links id = Some f <-> id ∈ logs_of links f) /\ (forall f, NoDup (logs_of links f)) /\
  (forall e, e ∈ logs -> destination logs frames config e (frame_of links (lg_id e))) /\
  forall id, id ∉ lg_id <$> logs -> frame_of links id = None.
Proof.
  intros Hn. cbv zeta. cbn [ti_links buildTimelineIndex]. unfold correlate. cbv zeta.
  destruct (pass_over (explicit_frame (frame_map frames) (sorted_frames frames)) logs (mkLinks [] []) Hn) as (O1 & E1 & K1);
    [done|apply no_links_ok|]. fold (first_pass logs frames) in O1, E1, K1. set (l1 := first_pass logs frames) in *.
  pose proof (elem_of_unlinked l1 logs) as Hun. pose proof (unlinked_ids l1 logs Hn) as Hn2. set (unmatched := unlinked l1 logs) in *.
  destruct (pass_over (closest_frame (cc_epsilonMs config) (sorted_frames frames)) unmatched l1 Hn2) as (O2 & E2 & K2);
    [by intros e [_ ?]%Hun|done|]. fold (second_pass unmatched frames config l1) in O2, E2, K2.
  set (l2 := second_pass unmatched frames config l1) in *.
  pose proof (elem_of_unlinked l2 unmatched) as Hst. pose proof (unlinked_ids l2 unmatched Hn2) as Hn3.
  set (still := unlinked l2 unmatched) in *.
  destruct (third_pass_spec still frames config l2 Hn3) as (O3 & E3 & K3); [by intros e [_ ?]%Hst|done|].
  set (l3 := third_pass still frames config l2) in *.
  assert (Hnot : forall (e : LogEntry) (es : list LogEntry), e ∈ logs -> (forall x, x ∈ es -> x ∈ logs) -> e ∉ es ->
    lg_id e ∉ lg_id <$> es).
  { intros e es He Hsub Hout (x & E & Hx)%list_elem_of_fmap. apply Hout. by rewrite (log_ids_apart logs e x Hn He (Hsub x Hx) E). }
  assert (Hsub2 : forall x, x ∈ unmatched -> x ∈ logs) by (by intros x [? _]%Hun).
  assert (Hsub3 : forall x, x ∈ still -> x ∈ logs) by (intros x [? _]%Hst; by apply Hsub2).
  split_and!; [apply O3|apply O3| |].
  - intros e He. unfold destination. rewrite <- (E1 e He). destruct (frame_of l1 (lg_id e)) as [f|] eqn:F1.
    + assert (Hu : e ∉ unmatched) by (rewrite Hun; intros [_ ?]; congruence).
      rewrite K3, K2; [done|by apply Hnot|]. apply Hnot; [done|done|]. by intros [? _]%Hst.
    + assert (Hu : e ∈ unmatched) by (by apply Hun). rewrite <- (E2 e Hu).
      destruct (frame_of l2 (lg_id e)) as [f|] eqn:F2; [|by apply E3, Hst].
      rewrite K3; [done|]. apply Hnot; [done|done|]. intros [_ ?]%Hst. congruence.
  - intros id Hid. rewrite K3, K2, K1; [done|done| |]; intros (x & -> & Hx)%list_elem_of_fmap;
      apply Hid, list_elem_of_fmap_2; [by apply Hsub2|by apply Hsub3].
Qed.
Lemma timeline_links_witness :
  let links := ti_links demo_index in
  frame_of links "l4" = Some "s1"%string /\ logs_of links "s1" = ["l2"; "l1"; "l4"]%string /\
  (forall id f, frame_of links id = Some f <-> id ∈ logs_of links f).
Proof.
  split; [by vm_compute|]. split; [by vm_compute|]. apply timeline_links. apply (bool_decide_eq_true_1 _). vm_compute. done.
Defined.

(** ** The nearest log *)

Section Search.
Context (index : TimelineIndex) (sorted : list LogEntry) (t : Z).
Hypothesis Hat : forall i, log_at index i = sorted !! Z.to_nat i.
Hypothesis Hsorted : StronglySorted (fun a b => lg_timestamp a <= lg_timestamp b) sorted.

Definition distance (e : LogEntry) : Z := Z.abs (lg_timestamp e - t).
Lemma sorted_le (i j : nat) (a b : LogEntry) :
  sorted !! i = Some a -> sorted !! j = Some b -> (i <= j)%nat -> lg_timestamp a <= lg_timestamp b.
Proof.
  clear Hat. revert i j. induction Hsorted as [|x l Hl IH Hx]; intros [|i] [|j] Ha Hb Hij; try done; cbn in *.
  - injection Ha as <-. injection Hb as <-. lia.
  - injection Ha as <-. rewrite Forall_forall in Hx. apply Hx. by eapply list_elem_of_lookup_2.
  - lia.
  - apply (IH Hl i j); [done|done|lia].
Qed.

Lemma search_log_nearest (fuel : nat) : forall left right best,
  0 <= left -> right < Z.of_nat (length sorted) -> right - left < Z.of_nat fuel -> best ∈ sorted ->
  (forall i e, sorted !! i = Some e -> Z.of_nat i < left \/ right < Z.of_nat i -> distance best <= distance e) ->
  exists e, search_log fuel index t left right best (distance best) = Some e /\ e ∈ sorted /\
    forall i e', sorted !! i = Some e' -> distance e <= distance e'.
Proof.
  induction fuel as [|fuel IH]; intros left right best Hl Hr Hf Hb Hout; cbn [search_log].
  { exists best. split_and!; [done|done|]. intros i e Hi. apply (Hout i e Hi). lia. }
  destruct (Z.ltb_spec right left).
  { exists best. split_and!; [done|done|]. intros i e Hi. apply (Hout i e Hi). lia. }
  set (mid := (left + right) / 2). assert (Hmid : left <= mid <= right).
  { split; [apply Z.div_le_lower_bound; lia|apply Z.div_le_upper_bound; lia]. }
  rewrite Hat. destruct (lookup_lt_is_Some_2 sorted (Z.to_nat mid) ltac:(lia)) as [entry He]. rewrite He. cbv zeta.
  fold (distance entry). assert (Hin : entry ∈ sorted) by (by eapply list_elem_of_lookup_2).
  set (b := if distance entry <? distance best then entry else best).
  assert (Hpair : (if distance entry <? distance best then (entry, distance entry) else (best, distance best)) = (b, distance b))
    by (unfold b; by destruct (_ <? _)).
  rewrite Hpair. clear Hpair.
  assert (Hb' : b ∈ sorted) by (unfold b; by destruct (_ <? _)).
  assert (Hbe : distance b <= distance entry) by (unfold b; destruct (Z.ltb_spec (distance entry) (distance best)); lia).
  assert (Hbb : distance b <= distance best) by (unfold b; destruct (Z.ltb_spec (distance entry) (distance best)); lia).
  destruct (Z.ltb_spec (lg_timestamp entry) t) as [Hlt|Hge]; [|destruct (Z.ltb_spec t (lg_timestamp entry)) as [Hgt|Hle]].
  - apply IH; [lia|lia|lia|done|]. intros i e Hi Hor. destruct (decide (Z.of_nat i < left \/ right < Z.of_nat i)) as [Ho|Ho].
    + pose proof (Hout i e Hi Ho). lia.
    + pose proof (sorted_le i (Z.to_nat mid) e entry Hi He ltac:(lia)). unfold distance in *. lia.
  - apply IH; [lia|lia|lia|done|]. intros i e Hi Hor. destruct (decide (Z.of_nat i < left \/ right < Z.of_nat i)) as [Ho|Ho].
    + pose proof (Hout i e Hi Ho). lia.
    + pose proof (sorted_le (Z.to_nat mid) i entry e He Hi ltac:(lia)). unfold distance in *. lia.
  - exists entry. split_and!; [done|done|]. intros i e _. unfold distance. lia.
Qed.
End Search.

Lemma log_map_get (logs : list LogEntry) (e : LogEntry) : NoDup (lg_id <$> logs) -> e ∈ logs ->
  assoc_get (lg_id e) (foldl (fun m e => assoc_set (lg_id e) e m) [] logs) = Some e.
Proof.
  induction logs as [|x logs IH] using rev_ind; [by intros _ ?%elem_of_nil|]. rewrite fmap_app, foldl_app. cbn [foldl].
  intros (Hn & Hd & _)%NoDup_app He. rewrite assoc_get_set. apply elem_of_app in He as [He| ->%list_elem_of_singleton].
  - rewrite bool_decide_eq_false_2; [by apply IH|]. intros E. apply (Hd (lg_id e)); [by apply list_elem_of_fmap_2|].
    rewrite E. by left.
  - by rewrite bool_decide_eq_true_2.
Qed.
Lemma log_at_sorted (logs : list LogEntry) (frames : list SequenceFrame) (config : CorrelationConfig) (i : Z) :
  NoDup (lg_id <$> logs) ->
  log_at (buildTimelineIndex logs frames config) i = sort_on lg_timestamp logs !! Z.to_nat i.
Proof.
  intros Hn. unfold log_at. cbn [ti_orderedLogIds ti_logEntries buildTimelineIndex]. rewrite list_lookup_fmap.
  destruct (sort_on lg_timestamp logs !! Z.to_nat i) as [e|] eqn:E; [|done]. cbn. apply log_map_get; [done|].
  apply list_elem_of_lookup_2 in E. by rewrite sort_on_perm in E.
Qed.

(** The search by timestamp ends and returns a nearest log.  For logs with distinct ids,
    as many steps as there are logs are enough, and the log found is in the index and
    no further from the timestamp than any other; there is none only without logs. *)
Theorem findLog_nearest (logs : list LogEntry) (frames : list SequenceFrame) (config : CorrelationConfig) (t : Z) :
  NoDup (lg_id <$> logs) ->
  match findLogByTimestamp (buildTimelineIndex logs frames config) t with
  | Some e => e ∈ logs /\ forall e', e' ∈ logs -> Z.abs (lg_timestamp e - t) <= Z.abs (lg_timestamp e' - t)
  | None => logs = []
  end.
Proof.
  intros Hn. set (sorted := sort_on lg_timestamp logs). set (index := buildTimelineIndex logs frames config).
  assert (Hat : forall i, log_at index i = sorted !! Z.to_nat i) by (intros i; by apply log_at_sorted).
  assert (Hp : sorted ≡ₚ logs) by apply sort_on_perm.
  assert (Hlen : length (ti_orderedLogIds index) = length sorted) by apply length_fmap.
  unfold findLogByTimestamp. rewrite Hat, Hlen. change (Z.to_nat 0) with 0%nat.
  destruct (sorted !! 0%nat) as [first|] eqn:E0.
  2: { apply lookup_ge_None in E0. apply Permutation_nil. rewrite <- Hp. by destruct sorted; [|cbn in E0; lia]. }
  fold (distance t first). pose proof (lookup_lt_Some _ _ _ E0).
  destruct (search_log_nearest index sorted t Hat (sort_on_sorted _ _) (length sorted) 0 (Z.of_nat (length sorted) - 1) first)
    as (e & He & Hin & Hmin); [lia|lia|lia|by eapply list_elem_of_lookup_2| |].
  - intros i e Hi Ho. apply lookup_lt_Some in Hi. lia.
  - rewrite He. split; [by rewrite <- Hp|]. intros e' He'. rewrite <- Hp in He'. apply list_elem_of_lookup in He' as [i Hi].
    by apply (Hmin i e').
Qed.
Lemma findLog_nearest_witness :
  lg_id <$> findLogByTimestamp demo_index 280 = Some "l3"%string /\
  match findLogByTimestamp demo_index 280 with
  | Some e => forall e', e' ∈ [log_named "l3" 350 None None; log_named "l1" 110 None None; log_named "l2" 190 (Some "s1") None;
                               log_named "l4" 900 None None; log_named "l5" 40 (Some "none") (Some 2)]%string ->
              Z.abs (lg_timestamp e - 280) <= Z.abs (lg_timestamp e' - 280)
  | None => False
  end.
Proof.
  split; [by vm_compute|]. unfold demo_index.
  match goal with |- context [buildTimelineIndex ?logs ?frames ?config] =>
    pose proof (findLog_nearest logs frames config 280) as H; destruct (findLogByTimestamp (buildTimelineIndex logs frames config) 280)
  end.
  - apply H. apply (bool_decide_eq_true_1 _). vm_compute. done.
  - discriminate H. apply (bool_decide_eq_true_1 _). vm_compute. done.
Defined.
