(* ===== verification/RunComparison.v ===== *)
(** [lib/comparison]: the difference of two runs by signature ([delta.ts]), the sides
    built from stored runs ([from-run.ts]) and the shareable links ([url-state.ts]).

    Numbers are integers, [None] where they are not finite.  The encoding of
    [URLSearchParams] is an argument. *)

From S2P Require Import Prelude JsString CampaignTimeline FailureClusters.
From stdpp Require Import base list sets fin_sets gmap strings numbers sorting.
From Stdlib Require Import ZArith Lia Ascii.
#[local] Open Scope Z_scope.
#[local] Arguments String.append !_ _ / : simpl nomatch.
#[local] Arguments sum_of : simpl never.

Definition MAX_COMPARISON_SIGNATURES : nat := 200.
Record SignatureSample : Type := mkSample
  { ss_signature : string; ss_count : option Z; ss_failureClass : option string; ss_contract : option string;
    ss_severity : option string }.
(** A sample after normalisation. *)
Record SignatureTotal : Type := mkTotal
  { st_signature : string; st_count : Z; st_failureClass : option string; st_contract : option string;
    st_severity : option string }.
Record ComparisonMetrics : Type := mkMetrics
  { cm_seeds : Z; cm_failures : Z; cm_durationMs : Z; cm_coveragePercent : option Z }.
Record ComparisonRow : Type := mkRow
  { cw_signature : string; cw_baseCount : Z; cw_candidateCount : Z; cw_delta : Z; cw_failureClass : option string;
    cw_contract : option string; cw_severity : option string }.
Inductive MetricKey : Type := mk_seeds | mk_failures | mk_durationMs | mk_coveragePercent.
Inductive MetricDirection : Type := md_up | md_down | md_flat.
Record MetricDelta : Type := mkMetricDelta
  { mt_key : MetricKey; mt_label : string; mt_unit : option string; mt_base : Z; mt_candidate : Z; mt_delta : Z;
    mt_direction : MetricDirection; mt_higherIsBetter : bool }.
Record ComparisonTotals : Type := mkTotals
  { to_baseSignatures : Z; to_candidateSignatures : Z; to_added : Z; to_removed : Z; to_changed : Z; to_unchanged : Z }.
Record ComparisonDelta : Type := mkDelta
  { de_added : list ComparisonRow; de_removed : list ComparisonRow; de_changed : list ComparisonRow;
    de_unchanged : list ComparisonRow; de_metrics : list MetricDelta; de_totals : ComparisonTotals }.
Record ComparisonSide : Type := mkSide
  { sd_runId : string; sd_label : string; sd_signatures : list SignatureSample; sd_metrics : ComparisonMetrics }.
Record ComparisonTooLargeError : Type := mkTooLarge { tl_signatureCount : nat; tl_limit : nat }.

(** ** Normalisation *)

Definition first_some {A} (a b : option A) : option A := match a with Some _ => a | None => b end.
Definition sample_count (sample : SignatureSample) : Z := Z.max 0 (default 0 (ss_count sample)).
(** The signature of a sample that counts. *)
Definition sample_key (sample : SignatureSample) : option string :=
  let signature := trim (ss_signature sample) in
  if bool_decide (signature = EmptyString) then None
  else if sample_count sample <=? 0 then None else Some signature.
Definition first_total (signature : string) (sample : SignatureSample) : SignatureTotal :=
  mkTotal signature (sample_count sample) (ss_failureClass sample) (ss_contract sample) (ss_severity sample).
Definition add_sample_to_total (sample : SignatureSample) (t : SignatureTotal) : SignatureTotal :=
  mkTotal (st_signature t) (st_count t + sample_count sample) (first_some (st_failureClass t) (ss_failureClass sample))
    (first_some (st_contract t) (ss_contract sample)) (first_some (st_severity t) (ss_severity sample)).
Definition normalise_step (totals : list SignatureTotal) (sample : SignatureSample) : list SignatureTotal :=
  match sample_key sample with
  | None => totals
  | Some signature =>
      if existsb (fun t => bool_decide (st_signature t = signature)) totals
      then (fun t => if bool_decide (st_signature t = signature) then add_sample_to_total sample t else t) <$> totals
      else totals ++ [first_total signature sample]
  end.
Definition normaliseSignatures (samples : list SignatureSample) : list SignatureTotal := foldl normalise_step [] samples.

(** ** Rows *)

Definition compareRows (a b : ComparisonRow) : Z :=
  let byVolume := Z.abs (cw_delta b) - Z.abs (cw_delta a) in
  if negb (byVolume =? 0) then byVolume
  else match String.compare (cw_signature a) (cw_signature b) with Lt => -1 | Gt => 1 | Eq => 0 end.
Definition sort_rows (rows : list ComparisonRow) : list ComparisonRow := sort_by (fun a b => compareRows a b <=? 0) rows.
Definition find_total (signature : string) (totals : list SignatureTotal) : option SignatureTotal :=
  List.find (fun t => bool_decide (st_signature t = signature)) totals.
Definition count_of (t : option SignatureTotal) : Z := default 0 (st_count <$> t).
Definition comparison_row (base candidate : list SignatureTotal) (signature : string) : ComparisonRow :=
  let b := find_total signature base in
  let c := find_total signature candidate in
  mkRow signature (count_of b) (count_of c) (count_of c - count_of b)
    (first_some (c ≫= st_failureClass) (b ≫= st_failureClass)) (first_some (c ≫= st_contract) (b ≫= st_contract))
    (first_some (c ≫= st_severity) (b ≫= st_severity)).
Inductive RowKind : Type := rk_added | rk_removed | rk_changed | rk_unchanged.
#[export] Instance RowKind_eq_dec : EqDecision RowKind.
Proof. solve_decision. Defined.
Definition row_kind (row : ComparisonRow) : RowKind :=
  if (cw_baseCount row =? 0) && (0 <? cw_candidateCount row) then rk_added
  else if (0 <? cw_baseCount row) && (cw_candidateCount row =? 0) then rk_removed
  else if negb (cw_delta row =? 0) then rk_changed else rk_unchanged.

Definition metric_copy (key : MetricKey) : string * option string * bool :=
  match key with
  | mk_seeds => ("Seeds executed", None, true)
  | mk_failures => ("Distinct crashes", None, false)
  | mk_durationMs => ("Duration", Some "ms", false)
  | mk_coveragePercent => ("Coverage", Some "%", true)
  end%string.
Definition metricDelta (key : MetricKey) (base candidate : Z) : MetricDelta :=
  let '(label, unit_, higherIsBetter) := metric_copy key in
  let delta := candidate - base in
  mkMetricDelta key label unit_ base candidate delta
    (if 0 <? delta then md_up else if delta <? 0 then md_down else md_flat) higherIsBetter.
Definition buildMetricDeltas (base candidate : list SignatureTotal) : list MetricDelta :=
  [metricDelta mk_seeds (sum_of st_count base) (sum_of st_count candidate);
   metricDelta mk_failures (Z.of_nat (length base)) (Z.of_nat (length candidate))].
Definition buildRunMetricDeltas (base candidate : ComparisonMetrics) : list MetricDelta :=
  [metricDelta mk_seeds (cm_seeds base) (cm_seeds candidate); metricDelta mk_failures (cm_failures base) (cm_failures candidate);
   metricDelta mk_durationMs (cm_durationMs base) (cm_durationMs candidate)] ++
  match cm_coveragePercent base, cm_coveragePercent candidate with
  | None, None => []
  | b, c => [metricDelta mk_coveragePercent (default 0 b) (default 0 c)]
  end.

Definition all_signatures (base candidate : list SignatureTotal) : list string :=
  firsts ((st_signature <$> base) ++ (st_signature <$> candidate)).
Definition rows_of (kind : RowKind) (rows : list ComparisonRow) : list ComparisonRow :=
  sort_rows (List.filter (fun r => bool_decide (row_kind r = kind)) rows).
Definition positive_totals (totals : list SignatureTotal) : Z := Z.of_nat (length (List.filter (fun t => 0 <? st_count t) totals)).
Definition buildComparisonDelta (baseSamples candidateSamples : list SignatureSample) (limit : nat)
  : result ComparisonTooLargeError ComparisonDelta :=
  let base := normaliseSignatures baseSamples in
  let candidate := normaliseSignatures candidateSamples in
  let signatures := all_signatures base candidate in
  if (limit <? length signatures)%nat then Err (mkTooLarge (length signatures) limit)
  else
    let rows := comparison_row base candidate <$> signatures in
    let added := rows_of rk_added rows in
    let removed := rows_of rk_removed rows in
    let changed := rows_of rk_changed rows in
    let unchanged := rows_of rk_unchanged rows in
    Ok (mkDelta added removed changed unchanged (buildMetricDeltas base candidate)
          (mkTotals (positive_totals base) (positive_totals candidate) (Z.of_nat (length added))
             (Z.of_nat (length removed)) (Z.of_nat (length changed)) (Z.of_nat (length unchanged)))).
Definition compareSides (base candidate : ComparisonSide)
  : result ComparisonTooLargeError (ComparisonSide * ComparisonSide * ComparisonDelta) :=
  match buildComparisonDelta (sd_signatures base) (sd_signatures candidate) MAX_COMPARISON_SIGNATURES with
  | Ok delta => Ok (base, candidate, delta)
  | Err e => Err e
  end.
Definition hasNoChanges (delta : ComparisonDelta) : bool :=
  (length (de_added delta) =? 0)%nat && (length (de_removed delta) =? 0)%nat && (length (de_changed delta) =? 0)%nat &&
  negb (existsb (fun m => negb (mt_delta m =? 0)) (de_metrics delta)).

(** ** Sides from stored runs *)

(** The fields of a [FuzzingRun] a side reads; the crash is its signature and category. *)
Record ComparedRun : Type := mkComparedRun
  { pr_id : string; pr_status : string; pr_area : string; pr_severity : string; pr_seedCount : option Z;
    pr_duration : option Z; pr_crash : option (string * string); pr_corpusStats : list (option Z) }.
Definition nonempty_or (a b : string) : string := if bool_decide (a = EmptyString) then b else a.
Definition crashSignature (run : ComparedRun) : option SignatureSample :=
  match pr_crash run with
  | None => None
  | Some (signature, failureCategory) =>
      let s := trim (nonempty_or signature failureCategory) in
      if bool_decide (s = EmptyString) then None
      else Some (mkSample s (Some (Z.max 1 (default 1 (pr_seedCount run)))) (Some (nonempty_or failureCategory "unknown"))
                   (truthy (Some (pr_area run))) (Some (pr_severity run)))
  end.
Definition runMetrics (run : ComparedRun) : ComparisonMetrics :=
  mkMetrics (Z.max 0 (default 0 (pr_seedCount run))) (match pr_crash run with Some _ => 1 | None => 0 end)
    (Z.max 0 (default 0 (pr_duration run)))
    (match last (pr_corpusStats run) with Some coverage => Some (default 0 coverage) | None => None end).
Definition middle_dot : string := String (ascii_of_nat 32) (String (ascii_of_nat 183) (String (ascii_of_nat 32) EmptyString)).
Definition toComparisonSide (run : ComparedRun) : ComparisonSide :=
  mkSide (pr_id run) (pr_id run ++ middle_dot ++ pr_status run)%string (option_list (crashSignature run)) (runMetrics run).

(** ** Links *)

Definition MAX_RUN_ID_LENGTH : Z := 128.
Record ComparisonSearchState : Type := mkSearch
  { se_base : string; se_candidate : string; se_failureClass : option string; se_contract : option string }.
Inductive SearchRefusal : Type := sr_missing_base | sr_missing_candidate | sr_same_run | sr_invalid_base | sr_invalid_candidate.
(** A query parameter: absent, given once or several times. *)
Inductive SearchParam : Type := sp_absent | sp_one (value : string) | sp_many (values : list string).
Definition first_param (p : SearchParam) : option string :=
  match p with sp_absent => None | sp_one v => Some v | sp_many l => head l end.
Definition slug_char (c : ascii) : bool :=
  is_digit c || ((65 <=? code c) && (code c <=? 90)) || ((97 <=? code c) && (code c <=? 122)) ||
  bool_decide (c = "."%char \/ c = "_"%char \/ c = ":"%char \/ c = "-"%char).
Definition normaliseId (p : SearchParam) : option string :=
  match first_param p with
  | None => None
  | Some raw =>
      let id := trim raw in
      if bool_decide (id = EmptyString) then None
      else if MAX_RUN_ID_LENGTH <? js_length id then None
      else if all_chars slug_char id then Some id else None
  end.
Definition normaliseFilter (p : SearchParam) : option string :=
  match first_param p with
  | None => None
  | Some raw =>
      let trimmed := trim raw in
      if bool_decide (trimmed = EmptyString) || (MAX_RUN_ID_LENGTH <? js_length trimmed) then None else Some trimmed
  end.
Definition present_param (p : SearchParam) : bool := match p with sp_absent => false | _ => true end.
Definition decodeComparisonSearch (params : string -> SearchParam) : result SearchRefusal ComparisonSearchState :=
  let base := normaliseId (params "base"%string) in
  let candidate := normaliseId (params "candidate"%string) in
  match base, candidate with
  | None, _ => if present_param (params "base"%string) then Err sr_invalid_base
               else if present_param (params "candidate"%string) && bool_decide (candidate = None)
               then Err sr_invalid_candidate else Err sr_missing_base
  | Some _, None => if present_param (params "candidate"%string) then Err sr_invalid_candidate else Err sr_missing_candidate
  | Some b, Some c =>
      if bool_decide (b = c) then Err sr_same_run
      else Ok (mkSearch b c
                 (normaliseFilter (match params "failureClass"%string with sp_absent => params "class"%string | p => p end))
                 (normaliseFilter (params "contract"%string)))
  end.
(** The parameters of a link, in order. *)
Definition search_pairs (state : ComparisonSearchState) : list (string * string) :=
  [("base", se_base state); ("candidate", se_candidate state)]%string ++
  match truthy (se_failureClass state) with Some v => [("failureClass"%string, v)] | None => [] end ++
  match truthy (se_contract state) with Some v => [("contract"%string, v)] | None => [] end.
Definition encodeComparisonSearch (form_encode : list (string * string) -> string) (state : ComparisonSearchState) : string :=
  form_encode (search_pairs state).
Definition comparisonHref (form_encode : list (string * string) -> string) (state : ComparisonSearchState) : string :=
  ("/compare?" ++ encodeComparisonSearch form_encode state)%string.
Definition matchesComparisonFilter (signature : string) (failureClass contract : option string)
    (filters : ComparisonSearchState) : bool :=
  match truthy (se_failureClass filters) with Some f => bool_decide (failureClass = Some f) | None => true end &&
  match truthy (se_contract filters) with
  | Some c => includes (to_lower (default EmptyString contract ++ " " ++ signature)%string) (to_lower c)
  | None => true
  end.

(** *** By hand *)

Definition sample_of (signature : string) (count : Z) : SignatureSample := mkSample signature (Some count) None None None.
Example comparison_by_hand :
  match buildComparisonDelta [sample_of " a " 2; sample_of "b" 1; sample_of "a" 3; sample_of "c" 4; sample_of "z" 0]
          [sample_of "b" 1; sample_of "c" 9; sample_of "d" 1; sample_of "e" 7] 200 with
  | Ok d => (cw_signature <$> de_added d, cw_signature <$> de_removed d, cw_signature <$> de_changed d, cw_signature <$> de_unchanged d)
            = (["e"; "d"], ["a"], ["c"], ["b"])%string /\ mt_delta <$> de_metrics d = [8; 1]
  | Err _ => False
  end.
Proof. vm_compute. done. Qed.
Example link_by_hand :
  decodeComparisonSearch (fun k => if decide (k = "base"%string) then sp_one " r1 " else if decide (k = "candidate"%string) then sp_many ["r2"; "x"]%string
    else if decide (k = "class"%string) then sp_one "panic" else sp_absent) = Ok (mkSearch "r1" "r2" (Some "panic"%string) None).
Proof. vm_compute. done. Qed.

(** ** Counts *)

(** How often [samples] count a signature. *)
Definition occurrences (samples : list SignatureSample) (signature : string) : Z :=
  sum_of sample_count (own sample_key signature samples).

Lemma sum_of_pos {A} (f : A -> Z) (l : list A) : (forall a, a ∈ l -> 0 < f a) -> l <> [] -> 0 < sum_of f l.
Proof.
  destruct l as [|a l]; [done|]. intros Hall _. revert a Hall. induction l as [|b l IH]; intros a Hall; rewrite sum_of_cons.
  - change (sum_of f []) with 0. pose proof (Hall a ltac:(by left)). lia.
  - pose proof (IH b ltac:(intros x Hx; apply Hall; by right)). pose proof (Hall a ltac:(by left)). lia.
Qed.
Lemma key_counts (sample : SignatureSample) (signature : string) : sample_key sample = Some signature -> 0 < sample_count sample.
Proof.
  unfold sample_key. destruct (bool_decide _); [done|]. destruct (Z.leb_spec (sample_count sample) 0); [done|]. lia.
Qed.
Lemma own_empty {R} (key : R -> option string) (k : string) (rs : list R) : k ∉ omap key rs -> own key k rs = [].
Proof.
  intros Hk. unfold own. apply keep_none. intros r Hr. apply bool_decide_eq_false. intros E. apply Hk.
  apply list_elem_of_omap. by exists r.
Qed.
Lemma total_entry (samples : list SignatureSample) (s : string) (t : SignatureTotal) :
  entry sample_key first_total add_sample_to_total s samples = Some t ->
  st_signature t = s /\ st_count t = occurrences samples s /\ 0 < st_count t.
Proof.
  intros He. assert (Hpos : 0 < occurrences samples s).
  { apply sum_of_pos.
    - intros a Ha. apply list_elem_of_In, filter_In in Ha as [_ Ha]. apply bool_decide_eq_true in Ha. by eapply key_counts.
    - intros E. unfold entry in He. by rewrite E in He. }
  revert He. unfold entry, occurrences in *. destruct (own sample_key s samples) as [|r l]; [done|]. intros [= <-].
  assert (H : forall l t, let t' := foldl (fun t r => add_sample_to_total r t) t l in
    st_signature t' = st_signature t /\ st_count t' = st_count t + sum_of sample_count l).
  { clear. induction l as [|x l IH]; intros t; cbn [foldl]; cbv zeta.
    - change (sum_of sample_count []) with 0. split; [done|lia].
    - destruct (IH (add_sample_to_total x t)) as [-> ->]. cbn. rewrite sum_of_cons. split; [done|lia]. }
  destruct (H l (first_total s r)) as [-> ->]. cbn. rewrite sum_of_cons in *. split_and!; [done|done|lia].
Qed.
Lemma normalised_entries (samples : list SignatureSample) :
  normaliseSignatures samples = entries sample_key first_total add_sample_to_total samples.
Proof. exact (table_entries sample_key st_signature first_total add_sample_to_total (fun k r => eq_refl) (fun r e => eq_refl) samples). Qed.
Lemma normalised_signatures (samples : list SignatureSample) :
  st_signature <$> normaliseSignatures samples = firsts (omap sample_key samples).
Proof.
  rewrite normalised_entries. unfold entries.
  assert (Hall : forall l, (forall k, k ∈ l -> k ∈ omap sample_key samples) ->
    st_signature <$> (omap (fun k => entry sample_key first_total add_sample_to_total k samples) l : list SignatureTotal) = l).
  { induction l as [|k l IH]; intros Hin; [done|]. rewrite omap_step, fmap_app, IH by (intros; apply Hin; by right).
    destruct (proj1 (entry_some sample_key first_total add_sample_to_total k samples) (Hin k ltac:(by left))) as [t Ht].
    rewrite Ht. cbn. f_equal. by apply total_entry in Ht as [-> _]. }
  apply Hall. intros k Hk. by rewrite elem_of_firsts in Hk.
Qed.
Lemma counted_iff (samples : list SignatureSample) (s : string) : s ∈ omap sample_key samples <-> 0 < occurrences samples s.
Proof.
  split.
  - intros H. apply (entry_some sample_key first_total add_sample_to_total) in H as [t Ht].
    apply total_entry in Ht as (_ & <- & H). done.
  - intros H. destruct (decide (s ∈ omap sample_key samples)) as [|Hn]; [done|]. unfold occurrences in H.
    rewrite own_empty in H by done. change (0 < 0) in H. lia.
Qed.
Lemma occurrences_nonneg (samples : list SignatureSample) (s : string) : 0 <= occurrences samples s.
Proof.
  destruct (decide (s ∈ omap sample_key samples)) as [H|H]; [apply counted_iff in H; lia|].
  unfold occurrences. by rewrite own_empty.
Qed.
Lemma find_count (samples : list SignatureSample) (s : string) :
  count_of (find_total s (normaliseSignatures samples)) = occurrences samples s.
Proof.
  unfold find_total, count_of. destruct (List.find _ (normaliseSignatures samples)) as [t|] eqn:E; cbn.
  - apply find_some in E as [Hin E]. apply bool_decide_eq_true in E. rewrite normalised_entries in Hin.
    apply list_elem_of_In, list_elem_of_omap in Hin as (k & _ & Hk). apply total_entry in Hk as (H1 & -> & _). congruence.
  - destruct (decide (s ∈ omap sample_key samples)) as [H|H].
    + exfalso. rewrite <- elem_of_firsts, <- normalised_signatures in H. apply list_elem_of_fmap in H as (t & -> & Ht).
      apply list_elem_of_In in Ht. pose proof (find_none _ _ E _ Ht) as F. cbn in F. by apply bool_decide_eq_false in F.
    + unfold occurrences. by rewrite own_empty.
Qed.

(** ** The rows of a comparison *)

Definition row_view (r : ComparisonRow) : string * Z * Z := (cw_signature r, cw_baseCount r, cw_candidateCount r).
Definition view_le (a b : string * Z * Z) : Prop :=
  Z.abs (b.2 - b.1.2) < Z.abs (a.2 - a.1.2) \/ Z.abs (b.2 - b.1.2) = Z.abs (a.2 - a.1.2) /\ str_le a.1.1 b.1.1 = true.

Section Rows.
Context (baseSamples candidateSamples : list SignatureSample).
Let base := normaliseSignatures baseSamples.
Let candidate := normaliseSignatures candidateSamples.
Let rows := comparison_row base candidate <$> all_signatures base candidate.

Lemma elem_of_signatures (s : string) :
  s ∈ all_signatures base candidate <-> 0 < occurrences baseSamples s \/ 0 < occurrences candidateSamples s.
Proof.
  unfold all_signatures, base, candidate. rewrite elem_of_firsts, elem_of_app, !normalised_signatures, !elem_of_firsts.
  by rewrite !counted_iff.
Qed.
Lemma elem_of_rows (r : ComparisonRow) :
  r ∈ rows <-> exists s, s ∈ all_signatures base candidate /\ r = comparison_row base candidate s.
Proof. unfold rows. rewrite list_elem_of_fmap. split; intros (s & H1 & H2); by exists s. Qed.
Lemma row_view_of (s : string) :
  row_view (comparison_row base candidate s) = (s, occurrences baseSamples s, occurrences candidateSamples s).
Proof. unfold row_view, comparison_row. cbn [cw_signature cw_baseCount cw_candidateCount]. unfold base, candidate. by rewrite !find_count. Qed.
Lemma row_delta (s : string) :
  cw_delta (comparison_row base candidate s) = occurrences candidateSamples s - occurrences baseSamples s.
Proof. unfold comparison_row. cbn [cw_delta]. unfold base, candidate. by rewrite !find_count. Qed.

(** Which counts make which kind of row. *)
Definition kind_of_counts (x y : Z) : RowKind :=
  if (x =? 0) && (0 <? y) then rk_added else if (0 <? x) && (y =? 0) then rk_removed
  else if negb (y - x =? 0) then rk_changed else rk_unchanged.
Lemma row_kind_of (s : string) :
  row_kind (comparison_row base candidate s) = kind_of_counts (occurrences baseSamples s) (occurrences candidateSamples s).
Proof.
  unfold row_kind, comparison_row. cbn [cw_baseCount cw_candidateCount cw_delta]. unfold base, candidate.
  by rewrite !find_count.
Qed.
Lemma elem_of_view (kind : RowKind) (s : string) (x y : Z) :
  (s, x, y) ∈ row_view <$> rows_of kind rows <->
  x = occurrences baseSamples s /\ y = occurrences candidateSamples s /\ (0 < x \/ 0 < y) /\ kind_of_counts x y = kind.
Proof.
  unfold rows_of, sort_rows. rewrite list_elem_of_fmap. split.
  - intros (r & E & Hr). rewrite elem_of_sort_by in Hr. apply list_elem_of_In, filter_In in Hr as [Hr Hk].
    apply list_elem_of_In, elem_of_rows in Hr as (s' & Hs & ->). rewrite row_view_of in E. injection E as -> -> ->.
    apply bool_decide_eq_true in Hk. rewrite row_kind_of in Hk. rewrite elem_of_signatures in Hs. done.
  - intros (-> & -> & Hpos & Hk). exists (comparison_row base candidate s). rewrite row_view_of. split; [done|].
    rewrite elem_of_sort_by. apply list_elem_of_In, filter_In. split.
    + apply list_elem_of_In, elem_of_rows. exists s. split; [by apply elem_of_signatures|done].
    + apply bool_decide_eq_true. by rewrite row_kind_of.
Qed.
Lemma view_nodup (kind : RowKind) : NoDup (row_view <$> rows_of kind rows).
Proof.
  apply (NoDup_fmap_1 (fun v => v.1.1)). rewrite <- list_fmap_compose. unfold rows_of, sort_rows. rewrite sort_by_perm.
  unfold rows. assert (H : forall l, NoDup l ->
    NoDup ((fun v => v.1.1) ∘ row_view <$> List.filter (fun r => bool_decide (row_kind r = kind)) (comparison_row base candidate <$> l))).
  { induction 1 as [|s l Hs _ IH]; [constructor|]. cbn. destruct (bool_decide _); [|exact IH]. cbn. apply NoDup_cons.
    split; [|exact IH]. intros (r & E & Hr)%list_elem_of_fmap. apply list_elem_of_In, filter_In in Hr as [Hr _].
    apply list_elem_of_In, list_elem_of_fmap in Hr as (s' & -> & Hs'). cbn in E. by subst s'. }
  apply H, firsts_nodup.
Qed.
Lemma view_sorted (kind : RowKind) : StronglySorted view_le (row_view <$> rows_of kind rows).
Proof.
  assert (Hle : forall a b, (compareRows a b <=? 0) = true <->
    Z.abs (cw_delta b) < Z.abs (cw_delta a) \/ Z.abs (cw_delta b) = Z.abs (cw_delta a) /\ str_le (cw_signature a) (cw_signature b) = true).
  { intros a b. unfold compareRows, str_le. rewrite Z.leb_le.
    destruct (Z.eqb_spec (Z.abs (cw_delta b) - Z.abs (cw_delta a)) 0); cbn; [|lia].
    destruct (String.compare _ _); split; intros; try lia; try done; destruct H as [|[_ H]]; lia || done. }
  assert (Hs : StronglySorted (fun a b => (compareRows a b <=? 0) = true) (rows_of kind rows)).
  { apply sort_by_sorted.
    - intros a b. rewrite !Hle.
      destruct (Z.lt_trichotomy (Z.abs (cw_delta a)) (Z.abs (cw_delta b))) as [?|[?|?]]; [right; left; lia| |left; left; lia].
      destruct (str_le_total (cw_signature a) (cw_signature b)); [left|right]; right; (split; [lia|done]).
    - intros a b c. rewrite !Hle. intros [?|[? Ha]] [?|[? Hb]]; [lia..|]. right. split; [lia|]. by eapply str_le_trans. }
  assert (Hin : forall r, r ∈ rows_of kind rows -> r ∈ rows).
  { intros r Hr. unfold rows_of, sort_rows in Hr. rewrite elem_of_sort_by in Hr.
    apply list_elem_of_In, filter_In in Hr as [Hr _]. by apply list_elem_of_In. }
  revert Hin. induction Hs as [|r l _ IH Hr]; intros Hin; [constructor|]. rewrite fmap_cons.
  constructor; [apply IH; intros; apply Hin; by right|].
  apply Forall_fmap, Forall_forall. intros r' Hr'. rewrite Forall_forall in Hr. specialize (Hr r' Hr'). apply Hle in Hr.
  destruct (proj1 (elem_of_rows r) (Hin r ltac:(by left))) as (s & _ & ->).
  destruct (proj1 (elem_of_rows r') (Hin r' ltac:(by right))) as (s' & _ & ->).
  unfold compose, view_le. rewrite !row_view_of. cbn [fst snd]. rewrite !row_delta in Hr. exact Hr.
Qed.
End Rows.

(** Two sorted views with the same rows, one per signature, are the same list. *)
Lemma view_canonical (l1 l2 : list (string * Z * Z)) :
  NoDup l1 -> NoDup l2 -> (forall v, v ∈ l1 <-> v ∈ l2) -> StronglySorted view_le l1 -> StronglySorted view_le l2 ->
  (forall a b, a ∈ l1 -> b ∈ l1 -> a.1.1 = b.1.1 -> a = b) -> l1 = l2.
Proof.
  intros H1 H2 Hiff S1 S2 Hkey. eapply StronglySorted_unique_strong; [|exact S1|exact S2|by apply NoDup_Permutation].
  intros a b Ha Hb [?|[? E1]] [?|[? E2]]; [lia..|]. apply Hiff in Hb. apply Hkey; [done|done|]. by apply str_le_antisym.
Qed.
Definition swap_view (v : string * Z * Z) : string * Z * Z := (v.1.1, v.2, v.1.2).
Lemma swapped_sorted (l : list (string * Z * Z)) : StronglySorted view_le l -> StronglySorted view_le (swap_view <$> l).
Proof.
  induction 1 as [|v l _ IH Hv]; [constructor|]. rewrite fmap_cons. constructor; [exact IH|].
  apply Forall_fmap. eapply Forall_impl; [exact Hv|]. intros w. unfold compose, view_le, swap_view. cbn [fst snd].
  intros [H|[H E]]; [left; lia|right; split; [lia|done]].
Qed.
Definition mirrored (kind : RowKind) : RowKind :=
  match kind with rk_added => rk_removed | rk_removed => rk_added | k => k end.
Lemma kind_mirrored (x y : Z) (kind : RowKind) :
  0 <= x -> 0 <= y -> 0 < x \/ 0 < y -> kind_of_counts x y = kind <-> kind_of_counts y x = mirrored kind.
Proof.
  intros Hx Hy Hpos. unfold kind_of_counts.
  destruct (Z.eqb_spec x 0), (Z.eqb_spec y 0), (Z.ltb_spec 0 x), (Z.ltb_spec 0 y); try lia; cbn [andb];
    destruct (Z.eqb_spec (y - x) 0), (Z.eqb_spec (x - y) 0); try lia; cbn; by destruct kind.
Qed.

(** The rows of one kind, as signatures with their two counts. *)
Definition rows_between (kind : RowKind) (baseSamples candidateSamples : list SignatureSample) : list (string * Z * Z) :=
  let base := normaliseSignatures baseSamples in
  let candidate := normaliseSignatures candidateSamples in
  row_view <$> rows_of kind (comparison_row base candidate <$> all_signatures base candidate).
Lemma rows_swapped (kind : RowKind) (b c : list SignatureSample) :
  rows_between (mirrored kind) c b = swap_view <$> rows_between kind b c.
Proof.
  apply view_canonical.
  - apply view_nodup.
  - apply NoDup_fmap_2_strong; [|apply view_nodup]. intros [[s x] y] [[s' x'] y'] _ _ [= -> -> ->]. done.
  - intros [[s x] y]. unfold rows_between at 1. rewrite elem_of_view, list_elem_of_fmap.
    pose proof (occurrences_nonneg b s). pose proof (occurrences_nonneg c s). split.
    + intros (-> & -> & Hpos & Hk). exists (s, occurrences b s, occurrences c s). split; [done|].
      unfold rows_between. rewrite elem_of_view. split_and!; [done|done|tauto|].
      apply (kind_mirrored (occurrences b s) (occurrences c s) kind); [lia|lia|tauto|done].
    + intros ([[s' x'] y'] & E & Hin). unfold swap_view in E. cbn in E. injection E as -> -> ->.
      unfold rows_between in Hin. rewrite elem_of_view in Hin. destruct Hin as (-> & -> & Hpos & Hk).
      split_and!; [done|done|tauto|]. apply (kind_mirrored _ _ kind); [lia|lia|tauto|done].
  - apply view_sorted.
  - apply swapped_sorted, view_sorted.
  - intros [[s x] y] [[s' x'] y'] Ha Hb E. cbn in E. subst s'. unfold rows_between in Ha, Hb. rewrite elem_of_view in Ha, Hb.
    destruct Ha as (-> & -> & _), Hb as (-> & -> & _). done.
Qed.
Lemma delta_ok (b c : list SignatureSample) (limit : nat) (d : ComparisonDelta) :
  buildComparisonDelta b c limit = Ok d ->
  row_view <$> de_added d = rows_between rk_added b c /\ row_view <$> de_removed d = rows_between rk_removed b c /\
  row_view <$> de_changed d = rows_between rk_changed b c /\ row_view <$> de_unchanged d = rows_between rk_unchanged b c /\
  de_metrics d = buildMetricDeltas (normaliseSignatures b) (normaliseSignatures c).
Proof. unfold buildComparisonDelta. cbv zeta. destruct (_ <? _)%nat; [done|]. by intros [= <-]. Qed.

(** Normalised samples with the same occurrences have the same metrics. *)
Lemma total_views (samples : list SignatureSample) :
  NoDup ((fun t => (st_signature t, st_count t)) <$> normaliseSignatures samples) /\
  forall s n, (s, n) ∈ (fun t => (st_signature t, st_count t)) <$> normaliseSignatures samples <->
    n = occurrences samples s /\ 0 < n.
Proof.
  split.
  - apply (NoDup_fmap_1 fst). rewrite <- list_fmap_compose. change (fst ∘ _) with st_signature.
    rewrite normalised_signatures. apply firsts_nodup.
  - intros s n. rewrite list_elem_of_fmap, normalised_entries. split.
    + intros (t & E & Ht). apply list_elem_of_omap in Ht as (k & _ & Hk). apply total_entry in Hk as (E1 & E2 & Hp).
      injection E as -> ->. rewrite E1, E2 in *. done.
    + intros [-> Hp]. apply counted_iff in Hp. pose proof Hp as Hs.
      apply (entry_some sample_key first_total add_sample_to_total) in Hs as [t Ht]. exists t.
      destruct (total_entry _ _ _ Ht) as (-> & -> & _). split; [done|]. apply list_elem_of_omap. exists s.
      split; [by apply elem_of_firsts|done].
Qed.
Lemma sum_of_view (l : list SignatureTotal) :
  sum_of st_count l = sum_of snd ((fun t => (st_signature t, st_count t)) <$> l).
Proof. induction l as [|t l IH]; [done|]. rewrite fmap_cons, !sum_of_cons, IH. done. Qed.
Lemma sum_of_perm {A} (f : A -> Z) (l1 l2 : list A) : l1 ≡ₚ l2 -> sum_of f l1 = sum_of f l2.
Proof. induction 1; rewrite ?sum_of_cons; [done|lia|lia|lia]. Qed.
Lemma same_metrics (b c : list SignatureSample) :
  (forall s, occurrences b s = occurrences c s) ->
  existsb (fun m => negb (mt_delta m =? 0)) (buildMetricDeltas (normaliseSignatures b) (normaliseSignatures c)) = false.
Proof.
  intros Heq. destruct (total_views b) as [Nb Hb], (total_views c) as [Nc Hc].
  assert (Hp : (fun t => (st_signature t, st_count t)) <$> normaliseSignatures b ≡ₚ
               (fun t => (st_signature t, st_count t)) <$> normaliseSignatures c).
  { apply NoDup_Permutation; [done|done|]. intros [s n]. by rewrite Hb, Hc, Heq. }
  pose proof (sum_of_perm snd _ _ Hp) as Hsum. rewrite <- !sum_of_view in Hsum.
  pose proof (Permutation_length Hp) as Hlen. rewrite !length_fmap in Hlen.
  unfold buildMetricDeltas, metricDelta. cbn [metric_copy existsb mt_delta]. rewrite Hsum, Hlen, !Z.sub_diag. done.
Qed.

Lemma no_changes_iff (b c : list SignatureSample) (d : ComparisonDelta) :
  row_view <$> de_added d = rows_between rk_added b c -> row_view <$> de_removed d = rows_between rk_removed b c ->
  row_view <$> de_changed d = rows_between rk_changed b c ->
  de_metrics d = buildMetricDeltas (normaliseSignatures b) (normaliseSignatures c) ->
  hasNoChanges d = true <-> forall s, occurrences b s = occurrences c s.
Proof.
  intros Ea Er Ec Em. unfold hasNoChanges. rewrite !andb_true_iff, !Nat.eqb_eq, negb_true_iff, Em. split.
  - intros [[[Ha Hr] Hc] _] s. apply length_zero_iff_nil in Ha, Hr, Hc. rewrite Ha in Ea. rewrite Hr in Er. rewrite Hc in Ec.
    pose proof (occurrences_nonneg b s). pose proof (occurrences_nonneg c s).
    destruct (Z.eq_dec (occurrences b s) (occurrences c s)) as [|Hne]; [done|]. exfalso.
    assert (Hin : (s, occurrences b s, occurrences c s) ∈ rows_between (kind_of_counts (occurrences b s) (occurrences c s)) b c).
    { unfold rows_between. rewrite elem_of_view. split_and!; [done|done|lia|done]. }
    revert Hin. unfold kind_of_counts. destruct (Z.eqb_spec (occurrences c s - occurrences b s) 0); [lia|]. cbn [negb].
    destruct (_ && _); [rewrite <- Ea; by intros ?%elem_of_nil|].
    destruct (_ && _); [rewrite <- Er; by intros ?%elem_of_nil|]. rewrite <- Ec. by intros ?%elem_of_nil.
  - intros Heq. assert (Hnil : forall kind, kind <> rk_unchanged -> rows_between kind b c = []).
    { intros kind Hk. destruct (rows_between kind b c) as [|[[s x] y] l] eqn:E; [done|]. exfalso.
      assert (Hin : (s, x, y) ∈ rows_between kind b c) by (rewrite E; by left). unfold rows_between in Hin.
      rewrite elem_of_view in Hin. destruct Hin as (-> & -> & Hpos & Hkind). apply Hk. rewrite <- Hkind, Heq. rewrite Heq in Hpos.
      unfold kind_of_counts. rewrite Z.sub_diag. destruct (Z.eqb_spec (occurrences c s) 0), (Z.ltb_spec 0 (occurrences c s)); try lia; done. }
    rewrite (Hnil rk_added) in Ea by done. rewrite (Hnil rk_removed) in Er by done. rewrite (Hnil rk_changed) in Ec by done.
    apply fmap_nil_inv in Ea, Er, Ec. rewrite Ea, Er, Ec. split; [done|by apply same_metrics].
Qed.

(** A comparison is exact, canonical and symmetric.  With [occurrences] counting a
    signature over the samples of a side: the added rows are the signatures only the
    candidate has, the removed ones those only the baseline has, the changed ones those
    both have with different counts, the unchanged ones those both have equally, each
    with its two counts, once, and sorted by the size of the change and then by
    signature; it reports no changes exactly when every signature occurs equally often;
    comparing the other way round gives the same rows with the counts swapped, added and
    removed exchanged; and it is refused exactly when more than the limit of signatures
    occur. *)
Theorem comparison_exact (b c : list SignatureSample) (limit : nat) :
  let occurs s := 0 < occurrences b s \/ 0 < occurrences c s in
  match buildComparisonDelta b c limit with
  | Err e => tl_limit e = limit /\ (limit < tl_signatureCount e)%nat /\
      exists signatures, NoDup signatures /\ length signatures = tl_signatureCount e /\ forall s, s ∈ signatures <-> occurs s
  | Ok d =>
      (forall kind rows, (kind, rows) ∈ [(rk_added, de_added d); (rk_removed, de_removed d); (rk_changed, de_changed d);
                                         (rk_unchanged, de_unchanged d)] ->
        NoDup (row_view <$> rows) /\ StronglySorted view_le (row_view <$> rows) /\
        forall s x y, (s, x, y) ∈ row_view <$> rows <->
          x = occurrences b s /\ y = occurrences c s /\ occurs s /\
          match kind with rk_added => x = 0 | rk_removed => y = 0 | rk_changed => 0 < x /\ 0 < y /\ x <> y | rk_unchanged => x = y end) /\
      (hasNoChanges d = true <-> forall s, occurrences b s = occurrences c s) /\
      forall d', buildComparisonDelta c b limit = Ok d' ->
        row_view <$> de_added d' = swap_view <$> (row_view <$> de_removed d) /\
        row_view <$> de_removed d' = swap_view <$> (row_view <$> de_added d) /\
        row_view <$> de_changed d' = swap_view <$> (row_view <$> de_changed d) /\
        row_view <$> de_unchanged d' = swap_view <$> (row_view <$> de_unchanged d)
  end.
Proof.
  intros occurs. destruct (buildComparisonDelta b c limit) as [d|e] eqn:E.
  - destruct (delta_ok b c limit d E) as (Ea & Er & Ec & Eu & Em). split; [|split].
    + assert (Hrows : forall kind rows, row_view <$> rows = rows_between kind b c -> NoDup (row_view <$> rows) /\
        StronglySorted view_le (row_view <$> rows) /\ forall s x y, (s, x, y) ∈ row_view <$> rows <->
          x = occurrences b s /\ y = occurrences c s /\ occurs s /\
          match kind with rk_added => x = 0 | rk_removed => y = 0 | rk_changed => 0 < x /\ 0 < y /\ x <> y | rk_unchanged => x = y end).
      { intros kind rows ->. split; [apply view_nodup|]. split; [apply view_sorted|]. intros s x y.
        unfold rows_between. rewrite elem_of_view. pose proof (occurrences_nonneg b s). pose proof (occurrences_nonneg c s).
        split; (intros (-> & -> & Hpos & Hk); split_and!; [done|done|exact Hpos|]); unfold kind_of_counts, occurs in *;
          destruct (Z.eqb_spec (occurrences b s) 0), (Z.eqb_spec (occurrences c s) 0), (Z.ltb_spec 0 (occurrences b s)),
            (Z.ltb_spec 0 (occurrences c s)), (Z.eqb_spec (occurrences c s - occurrences b s) 0); cbn in *;
          destruct kind; try discriminate Hk; try reflexivity; lia. }
      intros kind rows Hin. apply Hrows. apply list_elem_of_In in Hin. cbn in Hin.
      destruct Hin as [H|[H|[H|[H|[]]]]]; injection H as <- <-; assumption.
    + rewrite (no_changes_iff b c d Ea Er Ec Em). done.
    + intros d' E'. destruct (delta_ok c b limit d' E') as (-> & -> & -> & -> & _). rewrite Ea, Er, Ec, Eu.
      split_and!; [exact (rows_swapped rk_removed b c)|exact (rows_swapped rk_added b c)|exact (rows_swapped rk_changed b c)|
                   exact (rows_swapped rk_unchanged b c)].
  - revert E. unfold buildComparisonDelta. cbv zeta. set (signatures := all_signatures _ _).
    destruct (Nat.ltb_spec limit (length signatures)); [|done]. intros [= <-]. cbn. split_and!; [done|done|].
    exists signatures. split_and!; [apply firsts_nodup|done|]. intros s. apply elem_of_signatures.
Qed.
Lemma comparison_exact_witness :
  match buildComparisonDelta [sample_of "a" 2; sample_of "b" 1] [sample_of "b" 3] 2 with
  | Ok d => hasNoChanges d = false /\ NoDup (row_view <$> de_added d)
  | Err _ => False
  end.
Proof.
  pose proof (comparison_exact [sample_of "a" 2; sample_of "b" 1] [sample_of "b" 3] 2) as H. cbv zeta in H.
  destruct (buildComparisonDelta _ _ 2) as [d|e] eqn:E; [|vm_compute in E; discriminate E].
  destruct H as (H & _). split; [vm_compute in E; injection E as <-; done|]. apply (H rk_added). by left.
Defined.

(** ** Links *)

(** The parameters a page reads from the pairs of a link. *)
Definition params_of (pairs : list (string * string)) (key : string) : SearchParam :=
  match assoc_get key pairs with Some v => sp_one v | None => sp_absent end.

Lemma id_again (p : SearchParam) (id : string) : normaliseId p = Some id -> normaliseId (sp_one id) = Some id.
Proof.
  unfold normaliseId. destruct (first_param p) as [raw|]; [|done]. cbn [first_param]. cbv zeta.
  destruct (bool_decide_reflect (trim raw = EmptyString)) as [|H1]; [done|].
  destruct (MAX_RUN_ID_LENGTH <? js_length (trim raw)) eqn:H2; [done|]. destruct (all_chars slug_char (trim raw)) eqn:H3; [|done].
  intros [= <-]. rewrite trim_idem. rewrite bool_decide_eq_false_2 by done. by rewrite H2, H3.
Qed.
Lemma filter_again (p : SearchParam) (v : string) :
  normaliseFilter p = Some v -> truthy (Some v) = Some v /\ normaliseFilter (sp_one v) = Some v.
Proof.
  unfold normaliseFilter. destruct (first_param p) as [raw|]; [|done]. cbn [first_param]. cbv zeta.
  destruct (bool_decide_reflect (trim raw = EmptyString)) as [|H1]; [done|]. cbn [orb].
  destruct (MAX_RUN_ID_LENGTH <? js_length (trim raw)) eqn:H2; [done|]. intros [= <-]. rewrite trim_idem, H2.
  rewrite bool_decide_eq_false_2 by done. split; [|done]. unfold truthy. by destruct (trim raw).
Qed.

(** A comparison link round-trips: whatever query the page accepts, the canonical
    link it makes of it is accepted again, as the same comparison. *)
Theorem comparison_link_roundtrip (params : string -> SearchParam) (state : ComparisonSearchState) :
  decodeComparisonSearch params = Ok state ->
  decodeComparisonSearch (params_of (search_pairs state)) = Ok state.
Proof.
  unfold decodeComparisonSearch at 1. destruct (normaliseId (params "base"%string)) as [b|] eqn:Eb; [|by repeat case_match].
  destruct (normaliseId (params "candidate"%string)) as [c|] eqn:Ec; [|by case_match].
  destruct (bool_decide_reflect (b = c)) as [|Hne]; [done|]. intros [= <-].
  set (f := normaliseFilter _). set (g := normaliseFilter _).
  assert (Hf : forall o, o = f \/ o = g -> truthy o = o /\ match o with Some v => normaliseFilter (sp_one v) = Some v | None => True end).
  { intros [v|] Ho; [|done]. destruct Ho as [Ho|Ho]; symmetry in Ho; by apply filter_again in Ho. }
  destruct (Hf f ltac:(by left)) as [Tf Nf], (Hf g ltac:(by right)) as [Tg Ng]. clearbody f g. clear Hf.
  unfold search_pairs. cbn [se_base se_candidate se_failureClass se_contract]. rewrite Tf, Tg. set (pairs := _ ++ _).
  assert (P : params_of pairs "base" = sp_one b /\ params_of pairs "candidate" = sp_one c /\
              params_of pairs "failureClass" = match f with Some v => sp_one v | None => sp_absent end /\
              params_of pairs "class" = sp_absent /\
              params_of pairs "contract" = match g with Some v => sp_one v | None => sp_absent end)
    by (unfold pairs; destruct f, g; split_and!; reflexivity).
  destruct P as (P1 & P2 & P3 & P4 & P5). unfold decodeComparisonSearch. rewrite P1, P2, P3, P4, P5.
  rewrite (id_again _ _ Eb), (id_again _ _ Ec), bool_decide_eq_false_2 by done.
  destruct f as [f|], g as [g|]; rewrite ?Nf, ?Ng; reflexivity.
Qed.
