(* ===== verification/ReplayDiff.v ===== *)
(** [lib/replay-diff/index.ts]: the difference of the ledger states of two runs.

    [JSON.parse] and [JSON.stringify] are arguments; [JSON.parse] answers [None] where it
    throws, and lists the properties of an object in the order of [Object.keys].  The
    elapsed time of the result is left out. *)

From S2P Require Import Prelude JsString JsValue CampaignTimeline FailureClusters.
From stdpp Require Import base list sets fin_sets gmap strings numbers sorting.
From Stdlib Require Import ZArith Lia Ascii.
#[local] Open Scope Z_scope.

Inductive LedgerChangeType : Type := lc_created | lc_updated | lc_deleted.
#[export] Instance LedgerChangeType_eq_dec : EqDecision LedgerChangeType.
Proof. solve_decision. Defined.
Record LedgerStateChange : Type := mkChange
  { lc_id : string; lc_entryType : string; lc_changeType : LedgerChangeType; lc_before : option string; lc_after : option string }.
Record RunSnapshot : Type := mkSnapshot
  { rn_runId : string; rn_contractId : string; rn_schemaHash : string; rn_ledgerState : list LedgerStateChange }.
Inductive DiffOpType : Type := op_added | op_removed | op_changed | op_unchanged.
#[export] Instance DiffOpType_eq_dec : EqDecision DiffOpType.
Proof. solve_decision. Defined.
Record DiffField : Type := mkField
  { df_key : string; df_type : DiffOpType; df_before : option json; df_after : option json; df_parseFailed : bool }.
Record DiffOperation : Type := mkOperation
  { do_type : DiffOpType; do_key : string; do_ledgerKey : string; do_entryType : string; do_changeType : LedgerChangeType;
    do_before : option json; do_after : option json; do_fieldDiffs : list DiffField; do_parseFailed : bool }.
Record DiffSummary : Type := mkSummary { dm_total : Z; dm_added : Z; dm_removed : Z; dm_changed : Z; dm_unchanged : Z }.
Inductive Incomparable : Type := in_contract (left right : string) | in_schema (left right : string).
Record DiffResult : Type := mkDiff
  { dr_operations : list DiffOperation; dr_summary : DiffSummary; dr_reason : option Incomparable }.
(** [Object.keys(null)]. *)
Inductive DiffError : Type := keys_of_null.

Definition MAX_DIFF_DEPTH : nat := 5.
Definition checkComparability (left right : RunSnapshot) : option Incomparable :=
  if negb (bool_decide (rn_contractId left = rn_contractId right)) then Some (in_contract (rn_contractId left) (rn_contractId right))
  else if negb (bool_decide (rn_schemaHash left = rn_schemaHash right)) then Some (in_schema (rn_schemaHash left) (rn_schemaHash right))
  else None.
Definition hex_digit_char (c : ascii) : bool :=
  is_digit c || ((65 <=? code c) && (code c <=? 70)) || ((97 <=? code c) && (code c <=? 102)).

(** ** Values as objects *)

(** Positions of a string or an array, as property names. *)
Definition indexed {A} (to_json : A -> json) (l : list A) : fields :=
  imap (fun i a => (num_to_string (Z.of_nat i), to_json a)) l.
Definition char_json (c : ascii) : json := JStr (String c EmptyString).
(** The enumerable own properties; [None] where [Object.keys] throws. *)
Definition own_fields (v : json) : option fields :=
  match v with
  | JNull => None
  | JObj o => Some o
  | JArr l => Some (indexed id l)
  | JStr s => Some (indexed char_json (String.list_ascii_of_string s))
  | _ => Some []
  end.
(** [hasOwnProperty] and the read of a property: strings and arrays also own [length]. *)
Definition own_value (v : json) (key : string) : option json :=
  match v with
  | JObj o => prop key o
  | JArr l => if decide (key = "length"%string) then Some (JNum (Z.of_nat (length l))) else prop key (indexed id l)
  | JStr s => if decide (key = "length"%string) then Some (JNum (js_length s))
              else prop key (indexed char_json (String.list_ascii_of_string s))
  | _ => None
  end.
Definition is_object (v : json) : bool := match v with JObj _ => true | _ => false end.

Section Diff.
Context (parse_json : string -> option json) (stringify : json -> string).

(** The value and whether its parse failed. *)
Definition parseValue (raw : option string) : json * bool :=
  match raw with
  | None => (JNull, false)
  | Some s =>
      if bool_decide (s = EmptyString) then (JNull, false)
      else match parse_json s with
           | Some v => (v, false)
           | None => (JStr s, negb (all_chars hex_digit_char s && (js_length s mod 2 =? 0)))
           end
  end.

(** One key of the two objects, where [recur] compares the objects inside. *)
Definition diff_field (recur : json -> json -> result DiffError (list DiffField * bool)) (before after : json)
    (acc : list DiffField * bool) (key : string) : result DiffError (list DiffField * bool) :=
  let '(done_, failed) := acc in
  match own_value before key, own_value after key with
  | None, None => Ok (done_, failed)
  | None, Some a =>
      let pf := (parseValue (Some (stringify a))).2 in
      Ok (done_ ++ [mkField key op_added None (Some a) pf], failed || pf)
  | Some b, None =>
      let pf := (parseValue (Some (stringify b))).2 in
      Ok (done_ ++ [mkField key op_removed (Some b) None pf], failed || pf)
  | Some b, Some a =>
      if bool_decide (stringify b = stringify a)
      then Ok (done_ ++ [mkField key op_unchanged (Some b) None false], failed)
      else if is_object b && is_object a then
        match recur b a with
        | Err e => Err e
        | Ok (_, nested) => Ok (done_ ++ [mkField key op_changed (Some b) (Some a) nested], failed || nested)
        end
      else
        let pf := (parseValue (Some (stringify a))).2 in
        Ok (done_ ++ [mkField key op_changed (Some b) (Some a) pf], failed || pf)
  end.
(** [levels] is how many levels may still be entered. *)
Fixpoint diffObjects (levels : nat) (before after : json) : result DiffError (list DiffField * bool) :=
  match levels with
  | O => Ok ([], true)
  | S levels' =>
      match own_fields before, own_fields after with
      | None, _ | _, None => Err keys_of_null
      | Some bf, Some af =>
          foldl (fun acc key => match acc with
                                | Err e => Err e
                                | Ok x => diff_field (diffObjects levels') before after x key
                                end) (Ok ([], false)) (firsts (bf.*1 ++ af.*1))
      end
  end.

Definition added_operation (key : string) (r : LedgerStateChange) : DiffOperation :=
  let '(v, failed) := parseValue (lc_after r) in
  mkOperation op_added (lc_id r) key (lc_entryType r) (lc_changeType r) None (Some v) [] failed.
Definition removed_operation (key : string) (l : LedgerStateChange) : DiffOperation :=
  let '(v, failed) := parseValue (lc_before l) in
  mkOperation op_removed (lc_id l) key (lc_entryType l) (lc_changeType l) (Some v) None [] failed.
Definition no_object : json := JObj [].
Definition op_type (fieldChanges : nat) (l r : LedgerChangeType) : DiffOpType :=
  if (fieldChanges =? 0)%nat && bool_decide (l = r) then op_unchanged
  else if bool_decide (l = lc_created) && bool_decide (r = lc_created) then op_added
  else if bool_decide (l = lc_deleted) && bool_decide (r = lc_deleted) then op_removed
  else op_changed.
Definition compared_operation (key : string) (l r : LedgerStateChange) : result DiffError DiffOperation :=
  let '(before, beforeFailed) := parseValue (lc_before l) in
  let '(after, afterFailed) := parseValue (lc_after r) in
  match diffObjects MAX_DIFF_DEPTH (if beforeFailed then no_object else before) (if afterFailed then no_object else after) with
  | Err e => Err e
  | Ok (fields, failed) =>
      let fieldChanges := length (List.filter (fun f => negb (bool_decide (df_type f = op_unchanged))) fields) in
      Ok (mkOperation (op_type fieldChanges (lc_changeType l) (lc_changeType r)) (lc_id l) key (lc_entryType l)
            (lc_changeType r) (Some before) (Some after) fields (beforeFailed || afterFailed || failed))
  end.
Definition bump (t : DiffOpType) (s : DiffSummary) : DiffSummary :=
  mkSummary (dm_total s + 1) (dm_added s + if decide (t = op_added) then 1 else 0)
    (dm_removed s + if decide (t = op_removed) then 1 else 0) (dm_changed s + if decide (t = op_changed) then 1 else 0)
    (dm_unchanged s + if decide (t = op_unchanged) then 1 else 0).
Definition no_summary : DiffSummary := mkSummary 0 0 0 0 0.
Definition state_map (changes : list LedgerStateChange) : list (string * LedgerStateChange) :=
  foldl (fun m e => assoc_set (lc_id e) e m) [] changes.
Definition diff_step (leftMap rightMap : list (string * LedgerStateChange)) (acc : result DiffError (list DiffOperation * DiffSummary))
    (key : string) : result DiffError (list DiffOperation * DiffSummary) :=
  match acc with
  | Err e => Err e
  | Ok (ops, summary) =>
      let push op := Ok (ops ++ [op], bump (do_type op) summary) in
      match assoc_get key leftMap, assoc_get key rightMap with
      | None, Some r => push (added_operation key r)
      | Some l, None => push (removed_operation key l)
      | Some l, Some r => match compared_operation key l r with Ok op => push op | Err e => Err e end
      | None, None => Ok (ops, summary)
      end
  end.
Definition diffLedgerSnapshots (left right : RunSnapshot) : result DiffError DiffResult :=
  match checkComparability left right with
  | Some reason => Ok (mkDiff [] no_summary (Some reason))
  | None =>
      let leftMap := state_map (rn_ledgerState left) in
      let rightMap := state_map (rn_ledgerState right) in
      let sortedKeys := sort_by str_le (firsts (leftMap.*1 ++ rightMap.*1)) in
      match foldl (diff_step leftMap rightMap) (Ok ([], no_summary)) sortedKeys with
      | Err e => Err e
      | Ok (ops, summary) => Ok (mkDiff ops summary None)
      end
  end.
End Diff.

Definition filterOperations (operations : list DiffOperation) (filter : option DiffOpType) : list DiffOperation :=
  match filter with
  | None => operations
  | Some t => List.filter (fun op => bool_decide (do_type op = t)) operations
  end.
Definition summarizeOperations (operations : list DiffOperation) : DiffSummary :=
  foldl (fun s op => bump (do_type op) s) no_summary operations.

(** *** By hand *)

(** A stand-in for [JSON.parse]: a digit, an empty object, or nothing. *)
Definition tiny_parse (s : string) : option json :=
  if decide (s = "{}"%string) then Some (JObj [])
  else match parse_digits s with Some n => Some (JNum n) | None => None end.
Definition tiny_stringify (v : json) : string := match v with JStr s => s | _ => EmptyString end.
Definition snapshot_of (before after : option string) (changeType : LedgerChangeType) : RunSnapshot :=
  mkSnapshot "r" "c" "h" [mkChange "k" "ContractData" changeType before after].
(** An entry both runs create has nothing before, and the comparison throws. *)
Example created_in_both_throws :
  diffLedgerSnapshots tiny_parse tiny_stringify (snapshot_of None (Some "{}"%string) lc_created)
    (snapshot_of None (Some "{}"%string) lc_created) = Err keys_of_null.
Proof. vm_compute. done. Qed.
(** Numbers, and texts that cannot be parsed, have no fields: a change of value goes
    unnoticed. *)
Example scalars_never_change :
  match diffLedgerSnapshots tiny_parse tiny_stringify (snapshot_of (Some "5"%string) None lc_updated)
          (snapshot_of None (Some "6"%string) lc_updated) with
  | Ok d => do_type <$> dr_operations d = [op_unchanged]
  | Err _ => False
  end.
Proof. vm_compute. done. Qed.

(** ** When it throws *)

Section Diff_proofs.
Context (parse_json : string -> option json) (stringify : json -> string).

Lemma fold_no_error {X E B} (step : X -> B -> result E X) (l : list B) (Hstep : forall x b, exists y, step x b = Ok y) : forall x,
  exists y, foldl (fun acc b => match acc with Err e => Err e | Ok x => step x b end) (Ok x) l = Ok y.
Proof.
  induction l as [|b l IH]; intros x; cbn; [by exists x|]. destruct (Hstep x b) as [y ->]. apply IH.
Qed.
(** Two values whose properties can be listed are compared to the end. *)
Lemma diffObjects_total (levels : nat) : forall before after,
  own_fields before <> None -> own_fields after <> None -> exists out, diffObjects parse_json stringify levels before after = Ok out.
Proof.
  induction levels as [|levels IH]; intros before after Hb Ha; cbn [diffObjects]; [by eexists|].
  destruct (own_fields before) as [bf|]; [|done]. destruct (own_fields after) as [af|]; [|done].
  apply (fold_no_error (diff_field parse_json stringify (diffObjects parse_json stringify levels) before after)).
  intros [done_ failed] key. unfold diff_field.
  destruct (own_value before key) as [b|], (own_value after key) as [a|]; try (by eexists).
  destruct (bool_decide _); [by eexists|]. destruct (is_object b) eqn:Eb, (is_object a) eqn:Ea; cbn [andb]; try (by eexists).
  destruct (IH b a) as [[? nested] ->]; [by destruct b|by destruct a|by eexists].
Qed.
Definition null_value (raw : option string) : Prop := (parseValue parse_json raw).1 = JNull.
Lemma compared_spec (key : string) (l r : LedgerStateChange) :
  match compared_operation parse_json stringify key l r with
  | Ok op => ~ null_value (lc_before l) /\ ~ null_value (lc_after r) /\ do_ledgerKey op = key
  | Err _ => null_value (lc_before l) \/ null_value (lc_after r)
  end.
Proof.
  unfold compared_operation, null_value.
  destruct (parseValue parse_json (lc_before l)) as [b fb] eqn:Eb, (parseValue parse_json (lc_after r)) as [a fa] eqn:Ea. cbn [fst].
  assert (Hnull : forall raw v, parseValue parse_json raw = (v, true) -> v <> JNull).
  { intros [s|] v; cbn; [|done]. destruct (bool_decide _); [done|]. destruct (parse_json s); [done|]. by intros [= <- _]. }
  assert (Hobj : forall (f : bool) v, (f = true -> v <> JNull) -> own_fields (if f then no_object else v) = None <-> v = JNull).
  { intros [|] v Hv; cbn; [split; [done|intros ->; by destruct Hv]|]. destruct v; cbn; split; done. }
  pose proof (Hobj fb b ltac:(intros ->; by eapply Hnull)) as Hb. pose proof (Hobj fa a ltac:(intros ->; by eapply Hnull)) as Ha.
  destruct (decide (own_fields (if fb then no_object else b) = None)) as [Nb|Nb].
  { unfold MAX_DIFF_DEPTH. cbn [diffObjects]. rewrite Nb. left. by apply Hb. }
  destruct (decide (own_fields (if fa then no_object else a) = None)) as [Na|Na].
  { unfold MAX_DIFF_DEPTH. cbn [diffObjects]. rewrite Na. destruct (own_fields (if fb then no_object else b)); [|done].
    right. by apply Ha. }
  destruct (diffObjects_total MAX_DIFF_DEPTH _ _ Nb Na) as [[fields failed] ->]. cbn. tauto.
Qed.

(** What one key contributes. *)
Definition contributes (leftMap rightMap : list (string * LedgerStateChange)) (key : string) (op : DiffOperation) : Prop :=
  do_ledgerKey op = key /\
  match assoc_get key leftMap, assoc_get key rightMap with
  | None, Some r => op = added_operation parse_json key r
  | Some l, None => op = removed_operation parse_json key l
  | Some l, Some r => compared_operation parse_json stringify key l r = Ok op
  | None, None => False
  end.
Definition throws_at (leftMap rightMap : list (string * LedgerStateChange)) (key : string) : Prop :=
  exists l r, assoc_get key leftMap = Some l /\ assoc_get key rightMap = Some r /\
    (null_value (lc_before l) \/ null_value (lc_after r)).

Lemma diff_fold (leftMap rightMap : list (string * LedgerStateChange)) (keys : list string) : forall ops s,
  (forall k, k ∈ keys -> is_Some (assoc_get k leftMap) \/ is_Some (assoc_get k rightMap)) ->
  match foldl (diff_step parse_json stringify leftMap rightMap) (Ok (ops, s)) keys with
  | Err _ => exists key, key ∈ keys /\ throws_at leftMap rightMap key
  | Ok (ops', s') => (forall key, key ∈ keys -> ~ throws_at leftMap rightMap key) /\
      exists more, ops' = ops ++ more /\ Forall2 (contributes leftMap rightMap) keys more /\
        s' = foldl (fun s op => bump (do_type op) s) s more
  end.
Proof.
  induction keys as [|k keys IH]; intros ops s Hin; cbn [foldl].
  { split; [by intros ? ?%elem_of_nil|]. exists []. rewrite app_nil_r. split_and!; [done|constructor|done]. }
  assert (Herr : forall e l, foldl (diff_step parse_json stringify leftMap rightMap) (Err e) l = Err e) by (by induction l).
  assert (Hpush : forall op, contributes leftMap rightMap k op -> ~ throws_at leftMap rightMap k ->
    match foldl (diff_step parse_json stringify leftMap rightMap) (Ok (ops ++ [op], bump (do_type op) s)) keys with
    | Err _ => exists key, key ∈ k :: keys /\ throws_at leftMap rightMap key
    | Ok (ops', s') => (forall key, key ∈ k :: keys -> ~ throws_at leftMap rightMap key) /\
        exists more, ops' = ops ++ more /\ Forall2 (contributes leftMap rightMap) (k :: keys) more /\
          s' = foldl (fun s op => bump (do_type op) s) s more
    end).
  { intros op Hop Hno. specialize (IH (ops ++ [op]) (bump (do_type op) s) ltac:(intros; apply Hin; by right)).
    destruct (foldl _ _ keys) as [[ops' s']|e].
    - destruct IH as (Hk & more & -> & HF & ->). split; [by intros key [->|?]%elem_of_cons; [|apply Hk]|].
      exists (op :: more). rewrite <- app_assoc. split_and!; [done|by constructor|done].
    - destruct IH as (key & Hkey & Ht). exists key. split; [by right|done]. }
  unfold diff_step at 2. destruct (assoc_get k leftMap) as [l|] eqn:El, (assoc_get k rightMap) as [r|] eqn:Er.
  - pose proof (compared_spec k l r) as Hc. destruct (compared_operation parse_json stringify k l r) as [op|e] eqn:Ec.
    + destruct Hc as (H1 & H2 & H3). apply Hpush.
      * split; [done|]. by rewrite El, Er.
      * intros (l' & r' & El' & Er' & Hn). rewrite El in El'. rewrite Er in Er'. injection El' as <-. injection Er' as <-. tauto.
    + rewrite Herr. exists k. split; [by left|]. exists l, r. done.
  - apply Hpush; [|intros (l' & r' & _ & Er' & _); congruence].
    split; [unfold removed_operation; by destruct (parseValue _ _)|]. by rewrite El, Er.
  - apply Hpush; [|intros (l' & r' & El' & _); congruence].
    split; [unfold added_operation; by destruct (parseValue _ _)|]. by rewrite El, Er.
  - destruct (Hin k ltac:(by left)) as [[? H]|[? H]]; congruence.
Qed.
End Diff_proofs.

Lemma summary_counts (ops : list DiffOperation) : forall s,
  let s' := foldl (fun s op => bump (do_type op) s) s ops in
  dm_total s' = dm_total s + Z.of_nat (length ops) /\
  dm_added s' + dm_removed s' + dm_changed s' + dm_unchanged s'
  = dm_added s + dm_removed s + dm_changed s + dm_unchanged s + Z.of_nat (length ops).
Proof.
  induction ops as [|op ops IH]; intros s; cbn [foldl]; cbv zeta; [cbn; lia|].
  destruct (IH (bump (do_type op) s)) as [H1 H2]. cbv zeta in *. rewrite H1, H2. cbn [length]. rewrite Nat2Z.inj_succ.
  unfold bump. cbn [dm_total dm_added dm_removed dm_changed dm_unchanged].
  destruct (do_type op); repeat (destruct (decide _)); try congruence; lia.
Qed.

(** A comparison of ledger states throws exactly on a missing side.  Two snapshots of
    the same contract and schema make it throw exactly when some entry of both has, on
    the left, nothing before or, on the right, nothing after (or a JSON null there): so
    for every entry that both runs create or delete.  Otherwise every key of either side
    gives one operation, in the order of the keys, without repetition: added from the
    right alone, removed from the left alone, compared where both have it; and the
    summary counts those operations. *)
Theorem replay_diff_throws_iff (parse_json : string -> option json) (stringify : json -> string) (left right : RunSnapshot) :
  checkComparability left right = None ->
  let leftMap := state_map (rn_ledgerState left) in
  let rightMap := state_map (rn_ledgerState right) in
  match diffLedgerSnapshots parse_json stringify left right with
  | Err _ => exists key, throws_at parse_json leftMap rightMap key
  | Ok d =>
      (forall key, ~ throws_at parse_json leftMap rightMap key) /\
      (forall key, key ∈ do_ledgerKey <$> dr_operations d <-> key ∈ leftMap.*1 \/ key ∈ rightMap.*1) /\
      NoDup (do_ledgerKey <$> dr_operations d) /\
      StronglySorted (fun a b => str_le a b = true) (do_ledgerKey <$> dr_operations d) /\
      (forall op, op ∈ dr_operations d -> contributes parse_json stringify leftMap rightMap (do_ledgerKey op) op) /\
      dr_summary d = summarizeOperations (dr_operations d) /\
      dm_total (dr_summary d) = Z.of_nat (length (dr_operations d)) /\
      dm_total (dr_summary d) = dm_added (dr_summary d) + dm_removed (dr_summary d) + dm_changed (dr_summary d) + dm_unchanged (dr_summary d)
  end.
Proof.
  intros Hcmp leftMap rightMap. unfold diffLedgerSnapshots. rewrite Hcmp. fold leftMap rightMap. cbv zeta.
  set (keys := sort_by str_le (firsts (leftMap.*1 ++ rightMap.*1))).
  assert (Hkeys : forall k, k ∈ keys <-> k ∈ leftMap.*1 \/ k ∈ rightMap.*1).
  { intros k. unfold keys. by rewrite elem_of_sort_by, elem_of_firsts, elem_of_app. }
  pose proof (diff_fold parse_json stringify leftMap rightMap keys [] no_summary) as H.
  destruct (foldl _ _ keys) as [[ops s]|e].
  - destruct H as (Hno & more & -> & HF & ->); [intros k; rewrite !assoc_get_key; apply Hkeys|]. cbn [app dr_operations dr_summary].
    assert (Hmap : do_ledgerKey <$> more = keys).
    { clear -HF. induction HF as [|k op keys more [E _] _ IH]; [done|]. cbn. by rewrite E, IH. }
    rewrite Hmap. destruct (summary_counts more no_summary) as [H1 H2]. cbn in H1, H2. split_and!.
    + intros key Ht. apply (Hno key); [|done]. apply Hkeys. destruct Ht as (l & r & El & _). left. apply assoc_get_key. by eexists.
    + exact Hkeys.
    + unfold keys. rewrite sort_by_perm. apply firsts_nodup.
    + apply sort_by_sorted; [intros; apply str_le_total|intros ? ? ?; apply str_le_trans].
    + intros op Hop. apply list_elem_of_lookup in Hop as [i Hi]. destruct (Forall2_lookup_r _ _ _ _ _ HF Hi) as (k & _ & Hc).
      destruct Hc as [E Hc]. rewrite E. by split.
    + done.
    + exact H1.
    + lia.
  - destruct H as (key & _ & Ht); [intros k; rewrite !assoc_get_key; apply Hkeys|]. by exists key.
Qed.
Lemma replay_diff_throws_iff_witness :
  (exists key, throws_at tiny_parse (state_map [mkChange "k" "ContractData" lc_created None (Some "{}"%string)])
     (state_map [mkChange "k" "ContractData" lc_created None (Some "{}"%string)]) key) /\
  match diffLedgerSnapshots tiny_parse tiny_stringify (snapshot_of (Some "{}"%string) None lc_updated)
          (snapshot_of None (Some "{}"%string) lc_updated) with
  | Ok d => dm_total (dr_summary d) = 1
  | Err _ => False
  end.
Proof.
  split.
  - pose proof (replay_diff_throws_iff tiny_parse tiny_stringify (snapshot_of None (Some "{}"%string) lc_created)
      (snapshot_of None (Some "{}"%string) lc_created) eq_refl) as H. cbv zeta in H.
    rewrite created_in_both_throws in H. exact H.
  - pose proof (replay_diff_throws_iff tiny_parse tiny_stringify (snapshot_of (Some "{}"%string) None lc_updated)
      (snapshot_of None (Some "{}"%string) lc_updated) eq_refl) as H. cbv zeta in H.
    destruct (diffLedgerSnapshots _ _ _ _) as [d|e] eqn:E; [|vm_compute in E; discriminate E].
    destruct H as (_ & _ & _ & _ & _ & _ & H & _). rewrite H. vm_compute in E. injection E as <-. done.
Defined.
