(* ===== verification/RunStream.v ===== *)
(** [lib/sse-stream.ts] and [app/api/runs/[id]/stream/route.ts]: the bounded event log of
    a run, the bounded queue of a connection, the registry they share, and the stream the
    route opens over them.

    A frame is the envelope its text carries.  [RunEventLog] objects live_streams in a heap, for
    two connections of one run write into the same one.  The readable stream has the
    default high-water mark of one chunk and no [pull]: a chunk goes to a waiting read, or
    into the one free place.  The instants of polls, heartbeats and reads are the steps of
    a relation; the run the storage answers with is an argument of the step. *)

From S2P Require Import Prelude JsString JsNumber.
From stdpp Require Import base list sets fin_sets gmap strings numbers sorting.
From Stdlib Require Import ZArith Lia.
#[local] Open Scope Z_scope.

Inductive RunStatus : Type := rs_running | rs_completed | rs_failed | rs_cancelled.
#[export] Instance RunStatus_eq : EqDecision RunStatus.
Proof. solve_decision. Defined.
Definition isTerminalStatus (s : RunStatus) : bool := match s with rs_running => false | _ => true end.
(** What the route reads of a run. *)
Record StreamedRun : Type := mkSnapshot { sn_status : RunStatus; sn_seedCount : Z; sn_duration : Z }.
Inductive RunStreamEvent : Type :=
  | RUN_STATUS (status : RunStatus) (seedCount duration : Z)
  | STATIC (status : RunStatus) (seedCount duration : Z)
  | LAGGING (dropped : Z).
Record Envelope : Type := mkEnvelope { env_seq : Z; env_runId : string; env_event : RunStreamEvent }.
#[export] Instance RunStreamEvent_eq : EqDecision RunStreamEvent.
Proof. solve_decision. Defined.
#[export] Instance Envelope_eq : EqDecision Envelope.
Proof. solve_decision. Defined.
(** [encodeFrame] and [encodeHeartbeat]. *)
Inductive Frame : Type := fr_event (e : Envelope) | fr_ping.
#[export] Instance Frame_eq : EqDecision Frame.
Proof. solve_decision. Defined.

Definition DEFAULT_EVENT_LOG_CAPACITY : nat := 256.
Definition DEFAULT_MAX_CONNECTIONS_PER_RUN : nat := 50.
Definition DEFAULT_MAX_QUEUE_SIZE : nat := 32.

(** ** The event log, a ring buffer *)

Record RunEventLog : Type := mkRing
  { rl_capacity : nat; rl_buffer : list (option Envelope); rl_start : nat; rl_count : nat; rl_lastSeq : Z }.
Definition new_log (capacity : nat) : result string RunEventLog :=
  if decide (capacity = 0%nat) then Err "RunEventLog capacity must be positive"%string
  else Ok (mkRing capacity (replicate capacity None) 0 0 0).
Definition append_log (runId : string) (event : RunStreamEvent) (g : RunEventLog) : RunEventLog * Envelope :=
  let seq := rl_lastSeq g + 1 in
  let record := mkEnvelope seq runId event in
  let index := ((rl_start g + rl_count g) mod rl_capacity g)%nat in
  let buffer := <[index := Some record]> (rl_buffer g) in
  (if (rl_count g <? rl_capacity g)%nat then mkRing (rl_capacity g) buffer (rl_start g) (S (rl_count g)) seq
   else mkRing (rl_capacity g) buffer ((rl_start g + 1) mod rl_capacity g)%nat (rl_count g) seq,
   record).
(** [this.buffer[(this.start + i) % this.capacity]]; a hole is [None]. *)
Definition ring_slot (g : RunEventLog) (i : nat) : option Envelope :=
  default None (rl_buffer g !! ((rl_start g + i) mod rl_capacity g)%nat).
Definition replayAfter (after : Z) (g : RunEventLog) : list Envelope * Z :=
  let events := omap (fun i => match ring_slot g i with
                               | Some r => if after <? env_seq r then Some r else None
                               | None => None end) (seq 0 (rl_count g)) in
  let oldest := if (0 <? rl_count g)%nat then default None (rl_buffer g !! rl_start g) else None in
  (events, match oldest with
           | Some o => if after + 1 <? env_seq o then env_seq o - after - 1 else 0
           | None => 0 end).
Definition clear_log (g : RunEventLog) : RunEventLog :=
  mkRing (rl_capacity g) ((fun _ => None) <$> rl_buffer g) 0 0 0.

(** ** The queue of a connection *)

Record BoundedStreamQueue : Type := mkQueue { bq_maxSize : nat; bq_queue : list Frame; bq_dropped : Z }.
Definition new_queue (maxSize : nat) : result string BoundedStreamQueue :=
  if decide (maxSize = 0%nat) then Err "BoundedStreamQueue maxSize must be positive"%string
  else Ok (mkQueue maxSize [] 0).
Definition enqueue_frame (item : Frame) (q : BoundedStreamQueue) : BoundedStreamQueue * nat :=
  if (bq_maxSize q <=? length (bq_queue q))%nat then
    let overflow := (length (bq_queue q) - bq_maxSize q + 1)%nat in
    (mkQueue (bq_maxSize q) (drop overflow (bq_queue q) ++ [item]) (bq_dropped q + Z.of_nat overflow), overflow)
  else (mkQueue (bq_maxSize q) (bq_queue q ++ [item]) (bq_dropped q), 0%nat).
Definition deQueue (q : BoundedStreamQueue) : BoundedStreamQueue * option Frame :=
  (mkQueue (bq_maxSize q) (tail (bq_queue q)) (bq_dropped q), head (bq_queue q)).
Definition clear_queue (q : BoundedStreamQueue) : BoundedStreamQueue := mkQueue (bq_maxSize q) [] 0.

(** ** The registry *)

Record RunStreamRegistry : Type := mkRegistry
  { rg_logs : gmap string nat; rg_conns : gmap string nat; rg_heap : list RunEventLog }.
Section Registry.
Context (maxConnections capacity : nat).

(** The heap gains the new log; the reference is its place there. *)
Definition getLog (runId : string) (r : RunStreamRegistry) : result string (RunStreamRegistry * nat) :=
  match rg_logs r !! runId with
  | Some ref => Ok (r, ref)
  | None => log ← new_log capacity;
            let ref := length (rg_heap r) in
            Ok (mkRegistry (<[runId := ref]> (rg_logs r)) (rg_conns r) (rg_heap r ++ [log]), ref)
  end.
Definition acquire (runId : string) (r : RunStreamRegistry) : option RunStreamRegistry :=
  let current := default 0%nat (rg_conns r !! runId) in
  if (maxConnections <=? current)%nat then None
  else Some (mkRegistry (rg_logs r) (<[runId := S current]> (rg_conns r)) (rg_heap r)).
Definition release (runId : string) (r : RunStreamRegistry) : RunStreamRegistry :=
  let current := default 0%nat (rg_conns r !! runId) in
  if (current <=? 1)%nat then mkRegistry (delete runId (rg_logs r)) (delete runId (rg_conns r)) (rg_heap r)
  else mkRegistry (rg_logs r) (<[runId := (current - 1)%nat]> (rg_conns r)) (rg_heap r).
End Registry.

(** ** The stream of a connection *)

(** The readable stream: chunks that no read has taken, reads that wait, and what the
    client has received. *)
Record ByteStream : Type := mkStream { bs_chunks : list Frame; bs_reads : nat; bs_received : list Frame }.
Definition desiredSize (s : ByteStream) : Z := 1 - Z.of_nat (length (bs_chunks s)).
Definition enqueue_chunk (f : Frame) (s : ByteStream) : ByteStream :=
  match bs_reads s with
  | S n => mkStream (bs_chunks s) n (bs_received s ++ [f])
  | O => mkStream (bs_chunks s ++ [f]) 0 (bs_received s)
  end.
Definition read_chunk (closed : bool) (s : ByteStream) : ByteStream :=
  match bs_chunks s with
  | f :: rest => mkStream rest (bs_reads s) (bs_received s ++ [f])
  | [] => if closed then s else mkStream [] (S (bs_reads s)) (bs_received s)
  end.
(** The closure of one call of [start]. *)
Record Connection : Type := mkConn
  { cn_run : string; cn_log : nat; cn_lastSnapshot : StreamedRun; cn_closed : bool; cn_released : bool;
    cn_queue : BoundedStreamQueue; cn_stream : ByteStream }.
Definition conn_with (q : BoundedStreamQueue) (s : ByteStream) (k : Connection) : Connection :=
  mkConn (cn_run k) (cn_log k) (cn_lastSnapshot k) (cn_closed k) (cn_released k) q s.
Definition with_snapshot (run : StreamedRun) (k : Connection) : Connection :=
  mkConn (cn_run k) (cn_log k) run (cn_closed k) (cn_released k) (cn_queue k) (cn_stream k).

Definition statusEvent (run : StreamedRun) : RunStreamEvent :=
  RUN_STATUS (sn_status run) (sn_seedCount run) (sn_duration run).
Definition staticEvent (run : StreamedRun) : RunStreamEvent :=
  STATIC (sn_status run) (sn_seedCount run) (sn_duration run).
Definition progressChanged (previous next : StreamedRun) : bool :=
  negb (bool_decide (sn_status previous = sn_status next)) || negb (sn_seedCount previous =? sn_seedCount next)
  || negb (sn_duration previous =? sn_duration next).

(** [drain], over the pending frames. *)
Fixpoint drain_frames (frames : list Frame) (s : ByteStream) : list Frame * ByteStream :=
  match frames with
  | [] => ([], s)
  | f :: rest => if 0 <? desiredSize s then drain_frames rest (enqueue_chunk f s) else (frames, s)
  end.
Definition drain_conn (k : Connection) : Connection :=
  if cn_closed k then k
  else let '(rest, s) := drain_frames (bq_queue (cn_queue k)) (cn_stream k) in
       conn_with (mkQueue (bq_maxSize (cn_queue k)) rest (bq_dropped (cn_queue k))) s k.
(** [lastId] is the last number of the log. *)
Definition push (lastId : Z) (frame : Frame) (k : Connection) : Connection :=
  if cn_closed k then k
  else
    let '(q, dropped) := enqueue_frame frame (cn_queue k) in
    let q := if (0 <? dropped)%nat then
               let lagging := mkEnvelope lastId (cn_run k) (LAGGING (bq_dropped q)) in
               (enqueue_frame (fr_event lagging) (deQueue q).1).1
             else q in
    drain_conn (conn_with q (cn_stream k) k).

Section Route.
Context (maxConnections capacity queueSize : nat).

Definition heap_log (r : RunStreamRegistry) (ref : nat) : RunEventLog :=
  default (mkRing 0 [] 0 0 0) (rg_heap r !! ref).
Definition sendEvent (event : RunStreamEvent) (rk : RunStreamRegistry * Connection) : RunStreamRegistry * Connection :=
  let '(r, k) := rk in
  if cn_closed k then (r, k)
  else let '(g, envelope) := append_log (cn_run k) event (heap_log r (cn_log k)) in
       (mkRegistry (rg_logs r) (rg_conns r) (<[cn_log k := g]> (rg_heap r)), push (rl_lastSeq g) (fr_event envelope) k).
(** [release] of the route calls the registry once. *)
Definition release_conn (rk : RunStreamRegistry * Connection) : RunStreamRegistry * Connection :=
  let '(r, k) := rk in
  if cn_released k then (r, k)
  else (release (cn_run k) r,
        mkConn (cn_run k) (cn_log k) (cn_lastSnapshot k) (cn_closed k) true (cn_queue k) (cn_stream k)).
(** [close]: timers are gone, pending frames are dropped, the chunks of the stream stay. *)
Definition close_conn (rk : RunStreamRegistry * Connection) : RunStreamRegistry * Connection :=
  let '(r, k) := rk in
  if cn_closed k then (r, k)
  else release_conn (r, mkConn (cn_run k) (cn_log k) (cn_lastSnapshot k) true (cn_released k)
                          (clear_queue (cn_queue k)) (cn_stream k)).
(** [cancel]: the client is gone, and with it the chunks it has not read. *)
Definition cancel_conn (rk : RunStreamRegistry * Connection) : RunStreamRegistry * Connection :=
  let '(r, k) := rk in
  if cn_closed k then (r, k)
  else release_conn (r, mkConn (cn_run k) (cn_log k) (cn_lastSnapshot k) true (cn_released k)
                          (clear_queue (cn_queue k)) (mkStream [] (bs_reads (cn_stream k)) (bs_received (cn_stream k)))).

(** [start]: the replay, the first status, or the snapshot of a finished run. *)
Definition start_replay (after : Z) (g : RunEventLog) (k : Connection) : Connection :=
  let '(events, dropped) := replayAfter after g in
  let k := if 0 <? dropped
           then push (rl_lastSeq g) (fr_event (mkEnvelope (rl_lastSeq g) (cn_run k) (LAGGING dropped))) k else k in
  foldl (fun k e => push (rl_lastSeq g) (fr_event e) k) k events.
Definition start_stream (after : Z) (run : StreamedRun) (rk : RunStreamRegistry * Connection)
  : RunStreamRegistry * Connection :=
  let '(r, k) := rk in
  let k := start_replay after (heap_log r (cn_log k)) k in
  if isTerminalStatus (sn_status run) then
    close_conn (if after =? 0 then sendEvent (staticEvent run) (r, k) else (r, k))
  else if after =? 0 then sendEvent (statusEvent run) (r, k) else (r, k).

(** The handler, once the storage has answered; [after] is the position it asks for. *)
Inductive StreamResponse : Type := sr_not_found | sr_too_many | sr_throws (message : string) | sr_stream (k : Connection).
Definition GET_stream (id : string) (after : Z) (answer : option StreamedRun) (r : RunStreamRegistry)
  : RunStreamRegistry * StreamResponse :=
  match answer with
  | None => (r, sr_not_found)
  | Some run =>
      match acquire maxConnections id r with
      | None => (r, sr_too_many)
      | Some r1 =>
          match getLog capacity id r1 with
          | Err m => (r1, sr_throws m)
          | Ok (r2, ref) =>
              match new_queue queueSize with
              | Err m => (r2, sr_throws m)
              | Ok q =>
                  let '(r3, k) := start_stream (Z.max 0 after) run (r2, mkConn id ref run false false q (mkStream [] 0 [])) in
                  (r3, sr_stream k)
              end
          end
      end
  end.

Definition heartbeat (rk : RunStreamRegistry * Connection) : RunStreamRegistry * Connection :=
  let '(r, k) := rk in (r, push (rl_lastSeq (heap_log r (cn_log k))) fr_ping k).
(** [poll], once the storage has answered: [Err] when it failed. *)
Definition poll (answer : result string (option StreamedRun)) (rk : RunStreamRegistry * Connection)
  : RunStreamRegistry * Connection :=
  match answer with
  | Err _ | Ok None => close_conn rk
  | Ok (Some latest) =>
      let '(r, k) := rk in
      if progressChanged (cn_lastSnapshot k) latest then
        let rk := sendEvent (statusEvent latest) (r, with_snapshot latest k) in
        if isTerminalStatus (sn_status latest) then close_conn (sendEvent (staticEvent latest) rk) else rk
      else rk
  end.
Definition client_read (k : Connection) : Connection :=
  conn_with (cn_queue k) (read_chunk (cn_closed k) (cn_stream k)) k.

(** All the streams of a process. *)
Record StreamWorld : Type := mkWorld { w_registry : RunStreamRegistry; w_conns : list Connection }.
Definition empty_world : StreamWorld := mkWorld (mkRegistry ∅ ∅ []) [].
Definition update (f : RunStreamRegistry * Connection -> RunStreamRegistry * Connection) (i : nat) (w : StreamWorld) : StreamWorld :=
  match w_conns w !! i with
  | None => w
  | Some k => let '(r, k') := f (w_registry w, k) in mkWorld r (<[i := k']> (w_conns w))
  end.
Definition connect (id : string) (after : Z) (answer : option StreamedRun) (w : StreamWorld) : StreamWorld :=
  match GET_stream id after answer (w_registry w) with
  | (r, sr_stream k) => mkWorld r (w_conns w ++ [k])
  | (r, _) => mkWorld r (w_conns w)
  end.
Inductive stream_step : StreamWorld -> StreamWorld -> Prop :=
  | step_connect id after answer w : stream_step w (connect id after answer w)
  | step_heartbeat i w : stream_step w (update heartbeat i w)
  | step_poll i answer w : stream_step w (update (poll answer) i w)
  | step_read i w : stream_step w (update (fun rk => (rk.1, client_read rk.2)) i w)
  | step_cancel i w : stream_step w (update cancel_conn i w).
End Route.

(** ** The ring buffer holds the last events of the log *)

Lemma mod_apart (a b n : nat) : (a < b)%nat -> (b < a + n)%nat -> (a mod n <> b mod n)%nat.
Proof.
  intros H1 H2 E. pose proof (Nat.div_mod_eq a n) as Ea. pose proof (Nat.div_mod_eq b n) as Eb. rewrite <- E in Eb.
  destruct (Nat.le_gt_cases (b / n) (a / n)) as [Hq|Hq].
  - pose proof (Nat.mul_le_mono_l _ _ n Hq) as Hm. clear -H1 Ea Eb Hm. lia.
  - pose proof (Nat.mul_le_mono_l _ _ n Hq) as Hm. rewrite Nat.mul_succ_r in Hm. clear -H2 Ea Eb Hm. lia.
Qed.

(** [all] are all the events appended since the log was made. *)
Record ring_ok (all : list Envelope) (g : RunEventLog) : Prop := mkRingOk
  { rk_pos : (0 < rl_capacity g)%nat;
    rk_len : length (rl_buffer g) = rl_capacity g;
    rk_start : (rl_start g < rl_capacity g)%nat;
    rk_count : rl_count g = (length all `min` rl_capacity g)%nat;
    rk_last : rl_lastSeq g = Z.of_nat (length all);
    rk_seq : forall i e, all !! i = Some e -> env_seq e = Z.of_nat i + 1;
    rk_slots : forall i, (i < rl_count g)%nat -> ring_slot g i = all !! (length all - rl_count g + i)%nat }.

Lemma new_log_ok capacity g : new_log capacity = Ok g -> ring_ok [] g /\ rl_capacity g = capacity.
Proof.
  unfold new_log. case_decide; [done|]. intros [= <-]. split; [|done].
  split; cbn; try done; try lia. by rewrite length_replicate.
Qed.
Lemma append_log_ok all g runId event :
  ring_ok all g ->
  ring_ok (all ++ [(append_log runId event g).2]) (append_log runId event g).1 /\
  env_seq (append_log runId event g).2 = Z.of_nat (length all) + 1 /\
  rl_capacity (append_log runId event g).1 = rl_capacity g.
Proof.
  intros [Hpos Hlen Hst Hct Hlast Hseq Hslot]. unfold append_log.
  set (e := mkEnvelope _ runId event). set (idx := ((rl_start g + rl_count g) mod rl_capacity g)%nat).
  assert (Hidx : (idx < rl_capacity g)%nat) by (apply Nat.mod_upper_bound; lia).
  assert (Hseq' : forall i e', (all ++ [e]) !! i = Some e' -> env_seq e' = Z.of_nat i + 1).
  { intros i e' H. apply lookup_app_Some in H as [H|[H1 H2]]; [by apply Hseq|].
    destruct (i - length all)%nat as [|j] eqn:Ei; [|by destruct j]. injection H2 as <-. cbn. lia. }
  split; [|split; [cbn; lia|by case_match]].
  destruct (Nat.ltb_spec (rl_count g) (rl_capacity g)) as [Hlt|Hge]; cbn [fst snd].
  - split; cbn; rewrite ?length_app, ?length_insert; cbn [length]; try done; try lia.
    intros i Hi. unfold ring_slot. cbn.
    destruct (decide (i = rl_count g)) as [->|Hne].
    + fold idx. rewrite list_lookup_insert_eq by lia. cbn.
      rewrite lookup_app_r by lia. by replace (length all + 1 - S (rl_count g) + rl_count g - length all)%nat with 0%nat by lia.
    + rewrite list_lookup_insert_ne by (apply not_eq_sym; apply mod_apart; lia).
      change (default None (rl_buffer g !! ((rl_start g + i) mod rl_capacity g)%nat)) with (ring_slot g i).
      rewrite Hslot by lia. rewrite lookup_app_l by lia. f_equal. lia.
  - assert (Ec : rl_count g = rl_capacity g) by lia.
    assert (Es : idx = rl_start g).
    { unfold idx. rewrite Ec. replace (rl_start g + rl_capacity g)%nat with (rl_start g + 1 * rl_capacity g)%nat by lia.
      rewrite Nat.Div0.mod_add. by apply Nat.mod_small. }
    split; cbn; rewrite ?length_app, ?length_insert; cbn [length]; try done; try lia.
    + apply Nat.mod_upper_bound. lia.
    + intros i Hi. unfold ring_slot. cbn. rewrite Nat.Div0.add_mod_idemp_l.
      destruct (decide (i = rl_capacity g - 1)%nat) as [->|Hne].
      * replace (rl_start g + 1 + (rl_capacity g - 1))%nat with (rl_start g + 1 * rl_capacity g)%nat by lia.
        rewrite Nat.Div0.mod_add, (Nat.mod_small _ _ Hst), Es, list_lookup_insert_eq by lia. cbn.
        rewrite lookup_app_r by lia. by replace (length all + 1 - rl_count g + (rl_capacity g - 1) - length all)%nat with 0%nat by lia.
      * rewrite Es, list_lookup_insert_ne.
        2:{ rewrite <- (Nat.mod_small _ _ Hst) at 1. apply mod_apart; lia. }
        replace (rl_start g + 1 + i)%nat with (rl_start g + (i + 1))%nat by lia.
        change (default None (rl_buffer g !! ((rl_start g + (i + 1)) mod rl_capacity g)%nat)) with (ring_slot g (i + 1)).
        rewrite Hslot by lia. rewrite lookup_app_l by lia. f_equal. lia.
Qed.

Definition newer (after : Z) (o : option Envelope) : option Envelope :=
  match o with Some r => if after <? env_seq r then Some r else None | None => None end.
Lemma newer_drop (after base : Z) (l : list Envelope) :
  (forall i e, l !! i = Some e -> env_seq e = base + Z.of_nat i + 1) ->
  omap (newer after) (Some <$> l) = drop (Z.to_nat (after - base)) l.
Proof.
  revert base. induction l as [|e l IH]; intros base H; [by rewrite drop_nil|].
  cbn [fmap list_fmap]. rewrite omap_step. cbn [newer].
  pose proof (H 0%nat e eq_refl) as He. destruct (Z.ltb_spec after (env_seq e)).
  - replace (Z.to_nat (after - base)) with 0%nat by lia. cbn [option_list app drop].
    rewrite (IH (base + 1)); [|intros i e' Hi; rewrite (H (S i) e' Hi); lia].
    by replace (Z.to_nat (after - (base + 1))) with 0%nat by lia.
  - cbn [option_list app]. rewrite (IH (base + 1)); [|intros i e' Hi; rewrite (H (S i) e' Hi); lia].
    by replace (Z.to_nat (after - base)) with (S (Z.to_nat (after - (base + 1)))) by lia.
Qed.
(** The replay is the part of the log after [after], less what the ring has overwritten;
    the count it reports is exactly that part. *)
Lemma replayAfter_spec all g after :
  ring_ok all g -> 0 <= after ->
  let dropped := Z.max 0 (Z.of_nat (length all) - Z.of_nat (rl_count g) - after) in
  replayAfter after g = (drop (Z.to_nat (after + dropped)) all, dropped).
Proof.
  intros [Hpos Hlen Hst Hct Hlast Hseq Hslot] Ha dropped. unfold replayAfter. f_equal.
  - assert (E : ring_slot g <$> seq 0 (rl_count g) = Some <$> drop (length all - rl_count g) all).
    { apply list_eq. intros i. rewrite !list_lookup_fmap, lookup_drop.
      destruct (Nat.lt_ge_cases i (rl_count g)) as [Hi|Hi].
      - rewrite lookup_seq_lt by lia. cbn. rewrite Hslot by lia.
        destruct (lookup_lt_is_Some_2 all (length all - rl_count g + i)) as [e ->]; [lia|done].
      - rewrite lookup_seq_ge by lia. rewrite (proj2 (lookup_ge_None all _)) by lia. done. }
    transitivity (omap (newer after) (ring_slot g <$> seq 0 (rl_count g))).
    { clear E. induction (seq 0 (rl_count g)) as [|i l IH]; [done|]. cbn [fmap list_fmap]. rewrite !omap_step. by rewrite IH. }
    rewrite E, (newer_drop after (Z.of_nat (length all) - Z.of_nat (rl_count g))), drop_drop.
    + f_equal. lia.
    + intros i e Hi. rewrite lookup_drop in Hi. rewrite (Hseq _ _ Hi). lia.
  - destruct (Nat.ltb_spec 0 (rl_count g)) as [Hc|Hc]; [|lia].
    assert (E0 : ring_slot g 0 = default None (rl_buffer g !! rl_start g)).
    { unfold ring_slot. by rewrite Nat.add_0_r, Nat.mod_small. }
    rewrite <- E0, Hslot by lia.
    destruct (lookup_lt_is_Some_2 all (length all - rl_count g + 0)) as [e He]; [lia|]. rewrite He.
    rewrite (Hseq _ _ He). subst dropped. case_match; bools; lia.
Qed.

(** ** Frames keep their order *)

(** What the client has received or will be handed, in order. *)
Definition frames_of (k : Connection) : list Frame :=
  bs_received (cn_stream k) ++ bs_chunks (cn_stream k) ++ bq_queue (cn_queue k).
Definition stream_ok (s : ByteStream) : Prop :=
  (length (bs_chunks s) <= 1)%nat /\ ((0 < bs_reads s)%nat -> bs_chunks s = []).

Lemma drain_frames_order frames s :
  stream_ok s ->
  let '(rest, s') := drain_frames frames s in
  stream_ok s' /\ bs_received s' ++ bs_chunks s' ++ rest = bs_received s ++ bs_chunks s ++ frames /\
  (rest = [] \/ bs_chunks s' <> []) /\ (length rest <= length frames)%nat.
Proof.
  revert s. induction frames as [|f frames IH]; intros s Hs; cbn [drain_frames].
  - repeat split; auto; apply Hs.
  - unfold desiredSize. destruct (bs_chunks s) as [|c cs] eqn:Ec.
    + cbn [length]. change (0 <? 1 - Z.of_nat 0) with true. cbn iota.
      assert (Hs' : stream_ok (enqueue_chunk f s)).
      { unfold stream_ok, enqueue_chunk. rewrite Ec. destruct (bs_reads s) as [|n]; cbn; split; try lia; done. }
      specialize (IH _ Hs'). destruct (drain_frames frames (enqueue_chunk f s)) as [rest s'].
      destruct IH as (H1 & H2 & H3 & H4). split; [done|]. split; [|split; [done|cbn [length]; lia]].
      rewrite H2. unfold enqueue_chunk. rewrite Ec. destruct (bs_reads s); cbn; by rewrite <- ?app_assoc.
    + rewrite (proj2 (Z.ltb_ge _ _)) by (cbn [length]; lia). rewrite Ec. split; [done|]. split; [done|].
      split; [by right|done].
Qed.
Lemma push_order lastId f k :
  cn_closed k = false -> stream_ok (cn_stream k) -> (length (bq_queue (cn_queue k)) < bq_maxSize (cn_queue k))%nat ->
  let k' := push lastId f k in
  frames_of k' = frames_of k ++ [f] /\ stream_ok (cn_stream k') /\ cn_closed k' = false /\
  bq_maxSize (cn_queue k') = bq_maxSize (cn_queue k) /\
  (bq_queue (cn_queue k') = [] \/ bs_chunks (cn_stream k') <> []).
Proof.
  intros Hc Hs Hq. unfold push, enqueue_frame, drain_conn. rewrite Hc, (proj2 (Nat.leb_gt _ _)) by done.
  cbn [Nat.ltb Nat.leb conn_with cn_closed cn_queue cn_stream bq_queue bq_maxSize bq_dropped]. rewrite Hc.
  pose proof (drain_frames_order (bq_queue (cn_queue k) ++ [f]) (cn_stream k) Hs) as H.
  destruct (drain_frames _ _) as [rest s']. destruct H as (H1 & H2 & H3 & _).
  unfold frames_of. cbn. rewrite H2, <- !app_assoc. done.
Qed.
Lemma drain_unread frames s :
  bs_reads s = 0%nat ->
  bs_received (drain_frames frames s).2 = bs_received s /\ bs_reads (drain_frames frames s).2 = 0%nat.
Proof.
  revert s. induction frames as [|f frames IH]; intros s Hr; cbn [drain_frames]; [done|].
  case_match; [|done]. destruct (IH (enqueue_chunk f s)) as [-> ->]; unfold enqueue_chunk; by rewrite Hr.
Qed.
Lemma push_unread lastId f k :
  bs_reads (cn_stream k) = 0%nat ->
  bs_received (cn_stream (push lastId f k)) = bs_received (cn_stream k) /\ bs_reads (cn_stream (push lastId f k)) = 0%nat.
Proof.
  intros Hr. unfold push, drain_conn. destruct (cn_closed k) eqn:Hc; [done|]. destruct (enqueue_frame f (cn_queue k)) as [q d].
  cbn [conn_with cn_closed cn_queue cn_stream]. rewrite Hc.
  match goal with |- context [drain_frames ?l ?s] =>
    pose proof (drain_unread l s Hr) as [H1 H2]; destruct (drain_frames l s) as [rest s'] end.
  by cbn in *.
Qed.
(** Frames of a stream nobody reads yet, as long as there is room for them. *)
Lemma push_all lastId fs k :
  cn_closed k = false -> stream_ok (cn_stream k) -> bs_received (cn_stream k) = [] -> bs_reads (cn_stream k) = 0%nat ->
  (bq_queue (cn_queue k) = [] \/ bs_chunks (cn_stream k) <> []) -> (0 < bq_maxSize (cn_queue k))%nat ->
  (length (frames_of k) + length fs <= 1 + bq_maxSize (cn_queue k))%nat ->
  let k' := foldl (fun k f => push lastId f k) k fs in
  frames_of k' = frames_of k ++ fs /\ bs_received (cn_stream k') = [] /\ cn_closed k' = false.
Proof.
  revert k. induction fs as [|f fs IH]; intros k Hc Hs He Hr Hor Hm Hl; cbn [foldl]; [by rewrite app_nil_r|].
  assert (Hq : (length (bq_queue (cn_queue k)) < bq_maxSize (cn_queue k))%nat).
  { unfold frames_of in Hl. rewrite !length_app in Hl. cbn [length] in Hl.
    destruct Hor as [->|Hne]; [done|]. destruct (bs_chunks (cn_stream k)); [done|]. cbn [length] in Hl. lia. }
  destruct (push_order lastId f k Hc Hs Hq) as (H1 & H2 & H3 & H4 & H5).
  destruct (push_unread lastId f k Hr) as [H6 H7]. cbn zeta in *.
  destruct (IH (push lastId f k)) as (E & E1 & E2); try done; [by rewrite H6|by rewrite H4| |].
  - rewrite H1, H4, length_app. cbn [length] in *. lia.
  - by rewrite E, H1, <- app_assoc.
Qed.

Lemma tail_len {A} (l : list A) : length (tail l) = (length l - 1)%nat.
Proof. destruct l; cbn; lia. Qed.
Lemma foldl_fmap_frames (f : Connection -> Frame -> Connection) k (es : list Envelope) :
  foldl f k (fr_event <$> es) = foldl (fun k e => f k (fr_event e)) k es.
Proof. revert k. induction es as [|e es IH]; intros k; [done|]. apply IH. Qed.
(** However many frames are pushed, a connection holds a bounded number of them. *)
Lemma push_bounded lastId f k :
  (0 < bq_maxSize (cn_queue k))%nat -> stream_ok (cn_stream k) ->
  (length (bq_queue (cn_queue k)) <= bq_maxSize (cn_queue k))%nat ->
  (length (bq_queue (cn_queue (push lastId f k))) <= bq_maxSize (cn_queue k))%nat /\
  stream_ok (cn_stream (push lastId f k)) /\ bq_maxSize (cn_queue (push lastId f k)) = bq_maxSize (cn_queue k).
Proof.
  intros Hm Hs Hl. unfold push, drain_conn. destruct (cn_closed k) eqn:Hc; [done|].
  assert (He : (length (bq_queue (enqueue_frame f (cn_queue k)).1) <= bq_maxSize (cn_queue k))%nat /\
               bq_maxSize (enqueue_frame f (cn_queue k)).1 = bq_maxSize (cn_queue k)).
  { unfold enqueue_frame. case_match eqn:E; cbn; rewrite ?length_app, ?length_drop; cbn [length]; split; try done;
      [apply Nat.leb_le in E|apply Nat.leb_gt in E]; lia. }
  destruct (enqueue_frame f (cn_queue k)) as [q d]. cbn [fst] in He. destruct He as [He1 He2].
  set (q' := if (0 <? d)%nat then _ else q).
  assert (Hq' : (length (bq_queue q') <= bq_maxSize (cn_queue k))%nat /\ bq_maxSize q' = bq_maxSize (cn_queue k)).
  { unfold q'. case_match; [|done]. unfold enqueue_frame, deQueue. cbn [fst bq_maxSize bq_queue bq_dropped].
    case_match eqn:E; cbn; rewrite ?length_app, ?length_drop, ?tail_len; cbn [length]; split; try done;
      [apply Nat.leb_le in E|apply Nat.leb_gt in E]; rewrite tail_len in E; lia. }
  clearbody q'. cbn [conn_with cn_closed cn_queue cn_stream]. rewrite Hc.
  pose proof (drain_frames_order (bq_queue q') (cn_stream k) Hs) as H.
  destruct (drain_frames _ _) as [rest s']. destruct H as (H1 & _ & _ & H4). cbn. split; [lia|]. split; [done|apply Hq'].
Qed.

(** ** All the streams of a process *)

Section World.
Context (maxConnections capacity queueSize : nat).
Context (Hcap : (0 < capacity)%nat) (Hqs : (0 < queueSize)%nat).

Definition open_on (id : string) (k : Connection) : Prop := cn_run k = id /\ cn_closed k = false.
#[local] Instance open_on_dec id k : Decision (open_on id k).
Proof. unfold open_on. apply _. Defined.
(** The open connections of a run. *)
Definition live_streams (id : string) (l : list Connection) : nat := length (filter (open_on id) l).
Definition heap_ok (h : list RunEventLog) : Prop :=
  Forall (fun g => rl_capacity g = capacity /\ exists all, ring_ok all g) h.
Definition conn_ok (k : Connection) : Prop :=
  cn_released k = cn_closed k /\ bq_maxSize (cn_queue k) = queueSize /\
  (length (bq_queue (cn_queue k)) <= queueSize)%nat /\ stream_ok (cn_stream k).

Record world_ok (w : StreamWorld) : Prop := mkWorldOk
  { wo_count : forall id, default 0%nat (rg_conns (w_registry w) !! id) = live_streams id (w_conns w);
    wo_max : forall id, (live_streams id (w_conns w) <= maxConnections)%nat;
    wo_logs : forall id, is_Some (rg_logs (w_registry w) !! id) <-> (0 < live_streams id (w_conns w))%nat;
    wo_refs : forall id ref, rg_logs (w_registry w) !! id = Some ref -> (ref < length (rg_heap (w_registry w)))%nat;
    wo_inj : forall id id' ref, rg_logs (w_registry w) !! id = Some ref -> rg_logs (w_registry w) !! id' = Some ref -> id = id';
    wo_heap : heap_ok (rg_heap (w_registry w));
    wo_conn : Forall conn_ok (w_conns w);
    wo_inheap : Forall (fun k => (cn_log k < length (rg_heap (w_registry w)))%nat) (w_conns w);
    wo_open : forall k, k ∈ w_conns w -> cn_closed k = false -> rg_logs (w_registry w) !! cn_run k = Some (cn_log k) }.

(** What an operation of one connection may do to the registry. *)
Definition in_heap (a : RunStreamRegistry * Connection) : Prop := (cn_log a.2 < length (rg_heap a.1))%nat.
Definition effect (a b : RunStreamRegistry * Connection) : Prop :=
  conn_ok a.2 -> in_heap a ->
  conn_ok b.2 /\ cn_run b.2 = cn_run a.2 /\ cn_log b.2 = cn_log a.2 /\
  length (rg_heap b.1) = length (rg_heap a.1) /\
  (heap_ok (rg_heap a.1) -> heap_ok (rg_heap b.1)) /\
  ((cn_closed b.2 = cn_closed a.2 /\ rg_logs b.1 = rg_logs a.1 /\ rg_conns b.1 = rg_conns a.1) \/
   (cn_closed a.2 = false /\ cn_closed b.2 = true /\ rg_logs b.1 = rg_logs (release (cn_run a.2) a.1) /\
    rg_conns b.1 = rg_conns (release (cn_run a.2) a.1))).
Lemma effect_refl a : effect a a.
Proof. intros H _. repeat split; auto; try apply H. Qed.
Lemma effect_trans a b c : effect a b -> effect b c -> effect a c.
Proof.
  intros H1 H2 Ha Hi. destruct (H1 Ha Hi) as (Hb & E1 & E2 & E3 & E4 & E5).
  destruct (H2 Hb) as (Hc & F1 & F2 & F3 & F4 & F5).
  { unfold in_heap in *. congruence. }
  split; [done|]. split; [congruence|]. split; [congruence|].
  split; [congruence|]. split; [auto|].
  destruct E5 as [(X1 & X2 & X3)|(X1 & X2 & X3 & X4)], F5 as [(Y1 & Y2 & Y3)|(Y1 & Y2 & Y3 & Y4)].
  - left. repeat split; congruence.
  - right. rewrite E1 in Y3, Y4. unfold release in *. rewrite X2, X3 in *. split; [congruence|]. split; [done|].
    split; [rewrite Y3|rewrite Y4]; by case_match.
  - right. repeat split; congruence.
  - congruence.
Qed.
Lemma effect_push lastId f r k : effect (r, k) (r, push lastId f k).
Proof.
  intros (H1 & H2 & H3 & H4) _. cbn [fst snd] in *.
  destruct (push_bounded lastId f k) as (P1 & P2 & P3); [lia|done|lia|].
  assert (E : cn_run (push lastId f k) = cn_run k /\ cn_log (push lastId f k) = cn_log k /\
              cn_closed (push lastId f k) = cn_closed k /\ cn_released (push lastId f k) = cn_released k).
  { unfold push, drain_conn. destruct (cn_closed k) eqn:Hc; [done|]. destruct (enqueue_frame f (cn_queue k)) as [q d].
    cbn [conn_with cn_closed]. rewrite Hc. by destruct (drain_frames _ _). }
  destruct E as (E1 & E2 & E3 & E4). cbn [fst snd] in *. split.
  { repeat split; try congruence; try lia; apply P2. }
  repeat split; auto.
Qed.
Lemma heap_ok_insert h ref g : heap_ok h -> (rl_capacity g = capacity /\ exists all, ring_ok all g) -> heap_ok (<[ref := g]> h).
Proof. intros. by apply Forall_insert. Qed.
Lemma effect_send event a : effect a (sendEvent event a).
Proof.
  destruct a as [r k]. unfold sendEvent. destruct (cn_closed k) eqn:Hc; [apply effect_refl|].
  destruct (append_log _ event _) as [g e] eqn:E.
  eapply effect_trans; [|apply effect_push]. intros Hk Hlog. unfold in_heap in Hlog. cbn [fst snd] in *. split; [done|].
  split; [done|]. split; [done|]. cbn. rewrite length_insert. split; [done|]. split; [|by left].
  intros Hh. apply heap_ok_insert; [done|]. destruct (lookup_lt_is_Some_2 _ _ Hlog) as [g0 Hg0].
  pose proof (Forall_lookup_1 _ _ _ _ Hh Hg0) as [Hc0 [all Hok]].
  unfold heap_log in E. rewrite Hg0 in E. cbn in E.
  destruct (append_log_ok all g0 (cn_run k) event Hok) as (A1 & _ & A3). rewrite E in A1, A3. cbn in A1, A3.
  split; [congruence|by eexists].
Qed.
Lemma effect_close a : effect a (close_conn a).
Proof.
  destruct a as [r k].  unfold close_conn, release_conn. destruct (cn_closed k) eqn:Hc; [apply effect_refl|].
  intros (H1 & H2 & H3 & H4) _. cbn [fst snd] in *. cbn [cn_released]. rewrite H1, Hc. cbn.
  split; [unfold conn_ok; cbn; repeat split; auto; try lia; apply H4|]. repeat split; auto.
  all: try (unfold release; by case_match).
Qed.
Lemma effect_cancel a : effect a (cancel_conn a).
Proof.
  destruct a as [r k].  unfold cancel_conn, release_conn. destruct (cn_closed k) eqn:Hc; [apply effect_refl|].
  intros (H1 & H2 & H3 & H4) _. cbn [fst snd] in *. cbn [cn_released]. rewrite H1, Hc. cbn.
  split; [unfold conn_ok; cbn; repeat split; auto; try lia|]. repeat split; auto.
  all: try (unfold release; by case_match).
Qed.
Lemma effect_snapshot run r k : effect (r, k) (r, with_snapshot run k).
Proof. intros H _. repeat split; auto; try apply H. Qed.
Lemma effect_poll answer a : effect a (poll answer a).
Proof.
  destruct a as [r k], answer as [[latest|]|]; try apply effect_close. unfold poll.
  case_match; [|apply effect_refl].
  assert (H1 : effect (r, k) (sendEvent (statusEvent latest) (r, with_snapshot latest k)))
    by (eapply effect_trans; [apply effect_snapshot|apply effect_send]).
  case_match; [|done]. eapply effect_trans; [exact H1|]. eapply effect_trans; [apply effect_send|apply effect_close].
Qed.
Lemma effect_heartbeat a : effect a (heartbeat a).
Proof. destruct a as [r k]. apply effect_push. Qed.
Lemma effect_read a : effect a (a.1, client_read a.2).
Proof.
  destruct a as [r k]. intros (H1 & H2 & H3 & [H4 H5]) _. cbn [fst snd] in *. unfold client_read, read_chunk.
  split; [|by repeat split; auto]. split; [done|]. split; [done|]. split; [done|]. cbn [cn_stream conn_with].
  destruct (bs_chunks (cn_stream k)) as [|f rest] eqn:E; [case_match|]; unfold stream_ok; cbn in *.
  - by rewrite E.
  - split; [lia|done].
  - destruct rest; cbn in *; [|lia]. by split; [lia|].
Qed.
Lemma effect_replay after g r k : effect (r, k) (r, start_replay after g k).
Proof.
  unfold start_replay. destruct (replayAfter after g) as [events dropped].
  match goal with |- context [foldl _ ?x events] => set (k1 := x) end.
  assert (H : effect (r, k) (r, k1)) by (unfold k1; case_match; [apply effect_push|apply effect_refl]).
  clearbody k1. revert k1 H. induction events as [|e l IH]; intros k1 H; [done|]. cbn [foldl]. apply IH.
  eapply effect_trans; [exact H|apply effect_push].
Qed.
Lemma effect_start after run a : effect a (start_stream after run a).
Proof.
  destruct a as [r k]. unfold start_stream. pose proof (effect_replay after (heap_log r (cn_log k)) r k) as H.
  eapply effect_trans; [exact H|]. set (k1 := start_replay _ _ k).
  assert (Hs : forall e, effect (r, k1) (if after =? 0 then sendEvent e (r, k1) else (r, k1)))
    by (intros e; case_match; [apply effect_send|apply effect_refl]).
  destruct (isTerminalStatus (sn_status run)); [|apply Hs]. eapply effect_trans; [apply Hs|apply effect_close].
Qed.

Lemma live_insert id i k k' (l : list Connection) :
  l !! i = Some k ->
  (live_streams id (<[i := k']> l) + (if decide (open_on id k) then 1 else 0) = live_streams id l + (if decide (open_on id k') then 1 else 0))%nat.
Proof.
  unfold live_streams. revert i. induction l as [|x l IH]; intros i Hi; [done|]. destruct i as [|i]; cbn in Hi.
  - injection Hi as ->. cbn [insert list_insert]. rewrite !filter_cons. destruct (decide (open_on id k)), (decide (open_on id k')); cbn [length]; lia.
  - cbn [insert list_insert]. fold (insert i k' l). rewrite !filter_cons. specialize (IH i Hi). unfold live_streams in IH.
    destruct (decide (open_on id x)); [exact (f_equal S IH)|exact IH].
Qed.
Lemma live_open id k (l : list Connection) : k ∈ l -> open_on id k -> (0 < live_streams id l)%nat.
Proof.
  intros Hk Ho. unfold live_streams. assert (H : k ∈ filter (open_on id) l) by (by apply list_elem_of_filter).
  destruct (filter _ l); [by apply elem_of_nil in H|cbn; lia].
Qed.

Lemma update_ok f i w : (forall a, effect a (f a)) -> world_ok w -> world_ok (update f i w).
Proof.
  intros Hf [Hct Hmax Hlogs Hrefs Hinj Hheap Hconn Hin Hopen]. unfold update.
  destruct (w_conns w !! i) as [k|] eqn:Ek; [|by split]. specialize (Hf (w_registry w, k)).
  destruct (f (w_registry w, k)) as [r k'].
  destruct Hf as (Hk & E1 & E2 & E3 & E4 & E5); [by apply (Forall_lookup_1 _ _ _ _ Hconn Ek)|by apply (Forall_lookup_1 _ _ _ _ Hin Ek)|].
  cbn [fst snd] in *. pose proof (fun id => live_insert id i k k' _ Ek) as Hl.
  assert (Hkin : k ∈ w_conns w) by (by eapply list_elem_of_lookup_2).
  assert (Hother : forall x, x ∈ <[i := k']> (w_conns w) -> x = k' \/ x ∈ w_conns w).
  { intros x [j Hj]%list_elem_of_lookup. destruct (decide (j = i)) as [->|].
    - rewrite list_lookup_insert_eq in Hj by (by eapply lookup_lt_Some). left. congruence.
    - rewrite list_lookup_insert_ne in Hj by done. right. by eapply list_elem_of_lookup_2. }
  assert (Hin' : Forall (fun k => (cn_log k < length (rg_heap r))%nat) (<[i := k']> (w_conns w))).
  { rewrite E3. apply Forall_insert; [done|]. rewrite E2. by apply (Forall_lookup_1 _ _ _ _ Hin Ek). }
  destruct E5 as [(F1 & F2 & F3)|(F1 & F2 & F3 & F4)].
  - assert (Hsame : forall id, live_streams id (<[i := k']> (w_conns w)) = live_streams id (w_conns w)).
    { intros id. specialize (Hl id).
      assert (Ho : open_on id k' <-> open_on id k) by (unfold open_on; by rewrite E1, F1).
      destruct (decide (open_on id k)), (decide (open_on id k')); (tauto || lia). }
    split; cbn [w_registry w_conns]; rewrite ?F2, ?F3; auto.
    + intros id. by rewrite Hsame.
    + intros id. by rewrite Hsame.
    + intros id. by rewrite Hsame.
    + rewrite E3. done.
    + by apply Forall_insert.
    + intros x [->|Hx]%Hother Ho; [|by apply Hopen]. rewrite E1, E2. apply Hopen; congruence.
  - assert (Hsame : forall id, live_streams id (<[i := k']> (w_conns w)) =
              (live_streams id (w_conns w) - (if decide (id = cn_run k) then 1 else 0))%nat).
    { intros id. specialize (Hl id).
      assert (Ho : ~ open_on id k') by (unfold open_on; rewrite F2; by intros [_ ?]).
      assert (Ho' : open_on id k <-> id = cn_run k) by (unfold open_on; rewrite F1; split; [by intros [-> _]|by intros ->]).
      destruct (decide (open_on id k)), (decide (open_on id k')), (decide (id = cn_run k)); (tauto || lia). }
    assert (Hpos : (0 < live_streams (cn_run k) (w_conns w))%nat) by (by apply (live_open _ k)).
    pose proof (Hct (cn_run k)) as Hc.
    unfold release in F3, F4. rewrite Hc in F3, F4.
    assert (Hlog' : forall id ref, rg_logs r !! id = Some ref -> rg_logs (w_registry w) !! id = Some ref).
    { intros id ref. rewrite F3. case_match; cbn; [|done]. by intros [_ ?]%lookup_delete_Some. }
    split; cbn [w_registry w_conns]; auto.
    + intros id. rewrite Hsame, F4. destruct (decide (id = cn_run k)) as [->|Hne]; case_match eqn:Ec; cbn.
      * rewrite lookup_delete_eq. cbn. apply Nat.leb_le in Ec. lia.
      * by rewrite lookup_insert_eq.
      * rewrite lookup_delete_ne by done. rewrite Hct. lia.
      * rewrite lookup_insert_ne by done. rewrite Hct. lia.
    + intros id. rewrite Hsame. specialize (Hmax id). lia.
    + intros id. rewrite Hsame, F3. destruct (decide (id = cn_run k)) as [->|Hne]; case_match eqn:Ec; cbn.
      * rewrite lookup_delete_eq. apply Nat.leb_le in Ec. split; [by intros [? ?]|lia].
      * rewrite Hlogs. apply Nat.leb_gt in Ec. lia.
      * rewrite lookup_delete_ne by done. rewrite Hlogs. lia.
      * rewrite Hlogs. lia.
    + intros id ref H. rewrite E3. by eapply Hrefs, Hlog'.
    + intros id id' ref H H'. by eapply Hinj; apply Hlog'.
    + by apply Forall_insert.
    + intros x Hx Ho. assert (Hlive : (0 < live_streams (cn_run x) (<[i := k']> (w_conns w)))%nat) by (by apply (live_open _ x)).
      destruct (Hother x Hx) as [->|Hx']; [congruence|]. rewrite F3. specialize (Hopen x Hx' Ho).
      rewrite Hsame in Hlive. destruct (live_streams (cn_run k) (w_conns w) <=? 1)%nat eqn:Ec; cbn; [|done]. apply Nat.leb_le in Ec.
      rewrite lookup_delete_ne; [done|]. intros E. rewrite <- E in Hlive. rewrite decide_True in Hlive by done. lia.
Qed.

Lemma live_snoc id k (l : list Connection) :
  live_streams id (l ++ [k]) = (live_streams id l + (if decide (open_on id k) then 1 else 0))%nat.
Proof.
  unfold live_streams. rewrite filter_app, length_app. f_equal. rewrite filter_cons, filter_nil.
  by destruct (decide (open_on id k)).
Qed.
(** A connection that has its slot and its log, before [start]. *)
Lemma admit_ok id run r1 r2 ref q w :
  world_ok w -> acquire maxConnections id (w_registry w) = Some r1 -> getLog capacity id r1 = Ok (r2, ref) ->
  new_queue queueSize = Ok q ->
  world_ok (mkWorld r2 (w_conns w ++ [mkConn id ref run false false q (mkStream [] 0 [])])).
Proof.
  intros [Hct Hmax Hlogs Hrefs Hinj Hheap Hconn Hin Hopen] Ha Hg Hq. set (k := mkConn _ _ _ _ _ _ _).
  unfold acquire in Ha. destruct (Nat.leb_spec maxConnections (default 0%nat (rg_conns (w_registry w) !! id))) as [|Hlt];
    [done|]. injection Ha as <-. unfold getLog in Hg. cbn [rg_logs rg_conns rg_heap] in Hg.
  assert (Hl : forall x, live_streams x (w_conns w ++ [k]) = (live_streams x (w_conns w) + (if decide (x = id) then 1 else 0))%nat).
  { intros x. rewrite live_snoc. f_equal. unfold open_on. destruct (decide (x = id)) as [->|Hne];
      [by rewrite decide_True|rewrite decide_False; [done|by intros [E _]; apply Hne]]. }
  assert (Hk : conn_ok k).
  { unfold new_queue in Hq. case_decide; [done|]. injection Hq as <-. unfold conn_ok, k. cbn. repeat split; cbn; (lia || done). }
  assert (Hc' : rg_conns r2 = <[id := S (default 0%nat (rg_conns (w_registry w) !! id))]> (rg_conns (w_registry w))).
  { destruct (rg_logs (w_registry w) !! id); [by injection Hg as <- _|].
    apply bind_Ok in Hg as (g & _ & [= <- _]). done. }
  assert (Hgen : rg_logs r2 !! id = Some ref /\ (forall x, x <> id -> rg_logs r2 !! x = rg_logs (w_registry w) !! x) /\
                 (length (rg_heap (w_registry w)) <= length (rg_heap r2))%nat /\ (ref < length (rg_heap r2))%nat /\ heap_ok (rg_heap r2) /\
                 (forall x, x <> id -> rg_logs (w_registry w) !! x <> Some ref) /\
                 ((0 < live_streams id (w_conns w))%nat -> rg_logs (w_registry w) !! id = Some ref)).
  { destruct (rg_logs (w_registry w) !! id) as [ref0|] eqn:E0.
    - injection Hg as <- <-. cbn. split; [done|]. split; [done|]. split; [done|]. split; [by eapply Hrefs|]. split; [done|].
      split; [|done]. intros x Hx Hr. by apply Hx, (Hinj x id ref0).
    - apply bind_Ok in Hg as (g & Hnew & [= <- <-]). cbn. rewrite lookup_insert_eq, length_app. cbn [length].
      split; [done|]. split; [intros x Hx; by rewrite lookup_insert_ne|]. split; [lia|]. split; [lia|].
      apply new_log_ok in Hnew as [Hok Hcp]. split; [|split].
      + apply Forall_app. split; [done|]. apply Forall_singleton. split; [done|by exists []].
      + intros x Hx Hr. pose proof (Hrefs _ _ Hr). lia.
      + intros Hp. apply Hlogs in Hp. rewrite E0 in Hp. by destruct Hp. }
  destruct Hgen as (G1 & G2 & G3 & G4 & G5 & G6 & G7). split; cbn [w_registry w_conns]; auto.
  - intros x. rewrite Hl, Hc'. destruct (decide (x = id)) as [->|Hne].
    + rewrite lookup_insert_eq. cbn. rewrite Hct. lia.
    + rewrite lookup_insert_ne by done. rewrite Hct. lia.
  - intros x. rewrite Hl. specialize (Hmax x). destruct (decide (x = id)) as [->|]; [|lia]. rewrite Hct in Hlt. lia.
  - intros x. rewrite Hl. destruct (decide (x = id)) as [->|Hne]; [split; [lia|by eexists]|]. rewrite G2 by done.
    rewrite Hlogs. lia.
  - intros x rf H. destruct (decide (x = id)) as [->|Hne]; [congruence|]. rewrite G2 in H by done. specialize (Hrefs _ _ H). lia.
  - intros x y rf Hx Hy. destruct (decide (x = id)) as [->|Nx], (decide (y = id)) as [->|Ny]; try done.
    + rewrite G2 in Hy by done. exfalso. apply (G6 y Ny). congruence.
    + rewrite G2 in Hx by done. exfalso. apply (G6 x Nx). congruence.
    + rewrite G2 in Hx, Hy by done. by eapply Hinj.
  - apply Forall_app. by split; [|apply Forall_singleton].
  - apply Forall_app. split; [|by apply Forall_singleton]. eapply Forall_impl; [exact Hin|]. cbn. lia.
  - intros x [Hx| ->%list_elem_of_singleton]%elem_of_app Ho; [|done]. destruct (decide (cn_run x = id)) as [E|Hne].
    + rewrite E, G1, <- (Hopen x Hx Ho), E. symmetry. apply G7. by apply (live_open _ x).
    + rewrite G2 by done. by apply Hopen.
Qed.
Lemma connect_update id after run w r1 r2 ref q :
  acquire maxConnections id (w_registry w) = Some r1 -> getLog capacity id r1 = Ok (r2, ref) -> new_queue queueSize = Ok q ->
  connect maxConnections capacity queueSize id after (Some run) w =
  update (start_stream (Z.max 0 after) run) (length (w_conns w))
    (mkWorld r2 (w_conns w ++ [mkConn id ref run false false q (mkStream [] 0 [])])).
Proof.
  intros Ha Hg Hq. unfold connect, GET_stream, update. rewrite Ha, Hg, Hq. cbn [w_conns w_registry].
  rewrite lookup_app_r, Nat.sub_diag by done. cbn [lookup list_lookup].
  destruct (start_stream _ _ _) as [r k]. f_equal.
  rewrite insert_app_r_alt, Nat.sub_diag by done. done.
Qed.
Lemma acquire_ready id :
  exists q, new_queue queueSize = Ok q /\ forall r1, exists r2 ref, getLog capacity id r1 = Ok (r2, ref).
Proof.
  unfold new_queue. rewrite decide_False by lia. eexists. split; [done|]. intros r1. unfold getLog, new_log.
  case_match; [by eauto|]. rewrite decide_False by lia. cbn. eauto.
Qed.
Lemma connect_ok id after answer w : world_ok w -> world_ok (connect maxConnections capacity queueSize id after answer w).
Proof.
  intros Hw. assert (Eta : mkWorld (w_registry w) (w_conns w) = w) by by destruct w.
  destruct answer as [run|]; [|by unfold connect; cbn; rewrite Eta].
  destruct (acquire_ready id) as (q & Hq & Hget).
  destruct (acquire maxConnections id (w_registry w)) as [r1|] eqn:Ha.
  - destruct (Hget r1) as (r2 & ref & Hg). rewrite (connect_update _ _ _ _ _ _ _ _ Ha Hg Hq).
    apply update_ok; [apply effect_start|by eapply admit_ok].
  - unfold connect, GET_stream. rewrite Ha. by rewrite Eta.
Qed.
Lemma world_step w w' : stream_step maxConnections capacity queueSize w w' -> world_ok w -> world_ok w'.
Proof.
  intros [] Hw; [by apply connect_ok|..]; apply update_ok; auto using effect_heartbeat, effect_poll, effect_cancel.
  apply effect_read.
Qed.
Lemma empty_world_ok : world_ok empty_world.
Proof.
  split; unfold empty_world; cbn [w_registry w_conns rg_logs rg_conns rg_heap].
  - intros id. by rewrite lookup_empty.
  - intros id. unfold live_streams. cbn. lia.
  - intros id. rewrite lookup_empty. unfold live_streams. cbn. split; [by intros [? ?]|lia].
  - intros id ref H. by rewrite lookup_empty in H.
  - intros id id' ref H. by rewrite lookup_empty in H.
  - constructor.
  - constructor.
  - constructor.
  - intros k H. by apply elem_of_nil in H.
Qed.
Lemma streams_ok w : rtc (stream_step maxConnections capacity queueSize) empty_world w -> world_ok w.
Proof.
  intros H. eapply (reachable_inv _ world_ok); [|exact H|exact empty_world_ok]. intros a b Hs Ha. by eapply world_step.
Qed.

(** C13. Over any interleaving of connections, polls, heartbeats, reads and
    disconnections of all the streams of a process: the registry counts exactly the open
    connections of each run and never lets in more than its maximum; every open
    connection of a run writes into the one log that a client connecting now is replayed
    from; logs are kept for runs with an open connection and for no other; and what a
    connection holds in memory stays within its queue and one chunk. *)
Theorem streams_share_log w :
  rtc (stream_step maxConnections capacity queueSize) empty_world w ->
  (forall id, default 0%nat (rg_conns (w_registry w) !! id) = live_streams id (w_conns w) /\
              (live_streams id (w_conns w) <= maxConnections)%nat /\
              (is_Some (rg_logs (w_registry w) !! id) <-> (0 < live_streams id (w_conns w))%nat)) /\
  (forall k, k ∈ w_conns w ->
     (cn_closed k = false -> rg_logs (w_registry w) !! cn_run k = Some (cn_log k)) /\
     (length (bq_queue (cn_queue k)) <= queueSize)%nat /\ (length (bs_chunks (cn_stream k)) <= 1)%nat) /\
  (forall id id' ref, rg_logs (w_registry w) !! id = Some ref -> rg_logs (w_registry w) !! id' = Some ref -> id = id').
Proof.
  intros [Hct Hmax Hlogs Hrefs Hinj Hheap Hconn Hin Hopen]%streams_ok. split; [by auto|]. split; [|exact Hinj].
  intros k Hk. rewrite Forall_forall in Hconn. destruct (Hconn k Hk) as (_ & _ & H1 & [H2 _]). by auto.
Qed.


(** A run that has ended, asked for after a number by a client nobody else's connection
    kept the log for: the stream ends without a single event. *)
Theorem finished_reconnect_silent w id after run :
  rtc (stream_step maxConnections capacity queueSize) empty_world w ->
  live_streams id (w_conns w) = 0%nat -> (0 < maxConnections)%nat -> 0 < after -> isTerminalStatus (sn_status run) = true ->
  exists r k', connect maxConnections capacity queueSize id after (Some run) w = mkWorld r (w_conns w ++ [k']) /\
    cn_closed k' = true /\ frames_of k' = [].
Proof.
  intros Hw Hl Hm Ha Hrun. apply streams_ok in Hw as Hok.
  assert (Hlog : rg_logs (w_registry w) !! id = None).
  { destruct (rg_logs (w_registry w) !! id) eqn:E; [|done]. assert (H : is_Some (rg_logs (w_registry w) !! id)) by (by rewrite E).
    apply (wo_logs w Hok) in H. lia. }
  unfold connect, GET_stream, acquire, getLog, new_queue, new_log. rewrite (wo_count w Hok id), Hl.
  rewrite (proj2 (Nat.leb_gt _ _)) by done. cbn [rg_logs rg_conns rg_heap]. rewrite Hlog.
  rewrite !decide_False by lia. cbn. rewrite Hrun, Z.max_r by lia. rewrite (proj2 (Z.eqb_neq _ _)) by lia.
  unfold heap_log. cbn [rg_heap]. rewrite lookup_app_r, Nat.sub_diag by done. cbn.
  eexists _, _. split; [reflexivity|]. by cbn.
Qed.
End World.

Lemma drain_blocked frames s : bs_chunks s <> [] -> drain_frames frames s = (frames, s).
Proof.
  intros H. destruct frames as [|f frames]; [done|]. cbn [drain_frames]. unfold desiredSize.
  destruct (bs_chunks s) eqn:E; [done|]. rewrite (proj2 (Z.ltb_ge _ _)) by (cbn [length]; lia). done.
Qed.
Lemma snoc_ne {A} (l : list A) x : l ++ [x] <> [].
Proof. by destruct l. Qed.
Lemma enqueue_ne f q : bq_queue (enqueue_frame f q).1 <> [].
Proof. unfold enqueue_frame. destruct (_ <=? _)%nat; apply snoc_ne. Qed.
(** A push leaves a chunk behind when no read waits, and none after that gets through. *)
Lemma push_fills lastId f k :
  cn_closed k = false -> bs_reads (cn_stream k) = 0%nat -> (0 < bq_maxSize (cn_queue k))%nat ->
  bs_chunks (cn_stream (push lastId f k)) <> [].
Proof.
  intros Hc Hr Hm. unfold push, drain_conn. rewrite Hc. destruct (enqueue_frame f (cn_queue k)) as [q d] eqn:Eq.
  cbn [conn_with cn_closed cn_queue cn_stream]. rewrite Hc.
  set (q' := if (0 <? d)%nat then _ else q).
  assert (Hq : bq_queue q' <> []).
  { unfold q'. destruct (0 <? d)%nat; [apply enqueue_ne|]. pose proof (enqueue_ne f (cn_queue k)) as H. by rewrite Eq in H. }
  clearbody q'. destruct (bs_chunks (cn_stream k)) as [|c cs] eqn:E.
  - destruct (bq_queue q') as [|f0 rest]; [done|]. cbn [drain_frames]. unfold desiredSize. rewrite E.
    change (0 <? 1 - Z.of_nat (length [])) with true. cbn iota. unfold enqueue_chunk. rewrite Hr, E. cbn [app].
    rewrite drain_blocked by done. done.
  - rewrite drain_blocked by (by rewrite E). cbn. by rewrite E.
Qed.
Lemma push_blocked lastId f k : bs_chunks (cn_stream k) <> [] -> cn_stream (push lastId f k) = cn_stream k.
Proof.
  intros H. unfold push, drain_conn. destruct (cn_closed k) eqn:Hc; [done|]. destruct (enqueue_frame f (cn_queue k)) as [q d].
  cbn [conn_with cn_closed cn_queue cn_stream]. by rewrite Hc, drain_blocked.
Qed.
Lemma push_closed lastId f k : cn_closed (push lastId f k) = cn_closed k /\ cn_released (push lastId f k) = cn_released k.
Proof.
  unfold push, drain_conn. destruct (cn_closed k) eqn:Hc; [done|]. destruct (enqueue_frame f (cn_queue k)) as [q d].
  cbn [conn_with cn_closed]. rewrite Hc. by destruct (drain_frames _ _).
Qed.
(** The last event of a run that ends under its reader: with no read waiting, the status
    takes the free place of the stream and the closing event stays behind in the queue,
    which [close] empties. *)
Theorem static_needs_reader latest r k :
  cn_closed k = false -> cn_released k = false -> bs_reads (cn_stream k) = 0%nat -> (0 < bq_maxSize (cn_queue k))%nat ->
  progressChanged (cn_lastSnapshot k) latest = true -> isTerminalStatus (sn_status latest) = true ->
  let k' := (poll (Ok (Some latest)) (r, k)).2 in
  cn_closed k' = true /\ cn_stream k' = cn_stream (sendEvent (statusEvent latest) (r, with_snapshot latest k)).2.
Proof.
  intros Hc Hrel Hr Hm Hp Ht. unfold poll. rewrite Hp, Ht.
  assert (H : let k1 := (sendEvent (statusEvent latest) (r, with_snapshot latest k)).2 in
              cn_closed k1 = false /\ cn_released k1 = false /\ bs_chunks (cn_stream k1) <> []).
  { unfold sendEvent. change (cn_closed (with_snapshot latest k)) with (cn_closed k). rewrite Hc.
    destruct (append_log _ _ _) as [g e]. cbn [snd].
    destruct (push_closed (rl_lastSeq g) (fr_event e) (with_snapshot latest k)) as [-> ->].
    split; [done|]. split; [done|]. by apply push_fills. }
  destruct (sendEvent (statusEvent latest) (r, with_snapshot latest k)) as [r1 k1]. cbn [snd] in *.
  destruct H as (Hc1 & Hr1 & H2). unfold sendEvent. rewrite Hc1. destruct (append_log _ _ _) as [g' e'].
  destruct (push_closed (rl_lastSeq g') (fr_event e') k1) as [Hc2 Hr2].
  unfold close_conn, release_conn. rewrite Hc2, Hc1. cbn [cn_released]. rewrite Hr2, Hr1. cbn.
  by rewrite (push_blocked _ _ _ H2).
Qed.

(** ** Examples *)

Definition sample_running (n : Z) : StreamedRun := mkSnapshot rs_running n (n * 100).
Definition sample_ended : StreamedRun := mkSnapshot rs_completed 9 900.
(** A client connects and follows three changes with a log of two events; another one
    comes back after number 1. *)
Definition sample_streams : StreamWorld :=
  let poll_ n := update (poll (Ok (Some (sample_running n)))) 0 in
  let read_ := update (fun rk => (rk.1, client_read rk.2)) 0 in
  read_ (poll_ 3 (read_ (poll_ 2 (read_ (connect 2 2 4 "run-1" 0 (Some (sample_running 1)) empty_world))))).
Definition sample_log : list Envelope :=
  (fun n => mkEnvelope n "run-1" (RUN_STATUS rs_running n (n * 100))) <$> [1; 2; 3].
Example streams_received :
  (fun k => bs_received (cn_stream k)) <$> w_conns sample_streams = [fr_event <$> sample_log].
Proof. vm_compute. reflexivity. Qed.
Lemma sample_streams_reachable : rtc (stream_step 2 2 4) empty_world sample_streams.
Proof.
  unfold sample_streams. cbn zeta.
  do 5 (eapply rtc_r; [|first [apply step_read|apply step_poll]]). eapply rtc_l; [apply step_connect|apply rtc_refl].
Qed.
Lemma streams_share_log_witness :
  rg_logs (w_registry sample_streams) !! "run-1"%string = Some 0%nat /\
  live_streams "run-1" (w_conns sample_streams) = 1%nat /\
  default 0%nat (rg_conns (w_registry sample_streams) !! "run-1"%string) = live_streams "run-1" (w_conns sample_streams).
Proof.
  split; [vm_compute; reflexivity|]. split; [vm_compute; reflexivity|].
  exact (proj1 (proj1 (streams_share_log 2 2 4 (ltac:(lia)) (ltac:(lia)) sample_streams sample_streams_reachable) "run-1"%string)).
Defined.
Definition sample_conn : Connection :=
  Eval vm_compute in
  default (mkConn "" 0 sample_ended true true (mkQueue 0 [] 0) (mkStream [] 0 [])) (w_conns sample_streams !! 0%nat).
Lemma sample_ring : ring_ok sample_log (heap_log (w_registry sample_streams) (cn_log sample_conn)).
Proof.
  split; [vm_compute; lia|vm_compute; reflexivity|vm_compute; lia|vm_compute; reflexivity|vm_compute; reflexivity| |].
  - intros i e H. do 3 (destruct i as [|i]; [injection H as <-; reflexivity|]). done.
  - intros i Hi. change (i < 2)%nat in Hi. do 2 (destruct i as [|i]; [vm_compute; reflexivity|]). lia.
Qed.
(** The end of the run reaches a client whose two reads wait, and only its status one
    with none waiting. *)
Example terminal_events_received :
  let end_ := update (poll (Ok (Some sample_ended))) 0 in
  let read_ := update (fun rk => (rk.1, client_read rk.2)) 0 in
  let last_received w := (fun k => length (bs_received (cn_stream k))) <$> w_conns w in
  last_received (read_ (read_ (end_ (read_ (read_ sample_streams))))) = [5%nat] /\
  last_received (read_ (read_ (end_ sample_streams))) = [4%nat].
Proof. vm_compute. done. Qed.
Lemma static_needs_reader_witness :
  (poll (Ok (Some sample_ended)) (w_registry sample_streams, sample_conn)).2.(cn_closed) = true /\
  progressChanged (cn_lastSnapshot sample_conn) sample_ended = true.
Proof.
  split; [|reflexivity].
  exact (proj1 (static_needs_reader sample_ended (w_registry sample_streams) sample_conn eq_refl eq_refl eq_refl (ltac:(vm_compute; lia)) eq_refl eq_refl)).
Defined.
(** The client of the only stream of a run goes; the run ends; it comes back. *)
Lemma finished_reconnect_silent_witness :
  let w := update cancel_conn 0 sample_streams in
  exists r k', connect 2 2 4 "run-1" 3 (Some sample_ended) w = mkWorld r (w_conns w ++ [k']) /\ frames_of k' = [].
Proof.
  destruct (finished_reconnect_silent 2 2 4 (ltac:(lia)) (ltac:(lia)) (update cancel_conn 0 sample_streams) "run-1" 3 sample_ended)
    as (r & k' & H1 & _ & H2).
  - eapply rtc_r; [exact sample_streams_reachable|apply step_cancel].
  - vm_compute. reflexivity.
  - lia.
  - lia.
  - reflexivity.
  - exists r, k'. split; [exact H1|exact H2].
Defined.
