(* ===== verification/Crc32.v ===== *)
(** The checksum of [app/utils/zip-writer.ts]: the table-driven CRC-32 on signed 32-bit
    operators, the bit-by-bit definition it implements, and the changes it detects. *)

From S2P Require Import Prelude.
From stdpp Require Import base list numbers.
From Stdlib Require Import ZArith Lia.
#[local] Open Scope Z_scope.

Definition crc_bit (value : Z) : Z :=
  if js_and value 1 =? 0 then js_ushr value 1 else js_xor 3988292384 (js_ushr value 1).
(** [value >>> 0]. *)
Definition getCrcTable : list Z := (fun i => js_ushr (Nat.iter 8 crc_bit i) 0) <$> seqZ 0 256.
Definition crc_step (crc byte : Z) : Z :=
  js_xor (default 0 (getCrcTable !! Z.to_nat (js_and (js_xor crc byte) 255))) (js_ushr crc 8).
Definition crc32 (bytes : list Z) : Z := js_ushr (js_xor (foldl crc_step 4294967295 bytes) 4294967295) 0.

Example crc32_check : crc32 [49; 50; 51; 52; 53; 54; 55; 56; 57] = 3421780262 /\ crc32 [] = 0.
Proof. vm_compute. done. Qed.

(** ** The reference: one bit at a time, on unsigned words *)

Definition POLY : Z := 3988292384.
Definition ref_bit (v : Z) : Z := if Z.odd v then Z.lxor POLY (Z.shiftr v 1) else Z.shiftr v 1.
Definition ref_byte (s b : Z) : Z := Nat.iter 8 ref_bit (Z.lxor s b).
Definition ref_crc (bytes : list Z) : Z := Z.lxor (foldl ref_byte 4294967295 bytes) 4294967295.
Definition byte_ok (b : Z) : Prop := 0 <= b < 256.
Definition word_ok (v : Z) : Prop := 0 <= v < 2 ^ 32.

(** Words, by their bits. *)
Lemma word_bits v : word_ok v <-> 0 <= v /\ forall i, 32 <= i -> Z.testbit v i = false.
Proof.
  split.
  - intros [H1 H2]. split; [done|]. intros i Hi. destruct (Z.eq_dec v 0) as [->|]; [apply Z.bits_0|].
    apply Z.bits_above_log2; [done|]. apply Z.log2_lt_pow2; [lia|]. eapply Z.lt_le_trans; [exact H2|].
    apply Z.pow_le_mono_r; lia.
  - intros [H1 H2]. split; [done|]. destruct (Z.eq_dec v 0) as [->|]; [done|].
    apply Z.log2_lt_pow2; [lia|]. destruct (Z.lt_ge_cases (Z.log2 v) 32) as [|Hge]; [done|].
    specialize (H2 _ Hge). rewrite Z.bit_log2 in H2; [done|lia].
Qed.
Lemma lxor_word a b : word_ok a -> word_ok b -> word_ok (Z.lxor a b).
Proof.
  rewrite !word_bits. intros [Ha Ha'] [Hb Hb']. split; [by apply Z.lxor_nonneg|].
  intros i Hi. by rewrite Z.lxor_spec, Ha', Hb'.
Qed.
Lemma shiftr_word a n : 0 <= n -> word_ok a -> word_ok (Z.shiftr a n).
Proof.
  rewrite !word_bits. intros Hn [Ha Ha']. split; [by apply Z.shiftr_nonneg|].
  intros i Hi. rewrite Z.shiftr_spec by lia. apply Ha'. lia.
Qed.
Lemma mod_bits v i : 0 <= i -> Z.testbit (v mod 2 ^ 32) i = if i <? 32 then Z.testbit v i else false.
Proof.
  intros Hi. destruct (Z.ltb_spec i 32); [by rewrite Z.mod_pow2_bits_low|by rewrite Z.mod_pow2_bits_high by lia].
Qed.
Lemma int32_mod v : to_int32 v mod 2 ^ 32 = v mod 2 ^ 32.
Proof.
  apply Z.bits_inj'. intros i Hi. rewrite !mod_bits by done. destruct (Z.ltb_spec i 32); [|done].
  rewrite to_int32_testbit by done. destruct (Z.lt_ge_cases i 31); f_equal; lia.
Qed.
Lemma lxor_mod a b : Z.lxor a b mod 2 ^ 32 = Z.lxor (a mod 2 ^ 32) (b mod 2 ^ 32).
Proof.
  apply Z.bits_inj'. intros i Hi. rewrite Z.lxor_spec, !mod_bits, Z.lxor_spec by done.
  by destruct (i <? 32).
Qed.
Lemma js_xor_mod a b : js_xor a b mod 2 ^ 32 = Z.lxor (a mod 2 ^ 32) (b mod 2 ^ 32).
Proof. unfold js_xor. by rewrite lxor_mod, !int32_mod. Qed.
Lemma mod_word v : word_ok (v mod 2 ^ 32).
Proof. apply Z.mod_pos_bound. lia. Qed.
Lemma word_mod v : word_ok v -> v mod 2 ^ 32 = v.
Proof. apply Z.mod_small. Qed.
Lemma js_ushr_eq a n : 0 <= n < 32 -> js_ushr a n = Z.shiftr (a mod 2 ^ 32) n.
Proof. intros H. unfold js_ushr. by rewrite (Z.mod_small n). Qed.
Lemma js_and_byte a : js_and a 255 = Z.land (a mod 2 ^ 32) 255.
Proof.
  unfold js_and. change (to_int32 255) with 255. change 255 with (Z.ones 8). rewrite !Z.land_ones by lia.
  apply Z.bits_inj'. intros i Hi.
  destruct (Z.lt_ge_cases i 8).
  - rewrite !Z.mod_pow2_bits_low by lia. rewrite to_int32_testbit by done. f_equal. lia.
  - by rewrite !Z.mod_pow2_bits_high by lia.
Qed.

(** ** One bit *)

Lemma ref_bit_word v : word_ok v -> word_ok (ref_bit v).
Proof.
  intros H. unfold ref_bit. pose proof (shiftr_word v 1 ltac:(lia) H). case_match; [|done].
  by apply lxor_word; [|].
Qed.
(** The step is linear in the exclusive or. *)
Lemma ref_bit_lxor a b : ref_bit (Z.lxor a b) = Z.lxor (ref_bit a) (ref_bit b).
Proof.
  unfold ref_bit. assert (Ho : Z.odd (Z.lxor a b) = xorb (Z.odd a) (Z.odd b)).
  { rewrite <- !Z.bit0_odd. apply Z.lxor_spec. }
  rewrite Ho, Z.shiftr_lxor. destruct (Z.odd a), (Z.odd b); cbn [xorb];
    apply Z.bits_inj'; intros i Hi; rewrite !Z.lxor_spec; by destruct (Z.testbit POLY i), (Z.testbit _ _), (Z.testbit _ _).
Qed.
Lemma ref_bit_shiftl t k : 0 <= k -> ref_bit (Z.shiftl t (k + 1)) = Z.shiftl t k.
Proof.
  intros Hk. unfold ref_bit. rewrite <- Z.bit0_odd, Z.shiftl_spec_low by lia.
  rewrite Z.shiftr_shiftl_l by lia. f_equal. lia.
Qed.
(** No word but zero is taken to zero. *)
Lemma ref_bit_zero d : word_ok d -> ref_bit d = 0 -> d = 0.
Proof.
  intros Hd. unfold ref_bit. destruct (Z.odd d) eqn:Ho; intros H.
  - apply Z.lxor_eq in H. apply word_bits in Hd as [_ Hd]. assert (E : Z.testbit POLY 31 = true) by done.
    rewrite H, Z.shiftr_spec, Hd in E by lia. done.
  - rewrite Z.shiftr_div_pow2 in H by lia. pose proof (Zdiv2_odd_eqn d) as E. rewrite Ho, Z.div2_div in E.
    change (2 ^ 1) with 2 in H. lia.
Qed.
Lemma iter_bit_lxor n a b : Nat.iter n ref_bit (Z.lxor a b) = Z.lxor (Nat.iter n ref_bit a) (Nat.iter n ref_bit b).
Proof. induction n as [|n IH]; [done|]. rewrite !Nat.iter_succ, IH. apply ref_bit_lxor. Qed.
Lemma iter_bit_word n v : word_ok v -> word_ok (Nat.iter n ref_bit v).
Proof. intros H. induction n as [|n IH]; [done|]. by apply ref_bit_word. Qed.
Lemma iter_bit_shiftl n t : Nat.iter n ref_bit (Z.shiftl t (Z.of_nat n)) = t.
Proof.
  enough (H : forall k, Nat.iter n ref_bit (Z.shiftl t (Z.of_nat n + Z.of_nat k)) = Z.shiftl t (Z.of_nat k)).
  { specialize (H 0%nat). by rewrite Z.add_0_r, Z.shiftl_0_r in H. }
  induction n as [|n IH]; intros k; [done|].
  replace (Z.of_nat (S n) + Z.of_nat k) with (Z.of_nat n + Z.of_nat (S k)) by lia. rewrite Nat.iter_succ.
  rewrite IH. replace (Z.of_nat (S k)) with (Z.of_nat k + 1) by lia. apply ref_bit_shiftl. lia.
Qed.
Lemma iter_bit_inj n a b : word_ok a -> word_ok b -> Nat.iter n ref_bit a = Nat.iter n ref_bit b -> a = b.
Proof.
  intros Ha Hb H. apply Z.lxor_eq. assert (Hab : word_ok (Z.lxor a b)) by (by apply lxor_word).
  assert (H0 : Nat.iter n ref_bit (Z.lxor a b) = 0) by (rewrite iter_bit_lxor, H; apply Z.lxor_nilpotent).
  clear H. induction n as [|n IH]; [done|]. apply IH. rewrite Nat.iter_succ in H0.
  apply ref_bit_zero in H0; [done|]. by apply iter_bit_word.
Qed.

(** ** The table *)

Lemma table_entry i : 0 <= i < 256 -> getCrcTable !! Z.to_nat i = Some (Nat.iter 8 ref_bit i).
Proof.
  intros Hi. assert (H : forallb (fun n => bool_decide (getCrcTable !! n = Some (Nat.iter 8 ref_bit (Z.of_nat n)))) (seq 0 256) = true)
    by (vm_compute; reflexivity).
  rewrite forallb_forall in H. specialize (H (Z.to_nat i)). rewrite bool_decide_eq_true, Z2Nat.id in H by lia.
  apply H. apply in_seq. lia.
Qed.
Lemma ref_byte_table s b :
  0 <= s -> byte_ok b ->
  ref_byte s b = Z.lxor (Nat.iter 8 ref_bit (Z.land (Z.lxor s b) 255)) (Z.shiftr s 8).
Proof.
  intros Hs Hb. unfold ref_byte. set (v := Z.lxor s b).
  assert (E : v = Z.lxor (Z.land v 255) (Z.shiftl (Z.shiftr v 8) (Z.of_nat 8))).
  { apply Z.bits_inj'. intros i Hi. change 255 with (Z.ones 8). change (Z.of_nat 8) with 8.
    rewrite Z.lxor_spec, Z.land_spec, Z.shiftl_spec by done. destruct (Z.lt_ge_cases i 8).
    - rewrite Z.ones_spec_low by lia. rewrite (Z.testbit_neg_r _ (i - 8)) by lia. by destruct (Z.testbit v i).
    - rewrite Z.ones_spec_high by lia. rewrite Z.shiftr_spec by lia. rewrite Z.sub_add. by destruct (Z.testbit v i). }
  rewrite E at 1. rewrite iter_bit_lxor, iter_bit_shiftl. f_equal. unfold v. rewrite Z.shiftr_lxor.
  rewrite (Z.shiftr_div_pow2 b) by lia. unfold byte_ok in Hb. change (2 ^ 8) with 256.
  rewrite (Z.div_small b) by lia. apply Z.lxor_0_r.
Qed.
Lemma crc_step_ref c b :
  byte_ok b -> crc_step c b mod 2 ^ 32 = ref_byte (c mod 2 ^ 32) b.
Proof.
  intros Hb. unfold crc_step. pose proof (mod_word c) as Hc.
  assert (Hw : word_ok b) by (unfold word_ok, byte_ok in *; lia).
  rewrite js_xor_mod, js_and_byte, js_xor_mod, (word_mod b Hw), js_ushr_eq by lia.
  rewrite (ref_byte_table _ b) by (done || apply Hc). set (i := Z.land (Z.lxor _ b) 255).
  assert (Hi : 0 <= i < 256).
  { unfold i. change 255 with (Z.ones 8). rewrite Z.land_ones by lia. apply Z.mod_pos_bound. lia. }
  rewrite table_entry by done. cbn [default from_option]. f_equal; apply word_mod.
  - apply iter_bit_word. unfold word_ok. lia.
  - by apply shiftr_word.
Qed.
Lemma crc_fold_ref bs c : Forall byte_ok bs -> foldl crc_step c bs mod 2 ^ 32 = foldl ref_byte (c mod 2 ^ 32) bs.
Proof.
  intros H. revert c. induction H as [|b bs Hb _ IH]; intros c; [done|]. cbn [foldl]. by rewrite IH, crc_step_ref.
Qed.

Lemma crc32_ref_eq bs : Forall byte_ok bs -> crc32 bs = ref_crc bs.
Proof.
  intros H. unfold crc32, ref_crc. rewrite js_ushr_eq, Z.shiftr_0_r, js_xor_mod, crc_fold_ref by done. done.
Qed.
Lemma crc32_word bs : word_ok (crc32 bs).
Proof. unfold crc32. rewrite js_ushr_eq, Z.shiftr_0_r by lia. apply mod_word. Qed.
(** The table-driven checksum on signed 32-bit operators is the bit-by-bit CRC-32
    (polynomial [0xEDB88320], reflected) of every byte string, and an unsigned word. *)
Theorem crc32_reference bs : Forall byte_ok bs -> crc32 bs = ref_crc bs /\ word_ok (crc32 bs).
Proof.
  intros H. split; [by apply crc32_ref_eq|apply crc32_word].
Qed.

(** ** What it detects *)

Fixpoint le_word (w : list Z) : Z :=
  match w with [] => 0 | b :: w' => Z.lxor b (Z.shiftl (le_word w') 8) end.
Lemma le_word_bound w : Forall byte_ok w -> 0 <= le_word w < 2 ^ (8 * Z.of_nat (length w)).
Proof.
  induction 1 as [|b w Hb _ IH]; [done|]. cbn [le_word length]. unfold byte_ok in Hb.
  assert (E : Z.lxor b (Z.shiftl (le_word w) 8) = b + le_word w * 256).
  { rewrite Z.lxor_lor.
    - by rewrite lor_shiftl_add by (change (2 ^ 8) with 256; lia).
    - apply Z.bits_inj'. intros i Hi. rewrite Z.land_spec, Z.shiftl_spec, Z.bits_0 by done.
      destruct (Z.lt_ge_cases i 8); [by rewrite (Z.testbit_neg_r (le_word w)), andb_false_r by lia|].
      destruct (Z.eq_dec b 0) as [->|]; [by rewrite Z.bits_0|]. rewrite (Z.bits_above_log2 b); [done|lia|].
      apply Z.log2_lt_pow2; [lia|]. apply Z.lt_le_trans with (2 ^ 8); [change (2 ^ 8) with 256; lia|].
      apply Z.pow_le_mono_r; lia. }
  rewrite E. replace (8 * Z.of_nat (S (length w))) with (8 * Z.of_nat (length w) + 8) by lia.
  rewrite Z.pow_add_r by lia. change (2 ^ 8) with 256. lia.
Qed.
Lemma le_word_inj w w' : Forall byte_ok w -> Forall byte_ok w' -> length w = length w' -> le_word w = le_word w' -> w = w'.
Proof.
  intros Hw. revert w'. induction Hw as [|b w Hb Hw IH]; intros [|b' w'] Hw' Hl; try done.
  apply Forall_cons_1 in Hw' as [Hb' Hw']. cbn [le_word length] in *. intros E.
  assert (El : forall c x, byte_ok c -> Z.lxor c (Z.shiftl x 8) mod 256 = c /\ Z.shiftr (Z.lxor c (Z.shiftl x 8)) 8 = x).
  { intros c x Hc. unfold byte_ok in Hc. split.
    - change 256 with (2 ^ 8). apply Z.bits_inj'. intros i Hi. destruct (Z.lt_ge_cases i 8).
      + rewrite Z.mod_pow2_bits_low, Z.lxor_spec, Z.shiftl_spec_low by lia. apply xorb_false_r.
      + rewrite Z.mod_pow2_bits_high by lia. symmetry. rewrite <- (Z.mod_small c (2 ^ 8)) by (change (2 ^ 8) with 256; lia).
        by rewrite Z.mod_pow2_bits_high by lia.
    - rewrite Z.shiftr_lxor, Z.shiftr_shiftl_l, Z.sub_diag, Z.shiftl_0_r by lia. rewrite Z.shiftr_div_pow2 by lia.
      rewrite Z.div_small by (change (2 ^ 8) with 256; lia). done. }
  destruct (El b (le_word w) Hb) as [E1 E2], (El b' (le_word w') Hb') as [E3 E4]. rewrite E in E1, E2.
  f_equal; [congruence|]. apply IH; [done|lia|congruence].
Qed.
(** Bytes fed one by one, or as one word. *)
Lemma ref_bytes_word w s : Forall byte_ok w -> foldl ref_byte s w = Nat.iter (8 * length w) ref_bit (Z.lxor s (le_word w)).
Proof.
  intros H. revert s. induction H as [|b w Hb _ IH]; intros s; [by cbn; rewrite Z.lxor_0_r|].
  cbn [foldl le_word length]. rewrite IH. replace (8 * S (length w))%nat with (8 * length w + 8)%nat by lia.
  rewrite Nat.iter_add. f_equal. unfold ref_byte. rewrite <- Z.lxor_assoc, (iter_bit_lxor 8 (Z.lxor s b)).
  by rewrite (iter_bit_shiftl 8).
Qed.
Lemma ref_fold_word bs s : Forall byte_ok bs -> word_ok s -> word_ok (foldl ref_byte s bs).
Proof.
  intros H. revert s. induction H as [|b bs Hb _ IH]; intros s Hs; [done|]. cbn [foldl]. apply IH.
  apply iter_bit_word, lxor_word; [done|]. unfold byte_ok, word_ok in *. lia.
Qed.
Lemma ref_fold_inj bs s s' :
  Forall byte_ok bs -> word_ok s -> word_ok s' -> foldl ref_byte s bs = foldl ref_byte s' bs -> s = s'.
Proof.
  intros H. revert s s'. induction H as [|b bs Hb _ IH]; intros s s' Hs Hs' E; [done|]. cbn [foldl] in E.
  assert (Hbw : word_ok b) by (unfold byte_ok, word_ok in *; lia).
  apply IH in E; [|apply iter_bit_word, lxor_word; done..].
  apply iter_bit_inj in E; [|by apply lxor_word..]. rewrite !(Z.lxor_comm _ b) in E.
  rewrite <- (Z.lxor_0_l s), <- (Z.lxor_0_l s'), <- (Z.lxor_nilpotent b), !Z.lxor_assoc. by rewrite E.
Qed.

(** Two byte strings of the same length that differ, and only within four
    consecutive bytes, have different checksums. *)
Theorem crc32_detects pre w w' post :
  Forall byte_ok (pre ++ w ++ post) -> Forall byte_ok w' -> length w = length w' -> (length w <= 4)%nat -> w <> w' ->
  crc32 (pre ++ w ++ post) <> crc32 (pre ++ w' ++ post).
Proof.
  intros H Hw' Hl H4 Hne. pose proof H as H'. rewrite !Forall_app in H. destruct H as (Hpre & Hw & Hpost).
  rewrite (crc32_ref_eq (pre ++ w ++ post) H').
  rewrite (crc32_ref_eq (pre ++ w' ++ post) ltac:(by rewrite !Forall_app)). unfold ref_crc. intros E.
  assert (E' : foldl ref_byte 4294967295 (pre ++ w ++ post) = foldl ref_byte 4294967295 (pre ++ w' ++ post)).
  { rewrite <- (Z.lxor_0_r (foldl _ _ (pre ++ w ++ post))), <- (Z.lxor_0_r (foldl _ _ (pre ++ w' ++ post))).
    rewrite <- (Z.lxor_nilpotent 4294967295), <- !Z.lxor_assoc. by rewrite E. }
  rewrite !foldl_app in E'. set (s := foldl ref_byte 4294967295 pre) in *.
  assert (Hs : word_ok s) by (by apply ref_fold_word).
  apply ref_fold_inj in E'; [|done|by apply ref_fold_word..]. rewrite !ref_bytes_word, Hl in E' by done.
  assert (Hword : forall x, Forall byte_ok x -> (length x <= 4)%nat -> word_ok (le_word x)).
  { intros x Hx Hx4. pose proof (le_word_bound x Hx). split; [lia|]. eapply Z.lt_le_trans; [apply H|].
    apply Z.pow_le_mono_r; lia. }
  apply iter_bit_inj in E'; [|apply lxor_word; [done|apply Hword; (done || lia)]..].
  apply Hne, le_word_inj; try done. rewrite <- (Z.lxor_0_l (le_word w)), <- (Z.lxor_0_l (le_word w')).
  rewrite <- (Z.lxor_nilpotent s), !Z.lxor_assoc. by rewrite E'.
Qed.
Lemma crc32_reference_witness :
  crc32 [49; 50; 51] = ref_crc [49; 50; 51] /\ ref_crc [49; 50; 51] = 2286445522.
Proof.
  split; [|vm_compute; reflexivity]. refine (proj1 (crc32_reference [49; 50; 51] _)).
  repeat (constructor; [unfold byte_ok; lia|]). constructor.
Defined.
Lemma crc32_detects_witness : crc32 ([1] ++ [2; 3] ++ [4]) <> crc32 ([1] ++ [3; 2] ++ [4]).
Proof.
  apply (crc32_detects [1] [2; 3] [3; 2] [4]); [| |reflexivity|cbn; lia|discriminate];
    repeat (constructor; [unfold byte_ok; lia|]); constructor.
Defined.
