(* ===== verification/ZipArchive.v ===== *)
(** [app/utils/zip-writer.ts]: the ZIP archives of the artifact bundles, written with
    stored entries and read back.

    [TextEncoder] is [utf8_encode] of [JsString]; [TextDecoder] is a parameter, [None] when it
    throws.  A [Uint8Array] is the list of its
    bytes; the accessors of a [DataView] throw out of its bounds. *)

From S2P Require Import Prelude JsString CronParser WasmReader Crc32.
From stdpp Require Import base list sets fin_sets gmap strings numbers sorting.
From Stdlib Require Import ZArith Lia Ascii.
#[local] Open Scope Z_scope.

Record ZipEntry : Type := mkZipEntry { ze_path : string; ze_content : string }.
Definition LOCAL_HEADER_SIGNATURE : Z := 67324752.
Definition CENTRAL_HEADER_SIGNATURE : Z := 33639248.
Definition EOCD_SIGNATURE : Z := 101010256.
Definition LOCAL_HEADER_SIZE : Z := 30.
Definition CENTRAL_HEADER_SIZE : Z := 46.
Definition EOCD_SIZE : Z := 22.
Definition MAX_ZIP_ENTRIES : Z := 500.
Definition MAX_ZIP_ENTRY_BYTES : Z := 4 * 1024 * 1024.
Definition MAX_ZIP_TOTAL_BYTES : Z := 16 * 1024 * 1024.
Definition MAX_ZIP_PATH_BYTES : Z := 512.
Definition MAX_ZIP_ARCHIVE_BYTES : Z :=
  MAX_ZIP_TOTAL_BYTES + MAX_ZIP_ENTRIES * (LOCAL_HEADER_SIZE + CENTRAL_HEADER_SIZE + MAX_ZIP_PATH_BYTES) + EOCD_SIZE.
Definition VERSION : Z := 20.
Definition UTF8_FLAG : Z := 2048.
Definition METHOD_STORE : Z := 0.

(** ** Bytes and views *)

(** [buffer.set(bs, off)], which every write of a view comes to. *)
Definition set_at (off : Z) (bs buf : list Z) : result string (list Z) :=
  if (0 <=? off) && (off + blen bs <=? blen buf)
  then Ok (take (Z.to_nat off) buf ++ bs ++ drop (Z.to_nat (off + blen bs)) buf)
  else Err "Offset is outside the bounds of the DataView"%string.
Fixpoint le_value (bs : list Z) : Z := match bs with [] => 0 | b :: bs' => b + 256 * le_value bs' end.
(** [view.getUint16(off, true)], [view.getUint32(off, true)]. *)
Definition get_le (n : nat) (off : Z) (buf : list Z) : result string Z :=
  if (0 <=? off) && (off + Z.of_nat n <=? blen buf) then Ok (le_value (take n (drop (Z.to_nat off) buf)))
  else Err "Offset is outside the bounds of the DataView"%string.
Definition subarray (from to : Z) (buf : list Z) : list Z :=
  let a := Z.min from (blen buf) in let b := Z.min to (blen buf) in
  take (Z.to_nat (b - a)) (drop (Z.to_nat a) buf).
(** A run of [view.setUint*(cursor + off, v, true)]. *)
Fixpoint put_fields (cursor : Z) (fields : list (Z * nat * Z)) (buf : list Z) : result string (list Z) :=
  match fields with
  | [] => Ok buf
  | (off, n, v) :: rest => buf ← set_at (cursor + off) (le_bytes n v) buf; put_fields cursor rest buf
  end.

(** The fields of a [Date] in local time. *)
Record LocalDate : Type := mkLocalDate
  { ld_year : Z; ld_month : Z; ld_day : Z; ld_hours : Z; ld_minutes : Z; ld_seconds : Z }.
Definition js_sar (a s : Z) : Z := Z.shiftr (to_int32 a) (s mod 32).
Definition toDosDateTime (d : LocalDate) : Z * Z :=
  let year := Z.max (ld_year d) 1980 in
  (js_and (js_or (js_or (js_shl (ld_hours d) 11) (js_shl (ld_minutes d) 5)) (js_sar (ld_seconds d) 1)) 65535,
   js_and (js_or (js_or (js_shl (year - 1980) 9) (js_shl (ld_month d + 1) 5)) (ld_day d)) 65535).

(** ** Paths *)

Definition is_letter (c : ascii) : bool := ((97 <=? code c) && (code c <=? 122)) || ((65 <=? code c) && (code c <=? 90)).
(** [/^[a-zA-Z]:/]. *)
Definition drive_prefix (path : string) : bool :=
  match path with String a (String b _) => is_letter a && bool_decide (b = ":"%char) | _ => false end.
Definition dangerous_segment (segment : string) : bool :=
  bool_decide (segment = "" \/ segment = "." \/ segment = "..")%string.
Definition control_char (c : ascii) : bool := (code c <? 32) || (code c =? 127).
Definition validateZipPath (path : string) : result string string :=
  if bool_decide (path = ""%string) || negb (all_chars (fun c => negb (bool_decide (c = "\"%char))) path)
     || negb (all_chars (fun c => negb (code c =? 0)) path) || drive_prefix path || startsWith path "/"
  then Err "Invalid ZIP entry path"%string
  else if existsb dangerous_segment (split_on "/"%char path) then Err "ZIP entry path contains an unsafe segment"%string
  else if negb (all_chars (fun c => negb (control_char c)) path) then Err "ZIP entry path contains a control character"%string
  else Ok path.

(** ** Writing *)

Record Prepared : Type := mkPrepared { zp_name : list Z; zp_data : list Z; zp_crc : Z; zp_offset : Z }.
(** The body of [entries.map], with the set and the total it closes over. *)
Definition prepare (seenPaths : list string) (totalBytes : Z) (entry : ZipEntry)
  : result string (list string * Z * Prepared) :=
  safePath ← validateZipPath (ze_path entry);
  if bool_decide (safePath ∈ seenPaths) then Err (cat ["Duplicate entry path in archive: "; safePath])
  else
    let nameBytes := utf8_encode safePath in
    if MAX_ZIP_PATH_BYTES <? blen nameBytes then Err "ZIP entry path exceeds the 512 byte limit"%string
    else
      let dataBytes := utf8_encode (ze_content entry) in
      if MAX_ZIP_ENTRY_BYTES <? blen dataBytes then Err "ZIP entry exceeds the 4194304 byte limit"%string
      else
        let totalBytes := totalBytes + blen dataBytes in
        if MAX_ZIP_TOTAL_BYTES <? totalBytes then Err "ZIP archive exceeds the 16777216 byte uncompressed limit"%string
        else Ok (seenPaths ++ [safePath], totalBytes, mkPrepared nameBytes dataBytes (crc32 dataBytes) 0).
Fixpoint prepare_all (seenPaths : list string) (totalBytes : Z) (entries : list ZipEntry)
  : result string (list Prepared) :=
  match entries with
  | [] => Ok []
  | entry :: rest =>
      '(seenPaths, totalBytes, p) ← prepare seenPaths totalBytes entry;
      ps ← prepare_all seenPaths totalBytes rest;
      Ok (p :: ps)
  end.
Definition local_fields (time date : Z) (e : Prepared) : list (Z * nat * Z) :=
  [(0, 4%nat, LOCAL_HEADER_SIGNATURE); (4, 2%nat, VERSION); (6, 2%nat, UTF8_FLAG); (8, 2%nat, METHOD_STORE);
   (10, 2%nat, time); (12, 2%nat, date); (14, 4%nat, zp_crc e); (18, 4%nat, blen (zp_data e));
   (22, 4%nat, blen (zp_data e)); (26, 2%nat, blen (zp_name e)); (28, 2%nat, 0)].
Definition central_fields (time date : Z) (e : Prepared) : list (Z * nat * Z) :=
  [(0, 4%nat, CENTRAL_HEADER_SIGNATURE); (4, 2%nat, VERSION); (6, 2%nat, VERSION); (8, 2%nat, UTF8_FLAG);
   (10, 2%nat, METHOD_STORE); (12, 2%nat, time); (14, 2%nat, date); (16, 4%nat, zp_crc e);
   (20, 4%nat, blen (zp_data e)); (24, 4%nat, blen (zp_data e)); (28, 2%nat, blen (zp_name e)); (30, 2%nat, 0);
   (32, 2%nat, 0); (34, 2%nat, 0); (36, 2%nat, 0); (38, 4%nat, 0); (42, 4%nat, zp_offset e)].
Definition eocd_fields (count size centralStart : Z) : list (Z * nat * Z) :=
  [(0, 4%nat, EOCD_SIGNATURE); (4, 2%nat, 0); (6, 2%nat, 0); (8, 2%nat, count); (10, 2%nat, count);
   (12, 4%nat, size); (16, 4%nat, centralStart); (20, 2%nat, 0)].
Fixpoint write_locals (time date : Z) (es : list Prepared) (cursor : Z) (buf : list Z)
  : result string (list Prepared * Z * list Z) :=
  match es with
  | [] => Ok ([], cursor, buf)
  | e :: rest =>
      let e := mkPrepared (zp_name e) (zp_data e) (zp_crc e) cursor in
      buf ← put_fields cursor (local_fields time date e) buf;
      let cursor := cursor + LOCAL_HEADER_SIZE in
      buf ← set_at cursor (zp_name e) buf;
      let cursor := cursor + blen (zp_name e) in
      buf ← set_at cursor (zp_data e) buf;
      let cursor := cursor + blen (zp_data e) in
      '(es', cursor, buf) ← write_locals time date rest cursor buf;
      Ok (e :: es', cursor, buf)
  end.
Fixpoint write_centrals (time date : Z) (es : list Prepared) (cursor : Z) (buf : list Z) : result string (Z * list Z) :=
  match es with
  | [] => Ok (cursor, buf)
  | e :: rest =>
      buf ← put_fields cursor (central_fields time date e) buf;
      let cursor := cursor + CENTRAL_HEADER_SIZE in
      buf ← set_at cursor (zp_name e) buf;
      write_centrals time date rest (cursor + blen (zp_name e)) buf
  end.
Definition createZipArchive (entries : list ZipEntry) (modifiedAt : LocalDate) : result string (list Z) :=
  let '(time, date) := toDosDateTime modifiedAt in
  if MAX_ZIP_ENTRIES <? Z.of_nat (length entries) then Err "ZIP archive exceeds the 500 entry limit"%string
  else
    prepared ← prepare_all [] 0 entries;
    let localSize := foldl (fun total e => total + LOCAL_HEADER_SIZE + blen (zp_name e) + blen (zp_data e)) 0 prepared in
    let centralSize := foldl (fun total e => total + CENTRAL_HEADER_SIZE + blen (zp_name e)) 0 prepared in
    let buffer := replicate (Z.to_nat (localSize + centralSize + EOCD_SIZE)) 0 in
    '(prepared, centralStart, buffer) ← write_locals time date prepared 0 buffer;
    '(cursor, buffer) ← write_centrals time date prepared centralStart buffer;
    put_fields cursor (eocd_fields (Z.of_nat (length prepared)) (cursor - centralStart) centralStart) buffer.

(** ** Reading *)

Section Reader.
Context (decode : list Z -> option string).

Definition decode_utf8 (bs : list Z) : result string string :=
  match decode bs with Some s => Ok s | None => Err "The encoded data was not valid for encoding utf-8"%string end.
(** The backward scan from [i] down to zero. *)
Fixpoint find_eocd (i : nat) (bytes : list Z) : result string Z :=
  signature ← get_le 4 (Z.of_nat i) bytes;
  if signature =? EOCD_SIGNATURE then Ok (Z.of_nat i)
  else match i with
       | O => Err "Not a ZIP archive: end of central directory record not found"%string
       | S i' => find_eocd i' bytes
       end.
Definition guard (b : bool) (message : string) : result string unit := if b then Err message else Ok tt.
(** One turn of the loop: the entry, the next cursor and the bytes so far. *)
Definition read_entry (i cursor totalBytes : Z) (bytes : list Z) : result string (ZipEntry * Z * Z) :=
  _ ← guard (blen bytes <? cursor + CENTRAL_HEADER_SIZE) (cat ["Truncated central directory at entry "; num_to_string i]);
  signature ← get_le 4 cursor bytes;
  _ ← guard (negb (signature =? CENTRAL_HEADER_SIGNATURE)) (cat ["Corrupt central directory at entry "; num_to_string i]);
  method ← get_le 2 (cursor + 10) bytes;
  _ ← guard (negb (method =? METHOD_STORE)) (cat ["Unsupported compression method "; num_to_string method]);
  expectedCrc ← get_le 4 (cursor + 16) bytes;
  compressedSize ← get_le 4 (cursor + 20) bytes;
  size ← get_le 4 (cursor + 24) bytes;
  nameLength ← get_le 2 (cursor + 28) bytes;
  extraLength ← get_le 2 (cursor + 30) bytes;
  commentLength ← get_le 2 (cursor + 32) bytes;
  localOffset ← get_le 4 (cursor + 42) bytes;
  _ ← guard (MAX_ZIP_ENTRY_BYTES <? size) "ZIP entry exceeds the 4194304 byte limit";
  _ ← guard (negb (compressedSize =? size)) "Stored ZIP entry has inconsistent sizes";
  let totalBytes := totalBytes + size in
  _ ← guard (MAX_ZIP_TOTAL_BYTES <? totalBytes) "ZIP archive exceeds the 16777216 byte uncompressed limit";
  let nameStart := cursor + CENTRAL_HEADER_SIZE in
  _ ← guard (blen bytes <? nameStart + nameLength + extraLength + commentLength)
        (cat ["Truncated central directory entry "; num_to_string i]);
  name ← decode_utf8 (subarray nameStart (nameStart + nameLength) bytes);
  path ← validateZipPath name;
  _ ← guard (blen bytes <? localOffset + LOCAL_HEADER_SIZE) (cat ["Invalid local header offset for entry "; path]);
  localSignature ← get_le 4 localOffset bytes;
  _ ← guard (negb (localSignature =? LOCAL_HEADER_SIGNATURE)) (cat ["Invalid local file header for entry "; path]);
  localNameLength ← get_le 2 (localOffset + 26) bytes;
  localExtraLength ← get_le 2 (localOffset + 28) bytes;
  let localNameStart := localOffset + LOCAL_HEADER_SIZE in
  let dataStart := localNameStart + localNameLength + localExtraLength in
  _ ← guard (blen bytes <? dataStart) (cat ["Truncated local header for entry "; path]);
  localName ← decode_utf8 (subarray localNameStart (localNameStart + localNameLength) bytes);
  localPath ← validateZipPath localName;
  _ ← guard (negb (bool_decide (localPath = path))) (cat ["ZIP entry path mismatch for "; path]);
  _ ← guard (blen bytes <? dataStart + size) (cat ["Truncated data for entry "; path]);
  let data := subarray dataStart (dataStart + size) bytes in
  _ ← guard (negb (crc32 data =? expectedCrc)) (cat ["CRC mismatch for entry "; path]);
  content ← decode_utf8 data;
  Ok (mkZipEntry path content, cursor + (CENTRAL_HEADER_SIZE + nameLength + extraLength + commentLength), totalBytes).
Fixpoint read_entries (n : nat) (i cursor totalBytes : Z) (bytes : list Z) : result string (list ZipEntry) :=
  match n with
  | O => Ok []
  | S n =>
      '(entry, cursor, totalBytes) ← read_entry i cursor totalBytes bytes;
      rest ← read_entries n (i + 1) cursor totalBytes bytes;
      Ok (entry :: rest)
  end.
Definition readZipArchive (bytes : list Z) : result string (list ZipEntry) :=
  _ ← guard (MAX_ZIP_ARCHIVE_BYTES <? blen bytes)
        (cat ["ZIP archive exceeds the "; num_to_string MAX_ZIP_ARCHIVE_BYTES; " byte limit"]);
  eocd ← (if blen bytes <? EOCD_SIZE
          then Err "Not a ZIP archive: end of central directory record not found"%string
          else find_eocd (Z.to_nat (blen bytes - EOCD_SIZE)) bytes);
  entryCount ← get_le 2 (eocd + 10) bytes;
  _ ← guard (MAX_ZIP_ENTRIES <? entryCount) "ZIP archive exceeds the 500 entry limit";
  cursor ← get_le 4 (eocd + 16) bytes;
  read_entries (Z.to_nat entryCount) 0 cursor 0 bytes.
End Reader.

(** ** Fields written and read *)

Definition zeros (n : nat) : list Z := replicate n 0.

Lemma le_bytes_len n v : length (le_bytes n v) = n.
Proof. revert v. induction n as [|n IH]; intros v; cbn; [done|]. by rewrite IH. Qed.
Lemma le_value_bytes n v : 0 <= v < 256 ^ Z.of_nat n -> le_value (le_bytes n v) = v.
Proof.
  revert v. induction n as [|n IH]; intros v Hv; cbn [le_bytes le_value]; [change (256 ^ Z.of_nat 0) with 1 in Hv; lia|].
  rewrite Nat2Z.inj_succ, Z.pow_succ_r in Hv by lia. rewrite IH; [lia|].
  split; [lia|]. apply Z.div_lt_upper_bound; lia.
Qed.
Lemma blen_le_bytes n v : blen (le_bytes n v) = Z.of_nat n.
Proof. unfold blen. by rewrite le_bytes_len. Qed.
Lemma get_le_mid n v pre post :
  0 <= v < 256 ^ Z.of_nat n -> get_le n (blen pre) (pre ++ le_bytes n v ++ post) = Ok v.
Proof.
  intros Hv. unfold get_le. rewrite !blen_app, blen_le_bytes. pose proof (blen_nonneg pre). pose proof (blen_nonneg post).
  rewrite !(proj2 (Z.leb_le _ _)) by lia. cbn [andb].
  replace (Z.to_nat (blen pre)) with (length pre) by (unfold blen; lia). rewrite drop_app_length.
  rewrite <- (le_bytes_len n v) at 1. by rewrite take_app_length, le_value_bytes.
Qed.
Lemma set_at_mid pre old bs post :
  length old = length bs -> set_at (blen pre) bs (pre ++ old ++ post) = Ok (pre ++ bs ++ post).
Proof.
  intros Hl. unfold set_at. assert (E : blen old = blen bs) by (unfold blen; lia). rewrite !blen_app, E.
  pose proof (blen_nonneg pre). pose proof (blen_nonneg post). rewrite !(proj2 (Z.leb_le _ _)) by lia. cbn [andb].
  rewrite <- E, <- blen_app.
  replace (Z.to_nat (blen pre)) with (length pre) by (unfold blen; lia).
  replace (Z.to_nat (blen (pre ++ old))) with (length (pre ++ old)) by (unfold blen; lia).
  by rewrite take_app_length, (app_assoc pre old post), drop_app_length.
Qed.
Lemma set_at_frontier done bs r :
  (length bs <= r)%nat -> set_at (blen done) bs (done ++ zeros r) = Ok ((done ++ bs) ++ zeros (r - length bs)).
Proof.
  intros Hr. replace (zeros r) with (zeros (length bs) ++ zeros (r - length bs))
    by (unfold zeros; rewrite <- replicate_add; f_equal; lia).
  rewrite set_at_mid by apply length_replicate. by rewrite <- app_assoc.
Qed.

(** Fields that follow one another without gaps. *)
Fixpoint contiguous (off : Z) (fields : list (Z * nat * Z)) : Prop :=
  match fields with [] => True | (o, n, _) :: rest => o = off /\ contiguous (off + Z.of_nat n) rest end.
Definition fields_bytes (fields : list (Z * nat * Z)) : list Z := concat ((fun f => le_bytes f.1.2 f.2) <$> fields).
Definition fields_fit (fields : list (Z * nat * Z)) : Prop := Forall (fun f => 0 <= f.2 < 256 ^ Z.of_nat f.1.2) fields.
Lemma put_fields_frontier cursor off fields done r :
  contiguous off fields -> blen done = cursor + off -> (length (fields_bytes fields) <= r)%nat ->
  put_fields cursor fields (done ++ zeros r) = Ok ((done ++ fields_bytes fields) ++ zeros (r - length (fields_bytes fields))).
Proof.
  revert off done r. induction fields as [|[[o n] v] rest IH]; intros off done r Hc Hd Hr.
  - cbn. by rewrite app_nil_r, Nat.sub_0_r.
  - destruct Hc as [-> Hc]. unfold fields_bytes in *. cbn [fmap list_fmap concat fst snd] in *.
    rewrite length_app, le_bytes_len in *. cbn [put_fields]. rewrite <- Hd, set_at_frontier by (rewrite le_bytes_len; lia).
    cbn [mbind result_bind]. rewrite le_bytes_len, (IH (off + Z.of_nat n)); [|done| |lia].
    + by rewrite Nat.sub_add_distr, <- !app_assoc.
    + rewrite blen_app, blen_le_bytes. lia.
Qed.
Lemma get_field fields off0 off n v pre post :
  contiguous off0 fields -> fields_fit fields -> (off, n, v) ∈ fields ->
  get_le n (blen pre + (off - off0)) (pre ++ fields_bytes fields ++ post) = Ok v.
Proof.
  revert off0 pre. induction fields as [|[[o m] w] rest IH]; intros off0 pre Hc Hf Hin; [by apply elem_of_nil in Hin|].
  destruct Hc as [-> Hc]. apply Forall_cons_1 in Hf as [Hw Hf]. unfold fields_bytes. cbn [fmap list_fmap concat fst snd] in *.
  apply elem_of_cons in Hin as [[= -> -> ->]|Hin].
  - rewrite Z.sub_diag, Z.add_0_r, <- app_assoc. by apply get_le_mid.
  - specialize (IH (off0 + Z.of_nat m) (pre ++ le_bytes m w) Hc Hf Hin). rewrite blen_app, blen_le_bytes, <- app_assoc in IH.
    rewrite <- app_assoc. unfold fields_bytes in IH. rewrite <- IH. f_equal. lia.
Qed.
Lemma subarray_mid pre mid post :
  subarray (blen pre) (blen pre + blen mid) (pre ++ mid ++ post) = mid.
Proof.
  unfold subarray. rewrite !blen_app. pose proof (blen_nonneg pre). pose proof (blen_nonneg mid). pose proof (blen_nonneg post).
  rewrite !Z.min_l by lia. replace (blen pre + blen mid - blen pre) with (blen mid) by lia.
  replace (Z.to_nat (blen pre)) with (length pre) by (unfold blen; lia).
  replace (Z.to_nat (blen mid)) with (length mid) by (unfold blen; lia).
  by rewrite drop_app_length, take_app_length.
Qed.

(** ** The bytes of an archive *)

Definition local_header (t d : Z) (e : Prepared) : list Z := fields_bytes (local_fields t d e).
Definition central_record (t d : Z) (e : Prepared) : list Z := fields_bytes (central_fields t d e) ++ zp_name e.
(** Entries beside the bytes stored for them, which are their data unless the archive was tampered with. *)
Definition local_record (t d : Z) (ed : Prepared * list Z) : list Z := local_header t d ed.1 ++ zp_name ed.1 ++ ed.2.
Definition locals (t d : Z) (l : list (Prepared * list Z)) : list Z := concat (local_record t d <$> l).
Definition centrals (t d : Z) (es : list Prepared) : list Z := concat (central_record t d <$> es).
Definition own_data (e : Prepared) : Prepared * list Z := (e, zp_data e).
Fixpoint with_offsets (cursor : Z) (es : list Prepared) : list Prepared :=
  match es with
  | [] => []
  | e :: rest => mkPrepared (zp_name e) (zp_data e) (zp_crc e) cursor
                 :: with_offsets (cursor + LOCAL_HEADER_SIZE + blen (zp_name e) + blen (zp_data e)) rest
  end.
Lemma local_header_len t d e : length (local_header t d e) = 30%nat.
Proof. done. Qed.
Lemma central_header_len t d e : length (fields_bytes (central_fields t d e)) = 46%nat.
Proof. done. Qed.
Lemma local_contiguous t d e : contiguous 0 (local_fields t d e).
Proof. cbn. repeat split. Qed.
Lemma central_contiguous t d e : contiguous 0 (central_fields t d e).
Proof. cbn. repeat split. Qed.
Lemma blen_local t d e bs : blen (local_record t d (e, bs)) = LOCAL_HEADER_SIZE + blen (zp_name e) + blen bs.
Proof. unfold local_record. cbn [fst snd]. rewrite !blen_app. change (blen (local_header t d e)) with 30. unfold LOCAL_HEADER_SIZE. lia. Qed.
Lemma blen_central t d e : blen (central_record t d e) = CENTRAL_HEADER_SIZE + blen (zp_name e).
Proof. unfold central_record. rewrite blen_app. by change (blen (fields_bytes (central_fields t d e))) with 46. Qed.

Lemma write_locals_frontier t d es done r :
  (length (locals t d (own_data <$> es)) <= r)%nat ->
  write_locals t d es (blen done) (done ++ zeros r) =
  Ok (with_offsets (blen done) es, blen done + blen (locals t d (own_data <$> es)),
      (done ++ locals t d (own_data <$> es)) ++ zeros (r - length (locals t d (own_data <$> es)))).
Proof.
  revert done r. induction es as [|e es IH]; intros done r Hr; [cbn; by rewrite Z.add_0_r, app_nil_r, Nat.sub_0_r|].
  unfold locals in *. cbn [fmap list_fmap concat] in *. fold (own_data <$> es) in *. fold (local_record t d <$> (own_data <$> es)) in *.
  rewrite length_app in *. unfold local_record at 1 in Hr. cbn [own_data fst snd] in Hr. rewrite !length_app, local_header_len in Hr.
  cbn [write_locals with_offsets]. cbn zeta.
  rewrite (put_fields_frontier _ 0) by (apply local_contiguous || lia || (change (fields_bytes _) with (local_header t d e); rewrite local_header_len; lia)).
  change (fields_bytes (local_fields t d _)) with (local_header t d e). rewrite local_header_len. cbn [mbind result_bind zp_name zp_data].
  replace (blen done + LOCAL_HEADER_SIZE) with (blen (done ++ local_header t d e)) by (rewrite blen_app; done).
  rewrite set_at_frontier by lia. cbn [mbind result_bind]. rewrite <- blen_app.
  rewrite set_at_frontier by lia. cbn [mbind result_bind]. rewrite <- blen_app.
  rewrite IH by lia. cbn [mbind result_bind].
  assert (E : ((done ++ local_header t d e) ++ zp_name e) ++ zp_data e = done ++ local_record t d (own_data e))
    by (unfold local_record; cbn; by rewrite <- !app_assoc).
  rewrite E. replace (length (local_record t d (own_data e))) with (30 + length (zp_name e) + length (zp_data e))%nat
    by (unfold local_record; cbn [own_data fst snd]; rewrite !length_app, local_header_len; lia).
  assert (E2 : blen (done ++ local_record t d (own_data e)) = blen done + LOCAL_HEADER_SIZE + blen (zp_name e) + blen (zp_data e))
    by (rewrite blen_app; unfold own_data; rewrite blen_local; lia).
  assert (E3 : blen (local_record t d (own_data e)) = LOCAL_HEADER_SIZE + blen (zp_name e) + blen (zp_data e)) by (apply blen_local).
  rewrite E2, (blen_app (local_record t d (own_data e))), E3, !Z.add_assoc, <- !app_assoc.
  rewrite !Nat.sub_add_distr. done.
Qed.
Lemma write_centrals_frontier t d es done r :
  (length (centrals t d es) <= r)%nat ->
  write_centrals t d es (blen done) (done ++ zeros r) =
  Ok (blen done + blen (centrals t d es), (done ++ centrals t d es) ++ zeros (r - length (centrals t d es))).
Proof.
  revert done r. induction es as [|e es IH]; intros done r Hr; [cbn; by rewrite Z.add_0_r, app_nil_r, Nat.sub_0_r|].
  unfold centrals in *. cbn [fmap list_fmap concat] in *. fold (central_record t d <$> es) in *.
  rewrite length_app in *. unfold central_record at 1 in Hr. rewrite !length_app, central_header_len in Hr. cbn [write_centrals].
  rewrite (put_fields_frontier _ 0) by (apply central_contiguous || lia || (rewrite central_header_len; lia)).
  rewrite central_header_len. cbn [mbind result_bind].
  replace (blen done + CENTRAL_HEADER_SIZE) with (blen (done ++ fields_bytes (central_fields t d e))) by (rewrite blen_app; done).
  rewrite set_at_frontier by lia. cbn [mbind result_bind]. rewrite <- blen_app. rewrite IH by lia.
  replace (length (central_record t d e)) with (46 + length (zp_name e))%nat
    by (unfold central_record; rewrite !length_app, central_header_len; lia).
  unfold central_record. rewrite !blen_app. by rewrite !Nat.sub_add_distr, <- !app_assoc, !Z.add_assoc.
Qed.

(** ** What [createZipArchive] accepts and writes *)

Definition prep_of (e : ZipEntry) : Prepared :=
  mkPrepared (utf8_encode (ze_path e)) (utf8_encode (ze_content e)) (crc32 (utf8_encode (ze_content e))) 0.
Definition zip_entry_ok (e : ZipEntry) : Prop :=
  validateZipPath (ze_path e) = Ok (ze_path e) /\ blen (utf8_encode (ze_path e)) <= MAX_ZIP_PATH_BYTES /\
  blen (utf8_encode (ze_content e)) <= MAX_ZIP_ENTRY_BYTES.
Fixpoint content_bytes (entries : list ZipEntry) : Z :=
  match entries with [] => 0 | e :: rest => blen (utf8_encode (ze_content e)) + content_bytes rest end.
Lemma validate_same p q : validateZipPath p = Ok q -> q = p.
Proof. unfold validateZipPath. repeat case_match; congruence. Qed.
Lemma content_bytes_nonneg entries : 0 <= content_bytes entries.
Proof. induction entries as [|e l IH]; cbn [content_bytes]; [done|]. pose proof (blen_nonneg (utf8_encode (ze_content e))). lia. Qed.
Lemma prepare_all_spec seen total entries ps :
  0 <= total ->
  (prepare_all seen total entries = Ok ps <->
   ps = prep_of <$> entries /\ Forall zip_entry_ok entries /\ NoDup (ze_path <$> entries) /\
   (forall p, p ∈ ze_path <$> entries -> p ∉ seen) /\
   (entries = [] \/ total + content_bytes entries <= MAX_ZIP_TOTAL_BYTES)).
Proof.
  revert seen total ps. induction entries as [|e rest IH]; intros seen total ps Ht.
  - cbn. split; [|by intros (-> & _)]. intros [= <-]. repeat split; auto; try constructor.
    intros p Hp. by apply elem_of_nil in Hp.
  - cbn [prepare_all fmap list_fmap content_bytes].
    pose proof (content_bytes_nonneg rest) as Hnn. pose proof (blen_nonneg (utf8_encode (ze_content e))) as Hne.
    rewrite bind_Ok. split.
    + intros ([[seen' total'] p] & Hp & H). unfold prepare in Hp. apply bind_Ok in Hp as (q & Hq & Hp).
      pose proof (validate_same _ _ Hq) as ->. repeat (case_match; [done|]). bools. injection Hp as <- <- <-.
      apply bind_Ok in H as (ps' & H & [= <-]). apply IH in H as (-> & K1 & K2 & K3 & K4); [|lia].
      split; [done|]. split; [by constructor|]. split; [|split].
      * apply NoDup_cons. split; [|done]. intros Hin. apply (K3 _ Hin). apply elem_of_app. right. by apply list_elem_of_singleton.
      * intros p [->|Hp]%elem_of_cons; [done|]. intros Hs. apply (K3 _ Hp). apply elem_of_app. by left.
      * right. destruct K4 as [->|K4]; [cbn; lia|lia].
    + intros (-> & H1 & H2 & H3 & [H4|H4]); [done|]. apply Forall_cons_1 in H1 as [(V & B1 & B2) R1].
      apply NoDup_cons in H2 as [N1 N2]. eexists. split.
      * unfold prepare. rewrite V. cbn [mbind result_bind]. rewrite bool_decide_eq_false_2 by (apply H3, list_elem_of_here).
        rewrite !(proj2 (Z.ltb_ge _ _)) by lia. reflexivity.
      * cbn. assert (E : prepare_all (seen ++ [ze_path e]) (total + blen (utf8_encode (ze_content e))) rest = Ok (prep_of <$> rest)).
        { apply IH; [lia|]. split; [done|]. split; [done|]. split; [done|]. split; [|right; lia].
          intros p Hp [Hs| ->%list_elem_of_singleton]%elem_of_app; [|done]. apply (H3 p); [by right|done]. }
        by rewrite E.
Qed.

Definition archive (t d : Z) (l : list (Prepared * list Z)) : list Z :=
  let es := with_offsets 0 l.*1 in
  locals t d l ++ centrals t d es ++
  fields_bytes (eocd_fields (Z.of_nat (length es)) (blen (centrals t d es)) (blen (locals t d l))).
Lemma with_offsets_sizes t d cursor es : blen (centrals t d (with_offsets cursor es)) = blen (centrals t d es).
Proof.
  revert cursor. induction es as [|e es IH]; intros cursor; [done|]. cbn [with_offsets]. unfold centrals in *.
  cbn [fmap list_fmap concat]. rewrite !blen_app, !blen_central. cbn [zp_name]. f_equal. apply IH.
Qed.
Lemma with_offsets_len cursor es : length (with_offsets cursor es) = length es.
Proof. revert cursor. induction es as [|e es IH]; intros cursor; [done|]. cbn. by rewrite IH. Qed.
Lemma local_size t d es acc :
  foldl (fun total e => total + LOCAL_HEADER_SIZE + blen (zp_name e) + blen (zp_data e)) acc es = acc + blen (locals t d (own_data <$> es)).
Proof.
  revert acc. induction es as [|e es IH]; intros acc; [cbn; unfold blen; cbn; lia|]. cbn [foldl]. rewrite IH. unfold locals.
  cbn [fmap list_fmap concat]. rewrite blen_app. unfold own_data at 2. rewrite blen_local. rewrite !Z.add_assoc. done.
Qed.
Lemma central_size t d es acc :
  foldl (fun total e => total + CENTRAL_HEADER_SIZE + blen (zp_name e)) acc es = acc + blen (centrals t d es).
Proof.
  revert acc. induction es as [|e es IH]; intros acc; [cbn; unfold blen; cbn; lia|]. cbn [foldl]. rewrite IH. unfold centrals.
  cbn [fmap list_fmap concat]. rewrite blen_app, blen_central. rewrite !Z.add_assoc. done.
Qed.
Lemma own_fst es : (own_data <$> es).*1 = es.
Proof. induction es as [|e es IH]; [done|]. cbn. by rewrite IH. Qed.
Lemma eocd_contiguous a b c : contiguous 0 (eocd_fields a b c).
Proof. cbn. repeat split. Qed.

Lemma write_archive t d es :
  (let buffer := replicate (Z.to_nat (blen (locals t d (own_data <$> es)) + blen (centrals t d es) + EOCD_SIZE)) 0 in
   '(prepared, centralStart, buffer) ← write_locals t d es 0 buffer;
   '(cursor, buffer) ← write_centrals t d prepared centralStart buffer;
   put_fields cursor (eocd_fields (Z.of_nat (length prepared)) (cursor - centralStart) centralStart) buffer)
  = Ok (archive t d (own_data <$> es)).
Proof.
  cbn zeta. set (r := Z.to_nat _). change (replicate r 0) with (zeros r).
  assert (Hr : Z.of_nat r = blen (locals t d (own_data <$> es)) + blen (centrals t d es) + 22).
  { unfold r. rewrite Z2Nat.id; [done|]. pose proof (blen_nonneg (locals t d (own_data <$> es))).
    pose proof (blen_nonneg (centrals t d es)). unfold EOCD_SIZE. lia. }
  unfold blen in Hr. pose proof (write_locals_frontier t d es [] r ltac:(lia)) as H1.
  change (blen []) with 0 in H1. cbn [app] in H1. rewrite H1. cbn [mbind result_bind].
  set (es' := with_offsets 0 es). pose proof (with_offsets_sizes t d 0 es) as Hs. fold es' in Hs. unfold blen in Hs.
  rewrite Z.add_0_l, write_centrals_frontier by lia. cbn [mbind result_bind]. rewrite <- blen_app.
  rewrite (put_fields_frontier _ 0); [|apply eocd_contiguous|by rewrite Z.add_0_r|].
  2:{ change (length (fields_bytes _)) with 22%nat. lia. }
  change (length (fields_bytes (eocd_fields _ _ _))) with 22%nat.
  replace (r - length (locals t d (own_data <$> es)) - length (centrals t d es') - 22)%nat with 0%nat by lia.
  cbn [zeros replicate]. unfold zeros. rewrite app_nil_r, <- app_assoc. unfold archive. rewrite own_fst. fold es'.
  do 4 f_equal. rewrite blen_app. f_equal. lia.
Qed.

(** [createZipArchive] succeeds exactly on at most 500 entries with distinct, safe
    paths of at most 512 bytes, contents of at most 4 MiB and 16 MiB in all; the archive
    then is the local records of the entries in order, the central records with the
    offset of each, and the end record with their number and sizes. No write of a header
    ever leaves the buffer. *)
Theorem create_archive_iff entries date bytes :
  createZipArchive entries date = Ok bytes <->
  Z.of_nat (length entries) <= MAX_ZIP_ENTRIES /\ Forall zip_entry_ok entries /\ NoDup (ze_path <$> entries) /\
  content_bytes entries <= MAX_ZIP_TOTAL_BYTES /\
  bytes = archive (toDosDateTime date).1 (toDosDateTime date).2 (own_data <$> (prep_of <$> entries)).
Proof.
  unfold createZipArchive. destruct (toDosDateTime date) as [t d]. cbn [fst snd].
  destruct (Z.ltb_spec MAX_ZIP_ENTRIES (Z.of_nat (length entries))) as [Hlt|Hle].
  { split; [done|]. intros [H _]. lia. }
  rewrite bind_Ok. split.
  - intros (ps & Hp & H). apply prepare_all_spec in Hp as (-> & H1 & H2 & _ & H4); [|done].
    rewrite (local_size t d), (central_size t d), !Z.add_0_l in H.
    pose proof (write_archive t d (prep_of <$> entries)) as W. cbn zeta in H, W. rewrite W in H. injection H as <-. repeat split; try done.
    destruct H4 as [->|H4]; [done|lia].
  - intros (_ & H1 & H2 & H3 & ->). exists (prep_of <$> entries). split.
    + apply prepare_all_spec; [done|]. repeat split; try done. { by intros p _ ?%elem_of_nil. } right. lia.
    + rewrite (local_size t d), (central_size t d), !Z.add_0_l. apply write_archive.
Qed.

(** ** Reading an archive back *)

Definition word16 (v : Z) : Prop := 0 <= v < 65536.
Definition word32_ok (v : Z) : Prop := 0 <= v < 4294967296.
(** What the headers can carry. *)
Record prepared_ok (e : Prepared) : Prop := mkPreparedOk
  { po_name : blen (zp_name e) <= MAX_ZIP_PATH_BYTES; po_data : blen (zp_data e) <= MAX_ZIP_ENTRY_BYTES;
    po_crc : word32_ok (zp_crc e); po_offset : word32_ok (zp_offset e) }.
Lemma local_fit t d e : word16 t -> word16 d -> prepared_ok e -> fields_fit (local_fields t d e).
Proof.
  intros Ht Hd [H1 H2 H3 H4]. pose proof (blen_nonneg (zp_name e)). pose proof (blen_nonneg (zp_data e)).
  unfold fields_fit, local_fields, word16, word32_ok, MAX_ZIP_PATH_BYTES, MAX_ZIP_ENTRY_BYTES in *.
  repeat (apply Forall_cons_2; [cbn [fst snd];
    change (256 ^ Z.of_nat 4) with 4294967296; change (256 ^ Z.of_nat 2) with 65536;
    unfold LOCAL_HEADER_SIGNATURE, VERSION, UTF8_FLAG, METHOD_STORE; lia|]). constructor.
Qed.
Lemma central_fit t d e : word16 t -> word16 d -> prepared_ok e -> fields_fit (central_fields t d e).
Proof.
  intros Ht Hd [H1 H2 H3 H4]. pose proof (blen_nonneg (zp_name e)). pose proof (blen_nonneg (zp_data e)).
  unfold fields_fit, central_fields, word16, word32_ok, MAX_ZIP_PATH_BYTES, MAX_ZIP_ENTRY_BYTES in *.
  repeat (apply Forall_cons_2; [cbn [fst snd];
    change (256 ^ Z.of_nat 4) with 4294967296; change (256 ^ Z.of_nat 2) with 65536;
    unfold CENTRAL_HEADER_SIGNATURE, VERSION, UTF8_FLAG, METHOD_STORE; lia|]). constructor.
Qed.
Lemma get_header fields off n v pre post :
  contiguous 0 fields -> fields_fit fields -> (off, n, v) ∈ fields ->
  get_le n (blen pre + off) (pre ++ fields_bytes fields ++ post) = Ok v.
Proof. intros H1 H2 H3. rewrite <- (Z.sub_0_r off). by apply get_field. Qed.
Lemma dos_word d : word16 (toDosDateTime d).1 /\ word16 (toDosDateTime d).2.
Proof.
  assert (H : forall x, word16 (js_and x 65535)).
  { intros x. unfold js_and, word16. change (to_int32 65535) with (Z.ones 16). rewrite Z.land_ones by lia.
    apply Z.mod_pos_bound. lia. }
  by split; apply H.
Qed.

Section ReadBack.
Context (decode : list Z -> option string) (t d : Z) (Ht : word16 t) (Hd : word16 d).

Ltac header_field := cbn [local_fields central_fields In]; apply list_elem_of_In; cbn; tauto.

Lemma read_entry_at e bs i total preL postL preC postC path bytes :
  bytes = preL ++ local_record t d (e, bs) ++ postL -> bytes = preC ++ central_record t d e ++ postC ->
  zp_offset e = blen preL -> prepared_ok e -> blen bs = blen (zp_data e) ->
  total + blen (zp_data e) <= MAX_ZIP_TOTAL_BYTES -> decode (zp_name e) = Some path -> validateZipPath path = Ok path ->
  read_entry decode i (blen preC) total bytes =
  if crc32 bs =? zp_crc e then
    content ← decode_utf8 decode bs;
    Ok (mkZipEntry path content, blen (preC ++ central_record t d e), total + blen (zp_data e))
  else Err (cat ["CRC mismatch for entry "; path]).
Proof.
  intros EL EC Eo Hok Ebs Htot Hdec Hval.
  assert (GC : forall off n v, (off, n, v) ∈ central_fields t d e -> get_le n (blen preC + off) bytes = Ok v).
  { intros off n v Hin. rewrite EC. unfold central_record. rewrite <- app_assoc.
    by apply get_header; [apply central_contiguous|by apply central_fit|]. }
  assert (GL : forall off n v, (off, n, v) ∈ local_fields t d e -> get_le n (zp_offset e + off) bytes = Ok v).
  { intros off n v Hin. rewrite EL, Eo. unfold local_record, local_header. cbn [fst snd]. rewrite <- app_assoc.
    by apply get_header; [apply local_contiguous|by apply local_fit|]. }
  assert (LC : blen preC + CENTRAL_HEADER_SIZE + blen (zp_name e) <= blen bytes).
  { rewrite EC, !blen_app, blen_central. pose proof (blen_nonneg postC). lia. }
  assert (LL : zp_offset e + LOCAL_HEADER_SIZE + blen (zp_name e) + blen (zp_data e) <= blen bytes).
  { rewrite EL, Eo, !blen_app, blen_local, Ebs. pose proof (blen_nonneg postL). lia. }
  pose proof (blen_nonneg (zp_name e)) as Nn. pose proof (blen_nonneg (zp_data e)) as Nd.
  pose proof (GC 0 4%nat CENTRAL_HEADER_SIGNATURE ltac:(header_field)) as G0. rewrite Z.add_0_r in G0.
  pose proof (GL 0 4%nat LOCAL_HEADER_SIGNATURE ltac:(header_field)) as G1. rewrite Z.add_0_r in G1.
  assert (DU : decode_utf8 decode (zp_name e) = Ok path) by (unfold decode_utf8; by rewrite Hdec).
  unfold read_entry, guard.
  rewrite ?(proj2 (Z.ltb_ge (blen bytes) _)) by lia. cbn [mbind result_bind]. rewrite G0. cbn [mbind result_bind].
  rewrite Z.eqb_refl. cbn [negb mbind result_bind].
  rewrite (GC 10 2%nat METHOD_STORE) by header_field. cbn [mbind result_bind]. rewrite Z.eqb_refl. cbn [negb mbind result_bind].
  rewrite (GC 16 4%nat (zp_crc e)), (GC 20 4%nat (blen (zp_data e))), (GC 24 4%nat (blen (zp_data e))),
    (GC 28 2%nat (blen (zp_name e))), (GC 30 2%nat 0), (GC 32 2%nat 0), (GC 42 4%nat (zp_offset e)) by header_field.
  cbn [mbind result_bind]. rewrite (proj2 (Z.ltb_ge MAX_ZIP_ENTRY_BYTES (blen (zp_data e)))) by apply Hok. cbn [mbind result_bind].
  rewrite Z.eqb_refl. cbn [negb mbind result_bind]. rewrite (proj2 (Z.ltb_ge MAX_ZIP_TOTAL_BYTES (total + blen (zp_data e)))) by done. cbn [mbind result_bind].
  rewrite ?(proj2 (Z.ltb_ge (blen bytes) _)) by lia. cbn [mbind result_bind].
  assert (S1 : subarray (blen preC + CENTRAL_HEADER_SIZE) (blen preC + CENTRAL_HEADER_SIZE + blen (zp_name e)) bytes = zp_name e).
  { rewrite EC. unfold central_record. change CENTRAL_HEADER_SIZE with (blen (fields_bytes (central_fields t d e))).
    rewrite <- blen_app, <- app_assoc, (app_assoc preC). apply subarray_mid. }
  rewrite S1. rewrite DU. cbn [mbind result_bind]. rewrite Hval. cbn [mbind result_bind].
  rewrite ?(proj2 (Z.ltb_ge (blen bytes) _)) by lia. cbn [mbind result_bind]. rewrite G1. cbn [mbind result_bind].
  rewrite Z.eqb_refl. cbn [negb mbind result_bind].
  rewrite (GL 26 2%nat (blen (zp_name e))), (GL 28 2%nat 0) by header_field. cbn [mbind result_bind].
  rewrite ?(proj2 (Z.ltb_ge (blen bytes) _)) by lia. cbn [mbind result_bind].
  assert (S2 : subarray (zp_offset e + LOCAL_HEADER_SIZE) (zp_offset e + LOCAL_HEADER_SIZE + blen (zp_name e)) bytes = zp_name e).
  { rewrite EL, Eo. unfold local_record. cbn [fst snd]. change LOCAL_HEADER_SIZE with (blen (local_header t d e)).
    rewrite <- blen_app, <- !app_assoc, (app_assoc preL). apply subarray_mid. }
  rewrite S2. rewrite DU. cbn [mbind result_bind]. rewrite Hval. cbn [mbind result_bind].
  rewrite bool_decide_eq_true_2 by done. cbn [negb mbind result_bind].
  rewrite ?(proj2 (Z.ltb_ge (blen bytes) _)) by lia. cbn [mbind result_bind]. rewrite !Z.add_0_r.
  assert (S3 : subarray (zp_offset e + LOCAL_HEADER_SIZE + blen (zp_name e))
                 (zp_offset e + LOCAL_HEADER_SIZE + blen (zp_name e) + blen (zp_data e)) bytes = bs).
  { set (P := preL ++ local_header t d e ++ zp_name e).
    assert (EP : zp_offset e + LOCAL_HEADER_SIZE + blen (zp_name e) = blen P)
      by (unfold P; rewrite Eo, !blen_app; change (blen (local_header t d e)) with LOCAL_HEADER_SIZE; lia).
    assert (EB : bytes = P ++ bs ++ postL) by (rewrite EL; unfold P, local_record; cbn [fst snd]; by rewrite <- !app_assoc).
    rewrite EP, EB, <- Ebs. apply subarray_mid. }
  rewrite S3. destruct (crc32 bs =? zp_crc e); cbn [negb mbind result_bind]; [|done].
  destruct (decode_utf8 decode bs); cbn [mbind result_bind]; [|done]. rewrite blen_app, blen_central. done.
Qed.

(** Entries beside the bytes found where their contents were written. *)
Definition item_ok (x : ZipEntry * list Z) : Prop := zip_entry_ok x.1 /\ blen x.2 = blen (utf8_encode (ze_content x.1)).
Definition stored (x : ZipEntry * list Z) : Prepared * list Z := (prep_of x.1, x.2).
Context (decode_encoded : forall s, decode (utf8_encode s) = Some s).

Lemma locals_app l1 l2 : locals t d (l1 ++ l2) = locals t d l1 ++ locals t d l2.
Proof. unfold locals. by rewrite fmap_app, concat_app. Qed.
Lemma centrals_app l1 l2 : centrals t d (l1 ++ l2) = centrals t d l1 ++ centrals t d l2.
Proof. unfold centrals. by rewrite fmap_app, concat_app. Qed.
Lemma locals_cons p l : locals t d (p :: l) = local_record t d p ++ locals t d l.
Proof. done. Qed.
Lemma centrals_cons e es : centrals t d (e :: es) = central_record t d e ++ centrals t d es.
Proof. done. Qed.
Lemma content_bytes_app l1 l2 : content_bytes (l1 ++ l2) = content_bytes l1 + content_bytes l2.
Proof. induction l1 as [|e l1 IH]; [done|]. cbn [app content_bytes]. lia. Qed.
Lemma blen_stored x : blen (local_record t d (stored x)) = LOCAL_HEADER_SIZE + blen (utf8_encode (ze_path x.1)) + blen x.2.
Proof. apply blen_local. Qed.
Lemma locals_size items :
  Forall item_ok items ->
  0 <= blen (locals t d (stored <$> items)) <= 542 * Z.of_nat (length items) + content_bytes items.*1.
Proof.
  induction 1 as [|x items [(Hv & Hp & Hc) Hb] _ IH]; [cbn; unfold blen; cbn; lia|].
  unfold locals in *. cbn [fmap list_fmap concat content_bytes length]. rewrite blen_app, blen_stored, Hb. unfold MAX_ZIP_PATH_BYTES, LOCAL_HEADER_SIZE in *.
  pose proof (blen_nonneg (utf8_encode (ze_path x.1))). pose proof (blen_nonneg (utf8_encode (ze_content x.1))). lia.
Qed.
Lemma with_offsets_split c l0 es :
  Forall item_ok l0 ->
  with_offsets c ((stored <$> l0).*1 ++ es) =
  with_offsets c (stored <$> l0).*1 ++ with_offsets (c + blen (locals t d (stored <$> l0))) es.
Proof.
  intros H. revert c. induction H as [|x l0 [_ Hb] _ IH]; intros c; [cbn; f_equal; unfold blen; cbn; lia|].
  unfold locals in *. cbn [fmap list_fmap concat app with_offsets]. rewrite IH, blen_app, blen_stored, Hb.
  cbn [prep_of zp_data zp_name stored fst]. do 3 f_equal. lia.
Qed.
Definition cursor_at (items l0 : list (ZipEntry * list Z)) : Z :=
  blen (locals t d (stored <$> items) ++ centrals t d (with_offsets 0 (stored <$> l0).*1)).
Lemma read_item l0 x l2 i :
  let items := l0 ++ x :: l2 in
  Forall item_ok items -> Z.of_nat (length items) <= MAX_ZIP_ENTRIES -> content_bytes items.*1 <= MAX_ZIP_TOTAL_BYTES ->
  read_entry decode i (cursor_at items l0) (content_bytes l0.*1) (archive t d (stored <$> items)) =
  if crc32 x.2 =? crc32 (utf8_encode (ze_content x.1)) then
    content ← decode_utf8 decode x.2;
    Ok (mkZipEntry (ze_path x.1) content, cursor_at items (l0 ++ [x]), content_bytes (l0 ++ [x]).*1)
  else Err (cat ["CRC mismatch for entry "; ze_path x.1]).
Proof.
  intros items Hok Hcount Htot. pose proof Hok as Hall. apply Forall_app in Hall as [H0 Hx].
  apply Forall_cons_1 in Hx as [Hx H2]. destruct Hx as [(Hv & Hp & Hc) Hb].
  pose proof (locals_size l0 H0) as Hsz.
  assert (Hle : Z.of_nat (length l0) <= MAX_ZIP_ENTRIES /\ content_bytes l0.*1 + blen (utf8_encode (ze_content x.1)) <= MAX_ZIP_TOTAL_BYTES).
  { unfold items in *. rewrite length_app in Hcount. cbn [length] in Hcount. split; [lia|].
    rewrite fmap_app, content_bytes_app in Htot. cbn [fmap list_fmap content_bytes] in Htot.
    pose proof (content_bytes_nonneg l2.*1). lia. }
  set (e := mkPrepared (utf8_encode (ze_path x.1)) (utf8_encode (ze_content x.1)) (crc32 (utf8_encode (ze_content x.1)))
              (blen (locals t d (stored <$> l0)))).
  assert (Hes : with_offsets 0 (stored <$> items).*1 = with_offsets 0 (stored <$> l0).*1 ++ e ::
                  with_offsets (blen (locals t d (stored <$> l0)) + LOCAL_HEADER_SIZE + blen (zp_name e) + blen (zp_data e)) (stored <$> l2).*1).
  { unfold items. rewrite !fmap_app, with_offsets_split by done. rewrite Z.add_0_l. done. }
  set (tail := fields_bytes (eocd_fields (Z.of_nat (length (with_offsets 0 (stored <$> items).*1)))
                 (blen (centrals t d (with_offsets 0 (stored <$> items).*1))) (blen (locals t d (stored <$> items))))).
  unfold cursor_at at 1.
  rewrite (read_entry_at e x.2 i (content_bytes l0.*1) (locals t d (stored <$> l0))
             (locals t d (stored <$> l2) ++ centrals t d (with_offsets 0 (stored <$> items).*1) ++ tail)
             (locals t d (stored <$> items) ++ centrals t d (with_offsets 0 (stored <$> l0).*1))
             (centrals t d (with_offsets (blen (locals t d (stored <$> l0)) + LOCAL_HEADER_SIZE + blen (zp_name e) + blen (zp_data e)) (stored <$> l2).*1) ++ tail)
             (ze_path x.1)).
  - cbn [e zp_crc zp_data]. destruct (crc32 x.2 =? _); [|done]. destruct (decode_utf8 decode x.2) as [content|]; [|done].
    cbn [mbind result_bind]. do 3 f_equal.
    + f_equal. unfold cursor_at. rewrite <- !app_assoc. do 2 f_equal. rewrite !fmap_app. cbn [fmap list_fmap].
      rewrite with_offsets_split, centrals_app, Z.add_0_l by done. f_equal. unfold centrals. cbn. by rewrite app_nil_r.
    + rewrite fmap_app, content_bytes_app. cbn [fmap list_fmap content_bytes]. lia.
  - unfold archive. fold tail. unfold items at 1. rewrite fmap_app, fmap_cons, locals_app, locals_cons.
    change (local_record t d (e, x.2)) with (local_record t d (stored x)). by rewrite <- !app_assoc.
  - unfold archive. fold tail. rewrite <- !app_assoc. f_equal. rewrite Hes at 1.
    by rewrite centrals_app, centrals_cons, <- !app_assoc.
  - done.
  - split; cbn [e zp_name zp_data zp_crc zp_offset]; [done|done|apply crc32_word|].
    pose proof (blen_nonneg (utf8_encode (ze_content x.1))). unfold word32_ok, MAX_ZIP_ENTRIES, MAX_ZIP_TOTAL_BYTES in *. lia.
  - exact Hb.
  - apply Hle.
  - apply decode_encoded.
  - exact Hv.
Qed.

Definition untouched (x : ZipEntry * list Z) : Prop := x.2 = utf8_encode (ze_content x.1).
Definition items_ok (items : list (ZipEntry * list Z)) : Prop :=
  Forall item_ok items /\ Z.of_nat (length items) <= MAX_ZIP_ENTRIES /\ content_bytes items.*1 <= MAX_ZIP_TOTAL_BYTES.
Lemma read_prefix l0 l1 l2 n i :
  items_ok (l0 ++ l1 ++ l2) -> Forall untouched l1 ->
  let B := archive t d (stored <$> (l0 ++ l1 ++ l2)) in
  let at_ := cursor_at (l0 ++ l1 ++ l2) in
  read_entries decode (length l1 + n) i (at_ l0) (content_bytes l0.*1) B =
  (rest ← read_entries decode n (i + Z.of_nat (length l1)) (at_ (l0 ++ l1)) (content_bytes (l0 ++ l1).*1) B; Ok (l1.*1 ++ rest)).
Proof.
  intros Hok Hun. cbn zeta. revert l0 i Hok. induction Hun as [|x l1 Hx _ IH]; intros l0 i Hok.
  - cbn [length Nat.add app fmap list_fmap]. rewrite Z.add_0_r, app_nil_r. by destruct (read_entries _ _ _ _ _ _).
  - cbn [length Nat.add read_entries app fmap list_fmap].
    change (l0 ++ (x :: l1) ++ l2) with (l0 ++ x :: l1 ++ l2) in *.
    pose proof Hok as (H1 & H2 & H3). rewrite (read_item l0 x (l1 ++ l2) i H1 H2 H3).
    rewrite Hx, Z.eqb_refl. unfold decode_utf8. rewrite decode_encoded. cbn [mbind result_bind].
    replace (l0 ++ x :: l1 ++ l2) with ((l0 ++ [x]) ++ l1 ++ l2) in * by (by rewrite <- app_assoc).
    rewrite IH by done. replace (i + 1 + Z.of_nat (length l1)) with (i + Z.of_nat (S (length l1))) by lia.
    replace ((l0 ++ [x]) ++ l1) with (l0 ++ x :: l1) by (by rewrite <- app_assoc).
    destruct (read_entries _ n _ _ _ _) as [rest|]; cbn [mbind result_bind]; [|done]. by destruct x as [[? ?] ?].
Qed.
Lemma archive_split items :
  let es := with_offsets 0 (stored <$> items).*1 in
  archive t d (stored <$> items) =
  (locals t d (stored <$> items) ++ centrals t d es) ++
  fields_bytes (eocd_fields (Z.of_nat (length items)) (blen (centrals t d es)) (blen (locals t d (stored <$> items)))).
Proof.
  cbn zeta. unfold archive. rewrite with_offsets_len, !length_fmap. by rewrite <- app_assoc.
Qed.
(** The end record is found, and the loop starts at the first central record. *)
Lemma read_archive items :
  items_ok items -> blen (centrals t d (with_offsets 0 (stored <$> items).*1)) < 2147483648 ->
  readZipArchive decode (archive t d (stored <$> items)) =
  if MAX_ZIP_ARCHIVE_BYTES <? blen (archive t d (stored <$> items))
  then Err (cat ["ZIP archive exceeds the "; num_to_string MAX_ZIP_ARCHIVE_BYTES; " byte limit"])
  else read_entries decode (length items) 0 (cursor_at items []) (content_bytes []) (archive t d (stored <$> items)).
Proof.
  intros (Hok & Hcount & Htot) Hcb. unfold readZipArchive, guard.
  destruct (MAX_ZIP_ARCHIVE_BYTES <? blen (archive t d (stored <$> items))); [reflexivity|]. cbn [mbind result_bind].
  pose proof (locals_size items Hok) as Hsz. set (B := archive t d (stored <$> items)) in *.
  pose proof (archive_split items) as HB. cbn zeta in HB. fold B in HB.
  set (es := with_offsets 0 (stored <$> items).*1) in *. set (body := locals t d (stored <$> items) ++ centrals t d es) in *.
  set (flds := eocd_fields _ _ _) in HB. pose proof (blen_nonneg body) as Hb. pose proof (blen_nonneg (centrals t d es)) as Hc.
  assert (E22 : blen (fields_bytes flds) = 22) by reflexivity.
  assert (Hlen : blen B = blen body + 22) by (rewrite HB, blen_app, E22; reflexivity).
  assert (Hfit : fields_fit flds).
  { unfold fields_fit, flds, eocd_fields, EOCD_SIGNATURE, MAX_ZIP_ENTRIES, MAX_ZIP_TOTAL_BYTES in *.
    repeat (apply Forall_cons_2; [cbn [fst snd]; change (256 ^ Z.of_nat 4) with 4294967296;
      change (256 ^ Z.of_nat 2) with 65536; lia|]). constructor. }
  assert (G : forall off n v, (off, n, v) ∈ flds -> get_le n (blen body + off) B = Ok v).
  { intros off n v Hin. rewrite HB, <- (app_nil_r (fields_bytes flds)). by apply get_header; [apply eocd_contiguous| |]. }
  rewrite (proj2 (Z.ltb_ge _ _)) by (unfold EOCD_SIZE; lia). unfold EOCD_SIZE. rewrite Hlen.
  replace (blen body + 22 - 22) with (blen body) by lia.
  assert (Hf : find_eocd (Z.to_nat (blen body)) B = Ok (blen body)).
  { pose proof (G 0 4%nat EOCD_SIGNATURE ltac:(apply list_elem_of_In; cbn; tauto)) as G0. rewrite Z.add_0_r in G0.
    destruct (Z.to_nat (blen body)) as [|k] eqn:E; cbn [find_eocd].
    - replace (Z.of_nat 0) with (blen body) by lia. rewrite G0. cbn [mbind result_bind]. by rewrite Z.eqb_refl.
    - rewrite <- E, Z2Nat.id by lia. rewrite G0. cbn [mbind result_bind]. by rewrite Z.eqb_refl. }
  rewrite Hf. cbn [mbind result_bind].
  rewrite (G 10 2%nat (Z.of_nat (length items))) by (apply list_elem_of_In; cbn; tauto). cbn [mbind result_bind].
  rewrite (proj2 (Z.ltb_ge _ _)) by done. cbn [mbind result_bind].
  rewrite (G 16 4%nat (blen (locals t d (stored <$> items)))) by (apply list_elem_of_In; cbn; tauto). cbn [mbind result_bind].
  rewrite Nat2Z.id. unfold cursor_at. cbn [fmap list_fmap with_offsets]. unfold centrals. cbn [fmap list_fmap concat]. by rewrite app_nil_r.
Qed.
End ReadBack.

Lemma centrals_size t d c items :
  Forall item_ok items -> blen (centrals t d (with_offsets c (stored <$> items).*1)) <= 558 * Z.of_nat (length items).
Proof.
  intros H. revert c. induction H as [|x items [(_ & Hp & _) _] _ IH]; intros c; [done|]. rewrite !fmap_cons. cbn [with_offsets].
  rewrite centrals_cons, blen_app, blen_central. cbn [stored fst zp_name prep_of length].
  match goal with |- context [with_offsets ?x _] => specialize (IH x) end.
  unfold MAX_ZIP_PATH_BYTES, CENTRAL_HEADER_SIZE in *. lia.
Qed.
Definition whole (e : ZipEntry) : ZipEntry * list Z := (e, utf8_encode (ze_content e)).
Lemma whole_stored (entries : list ZipEntry) : stored <$> (whole <$> entries) = own_data <$> (prep_of <$> entries).
Proof. rewrite <- !list_fmap_compose. done. Qed.
Lemma whole_fst (entries : list ZipEntry) : (whole <$> entries).*1 = entries.
Proof. induction entries as [|e l IH]; [done|]. rewrite !fmap_cons. cbn. by rewrite IH. Qed.
Lemma whole_ok entries : Forall zip_entry_ok entries -> Forall item_ok (whole <$> entries).
Proof. intros H. apply Forall_fmap. eapply Forall_impl; [exact H|]. by intros e He. Qed.
(** Within the reader's limit the loop over the central records is run. *)
Lemma read_items decode t d items :
  items_ok items -> blen (archive t d (stored <$> items)) <= MAX_ZIP_ARCHIVE_BYTES ->
  readZipArchive decode (archive t d (stored <$> items)) =
  read_entries decode (length items) 0 (cursor_at t d items []) (content_bytes []) (archive t d (stored <$> items)).
Proof.
  intros Hok Hlen. rewrite (read_archive decode t d items Hok).
  - by rewrite (proj2 (Z.ltb_ge _ _)).
  - pose proof (centrals_size t d 0 items (proj1 Hok)) as H. destruct Hok as (_ & H2 & _). unfold MAX_ZIP_ENTRIES in *. lia.
Qed.


(** Where the content of the entry after [es] starts. *)
Fixpoint data_start (es : list ZipEntry) (e : ZipEntry) : Z :=
  match es with
  | [] => LOCAL_HEADER_SIZE + blen (utf8_encode (ze_path e))
  | e0 :: es' => LOCAL_HEADER_SIZE + blen (utf8_encode (ze_path e0)) + blen (utf8_encode (ze_content e0)) + data_start es' e
  end.
Lemma utf8_bytes s : Forall byte_ok (utf8_encode s).
Proof.
  induction s as [|c s IH]; [constructor|]. cbn [utf8_encode]. apply Forall_app. split; [|done].
  assert (Hc : 0 <= code c < 256) by (unfold code; pose proof (N_ascii_bounded c); lia).
  unfold utf8_char, byte_ok. case_match; bools; repeat constructor; lia.
Qed.
Lemma archive_at t d (es1 : list ZipEntry) e bs rest :
  locals t d (stored <$> (whole <$> es1)) ++ local_record t d (stored (e, bs)) ++ rest =
  (locals t d (stored <$> (whole <$> es1)) ++ local_header t d (prep_of e) ++ utf8_encode (ze_path e)) ++ bs ++ rest /\
  blen (locals t d (stored <$> (whole <$> es1)) ++ local_header t d (prep_of e) ++ utf8_encode (ze_path e)) = data_start es1 e.
Proof.
  split; [unfold local_record; cbn; by rewrite <- !app_assoc|].
  induction es1 as [|e0 es1 IH]; [rewrite app_nil_l, blen_app; done|].
  rewrite !fmap_cons, locals_cons, <- app_assoc, blen_app, IH. cbn [data_start whole].
  change (blen (local_record t d (stored (whole e0)))) with (blen (local_record t d (stored (e0, utf8_encode (ze_content e0))))).
  rewrite blen_stored. done.
Qed.

(** C33. No archive with a damaged content is read: if up to four consecutive bytes of
    one entry's stored content are changed, [readZipArchive] throws the checksum error for
    that entry and returns nothing. *)
Theorem corrupted_entry_rejected decode es1 e es2 date bytes d1 w w' d2 :
  (forall s, decode (utf8_encode s) = Some s) -> createZipArchive (es1 ++ e :: es2) date = Ok bytes ->
  blen bytes <= MAX_ZIP_ARCHIVE_BYTES -> utf8_encode (ze_content e) = d1 ++ w ++ d2 ->
  Forall byte_ok w' -> length w = length w' -> (length w <= 4)%nat -> w <> w' ->
  exists corrupted, set_at (data_start es1 e + blen d1) w' bytes = Ok corrupted /\
    readZipArchive decode corrupted = Err (cat ["CRC mismatch for entry "; ze_path e]).
Proof.
  intros Hdec (Hcount & Hok & _ & Htot & Eb)%create_archive_iff Hlen Ec Hw' Hl H4 Hne. destruct (dos_word date) as [Ht Hd].
  set (t := (toDosDateTime date).1) in *. set (d := (toDosDateTime date).2) in *. rewrite <- whole_stored in Eb.
  set (x' := (e, d1 ++ w' ++ d2)). set (items := (whole <$> es1) ++ x' :: (whole <$> es2)).
  assert (Eblen : blen (d1 ++ w' ++ d2) = blen (utf8_encode (ze_content e))) by (rewrite Ec, !blen_app; unfold blen; lia).
  assert (Hfst : items.*1 = es1 ++ e :: es2) by (unfold items; rewrite fmap_app, fmap_cons, !whole_fst; done).
  assert (Hes : (stored <$> items).*1 = (stored <$> (whole <$> (es1 ++ e :: es2))).*1).
  { unfold items. by rewrite !fmap_app, !fmap_cons. }
  assert (Hit : items_ok items).
  { split; [|rewrite Hfst; split; [|done]].
    - apply Forall_app in Hok as [Ho1 Ho2]. apply Forall_cons_1 in Ho2 as [Ho2 Ho3].
      apply Forall_app. split; [by apply whole_ok|]. apply Forall_cons_2; [by split|by apply whole_ok].
    - unfold items. rewrite length_app in *. cbn [length] in *. by rewrite !length_fmap. }
  assert (Hsame : blen (locals t d (stored <$> items)) = blen (locals t d (stored <$> (whole <$> (es1 ++ e :: es2))))).
  { unfold items. rewrite !fmap_app, !fmap_cons, !locals_app, !locals_cons, !blen_app, !blen_stored. cbn [x' fst snd whole].
    by rewrite Eblen. }
  exists (archive t d (stored <$> items)). split.
  - set (rest0 := d2 ++ locals t d (stored <$> (whole <$> es2)) ++
       centrals t d (with_offsets 0 (stored <$> items).*1) ++
       fields_bytes (eocd_fields (Z.of_nat (length (with_offsets 0 (stored <$> items).*1)))
         (blen (centrals t d (with_offsets 0 (stored <$> items).*1))) (blen (locals t d (stored <$> items))))).
    set (P := locals t d (stored <$> (whole <$> es1)) ++ local_header t d (prep_of e) ++ utf8_encode (ze_path e)).
    assert (EA : bytes = (P ++ d1) ++ w ++ rest0).
    { rewrite Eb. unfold archive. rewrite <- Hes, <- Hsame. rewrite !fmap_app, !fmap_cons, locals_app, locals_cons, <- !app_assoc.
      change (stored (whole e)) with (stored (e, utf8_encode (ze_content e))). rewrite Ec.
      rewrite (proj1 (archive_at t d es1 e (d1 ++ w ++ d2) _)). unfold P, rest0. by rewrite <- !app_assoc. }
    assert (EX : archive t d (stored <$> items) = (P ++ d1) ++ w' ++ rest0).
    { unfold archive. unfold items at 1. rewrite fmap_app, fmap_cons, locals_app, locals_cons, <- !app_assoc.
      unfold x'. rewrite (proj1 (archive_at t d es1 e (d1 ++ w' ++ d2) _)). unfold P, rest0. by rewrite <- !app_assoc. }
    rewrite EA, EX. rewrite <- (proj2 (archive_at t d es1 e [] [])). fold P. rewrite <- blen_app. by apply set_at_mid.
  - rewrite read_items; [|done|].
    + pose proof (read_prefix decode t d Ht Hd Hdec [] (whole <$> es1) (x' :: (whole <$> es2)) (S (length es2)) 0) as H.
      cbn zeta in H. cbn [app] in H. fold items in H. change (content_bytes ([] : list (ZipEntry * list Z)).*1) with (content_bytes []) in H.
      replace (length items) with (length (whole <$> es1) + S (length es2))%nat
        by (unfold items; rewrite length_app; cbn [length]; by rewrite !length_fmap).
      rewrite H; [|done|apply Forall_fmap, Forall_true; by intros]. cbn [read_entries].
      destruct Hit as (I1 & I2 & I3). rewrite (read_item decode t d Ht Hd Hdec (whole <$> es1) x' (whole <$> es2) _ I1 I2 I3).
      cbn [x' fst snd]. rewrite (proj2 (Z.eqb_neq _ _)); [done|]. rewrite Ec. apply not_eq_sym.
      apply crc32_detects; try done. rewrite <- Ec. apply utf8_bytes.
    + rewrite Eb in Hlen. unfold archive in *. rewrite Hes, !blen_app, Hsame in *. exact Hlen.
Qed.

(** ** An archive too large to be read back *)

Fixpoint path_bytes (entries : list ZipEntry) : Z :=
  match entries with [] => 0 | e :: rest => blen (utf8_encode (ze_path e)) + path_bytes rest end.
(** Paths are stored twice. *)
Lemma archive_size t d entries :
  blen (archive t d (own_data <$> (prep_of <$> entries))) =
  76 * Z.of_nat (length entries) + 2 * path_bytes entries + content_bytes entries + 22.
Proof.
  rewrite <- whole_stored. unfold archive. rewrite !blen_app, with_offsets_sizes.
  match goal with |- context [fields_bytes ?x] => change (blen (fields_bytes x)) with 22 end.
  assert (H : blen (locals t d (stored <$> (whole <$> entries))) + blen (centrals t d (stored <$> (whole <$> entries)).*1) =
              76 * Z.of_nat (length entries) + 2 * path_bytes entries + content_bytes entries); [|lia].
  induction entries as [|e l IH]; [done|]. rewrite !fmap_cons, locals_cons, centrals_cons, !blen_app, blen_stored, blen_central.
  cbn [length path_bytes content_bytes whole fst snd stored zp_name prep_of]. unfold LOCAL_HEADER_SIZE, CENTRAL_HEADER_SIZE. lia.
Qed.
Fixpoint repeat_a (n : nat) : string := match n with O => EmptyString | S n => String "a" (repeat_a n) end.
Lemma repeat_a_chars p n : p "a"%char = true -> all_chars p (repeat_a n) = true.
Proof. intros H. induction n as [|n IH]; [done|]. cbn [repeat_a all_chars]. by rewrite H, IH. Qed.
Lemma repeat_a_bytes n : blen (utf8_encode (repeat_a n)) = Z.of_nat n.
Proof. induction n as [|n IH]; [done|]. cbn [repeat_a utf8_encode]. rewrite blen_app, IH. change (blen (utf8_char "a")) with 1. lia. Qed.
Lemma repeat_a_inj n m : repeat_a n = repeat_a m -> n = m.
Proof. intros H. apply (f_equal (fun s => blen (utf8_encode s))) in H. rewrite !repeat_a_bytes in H. lia. Qed.
Lemma repeat_a_path n : (2 < n)%nat -> validateZipPath (repeat_a n) = Ok (repeat_a n).
Proof.
  intros Hn. unfold validateZipPath.
  rewrite !repeat_a_chars by reflexivity. rewrite (split_on_free "/") by (apply repeat_a_chars; reflexivity).
  destruct n as [|[|[|n]]]; [lia..|]. reflexivity.
Qed.
Definition long_entry (content : string) (i : nat) : ZipEntry :=
  mkZipEntry (repeat_a (13 + i)) (if (i <? 4)%nat then content else EmptyString).
Lemma long_entries_spec content l :
  blen (utf8_encode content) = MAX_ZIP_ENTRY_BYTES -> Forall (fun i => (i < 500)%nat) l ->
  Forall zip_entry_ok (long_entry content <$> l) /\
  content_bytes (long_entry content <$> l) = foldr (fun i n => (if (i <? 4)%nat then MAX_ZIP_ENTRY_BYTES else 0) + n) 0 l /\
  path_bytes (long_entry content <$> l) = foldr (fun i n => Z.of_nat (13 + i) + n) 0 l.
Proof.
  intros Hc. induction 1 as [|i l Hi _ (IH1 & IH2 & IH3)]; [by repeat split|]. rewrite fmap_cons. split; [|split].
  - apply Forall_cons_2; [|done]. unfold zip_entry_ok, long_entry. cbn [ze_path ze_content]. rewrite repeat_a_bytes.
    split; [apply repeat_a_path; lia|]. unfold MAX_ZIP_PATH_BYTES. split; [lia|].
    destruct (i <? 4)%nat; [lia|]. unfold MAX_ZIP_ENTRY_BYTES. cbn. unfold blen. cbn. lia.
  - cbn [content_bytes foldr]. rewrite IH2. f_equal. unfold long_entry. cbn [ze_content]. by destruct (i <? 4)%nat.
  - cbn [path_bytes foldr]. rewrite IH3. f_equal. apply repeat_a_bytes.
Qed.
(** 500 entries with paths of 13 to 512 letters and 16 MiB of content are accepted by the
    writer, and their archive is refused by the reader: its limit counts every path once. *)
Theorem oversized_archive_unreadable date :
  exists entries bytes, createZipArchive entries date = Ok bytes /\
    forall decode, readZipArchive decode bytes =
      Err (cat ["ZIP archive exceeds the "; num_to_string MAX_ZIP_ARCHIVE_BYTES; " byte limit"]).
Proof.
  assert (Hcon : exists content, blen (utf8_encode content) = MAX_ZIP_ENTRY_BYTES).
  { exists (repeat_a (Z.to_nat MAX_ZIP_ENTRY_BYTES)). rewrite repeat_a_bytes, Z2Nat.id; [done|]. by unfold MAX_ZIP_ENTRY_BYTES. }
  destruct Hcon as [content Hc].
  destruct (long_entries_spec content (seq 0 500) Hc) as (H1 & H2 & H3).
  { apply Forall_forall. intros i Hi%elem_of_seq. lia. }
  set (entries := long_entry content <$> seq 0 500) in *.
  assert (Hlen : length entries = 500%nat) by (unfold entries; by rewrite length_fmap, length_seq).
  assert (E2 : content_bytes entries = 16777216) by (rewrite H2; vm_compute; reflexivity).
  assert (E3 : path_bytes entries = 131250) by (rewrite H3; vm_compute; reflexivity).
  eexists entries, _. split.
  - apply create_archive_iff. rewrite Hlen, E2. split; [done|]. split; [done|]. split; [|split; [done|reflexivity]].
    unfold entries. rewrite <- list_fmap_compose. apply NoDup_fmap_2_strong; [|apply NoDup_seq].
    intros i j _ _ E. cbn in E. injection E as E. by apply repeat_a_inj.
  - intros decode. unfold readZipArchive, guard. rewrite archive_size, Hlen, E2, E3. reflexivity.
Qed.

(** ** Examples *)

Fixpoint sample_utf8 (bs : list Z) : option string :=
  match bs with
  | [] => Some EmptyString
  | a :: rest =>
      if a <? 128 then String (ascii_of_N (Z.to_N a)) <$> sample_utf8 rest
      else match rest with
           | b :: rest' => String (ascii_of_N (Z.to_N ((a - 192) * 64 + (b - 128)))) <$> sample_utf8 rest'
           | [] => None
           end
  end.
Lemma sample_utf8_encoded s : sample_utf8 (utf8_encode s) = Some s.
Proof.
  induction s as [|c s IH]; [done|]. cbn [utf8_encode]. unfold utf8_char.
  assert (Hc : 0 <= code c < 256) by (unfold code; pose proof (N_ascii_bounded c); lia).
  destruct (Z.ltb_spec (code c) 128) as [H|H]; cbn [app sample_utf8].
  - rewrite (proj2 (Z.ltb_lt _ _) H), IH. cbn. f_equal. f_equal. unfold code. by rewrite N2Z.id, ascii_N_embedding.
  - rewrite (proj2 (Z.ltb_ge _ _)) by lia. rewrite IH. cbn [fmap option_fmap option_map]. f_equal. f_equal.
    replace ((192 + code c / 64 - 192) * 64 + (128 + code c mod 64 - 128)) with (code c) by lia.
    unfold code. by rewrite N2Z.id, ascii_N_embedding.
Qed.
Definition sample_files : list ZipEntry := [mkZipEntry "a/b.txt" "hello"; mkZipEntry "README.md" ""].
Definition sample_date : LocalDate := mkLocalDate 2026 6 4 12 30 58.
Definition sample_zip : list Z := Eval vm_compute in default [] (ok_of (createZipArchive sample_files sample_date)).
Example sample_zip_bytes : length sample_zip = 211%nat /\ toDosDateTime sample_date = (25565, 23780).
Proof. vm_compute. done. Qed.
Lemma corrupted_entry_rejected_witness :
  exists corrupted, set_at 38 [72; 69] sample_zip = Ok corrupted /\
    readZipArchive sample_utf8 corrupted = Err "CRC mismatch for entry a/b.txt"%string.
Proof.
  exact (corrupted_entry_rejected sample_utf8 [] (mkZipEntry "a/b.txt" "hello") [mkZipEntry "README.md" ""] sample_date sample_zip
    [104] [101; 108] [72; 69] [108; 111] sample_utf8_encoded (ltac:(vm_compute; reflexivity)) (ltac:(vm_compute; discriminate))
    eq_refl (ltac:(repeat (constructor; [unfold byte_ok; lia|]); constructor)) eq_refl (ltac:(cbn; lia)) (ltac:(discriminate))).
Defined.
