(* ===== verification/ReplayBundle.v ===== *)
(** [lib/replay/environment.ts], [runners.ts], [result.ts] and the bundle half of
    [app/api/runs/[id]/replay/route.ts]: the environment check that gates a replay, and
    the seed bundle the runner is given, with its digests on 64-bit words.

    A run number that no double can hold is [None]: [BigInt(Infinity)] throws. *)

From S2P Require Import Prelude JsString JsNumber JsValue CronParser RetryBackoff WasmWalker FailureClustering.
From stdpp Require Import base list sets fin_sets gmap strings numbers sorting.
From Stdlib Require Import ZArith Lia Ascii.
#[local] Open Scope Z_scope.

(** ** Environments *)

Record ReplayEnvironment : Type := mkReplayEnv
  { re_engineVersion : option string; re_contractWasmHash : option string; re_networkConfigHash : option string;
    re_seedSet : option string }.
Inductive EnvironmentStatus : Type := es_match | es_mismatch | es_unknown.
#[export] Instance EnvironmentStatus_eq : EqDecision EnvironmentStatus.
Proof. solve_decision. Defined.
Inductive EnvField : Type := f_engineVersion | f_contractWasmHash | f_networkConfigHash | f_seedSet.
#[export] Instance EnvField_eq : EqDecision EnvField.
Proof. solve_decision. Defined.
Definition ENV_FIELDS : list EnvField := [f_engineVersion; f_contractWasmHash; f_networkConfigHash; f_seedSet].
Definition field_name (f : EnvField) : string :=
  match f with
  | f_engineVersion => "engineVersion" | f_contractWasmHash => "contractWasmHash"
  | f_networkConfigHash => "networkConfigHash" | f_seedSet => "seedSet"
  end.
Definition FIELD_LABELS (f : EnvField) : string :=
  match f with
  | f_engineVersion => "engine version" | f_contractWasmHash => "contract WASM hash"
  | f_networkConfigHash => "network config" | f_seedSet => "seed set"
  end.
(** [value[field]]. *)
Definition env_get (f : EnvField) (e : ReplayEnvironment) : option string :=
  match f with
  | f_engineVersion => re_engineVersion e | f_contractWasmHash => re_contractWasmHash e
  | f_networkConfigHash => re_networkConfigHash e | f_seedSet => re_seedSet e
  end.
Record EnvironmentMismatch : Type := mkEnvMismatch { em_field : EnvField; em_expected : string; em_actual : string }.
Record EnvironmentCheck : Type := mkCheck
  { ec_status : EnvironmentStatus; ec_mismatches : list EnvironmentMismatch; ec_acknowledged : bool;
    ec_requiresAcknowledgement : bool; ec_summary : string }.
(** The trimmed value, unless it is missing or blank. *)
Definition stamp (f : EnvField) (e : ReplayEnvironment) : option string := truthy (trim <$> env_get f e).
Definition hasAnyField (value : option ReplayEnvironment) : bool :=
  match value with
  | None => false
  | Some e => existsb (fun f => bool_decide (is_Some (stamp f e))) ENV_FIELDS
  end.
Definition field_mismatch (expected actual : ReplayEnvironment) (f : EnvField) : option EnvironmentMismatch :=
  match stamp f expected, stamp f actual with
  | Some l, Some r => if decide (l = r) then None else Some (mkEnvMismatch f l r)
  | _, _ => None
  end.
Definition compareReplayEnvironments (expected actual : option ReplayEnvironment) (acknowledged : bool) : EnvironmentCheck :=
  match expected, actual with
  | Some e, Some a =>
      if negb (hasAnyField expected) || negb (hasAnyField actual) then
        mkCheck es_unknown [] false false
          "No environment fingerprint is recorded for this run, so no mismatch can be detected."
      else
        let mismatches := omap (field_mismatch e a) ENV_FIELDS in
        match mismatches with
        | [] => mkCheck es_match [] false false "The replay environment matches the run that produced this crash."
        | _ =>
            mkCheck es_mismatch mismatches acknowledged (negb acknowledged)
              (cat ["The replay environment differs from the recorded crash (";
                    join_with ", " ((fun m => FIELD_LABELS (em_field m)) <$> mismatches);
                    "). Results may not reproduce the original failure."])
        end
  | _, _ =>
      mkCheck es_unknown [] false false
        "No environment fingerprint is recorded for this run, so no mismatch can be detected."
  end.
Definition mayRunReplay (check : EnvironmentCheck) : bool :=
  negb (bool_decide (ec_status check = es_mismatch)) || ec_acknowledged check.
Definition parse_field (record : fields) (f : EnvField) : option string :=
  match prop (field_name f) record with
  | Some (JStr raw) => if decide (trim raw = ""%string) then None else Some (String.substring 0 256 (trim raw))
  | _ => None
  end.
Definition parseReplayEnvironment (value : option json) : option ReplayEnvironment :=
  match value with
  | Some (JObj record) =>
      let parsed := mkReplayEnv (parse_field record f_engineVersion) (parse_field record f_contractWasmHash)
                      (parse_field record f_networkConfigHash) (parse_field record f_seedSet) in
      if existsb (fun f => bool_decide (is_Some (env_get f parsed))) ENV_FIELDS then Some parsed else None
  | _ => None
  end.

(** ** Runners *)

Inductive ReplayRunner : Type := run_mock | run_host | run_rpc_sim.
#[export] Instance ReplayRunner_eq : EqDecision ReplayRunner.
Proof. solve_decision. Defined.
Definition runner_name (r : ReplayRunner) : string :=
  match r with run_mock => "mock" | run_host => "host" | run_rpc_sim => "rpc-sim" end.
Definition REPLAY_RUNNERS : list ReplayRunner := [run_mock; run_host; run_rpc_sim].
Definition DEFAULT_REPLAY_RUNNER : ReplayRunner := run_host.
Definition isReplayRunner (value : string) : option ReplayRunner :=
  List.find (fun r => bool_decide (runner_name r = value)) REPLAY_RUNNERS.
Definition parseReplayRunner (value : option json) : option ReplayRunner :=
  match value with
  | None | Some JNull => Some DEFAULT_REPLAY_RUNNER
  | Some (JStr s) => if decide (trim s = ""%string) then Some DEFAULT_REPLAY_RUNNER else isReplayRunner (trim s)
  | Some _ => None
  end.

(** ** Results *)

Record ReplayDiagnostics : Type := mkDiagnostics
  { dg_command : string; dg_args : list string; dg_stdout : string; dg_stderr : string; dg_exitCode : Z; dg_durationMs : Z }.
Inductive ReplayOutcome : Type := out_match | out_mismatch.
Record ReplayResult : Type := mkReplayResult
  { rs_sourceRunId : string; rs_replayRunId : string; rs_outcome : ReplayOutcome; rs_diagnostics : ReplayDiagnostics;
    rs_environment : EnvironmentCheck; rs_ranWithOverride : bool }.
Definition buildReplayResult (sourceRunId replayRunId : string) (diagnostics : ReplayDiagnostics) (environment : EnvironmentCheck)
    (reproduced : bool) : ReplayResult :=
  mkReplayResult sourceRunId replayRunId (if reproduced then out_match else out_mismatch) diagnostics environment
    (bool_decide (ec_status environment = es_mismatch) && ec_acknowledged environment).
Definition replayOutcomeLabel (r : ReplayResult) : string :=
  match rs_outcome r with out_match => "Crash reproduced" | out_mismatch => "Crash did not reproduce" end.

(** ** The seed bundle *)

Record ReplayCrash : Type := mkReplayCrash { rc_signature : string; rc_payload : string }.
Record ReplayRun : Type := mkReplayRun
  { rr_id : string; rr_seedCount : Z; rr_crashDetail : option ReplayCrash; rr_components : option ReplayEnvironment }.
Inductive ReplayCategory : Type := cat_auth | cat_budget | cat_state | cat_xdr | cat_empty_input | cat_oversized_input.
Definition category_name (c : ReplayCategory) : string :=
  match c with
  | cat_auth => "auth" | cat_budget => "budget" | cat_state => "state" | cat_xdr => "xdr"
  | cat_empty_input => "empty-input" | cat_oversized_input => "oversized-input"
  end.
Record ReplayBundleDocument : Type := mkBundle
  { bd_schema : Z; bd_seed_id : Z; bd_seed_payload : list Z; bd_category : ReplayCategory; bd_digest : Z;
    bd_signature_hash : Z; bd_failure_payload : list Z }.

(** [/(\d+)$/]. *)
Fixpoint trailing_digits (s : string) : string :=
  if all_chars is_digit s then s else match s with EmptyString => EmptyString | String _ s' => trailing_digits s' end.
(** The double nearest to a whole number, unless it is infinite. *)
Definition digits_double (z : Z) : option Z := if z <? 2 ^ 1024 - 2 ^ 970 then Some (to_double z) else None.
Definition stableRunIdSeed (runId : string) : option Z :=
  match parse_digits (trailing_digits runId) with
  | Some n => digits_double n
  | None => Some (foldl fnv_step 2166136261 (String.list_ascii_of_string runId))
  end.
Definition classifyReplayPayload (payload : list Z) : ReplayCategory :=
  match payload with
  | [] => cat_empty_input
  | first :: _ =>
      if 64 <? Z.of_nat (length payload) then cat_oversized_input
      else if first <=? 31 then cat_xdr
      else if first <=? 95 then cat_state
      else if first <=? 159 then cat_budget
      else cat_auth
  end.
Definition FNV64_OFFSET : Z := 14695981039346656037.
Definition FNV64_PRIME : Z := 1099511628211.
Definition FIELD_SEPARATOR : Z := 30.
Definition MASK64 : Z := 18446744073709551615.
Definition fnv1a64 (hash : Z) (bytes : list Z) : Z :=
  foldl (fun hash byte => Z.land (Z.lxor hash byte * FNV64_PRIME) MASK64) hash bytes.
Definition hexBytes (payload : list Z) : list Z :=
  utf8_encode (cat ((fun b => String (hex_digit (b / 16)) (String (hex_digit (b mod 16)) "")) <$> payload)).
Definition computeSignatureHash (category : ReplayCategory) (payload : list Z) : Z :=
  let hash := fnv1a64 FNV64_OFFSET (utf8_encode (category_name category)) in
  let hash := fnv1a64 hash [FIELD_SEPARATOR] in
  let hash := fnv1a64 hash (utf8_encode "__payload__") in
  let hash := fnv1a64 hash [FIELD_SEPARATOR] in
  fnv1a64 hash (hexBytes payload).
Definition computeDigest (seedId : Z) (payload : list Z) : Z :=
  foldl (fun digest byte => Z.land (digest * FNV64_PRIME + byte) MASK64) (Z.land seedId MASK64) payload.
Definition buildReplayBundleDocument (run : ReplayRun) : result string ReplayBundleDocument :=
  match rr_crashDetail run with
  | None => Err (cat ["run "; rr_id run; " does not include crash details"])
  | Some crash =>
      let payload := utf8_encode (rc_payload crash) in
      let category := classifyReplayPayload payload in
      match stableRunIdSeed (rr_id run) with
      | None => Err "The number Infinity cannot be converted to a BigInt because it is not an integer"%string
      | Some seedId =>
          Ok (mkBundle 2 seedId payload category (computeDigest seedId payload) (computeSignatureHash category payload) payload)
      end
  end.

(** *** Its text *)

Definition line_feed : string := String (ascii_of_nat 10) EmptyString.
Definition indentBlock (value indent : string) : string :=
  join_with line_feed ((fun line => cat [indent; line]) <$> split_on (ascii_of_nat 10) value).
(** [JSON.stringify(numbers, null, 2)] inside [indent] spaces. *)
Definition json_numbers (indent : string) (numbers : list Z) : string :=
  match numbers with
  | [] => "[]"
  | _ => cat ["["; line_feed; join_with (cat [","; line_feed]) ((fun n => cat [indent; "  "; num_to_string n]) <$> numbers);
              line_feed; indent; "]"]
  end.
Definition json_quoted (s : string) : string := let q := String (ascii_of_nat 34) EmptyString in cat [q; s; q].
Definition json_seed (id : Z) (payload : list Z) : string :=
  cat ["{"; line_feed; "  "; json_quoted "id"; ": "; num_to_string id; ","; line_feed; "  "; json_quoted "payload"; ": ";
       json_numbers "  " payload; line_feed; "}"].
Definition serializeReplayBundleDocument (document : ReplayBundleDocument) : string :=
  let seedJson := json_seed (bd_seed_id document) (bd_seed_payload document) in
  let failurePayloadJson := json_numbers "" (bd_failure_payload document) in
  join_with line_feed
    ["{";
     cat ["  "; json_quoted "schema"; ": "; num_to_string (bd_schema document); ","];
     cat ["  "; json_quoted "seed"; ": "; indentBlock seedJson "  "; ","];
     cat ["  "; json_quoted "signature"; ": {"];
     cat ["    "; json_quoted "category"; ": "; json_quoted (category_name (bd_category document)); ","];
     cat ["    "; json_quoted "digest"; ": "; num_to_string (bd_digest document); ","];
     cat ["    "; json_quoted "signature_hash"; ": "; num_to_string (bd_signature_hash document)];
     "  },";
     cat ["  "; json_quoted "environment"; ": null,"];
     cat ["  "; json_quoted "failure_payload"; ": "; indentBlock failurePayloadJson "  "; ","];
     cat ["  "; json_quoted "rpc_envelope"; ": null"];
     "}"].

Example seed_examples :
  stableRunIdSeed "run-1042" = Some 1042 /\ stableRunIdSeed "" = Some 2166136261 /\
  stableRunIdSeed "a" = Some 3826002220 /\ stableRunIdSeed "x9007199254740993" = Some 9007199254740992.
Proof. vm_compute. done. Qed.
Example digest_examples :
  fnv1a64 FNV64_OFFSET (utf8_encode "a") = 12638187200555641996 /\ computeDigest 7 [1; 2] = 6697125326108628 /\
  classifyReplayPayload [97; 98] = cat_budget.
Proof. vm_compute. done. Qed.

(** ** The environment gate *)

(** The field is stamped on both sides, with different values. *)
Definition differs (expected actual : option ReplayEnvironment) (f : EnvField) : Prop :=
  exists e a l r, expected = Some e /\ actual = Some a /\ stamp f e = Some l /\ stamp f a = Some r /\ l <> r.
Lemma env_fields_all f : f ∈ ENV_FIELDS.
Proof. destruct f; vm_compute; repeat constructor. Qed.
Lemma field_mismatch_iff e a f : is_Some (field_mismatch e a f) <-> differs (Some e) (Some a) f.
Proof.
  unfold field_mismatch, differs. split.
  - intros [m H]. destruct (stamp f e) as [l|] eqn:E1, (stamp f a) as [r|] eqn:E2; try done. case_decide; [done|].
    by exists e, a, l, r.
  - intros (e' & a' & l & r & [= <-] & [= <-] & -> & -> & Hne). rewrite decide_False by done. by eexists.
Qed.
Lemma field_mismatch_field e a f m : field_mismatch e a f = Some m -> em_field m = f.
Proof.
  unfold field_mismatch. destruct (stamp f e), (stamp f a); try done. case_decide; [done|]. by intros [= <-].
Qed.
Lemma has_no_field e f : hasAnyField (Some e) = false -> stamp f e = None.
Proof.
  unfold hasAnyField. intros H. destruct (stamp f e) eqn:E; [|done]. exfalso.
  assert (Ht : existsb (fun f => bool_decide (is_Some (stamp f e))) ENV_FIELDS = true).
  { apply existsb_exists. exists f. split; [apply list_elem_of_In, env_fields_all|]. rewrite E. by apply bool_decide_eq_true. }
  congruence.
Qed.
Lemma mismatch_fields e a l : sublist (em_field <$> omap (field_mismatch e a) l) l.
Proof.
  induction l as [|f l IH]; [constructor|]. rewrite omap_step. destruct (field_mismatch e a f) as [m|] eqn:E; cbn.
  - rewrite (field_mismatch_field _ _ _ _ E). by apply sublist_skip.
  - by apply sublist_cons.
Qed.
Lemma mismatches_spec expected actual ack :
  let check := compareReplayEnvironments expected actual ack in
  (forall f, f ∈ em_field <$> ec_mismatches check <-> differs expected actual f) /\
  sublist (em_field <$> ec_mismatches check) ENV_FIELDS /\
  (mayRunReplay check = false <-> ack = false /\ ec_mismatches check <> []).
Proof.
  assert (Hnone : forall s, (forall f, ~ differs expected actual f) ->
    let check := mkCheck es_unknown [] false false s in
    (forall f, f ∈ em_field <$> ec_mismatches check <-> differs expected actual f) /\
    sublist (em_field <$> ec_mismatches check) ENV_FIELDS /\
    (mayRunReplay check = false <-> ack = false /\ ec_mismatches check <> [])).
  { intros s Hno. cbn. split; [|split; [apply sublist_nil_l|by split; [|intros [_ ?]]]]. intros f.
    split; [by intros ?%elem_of_nil|]. intros H. by apply Hno in H. }
  unfold compareReplayEnvironments. destruct expected as [e|], actual as [a|]; try (apply Hnone; intros f (? & ? & ? & ? & ? & ? & _); congruence).
  destruct (negb (hasAnyField (Some e)) || negb (hasAnyField (Some a))) eqn:Eany.
  { apply Hnone. intros f (e' & a' & l & r & [= <-] & [= <-] & H1 & H2 & _).
    apply orb_true_iff in Eany as [H|H]; apply negb_true_iff in H; rewrite (has_no_field _ f H) in *; done. }
  assert (Hin : forall f, f ∈ em_field <$> omap (field_mismatch e a) ENV_FIELDS <-> differs (Some e) (Some a) f).
  { intros f. rewrite <- field_mismatch_iff, list_elem_of_fmap. split.
    - intros (m & -> & (f' & _ & E)%list_elem_of_omap). rewrite (field_mismatch_field _ _ _ _ E). by eexists.
    - intros [m E]. exists m. split; [symmetry; by eapply field_mismatch_field|]. apply list_elem_of_omap.
      exists f. split; [apply env_fields_all|done]. }
  pose proof (mismatch_fields e a ENV_FIELDS) as Hsub.
  destruct (omap (field_mismatch e a) ENV_FIELDS) as [|m ms]; cbn [ec_mismatches].
  - split; [done|]. split; [apply sublist_nil_l|]. cbn. by split; [|intros [_ ?]].
  - split; [done|]. split; [done|]. unfold mayRunReplay. cbn [ec_status ec_acknowledged].
    rewrite bool_decide_eq_true_2 by done. cbn. destruct ack; by split; [|intros [? _]].
Qed.

(** A replay is held back exactly when some field is stamped on both sides, not blank
    once trimmed, with different values, and the caller has not acknowledged it; the check
    then lists exactly those fields, in a fixed order. What is missing on one side never
    holds a replay back. *)
Theorem environment_gate expected actual ack :
  let check := compareReplayEnvironments expected actual ack in
  (mayRunReplay check = false <-> ack = false /\ exists f, differs expected actual f) /\
  (forall f, f ∈ em_field <$> ec_mismatches check <-> differs expected actual f) /\
  sublist (em_field <$> ec_mismatches check) ENV_FIELDS.
Proof.
  destruct (mismatches_spec expected actual ack) as (H1 & H2 & H3). cbn zeta in *. split; [|by split].
  rewrite H3. split; intros [Ha H]; (split; [done|]).
  - destruct (ec_mismatches _) as [|m ms]; [done|]. exists (em_field m). apply H1. by left.
  - destruct H as [f Hf]. apply H1 in Hf. intros E. rewrite E in Hf. by apply elem_of_nil in Hf.
Qed.

(** ** The digests *)

Fixpoint horner (x : Z) (payload : list Z) : Z :=
  match payload with [] => x | b :: rest => horner (x * FNV64_PRIME + b) rest end.
Lemma mask64_mod x : Z.land x MASK64 = x mod 2 ^ 64.
Proof. change MASK64 with (Z.ones 64). apply Z.land_ones. lia. Qed.
Lemma horner_mod x y payload : x mod 2 ^ 64 = y mod 2 ^ 64 -> horner x payload mod 2 ^ 64 = horner y payload mod 2 ^ 64.
Proof.
  revert x y. induction payload as [|b rest IH]; intros x y H; [done|]. cbn [horner]. apply IH.
  rewrite (Z.add_mod (x * _)), (Z.add_mod (y * _)), (Z.mul_mod x), (Z.mul_mod y), H by lia. done.
Qed.
Lemma horner_sum x payload :
  horner x payload = x * FNV64_PRIME ^ Z.of_nat (length payload) + horner 0 payload.
Proof.
  revert x. induction payload as [|b rest IH]; intros x; [cbn [horner length]; change (FNV64_PRIME ^ Z.of_nat 0) with 1; lia|].
  cbn [horner length]. rewrite (IH (x * FNV64_PRIME + b)), (IH (0 * FNV64_PRIME + b)), Nat2Z.inj_succ, Z.pow_succ_r by lia. lia.
Qed.
(** The digest of a bundle is the value of a polynomial in the FNV prime, modulo 2^64. *)
Theorem digest_polynomial seedId payload :
  computeDigest seedId payload =
  (seedId * FNV64_PRIME ^ Z.of_nat (length payload) + horner 0 payload) mod 2 ^ 64.
Proof.
  rewrite <- horner_sum. unfold computeDigest. rewrite mask64_mod.
  enough (H : forall x, foldl (fun digest byte => Z.land (digest * FNV64_PRIME + byte) MASK64) (x mod 2 ^ 64) payload
                        = horner x payload mod 2 ^ 64) by apply H.
  induction payload as [|b rest IH]; intros x; [done|]. cbn [foldl horner]. rewrite mask64_mod, IH.
  apply horner_mod. rewrite (Z.add_mod (x mod 2 ^ 64 * FNV64_PRIME)), (Z.mul_mod (x mod 2 ^ 64)), Z.mod_mod by lia.
  by rewrite <- Z.mul_mod, <- Z.add_mod by lia.
Qed.
