(* ===== verification/ReplayRoute.v ===== *)
(** [app/api/runs/[id]/replay/route.ts]: the handler that starts a replay, over the
    registry of [ReplayJob], with the bundle and the environment check of
    [ReplayBundle].

    The mock and the simulator runner finish in the segment that creates the job; the host
    runner gives way twice, while the bundle is written and while the process runs, and
    its continuations are separate definitions.  [clock i] is the [i]-th reading of the
    clock in a segment; the body parser, the upstream service, the file system and the
    process are arguments. *)

From S2P Require Import Prelude JsDate JsString JsNumber JsValue CronParser RetryBackoff ReplayJob ReplayBundle.
From stdpp Require Import base list sets fin_sets gmap strings numbers sorting.
From Stdlib Require Import ZArith Lia Ascii.
#[local] Open Scope Z_scope.

Notation Job := (ReplayJob ReplayEnvironment EnvironmentCheck ReplayResult).

(** ** The request *)

Definition MAX_REPLAY_BODY_BYTES : Z := 32 * 1024.
Record ReplayRequestOptions : Type := mkOptions
  { ro_runner : ReplayRunner; ro_environment : option ReplayEnvironment; ro_acknowledged : bool; ro_actor : string }.
(** [raw] is [None] when reading the text throws; [parse_json] when parsing it does;
    [render] is [String(value)]. *)
Definition parseReplayRequest (parse_json : string -> option json) (render : option json -> string) (raw : option string)
  : result string ReplayRequestOptions :=
  body ← (match raw with
          | None => Err "Expected a valid JSON body."%string
          | Some raw =>
              if MAX_REPLAY_BODY_BYTES <? js_length raw then Err "The replay request body is too large."%string
              else if decide (trim raw = ""%string) then Ok []
              else match parse_json raw with
                   | None => Err "Expected a valid JSON body."%string
                   | Some (JObj body) => Ok body
                   | Some _ => Err "Expected a JSON object body."%string
                   end
          end);
  match parseReplayRunner (prop "runner" body) with
  | None => Err (cat ["Unsupported replay runner: "; render (prop "runner" body); ". Choose mock, host or rpc-sim."])
  | Some runner =>
      let actor := match prop "actor" body with
                   | Some (JStr actor) => if decide (trim actor = ""%string) then "anonymous"%string
                                          else String.substring 0 80 (trim actor)
                   | _ => "anonymous"%string
                   end in
      Ok (mkOptions runner (parseReplayEnvironment (prop "environment" body))
            (bool_decide (prop "acknowledgeMismatch" body = Some (JBool true))) actor)
  end.
(** [fetched]: the status and the parsed body of the upstream answer; [None] without
    [RUNS_API_URL], and then [local] is searched. *)
Definition resolveReplayRun (fetched : option (result string (Z * result string ReplayRun))) (local : list ReplayRun)
    (runId : string) : result string (option ReplayRun) :=
  match fetched with
  | Some (Err e) => Err e
  | Some (Ok (status, body)) =>
      if status =? 404 then Ok None
      else if negb ((200 <=? status) && (status <=? 299))
      then Err (cat ["upstream run lookup failed with HTTP "; num_to_string status])
      else run ← body; Ok (Some run)
  | None => Ok (List.find (fun run => bool_decide (rr_id run = runId)) local)
  end.
Definition buildReplayRunId (sourceRunId uuid : string) : string :=
  cat ["replay-"; sourceRunId; "-"; String.substring 0 8 uuid].

(** ** The runners *)

Record ReplayInvocationResult : Type := mkInvocation
  { ri_command : string; ri_args : list string; ri_stdout : string; ri_stderr : string; ri_exitCode : Z;
    ri_errorCode : option string }.
Definition buildReplayCliInvocation (manifestPath bundlePath : string) : string * list string :=
  ("cargo"%string, ["run"; "--quiet"; "--manifest-path"; manifestPath; "--bin"; "crashlab"; "--"; "replay"; "seed"; bundlePath]%string).
(** What the child process comes to: its output, or the error of [execFile] with the
    [code], [stdout], [stderr] and [message] it carries. *)
Inductive ErrorCode : Type := ec_none | ec_string (code : string) | ec_number (code : Z).
Inductive ExecOutcome : Type :=
  | exec_ok (stdout stderr : string)
  | exec_error (code : ErrorCode) (stdout stderr message : option string).
Definition executeReplayCli (manifestPath bundlePath : string) (outcome : ExecOutcome) : ReplayInvocationResult :=
  let '(command, args) := buildReplayCliInvocation manifestPath bundlePath in
  match outcome with
  | exec_ok stdout stderr => mkInvocation command args stdout stderr 0 None
  | exec_error code stdout stderr message =>
      mkInvocation command args (default ""%string stdout)
        (match stderr with Some s => s | None => default ""%string message end)
        (match code with ec_number c => c | _ => 1 end)
        (match code with ec_string s => Some s | _ => None end)
  end.
Definition mockReplay (run : ReplayRun) : ReplayInvocationResult :=
  let signature := match rr_crashDetail run with Some c => rc_signature c | None => "unknown signature"%string end in
  mkInvocation "mock-replay" ["--run-id"; rr_id run; "--signature"; signature]%string
    (cat ["mock runner executed "; num_to_string (rr_seedCount run); " seeds and reproduced "; signature]) "" 0 None.
Definition replayFailureStatus (stderr : string) : Z := if includes stderr "replay mismatch:" then 409 else 502.

(** ** The handler *)

(** The body of an answer about a job. *)
Record ReplayBody : Type := mkBody
  { rb_ok : bool; rb_runId : string; rb_newRunId : string; rb_jobId : string; rb_runner : ReplayRunner;
    rb_environment : EnvironmentCheck; rb_bundleJson : string; rb_cli : ReplayInvocationResult;
    rb_failure : option ReplayFailure; rb_result : option ReplayResult; rb_status : ReplayJobStatus;
    rb_events : list ReplayJobEvent }.
Inductive ReplayResponse : Type :=
  | rp_error (status : Z) (message : string)
  | rp_mismatch (check : EnvironmentCheck)
  | rp_job (status : Z) (body : ReplayBody).
(** What a host replay keeps across its suspension points. *)
Record HostReplay : Type := mkHost
  { hr_jobId : string; hr_run : ReplayRun; hr_newRunId : string; hr_check : EnvironmentCheck; hr_bundleJson : string;
    hr_bundlePath : option string }.
Inductive Started : Type := st_answered (r : ReplayResponse) | st_suspended (h : HostReplay).

Definition event (phase : ReplayJobPhase) (message : string) (percent : Z) (level : option EventLevel) : JobEventInput :=
  mkEventInput phase message (percent, 0) level None.
Definition diagnostics_of (cli : ReplayInvocationResult) (durationMs : Z) : ReplayDiagnostics :=
  mkDiagnostics (ri_command cli) (ri_args cli) (ri_stdout cli) (ri_stderr cli) (ri_exitCode cli) durationMs.
Definition status_or (d : ReplayJobStatus) (finished : option Job) : ReplayJobStatus :=
  match finished with Some j => rj_status j | None => d end.
Definition events_or (finished : option Job) : list ReplayJobEvent :=
  match finished with Some j => rj_events j | None => [] end.
Definition failed_to_start : ReplayResponse := rp_error 500 "Failed to start replay".

Section Handler.
Context (clock : nat -> Z).
Definition iso (i : nat) : string := to_iso_string (clock i).

(** From the creation of the job to its first suspension point. *)
Definition run_job (uuid newRunId : string) (options : ReplayRequestOptions) (run : ReplayRun) (crash : ReplayCrash)
    (checklist : EnvironmentCheck) (jobs : list Job) : list Job * Started :=
  let runner := ro_runner options in
  let '(jobs, job) := create_job DEFAULT_JOB_TTL_MS MAX_RETAINED_JOBS uuid (clock 0)
                        (mkCreate (rr_id run) (runner_name runner) (ro_actor options) (ro_environment options) (Some checklist) None) jobs in
  let id := rj_id job in
  match buildReplayBundleDocument run with
  | Err _ => (jobs, st_answered failed_to_start)
  | Ok document =>
      let bundleJson := serializeReplayBundleDocument document in
      let jobs := (appendEvent (iso 1) id (event ph_bundle (cat ["Bundle resolved for "; rc_signature crash; "."]) 15 None) jobs).1 in
      let jobs := (transition_job (iso 2) id rj_running (mkPatch None None None) jobs).1 in
      match runner with
      | run_rpc_sim =>
          let failure := describeReplayFailure runner_unavailable
            (Some "The RPC simulator runner is not configured for this deployment. Use the host runner or the mock runner."%string) in
          let jobs := (appendEvent (iso 3) id (event ph_runner (fail_message failure) 45 (Some lvl_error)) jobs).1 in
          let '(jobs, finished) := transition_job (iso 4) id rj_failed (mkPatch (Some failure) None None) jobs in
          (jobs, st_answered (rp_job 503 (mkBody false (rr_id run) newRunId id runner checklist bundleJson
             (mkInvocation "rpc-sim" [] "" (fail_message failure) 1 None) (Some failure) None (status_or rj_failed finished) (events_or finished))))
      | run_mock =>
          let cli := mockReplay run in
          let jobs := (appendEvent (iso 3) id (event ph_runner "Mock runner reproduced the recorded signature." 55 None) jobs).1 in
          let jobs := (appendEvent (iso 4) id (event ph_verify "Signature matched." 85 None) jobs).1 in
          let res := buildReplayResult (rr_id run) newRunId (diagnostics_of cli 1) checklist true in
          let jobs := (transition_job (iso 5) id rj_succeeded (mkPatch None (Some res) None) jobs).1 in
          let '(jobs, finished) := appendEvent (iso 6) id (event ph_done "Replay complete." 100 None) jobs in
          (jobs, st_answered (rp_job 200 (mkBody true (rr_id run) newRunId id runner checklist bundleJson cli None (Some res)
             (status_or rj_succeeded finished) (events_or finished))))
      | run_host => (jobs, st_suspended (mkHost id run newRunId checklist bundleJson None))
      end
  end.
(** The handler once the run has been looked up. *)
Definition POST_replay (id uuid runUuid : string) (parsed : result string ReplayRequestOptions)
    (lookup : result string (option ReplayRun)) (jobs : list Job) : list Job * Started :=
  if decide (id = ""%string) then (jobs, st_answered (rp_error 400 "Run ID is required"))
  else
    match parsed with
    | Err message => (jobs, st_answered (rp_error 400 message))
    | Ok options =>
        match lookup with
        | Err _ => (jobs, st_answered failed_to_start)
        | Ok None => (jobs, st_answered (rp_error 404 "Run not found"))
        | Ok (Some run) =>
            match rr_crashDetail run with
            | None => (jobs, st_answered (rp_error 422 "Run does not include replayable crash details"))
            | Some crash =>
                let checklist := compareReplayEnvironments (rr_components run) (ro_environment options) (ro_acknowledged options) in
                if negb (mayRunReplay checklist) then (jobs, st_answered (rp_mismatch checklist))
                else run_job uuid (buildReplayRunId id runUuid) options run crash checklist jobs
            end
        end
    end.
(** After [writeReplayBundleFile], which throws or gives the path. *)
Definition bundle_written (written : option string) (h : HostReplay) (jobs : list Job) : list Job * Started :=
  match written with
  | None => (jobs, st_answered failed_to_start)
  | Some bundlePath =>
      ((appendEvent (iso 0) (hr_jobId h) (event ph_runner "Host runner started." 40 None) jobs).1,
       st_suspended (mkHost (hr_jobId h) (hr_run h) (hr_newRunId h) (hr_check h) (hr_bundleJson h) (Some bundlePath)))
  end.
(** After [executeReplayCli]; the answer leaves once the directory is removed. *)
Definition cli_finished (cli : ReplayInvocationResult) (durationMs : Z) (h : HostReplay) (jobs : list Job) : list Job * ReplayResponse :=
  let id := hr_jobId h in
  let body ok failure res status events :=
    mkBody ok (rr_id (hr_run h)) (hr_newRunId h) id run_host (hr_check h) (hr_bundleJson h) cli failure res status events in
  let failure := classifyReplayFailure
    (mkFailureInput false (bool_decide (ri_errorCode cli = Some "ENOENT"%string \/ ri_errorCode cli = Some "ENOTDIR"%string)) false false
       (Some (ri_stderr cli)) (Some (ri_exitCode cli))) in
  match failure with
  | Some failure =>
      let outcome := match fail_reason failure with reason_mismatch => rj_mismatch | _ => rj_failed end in
      let jobs := (appendEvent (iso 0) id (event ph_verify (fail_message failure) 85 (Some lvl_error)) jobs).1 in
      let '(jobs, finished) := transition_job (iso 1) id outcome (mkPatch (Some failure) None None) jobs in
      let httpStatus := match fail_reason failure with
                        | reason_mismatch => 409
                        | runner_unavailable => 503
                        | _ => replayFailureStatus (ri_stderr cli)
                        end in
      (jobs, rp_job httpStatus (body false (Some failure) None (status_or outcome finished) (events_or finished)))
  | None =>
      let res := buildReplayResult (rr_id (hr_run h)) (hr_newRunId h) (diagnostics_of cli durationMs) (hr_check h) true in
      let jobs := (appendEvent (iso 0) id (event ph_verify "Signature matched." 90 None) jobs).1 in
      let jobs := (transition_job (iso 1) id rj_succeeded (mkPatch None (Some res) None) jobs).1 in
      let '(jobs, finished) := appendEvent (iso 2) id (event ph_done "Replay complete." 100 None) jobs in
      (jobs, rp_job 200 (body true None (Some res) (status_or rj_succeeded finished) (events_or finished)))
  end.
End Handler.

(** ** All the replays of a process *)

(** The answer of the [catch]. *)
Definition threw (r : ReplayResponse) : bool := match r with rp_error status _ => status =? 500 | _ => false end.


Record RunnerWorld : Type := mkRunnerWorld
  { pw_used : gset string; pw_jobs : list Job; pw_writing : list HostReplay; pw_running : list HostReplay;
    pw_abandoned : gset string }.
Definition empty_replays : RunnerWorld := mkRunnerWorld ∅ [] [] [] ∅.
(** The steps: a request up to its first suspension, its continuations, and the reads of
    [app/api/replay-jobs/].  [pw_abandoned] is a ghost: the jobs whose request ended at a
    [throw] after their creation. *)
Inductive runner_step : RunnerWorld -> RunnerWorld -> Prop :=
  | rs_answered clock id uuid runUuid parsed lookup w jobs r :
      cat ["replay-job-"%string; uuid] ∉ pw_used w ->
      POST_replay clock id uuid runUuid parsed lookup (pw_jobs w) = (jobs, st_answered r) ->
      runner_step w (mkRunnerWorld ({[ cat ["replay-job-"%string; uuid] ]} ∪ pw_used w) jobs (pw_writing w) (pw_running w)
                       (if threw r then {[ cat ["replay-job-"%string; uuid] ]} ∪ pw_abandoned w else pw_abandoned w))
  | rs_suspended clock id uuid runUuid parsed lookup w jobs h :
      cat ["replay-job-"%string; uuid] ∉ pw_used w ->
      POST_replay clock id uuid runUuid parsed lookup (pw_jobs w) = (jobs, st_suspended h) ->
      runner_step w (mkRunnerWorld ({[ cat ["replay-job-"%string; uuid] ]} ∪ pw_used w) jobs (h :: pw_writing w) (pw_running w) (pw_abandoned w))
  | rs_written clock path w h l1 l2 jobs h' :
      pw_writing w = l1 ++ h :: l2 -> bundle_written clock (Some path) h (pw_jobs w) = (jobs, st_suspended h') ->
      runner_step w (mkRunnerWorld (pw_used w) jobs (l1 ++ l2) (h' :: pw_running w) (pw_abandoned w))
  | rs_not_written w h l1 l2 :
      pw_writing w = l1 ++ h :: l2 ->
      runner_step w (mkRunnerWorld (pw_used w) (pw_jobs w) (l1 ++ l2) (pw_running w) ({[ hr_jobId h ]} ∪ pw_abandoned w))
  | rs_finished clock cli durationMs w h l1 l2 :
      pw_running w = l1 ++ h :: l2 ->
      runner_step w (mkRunnerWorld (pw_used w) (cli_finished clock cli durationMs h (pw_jobs w)).1 (pw_writing w) (l1 ++ l2) (pw_abandoned w))
  | rs_read now id w :
      runner_step w (mkRunnerWorld (pw_used w) (get_job DEFAULT_JOB_TTL_MS now id (pw_jobs w)).1 (pw_writing w) (pw_running w) (pw_abandoned w))
  | rs_list now sourceRunId w :
      runner_step w (mkRunnerWorld (pw_used w) (listBySource DEFAULT_JOB_TTL_MS now sourceRunId (pw_jobs w)).1 (pw_writing w) (pw_running w)
                       (pw_abandoned w)).

(** ** Statuses under the operations of the registry *)

Definition status_of (id : string) (l : list Job) : option ReplayJobStatus := rj_status <$> map_get id l.
Notation ids l := (rj_id <$> (l : list Job)).

Lemma map_get_iff id (l : list Job) j : NoDup (ids l) -> map_get id l = Some j <-> j ∈ l /\ rj_id j = id.
Proof.
  intros Hn. split; [apply map_get_Some|]. intros [Hj E]. unfold map_get.
  assert (Hf : j ∈ filter (fun x : Job => rj_id x = id) l) by (by apply list_elem_of_filter).
  destruct (filter (fun x : Job => rj_id x = id) l) as [|j0 rest] eqn:Ef; [by apply elem_of_nil in Hf|].
  assert (Hj0 : j0 ∈ filter (fun x : Job => rj_id x = id) l) by (rewrite Ef; by left).
  apply list_elem_of_filter in Hj0 as [E0 Hj0]. cbn. f_equal. apply (same_rid l); congruence || done.
Qed.
Lemma map_set_get (u : Job) l x :
  map_get x (map_set u l) = if decide (x = rj_id u) then Some u else map_get x l.
Proof.
  unfold map_get. induction l as [|j l IH]; cbn [map_set].
  - rewrite filter_cons, filter_nil. case_decide as H1; case_decide as H2; congruence || done.
  - destruct (decide (rj_id j = rj_id u)) as [E|E]; rewrite !filter_cons.
    + destruct (decide (rj_id u = x)) as [H1|H1], (decide (x = rj_id u)) as [H2|H2]; try (exfalso; congruence); [done|].
      rewrite decide_False by congruence. done.
    + destruct (decide (rj_id j = x)) as [H1|H1]; [|exact IH]. cbn. rewrite decide_False by congruence. done.
Qed.
Lemma append_status now id input l x : status_of x (appendEvent now id input l).1 = status_of x l.
Proof.
  unfold appendEvent, status_of. destruct (map_get id l) as [j|] eqn:E; [|done]. cbn [fst]. rewrite map_set_get.
  cbn [appendJobEvent with_events rj_id]. case_decide as Ex; [|done]. apply map_get_Some in E as E'. destruct E' as [_ E'].
  subst x. rewrite E', E. done.
Qed.
Lemma transition_status now id to patch l x :
  status_of x (transition_job now id to patch l).1 =
  if decide (x = id) then (fun s => if canTransitionJob s to then to else s) <$> status_of x l else status_of x l.
Proof.
  unfold transition_job, status_of. destruct (map_get id l) as [j|] eqn:E.
  - apply map_get_Some in E as E'. destruct E' as [_ E']. unfold transitionJob.
    destruct (canTransitionJob (rj_status j) to) eqn:Ec; cbn [negb fst].
    + rewrite map_set_get. cbn [rj_id]. rewrite E'. case_decide as Ex; [|done]. subst x. rewrite E. cbn. by rewrite Ec.
    + case_decide as Ex; [|done]. subst x. rewrite E. cbn. by rewrite Ec.
  - cbn [fst]. case_decide as Ex; [|done]. subst x. by rewrite E.
Qed.
Lemma append_ids now id input l : ids (appendEvent now id input l).1 = ids l.
Proof.
  unfold appendEvent. destruct (map_get id l) as [j|] eqn:E; [|done]. apply map_get_Some in E as [Hj E]. cbn [fst].
  rewrite map_set_ids, decide_True; [done|]. apply (list_elem_of_fmap_2 rj_id) in Hj. exact Hj.
Qed.
Lemma transition_ids now id to patch l : ids (transition_job now id to patch l).1 = ids l.
Proof.
  unfold transition_job. destruct (map_get id l) as [j|] eqn:E; [|done]. apply map_get_Some in E as [Hj E].
  unfold transitionJob. destruct (canTransitionJob (rj_status j) to); cbn [negb fst]; [|done].
  rewrite map_set_ids, decide_True; [done|]. apply (list_elem_of_fmap_2 rj_id) in Hj. exact Hj.
Qed.
(** Dropping jobs keeps the status of those that stay. *)
Lemma sub_status l l' x s :
  NoDup (ids l) -> NoDup (ids l') -> (forall j, j ∈ l' -> j ∈ l) -> status_of x l' = Some s -> status_of x l = Some s.
Proof.
  intros Hn Hn' Hsub H. unfold status_of in H. apply fmap_Some in H as (j & Hj & ->). apply map_get_iff in Hj as [Hj E]; [|done].
  unfold status_of. rewrite (proj2 (map_get_iff x l j Hn)); [done|]. by split; [apply Hsub|].
Qed.
Lemma create_status uuid now input l x s :
  NoDup (ids l) -> cat ["replay-job-"%string; uuid] ∉ ids l ->
  let l' := (create_job DEFAULT_JOB_TTL_MS MAX_RETAINED_JOBS uuid now input l).1 in
  NoDup (ids l') /\ (forall i, i ∈ ids l' -> i = cat ["replay-job-"%string; uuid] \/ i ∈ ids l) /\
  (status_of x l' = Some s -> if decide (x = cat ["replay-job-"%string; uuid]) then s = rj_queued else status_of x l = Some s).
Proof.
  intros Hn Hnew. unfold create_job. cbn [fst].
  match goal with |- context [map_set ?y _] => set (u := y) end.
  assert (Hp : NoDup (ids (prune_jobs DEFAULT_JOB_TTL_MS now l))) by (by apply prune_NoDup).
  assert (Hsub : forall i, i ∈ ids (prune_jobs DEFAULT_JOB_TTL_MS now l) -> i ∈ ids l).
  { intros i (j & -> & Hj)%list_elem_of_fmap. apply list_elem_of_fmap_2. by eapply prune_elem. }
  assert (Hu : rj_id u ∉ ids (prune_jobs DEFAULT_JOB_TTL_MS now l)) by (intros H; by apply Hnew, Hsub).
  set (set_ := map_set u (prune_jobs DEFAULT_JOB_TTL_MS now l)) in *.
  assert (Hids : ids set_ = ids (prune_jobs DEFAULT_JOB_TTL_MS now l) ++ [rj_id u]).
  { unfold set_. by rewrite map_set_ids, decide_False. }
  assert (Hs : NoDup (ids set_)).
  { rewrite Hids. apply NoDup_app. split; [done|]. split; [by intros i Hi ->%list_elem_of_singleton|apply NoDup_singleton]. }
  destruct (enforceCapacity_spec MAX_RETAINED_JOBS set_ Hs) as (C1 & C2 & _). split; [done|]. split.
  - intros i (j & -> & Hj)%list_elem_of_fmap. apply C1 in Hj. apply (list_elem_of_fmap_2 rj_id) in Hj. rewrite Hids in Hj.
    apply elem_of_app in Hj as [Hj| ->%list_elem_of_singleton]; [right; by apply Hsub|by left].
  - intros H. apply (sub_status set_ _ x s Hs C2 C1) in H. unfold status_of, set_ in H. rewrite map_set_get in H.
    change (rj_id u) with (cat ["replay-job-"%string; uuid]) in H. case_decide as E; [by injection H as <-|].
    apply (sub_status l (prune_jobs DEFAULT_JOB_TTL_MS now l) x s Hn Hp); [|done]. intros j. apply prune_elem.
Qed.

Lemma status_ids x l s : status_of x l = Some s -> x ∈ ids l.
Proof.
  unfold status_of. intros (j & Hj & _)%fmap_Some. apply map_get_Some in Hj as [Hj <-]. by apply list_elem_of_fmap_2.
Qed.
Lemma job_status (l : list Job) j : NoDup (ids l) -> j ∈ l -> status_of (rj_id j) l = Some (rj_status j).
Proof. intros Hn Hj. unfold status_of. by rewrite (proj2 (map_get_iff (rj_id j) l j Hn)). Qed.

(** What a segment may do: it leaves the statuses of the other jobs alone. *)
Definition segment (id : string) (l l' : list Job) : Prop :=
  NoDup (ids l') /\ (forall i, i ∈ ids l' -> i = id \/ i ∈ ids l) /\
  (forall x s, x <> id -> status_of x l' = Some s -> status_of x l = Some s).
Lemma segment_append now id input l l' : segment id l l' -> segment id l (appendEvent now id input l').1.
Proof.
  intros (H1 & H2 & H3). split; [by rewrite append_ids|]. split; [by rewrite append_ids|]. intros x s Hx. rewrite append_status.
  by apply H3.
Qed.
Lemma segment_transition now id to patch l l' : segment id l l' -> segment id l (transition_job now id to patch l').1.
Proof.
  intros (H1 & H2 & H3). split; [by rewrite transition_ids|]. split; [by rewrite transition_ids|]. intros x s Hx.
  rewrite transition_status, decide_False by done. by apply H3.
Qed.
Lemma segment_refl id l : NoDup (ids l) -> segment id l l.
Proof. intros H. split; [done|]. split; [by right|done]. Qed.

Definition outcome_ok (s : ReplayJobStatus) (o : Started) : Prop :=
  match o with
  | st_answered r => if threw r then s = rj_queued else isTerminalJobStatus s = true
  | st_suspended _ => s = rj_running
  end.
Lemma run_job_effect clock uuid newRunId options run crash checklist l :
  let new := cat ["replay-job-"%string; uuid] in
  NoDup (ids l) -> new ∉ ids l ->
  let '(l', o) := run_job clock uuid newRunId options run crash checklist l in
  segment new l l' /\ (forall s, status_of new l' = Some s -> outcome_ok s o) /\
  (forall h, o = st_suspended h -> hr_jobId h = new /\ hr_bundlePath h = None).
Proof.
  intros new Hn Hnew. unfold run_job.
  set (input := mkCreate _ _ _ _ _ _).
  pose proof (create_status uuid (clock 0%nat) input l) as Hcr.
  destruct (create_job DEFAULT_JOB_TTL_MS MAX_RETAINED_JOBS uuid (clock 0%nat) input l) as [l1 job] eqn:Ec. cbn [fst] in Hcr.
  assert (Eid : rj_id job = new) by (unfold create_job in Ec; injection Ec as _ <-; done). rewrite Eid.
  assert (H1 : segment new l l1 /\ forall s, status_of new l1 = Some s -> s = rj_queued).
  { destruct (Hcr new rj_queued Hn Hnew) as (A1 & A2 & _). split; [split; [done|split; [done|]]|].
    - intros x s Hx H. destruct (Hcr x s Hn Hnew) as (_ & _ & A3). specialize (A3 H). by rewrite decide_False in A3.
    - intros s H. destruct (Hcr new s Hn Hnew) as (_ & _ & A3). specialize (A3 H). by rewrite decide_True in A3. }
  clear Hcr Ec. destruct H1 as [Hseg Hst].
  destruct (buildReplayBundleDocument run) as [document|]; [|].
  2:{ split; [done|]. split; [|done]. intros s H. by rewrite (Hst s H). }
  set (l2 := (transition_job (iso clock 2) new rj_running _ _).1).
  assert (H2 : segment new l l2 /\ forall s, status_of new l2 = Some s -> s = rj_running).
  { unfold l2. split; [by apply segment_transition, segment_append|]. intros s. rewrite transition_status, decide_True, append_status by done.
    intros (s0 & H0 & ->)%fmap_Some. rewrite (Hst s0 H0). done. }
  clearbody l2. destruct H2 as [Hseg2 Hst2]. destruct (ro_runner options).
  - set (patch := mkPatch None _ None). set (l3 := (transition_job (iso clock 5) new rj_succeeded patch _).1).
    assert (H3 : segment new l l3 /\ forall s, status_of new l3 = Some s -> s = rj_succeeded).
    { unfold l3. split; [by apply segment_transition, segment_append, segment_append|]. intros s.
      rewrite transition_status, decide_True, !append_status by done. intros (s0 & H0 & ->)%fmap_Some. by rewrite (Hst2 s0 H0). }
    destruct H3 as [Hseg3 Hst3]. pose proof (segment_append (iso clock 6) new (event ph_done "Replay complete." 100 None) l l3 Hseg3) as Hseg4.
    pose proof (append_status (iso clock 6) new (event ph_done "Replay complete." 100 None) l3 new) as Hst4.
    destruct (appendEvent (iso clock 6) new _ l3) as [l4 finished]. cbn [fst] in *. split; [done|]. split; [|done].
    intros s H. rewrite Hst4 in H. by rewrite (Hst3 s H).
  - split; [done|]. split; [done|]. intros h [= <-]. done.
  - set (patch := mkPatch (Some _) None None). set (l3 := (appendEvent (iso clock 3) new _ l2).1).
    assert (H3 : segment new l l3) by (by apply segment_append).
    pose proof (segment_transition (iso clock 4) new rj_failed patch l l3 H3) as Hseg4.
    pose proof (transition_status (iso clock 4) new rj_failed patch l3 new) as Hst4. rewrite decide_True in Hst4 by done.
    destruct (transition_job (iso clock 4) new rj_failed patch l3) as [l4 finished]. cbn [fst] in *. split; [done|]. split; [|done].
    intros s H. rewrite Hst4 in H. apply fmap_Some in H as (s0 & H0 & ->). unfold l3 in H0. rewrite append_status in H0.
    by rewrite (Hst2 s0 H0).
Qed.
Lemma post_effect clock id uuid runUuid parsed lookup l l' o :
  let new := cat ["replay-job-"%string; uuid] in
  POST_replay clock id uuid runUuid parsed lookup l = (l', o) -> NoDup (ids l) -> new ∉ ids l ->
  segment new l l' /\ (forall s, status_of new l' = Some s -> outcome_ok s o) /\
  (forall h, o = st_suspended h -> hr_jobId h = new /\ hr_bundlePath h = None).
Proof.
  intros new Hp Hn Hnew.
  assert (Hsame : forall r, (l, st_answered r) = (l', o) ->
    segment new l l' /\ (forall s, status_of new l' = Some s -> outcome_ok s o) /\
    (forall h, o = st_suspended h -> hr_jobId h = new /\ hr_bundlePath h = None)).
  { intros r [= <- <-]. split; [by apply segment_refl|]. split; [|done]. intros s Hs%status_ids. done. }
  unfold POST_replay in Hp. case_decide; [by apply Hsame in Hp|]. destruct parsed as [options|]; [|by apply Hsame in Hp].
  destruct lookup as [[run|]|]; try by apply Hsame in Hp. destruct (rr_crashDetail run) as [crash|]; [|by apply Hsame in Hp].
  destruct (mayRunReplay _); cbn [negb] in Hp; [|by apply Hsame in Hp].
  pose proof (run_job_effect clock uuid (buildReplayRunId id runUuid) options run crash
    (compareReplayEnvironments (rr_components run) (ro_environment options) (ro_acknowledged options)) l Hn Hnew) as Hrun.
  rewrite Hp in Hrun. exact Hrun.
Qed.
Lemma cli_effect clock cli durationMs h l :
  NoDup (ids l) -> (forall s, status_of (hr_jobId h) l = Some s -> s = rj_running) ->
  let l' := (cli_finished clock cli durationMs h l).1 in
  segment (hr_jobId h) l l' /\ (forall s, status_of (hr_jobId h) l' = Some s -> isTerminalJobStatus s = true).
Proof.
  intros Hn Hst. unfold cli_finished. set (id := hr_jobId h) in *. pose proof (segment_refl id l Hn) as H0.
  destruct (classifyReplayFailure _) as [failure|].
  - set (to := match fail_reason failure with reason_mismatch => rj_mismatch | _ => rj_failed end).
    assert (Hto : isTerminalJobStatus to = true /\ canTransitionJob rj_running to = true) by (unfold to; by destruct (fail_reason failure)).
    set (l1 := (appendEvent (iso clock 0) id _ l).1). assert (H1 : segment id l l1) by (by apply segment_append).
    set (patch := mkPatch (Some failure) None None).
    pose proof (segment_transition (iso clock 1) id to patch l l1 H1) as H2.
    pose proof (transition_status (iso clock 1) id to patch l1 id) as H3. rewrite decide_True in H3 by done.
    destruct (transition_job (iso clock 1) id to patch l1) as [l2 finished]. cbn [fst] in *. split; [done|].
    intros s Hs. rewrite H3 in Hs. apply fmap_Some in Hs as (s0 & Hs & ->). unfold l1 in Hs. rewrite append_status in Hs.
    rewrite (Hst s0 Hs), (proj2 Hto). apply Hto.
  - set (patch := mkPatch None _ None). set (l1 := (transition_job (iso clock 1) id rj_succeeded patch _).1).
    assert (H1 : segment id l l1 /\ forall s, status_of id l1 = Some s -> s = rj_succeeded).
    { unfold l1. split; [by apply segment_transition, segment_append|]. intros s. rewrite transition_status, decide_True, append_status by done.
      intros (s0 & Hs & ->)%fmap_Some. by rewrite (Hst s0 Hs). }
    destruct H1 as [H1 H2]. pose proof (segment_append (iso clock 2) id (event ph_done "Replay complete." 100 None) l l1 H1) as H3.
    pose proof (append_status (iso clock 2) id (event ph_done "Replay complete." 100 None) l1 id) as H4.
    destruct (appendEvent (iso clock 2) id _ l1) as [l2 finished]. cbn [fst] in *. split; [done|]. intros s Hs. rewrite H4 in Hs.
    by rewrite (H2 s Hs).
Qed.

(** ** No replay is left running *)

Definition inflight (w : RunnerWorld) : list string := hr_jobId <$> (pw_writing w ++ pw_running w).
Record replays_ok (w : RunnerWorld) : Prop := mkReplaysOk
  { po_ids : NoDup (ids (pw_jobs w));
    po_used : forall i, i ∈ ids (pw_jobs w) -> i ∈ pw_used w;
    po_flight : NoDup (inflight w);
    po_flight_used : forall i, i ∈ inflight w -> i ∈ pw_used w;
    po_abandoned : forall i, i ∈ pw_abandoned w -> i ∈ pw_used w /\ i ∉ inflight w;
    po_status : forall i s, status_of i (pw_jobs w) = Some s ->
      (i ∈ inflight w -> s = rj_running) /\ (i ∈ pw_abandoned w -> s = rj_queued \/ s = rj_running) /\
      (i ∉ inflight w -> i ∉ pw_abandoned w -> isTerminalJobStatus s = true) }.

(** A read only drops jobs. *)
Lemma read_ok w jobs :
  replays_ok w -> (exists now, jobs = prune_jobs DEFAULT_JOB_TTL_MS now (pw_jobs w)) ->
  replays_ok (mkRunnerWorld (pw_used w) jobs (pw_writing w) (pw_running w) (pw_abandoned w)).
Proof.
  intros [H1 H2 H3 H4 H5 H6] [now ->].
  assert (Hp : NoDup (ids (prune_jobs DEFAULT_JOB_TTL_MS now (pw_jobs w)))) by (by apply prune_NoDup).
  split; try done; cbn [pw_jobs].
  - intros i (j & -> & Hj)%list_elem_of_fmap. apply H2, list_elem_of_fmap_2. by eapply prune_elem.
  - intros i s Hs. apply (H6 i s). apply (sub_status (pw_jobs w) _ i s H1 Hp); [|done]. intros j. apply prune_elem.
Qed.
(** A segment that brings a new job, whose request is then in flight, abandoned or over. *)
Lemma fresh_ok new w jobs fl ab :
  replays_ok w -> new ∉ pw_used w -> segment new (pw_jobs w) jobs ->
  (forall i, i ∈ fl -> i = new \/ i ∈ inflight w) -> (forall i, i <> new -> i ∈ inflight w -> i ∈ fl) -> NoDup fl ->
  (forall i, i ∈ ab <-> i ∈ pw_abandoned w \/ (i = new /\ new ∈ ab)) -> (new ∈ ab -> new ∉ fl) ->
  (forall s, status_of new jobs = Some s ->
     (new ∈ fl -> s = rj_running) /\ (new ∈ ab -> s = rj_queued) /\ (new ∉ fl -> new ∉ ab -> isTerminalJobStatus s = true)) ->
  forall writing running, hr_jobId <$> (writing ++ running) = fl ->
  replays_ok (mkRunnerWorld ({[ new ]} ∪ pw_used w) jobs writing running ab).
Proof.
  intros [H1 H2 H3 H4 H5 H6] Hnew (S1 & S2 & S3) F1 F2 Fn A1 A2 Hst writing running Efl.
  assert (Hab : new ∉ pw_abandoned w) by (intros H; by apply Hnew, H5).
  split; unfold inflight; cbn [pw_jobs pw_used pw_writing pw_running pw_abandoned]; rewrite ?Efl; try done.
  - intros i Hi. apply S2 in Hi as [->|Hi]; [by apply elem_of_union_l, elem_of_singleton|by apply elem_of_union_r, H2].
  - intros i Hi. apply F1 in Hi as [->|Hi]; [by apply elem_of_union_l, elem_of_singleton|by apply elem_of_union_r, H4].
  - intros i Hi. pose proof Hi as Hi'. apply A1 in Hi' as [Ha|[-> _]].
    + destruct (H5 i Ha) as [U1 U2]. split; [by apply elem_of_union_r|]. intros [->|Hf]%F1; done.
    + split; [by apply elem_of_union_l, elem_of_singleton|by apply A2].
  - intros i s Hs. destruct (decide (i = new)) as [->|Hne].
    + destruct (Hst s Hs) as (T1 & T2 & T3). split; [done|]. split; [intros H; left; by apply T2|done].
    + apply (S3 i s Hne) in Hs. destruct (H6 i s Hs) as (T1 & T2 & T3). split; [|split].
      * intros [->|Hf]%F1; [done|by apply T1].
      * intros [Ha|[-> _]]%A1; [by apply T2|done].
      * intros Hf Ha. apply T3; [intros Hx; by apply Hf, F2|intros Hx; apply Ha, A1; by left].
Qed.
(** A segment of a request in flight. *)
Lemma flight_ok id w jobs fl ab :
  replays_ok w -> id ∈ inflight w -> segment id (pw_jobs w) jobs ->
  (forall i, i ∈ fl -> i ∈ inflight w) -> (forall i, i <> id -> i ∈ inflight w -> i ∈ fl) -> NoDup fl ->
  (forall i, i ∈ ab -> i ∈ pw_abandoned w \/ i = id) -> (forall i, i ∈ pw_abandoned w -> i ∈ ab) -> (id ∈ ab -> id ∉ fl) ->
  (forall s, status_of id jobs = Some s ->
     (id ∈ fl -> s = rj_running) /\ (id ∈ ab -> s = rj_running) /\ (id ∉ fl -> id ∉ ab -> isTerminalJobStatus s = true)) ->
  forall writing running, hr_jobId <$> (writing ++ running) = fl ->
  replays_ok (mkRunnerWorld (pw_used w) jobs writing running ab).
Proof.
  intros [H1 H2 H3 H4 H5 H6] Hid (S1 & S2 & S3) F1 F2 Fn A1 A1' A2 Hst writing running Efl.
  split; unfold inflight; cbn [pw_jobs pw_used pw_writing pw_running pw_abandoned]; rewrite ?Efl; try done.
  - intros i Hi. apply S2 in Hi as [->|Hi]; [by apply H4|by apply H2].
  - intros i Hi. by apply H4, F1.
  - intros i Hi. destruct (decide (i = id)) as [->|Hne].
    + split; [by apply H4|by apply A2].
    + apply A1 in Hi as [Ha| ->]; [|done]. destruct (H5 i Ha) as [U1 U2]. split; [done|]. intros Hf. by apply U2, F1.
  - intros i s Hs. destruct (decide (i = id)) as [->|Hne].
    + destruct (Hst s Hs) as (T1 & T2 & T3). split; [done|]. split; [intros H; right; by apply T2|done].
    + apply (S3 i s Hne) in Hs. destruct (H6 i s Hs) as (T1 & T2 & T3). split; [|split].
      * intros Hf. by apply T1, F1.
      * intros Ha. apply A1 in Ha as [Ha| ->]; [by apply T2|done].
      * intros Hf Ha. apply T3; [intros Hx; by apply Hf, F2|intros Hx; by apply Ha, A1'].
Qed.

Lemma runner_step_ok w w' : runner_step w w' -> replays_ok w -> replays_ok w'.
Proof.
  intros Hs Hw. pose proof Hw as [H1 H2 H3 H4 H5 H6]. destruct Hs as
    [clock id uuid runUuid parsed lookup w jobs r Hnew Hp|clock id uuid runUuid parsed lookup w jobs h Hnew Hp
    |clock path w h l1 l2 jobs h' Ew Hb|w h l1 l2 Ew|clock cli durationMs w h l1 l2 Er|now id w|now src w].
  - set (new := cat ["replay-job-"%string; uuid]) in *.
    assert (Hni : new ∉ ids (pw_jobs w)) by (intros H; by apply Hnew, H2).
    destruct (post_effect _ _ _ _ _ _ _ _ _ Hp H1 Hni) as (S1 & S2 & _).
    assert (Hnf : new ∉ inflight w) by (intros H; by apply Hnew, H4).
    assert (Hna : new ∉ pw_abandoned w) by (intros H; by apply Hnew, H5).
    apply (fresh_ok new w jobs (inflight w) _ Hw Hnew S1); try done; try (by right).
    + intros i. destruct (threw r); [rewrite elem_of_union, elem_of_singleton|]; [|tauto].
      split; [|tauto]. intros [->|Hi]; [right|by left]. split; [done|]. by apply elem_of_union_l, elem_of_singleton.
    + intros s Hs. specialize (S2 s Hs). cbn in S2. split; [done|]. destruct (threw r).
      * split; [done|]. intros _ Ha. exfalso. apply Ha. by apply elem_of_union_l, elem_of_singleton.
      * split; [|done]. intros Ha. by apply Hna in Ha.
  - set (new := cat ["replay-job-"%string; uuid]) in *.
    assert (Hni : new ∉ ids (pw_jobs w)) by (intros H; by apply Hnew, H2).
    destruct (post_effect _ _ _ _ _ _ _ _ _ Hp H1 Hni) as (S1 & S2 & S3). destruct (S3 h eq_refl) as [Eh _].
    assert (Hnf : new ∉ inflight w) by (intros H; by apply Hnew, H4).
    assert (Hna : new ∉ pw_abandoned w) by (intros H; by apply Hnew, H5).
    apply (fresh_ok new w jobs (new :: inflight w) _ Hw Hnew S1); try done.
    + intros i [->|Hi]%elem_of_cons; [by left|by right].
    + intros i _ Hi. by right.
    + by apply NoDup_cons.
    + intros i. split; [by left|]. intros [?|[_ ?]]; done.
    + intros s Hs. specialize (S2 s Hs). cbn in S2. split; [done|]. split; [done|]. intros Hf. exfalso. apply Hf. by left.
    + cbn [app]. rewrite fmap_cons, Eh. done.
  - unfold bundle_written in Hb. injection Hb as <- <-. set (id := hr_jobId h).
    assert (Efl : inflight w = (hr_jobId <$> l1) ++ id :: (hr_jobId <$> (l2 ++ pw_running w))).
    { unfold inflight. rewrite Ew, <- app_assoc, fmap_app. done. }
    assert (Hin : id ∈ inflight w) by (rewrite Efl; apply elem_of_app; right; by left).
    set (h' := mkHost _ _ _ _ _ _). set (fl := hr_jobId <$> ((l1 ++ l2) ++ h' :: pw_running w)).
    assert (Hperm : fl ≡ₚ inflight w).
    { rewrite Efl. unfold fl. rewrite <- Permutation_middle, !fmap_cons, <- Permutation_middle, <- !app_assoc, !fmap_app. done. }
    refine (flight_ok id w _ fl _ Hw Hin _ _ _ _ _ _ _ _ _ _ eq_refl).
    + by apply segment_append, segment_refl.
    + intros i. by rewrite Hperm.
    + intros i _. by rewrite Hperm.
    + by rewrite Hperm.
    + intros i Ha. by left.
    + done.
    + intros Ha. by apply H5 in Ha as [_ Ha].
    + intros s. rewrite append_status. intros Hs. destruct (H6 id s Hs) as (T1 & T2 & T3). split; [auto|].
      split; [intros _; auto|]. intros Hf. exfalso. apply Hf. by rewrite Hperm.
  - set (id := hr_jobId h).
    assert (Efl : inflight w = (hr_jobId <$> l1) ++ id :: (hr_jobId <$> (l2 ++ pw_running w))).
    { unfold inflight. rewrite Ew, <- app_assoc, fmap_app. done. }
    assert (Hin : id ∈ inflight w) by (rewrite Efl; apply elem_of_app; right; by left).
    set (fl := hr_jobId <$> ((l1 ++ l2) ++ pw_running w)).
    assert (Hperm : inflight w ≡ₚ id :: fl).
    { rewrite Efl. unfold fl. rewrite <- Permutation_middle, <- !app_assoc, !fmap_app. done. }
    assert (Hnd : id ∉ fl /\ NoDup fl) by (rewrite Hperm in H3; by apply NoDup_cons in H3).
    refine (flight_ok id w _ fl _ Hw Hin _ _ _ _ _ _ _ _ _ _ eq_refl).
    + by apply segment_refl.
    + intros i Hi. rewrite Hperm. by right.
    + intros i Hne Hi. rewrite Hperm in Hi. by apply elem_of_cons in Hi as [->|Hi].
    + apply Hnd.
    + intros i [->%elem_of_singleton|Ha]%elem_of_union; [by right|by left].
    + intros i Ha. by apply elem_of_union_r.
    + intros _. apply Hnd.
    + intros s Hs. destruct (H6 id s Hs) as (T1 & T2 & T3). split; [auto|]. split; [auto|].
      intros _ Ha. exfalso. apply Ha. by apply elem_of_union_l, elem_of_singleton.
  - set (id := hr_jobId h).
    assert (Efl : inflight w = (hr_jobId <$> (pw_writing w ++ l1)) ++ id :: (hr_jobId <$> l2)).
    { unfold inflight. rewrite Er, app_assoc, fmap_app. done. }
    assert (Hin : id ∈ inflight w) by (rewrite Efl; apply elem_of_app; right; by left).
    set (fl := hr_jobId <$> (pw_writing w ++ l1 ++ l2)).
    assert (Hperm : inflight w ≡ₚ id :: fl).
    { rewrite Efl. unfold fl. rewrite <- Permutation_middle, app_assoc, (fmap_app _ (_ ++ _)). done. }
    assert (Hnd : id ∉ fl /\ NoDup fl) by (rewrite Hperm in H3; by apply NoDup_cons in H3).
    destruct (cli_effect clock cli durationMs h (pw_jobs w) H1) as [C1 C2].
    { intros s Hs. by apply (H6 id s Hs). }
    refine (flight_ok id w _ fl _ Hw Hin _ _ _ _ _ _ _ _ _ _ eq_refl).
    + exact C1.
    + intros i Hi. rewrite Hperm. by right.
    + intros i Hne Hi. rewrite Hperm in Hi. by apply elem_of_cons in Hi as [->|Hi].
    + apply Hnd.
    + intros i Ha. by left.
    + done.
    + intros _. apply Hnd.
    + intros s Hs. split; [by intros Hf; apply Hnd in Hf|]. split; [|intros _ _; by apply C2].
      intros Ha. by apply H5 in Ha as [_ Ha].
  - apply read_ok; [done|]. by exists now.
  - apply read_ok; [done|]. by exists now.
Qed.
Lemma reachable_replays w : rtc runner_step empty_replays w -> replays_ok w.
Proof.
  intros H. apply (reachable_inv runner_step replays_ok) with empty_replays; [apply runner_step_ok|done|].
  split; unfold empty_replays; cbn; try constructor; try (intros i Hi; by apply elem_of_nil in Hi).
  all: try (intros Hi; by apply elem_of_empty in Hi).
  all: try done.
Qed.

(** C14. No replay is left running: over any interleaving of requests, bundles, processes
    and reads, every job of the registry has ended, or its request is still at work on it
    and it is running, or its request was cut off by an error after the job was created.
    So a process whose requests have all answered without such an error keeps ended jobs
    only. *)
Theorem no_replay_left_running w j :
  rtc runner_step empty_replays w -> j ∈ pw_jobs w ->
  isTerminalJobStatus (rj_status j) = true \/
  (rj_status j = rj_running /\ rj_id j ∈ inflight w /\ rj_id j ∉ pw_abandoned w) \/
  ((rj_status j = rj_queued \/ rj_status j = rj_running) /\ rj_id j ∈ pw_abandoned w /\ rj_id j ∉ inflight w).
Proof.
  intros Hw Hj. apply reachable_replays in Hw as [H1 H2 H3 H4 H5 H6].
  destruct (H6 _ _ (job_status _ _ H1 Hj)) as (T1 & T2 & T3).
  destruct (decide (rj_id j ∈ inflight w)) as [Hf|Hf].
  - right. left. split; [auto|]. split; [done|]. intros Ha. by apply H5 in Ha as [_ Ha].
  - destruct (decide (rj_id j ∈ pw_abandoned w)) as [Ha|Ha]; [right; right; auto|left; auto].
Qed.
(** A job whose request was cut off never ends: whatever happens later, it stays as it
    was until the registry drops it. *)
Theorem abandoned_never_ends w w' id s :
  rtc runner_step empty_replays w -> rtc runner_step w w' -> id ∈ pw_abandoned w ->
  status_of id (pw_jobs w') = Some s -> isTerminalJobStatus s = false.
Proof.
  intros H0 Hs Ha Hst.
  assert (Ha' : id ∈ pw_abandoned w').
  { clear Hst H0. induction Hs as [w|w w1 w2 H _ IH]; [done|]. apply IH. destruct H; cbn; try done.
    - case_match; [by apply elem_of_union_r|done].
    - by apply elem_of_union_r. }
  assert (Hw' : rtc runner_step empty_replays w') by (transitivity w; [exact H0|exact Hs]).
  apply reachable_replays in Hw' as [_ _ _ _ _ H6]. destruct (H6 id s Hst) as (_ & T2 & _).
  by destruct (T2 Ha') as [-> | ->].
Qed.

(** ** The answer and the job agree *)

Lemma append_returns now id input (l : list Job) : (appendEvent now id input l).2 = map_get id (appendEvent now id input l).1.
Proof.
  unfold appendEvent. destruct (map_get id l) as [j|] eqn:E; [|done]. cbn [fst snd]. apply map_get_Some in E as [_ E].
  rewrite map_set_get. cbn. by rewrite E, decide_True.
Qed.
Lemma transition_returns now id to patch (l : list Job) : (transition_job now id to patch l).2 = map_get id (transition_job now id to patch l).1.
Proof.
  unfold transition_job. destruct (map_get id l) as [j|] eqn:E; [|done]. apply map_get_Some in E as E'. destruct E' as [_ E'].
  unfold transitionJob. destruct (canTransitionJob (rj_status j) to); cbn [negb fst snd]; [|done].
  rewrite map_set_get. cbn. by rewrite E', decide_True.
Qed.
Lemma prefix_lower p s : String.prefix p s = true -> String.prefix (to_lower p) (to_lower s) = true.
Proof.
  revert s. induction p as [|a p IH]; intros s H; [by destruct s|]. destruct s as [|b s]; [done|]. cbn in *.
  destruct (ascii_dec a b) as [->|]; [|done]. destruct (ascii_dec (lower_char b) (lower_char b)); [by apply IH|congruence].
Qed.
Lemma includes_lower s p : includes s p = true -> includes (to_lower s) (to_lower p) = true.
Proof.
  induction s as [|c s IH]; cbn [includes to_lower]; intros H; apply orb_true_iff in H as [H|H].
  - apply prefix_lower in H. cbn [to_lower] in H. by rewrite H.
  - done.
  - apply prefix_lower in H. cbn [to_lower] in H. by rewrite H.
  - rewrite (IH H). apply orb_true_r.
Qed.
(** Past the classification a failure that is no mismatch is a bad gateway. *)
Lemma failure_status_502 i f :
  classifyReplayFailure i = Some f -> fin_environmentMismatch i = false -> fin_bundleMissing i = false ->
  fin_runnerMissing i = false -> fail_reason f <> reason_mismatch ->
  fin_timedOut i = false -> replayFailureStatus (default ""%string (fin_stderr i)) = 502.
Proof.
  unfold classifyReplayFailure. intros H E1 E2 E3 Hne E4. rewrite E1, E2, E3, E4 in H. unfold replayFailureStatus.
  destruct (mentions_mismatch _) eqn:Em; [injection H as <-; done|].
  destruct (includes _ "replay mismatch:") eqn:E; [|done]. apply includes_lower in E. unfold mentions_mismatch in Em.
  apply orb_false_iff in Em as [Em _]. change (to_lower "replay mismatch:") with "replay mismatch:"%string in E. congruence.
Qed.
Definition succeeds (cli : ReplayInvocationResult) : Prop :=
  ri_exitCode cli = 0 /\ mentions_mismatch (ri_stderr cli) = false /\
  ri_errorCode cli <> Some "ENOENT"%string /\ ri_errorCode cli <> Some "ENOTDIR"%string.

(** C24. When the process of a host replay has ended, the job leaves the running state and
    the answer says how: its status is the one the registry keeps, it is 200 exactly for a
    job that succeeded, 409 exactly for one that did not reproduce the crash and 502 or
    503 for one that failed; and a replay succeeds exactly when the process exited with
    zero, was found, and did not report a mismatch. *)
Theorem host_answer_agrees clock cli durationMs h l :
  status_of (hr_jobId h) l = Some rj_running ->
  exists status body, (cli_finished clock cli durationMs h l).2 = rp_job status body /\
    rb_jobId body = hr_jobId h /\ rb_cli body = cli /\
    status_of (hr_jobId h) (cli_finished clock cli durationMs h l).1 = Some (rb_status body) /\
    ((status = 200 /\ rb_ok body = true /\ rb_status body = rj_succeeded /\ succeeds cli) \/
     (status = 409 /\ rb_ok body = false /\ rb_status body = rj_mismatch /\ ~ succeeds cli) \/
     ((status = 502 \/ status = 503) /\ rb_ok body = false /\ rb_status body = rj_failed /\ ~ succeeds cli)).
Proof.
  intros Hst. unfold cli_finished. set (id := hr_jobId h) in *.
  set (input := mkFailureInput _ _ _ _ _ _). destruct (classifyReplayFailure input) as [failure|] eqn:Ec.
  - set (to := match fail_reason failure with reason_mismatch => rj_mismatch | _ => rj_failed end).
    assert (Hto : canTransitionJob rj_running to = true) by (unfold to; by destruct (fail_reason failure)).
    set (l1 := (appendEvent (iso clock 0) id _ l).1). set (patch := mkPatch (Some failure) None None).
    pose proof (transition_status (iso clock 1) id to patch l1 id) as H3. rewrite decide_True in H3 by done.
    pose proof (transition_returns (iso clock 1) id to patch l1) as H4.
    destruct (transition_job (iso clock 1) id to patch l1) as [l2 finished]. cbn [fst snd] in *. subst finished.
    unfold l1 in H3. rewrite append_status, Hst in H3. cbn [fmap option_fmap option_map] in H3. rewrite Hto in H3.
    assert (Eor : status_or to (map_get id l2) = to).
    { unfold status_of in H3. destruct (map_get id l2); [|done]. by injection H3. }
    assert (Hno : ~ succeeds cli).
    { intros (S1 & S2 & S3 & S4). unfold input, classifyReplayFailure in Ec.
      cbn [fin_environmentMismatch fin_bundleMissing fin_runnerMissing fin_timedOut fin_stderr fin_exitCode default from_option] in Ec.
      rewrite bool_decide_eq_false_2 in Ec by tauto. cbn in Ec. rewrite S2, S1 in Ec. done. }
    eexists _, _. split; [reflexivity|]. cbn [rb_jobId rb_cli rb_status rb_ok]. rewrite Eor. split; [done|]. split; [done|].
    split; [exact H3|]. right. unfold to in *.
    assert (H502 : fail_reason failure <> reason_mismatch -> fail_reason failure <> runner_unavailable ->
              replayFailureStatus (ri_stderr cli) = 502).
    { intros N1 N2. unfold input, classifyReplayFailure in Ec.
      cbn [fin_environmentMismatch fin_bundleMissing fin_runnerMissing fin_timedOut] in Ec.
      destruct (bool_decide _) eqn:Eb; [injection Ec as <-; done|].
      apply (failure_status_502 (mkFailureInput false false false false (Some (ri_stderr cli)) (Some (ri_exitCode cli))) failure); done. }
    destruct (fail_reason failure) eqn:Er; try (right; split; [left; by apply H502|done]).
    + right. split; [by right|done].
    + by left.
  - assert (Hs : succeeds cli).
    { unfold input, classifyReplayFailure in Ec.
      cbn [fin_environmentMismatch fin_bundleMissing fin_runnerMissing fin_timedOut fin_stderr fin_exitCode default from_option] in Ec.
      destruct (bool_decide (ri_errorCode cli = Some "ENOENT"%string \/ ri_errorCode cli = Some "ENOTDIR"%string)) eqn:Eb; [done|].
      apply bool_decide_eq_false in Eb. unfold Datatypes.id in Ec. cbv beta zeta in Ec.
      destruct (mentions_mismatch (ri_stderr cli)) eqn:Em; [done|]. destruct (ri_exitCode cli =? 0) eqn:E0; [|done].
      split; [by apply Z.eqb_eq|]. tauto. }
    set (patch := mkPatch None _ None). set (l1 := (transition_job (iso clock 1) id rj_succeeded patch _).1).
    assert (H1 : status_of id l1 = Some rj_succeeded).
    { unfold l1. rewrite transition_status, decide_True, append_status, Hst by done. done. }
    pose proof (append_status (iso clock 2) id (event ph_done "Replay complete." 100 None) l1 id) as H2.
    pose proof (append_returns (iso clock 2) id (event ph_done "Replay complete." 100 None) l1) as H4.
    destruct (appendEvent (iso clock 2) id _ l1) as [l2 finished]. cbn [fst snd] in *. subst finished. rewrite H1 in H2.
    assert (Eor : status_or rj_succeeded (map_get id l2) = rj_succeeded).
    { unfold status_of in H2. destruct (map_get id l2); [|done]. by injection H2. }
    eexists _, _. split; [reflexivity|]. cbn [rb_jobId rb_cli rb_status rb_ok]. rewrite Eor. split; [done|]. split; [done|].
    split; [exact H2|]. by left.
Qed.

(** ** Examples *)

Definition sample_replay_run : ReplayRun := mkReplayRun "run-7" 3 (Some (mkReplayCrash "panic:auth" "ab")) None.
Definition sample_clock (i : nat) : Z := 1700000000000 + Z.of_nat i.
Definition sample_start (runner : ReplayRunner) (jobs : list Job) : list Job * Started :=
  POST_replay sample_clock "run-7" "0001" "abcdef0123" (Ok (mkOptions runner None false "ada")) (Ok (Some sample_replay_run)) jobs.
Definition sample_host : HostReplay :=
  match (sample_start run_host []).2 with st_suspended h => h | st_answered _ => mkHost "" sample_replay_run "" (compareReplayEnvironments None None false) "" None end.
Definition sample_id : string := cat ["replay-job-"%string; "0001"%string].
Definition sample_replays : RunnerWorld := mkRunnerWorld ({[ sample_id ]} ∪ ∅) (sample_start run_host []).1 [sample_host] [] ∅.
Definition sample_abandoned : RunnerWorld :=
  mkRunnerWorld (pw_used sample_replays) (pw_jobs sample_replays) [] [] ({[ hr_jobId sample_host ]} ∪ ∅).
Definition sample_cli (exitCode : Z) (stderr : string) : ReplayInvocationResult := mkInvocation "cargo" [] "" stderr exitCode None.
Definition answer_of (r : ReplayResponse) : Z * option ReplayJobStatus :=
  match r with
  | rp_error status _ => (status, None)
  | rp_mismatch _ => (409, None)
  | rp_job status body => (status, Some (rb_status body))
  end.
Example replay_examples :
  (match (sample_start run_mock []).2 with st_answered r => answer_of r | _ => (0, None) end) = (200, Some rj_succeeded) /\
  (match (sample_start run_rpc_sim []).2 with st_answered r => answer_of r | _ => (0, None) end) = (503, Some rj_failed) /\
  answer_of (cli_finished sample_clock (sample_cli 0 "") 5 sample_host (pw_jobs sample_replays)).2 = (200, Some rj_succeeded) /\
  answer_of (cli_finished sample_clock (sample_cli 2 "boom") 5 sample_host (pw_jobs sample_replays)).2 = (502, Some rj_failed) /\
  answer_of (cli_finished sample_clock (sample_cli 1 "replay mismatch: x") 5 sample_host (pw_jobs sample_replays)).2 = (409, Some rj_mismatch).
Proof. vm_compute. done. Qed.
Lemma sample_started : rtc runner_step empty_replays sample_replays.
Proof.
  apply rtc_once. apply (rs_suspended sample_clock "run-7" "0001" "abcdef0123" (Ok (mkOptions run_host None false "ada")) (Ok (Some sample_replay_run))).
  - apply not_elem_of_empty.
  - vm_compute. done.
Qed.
Lemma sample_cut_off : rtc runner_step empty_replays sample_abandoned.
Proof. eapply rtc_r; [exact sample_started|]. by apply (rs_not_written sample_replays sample_host [] []). Qed.
Lemma no_replay_left_running_witness :
  exists j, j ∈ pw_jobs sample_replays /\ rj_status j = rj_running /\
    (isTerminalJobStatus (rj_status j) = true \/
     (rj_status j = rj_running /\ rj_id j ∈ inflight sample_replays /\ rj_id j ∉ pw_abandoned sample_replays) \/
     ((rj_status j = rj_queued \/ rj_status j = rj_running) /\ rj_id j ∈ pw_abandoned sample_replays /\ rj_id j ∉ inflight sample_replays)).
Proof.
  destruct (pw_jobs sample_replays) as [|j l] eqn:E; [vm_compute in E; done|].
  assert (Hj : j ∈ pw_jobs sample_replays) by (rewrite E; left).
  exists j. split; [left|]. split; [vm_compute in E; injection E as <- _; reflexivity|].
  apply (no_replay_left_running sample_replays j sample_started Hj).
Defined.
Lemma abandoned_never_ends_witness :
  rtc runner_step empty_replays sample_abandoned /\ status_of (hr_jobId sample_host) (pw_jobs sample_abandoned) = Some rj_running /\
  isTerminalJobStatus rj_running = false.
Proof.
  assert (Hst : status_of (hr_jobId sample_host) (pw_jobs sample_abandoned) = Some rj_running) by (vm_compute; done).
  split; [exact sample_cut_off|]. split; [exact Hst|].
  apply (abandoned_never_ends sample_abandoned sample_abandoned (hr_jobId sample_host) rj_running sample_cut_off (rtc_refl _ _)); [|exact Hst].
  apply elem_of_union_l, elem_of_singleton. done.
Defined.
Lemma host_answer_agrees_witness :
  status_of (hr_jobId sample_host) (pw_jobs sample_replays) = Some rj_running /\
  exists status body, (cli_finished sample_clock (sample_cli 0 "") 5 sample_host (pw_jobs sample_replays)).2 = rp_job status body /\
    rb_jobId body = hr_jobId sample_host /\ rb_cli body = sample_cli 0 "" /\
    status_of (hr_jobId sample_host) (cli_finished sample_clock (sample_cli 0 "") 5 sample_host (pw_jobs sample_replays)).1 = Some (rb_status body) /\
    ((status = 200 /\ rb_ok body = true /\ rb_status body = rj_succeeded /\ succeeds (sample_cli 0 "")) \/
     (status = 409 /\ rb_ok body = false /\ rb_status body = rj_mismatch /\ ~ succeeds (sample_cli 0 "")) \/
     ((status = 502 \/ status = 503) /\ rb_ok body = false /\ rb_status body = rj_failed /\ ~ succeeds (sample_cli 0 ""))).
Proof.
  assert (Hst : status_of (hr_jobId sample_host) (pw_jobs sample_replays) = Some rj_running) by (vm_compute; done).
  split; [exact Hst|]. exact (host_answer_agrees sample_clock (sample_cli 0 "") 5 sample_host (pw_jobs sample_replays) Hst).
Defined.
