(* ===== verification/BodyLimit.v ===== *)
(** [lib/request-size-limits.ts]: what a request body may weigh, checked on the declared
    length and again on the stream, which also has deadlines.

    The client is a list of pulls: how long the route waits before each, and what arrives
    how long after it, or nothing.  Cancelling the request stream succeeds at once; an
    arrival at the very instant of a timer comes too late. *)

From S2P Require Import Prelude JsString CronParser RateLimit.
From stdpp Require Import base list sets fin_sets gmap strings numbers sorting.
From Stdlib Require Import ZArith Lia Ascii.
#[local] Open Scope Z_scope.

(** ** Limits *)

Record RequestSizeLimits : Type := mkLimits { maxBodySize : Z; maxJsonSize : Z; maxFormDataSize : Z }.
Record RequestSizeLimitConfig : Type := mkSizeConfig
  { cf_maxBodySize : option Z; cf_maxJsonSize : option Z; cf_maxFormDataSize : option Z }.
(** Without the variables of the environment. *)
Definition DEFAULT_CONFIG : RequestSizeLimits := mkLimits 10485760 1048576 1048576.
Definition UPLOAD_BODY_LIMIT : Z := 20 * 1024 * 1024.
Definition ROUTE_LIMIT_OVERRIDES : list (string * RequestSizeLimitConfig) :=
  [("/api/artifacts", mkSizeConfig (Some UPLOAD_BODY_LIMIT) None (Some UPLOAD_BODY_LIMIT));
   ("/api/uploadthing", mkSizeConfig (Some UPLOAD_BODY_LIMIT) None (Some UPLOAD_BODY_LIMIT))]%string.
Definition BODY_IDLE_TIMEOUT_MS : Z := 10000.
Definition BODY_TOTAL_TIMEOUT_MS : Z := 60000.
Inductive BodyLimitFailure : Type := fail_too_large | fail_idle_timeout | fail_deadline.

(** A request: the headers the limits read, its method and the path of its URL. *)
Record SizedRequest : Type := mkSized
  { sq_contentType : option string; sq_contentLength : option string; sq_method : string; sq_path : string; sq_hasBody : bool }.
Inductive LimitResponse : Type :=
  | payload_too_large (limit actual : option Z)
  | body_timeout.

Section Limits.
Context (defaults : RequestSizeLimits).

Definition effectiveRequestBodyLimit (rq : SizedRequest) (config : RequestSizeLimitConfig) : Z :=
  let contentType := to_lower (default ""%string (sq_contentType rq)) in
  let maxBody := default (maxBodySize defaults) (cf_maxBodySize config) in
  if includes contentType "application/json" then Z.min maxBody (default (maxJsonSize defaults) (cf_maxJsonSize config))
  else if includes contentType "multipart/form-data" then Z.min maxBody (default (maxFormDataSize defaults) (cf_maxFormDataSize config))
  else maxBody.
Definition or_config (a b : option Z) : option Z := match a with Some _ => a | None => b end.
Definition requestSizeConfigFor (rq : SizedRequest) : RequestSizeLimitConfig :=
  let base := mkSizeConfig (Some (maxBodySize defaults)) (Some (maxJsonSize defaults)) (Some (maxFormDataSize defaults)) in
  match List.find (fun entry => bool_decide (sq_path rq = entry.1) || startsWith (sq_path rq) (cat [entry.1; "/"]%string)) ROUTE_LIMIT_OVERRIDES with
  | Some (_, o) => mkSizeConfig (or_config (cf_maxBodySize o) (cf_maxBodySize base)) (or_config (cf_maxJsonSize o) (cf_maxJsonSize base))
                     (or_config (cf_maxFormDataSize o) (cf_maxFormDataSize base))
  | None => base
  end.
Definition checkRequestSize (rq : SizedRequest) (config : RequestSizeLimitConfig) : option LimitResponse :=
  match truthy (sq_contentLength rq) ≫= parse_int with
  | None => None
  | Some size =>
      let contentType := default ""%string (sq_contentType rq) in
      let maxBody := default (maxBodySize defaults) (cf_maxBodySize config) in
      let maxJson := Z.min maxBody (default (maxJsonSize defaults) (cf_maxJsonSize config)) in
      let maxFormData := Z.min maxBody (default (maxFormDataSize defaults) (cf_maxFormDataSize config)) in
      if maxBody <? size then Some (payload_too_large (Some maxBody) (Some size))
      else if includes contentType "application/json" && (maxJson <? size) then Some (payload_too_large (Some maxJson) (Some size))
      else if includes contentType "multipart/form-data" && (maxFormData <? size) then Some (payload_too_large (Some maxFormData) (Some size))
      else None
  end.
End Limits.
Definition requestBodyFailureResponse (failure : option BodyLimitFailure) (limit : option Z) : option LimitResponse :=
  match failure with
  | Some fail_too_large => Some (payload_too_large limit None)
  | Some _ => Some body_timeout
  | None => None
  end.

(** ** The bounded stream *)

Inductive Arrival : Type := arr_chunk (bytes : list Z) | arr_done | arr_error (message : string).
Inductive BodyError : Type := limit_error (limit : Z) | timeout_error (reason : BodyLimitFailure) | source_error (message : string).
Inductive StreamState : Type := stream_open | stream_closed | stream_errored (e : BodyError).
Record BodyStream : Type := mkBodyStream
  { by_consumed : Z; by_failed : option BodyLimitFailure; by_forwarded : list (list Z); by_state : StreamState }.
Definition new_body : BodyStream := mkBodyStream 0 None [] stream_open.
Definition byte_total (chunks : list (list Z)) : Z := Z.of_nat (length (concat chunks)).

Section Stream.
Context (limit startedAt : Z).

Definition fail_body (consumed : Z) (failed : option BodyLimitFailure) (e : BodyError) (s : BodyStream) : BodyStream :=
  mkBodyStream consumed failed (by_forwarded s) (stream_errored e).
(** [pull] at [now]: what the request stream gives [after] so long, or nothing. *)
Definition pull (now : Z) (arrival : option (Z * Arrival)) (s : BodyStream) : Z * BodyStream :=
  let remainingMs := BODY_TOTAL_TIMEOUT_MS - (now - startedAt) in
  if remainingMs <=? 0 then (now, fail_body (by_consumed s) (Some fail_deadline) (timeout_error fail_deadline) s)
  else
    let wait := Z.min BODY_IDLE_TIMEOUT_MS remainingMs in
    let timed_out :=
      let reason := if remainingMs <? BODY_IDLE_TIMEOUT_MS then fail_deadline else fail_idle_timeout in
      (now + wait, fail_body (by_consumed s) (Some reason) (timeout_error reason) s) in
    match arrival with
    | None => timed_out
    | Some (after, item) =>
        let after := Z.max 0 after in
        if wait <=? after then timed_out
        else
          (now + after,
           match item with
           | arr_done => mkBodyStream (by_consumed s) (by_failed s) (by_forwarded s) stream_closed
           | arr_error m => fail_body (by_consumed s) (by_failed s) (source_error m) s
           | arr_chunk bytes =>
               let consumed := by_consumed s + Z.of_nat (length bytes) in
               if limit <? consumed then fail_body consumed (Some fail_too_large) (limit_error limit) s
               else mkBodyStream consumed (by_failed s) (by_forwarded s ++ [bytes]) (by_state s)
           end)
    end.
(** The route reads on while the stream is open. *)
Fixpoint read_body (now : Z) (pulls : list (Z * option (Z * Arrival))) (s : BodyStream) : Z * BodyStream :=
  match by_state s, pulls with
  | stream_open, (gap, arrival) :: rest => let '(now', s') := pull (now + Z.max 0 gap) arrival s in read_body now' rest s'
  | _, _ => (now, s)
  end.
End Stream.
(** [limitRequestBody]: no stream is put in front of a request without a body. *)
Definition limitRequestBody (defaults : RequestSizeLimits) (rq : SizedRequest) (config : RequestSizeLimitConfig) : option Z :=
  if negb (sq_hasBody rq) || bool_decide (to_upper (sq_method rq) ∈ ["GET"; "HEAD"]%string) then None
  else Some (effectiveRequestBodyLimit defaults rq config).

Definition sized (contentType : string) (contentLength : string) (path : string) : SizedRequest :=
  mkSized (Some contentType) (Some contentLength) "POST" path true.
Example limit_examples :
  checkRequestSize DEFAULT_CONFIG (sized "application/json" "2000000" "/api/runs") (requestSizeConfigFor DEFAULT_CONFIG (sized "" "" "/api/runs"))
  = Some (payload_too_large (Some 1048576) (Some 2000000)) /\
  limitRequestBody DEFAULT_CONFIG (sized "multipart/form-data" "1" "/api/artifacts/x")
    (requestSizeConfigFor DEFAULT_CONFIG (sized "" "" "/api/artifacts/x")) = Some 20971520 /\
  (read_body 4 0 0 [(0, Some (5, arr_chunk [1; 2])); (0, Some (1, arr_chunk [3; 4; 5]))] new_body).2
  = mkBodyStream 5 (Some fail_too_large) [[1; 2]] (stream_errored (limit_error 4)) /\
  read_body 4 0 0 [(0, Some (5, arr_chunk [1; 2])); (55000, None)] new_body
  = (60000, mkBodyStream 2 (Some fail_deadline) [[1; 2]] (stream_errored (timeout_error fail_deadline))).
Proof. vm_compute. done. Qed.

(** ** The declared length *)

(** For a content type in lower case that names one format the declared length is
    refused exactly above the limit of the stream. *)
Lemma declared_length_checked defaults rq config n :
  to_lower (default ""%string (sq_contentType rq)) = default ""%string (sq_contentType rq) ->
  includes (default ""%string (sq_contentType rq)) "application/json" && includes (default ""%string (sq_contentType rq)) "multipart/form-data" = false ->
  truthy (sq_contentLength rq) ≫= parse_int = Some n ->
  checkRequestSize defaults rq config = None <-> n <= effectiveRequestBodyLimit defaults rq config.
Proof.
  intros Hl Hb Hn. unfold checkRequestSize, effectiveRequestBodyLimit. rewrite Hn, Hl. cbv zeta.
  set (b := default (maxBodySize defaults) _). set (j := default (maxJsonSize defaults) _). set (f := default (maxFormDataSize defaults) _).
  destruct (includes _ "application/json"), (includes _ "multipart/form-data"); try done; cbn [andb];
    destruct (b <? n) eqn:E1; try destruct (Z.min b j <? n) eqn:E2; try destruct (Z.min b f <? n) eqn:E3; bools; split; intros; try done; lia.
Qed.
(** The check of the declared length compares the content type as it was sent, the stream
    in lower case. *)
Lemma declared_check_case_sensitive :
  let rq := sized "Application/JSON" "5000000" "/api/runs" in
  let config := requestSizeConfigFor DEFAULT_CONFIG rq in
  checkRequestSize DEFAULT_CONFIG rq config = None /\ limitRequestBody DEFAULT_CONFIG rq config = Some 1048576.
Proof. vm_compute. done. Qed.

(** ** The stream keeps its budget *)

(** The chunks that arrive, in order. *)
Definition sent (pulls : list (Z * option (Z * Arrival))) : list (list Z) :=
  omap (fun p => match p.2 with Some (_, arr_chunk bytes) => Some bytes | _ => None end) pulls.
Lemma byte_total_snoc l c : byte_total (l ++ [c]) = byte_total l + Z.of_nat (length c).
Proof. unfold byte_total. rewrite concat_app, length_app. cbn. rewrite app_nil_r. lia. Qed.

Section Kept.
Context (limit startedAt : Z).
(** A stream that is still open has forwarded what it consumed. *)
Definition open_ok (s : BodyStream) : Prop :=
  by_state s = stream_open /\ by_failed s = None /\ by_consumed s = byte_total (by_forwarded s) /\ by_consumed s <= limit.
(** What the end of a stream tells: [next] has not been pulled yet. *)
Definition ended_ok (now : Z) (s : BodyStream) (next : list (list Z)) : Prop :=
  byte_total (by_forwarded s) <= limit /\
  match by_failed s with
  | None => match by_state s with stream_errored (source_error _) | stream_closed => True | _ => False end
  | Some fail_too_large =>
      by_state s = stream_errored (limit_error limit) /\
      exists chunk rest, next = chunk :: rest /\ limit < byte_total (by_forwarded s ++ [chunk])
  | Some fail_deadline => by_state s = stream_errored (timeout_error fail_deadline) /\ startedAt + BODY_TOTAL_TIMEOUT_MS <= now
  | Some fail_idle_timeout => by_state s = stream_errored (timeout_error fail_idle_timeout) /\ BODY_IDLE_TIMEOUT_MS <= now - startedAt
  end.
Lemma pull_spec now arrival s :
  startedAt <= now -> open_ok s ->
  let '(now', s') := pull limit startedAt now arrival s in
  now <= now' <= Z.max now (Z.min (now + BODY_IDLE_TIMEOUT_MS) (startedAt + BODY_TOTAL_TIMEOUT_MS)) /\
  (by_failed s' = None -> now' < startedAt + BODY_TOTAL_TIMEOUT_MS) /\
  ((open_ok s' /\ exists after bytes, arrival = Some (after, arr_chunk bytes) /\ by_forwarded s' = by_forwarded s ++ [bytes]) \/
   (by_state s' <> stream_open /\ by_forwarded s' = by_forwarded s /\
    forall later, ended_ok now' s' (match arrival with Some (_, arr_chunk bytes) => bytes :: later | _ => later end))).
Proof.
  intros Hnow (Hs & Hf & Hc & Hl). unfold pull, BODY_TOTAL_TIMEOUT_MS, BODY_IDLE_TIMEOUT_MS in *.
  assert (Hfw : byte_total (by_forwarded s) <= limit) by lia.
  destruct (60000 - (now - startedAt) <=? 0) eqn:E0; bools.
  { split; [lia|]. split; [done|]. right. split_and!; try done. intros later. split; [done|]. cbn. unfold BODY_TOTAL_TIMEOUT_MS. split; [done|lia]. }
  set (wait := Z.min 10000 (60000 - (now - startedAt))).
  set (reason := if 60000 - (now - startedAt) <? 10000 then fail_deadline else fail_idle_timeout).
  assert (Hto : forall next, ended_ok (now + wait) (fail_body (by_consumed s) (Some reason) (timeout_error reason) s) next).
  { intros next. split; [done|]. unfold reason, wait. destruct (_ <? 10000) eqn:E1; cbn; bools;
      unfold BODY_TOTAL_TIMEOUT_MS, BODY_IDLE_TIMEOUT_MS; (split; [done|lia]). }
  destruct arrival as [[after item]|]; [|split; [lia|]; split; [done|]; right; by split_and!].
  destruct (wait <=? Z.max 0 after) eqn:E1; bools; [split; [lia|]; split; [done|]; right; by split_and!|]. split; [lia|]. split; [lia|].
  destruct item as [bytes| |m].
  - destruct (limit <? by_consumed s + Z.of_nat (length bytes)) eqn:E2; bools.
    + right. split_and!; try done. intros later. split; [done|]. cbn. split; [done|]. exists bytes, later.
      split; [done|]. rewrite byte_total_snoc. lia.
    + left. split; [|by exists after, bytes]. split; [done|]. split; [done|]. cbn. rewrite byte_total_snoc. lia.
  - right. split_and!; try done. intros later. split; [done|]. cbn. by rewrite Hf.
  - right. split_and!; try done. intros later. split; [done|]. cbn. by rewrite Hf.
Qed.
Lemma read_body_spec pulls now s :
  startedAt <= now -> open_ok s ->
  let '(now', s') := read_body limit startedAt now pulls s in
  exists taken later, sent pulls = taken ++ later /\ by_forwarded s' = by_forwarded s ++ taken /\ startedAt <= now' /\
    (by_failed s' = None -> pulls = [] \/ now' < startedAt + BODY_TOTAL_TIMEOUT_MS) /\
    ((open_ok s' /\ later = []) \/ (by_state s' <> stream_open /\ ended_ok now' s' later)).
Proof.
  revert now s. induction pulls as [|[gap arrival] pulls IH]; intros now s Hnow Hs; cbn [read_body]; rewrite (proj1 Hs).
  - exists [], []. split; [done|]. split; [by rewrite app_nil_r|]. split; [done|]. split; [by left|]. by left.
  - assert (Hg : startedAt <= now + Z.max 0 gap) by lia. pose proof (pull_spec _ arrival s Hg Hs) as Hp.
    destruct (pull limit startedAt (now + Z.max 0 gap) arrival s) as [t s1].
    destruct Hp as (Ht & Hin & [[Hopen (after & bytes & -> & Hfw)]|(Hend & Hfw & Hok)]).
    + assert (H1 : startedAt <= t) by lia.
      assert (Hnil : pulls = [] -> read_body limit startedAt t pulls s1 = (t, s1)) by (intros ->; cbn; by destruct (by_state s1)).
      specialize (IH t s1 H1 Hopen).
      destruct (read_body limit startedAt t pulls s1) as [t2 s2]. destruct IH as (taken & later & E & Hf & Ht2 & Htime & Hcase).
      exists (bytes :: taken), later. split; [unfold sent in *; rewrite omap_step; cbn; by rewrite E|].
      split; [by rewrite Hf, Hfw, <- app_assoc|]. split; [done|]. split; [|done]. intros Hno. right.
      destruct (Htime Hno) as [Hp|]; [|done]. injection (Hnil Hp) as -> ->. by apply Hin.
    + assert (Hstop : read_body limit startedAt t pulls s1 = (t, s1)) by (destruct pulls; cbn; destruct (by_state s1); done).
      rewrite Hstop. exists [], (sent ((gap, arrival) :: pulls)). split; [done|]. split; [by rewrite app_nil_r|]. split; [lia|].
      split; [by intros Hno; right; apply Hin|]. right. split; [done|]. unfold sent. rewrite omap_step. specialize (Hok (sent pulls)). unfold sent in Hok.
      by destruct arrival as [[after [bytes| |m]]|].
Qed.

End Kept.
