(* ===== verification/UploadGate.v ===== *)
(** [lib/upload-validation.ts], [lib/artifact-ingestion.ts] and the record
    [app/api/uploadthing/core.ts] writes: what an uploaded file must be to become an
    artifact.

    The WASM parser is that of [WasmWalker], which does not always return: a verdict is
    [None] when the gate never answers.  A message is kept as the data it shows. *)

From S2P Require Import Prelude JsDate JsString JsNumber JsValue CronParser WasmReader WasmWalker AuditLog SecretRedaction BodyLimit.
From stdpp Require Import base list sets fin_sets gmap strings numbers sorting.
From Stdlib Require Import ZArith Lia Ascii.
#[local] Open Scope Z_scope.

(** ** Classes *)

Inductive ArtifactClass : Type := class_wasm | class_bundle | class_seed | class_log | class_trace.
#[export] Instance ArtifactClass_eq : EqDecision ArtifactClass.
Proof. solve_decision. Defined.
Definition ARTIFACT_CLASSES : list ArtifactClass := [class_wasm; class_bundle; class_seed; class_log; class_trace].
Definition class_name (c : ArtifactClass) : string :=
  match c with
  | class_wasm => "wasm" | class_bundle => "bundle" | class_seed => "seed" | class_log => "log" | class_trace => "trace"
  end.
Definition UPLOAD_RATE_LIMIT_CLASS : string := "upload-ingestion".
Inductive ContentKind : Type := kind_wasm | kind_json | kind_text.
Record ArtifactClassRule : Type := mkRule
  { ru_extensions : list string; ru_mimeTypes : list string; ru_maxBytes : Z; ru_content : ContentKind }.
Definition JSON_MIME : list string := ["application/json"; "text/json"; "application/octet-stream"; ""]%string.
Definition TEXT_MIME : list string :=
  ["text/plain"; "application/x-ndjson"; "application/jsonl"; "application/octet-stream"; ""]%string.
Definition ARTIFACT_CLASS_RULES (limits : RequestSizeLimits) (c : ArtifactClass) : ArtifactClassRule :=
  match c with
  | class_wasm => mkRule [".wasm"%string] ["application/wasm"; "application/octet-stream"; ""]%string MAX_MODULE_SIZE kind_wasm
  | class_bundle | class_seed => mkRule [".json"%string] JSON_MIME (maxJsonSize limits) kind_json
  | class_log => mkRule [".log"; ".txt"]%string TEXT_MIME (maxBodySize limits) kind_text
  | class_trace => mkRule [".jsonl"; ".log"; ".txt"]%string TEXT_MIME (maxBodySize limits) kind_text
  end.
Definition MAX_UPLOAD_BYTES (limits : RequestSizeLimits) : Z :=
  foldr Z.max 0 ((fun c => ru_maxBytes (ARTIFACT_CLASS_RULES limits c)) <$> ARTIFACT_CLASSES).

Inductive UploadRejectionReason : Type :=
  | unknown_class | extension_not_allowed | mime_not_allowed | empty_file | too_large | bad_magic | polyglot
  | sensitive_content | malformed.
#[export] Instance UploadRejectionReason_eq : EqDecision UploadRejectionReason.
Proof. solve_decision. Defined.
Definition reason_name (r : UploadRejectionReason) : string :=
  match r with
  | unknown_class => "unknown-class" | extension_not_allowed => "extension-not-allowed"
  | mime_not_allowed => "mime-not-allowed" | empty_file => "empty" | too_large => "too-large" | bad_magic => "bad-magic"
  | polyglot => "polyglot" | sensitive_content => "sensitive-content" | malformed => "malformed"
  end.
Inductive RejectionMessage : Type :=
  | msg_class_not_accepted (declared : string) | msg_cannot_infer (name : string)
  | msg_extension (c : ArtifactClass) (ext : string) | msg_mime (c : ArtifactClass) (type : string)
  | msg_empty | msg_too_large (c : ArtifactClass) (maxBytes size : Z)
  | msg_not_wasm | msg_malformed_wasm (e : WasmError)
  | msg_signature (c : ArtifactClass) (format : string) | msg_not_text (c : ArtifactClass) | msg_active (c : ArtifactClass)
  | msg_not_json (c : ArtifactClass) | msg_invalid_json
  | msg_no_file | msg_secret | msg_http (status : Z) | msg_unreadable (why : string).
Definition UploadValidation : Type := result (UploadRejectionReason * RejectionMessage) ArtifactClass.
Record DeclaredUpload : Type := mkDeclared { du_name : string; du_size : Z; du_type : string }.

(** What follows the last slash or backslash. *)
Fixpoint base_name (s : string) : string :=
  match s with
  | EmptyString => EmptyString
  | String c s' =>
      if existsb (fun c => (code c =? 47) || (code c =? 92)) (String.list_ascii_of_string s) then base_name s' else s
  end.
(** [s.slice(s.lastIndexOf(c))]. *)
Fixpoint from_last (c : ascii) (s : string) : option string :=
  match s with
  | EmptyString => None
  | String a s' => match from_last c s' with
                   | Some r => Some r
                   | None => if decide (a = c) then Some s else None
                   end
  end.
Definition extensionOf (name : string) : string :=
  let base := base_name (to_lower name) in
  match from_last "."%char base with
  | Some ext => if decide (ext = base) then ""%string else ext
  | None => ""%string
  end.
Definition isArtifactClass (value : string) : option ArtifactClass :=
  List.find (fun c => bool_decide (class_name c = value)) ARTIFACT_CLASSES.
Definition allows_extension (limits : RequestSizeLimits) (c : ArtifactClass) (ext : string) : bool :=
  bool_decide (ext ∈ ru_extensions (ARTIFACT_CLASS_RULES limits c)).
Definition resolveArtifactClass (limits : RequestSizeLimits) (declared : option string) (fileName : string) : option ArtifactClass :=
  match declared with
  | Some d => isArtifactClass d
  | None => List.find (fun c => allows_extension limits c (extensionOf fileName)) ARTIFACT_CLASSES
  end.
Definition checkSize (limits : RequestSizeLimits) (c : ArtifactClass) (size : Z) : UploadValidation :=
  let maxBytes := ru_maxBytes (ARTIFACT_CLASS_RULES limits c) in
  if size <=? 0 then Err (empty_file, msg_empty)
  else if maxBytes <? size then Err (too_large, msg_too_large c maxBytes size)
  else Ok c.
Definition validateDeclaredUpload (limits : RequestSizeLimits) (file : DeclaredUpload) (declaredClass : option string) : UploadValidation :=
  match resolveArtifactClass limits declaredClass (du_name file) with
  | None => Err (unknown_class, match truthy declaredClass with
                                | Some d => msg_class_not_accepted d
                                | None => msg_cannot_infer (du_name file)
                                end)
  | Some c =>
      let rule := ARTIFACT_CLASS_RULES limits c in
      let ext := extensionOf (du_name file) in
      if negb (allows_extension limits c ext) then Err (extension_not_allowed, msg_extension c ext)
      else
        let mime := to_lower (trim (default ""%string (head (split_on ";"%char (du_type file))))) in
        if negb (bool_decide (mime ∈ ru_mimeTypes rule)) then Err (mime_not_allowed, msg_mime c (du_type file))
        else checkSize limits c (du_size file)
  end.

(** ** Contents *)

Definition WASM_MAGIC : list Z := [0; 97; 115; 109].
Definition BINARY_SIGNATURES : list (string * list Z) :=
  [("WebAssembly", WASM_MAGIC); ("ZIP", [80; 75; 3; 4]); ("PDF", [37; 80; 68; 70]); ("ELF", [127; 69; 76; 70]);
   ("PE/DOS", [77; 90]); ("Mach-O", [254; 237; 250; 206]); ("Mach-O 64-bit", [254; 237; 250; 207]);
   ("Mach-O little-endian", [206; 250; 237; 254]); ("Mach-O 64-bit little-endian", [207; 250; 237; 254]);
   ("Java class", [202; 254; 186; 190]); ("PNG", [137; 80; 78; 71]); ("GIF", [71; 73; 70; 56]); ("gzip", [31; 139])]%string.
Fixpoint bytes_start (bytes prefix : list Z) : bool :=
  match prefix, bytes with
  | [], _ => true
  | v :: prefix', b :: bytes' => (b =? v) && bytes_start bytes' prefix'
  | _ :: _, [] => false
  end.
Definition binarySignature (bytes : list Z) : option string :=
  fst <$> List.find (fun signature => bytes_start bytes signature.2) BINARY_SIGNATURES.
(** [/^\uFEFF?\s*(?:<!doctype\s+html\b|<html\b|<svg\b|<script\b)/i]; a byte order mark is
    above the units of the model. *)
Definition then_edge (rest : SignatureNorm.text) : bool := SignatureNorm.word_ends rest.
Definition active_content (s : string) : bool :=
  let t := skip_class is_ws (SignatureNorm.text_of s) in
  let tag name := match strip_ci (SignatureNorm.text_of name) t with Some rest => then_edge rest | None => false end in
  (match strip_ci (SignatureNorm.text_of "<!doctype") t with
   | Some rest => (0 <? length (SignatureNorm.run_of is_ws rest))%nat &&
                  match strip_ci (SignatureNorm.text_of "html") (skip_class is_ws rest) with
                  | Some rest => then_edge rest | None => false end
   | None => false
   end) || tag "<html"%string || tag "<svg"%string || tag "<script"%string.

(** What [fetch] gives: the status and the stream of the body, which may fail after some
    chunks; cancelling it may fail too. *)
Record StoredResponse : Type := mkResponse
  { re_status : Z; re_body : option (list (list Z)); re_error : option string; re_cancel_error : option string }.
(** The reading loop: the chunks taken and their total. *)
Fixpoint read_chunks (maxBytes total : Z) (chunks : list (list Z)) (r : StoredResponse) : result string (list (list Z) * Z) :=
  match chunks with
  | [] => match re_error r with Some e => Err e | None => Ok ([], total) end
  | value :: rest =>
      let total := total + blen value in
      if maxBytes <? total then match re_cancel_error r with Some e => Err e | None => Ok ([value], total) end
      else '(taken, total) ← read_chunks maxBytes total rest r; Ok (value :: taken, total)
  end.
(** The copying loop, into [room] bytes still zero. *)
Fixpoint fill_chunks (room : nat) (chunks : list (list Z)) : list Z :=
  match chunks with
  | [] => repeat 0 room
  | chunk :: rest =>
      let n := Nat.min (length chunk) room in
      take n chunk ++ (if (room - n =? 0)%nat then [] else fill_chunks (room - n) rest)
  end.
Definition readBytesCapped (r : StoredResponse) (maxBytes : Z) : result string (list Z) :=
  match re_body r with
  | None => Ok []
  | Some chunks =>
      '(taken, total) ← read_chunks maxBytes 0 chunks r;
      Ok (fill_chunks (Z.to_nat (Z.min total (maxBytes + 1))) taken)
  end.

(** ** Recording and persisting *)

Inductive RejectionStage : Type := stage_declared | stage_content.
Record UploadRejectionRecord : Type := mkRejection
  { uj_stage : RejectionStage; uj_reason : UploadRejectionReason; uj_fileName : string; uj_size : Z;
    uj_artifactClass : string; uj_runId : option json }.
Record UploadedFileRef : Type := mkFileRef { uf_key : string; uf_name : string; uf_size : Z; uf_url : string }.
Record ArtifactRecord : Type := mkArtifact
  { ar_id : string; ar_name : string; ar_type : ArtifactClass; ar_size : Z; ar_updatedAt : string; ar_runId : option string;
    ar_utKey : string; ar_utUrl : string }.
Inductive IngestionResult : Type :=
  | accepted_artifact (artifactId url : string)
  | rejected_artifact (reason : UploadRejectionReason) (message : RejectionMessage).
(** The state of the process and of the two stores: the counters, the audit log, the files
    kept by the upload service, and the keys of Redis. *)
Record UploadWorld : Type := mkUploadWorld
  { uw_counts : gmap string Z; uw_audit : list AuditEntry; uw_files : gmap string (list Z);
    uw_artifacts : gmap string ArtifactRecord; uw_by_run : gmap string (gset string); uw_index : gset string }.
Definition empty_uploads : UploadWorld := mkUploadWorld ∅ [] ∅ ∅ ∅ ∅.

Section Gate.
Context (digest : json -> string) (strip_url : string -> option string).
Context (decode_lossy : list Z -> string) (decode_fatal : list Z -> option string) (parse_json : string -> option json).
Context (limits : RequestSizeLimits).

Definition decodeText (bytes : list Z) : option string :=
  if existsb (fun b => b =? 0) bytes then None else decode_fatal bytes.
(** [None]: the call never returns. *)
Definition validateUploadContent (fuel : nat) (c : ArtifactClass) (bytes : list Z) : option UploadValidation :=
  match checkSize limits c (blen bytes) with
  | Err e => Some (Err e)
  | Ok _ =>
      match ru_content (ARTIFACT_CLASS_RULES limits c) with
      | kind_wasm =>
          if negb (bytes_start bytes WASM_MAGIC) then Some (Err (bad_magic, msg_not_wasm))
          else match parseContractWasm decode_lossy fuel bytes with
               | Ok _ => Some (Ok c)
               | Err OutOfFuel => None
               | Err e => Some (Err (malformed, msg_malformed_wasm e))
               end
      | content =>
          Some (match binarySignature bytes with
                | Some format => Err (polyglot, msg_signature c format)
                | None =>
                    match decodeText bytes with
                    | None => Err (bad_magic, msg_not_text c)
                    | Some text =>
                        match content with
                        | kind_text => if active_content text then Err (polyglot, msg_active c) else Ok c
                        | _ =>
                            let trimmed := trim_start text in
                            if negb (startsWith trimmed "{") && negb (startsWith trimmed "[") then Err (bad_magic, msg_not_json c)
                            else match parse_json trimmed with None => Err (malformed, msg_invalid_json) | Some _ => Ok c end
                        end
                    end
                end)
      end
  end.

Definition stage_name (s : RejectionStage) : string := match s with stage_declared => "declared" | stage_content => "content" end.
Definition rejection_metadata (r : UploadRejectionRecord) : fields :=
  [("stage", JStr (stage_name (uj_stage r))); ("reason", JStr (reason_name (uj_reason r)));
   ("fileName", JStr (redactText (uj_fileName r))); ("size", JNum (uj_size r)); ("artifactClass", JStr (uj_artifactClass r))]%string
  ++ match uj_runId r with
     | None => []
     | Some (JStr s) => [("runId"%string, JStr (if decide (s = ""%string) then s else redactText s))]
     | Some v => [("runId"%string, v)]
     end
  ++ [("rateLimitClass"%string, JStr UPLOAD_RATE_LIMIT_CLASS)].
(** [stored]: whether the storage of the audit log takes the write. *)
Definition recordUploadRejection (stored : bool) (now : Z) (r : UploadRejectionRecord) (w : UploadWorld) : UploadWorld :=
  let key := reason_name (uj_reason r) in
  mkUploadWorld (<[key := default 0 (uw_counts w !! key) + 1]> (uw_counts w))
    (recordAuditEvent digest strip_url stored (uw_audit w)
       (mkEntryInput upload_reject (redactText (uj_fileName r)) None (Some (rejection_metadata r)) None) now)
    (uw_files w) (uw_artifacts w) (uw_by_run w) (uw_index w).

(** Stage 1. *)
Fixpoint gate_files (stored : bool) (now : Z) (files : list DeclaredUpload) (declaredClass runId : option string)
    (accepted : option ArtifactClass) (w : UploadWorld) : UploadWorld * UploadValidation :=
  match files with
  | [] => (w, match accepted with Some c => Ok c | None => Err (empty_file, msg_no_file) end)
  | file :: rest =>
      match validateDeclaredUpload limits file declaredClass with
      | Err e =>
          (recordUploadRejection stored now
             (mkRejection stage_declared e.1 (du_name file) (du_size file) (default "inferred"%string declaredClass) (JStr <$> runId)) w,
           Err e)
      | Ok c => gate_files stored now rest declaredClass runId (Some (default c accepted)) w
      end
  end.
Definition gateDeclaredUploads (stored : bool) (now : Z) (files : list DeclaredUpload) (declaredClass runId : option string)
    (w : UploadWorld) : UploadWorld * UploadValidation :=
  gate_files stored now files declaredClass runId None w.

(** [persistArtifact]: its commands run one after the other; the first [commands] succeed. *)
Definition persistArtifact (commands : nat) (r : ArtifactRecord) (w : UploadWorld) : UploadWorld * bool :=
  let w1 := mkUploadWorld (uw_counts w) (uw_audit w) (uw_files w) (<[ar_id r := r]> (uw_artifacts w)) (uw_by_run w) (uw_index w) in
  let w2 := match truthy (ar_runId r) with
            | Some run => mkUploadWorld (uw_counts w1) (uw_audit w1) (uw_files w1) (uw_artifacts w1)
                            (<[run := {[ ar_id r ]} ∪ default ∅ (uw_by_run w1 !! run)]> (uw_by_run w1)) (uw_index w1)
            | None => w1
            end in
  let w3 := mkUploadWorld (uw_counts w2) (uw_audit w2) (uw_files w2) (uw_artifacts w2) (uw_by_run w2) ({[ ar_id r ]} ∪ uw_index w2) in
  match truthy (ar_runId r), commands with
  | _, O => (w, false)
  | Some _, 1%nat => (w1, false)
  | None, 1%nat | Some _, 2%nat => (w2, false)
  | _, _ => (w3, true)
  end.

(** The verdict on a stored file: [fetched] is the answer of the upload service. *)
Definition content_verdict (fuel : nat) (c : ArtifactClass) (fetched : result string StoredResponse) : option UploadValidation :=
  match fetched with
  | Err e => Some (Err (malformed, msg_unreadable (redactText e)))
  | Ok response =>
      if (200 <=? re_status response) && (re_status response <=? 299) then
        match readBytesCapped response (ru_maxBytes (ARTIFACT_CLASS_RULES limits c)) with
        | Err e => Some (Err (malformed, msg_unreadable (redactText e)))
        | Ok bytes =>
            verdict ← validateUploadContent fuel c bytes;
            Some (match verdict with
                  | Ok c' =>
                      if decide (c = class_wasm) then verdict
                      else match decode_fatal bytes with
                           | None => Err (malformed, msg_unreadable "The encoded data was not valid for encoding utf-8")
                           | Some content =>
                               if containsSensitiveContent parse_json content then Err (sensitive_content, msg_secret) else verdict
                           end
                  | Err _ => verdict
                  end)
        end
      else Some (Err (malformed, msg_http (re_status response)))
  end.
(** What the outside does during a call: the answer of the upload service, whether it
    deletes a file, how many commands of Redis succeed, and whether the audit log stores. *)
Record Outside : Type := mkOutside
  { os_fetched : result string StoredResponse; os_delete_error : option string; os_commands : nat; os_audit_stored : bool; os_now : Z }.
(** Stage 2: [None] when it never answers, an error when it throws. *)
Definition ingestUploadedArtifact (fuel : nat) (file : UploadedFileRef) (c : ArtifactClass) (runId : option string) (o : Outside)
    (w : UploadWorld) : option (UploadWorld * result string IngestionResult) :=
  verdict ← content_verdict fuel c (os_fetched o);
  Some (match verdict with
        | Err (reason, message) =>
            let w := recordUploadRejection (os_audit_stored o) (os_now o)
                       (mkRejection stage_content reason (redactText (uf_name file)) (uf_size file) (class_name c)
                          (Some (match truthy runId with Some r => JStr (redactText r) | None => JNull end))) w in
            match os_delete_error o with
            | Some e => (w, Err (cat ["Failed to delete rejected artifact from storage: "; redactText e]))
            | None => (mkUploadWorld (uw_counts w) (uw_audit w) (delete (uf_key file) (uw_files w)) (uw_artifacts w) (uw_by_run w) (uw_index w),
                       Ok (rejected_artifact reason message))
            end
        | Ok _ =>
            let '(w, done_) := persistArtifact (os_commands o)
              (mkArtifact (uf_key file) (redactText (uf_name file)) c (uf_size file) (to_iso_string (os_now o))
                 (redactText <$> truthy runId) (uf_key file) (uf_url file)) w in
            (w, if done_ then Ok (accepted_artifact (uf_key file) (uf_url file)) else Err "redis"%string)
        end).
End Gate.

(** ** Reading *)

Lemma read_chunks_spec maxBytes total chunks r taken total' :
  total <= maxBytes -> read_chunks maxBytes total chunks r = Ok (taken, total') ->
  taken `prefix_of` chunks /\ total' = total + blen (concat taken) /\
  (total' <= maxBytes -> taken = chunks /\ re_error r = None).
Proof.
  revert total taken. induction chunks as [|v rest IH]; intros total taken Hle; cbn [read_chunks].
  - destruct (re_error r); [done|]. intros [= <- <-]. split; [done|]. split; [unfold blen; cbn; lia|]. done.
  - destruct (maxBytes <? total + blen v) eqn:Et; bools.
    + destruct (re_cancel_error r); [done|]. intros [= <- <-]. split; [by exists rest|]. cbn. rewrite app_nil_r. split; [done|lia].
    + intros ([t1 n1] & H1 & [= <- <-])%bind_Ok. apply IH in H1 as (Hp & -> & Hend); [|lia].
      split; [by apply prefix_cons|]. split; [unfold blen; cbn; rewrite length_app; lia|]. intros H. destruct (Hend H) as [-> ->]. done.
Qed.
Lemma fill_chunks_spec room chunks :
  (room <= length (concat chunks))%nat -> fill_chunks room chunks = take room (concat chunks).
Proof.
  revert room. induction chunks as [|c rest IH]; intros room; cbn; [by destruct room; [|lia]|]. rewrite length_app. intros H.
  destruct (Nat.leb_spec (length c) room).
  - rewrite Nat.min_l by lia. rewrite firstn_all. destruct (Nat.eqb_spec (room - length c) 0) as [E|E].
    + rewrite take_app_le by lia. rewrite app_nil_r. rewrite take_ge by lia. done.
    + rewrite IH by lia. by rewrite take_app_ge by lia.
  - rewrite Nat.min_r by lia. rewrite Nat.sub_diag. cbn. rewrite app_nil_r. by rewrite take_app_le by lia.
Qed.
(** At most one byte past the limit is kept; a body within the limit is read to its end. *)
Lemma read_capped_spec r maxBytes chunks bytes :
  0 <= maxBytes -> re_body r = Some chunks -> readBytesCapped r maxBytes = Ok bytes ->
  blen bytes <= maxBytes + 1 /\ bytes `prefix_of` concat chunks /\
  (blen bytes <= maxBytes -> bytes = concat chunks /\ re_error r = None).
Proof.
  intros H0 Hb. unfold readBytesCapped. rewrite Hb. intros ([taken total] & Hr & [= <-])%bind_Ok.
  apply read_chunks_spec in Hr as (Hp & Ht & Hend); [|done]. rewrite Z.add_0_l in Ht. subst total.
  pose proof (Nat2Z.is_nonneg (length (concat taken))) as Hn. unfold blen in *.
  rewrite fill_chunks_spec by lia. rewrite length_take.
  split; [lia|]. split.
  - transitivity (concat taken); [apply prefix_take|]. destruct Hp as [k ->]. rewrite concat_app. by exists (concat k).
  - intros Hle. destruct Hend as [-> He]; [lia|]. split; [|done]. apply take_ge. lia.
Qed.

(** ** What is admitted *)

Lemma bytes_start_spec bytes p : bytes_start bytes p = true <-> p `prefix_of` bytes.
Proof.
  revert bytes. induction p as [|v p IH]; intros bytes; [split; [intros _; by exists bytes|by destruct bytes]|].
  destruct bytes as [|b bytes]; [split; [done|by intros [k H]]|]. cbn. rewrite andb_true_iff, Z.eqb_eq, IH. split.
  - intros [-> H]. by apply prefix_cons.
  - intros H. split; [symmetry; by eapply prefix_cons_inv_1|by eapply prefix_cons_inv_2].
Qed.

Section Admission.
Context (digest : json -> string) (strip_url : string -> option string).
Context (decode_lossy : list Z -> string) (decode_fatal : list Z -> option string) (parse_json : string -> option json).
Context (limits : RequestSizeLimits).
Notation verdict_of := (content_verdict decode_lossy decode_fatal parse_json limits).
Notation ingest := (ingestUploadedArtifact digest strip_url decode_lossy decode_fatal parse_json limits).
Notation gate := (gateDeclaredUploads digest strip_url limits).

(** No secret: as a JSON value below no sensitive name, as a text nowhere. *)
Definition no_secrets (t : string) : Prop :=
  match parse_json t with Some v => clean_value v = true | None => redactText t = t end.
Definition admissible (c : ArtifactClass) (bytes : list Z) : Prop :=
  0 < blen bytes <= ru_maxBytes (ARTIFACT_CLASS_RULES limits c) /\
  match ru_content (ARTIFACT_CLASS_RULES limits c) with
  | kind_wasm => WASM_MAGIC `prefix_of` bytes /\ exists fuel m, parseContractWasm decode_lossy fuel bytes = Ok m
  | content =>
      0 ∉ bytes /\ (forall format signature, (format, signature) ∈ BINARY_SIGNATURES -> ~ signature `prefix_of` bytes) /\
      exists text, decode_fatal bytes = Some text /\ no_secrets text /\
        match content with
        | kind_text => active_content text = false
        | _ => is_Some (parse_json (trim_start text))
        end
  end.
(** The service serves the file it keeps, all of it unless it fails. *)
Definition serves (bytes : list Z) (fetched : result string StoredResponse) : Prop :=
  match fetched with
  | Ok r => match re_body r with Some chunks => re_error r = None -> concat chunks = bytes | None => bytes = [] end
  | Err _ => True
  end.
Lemma check_size_ok c size c' :
  checkSize limits c size = Ok c' -> c' = c /\ 0 < size <= ru_maxBytes (ARTIFACT_CLASS_RULES limits c).
Proof.
  unfold checkSize. destruct (size <=? 0) eqn:E1; [done|]. destruct (_ <? size) eqn:E2; [done|]. intros [= <-]. bools. done.
Qed.
Lemma no_signature bytes : binarySignature bytes = None ->
  forall format signature, (format, signature) ∈ BINARY_SIGNATURES -> ~ signature `prefix_of` bytes.
Proof.
  unfold binarySignature. intros H format signature Hin Hp. destruct (List.find _ _) as [p|] eqn:E; [done|].
  apply list_elem_of_In in Hin. apply (List.find_none _ _ E) in Hin. cbn in Hin. apply bytes_start_spec in Hp. congruence.
Qed.
Lemma content_ok fuel c bytes c' :
  validateUploadContent decode_lossy decode_fatal parse_json limits fuel c bytes = Some (Ok c') ->
  (c <> class_wasm -> exists text, decode_fatal bytes = Some text /\ no_secrets text) ->
  c' = c /\ admissible c bytes.
Proof.
  unfold validateUploadContent, admissible. intros H Hs.
  destruct (checkSize limits c (blen bytes)) as [c0|] eqn:Ec; [|done]. apply check_size_ok in Ec as [-> Hsize].
  destruct (ru_content (ARTIFACT_CLASS_RULES limits c)) eqn:Ek.
  - destruct (bytes_start bytes WASM_MAGIC) eqn:Em; [|done]. cbn in H. apply bytes_start_spec in Em.
    destruct (parseContractWasm decode_lossy fuel bytes) as [m|e] eqn:Ep; [|by destruct e]. injection H as <-. eauto 10.
  - assert (Hc : c <> class_wasm) by (intros ->; done). specialize (Hs Hc) as (text & Ht & Hn). injection H as H.
    destruct (binarySignature bytes) eqn:Eb; [done|]. unfold decodeText in H.
    destruct (existsb (fun b => b =? 0) bytes) eqn:Ez; [done|]. rewrite Ht in H. cbv zeta in H.
    destruct (negb _ && negb _) eqn:Ej; [done|]. destruct (parse_json (trim_start text)) as [v|] eqn:Ev; [|done]. injection H as <-.
    split; [done|]. split; [done|]. split; [|split; [by apply no_signature|exists text; rewrite Ev; by split_and!; eauto]].
    intros Hin. apply list_elem_of_In in Hin. assert (Ht' : existsb (fun b => b =? 0) bytes = true) by (apply existsb_exists; by exists 0). congruence.
  - assert (Hc : c <> class_wasm) by (intros ->; done). specialize (Hs Hc) as (text & Ht & Hn). injection H as H.
    destruct (binarySignature bytes) eqn:Eb; [done|]. unfold decodeText in H.
    destruct (existsb (fun b => b =? 0) bytes) eqn:Ez; [done|]. rewrite Ht in H.
    destruct (active_content text) eqn:Ea; [done|]. injection H as <-.
    split; [done|]. split; [done|]. split; [|split; [by apply no_signature|exists text; by split_and!]].
    intros Hin. apply list_elem_of_In in Hin. assert (Ht' : existsb (fun b => b =? 0) bytes = true) by (apply existsb_exists; by exists 0). congruence.
Qed.
Lemma verdict_ok fuel c fetched bytes c' :
  verdict_of fuel c fetched = Some (Ok c') -> serves bytes fetched -> c' = c /\ admissible c bytes.
Proof.
  unfold content_verdict, serves. destruct fetched as [r|]; [|done]. destruct (_ && _); [|done].
  destruct (readBytesCapped r _) as [read|] eqn:Er; [|done].
  destruct (validateUploadContent _ _ _ _ fuel c read) as [[c0|e]|] eqn:Ev; cbn; [|done|done]. intros H Hb.
  assert (Hread : c' = c /\ admissible c read).
  { assert (c0 = c') as ->.
    { destruct (decide (c = class_wasm)); [by injection H|]. destruct (decode_fatal read); [|done].
      destruct (containsSensitiveContent _ _); [done|]. by injection H. }
    apply (content_ok _ _ _ _ Ev). intros Hc. rewrite decide_False in H by done. destruct (decode_fatal read) as [t|]; [|done].
    exists t. split; [done|]. destruct (containsSensitiveContent parse_json t) eqn:Es; [done|]. by apply contains_sensitive in Es. }
  destruct Hread as [-> Hread]. split; [done|]. pose proof Hread as [Hsize _].
  destruct (re_body r) as [chunks|] eqn:Eb.
  - apply (read_capped_spec r _ chunks) in Er as (_ & _ & Hall); [|lia|done]. destruct Hall as [-> He]; [lia|]. by rewrite <- (Hb He).
  - subst bytes. unfold readBytesCapped in Er. rewrite Eb in Er. injection Er as <-. done.
Qed.

(** ** Uploads over time *)

(** The callback of an upload runs once for each file the service has taken after the
    gate let it pass; [uz_pending] are the files it has not run for, with what the gate
    answered. *)
Record UploadSystem : Type := mkUploads
  { uz_world : UploadWorld; uz_pending : gmap string (ArtifactClass * option string); uz_used : gset string }.
Definition with_files (f : gmap string (list Z)) (w : UploadWorld) : UploadWorld :=
  mkUploadWorld (uw_counts w) (uw_audit w) f (uw_artifacts w) (uw_by_run w) (uw_index w).
Definition no_uploads : UploadSystem := mkUploads empty_uploads ∅ ∅.
Inductive upload_step : UploadSystem -> UploadSystem -> Prop :=
  | up_refused stored now files declaredClass runId s w e :
      gate stored now files declaredClass runId (uz_world s) = (w, Err e) ->
      upload_step s (mkUploads w (uz_pending s) (uz_used s))
  | up_taken stored now files declaredClass runId s w c key bytes :
      gate stored now files declaredClass runId (uz_world s) = (w, Ok c) -> key ∉ uz_used s ->
      upload_step s (mkUploads (with_files (<[key := bytes]> (uw_files w)) w) (<[key := (c, runId)]> (uz_pending s)) ({[key]} ∪ uz_used s))
  | up_ingested fuel file o s c runId bytes w res :
      uz_pending s !! uf_key file = Some (c, runId) -> uw_files (uz_world s) !! uf_key file = Some bytes ->
      serves bytes (os_fetched o) -> ingest fuel file c runId o (uz_world s) = Some (w, res) ->
      upload_step s (mkUploads w (delete (uf_key file) (uz_pending s)) (uz_used s)).

(** The artifact of a key: its file is kept and is what its class allows. *)
Definition artifact_ok (s : UploadSystem) (id : string) (r : ArtifactRecord) : Prop :=
  ar_id r = id /\ uz_pending s !! id = None /\
  exists bytes, uw_files (uz_world s) !! id = Some bytes /\ admissible (ar_type r) bytes.
Record uploads_ok (s : UploadSystem) : Prop := mkUploadsOk
  { uo_artifacts : forall id r, uw_artifacts (uz_world s) !! id = Some r -> artifact_ok s id r;
    uo_index : forall id, id ∈ uw_index (uz_world s) -> is_Some (uw_artifacts (uz_world s) !! id);
    uo_runs : forall run ids id, uw_by_run (uz_world s) !! run = Some ids -> id ∈ ids ->
      exists r, uw_artifacts (uz_world s) !! id = Some r /\ ar_runId r = Some run;
    uo_files : forall id, is_Some (uw_files (uz_world s) !! id) -> id ∈ uz_used s;
    uo_pending : forall id, is_Some (uz_pending s !! id) -> uw_artifacts (uz_world s) !! id = None }.

Lemma gate_keeps stored now files declaredClass runId accepted w :
  let w' := (gate_files digest strip_url limits stored now files declaredClass runId accepted w).1 in
  uw_files w' = uw_files w /\ uw_artifacts w' = uw_artifacts w /\ uw_by_run w' = uw_by_run w /\ uw_index w' = uw_index w.
Proof.
  revert accepted. induction files as [|f files IH]; intros accepted; cbn; [done|].
  destruct (validateDeclaredUpload _ _ _); [apply IH|done].
Qed.
Lemma persist_spec n r w w' b : persistArtifact n r w = (w', b) ->
  uw_files w' = uw_files w /\
  ((uw_artifacts w' = uw_artifacts w /\ uw_by_run w' = uw_by_run w /\ uw_index w' = uw_index w) \/
   (uw_artifacts w' = <[ar_id r := r]> (uw_artifacts w) /\
    (uw_index w' = uw_index w \/ uw_index w' = {[ar_id r]} ∪ uw_index w) /\
    (uw_by_run w' = uw_by_run w \/
     exists run, ar_runId r = Some run /\ uw_by_run w' = <[run := {[ ar_id r ]} ∪ default ∅ (uw_by_run w !! run)]> (uw_by_run w)))).
Proof.
  unfold persistArtifact, truthy. destruct (ar_runId r) as [run|]; [destruct (decide (run = ""%string))|];
    destruct n as [|[|[|n]]]; intros [= <- <-]; cbn; split; try done; eauto 10.
Qed.
(** A step that leaves the artifacts alone, and the files of those that exist. *)
Lemma same_artifacts s s' :
  uploads_ok s ->
  uw_artifacts (uz_world s') = uw_artifacts (uz_world s) -> uw_by_run (uz_world s') = uw_by_run (uz_world s) ->
  uw_index (uz_world s') = uw_index (uz_world s) ->
  (forall id, is_Some (uw_artifacts (uz_world s) !! id) ->
     uw_files (uz_world s') !! id = uw_files (uz_world s) !! id /\ uz_pending s' !! id = uz_pending s !! id) ->
  (forall id, is_Some (uw_files (uz_world s') !! id) -> id ∈ uz_used s') ->
  (forall id, is_Some (uz_pending s' !! id) -> uw_artifacts (uz_world s) !! id = None) ->
  uploads_ok s'.
Proof.
  intros [H1 H2 H3 H4 H5] Ea Er Ei Hsame Hf Hp. split.
  - intros id r. rewrite Ea. intros H. destruct (H1 id r H) as (E & Hpend & bytes & Hb & Had).
    destruct (Hsame id) as [Ef Ep]; [by eexists|]. split; [done|]. split; [by rewrite Ep|]. exists bytes. by rewrite Ef.
  - rewrite Ei, Ea. exact H2.
  - rewrite Er, Ea. exact H3.
  - exact Hf.
  - rewrite Ea. exact Hp.
Qed.
Lemma upload_step_ok s s' : upload_step s s' -> uploads_ok s -> uploads_ok s'.
Proof.
  intros Hs Hok. pose proof Hok as [H1 H2 H3 H4 H5]. destruct Hs as
    [stored now files declaredClass runId s w e Hg|stored now files declaredClass runId s w c key bytes Hg Hnew
    |fuel file o s c runId bytes w res Hp Hf Hserve Hi].
  - pose proof (gate_keeps stored now files declaredClass runId None (uz_world s)) as (E1 & E2 & E3 & E4).
    unfold gateDeclaredUploads in Hg. rewrite Hg in E1, E2, E3, E4. cbn [fst] in *.
    apply (same_artifacts s); cbn; try done. + intros id _. by rewrite E1. + intros id. rewrite E1. apply H4.
  - pose proof (gate_keeps stored now files declaredClass runId None (uz_world s)) as (E1 & E2 & E3 & E4).
    unfold gateDeclaredUploads in Hg. rewrite Hg in E1, E2, E3, E4. cbn [fst] in *.
    assert (Hno : uw_artifacts (uz_world s) !! key = None).
    { destruct (uw_artifacts (uz_world s) !! key) as [r|] eqn:E; [|done]. destruct (H1 key r E) as (_ & _ & b & Hb & _).
      exfalso. apply Hnew, H4. by eexists. }
    apply (same_artifacts s); cbn; try done.
    + intros id [r Hr]. assert (id <> key) by congruence. rewrite E1, !lookup_insert_ne by done. done.
    + intros id. destruct (decide (id = key)) as [->|Hne]; [intros _; by apply elem_of_union_l, elem_of_singleton|].
      rewrite lookup_insert_ne, E1 by done. intros Hid. apply elem_of_union_r. by apply H4.
    + intros id. destruct (decide (id = key)) as [->|Hne]; [done|]. rewrite lookup_insert_ne by done. apply H5.
  - assert (Hno : uw_artifacts (uz_world s) !! uf_key file = None) by (apply H5; by eexists).
    unfold ingestUploadedArtifact in Hi. destruct (verdict_of fuel c (os_fetched o)) as [[c'|[reason message]]|] eqn:Ev; [| |done].
    + cbn in Hi. destruct (persistArtifact _ _ _) as [w' b] eqn:Ep in Hi. injection Hi as -> _.
      apply (verdict_ok _ _ _ bytes) in Ev as [-> Had]; [|done]. apply persist_spec in Ep as [Ef Hcase]. cbn in Hcase.
      destruct Hcase as [(Ea & Er & Ei)|(Ea & Hindex & Hruns)].
      * apply (same_artifacts s); cbn; try done.
        -- intros id [r Hr]. assert (id <> uf_key file) by congruence. rewrite Ef, lookup_delete_ne by done. done.
        -- intros id. rewrite Ef. apply H4.
        -- intros id [x Hx]. apply lookup_delete_Some in Hx as [_ Hx]. apply H5. by eexists.
      * split; cbn.
        -- intros id r. rewrite Ea. destruct (decide (id = uf_key file)) as [->|Hne].
           ++ rewrite lookup_insert_eq. intros [= <-]. split; [done|]. cbn. split; [by rewrite lookup_delete_eq|].
              exists bytes. by rewrite Ef.
           ++ rewrite lookup_insert_ne by done. intros Hr. destruct (H1 id r Hr) as (E & Hpend & b' & Hb & Hadb).
              split; [done|]. cbn. split; [by rewrite lookup_delete_ne|]. exists b'. by rewrite Ef.
        -- intros id Hid. rewrite Ea. destruct (decide (id = uf_key file)) as [->|Hne]; [rewrite lookup_insert_eq; by eexists|].
           rewrite lookup_insert_ne by done. apply H2. destruct Hindex as [E|E]; rewrite E in Hid; [done|].
           apply elem_of_union in Hid as [Hid%elem_of_singleton|Hid]; [congruence|done].
        -- intros run ids id Hr Hid. rewrite Ea. destruct (decide (id = uf_key file)) as [->|Hne].
           ++ rewrite lookup_insert_eq. eexists. split; [done|]. cbn. destruct Hruns as [E|(run' & Erun & E)]; rewrite E in Hr.
              ** destruct (H3 run ids _ Hr Hid) as (r & Hx & _). congruence.
              ** destruct (decide (run = run')) as [->|Hne]; [done|]. rewrite lookup_insert_ne in Hr by done.
                 destruct (H3 run ids _ Hr Hid) as (r & Hx & _). congruence.
           ++ rewrite lookup_insert_ne by done. destruct Hruns as [E|(run' & Erun & E)]; rewrite E in Hr; [by apply (H3 run ids)|].
              destruct (decide (run = run')) as [->|Hne']; [|rewrite lookup_insert_ne in Hr by done; by apply (H3 run ids)].
              rewrite lookup_insert_eq in Hr. injection Hr as <-.
              apply elem_of_union in Hid as [Hid%elem_of_singleton|Hid]; [congruence|].
              destruct (uw_by_run (uz_world s) !! run') as [ids|] eqn:Eids; [by apply (H3 run' ids)|]. by apply elem_of_empty in Hid.
        -- intros id. rewrite Ef. apply H4.
        -- intros id [x Hx]. apply lookup_delete_Some in Hx as [Hne Hx]. rewrite Ea, lookup_insert_ne by congruence. apply H5. by eexists.
    + assert (Hw : uw_artifacts w = uw_artifacts (uz_world s) /\ uw_by_run w = uw_by_run (uz_world s) /\
                   uw_index w = uw_index (uz_world s) /\
                   (uw_files w = uw_files (uz_world s) \/ uw_files w = delete (uf_key file) (uw_files (uz_world s)))).
      { cbn in Hi. destruct (os_delete_error o); injection Hi as <- _; cbn; split_and!; auto. }
      destruct Hw as (Ea & Er & Ei & Ef). apply (same_artifacts s); cbn; try done.
      * intros id [r Hr]. assert (id <> uf_key file) by congruence. rewrite lookup_delete_ne by done. split; [|done].
        destruct Ef as [-> | ->]; [done|by rewrite lookup_delete_ne].
      * intros id Hid. apply H4. destruct Ef as [E|E]; rewrite E in Hid; [done|]. destruct Hid as [b Hb]. apply lookup_delete_Some in Hb as [_ Hb]. by eexists.
      * intros id [x Hx]. apply lookup_delete_Some in Hx as [_ Hx]. apply H5. by eexists.
Qed.
Lemma reachable_uploads s : rtc upload_step no_uploads s -> uploads_ok s.
Proof.
  intros Hs. apply (reachable_inv upload_step uploads_ok) with no_uploads; [apply upload_step_ok|done|].
  split; unfold no_uploads, empty_uploads; cbn.
  - intros id r. by rewrite lookup_empty.
  - intros id Hid. by apply elem_of_empty in Hid.
  - intros run ids id. by rewrite lookup_empty.
  - intros id. rewrite lookup_empty. by intros [? ?].
  - intros id. rewrite lookup_empty. by intros [? ?].
Qed.
End Admission.

(** A module of 128 bytes passes the first stage and the magic number and is never
    answered for: the walk of its name section, run to find malformed modules, does not
    end. *)
Theorem hanging_upload_never_answers digest strip_url decode_lossy decode_fatal parse_json fuel file runId o w :
  decode_lossy [110; 97; 109; 101] = "name"%string ->
  os_fetched o = Ok (mkResponse 200 (Some [hanging_module]) None None) ->
  validateDeclaredUpload DEFAULT_CONFIG (mkDeclared "a.wasm" 128 "application/wasm") None = Ok class_wasm /\
  ingestUploadedArtifact digest strip_url decode_lossy decode_fatal parse_json DEFAULT_CONFIG fuel file class_wasm runId o w = None.
Proof.
  intros Hd Ho. split; [vm_compute; done|]. unfold ingestUploadedArtifact, content_verdict. rewrite Ho. cbn [re_status Z.leb Z.compare andb].
  assert (E : readBytesCapped (mkResponse 200 (Some [hanging_module]) None None) (ru_maxBytes (ARTIFACT_CLASS_RULES DEFAULT_CONFIG class_wasm))
              = Ok hanging_module) by (vm_compute; done).
  change ((200 <=? 200) && (200 <=? 299)) with true. cbv iota. rewrite E. unfold validateUploadContent.
  change (checkSize DEFAULT_CONFIG class_wasm (blen hanging_module)) with (Ok (E := UploadRejectionReason * RejectionMessage) class_wasm).
  cbn [ARTIFACT_CLASS_RULES ru_content]. change (bytes_start hanging_module WASM_MAGIC) with true. cbn [negb].
  destruct (hanging_module_diverges decode_lossy fuel Hd) as [_ ->]. done.
Qed.
(** Two lines of JSON are no JSON value, and the patterns for texts miss names the test of
    values knows: a trace with a mnemonic becomes an artifact. *)
Definition mnemonic_line : string :=
  let q := String (ascii_of_nat 34) "" in cat ["{"; q; "mnemonic"; q; ":"; q; "abandon about"; q; "}"].
Theorem mnemonic_trace_admitted decode_lossy decode_fatal parse_json fuel :
  let text := cat [mnemonic_line; String (ascii_of_nat 10) ""; mnemonic_line] in
  let bytes := utf8_encode text in
  decode_fatal bytes = Some text -> parse_json text = None ->
  content_verdict decode_lossy decode_fatal parse_json DEFAULT_CONFIG fuel class_trace (Ok (mkResponse 200 (Some [bytes]) None None))
  = Some (Ok class_trace) /\
  (forall v, parse_json mnemonic_line = Some v -> clean_value v = false -> containsSensitiveContent parse_json mnemonic_line = true).
Proof.
  intros text bytes Hd Hp. split.
  - unfold content_verdict.
    assert (E : readBytesCapped (mkResponse 200 (Some [bytes]) None None) (ru_maxBytes (ARTIFACT_CLASS_RULES DEFAULT_CONFIG class_trace)) = Ok bytes)
      by (vm_compute; done).
    change ((200 <=? re_status _) && _) with true. cbv iota. rewrite E.
    assert (Ev : validateUploadContent decode_lossy decode_fatal parse_json DEFAULT_CONFIG fuel class_trace bytes = Some (Ok class_trace)).
    { unfold validateUploadContent. change (checkSize DEFAULT_CONFIG class_trace (blen bytes)) with (Ok (E := UploadRejectionReason * RejectionMessage) class_trace).
      change (binarySignature bytes) with (@None string). unfold decodeText. change (existsb (fun b => b =? 0) bytes) with false.
      cbv iota. rewrite Hd. change (active_content text) with false. done. }
    rewrite Ev. cbn [mbind option_bind]. rewrite decide_False by done. rewrite Hd. unfold containsSensitiveContent. rewrite Hp.
    assert (Hr : redactText text = text) by (vm_compute; done). rewrite Hr, bool_decide_eq_true_2 by done. done.
  - intros v Hv Hc. destruct (containsSensitiveContent parse_json mnemonic_line) eqn:E; [done|].
    apply contains_sensitive in E. rewrite Hv in E. congruence.
Qed.

(** ** Examples *)

Definition latin1 (bytes : list Z) : string := String.string_of_list_ascii ((fun b => ascii_of_N (Z.to_N b)) <$> bytes).
Definition sample_upload : UploadedFileRef := mkFileRef "k1" "run.log" 3 "https://files/k1".
Definition sample_outside : Outside := mkOutside (Ok (mkResponse 200 (Some [[111; 107]; [10]]) None None)) None 3 true 0.
Example gate_examples :
  extensionOf "C:\dir.x\Trace.JSONL" = ".jsonl"%string /\ extensionOf ".json" = ""%string /\ extensionOf "a.tar.gz" = ".gz"%string /\
  active_content "  <SVG>" = true /\ active_content "<htmlx" = false /\ active_content "<!DOCTYPE  html" = true /\
  readBytesCapped (mkResponse 200 (Some [[1; 2]; [3; 4]; [5]]) None None) 2 = Ok [1; 2; 3] /\
  resolveArtifactClass DEFAULT_CONFIG None "a.log" = Some class_log /\
  content_verdict (fun _ => ""%string) (fun b => Some (latin1 b)) (fun _ => None) DEFAULT_CONFIG 10 class_log
    (Ok (mkResponse 200 (Some [[80; 75; 3; 4; 9]]) None None)) = Some (Err (polyglot, msg_signature class_log "ZIP")) /\
  content_verdict (fun _ => ""%string) (fun b => Some (latin1 b)) (fun _ => None) DEFAULT_CONFIG 10 class_log
    (Ok (mkResponse 200 (Some [utf8_encode "password=hunter"]) None None)) = Some (Err (sensitive_content, msg_secret)).
Proof. vm_compute. done. Qed.
Lemma hanging_upload_never_answers_witness :
  ingestUploadedArtifact toy_digest Some (fun _ => "name"%string) (fun _ => None) (fun _ => None) DEFAULT_CONFIG 50 sample_upload class_wasm None
    (mkOutside (Ok (mkResponse 200 (Some [hanging_module]) None None)) None 3 true 0) empty_uploads = None.
Proof.
  apply (hanging_upload_never_answers toy_digest Some (fun _ => "name"%string) (fun _ => None) (fun _ => None) 50 sample_upload None
           (mkOutside (Ok (mkResponse 200 (Some [hanging_module]) None None)) None 3 true 0) empty_uploads eq_refl eq_refl).
Defined.
