(* ===== verification/HttpCall.v ===== *)
(** [lib/http-call.ts]: calls of third parties with a timeout per attempt, retries with a
    jittered backoff, and a budget for the whole call.

    What the network does is an argument: for each attempt when and how it would end if
    nothing aborted it.  Timers fire on time; an answer at the very instant of the timer
    comes too late, and whether the timer of the budget fires before that of the last
    attempt when both are due is an argument too. *)

From S2P Require Import Prelude JsString JsNumber CronParser RetryBackoff.
From stdpp Require Import base list sets fin_sets gmap strings numbers sorting.
From Stdlib Require Import ZArith Lia Ascii.
#[local] Open Scope Z_scope.

Definition OUTBOUND_ATTEMPT_TIMEOUT_MS : Z := 4000.
Definition OUTBOUND_TOTAL_BUDGET_MS : Z := 8000.
Definition OUTBOUND_RETRY_BASE_MS : Z := 200.
Definition OUTBOUND_RETRY_MAX_MS : Z := 2000.

Record HttpCallPolicy : Type := mkPolicy
  { hp_attemptTimeoutMs : Z; hp_totalBudgetMs : Z; hp_maxRetries : nat; hp_backoff : BackoffPolicy; hp_idempotent : option bool }.
Definition DEFAULT_HTTP_CALL_POLICY : HttpCallPolicy :=
  mkPolicy OUTBOUND_ATTEMPT_TIMEOUT_MS OUTBOUND_TOTAL_BUDGET_MS 2 (mkBackoff OUTBOUND_RETRY_BASE_MS OUTBOUND_RETRY_MAX_MS) None.
Record HttpCallOptions : Type := mkCallOptions
  { ho_attemptTimeoutMs : option Z; ho_totalBudgetMs : option Z; ho_maxRetries : option nat; ho_backoff : option BackoffPolicy;
    ho_idempotent : option bool }.
Definition call_policy (o : HttpCallOptions) : HttpCallPolicy :=
  let d := DEFAULT_HTTP_CALL_POLICY in
  mkPolicy (default (hp_attemptTimeoutMs d) (ho_attemptTimeoutMs o)) (default (hp_totalBudgetMs d) (ho_totalBudgetMs o))
    (default (hp_maxRetries d) (ho_maxRetries o)) (default (hp_backoff d) (ho_backoff o)) (ho_idempotent o).
Definition IDEMPOTENT_METHODS : list string := ["GET"; "HEAD"; "OPTIONS"; "PUT"; "DELETE"]%string.

(** [OutboundTimeoutError], [OutboundNetworkError], and the error of a caller that gave up. *)
Inductive OutboundError : Type :=
  | outbound_timeout (timeoutMs : Z) (attempts : nat)
  | outbound_network (cause : string) (attempts : nat)
  | caller_aborted.
Inductive OutboundCode : Type := INTEGRATION_TIMEOUT | INTEGRATION_UNAVAILABLE | INTERNAL_ERROR.
Definition outboundErrorCode (e : OutboundError) : OutboundCode :=
  match e with
  | outbound_timeout _ _ => INTEGRATION_TIMEOUT
  | outbound_network _ _ => INTEGRATION_UNAVAILABLE
  | caller_aborted => INTERNAL_ERROR
  end.
Record Response : Type := mkResponse { rsp_status : Z; rsp_retry_after : option string }.
Definition isRetryableStatus (status : Z) : bool := (status =? 408) || (status =? 429) || (500 <=? status).

(** What an attempt comes to if nothing aborts it, [after] so many milliseconds. *)
Inductive Attempt : Type :=
  | at_responds (after : Z) (r : Response)
  | at_rejects (after : Z) (cause : string)
  | at_silent.
Inductive FetchResult : Type :=
  | fr_response (r : Response)
  | fr_rejected (cause : string)
  | fr_timeout
  | fr_cancelled.
(** [AbortSignal.any]: the attempt from [t] with its timer and the signal of the caller. *)
Definition fetch_result (t timeout : Z) (caller : option Z) (a : Attempt) : Z * FetchResult :=
  let stop := t + timeout in
  let aborted :=
    match caller with
    | Some c => if Z.max t c <=? stop then (Z.max t c, fr_cancelled) else (stop, fr_timeout)
    | None => (stop, fr_timeout)
    end in
  match a with
  | at_responds after r => if t + Z.max 0 after <? aborted.1 then (t + Z.max 0 after, fr_response r) else aborted
  | at_rejects after cause => if t + Z.max 0 after <? aborted.1 then (t + Z.max 0 after, fr_rejected cause) else aborted
  | at_silent => aborted
  end.
Record AttemptRecord : Type := mkAttempt { ar_number : nat; ar_start : Z; ar_end : Z; ar_result : FetchResult }.
Record CallResult : Type := mkCall { cr_attempts : list AttemptRecord; cr_finished : Z; cr_outcome : result OutboundError Response }.

Section Call.
Context (parse_date : string -> option Z).

Definition parseRetryAfterMs (header : option string) (nowMs : Z) : option Z :=
  match truthy header with
  | None => None
  | Some header =>
      let trimmed := trim header in
      match parse_digits trimmed with
      | Some n => Some (n * 1000)
      | None => match parse_date trimmed with Some date => Some (Z.max 0 (date - nowMs)) | None => None end
      end
  end.

Context (policy : HttpCallPolicy) (started : Z).
(** The outside: what each attempt comes to, the values of [random], whether the timer of
    the budget has fired when an attempt ends at the deadline, and when the caller aborts. *)
Context (attempts : nat -> Attempt) (random : nat -> Z * nat) (budget_first : nat -> bool) (caller : option Z).

Definition deadline : Z := started + hp_totalBudgetMs policy.
Definition budget_aborted (attempt : nat) (now : Z) : bool :=
  (deadline <? now) || (now =? deadline) && budget_first attempt.
Definition wait_ms (attempt : nat) (response : option Response) (now : Z) : Z :=
  let backoffMs := computeBackoffMs (Z.of_nat attempt) (hp_backoff policy) (random attempt) in
  let retryAfterMs := match response with Some r => parseRetryAfterMs (rsp_retry_after r) now | None => None end in
  Z.min (Z.max backoffMs (default 0 retryAfterMs)) (maxMs (hp_backoff policy)).
(** The failure of an attempt, unless it has a response. *)
Definition failure_of (attempt : nat) (now attemptTimeout : Z) (r : FetchResult) : option OutboundError :=
  match r with
  | fr_response _ => None
  | fr_rejected cause => Some (if budget_aborted attempt now then outbound_timeout (hp_totalBudgetMs policy) attempt else outbound_network cause attempt)
  | fr_timeout => Some (outbound_timeout (if budget_aborted attempt now then hp_totalBudgetMs policy else attemptTimeout) attempt)
  | fr_cancelled => Some caller_aborted
  end.
Definition response_of (r : FetchResult) : option Response := match r with fr_response r => Some r | _ => None end.
(** Worth another attempt. *)
Definition retryable (r : FetchResult) : bool :=
  match r with
  | fr_response r => isRetryableStatus (rsp_status r)
  | fr_cancelled => false
  | _ => true
  end.
(** The loop at [attempt], with [left] attempts after it. *)
Fixpoint call_loop (left attempt : nat) (now : Z) : CallResult :=
  let remaining := deadline - now in
  if remaining <=? 0 then mkCall [] now (Err (outbound_timeout (hp_totalBudgetMs policy) (attempt - 1)))
  else
    let attemptTimeout := Z.min (hp_attemptTimeoutMs policy) remaining in
    let '(now', r) := fetch_result now attemptTimeout caller (attempts attempt) in
    let record := mkAttempt attempt now now' r in
    let final := mkCall [record] now'
      (match failure_of attempt now' attemptTimeout r, response_of r with
       | None, Some response => Ok response
       | Some e, _ => Err e
       | None, None => Err caller_aborted
       end) in
    if negb (retryable r) || budget_aborted attempt now' then final
    else
      match left with
      | O => final
      | S left' =>
          let waitMs := wait_ms attempt (response_of r) now' in
          if deadline <=? now' + waitMs then final
          else let rest := call_loop left' (S attempt) (now' + waitMs) in
               mkCall (record :: cr_attempts rest) (cr_finished rest) (cr_outcome rest)
      end.
Definition retriesAllowed (method : string) : bool :=
  bool_decide (hp_idempotent policy = Some true) || bool_decide (to_upper method ∈ IDEMPOTENT_METHODS).
Definition maxAttempts (method : string) : nat := if retriesAllowed method then S (hp_maxRetries policy) else 1.
Definition httpCall (method : option string) : CallResult :=
  call_loop (maxAttempts (default "GET"%string method) - 1) 1 started.
End Call.

Definition no_random (n : nat) : Z * nat := (0, 1%nat).
Definition sample_attempts (n : nat) : Attempt :=
  match n with
  | 1%nat => at_responds 50 (mkResponse 503 (Some "1"%string))
  | 2%nat => at_silent
  | _ => at_responds 70 (mkResponse 200 None)
  end.
Definition sample_call (method : string) (o : HttpCallOptions) : CallResult :=
  httpCall (fun _ => None) (call_policy o) 1000 sample_attempts no_random (fun _ => false) None (Some method).
Definition no_call_options : HttpCallOptions := mkCallOptions None None None None None.
Example call_examples :
  sample_call "get" no_call_options
  = mkCall [mkAttempt 1 1000 1050 (fr_response (mkResponse 503 (Some "1"%string))); mkAttempt 2 2050 6050 fr_timeout;
            mkAttempt 3 6250 6320 (fr_response (mkResponse 200 None))] 6320 (Ok (mkResponse 200 None)) /\
  cr_outcome (sample_call "POST" no_call_options) = Ok (mkResponse 503 (Some "1"%string)) /\
  cr_finished (sample_call "GET" (mkCallOptions None (Some 5000) None None None)) = 6000 /\
  cr_outcome (sample_call "GET" (mkCallOptions None (Some 5000) None None None)) = Err (outbound_timeout 3950 2).
Proof. vm_compute. done. Qed.

(** ** The budget *)

Lemma fetch_result_bounds t timeout caller a :
  0 <= timeout -> t <= (fetch_result t timeout caller a).1 <= t + timeout.
Proof.
  intros H. unfold fetch_result. set (aborted := match caller with Some _ => _ | None => _ end).
  assert (Ha : t <= aborted.1 <= t + timeout).
  { unfold aborted. destruct caller as [c|]; [|cbn; lia]. destruct (_ <=? _) eqn:E; cbn; bools; lia. }
  destruct a as [after r|after cause|]; [| |exact Ha].
  all: destruct (t + Z.max 0 after <? aborted.1) eqn:E; [cbn; bools; lia|exact Ha].
Qed.

Section Budget.
Context (parse_date : string -> option Z) (policy : HttpCallPolicy) (started : Z).
Context (attempts : nat -> Attempt) (random : nat -> Z * nat) (budget_first : nat -> bool) (caller : option Z).
Context (Hattempt : 0 <= hp_attemptTimeoutMs policy) (Hmax : 0 <= maxMs (hp_backoff policy)).
Notation loop := (call_loop parse_date policy started attempts random budget_first caller).
Notation due := (deadline policy started).
Notation wait := (wait_ms parse_date policy random).

(** An attempt takes at most its timeout and ends by the deadline. *)
Definition attempt_ok (a : AttemptRecord) : Prop :=
  ar_start a <= ar_end a <= Z.min (ar_start a + hp_attemptTimeoutMs policy) due.
(** The next attempt starts after the wait, because the one before was worth another. *)
Definition followed_by (a b : AttemptRecord) : Prop :=
  retryable (ar_result a) = true /\ ar_number b = S (ar_number a) /\
  ar_start b = ar_end a + wait (ar_number a) (response_of (ar_result a)) (ar_end a).
Fixpoint attempts_chained (l : list AttemptRecord) : Prop :=
  match l with
  | a :: (b :: _) as rest => followed_by a b /\ attempts_chained rest
  | _ => True
  end.
(** The outcome is that of the last attempt. *)
Definition outcome_of (a : AttemptRecord) (o : result OutboundError Response) : Prop :=
  match ar_result a with
  | fr_response r => o = Ok r
  | fr_cancelled => o = Err caller_aborted
  | _ => exists e, o = Err e /\ e <> caller_aborted
  end.
(** Why the call stops at this attempt, the [n]-th and last allowed one or not. *)
Definition stops (a : AttemptRecord) (n : nat) : Prop :=
  retryable (ar_result a) = true -> ar_number a = n \/ due <= ar_end a + wait (ar_number a) (response_of (ar_result a)) (ar_end a).

Lemma wait_bounds k response now : 0 <= wait k response now <= maxMs (hp_backoff policy).
Proof.
  unfold wait_ms. split; [|lia]. apply Z.min_glb; [|done]. etransitivity; [|apply Z.le_max_r].
  destruct response as [r|]; cbn; [|lia]. unfold parseRetryAfterMs. destruct (truthy _) as [h|]; cbn; [|lia].
  destruct (parse_digits (trim h)) as [n|] eqn:E; cbn; [|destruct (parse_date _); cbn; lia].
  pose proof (parse_digits_nonneg _ _ E). lia.
Qed.
Lemma call_loop_spec left attempt now :
  now < due -> (0 < attempt)%nat ->
  exists a rest, cr_attempts (loop left attempt now) = a :: rest /\ ar_number a = attempt /\ ar_start a = now /\
    Forall attempt_ok (a :: rest) /\ attempts_chained (a :: rest) /\
    (length rest <= left)%nat /\ now <= cr_finished (loop left attempt now) <= due /\
    exists last_one, last (a :: rest) = Some last_one /\ ar_number last_one = (attempt + length rest)%nat /\
      ar_end last_one = cr_finished (loop left attempt now) /\
      outcome_of last_one (cr_outcome (loop left attempt now)) /\ stops last_one (attempt + left).
Proof.
  revert attempt now. induction left as [|left IH]; intros attempt now Hnow Hat; cbn [call_loop];
    rewrite (proj2 (Z.leb_gt (due - now) 0)) by lia;
    set (timeout := Z.min (hp_attemptTimeoutMs policy) (due - now));
    pose proof (fetch_result_bounds now timeout caller (attempts attempt)) as Hb;
    destruct (fetch_result now timeout caller (attempts attempt)) as [now' r]; cbn [fst] in Hb;
    set (record := mkAttempt attempt now now' r);
    set (outcome := match failure_of _ _ _ _ _ _ _ with Some _ => _ | None => _ end).
  all: assert (Hok : attempt_ok record) by (unfold attempt_ok, record; cbn; lia).
  all: assert (Ho : outcome_of record outcome)
    by (unfold outcome_of, outcome, record, failure_of; destruct r; cbn; eauto; destruct (budget_aborted _ _ _ _ _); eauto).
  all: assert (Hfinal : forall left, (retryable r = true -> left = 0%nat \/ due <= now' + wait attempt (response_of r) now') ->
         exists a rest, [record] = a :: rest /\ ar_number a = attempt /\ ar_start a = now /\
           Forall attempt_ok (a :: rest) /\ attempts_chained (a :: rest) /\ (length rest <= left)%nat /\ now <= now' <= due /\
           exists last_one, last (a :: rest) = Some last_one /\ ar_number last_one = (attempt + length rest)%nat /\
             ar_end last_one = now' /\ outcome_of last_one outcome /\ stops last_one (attempt + left))
    by (intros left0 Hstop; exists record, []; split_and!; try done; [by constructor|cbn; lia|lia|lia|];
        exists record; split_and!; [done|cbn; lia|done|done|]; intros Hr; destruct (Hstop Hr); [left; cbn; lia|by right]).
  all: assert (Hlate : budget_aborted policy started budget_first attempt now' = true -> due <= now' + wait attempt (response_of r) now')
    by (unfold budget_aborted; intros Hl; pose proof (wait_bounds attempt (response_of r) now');
        apply orb_true_iff in Hl as [Hl|[Hl _]%andb_true_iff]; bools; lia).
  all: destruct (negb (retryable r) || budget_aborted policy started budget_first attempt now') eqn:Estop.
  1, 3: apply Hfinal; intros Hr; rewrite Hr in Estop; right; by apply Hlate.
  - apply Hfinal. by left.
  - destruct (due <=? now' + wait attempt (response_of r) now') eqn:Elate; [apply Hfinal; intros _; right; by apply Z.leb_le|].
    bools. pose proof (wait_bounds attempt (response_of r) now') as Hw.
    destruct (IH (S attempt) (now' + wait attempt (response_of r) now')) as
      (a & rest & E & Hn & Hs & Hall & Hchain & Hlen & Hfin & last_one & Hlast & Hnum & Hend & Hout & Hstops); [lia|lia|].
    exists record, (a :: rest). cbn [cr_attempts cr_finished cr_outcome]. rewrite E. split; [done|]. split; [done|]. split; [done|]. split; [by constructor|].
    split; [split; [by split_and!; [|rewrite Hn|rewrite Hs]|exact Hchain]|]. split; [cbn; lia|]. split; [lia|].
    exists last_one. split_and!; [by rewrite last_cons_cons|cbn; lia|done|done|]. by replace (attempt + S left)%nat with (S attempt + left)%nat by lia.
Qed.

(** C25. A call of a third party always ends, within its budget: at most the allowed number
    of attempts are made, one for a method that must not be repeated; each takes at most
    its timeout; the next one follows an answer or a failure that is worth it, after the
    backoff or the time the provider asked for; the outcome is that of the last attempt;
    and the call gives up on one that is worth another only when no attempt is left or the
    wait would run into the deadline. *)
Theorem http_call_within_budget method :
  0 < hp_totalBudgetMs policy ->
  let call := httpCall parse_date policy started attempts random budget_first caller method in
  let allowed := maxAttempts policy (default "GET"%string method) in
  exists last_one, last (cr_attempts call) = Some last_one /\
    (length (cr_attempts call) <= allowed)%nat /\
    started <= cr_finished call <= started + hp_totalBudgetMs policy /\
    Forall attempt_ok (cr_attempts call) /\ attempts_chained (cr_attempts call) /\
    ar_number last_one = length (cr_attempts call) /\ ar_end last_one = cr_finished call /\
    outcome_of last_one (cr_outcome call) /\ stops last_one allowed.
Proof.
  intros Hbudget. cbv zeta. unfold httpCall. set (allowed := maxAttempts _ _).
  assert (Hallowed : (0 < allowed)%nat) by (unfold allowed, maxAttempts; destruct (retriesAllowed _ _); lia).
  destruct (call_loop_spec (allowed - 1) 1 started) as (a & rest & E & _ & _ & Hall & Hchain & Hlen & Hfin & l & Hlast & Hnum & Hend & Hout & Hstops);
    [unfold deadline; lia|lia|].
  rewrite E. exists l. unfold deadline in Hfin. split_and!; try done; [cbn; lia|lia|lia|].
  by replace allowed with (1 + (allowed - 1))%nat at 1 by lia.
Qed.
End Budget.
Lemma http_call_within_budget_witness :
  exists last_one, last (cr_attempts (sample_call "get" no_call_options)) = Some last_one /\ ar_number last_one = 3%nat /\
    cr_finished (sample_call "get" no_call_options) <= 1000 + 8000.
Proof.
  destruct (http_call_within_budget (fun _ => None) (call_policy no_call_options) 1000 sample_attempts no_random (fun _ => false) None
              ltac:(vm_compute; discriminate) ltac:(vm_compute; discriminate) (Some "get"%string) eq_refl)
    as (l & Hl & _ & [_ Hf] & _ & _ & Hn & _).
  exists l. split; [exact Hl|]. split; [rewrite Hn; vm_compute; reflexivity|exact Hf].
Defined.
