(* ===== verification/KeysetPagination.v ===== *)
(** [app/pagination-utils.ts]: pages cut by a cursor from a list that may change between
    two fetches, and the offset pages of the older views.

    [locale] is [localeCompare], [encode] the base64 text of [JSON.stringify] and [decode]
    its converse ([None] when it throws), [number_text] is [String] of a number that is no
    integer.  The sort keys of a dataset are of one type. *)

From S2P Require Import Prelude JsString JsValue CronParser WasmReader.
From stdpp Require Import base list sets fin_sets gmap strings numbers sorting.
From Stdlib Require Import ZArith Lia Ascii.
#[local] Open Scope Z_scope.

(** ** Cursors *)

Inductive SortKey : Type := key_number (n : Z) (d : positive) | key_string (s : string).
Record KeysetCursor : Type := mkKeyset { kc_sortKey : SortKey; kc_id : string }.
Definition CURSOR_PAYLOAD_VERSION : Z := 2.
Inductive SortDirection : Type := sort_asc | sort_desc.
Inductive PageError : Type := limit_not_positive | cursor_mismatch | cursor_version.
Inductive BoundCursorDecode : Type :=
  | bound_ok (cursor : KeysetCursor) | bound_invalid | bound_unsupported | bound_scope_mismatch.
Record KeysetPage (A : Type) : Type := mkPage { kp_items : list A; kp_total : Z; kp_nextCursor : option string; kp_hasMore : bool }.
Arguments mkPage {A} _ _ _ _.
Arguments kp_items {A} _.
Arguments kp_total {A} _.
Arguments kp_nextCursor {A} _.
Arguments kp_hasMore {A} _.

Definition key_json (k : SortKey) : json :=
  match k with key_number n 1 => JNum n | key_number n d => JFrac n d | key_string s => JStr s end.
Definition json_key (v : option json) : option SortKey :=
  match v with
  | Some (JNum n) => Some (key_number n 1)
  | Some (JFrac n d) => Some (key_number n d)
  | Some (JStr s) => Some (key_string s)
  | _ => None
  end.
Definition json_string (v : option json) : option string := match v with Some (JStr s) => Some s | _ => None end.

Section Keyset.
Context (locale : string -> string -> Z) (number_text : Z -> positive -> string).
Context (encode : json -> string) (decode : string -> option json).

Definition bound_payload (cursor : KeysetCursor) (scope : string) : json :=
  JObj [("v", JNum CURSOR_PAYLOAD_VERSION); ("sortKey", key_json (kc_sortKey cursor)); ("id", JStr (kc_id cursor));
        ("scope", JStr scope)]%string.
Definition encodeBoundCursor (cursor : KeysetCursor) (scope : string) : string := encode (bound_payload cursor scope).
Definition decodeBoundCursor (cursorStr expectedScope : string) : BoundCursorDecode :=
  if decide (cursorStr = ""%string) then bound_invalid
  else
    match decode cursorStr with
    | Some (JObj parsed) =>
        match prop "v" parsed with
        | None => bound_invalid
        | Some v =>
            if negb (bool_decide (v = JNum CURSOR_PAYLOAD_VERSION)) then bound_unsupported
            else
              match json_string (prop "id" parsed), json_key (prop "sortKey" parsed), json_string (prop "scope" parsed) with
              | Some id, Some sortKey, Some scope =>
                  if decide (scope = expectedScope) then bound_ok (mkKeyset sortKey id) else bound_scope_mismatch
              | _, _, _ => bound_invalid
              end
        end
    | _ => bound_invalid
    end.
Definition plain_payload (cursor : KeysetCursor) : json :=
  JObj [("sortKey", key_json (kc_sortKey cursor)); ("id", JStr (kc_id cursor))]%string.
Definition encodeCursor (cursor : KeysetCursor) : string := encode (plain_payload cursor).
Definition decodeCursor (cursorStr : string) : option KeysetCursor :=
  if decide (cursorStr = ""%string) then None
  else
    match decode cursorStr with
    | Some (JObj parsed) =>
        match json_string (prop "id" parsed), json_key (prop "sortKey" parsed) with
        | Some id, Some sortKey => Some (mkKeyset sortKey id)
        | _, _ => None
        end
    | _ => None
    end.
Definition isLegacyOrInvalidCursor (cursorStr : string) : bool :=
  if decide (cursorStr = ""%string) then false else match decodeCursor cursorStr with None => true | Some _ => false end.

(** ** Order *)

Definition key_text (k : SortKey) : string :=
  match k with key_number n 1 => num_to_string n | key_number n d => number_text n d | key_string s => s end.
(** A number with the sign of the one the comparator returns. *)
Definition key_diff (a b : SortKey) : Z :=
  match a, b with
  | key_number m c, key_number n d => m * Zpos d - n * Zpos c
  | x, y => locale (key_text x) (key_text y)
  end.
Definition signed (direction : SortDirection) (x : Z) : Z := match direction with sort_asc => x | sort_desc => - x end.
Definition compareKeyset (a b : KeysetCursor) (direction : SortDirection) : Z :=
  let primaryDiff := key_diff (kc_sortKey a) (kc_sortKey b) in
  if negb (primaryDiff =? 0) then signed direction primaryDiff
  else signed direction (locale (kc_id a) (kc_id b)).

(** ** Pages *)

Section Items.
Context {Item : Type} (getItemKeyset : Item -> KeysetCursor) (direction : SortDirection).
Definition keyset_le (a b : Item) : bool := compareKeyset (getItemKeyset a) (getItemKeyset b) direction <=? 0.
Definition after_cursor (c : KeysetCursor) (x : Item) : bool := 0 <? compareKeyset (getItemKeyset x) c direction.
(** What a cursor leaves of the sorted list; a cursor that cannot be read is reset. *)
Definition past_cursor (cursor scope : option string) (sorted : list Item) : result PageError (list Item) :=
  match truthy cursor with
  | None => Ok sorted
  | Some c =>
      match truthy scope with
      | Some scope =>
          match decodeBoundCursor c scope with
          | bound_scope_mismatch => Err cursor_mismatch
          | bound_unsupported => Err cursor_version
          | bound_ok target => Ok (List.filter (after_cursor target) sorted)
          | bound_invalid => Ok sorted
          end
      | None =>
          match decodeCursor c with
          | None => Ok sorted
          | Some decoded => Ok (List.filter (after_cursor decoded) sorted)
          end
      end
  end.
Definition paginateKeyset (items : list Item) (cursor scope : option string) (limit : Z) : result PageError (KeysetPage Item) :=
  if limit <=? 0 then Err limit_not_positive
  else
    filtered ← past_cursor cursor scope (sort_by keyset_le items);
    let pageItems := js_slice filtered 0 limit in
    let hasMore := limit <? Z.of_nat (length filtered) in
    let nextCursor :=
      match hasMore, last pageItems with
      | true, Some x => Some (match truthy scope with
                              | Some scope => encodeBoundCursor (getItemKeyset x) scope
                              | None => encodeCursor (getItemKeyset x)
                              end)
      | _, _ => None
      end in
    Ok (mkPage pageItems (Z.of_nat (length items)) nextCursor hasMore).
End Items.
End Keyset.

Record RunStamps : Type := mkStamps { rs_id : string; rs_queuedAt : option string; rs_startedAt : option string; rs_createdAt : option string }.
(** [a || b]. *)
Definition falsy_or (a b : option string) : option string := match truthy a with Some s => Some s | None => b end.
Definition getRunKeyset (run : RunStamps) : KeysetCursor :=
  mkKeyset (key_string (default ""%string (falsy_or (falsy_or (rs_queuedAt run) (rs_startedAt run)) (rs_createdAt run)))) (rs_id run).
Record ArtifactKeysetSource : Type := mkArtifactSource { as_id : string; as_createdAt : option string; as_updatedAt : option string }.
Definition getArtifactKeyset (artifact : ArtifactKeysetSource) : KeysetCursor :=
  mkKeyset (key_string (default ""%string (falsy_or (as_updatedAt artifact) (as_createdAt artifact)))) (as_id artifact).

(** ** Offset pages *)

Record PaginationState : Type := mkPagination { pg_currentPage : Z; pg_totalPages : Z; pg_pageSize : Z; pg_totalItems : Z }.
Definition computeTotalPages (totalItems pageSize : Z) : result PageError Z :=
  if pageSize <=? 0 then Err limit_not_positive else Ok (Z.max 1 (- (- totalItems / pageSize))).
Definition getPageSlice {A} (items : list A) (page pageSize : Z) : result PageError (list A) :=
  if pageSize <=? 0 then Err limit_not_positive
  else let start := (page - 1) * pageSize in Ok (js_slice items start (start + pageSize)).
Definition clampPage (page totalPages : Z) : Z := Z.min (Z.max 1 page) totalPages.
Definition buildPaginationState (totalItems currentPage pageSize : Z) : result PageError PaginationState :=
  totalPages ← computeTotalPages totalItems pageSize;
  Ok (mkPagination (clampPage currentPage totalPages) totalPages pageSize totalItems).

(** ** The order is total *)

(** A comparison of texts that orders them and tells them apart. *)
Record locale_order (locale : string -> string -> Z) : Prop := mkLocaleOrder
  { co_eq : forall a b, locale a b = 0 <-> a = b;
    co_flip : forall a b, locale a b < 0 <-> 0 < locale b a;
    co_trans : forall a b c, locale a b <= 0 -> locale b c <= 0 -> locale a c <= 0 }.
Definition same_kind (a b : KeysetCursor) : Prop :=
  match kc_sortKey a, kc_sortKey b with
  | key_number _ _, key_number _ _ | key_string _, key_string _ => True
  | _, _ => False
  end.

Section Order.
Context (locale : string -> string -> Z) (number_text : Z -> positive -> string) (Hco : locale_order locale).
Notation diff := (key_diff locale number_text).
Notation compare := (compareKeyset locale number_text).

Lemma locale_le_flip a b : locale a b <= 0 <-> 0 <= locale b a.
Proof. pose proof (co_flip _ Hco b a). lia. Qed.
Lemma diff_flip a b : same_kind a b -> diff (kc_sortKey a) (kc_sortKey b) < 0 <-> 0 < diff (kc_sortKey b) (kc_sortKey a).
Proof. unfold same_kind. destruct (kc_sortKey a), (kc_sortKey b); cbn; intros Hk; try done; [lia|apply (co_flip _ Hco)]. Qed.
Lemma diff_trans a b c : same_kind a b -> same_kind b c ->
  diff (kc_sortKey a) (kc_sortKey b) <= 0 -> diff (kc_sortKey b) (kc_sortKey c) <= 0 -> diff (kc_sortKey a) (kc_sortKey c) <= 0.
Proof.
  unfold same_kind. destruct (kc_sortKey a), (kc_sortKey b), (kc_sortKey c); cbn; intros H1 H2; try done; [nia|apply (co_trans _ Hco)].
Qed.
Lemma same_kind_sym a b : same_kind a b -> same_kind b a.
Proof. unfold same_kind. by destruct (kc_sortKey a), (kc_sortKey b). Qed.
Lemma same_kind_trans a b c : same_kind a b -> same_kind b c -> same_kind a c.
Proof. unfold same_kind. by destruct (kc_sortKey a), (kc_sortKey b), (kc_sortKey c). Qed.

(** The ascending order first. *)
Lemma asc_flip a b : same_kind a b -> compare a b sort_asc < 0 <-> 0 < compare b a sort_asc.
Proof.
  intros Hk. pose proof (diff_flip a b Hk). pose proof (diff_flip b a (same_kind_sym _ _ Hk)). unfold compareKeyset. cbn [signed].
  pose proof (co_flip _ Hco (kc_id a) (kc_id b)).
  destruct (Z.eqb_spec (diff (kc_sortKey a) (kc_sortKey b)) 0), (Z.eqb_spec (diff (kc_sortKey b) (kc_sortKey a)) 0); cbn; lia.
Qed.
Lemma asc_trans a b c : same_kind a b -> same_kind b c ->
  compare a b sort_asc <= 0 -> compare b c sort_asc <= 0 -> compare a c sort_asc <= 0.
Proof.
  intros H1 H2. pose proof (diff_trans a b c H1 H2) as T1.
  pose proof (diff_trans c b a (same_kind_sym _ _ H2) (same_kind_sym _ _ H1)) as T2.
  pose proof (diff_trans b c a H2 (same_kind_sym _ _ (same_kind_trans _ _ _ H1 H2))) as T3.
  pose proof (diff_trans c a b (same_kind_sym _ _ (same_kind_trans _ _ _ H1 H2)) H1) as T4.
  pose proof (diff_flip a b H1). pose proof (diff_flip b a (same_kind_sym _ _ H1)).
  pose proof (diff_flip b c H2). pose proof (diff_flip c b (same_kind_sym _ _ H2)).
  pose proof (diff_flip a c (same_kind_trans _ _ _ H1 H2)). pose proof (diff_flip c a (same_kind_sym _ _ (same_kind_trans _ _ _ H1 H2))).
  pose proof (co_trans _ Hco (kc_id a) (kc_id b) (kc_id c)). unfold compareKeyset. cbn [signed].
  destruct (Z.eqb_spec (diff (kc_sortKey a) (kc_sortKey b)) 0), (Z.eqb_spec (diff (kc_sortKey b) (kc_sortKey c)) 0),
    (Z.eqb_spec (diff (kc_sortKey a) (kc_sortKey c)) 0); cbn; lia.
Qed.
Lemma asc_eq a b : compare a b sort_asc = 0 -> kc_id a = kc_id b.
Proof. unfold compareKeyset. cbn. destruct (Z.eqb_spec (diff (kc_sortKey a) (kc_sortKey b)) 0); cbn; [|lia]. apply (co_eq _ Hco). Qed.
Lemma desc_opp a b : compare a b sort_desc = - compare a b sort_asc.
Proof. unfold compareKeyset. cbn. by destruct (negb _). Qed.

Lemma compare_flip d a b : same_kind a b -> compare a b d < 0 <-> 0 < compare b a d.
Proof.
  intros H. pose proof (asc_flip a b H). pose proof (asc_flip b a (same_kind_sym _ _ H)).
  destruct d; [done|]. rewrite !desc_opp. lia.
Qed.
Lemma compare_trans d a b c : same_kind a b -> same_kind b c -> compare a b d <= 0 -> compare b c d <= 0 -> compare a c d <= 0.
Proof.
  intros H1 H2. pose proof (same_kind_trans _ _ _ H1 H2) as H3. destruct d; [by apply asc_trans|]. rewrite !desc_opp.
  pose proof (asc_trans c b a (same_kind_sym _ _ H2) (same_kind_sym _ _ H1)).
  pose proof (asc_flip a b H1). pose proof (asc_flip b c H2). pose proof (asc_flip a c H3).
  pose proof (asc_flip c a (same_kind_sym _ _ H3)). pose proof (asc_flip b a (same_kind_sym _ _ H1)).
  pose proof (asc_flip c b (same_kind_sym _ _ H2)). lia.
Qed.
Lemma compare_eq d a b : compare a b d = 0 -> kc_id a = kc_id b.
Proof. destruct d; [apply asc_eq|]. rewrite desc_opp. intros. apply asc_eq. lia. Qed.
(** Strictly before, then at or before. *)
Lemma compare_lt_trans d a b c : same_kind a b -> same_kind b c -> compare a b d < 0 -> compare b c d <= 0 -> compare a c d < 0.
Proof.
  intros H1 H2 Hab Hbc. pose proof (same_kind_trans _ _ _ H1 H2) as H3. apply Z.nle_gt. intros Hca.
  assert (Hac : compare c a d <= 0) by (pose proof (compare_flip d c a (same_kind_sym _ _ H3)); pose proof (compare_flip d a c H3); lia).
  pose proof (compare_trans d b c a H2 (same_kind_sym _ _ H3) Hbc Hac). pose proof (compare_flip d a b H1). lia.
Qed.
Lemma compare_le_lt_trans d a b c : same_kind a b -> same_kind b c -> compare a b d <= 0 -> compare b c d < 0 -> compare a c d < 0.
Proof.
  intros H1 H2 Hab Hbc. pose proof (same_kind_trans _ _ _ H1 H2) as H3. apply Z.nle_gt. intros Hca.
  assert (Hac : compare c a d <= 0) by (pose proof (compare_flip d c a (same_kind_sym _ _ H3)); pose proof (compare_flip d a c H3); lia).
  pose proof (compare_trans d c a b (same_kind_sym _ _ H3) H1 Hac Hab). pose proof (compare_flip d b c H2). lia.
Qed.
End Order.

(** ** Passes over a changing dataset *)

Section Passes.
Context (locale : string -> string -> Z) (number_text : Z -> positive -> string) (Hco : locale_order locale).
Context (encode : json -> string) (decode : string -> option json).
Context {Item : Type} (key : Item -> KeysetCursor) (direction : SortDirection).
Context (Hkind : forall x y, same_kind (key x) (key y)).
Notation compare := (compareKeyset locale number_text).
Notation paginate := (paginateKeyset locale number_text encode decode key direction).
Notation le := (keyset_le locale number_text key direction).
Notation after := (after_cursor locale number_text key direction).

(** The text of a payload is read back. *)
Definition reads_back (v : json) : Prop := encode v <> ""%string /\ decode (encode v) = Some v.
Lemma json_key_key k : json_key (Some (key_json k)) = Some k.
Proof. destruct k as [n [| |]|]; done. Qed.
(** A cursor is read by the query that issued it, and refused by every other. *)
Lemma bound_decoded c scope scope' : reads_back (bound_payload c scope) ->
  decodeBoundCursor decode (encodeBoundCursor encode c scope) scope' = if decide (scope = scope') then bound_ok c else bound_scope_mismatch.
Proof.
  intros [Hne Hd]. unfold decodeBoundCursor, encodeBoundCursor. rewrite decide_False, Hd by done. unfold bound_payload.
  change (prop "v" _) with (Some (JNum CURSOR_PAYLOAD_VERSION)). cbv iota beta. rewrite bool_decide_eq_true_2 by done. cbn [negb].
  change (prop "id" _) with (Some (JStr (kc_id c))). change (prop "sortKey" _) with (Some (key_json (kc_sortKey c))).
  change (prop "scope" _) with (Some (JStr scope)). rewrite json_key_key. cbn [json_string]. by destruct c.
Qed.
Lemma plain_roundtrip c : reads_back (plain_payload c) -> decodeCursor decode (encodeCursor encode c) = Some c.
Proof.
  intros [Hne Hd]. unfold decodeCursor, encodeCursor. rewrite decide_False, Hd by done. unfold plain_payload.
  change (prop "id" _) with (Some (JStr (kc_id c))). change (prop "sortKey" _) with (Some (key_json (kc_sortKey c))).
  rewrite json_key_key. cbn [json_string]. by destruct c.
Qed.
(** What [nextCursor] of a page in this scope holds. *)
Definition payload_of (scope : option string) (t : KeysetCursor) : json :=
  match truthy scope with Some s => bound_payload t s | None => plain_payload t end.
(** A target taken from an item. *)
Definition from_item (target : option KeysetCursor) : Prop := match target with Some t => exists x, key x = t | None => True end.
Context (scope : option string) (Hround : forall x, reads_back (payload_of scope (key x))).

(** What follows [target] in a dataset, sorted; everything without a target. *)
Definition rest_of (target : option KeysetCursor) (items : list Item) : list Item :=
  match target with
  | None => sort_by le items
  | Some t => List.filter (after t) (sort_by le items)
  end.
Definition cursor_text_of (target : option KeysetCursor) : option string := (fun t => encode (payload_of scope t)) <$> target.
Lemma past_cursor_text target items : from_item target ->
  past_cursor locale number_text decode key direction (cursor_text_of target) scope (sort_by le items) = Ok (rest_of target items).
Proof.
  destruct target as [t|]; [|done]. intros [x <-]. specialize (Hround x). unfold payload_of in Hround.
  unfold past_cursor, cursor_text_of, payload_of. cbn [fmap option_fmap option_map]. destruct (truthy scope) as [s|] eqn:Es.
  - unfold truthy at 1. rewrite decide_False by apply Hround. change (encode (bound_payload (key x) s)) with (encodeBoundCursor encode (key x) s).
    rewrite bound_decoded by done. by rewrite decide_True.
  - unfold truthy at 1. rewrite decide_False by apply Hround. change (encode (plain_payload (key x))) with (encodeCursor encode (key x)).
    by rewrite plain_roundtrip.
Qed.
(** The pages a client sees that follows [nextCursor], each cut from the dataset of its
    moment, and whether it reached the end. *)
Fixpoint pages_followed (limit : Z) (cursor : option string) (datasets : list (list Item)) : list Item * bool :=
  match datasets with
  | [] => ([], false)
  | items :: later =>
      match paginate items cursor scope limit with
      | Err _ => ([], false)
      | Ok page =>
          match kp_nextCursor page with
          | None => (kp_items page, true)
          | next => let '(more, ended) := pages_followed limit next later in (kp_items page ++ more, ended)
          end
      end
  end.

Lemma js_slice_take {A} (l : list A) n : 0 < n -> js_slice l 0 n = take (Z.to_nat n) l.
Proof.
  intros Hn. unfold js_slice. rewrite (proj2 (Z.ltb_ge 0 0)) by lia. rewrite (proj2 (Z.ltb_ge n 0)) by lia.
  rewrite (Z.min_l 0) by lia. cbn [Z.to_nat]. rewrite drop_0, Z.sub_0_r.
  destruct (Z.le_ge_cases n (Z.of_nat (length l))); [by rewrite Z.min_l by lia|].
  rewrite Z.min_r by lia. rewrite Nat2Z.id, !take_ge by lia. done.
Qed.
(** One page: the first [limit] items of what follows; the next target is the key of its
    last item, when more follow. *)
Lemma page_spec limit target items : 0 < limit -> from_item target ->
  let rest := rest_of target items in
  exists page, paginate items (cursor_text_of target) scope limit = Ok page /\
    kp_items page = take (Z.to_nat limit) rest /\
    (if Z.of_nat (length rest) <=? limit then kp_nextCursor page = None
     else exists x, last (take (Z.to_nat limit) rest) = Some x /\ kp_nextCursor page = cursor_text_of (Some (key x))).
Proof.
  intros Hl Hfrom rest. unfold paginateKeyset. rewrite (proj2 (Z.leb_gt limit 0)) by lia. rewrite past_cursor_text by done. cbn [mbind result_bind].
  fold rest. rewrite js_slice_take by done. eexists. split; [reflexivity|]. split; [done|]. cbn [kp_nextCursor].
  destruct (Z.leb_spec (Z.of_nat (length rest)) limit) as [H|H].
  - by rewrite (proj2 (Z.ltb_ge limit _)) by lia.
  - rewrite (proj2 (Z.ltb_lt limit _)) by lia. destruct (last (take (Z.to_nat limit) rest)) as [x|] eqn:E.
    + exists x. split; [done|]. unfold cursor_text_of, payload_of. cbn. by destruct (truthy scope).
    + exfalso. apply last_None in E. apply (f_equal length) in E. rewrite length_take in E. cbn in E. lia.
Qed.

Notation before := (fun x y => compare (key x) (key y) direction < 0).
Lemma after_iff t x : after t x = true <-> 0 < compare (key x) t direction.
Proof. unfold after_cursor. apply Z.ltb_lt. Qed.
Lemma keyset_total a b : le a b = true \/ le b a = true.
Proof. unfold keyset_le. rewrite !Z.leb_le. pose proof (compare_flip locale number_text Hco direction (key a) (key b) (Hkind a b)). pose proof (compare_flip locale number_text Hco direction (key b) (key a) (Hkind b a)). lia. Qed.
Lemma keyset_trans a b c : le a b = true -> le b c = true -> le a c = true.
Proof. unfold keyset_le. rewrite !Z.leb_le. by apply compare_trans. Qed.
(** Sorted, and strictly where no two items share an id. *)
Lemma strictly_sorted items :
  NoDup (kc_id ∘ key <$> items) -> StronglySorted before (sort_by le items).
Proof.
  intros Hn. pose proof (sort_by_sorted le keyset_total keyset_trans items) as Hs.
  rewrite <- (sort_by_perm le items) in Hn. induction Hs as [|x l Hs IH Hx]; [constructor|].
  cbn in Hn. apply NoDup_cons in Hn as [Hnx Hn]. constructor; [by apply IH|]. apply Forall_forall. intros y Hy.
  rewrite Forall_forall in Hx. specialize (Hx y Hy). unfold keyset_le in Hx. apply Z.leb_le in Hx.
  destruct (Z.eq_dec (compare (key x) (key y) direction) 0) as [E|E]; [|lia]. exfalso. apply Hnx.
  apply (compare_eq locale number_text Hco) in E. apply list_elem_of_fmap. by exists y.
Qed.
Lemma sorted_filter (p : Item -> bool) l : StronglySorted before l -> StronglySorted before (List.filter p l).
Proof.
  induction 1 as [|x l Hs IH Hx]; cbn; [constructor|]. destruct (p x); [|done]. constructor; [done|].
  rewrite Forall_forall in *. intros y Hy. apply Hx. apply list_elem_of_In, filter_In in Hy as [Hy _]. by apply list_elem_of_In.
Qed.
Lemma rest_sorted target items : NoDup (kc_id ∘ key <$> items) -> StronglySorted before (rest_of target items).
Proof. intros H. apply strictly_sorted in H. destruct target; [by apply sorted_filter|done]. Qed.
Lemma elem_of_rest target items x :
  x ∈ rest_of target items <-> x ∈ items /\ match target with Some t => 0 < compare (key x) t direction | None => True end.
Proof.
  unfold rest_of. destruct target as [t|]; [|rewrite elem_of_sort_by; tauto].
  rewrite list_elem_of_In, filter_In, <- list_elem_of_In, elem_of_sort_by, after_iff. done.
Qed.


Definition past (target : option KeysetCursor) (k : KeysetCursor) : Prop :=
  match target with Some t => 0 < compare k t direction | None => True end.
Definition distinct_ids (items : list Item) : Prop := NoDup (kc_id ∘ key <$> items).
Definition has_key (k : KeysetCursor) (items : list Item) : Prop := exists x, x ∈ items /\ key x = k.

Lemma elem_of_page n (l : list Item) x : x ∈ take n l -> x ∈ l.
Proof. intros H. rewrite <- (take_drop n l). apply elem_of_app. by left. Qed.
(** A full page: what stays behind its last item, and what comes after. *)
Lemma full_page rest n x :
  StronglySorted before rest -> last (take n rest) = Some x ->
  (forall a, a ∈ take n rest -> compare (key a) (key x) direction <= 0) /\
  (forall b, b ∈ rest -> compare (key b) (key x) direction <= 0 -> b ∈ take n rest) /\ x ∈ take n rest.
Proof.
  intros Hs Hx. apply last_Some in Hx as [l0 Hx]. pose proof (take_drop n rest) as E.
  assert (Hin : x ∈ take n rest) by (rewrite Hx; apply elem_of_app; right; by left). split_and!; [| |done].
  - intros a Ha. rewrite Hx in Ha. apply elem_of_app in Ha as [Ha|Ha%list_elem_of_singleton].
    + rewrite <- E, Hx, <- app_assoc in Hs. apply StronglySorted_app in Hs as (H & _ & _). apply Z.lt_le_incl, H; [done|]. by left.
    + subst a. apply Z.nlt_ge. intros H. pose proof (compare_flip locale number_text Hco direction (key x) (key x) (Hkind x x)). lia.
  - intros b Hb Hle. rewrite <- E in Hb, Hs. apply elem_of_app in Hb as [Hb|Hb]; [done|]. exfalso.
    apply StronglySorted_app in Hs as (H & _ & _). specialize (H x b Hin Hb). cbn in H. apply (compare_flip _ _ Hco) in H; [lia|apply Hkind].
Qed.
Lemma follow_spec limit target datasets :
  0 < limit -> from_item target -> Forall distinct_ids datasets ->
  let '(rows, ended) := pages_followed limit (cursor_text_of target) datasets in
  StronglySorted before rows /\ Forall (fun x => past target (key x)) rows /\
  (ended = true -> forall k, Forall (has_key k) datasets -> past target k -> has_key k rows).
Proof.
  intros Hl. revert target. induction datasets as [|items later IH]; intros target Hfrom Hall; cbn [pages_followed];
    [by split_and!; [constructor|constructor|]|].
  apply Forall_cons_1 in Hall as [Hn Hall]. pose proof (rest_sorted target items Hn) as Hs.
  destruct (page_spec limit target items Hl Hfrom) as (page & -> & Hitems & Hnext). set (rest := rest_of target items) in *.
  assert (Hpast : forall x, x ∈ rest -> past target (key x)) by (intros x Hx; by apply elem_of_rest in Hx as [_ Hx]).
  destruct (Z.leb_spec (Z.of_nat (length rest)) limit) as [Hlen|Hlen].
  - rewrite Hnext, Hitems, take_ge by lia. split; [done|]. split; [by apply Forall_forall|]. intros _ k Hk Hpk.
    apply Forall_cons_1 in Hk as [(y & Hy & <-) _]. exists y. split; [|done]. by apply elem_of_rest.
  - destruct Hnext as (x & Hx & Hnext). rewrite Hnext. cbn [cursor_text_of fmap option_fmap option_map].
    destruct (full_page rest _ x Hs Hx) as (Hle & Hback & Hin).
    assert (Hfx : from_item (Some (key x))) by (by exists x). specialize (IH (Some (key x)) Hfx Hall).
    change (Some (encode (payload_of scope (key x)))) with (cursor_text_of (Some (key x))).
    destruct (pages_followed limit (cursor_text_of (Some (key x))) later) as [more ended].
    destruct IH as (Hms & Hmp & Hend). rewrite Hitems. rewrite Forall_forall in Hmp.
    assert (Hlt : forall a m, a ∈ take (Z.to_nat limit) rest -> m ∈ more -> compare (key a) (key m) direction < 0).
    { intros a m Ha Hm. apply (compare_le_lt_trans locale number_text Hco direction _ (key x)); try apply Hkind; [by apply Hle|].
      apply (compare_flip _ _ Hco); [apply Hkind|]. by apply (Hmp m). }
    split; [|split].
    + apply StronglySorted_app. split; [exact Hlt|]. split; [|done]. rewrite <- (take_drop (Z.to_nat limit) rest) in Hs. by apply StronglySorted_app in Hs as (_ & Hs & _).
    + apply Forall_forall. intros a [Ha|Ha]%elem_of_app; [apply Hpast; by eapply elem_of_page|]. destruct target as [t|]; [|done].
      destruct Hfrom as [x0 <-]. cbn [past]. apply (compare_flip _ _ Hco); [apply Hkind|].
      apply (compare_lt_trans locale number_text Hco direction _ (key x)); try apply Hkind.
      * apply (compare_flip _ _ Hco); [apply Hkind|]. apply (Hpast x). by eapply elem_of_page.
      * apply Z.lt_le_incl. by apply Hlt.
    + intros He k Hk Hpk. apply Forall_cons_1 in Hk as [(y & Hy & <-) Hk].
      destruct (Z.lt_ge_cases 0 (compare (key y) (key x) direction)) as [H|H].
      * destruct (Hend He (key y) Hk H) as (z & Hz & Ez). exists z. split; [by apply elem_of_app; right|done].
      * exists y. split; [|done]. apply elem_of_app. left. apply Hback; [|done]. by apply elem_of_rest.
Qed.

End Passes.

(** ** Sorting the runs table ([app/runs-sort-utils.ts]) *)

Inductive RunSortField : Type :=
  | by_queuedAt | by_startedAt | by_duration | by_seedCount | by_status | by_area | by_severity | by_id.
#[export] Instance RunSortField_eq : EqDecision RunSortField.
Proof. solve_decision. Defined.
Definition RUN_SORT_FIELDS : list RunSortField :=
  [by_queuedAt; by_startedAt; by_duration; by_seedCount; by_status; by_area; by_severity; by_id].
Definition sort_field_name (f : RunSortField) : string :=
  match f with
  | by_queuedAt => "queuedAt" | by_startedAt => "startedAt" | by_duration => "duration" | by_seedCount => "seedCount"
  | by_status => "status" | by_area => "area" | by_severity => "severity" | by_id => "id"
  end.
Definition isRunSortField (value : string) : option RunSortField :=
  List.find (fun f => bool_decide (sort_field_name f = value)) RUN_SORT_FIELDS.
Record SortedRun : Type := mkSortedRun
  { sr_stamps : RunStamps; sr_duration : Z * positive; sr_seedCount : Z; sr_status : string; sr_area : string; sr_severity : string }.
Definition getRunSortValue (run : SortedRun) (field : RunSortField) : SortKey :=
  match field with
  | by_id => key_string (rs_id (sr_stamps run))
  | by_duration => key_number (sr_duration run).1 (sr_duration run).2
  | by_seedCount => key_number (sr_seedCount run) 1
  | by_status => key_string (sr_status run)
  | by_area => key_string (sr_area run)
  | by_severity => key_string (sr_severity run)
  | by_startedAt => key_string (default ""%string (rs_startedAt (sr_stamps run)))
  | by_queuedAt => key_string (default ""%string (falsy_or (falsy_or (rs_queuedAt (sr_stamps run)) (rs_startedAt (sr_stamps run))) (rs_createdAt (sr_stamps run))))
  end.
Section Sorting.
Context (locale : string -> string -> Z) (number_text : Z -> positive -> string).
Definition compareRuns (a b : SortedRun) (field : RunSortField) (direction : SortDirection) : Z :=
  let diff := key_diff locale number_text (getRunSortValue a field) (getRunSortValue b field) in
  let diff := if diff =? 0 then locale (rs_id (sr_stamps a)) (rs_id (sr_stamps b)) else diff in
  match direction with sort_asc => diff | sort_desc => - diff end.
Definition sortRuns (runs : list SortedRun) (field : RunSortField) (direction : SortDirection) : list SortedRun :=
  sort_by (fun a b => compareRuns a b field direction <=? 0) runs.
Definition getRunSortKeyset (run : SortedRun) (field : RunSortField) : KeysetCursor :=
  mkKeyset (getRunSortValue run field) (rs_id (sr_stamps run)).
(** The client sorts a column as the server cuts its pages. *)
Lemma compare_runs_keyset a b field direction :
  compareRuns a b field direction =
  compareKeyset locale number_text (getRunSortKeyset a field) (getRunSortKeyset b field) direction.
Proof. unfold compareRuns, compareKeyset, getRunSortKeyset. cbn [kc_sortKey kc_id]. by destruct (_ =? 0), direction. Qed.
Lemma default_sort_keyset run : getRunSortKeyset run by_queuedAt = getRunKeyset (sr_stamps run).
Proof. done. Qed.
Lemma column_same_kind a b field : same_kind (getRunSortKeyset a field) (getRunSortKeyset b field).
Proof. by destruct field. Qed.
End Sorting.

(** ** Examples *)

Definition plain_locale (a b : string) : Z := if decide (a = b) then 0 else if str_le a b then -1 else 1.
Lemma plain_locale_order : locale_order plain_locale.
Proof.
  unfold plain_locale. split.
  - intros a b. destruct (decide (a = b)); [done|]. destruct (str_le a b); done.
  - intros a b. destruct (decide (a = b)) as [->|H]; [by rewrite decide_True|]. rewrite decide_False by congruence.
    destruct (str_le a b) eqn:E1, (str_le b a) eqn:E2; try lia.
    + exfalso. apply H. by apply str_le_antisym.
    + destruct (str_le_total a b); congruence.
  - intros a b c. destruct (decide (a = b)) as [->|H1]; [done|]. destruct (decide (b = c)) as [->|H2]; [by destruct (decide (a = c))|].
    destruct (str_le a b) eqn:E1; [|done]. destruct (str_le b c) eqn:E2; [|done]. intros _ _.
    rewrite (str_le_trans a b c E1 E2). by destruct (decide (a = c)).
Qed.
Definition toy_key (b : bool) : KeysetCursor := mkKeyset (key_string "t") (if b then "r1" else "r2").
Definition toy_encode (v : json) : string := if decide (v = plain_payload (toy_key true)) then "c1" else "c2".
Definition toy_decode (s : string) : option json := Some (plain_payload (toy_key (bool_decide (s = "c1"%string)))).
Definition toy_pages (datasets : list (list bool)) : list bool * bool :=
  pages_followed plain_locale (fun _ _ => ""%string) toy_encode toy_decode toy_key sort_desc None 1 None datasets.
Example page_examples :
  toy_pages [[true; false]; [true; false]] = ([false; true], true) /\ toy_pages [[true; false]] = ([false], false) /\
  getPageSlice [1; 2; 3; 4; 5] 2 2 = Ok [3; 4] /\ getPageSlice [1; 2; 3; 4; 5] 0 2 = Ok [] /\ getPageSlice [1; 2; 3; 4; 5] (-1) 2 = Ok [2; 3] /\
  buildPaginationState 5 9 2 = Ok (mkPagination 3 3 2 5).
Proof. vm_compute. done. Qed.
